(* ===== verification/_CoqProject ===== *)
-Q . S2P
Prelude.v
GoStrings.v
GoText.v
GoTime.v
Utf.v
Scan.v
ScanProps.v
Keywords.v
Analyze.v
AnalyzeFacts.v
AnalyzeProps.v
Types.v
SqlMeta.v
HttpPath.v
Inspect.v
HttpCodec.v
TdsCodec.v
TdsFacts.v
TdsProps.v
TdsRewrite.v
TdsRewriteFacts.v
TdsRewriteProps.v
TdsMask.v
PgCodec.v
PgRewrite.v
PgFacts.v
PgProps.v
Handshake.v
HandshakeProps.v
PgRewriteProps.v
Policy.v
PolicyProps.v
Json.v
Opa.v
AiCache.v
AiContent.v
AiEvaluator.v
AiBudget.v
AiProps.v
TwoPhase.v
Session.v
Sinks.v
SinkProps.v
Store.v
StoreFacts.v
StoreProps.v
StorePaging.v
StoreApi.v
ContentLength.v
HttpProps.v
Deny.v
Gate.v
GateProps.v
Relay.v
RelayProps.v
RelayFlow.v
Server.v
ServerProps.v
LaneProps.v
HandleProps.v
TdsLane.v
HttpLane.v
SideConfig.v
SideLanes.v
SideProps.v
BrokerQueue.v
BrokerWire.v
Addressing.v
LiveEvents.v
SessionLog.v
SessionFlush.v
SessionInput.v
RdpBands.v
Rle.v
RleProps.v
PiiCanvas.v
PiiGate.v
PiiGuarantee.v
Review.v
ReviewGate.v
