(* ===== verification/Prelude.v ===== *)
(** * hoop: a verification library

    The repository is an access gateway.  Two parts of it are modelled: the
    inspecting relay, whole, and those pieces of the gateway and the tunnel
    that have logic of their own between clients, agents and desktops.

    The relay (src/hoopinspect, Go).  A client's bytes
    and a server's bytes cross it; it reassembles protocol messages from the
    reads, finds the statements in them, asks a policy about each, records
    each on an audit trail, masks sensitive values in responses, and forwards
    or refuses.  This library models that path from the configuration and the
    accepted connection to the stored session and the query that reads it, for
    the Postgres, SQL Server and HTTP protocols, and proves what makes it
    correct.

    The gateway (src/gateway) brokers sessions between clients and agents over
    websockets; for remote desktops it analyses the screen before the client
    sees it.  The tunnel (src/tunnel) gives connections addresses of their own.

    ** The parts and how they interact

    - proxy/proxy.go accepts connections within a limit; for each it builds a
      session and a gate, dials the upstream, answers the client's pre-startup
      exchange (proxy/downstream.go), runs two pumps over the gate and closes
      the session; a pump passes the server's first bytes through the
      reassembler of the SASL offer (proxy/starttls.go) and explains a denial
      in the client's protocol (proxy/deny.go);
    - gate/gate.go turns one chunk of bytes into a decision: its two Inspectors
      (inspect.go) feed the chunk to a codec, the policy judges every
      statement, the audit sink records it, the masker rewrites responses
      through the codec's re-framing or by substitution with a corrected
      Content-Length (gate/contentlength.go);
    - codec/postgres and codec/mssql decode the wire in both directions and
      rebuild masked rows; a simple query is cut by lexer.Split and each piece
      analysed by lexer.Analyze through sqlmeta.go;
    - codec/http decodes requests and responses, names the resource of a path
      (codec/http/path.go) and exposes the configured headers and bodies;
    - policy/ holds rule sets (with deferral, findings, risk annotations) and
      chains of evaluators, among them the client of an external policy agent
      (policy/opa.go), which is asked before the analyzer runs, after it, or
      once; analyzer/ rates statements with a language model behind a cache, a
      budget and a redactor; session/ and audit/event.go hold the records;
    - audit/sink.go writes the records (to a file, to several sinks, to a ring,
      from a queue in the background), store/ keeps them queryable by session
      and store/api.go answers queries over HTTP;
    - sidecar/ validates a configuration and builds each lane from it: the
      policy chain, the codec, the masker, the audit chain and the server;
    - gateway/broker frames the messages of agents (headers.go), registers
      agents, and relays a session's stream through a queue with a byte budget
      (session.go); gateway/transport/websocket.go dispatches the frames;
    - gateway/rdp/piigate.go holds a desktop's stream until the screen it
      draws was analysed: it decodes the bitmaps (rle/rle.go), composites them
      on a shadow canvas, and has the rows that changed (analyzer/region.go)
      read and searched;
    - tunnel/addressing allocates an IPv6 and an IPv4 address per name.

    ** Files

    Support:
    - Prelude.v: bytes, notations, tactics, hint databases, shared lemmas on
      lists, options and fixed-width integers;
    - GoStrings.v, GoText.v, GoTime.v, Utf.v: what the source uses of Go's
      strings, strconv, sort, time, unicode/utf8 and unicode/utf16.  Unicode case mapping
      ([GoUnicode]), [%q] formatting and regular expressions ([GoLib]) are
      type classes, so results hold for any instance; [ascii_only] and
      [plain_lib] are concrete ones.

    Models (state as a [Record], one definition per operation, loops with fuel
    as [Fixpoint]s) with their theorems:
    - Scan.v (lexer/dialect.go, lexer/scan.go); ScanProps.v;
    - Keywords.v (lexer/keywords.go), Analyze.v (lexer/analyze.go);
      AnalyzeFacts.v, AnalyzeProps.v;
    - Types.v (statement types of inspect.go), SqlMeta.v (sqlmeta.go);
    - Inspect.v (Inspector of inspect.go, registry.go).  The class [Codec] is
      the Go interface; the class [Framed] is what a codec promises beyond it
      (decoding is the iteration of a step whose decisions are stable under
      more input), against which the Inspector's theorems are proved;
    - PgCodec.v (codec/postgres/postgres.go, response.go) with the instances
      of both classes; PgFacts.v, PgProps.v;
    - PgRewrite.v (codec/postgres/rewrite.go); PgRewriteProps.v;
    - TdsCodec.v (codec/mssql/mssql.go, encrypted.go) with the instances of
      both classes; TdsFacts.v, TdsProps.v;
    - TdsRewrite.v (codec/mssql/rewrite.go, colmeta.go, cell.go);
      TdsRewriteFacts.v, TdsRewriteProps.v, TdsMask.v;
    - HttpPath.v (codec/http/path.go), HttpCodec.v (codec/http/http.go);
      HttpProps.v.  net/http's readers are the class
      [NetHTTP];
    - Policy.v (policy/policy.go, http.go, pii.go, builders.go); PolicyProps.v;
    - Json.v (the values the policy agent's documents are made of), Opa.v
      (policy/opa.go).  The agent is the class [OpaServer];
    - AiCache.v (analyzer/cache.go), AiContent.v (analyzer/analyzer.go,
      content.go, prompt.go, registry.go), AiEvaluator.v
      (analyzer/evaluator.go), AiBudget.v (its concurrent evaluations as a
      transition system); AiProps.v; TwoPhase.v
      composes rules, agent and analyzer;
    - Session.v (session/session.go, audit/event.go);
    - Sinks.v (audit/sink.go); SinkProps.v;
    - Store.v (store/store.go, store/memory.go); StoreFacts.v, StoreProps.v,
      StorePaging.v;
    - StoreApi.v (store/api.go): the handlers are proved against the classes
      [StoreOps] and [StoreLaws], which the memory store discharges;
    - ContentLength.v (gate/contentlength.go);
    - Gate.v (gate/gate.go); GateProps.v;
    - Handshake.v (proxy/downstream.go, starttls.go); HandshakeProps.v;
    - Deny.v (proxy/deny.go) with its theorems;
    - Relay.v (the pumps of proxy/proxy.go); RelayProps.v, RelayFlow.v;
    - Server.v (the rest of proxy/proxy.go); ServerProps.v, HandleProps.v;
    - LaneProps.v, TdsLane.v and HttpLane.v put the Postgres, the SQL Server
      and the HTTP lane together and hold the concrete sessions;
    - SideConfig.v (sidecar/config.go, the configuration half of
      sidecar/analyzer.go), SideLanes.v (sidecar/sidecar.go, httpcodec.go, the
      building half of sidecar/analyzer.go, analyzer/secret.go); SideProps.v;
    - BrokerQueue.v (the relay of gateway/broker/session.go, its goroutines as
      a transition system), BrokerWire.v (gateway/broker/headers.go, the
      registry of session.go, the dispatch of transport/websocket.go), each
      with its theorems.  The JSON of a frame is the class [MessageJSON];
    - Addressing.v (tunnel/addressing/allocator.go) with its theorems.
      SHA-256 is a class;
    - RdpBands.v (gateway/rdp/analyzer/region.go) with its theorems;
    - Rle.v (gateway/rdp/rle/rle.go); RleProps.v (any input; what orders mean
      and how they are written; the simulation);
    - PiiCanvas.v (shadowCanvas of gateway/rdp/piigate.go, CompositeBitmap of
      analyzer/worker.go); PiiGate.v (the gate and its goroutines),
      PiiGuarantee.v (batches, the invariant and the theorems).  The WASM parser
      of the desktop protocol is the class [RdpParser], the analyser's verdict
      comes with the step;
    - SessionLog.v (gateway/session/eventlog/v1, gateway/session/wal): events
      and the write ahead log; the file-backed log is the class [WalLib] with
      its promises [WalLaws], the header's JSON is [HeaderJSON];
    - LiveEvents.v (gateway/session/eventbroker, common/memory/ring.go);
    - SessionFlush.v (gateway/transport/plugins/audit/wal.go, metrics.go): the
      recording of a session, its flushes, receivers and closing goroutine as a
      transition system at the log's mutex; SessionInput.v (decoders.go,
      audit.go of the same package, common/mongotypes, common/mssqltypes): what
      of a packet is recorded;
    - Review.v (gateway/api/review/review.go, gateway/models/reviews.go, the
      check of gateway/api/session/run-exec.go): deciding a review; ReviewGate.v
      (gateway/transport/interceptors/accessrequest, transport/plugins/review,
      their order in transport/client.go and proxymanager.go): which sessions
      open, with the reviewers and every other writer of reviews (credentials,
      analyzer findings, provisioned sessions, execution through MCP, from
      gateway/api) as a transition system over the tables.

    ** What the theorems show

    - Relay and lanes ([upstream_receives_only_allowed], the two
      [protected_write_never_reaches_upstream], [denied_resource_refused]):
      complete mediation.  For the framed codecs, Postgres and TDS, whatever
      the interleaving and the cutting of the streams, every statement in the
      bytes the upstream received was allowed; a write to a protected table, in
      the message forms the theorems name, does not arrive.  The proviso is that
      the client's inspector started empty and the relay logged no inspection
      error for the client: the gate forwards bytes it cannot parse, by design.
      The HTTP codec is not framed; its lane has a theorem of its own, within
      the reader's buffer, and a lemma on what happens beyond it.
      [relay_transparent] and [refused_request_ends]: otherwise the relay is a
      wire in both directions, but for a stripped SASL offer described without
      reference to the code that strips it, and a refusal is explained and
      final.
    - Server ([connections_bounded], [close_hangs_up], [connection_trail]): the
      connection limit holds under every interleaving, [Close] hangs up, and
      every connection leaves a whole trail.
    - Gate: judged, recorded, then forwarded; refusals forward nothing and are
      accounted for; the trail of a session is consistent, its counters and
      closing totals being exactly the numbers of records and unsafe chunks.
    - Inspector: reads may be cut anywhere ([inspect_chunking]); buffer bounds.
    - Codecs: every statement of an encoded message stream, of the message
      forms each theorem lists, is recovered, in all three protocols, behind an
      encrypted login too; encryption the relay
      cannot follow and routing around it are refused; result sets are
      reported once.
    - Re-framing ([rewrite_conserves_stream], [masked_result_set],
      [tds_response_masked], [tds_rewrite_conserves],
      [masked_row_reads_back]): the stream is conserved, exactly the masked
      cells change, and the result parses.  [tds_response_masked] is stated with
      a reader of replies of its own ([read_reply]), not with the rewriter.
    - Handshakes and denials: the exchange leaves a readable stream, the
      user's name and no channel binding; an error frame reads back.
    - HTTP: a resource identifies an endpoint up to identifiers, and nothing
      of a request is exposed that the configuration does not name.
    - Policy agent and analyzer: without consent nothing passes
      ([opa_fails_closed]), the agent decides on what the analyzer found
      ([two_phase_decides]) and the gate's no keeps the model unasked, the budget of calls holds under every
      interleaving, the cache refines a least-recently-used list, annotations
      are words of a fixed vocabulary ([annotations_vocabulary]), findings of
      several rules fold to the worst.
    - Sidecar: what is deferred is decided, what validates builds, inherited
      rules still deny, credential headers are never exposed.
    - Sinks, store and API: the ring and the store refine abstract histories,
      the queue keeps order and [Close] returns once the drain goroutine has had
      two turns per queued event and two more, the file reads back, paging
      visits everything once, and the API answers what was asked or refuses.
    - Lexer: statement verbs, CTE bodies and EXPLAIN ANALYZE are effects,
      effects come from keywords, [Complete] fails closed, quoting cannot leak,
      [Split] agrees with the scanner, the loops terminate.
    - Policy: validation is complete, first denial wins in rule sets and
      chains, findings and risk merge as documented.
    - Content-Length: a corrected header describes the body.
    - Desktop gate ([gate_inspects_every_state], [gate_stream_in_order],
      [gate_delivers]): the gate's documented guarantee.  The canvas shows the
      screen the gate composes, every changed row was in an analysed band with
      its padding, no state between two PDUs shows a window that was not
      analysed, the client receives a prefix of the stream and, while the gate
      is up, all of it.  That screen is the client's as long as every bitmap is
      one the gate can read; others, too large, undecodable or of a depth it
      does not convert, pass without an analysis, and so does a batch whose
      analysis failed.
    - Bitmaps and bands ([decompress_draws], [decompress_total],
      [bands_are_repainted_rows], [words_read_once]): decoding draws what the
      orders mean and never leaves its buffer; the bands are the repainted
      rows, and each word is read once.
    - Broker ([relay_delivers], [relay_queue_bounded],
      [frames_reach_their_session]): no lost wakeup, the byte budget holds, a
      frame reaches its session.
    - Session recording ([stream_is_log_prefix], [calm_flush_stores_all],
      [follower_sees_session], [ring_shows_history]): the log reads back as the
      events it accepted, the stored stream is an exact prefix of them under
      any interleaving and any failure, and all of them when nothing fails; the
      metrics of the flush windows add up to those of one pass.  No flush
      panics for a session with a start date; without one it does
      ([nil_start_date_panics]).  Reads of the log may begin and cease to fail
      at any time.  Events are assumed to have keys free of NUL, times of 64
      bits and encodings below 4 GiB, which [recorded_event_writable] reduces
      to the size of the packet.  The live broker refines a machine of
      independent followers computed from the calls alone.
    - Access reviews ([reviewed_session_was_approved],
      [unanimous_review_completes]): a session for which a review is asked
      opens only behind one that has not expired and was approved by those
      entitled to, provisioned with every approval, or runnable from the start,
      also when requests race; a review that needs every group is
      approved by a member of each, in any order.
    - Addresses ([address_book_sound]): both books are bijections inside the
      session's own prefixes, which its seed determines, reserved addresses are never given.
    - Lemmas under headings such as "Where the codec departs from its
      comments" state behaviour that differs from the source's comments, each
      on a concrete input.

    ** Modelling choices

    - A Go string and a byte slice are [list byte]; [nat] offsets into them
      cannot wrap, other integers are [Z] with wrap-around or bounds written
      out where the code can meet them (16-, 32- and 64-bit lengths, byte
      arithmetic, [wrap_int64], Content-Length).
    - A cursor into a buffer is the rest of the buffer, so every loop has fuel
      bounded by the input's length; the fuel is shown to be enough
      ([scan_total], [walk_terminates_safely] and the lemmas [frames_fuel],
      [frames_consumed], [decode_ends], [mongo_decoding_ends]), never assumed.
    - Mutable objects are state passed and returned; errors are values.  The
      clock, random ids, the sink, the masker and the policy are arguments.
      The gate's state carries the sequence of sink writes with their results,
      which no operation reads.
    - Concurrency is a transition system: the relay interleaves whole gate
      calls (each direction has an inspector of its own and the shared counters
      are behind a mutex); the asynchronous sink, the server, the analyzer, the
      broker's queue, the desktop gate, the session recording and the reviews
      interleave the atomic actions of their goroutines; of a review, reading
      and writing are actions of their own, of an opening packet its handling
      is one.
    - TLS is a parameter: what a handshake does to the reads that follow.
    - The policy of a gate is a function of the statement and the context, so
      an answer that changes between two calls of the same evaluator is a
      matter of the models of the agent and the analyzer, not of the gate's.
      [handle] takes what the pumps read as an argument of its own: that the
      pumps go on where the negotiation stopped is not part of its model.
    - The history the memory store refines shares with it how a row, a page and
      a breakdown are computed from events; those computations have theorems of
      their own ([row_counts_timeline] and the paging lemmas).

    ** Not modelled

    PII detection and the model providers call engines and services outside
    the repository and are parameters; the SQLite backend is SQL run by a
    database.  Of the sidecar, process start and stop, the admin endpoint, the
    YAML loader and logging are left out.  Deadlines and TLS itself are outside
    the models.  Of the desktop gate, OCR, the text analysis and the WASM
    parser are parameters; the parsing of masking rules, latency metrics and
    the offline worker are left out.  Of the session recording, the rows of the
    database, the dropping of a reviewed session's log, the closing of a session
    whose log is not in memory and the version 0 event log are left out.  Of the
    reviews, the HTTP layer around the handlers, Slack and the execution locks
    are left out, and the other plugins a packet passes.  The
    rest of the gateway (HTTP API, database models, transports), the tunnel's network stack and daemon, the
    agent, the client and the web applications are process, network and
    database glue. *)

From stdpp Require Export base list gmap strings.
From Stdlib Require Export Strings.Byte ZArith Lia.
Export ListNotations.

(** ** Bytes

    A Go [string] and a Go [[]byte] are both a finite sequence of octets, and
    the source converts between the two freely; both are [list byte]. *)

Abbreviation bytes := (list byte).

#[global] Instance byte_eq_decision : EqDecision byte := Byte.byte_eq_dec.

#[global] Program Instance byte_countable : Countable byte :=
  inj_countable Byte.to_N Byte.of_N _.
Next Obligation. apply Byte.of_to_N. Qed.

Declare Scope go_scope.
Delimit Scope go_scope with go.
#[global] Open Scope go_scope.

(** A Go string literal. *)
Definition B (s : string) : bytes := String.list_byte_of_string s.
Arguments B s%_string : simpl never.

(** [c == 'x'] on bytes. *)
Notation "c =b d" := (Byte.eqb c d%byte) (at level 70, d at next level) : go_scope.

(** [s == t] on strings: Go compares contents. *)
Definition seqb (s t : bytes) : bool := bool_decide (s = t).
Notation "s =s t" := (seqb s t) (at level 70) : go_scope.

(** The numeric value of a byte, and the truncating conversion [byte(n)]. *)
Definition bval (b : byte) : Z := Z.of_N (Byte.to_N b).
Definition to_byte (z : Z) : byte :=
  default x00 (Byte.of_N (Z.to_N (z mod 256))).

(** [lo <= c && c <= hi] *)
Definition byte_in (lo hi c : byte) : bool :=
  (bval lo <=? bval c)%Z && (bval c <=? bval hi)%Z.

(** [s[off]] guarded the way [scanner.peek] is: zero past the end. *)
Definition byte_at (l : bytes) (off : nat) : byte := default x00 (l !! off).

(** ** The development's tactics and hint databases *)

Create HintDb gobytes.
Create Rewrite HintDb gobytes.
Create HintDb golib.

(** Case analysis on the boolean comparisons the code branches on. *)
Ltac bool_hyps :=
  repeat match goal with
  | H : _ && _ = true |- _ => apply andb_true_iff in H; destruct H
  | H : _ || _ = false |- _ => apply orb_false_iff in H; destruct H
  | H : negb _ = true |- _ => apply negb_true_iff in H
  | H : negb _ = false |- _ => apply negb_false_iff in H
  | H : Byte.eqb _ _ = true |- _ => apply Byte.byte_dec_bl in H
  | H : Byte.eqb _ _ = false |- _ => apply Byte.eqb_false in H
  | H : seqb _ _ = true |- _ => apply bool_decide_eq_true in H
  | H : seqb _ _ = false |- _ => apply bool_decide_eq_false in H
  | H : (_ =? _)%Z = true |- _ => apply Z.eqb_eq in H
  | H : (_ =? _)%Z = false |- _ => apply Z.eqb_neq in H
  | H : (_ <? _)%Z = true |- _ => apply Z.ltb_lt in H
  | H : (_ <? _)%Z = false |- _ => apply Z.ltb_ge in H
  | H : (_ <=? _)%Z = true |- _ => apply Z.leb_le in H
  | H : (_ <=? _)%Z = false |- _ => apply Z.leb_gt in H
  | H : (_ <? _)%nat = true |- _ => apply Nat.ltb_lt in H
  | H : (_ <? _)%nat = false |- _ => apply Nat.ltb_ge in H
  | H : (_ <=? _)%nat = true |- _ => apply Nat.leb_le in H
  | H : (_ <=? _)%nat = false |- _ => apply Nat.leb_gt in H
  | H : (_ =? _)%nat = true |- _ => apply Nat.eqb_eq in H
  | H : (_ =? _)%nat = false |- _ => apply Nat.eqb_neq in H
  end.

(** Split on the first [if] or [match] of the goal, then of the context,
    keeping the equation. *)
Ltac case_go :=
  match goal with
  | |- context [if ?b then _ else _] => destruct b eqn:?
  | |- context [match ?x with _ => _ end] => destruct x eqn:?
  end.
Ltac case_go_in H :=
  match type of H with
  | context [if ?b then _ else _] => destruct b eqn:?
  | context [match ?x with _ => _ end] => destruct x eqn:?
  end.

(** ** Facts about bytes *)

Lemma bval_range b : (0 <= bval b < 256)%Z.
Proof.
  unfold bval. pose proof (Byte.to_N_bounded b). split; [apply N2Z.is_nonneg|].
  change 256%Z with (Z.of_N 256). apply N2Z.inj_lt. lia.
Qed.

Lemma bval_to_byte z : bval (to_byte z) = (z mod 256)%Z.
Proof.
  unfold bval, to_byte. pose proof (Z.mod_pos_bound z 256 eq_refl).
  destruct (Byte.of_N (Z.to_N (z mod 256))) as [b|] eqn:E; simpl.
  - apply Byte.to_of_N in E. rewrite E. lia.
  - apply Byte.of_N_None_iff in E. lia.
Qed.

Lemma bval_inj b c : bval b = bval c -> b = c.
Proof.
  unfold bval. intros E%N2Z.inj. pose proof (Byte.of_to_N b) as Hb.
  rewrite E, Byte.of_to_N in Hb. by simplify_eq.
Qed.

Lemma to_byte_bval b : to_byte (bval b) = b.
Proof.
  apply bval_inj. rewrite bval_to_byte.
  apply Z.mod_small. apply bval_range.
Qed.

Lemma byte_eqb_refl b : (b =b b) = true.
Proof. by apply Byte.byte_dec_lb. Qed.

Lemma byte_eqb_eq b c : (b =b c) = true <-> b = c.
Proof. split; [apply Byte.byte_dec_bl|apply Byte.byte_dec_lb]. Qed.

Lemma byte_eqb_ne b c : (b =b c) = false <-> b <> c.
Proof.
  split; [apply Byte.eqb_false|]. intros H.
  destruct (b =b c) eqn:E; [|done]. by apply Byte.byte_dec_bl in E.
Qed.

Lemma seqb_refl s : (s =s s) = true.
Proof. by apply bool_decide_eq_true. Qed.

Lemma seqb_eq s t : (s =s t) = true <-> s = t.
Proof. apply bool_decide_eq_true. Qed.

Lemma seqb_cons_nil c s : (c :: s =s []) = false.
Proof. by apply bool_decide_eq_false. Qed.

#[export] Hint Rewrite bval_to_byte to_byte_bval byte_eqb_refl seqb_refl : gobytes.
#[export] Hint Resolve bval_range : gobytes.

(** ** Big-endian and little-endian integers

    [binary.BigEndian.Uint16/Uint32] and [binary.LittleEndian.Uint16/Uint32]
    read the first bytes of a slice; the [Append] forms write them. *)

Fixpoint be_val (acc : Z) (l : bytes) : Z :=
  match l with
  | [] => acc
  | b :: r => be_val (acc * 256 + bval b)%Z r
  end.

Definition be_u16 (l : bytes) : Z := be_val 0 (take 2 l).
Definition be_u32 (l : bytes) : Z := be_val 0 (take 4 l).
Definition le_u16 (l : bytes) : Z := be_val 0 (rev (take 2 l)).
Definition le_u32 (l : bytes) : Z := be_val 0 (rev (take 4 l)).

Definition put_be_u16 (v : Z) : bytes := [to_byte (v / 256); to_byte v].
Definition put_be_u32 (v : Z) : bytes :=
  [to_byte (v / 16777216); to_byte (v / 65536); to_byte (v / 256); to_byte v].

Lemma be_val_bound l acc :
  (0 <= acc)%Z ->
  (0 <= be_val acc l < (acc + 1) * 256 ^ Z.of_nat (length l))%Z.
Proof.
  revert acc. induction l as [|b r IH]; intros acc Hacc.
  - simpl length. simpl be_val. rewrite Z.pow_0_r. lia.
  - cbn [be_val length]. pose proof (bval_range b) as Hb.
    destruct (IH (acc * 256 + bval b)%Z) as [Hlo Hhi]; [lia|].
    split; [done|]. rewrite Nat2Z.inj_succ, Z.pow_succ_r by lia.
    eapply Z.lt_le_trans; [exact Hhi|]. 
    assert (0 < 256 ^ Z.of_nat (length r))%Z by (apply Z.pow_pos_nonneg; lia).
    nia.
Qed.

Lemma length_put_be_u32 v : length (put_be_u32 v) = 4.
Proof. done. Qed.

Lemma be_u32_bound l : (0 <= be_u32 l < 2 ^ 32)%Z.
Proof.
  unfold be_u32. destruct (be_val_bound (take 4 l) 0 ltac:(lia)) as [H1 H2].
  split; [done|]. eapply Z.lt_le_trans; [exact H2|].
  change (2 ^ 32)%Z with (256 ^ 4)%Z. rewrite Z.add_0_l, Z.mul_1_l.
  apply Z.pow_le_mono_r; [lia|]. rewrite length_take. lia.
Qed.

Lemma be_u16_bound l : (0 <= be_u16 l < 2 ^ 16)%Z.
Proof.
  unfold be_u16. destruct (be_val_bound (take 2 l) 0 ltac:(lia)) as [H1 H2].
  split; [done|]. eapply Z.lt_le_trans; [exact H2|].
  change (2 ^ 16)%Z with (256 ^ 2)%Z. rewrite Z.add_0_l, Z.mul_1_l.
  apply Z.pow_le_mono_r; [lia|]. rewrite length_take. lia.
Qed.

Lemma be_u32_put v r : (0 <= v < 2 ^ 32)%Z -> be_u32 (put_be_u32 v ++ r) = v.
Proof.
  intros Hv. unfold be_u32, put_be_u32. cbn [app take be_val].
  rewrite take_0. cbn [be_val]. rewrite !bval_to_byte. change (2 ^ 32)%Z with 4294967296%Z in Hv.
  replace (v / 16777216)%Z with (v / 256 / 256 / 256)%Z
    by (rewrite !Z.div_div by lia; done).
  replace (v / 65536)%Z with (v / 256 / 256)%Z by (rewrite Z.div_div by lia; done).
  Z.div_mod_to_equations. lia.
Qed.

Lemma be_u16_put v r : (0 <= v < 2 ^ 16)%Z -> be_u16 (put_be_u16 v ++ r) = v.
Proof.
  intros Hv. unfold be_u16, put_be_u16. cbn [app take be_val].
  rewrite take_0. cbn [be_val]. rewrite !bval_to_byte. change (2 ^ 16)%Z with 65536%Z in Hv.
  Z.div_mod_to_equations. lia.
Qed.

Definition put_le_u16 (v : Z) : bytes := [to_byte v; to_byte (v / 256)].
Definition put_le_u32 (v : Z) : bytes :=
  [to_byte v; to_byte (v / 256); to_byte (v / 65536); to_byte (v / 16777216)].

Lemma le_u16_put v r : (0 <= v < 2 ^ 16)%Z -> le_u16 (put_le_u16 v ++ r) = v.
Proof.
  intros Hv. unfold le_u16, put_le_u16. cbn [app take]. rewrite take_0.
  cbn [rev app be_val]. rewrite !bval_to_byte. change (2 ^ 16)%Z with 65536%Z in Hv.
  Z.div_mod_to_equations. lia.
Qed.

Lemma le_u32_put v r : (0 <= v < 2 ^ 32)%Z -> le_u32 (put_le_u32 v ++ r) = v.
Proof.
  intros Hv. unfold le_u32, put_le_u32. cbn [app take]. rewrite take_0.
  cbn [rev app be_val]. rewrite !bval_to_byte. change (2 ^ 32)%Z with 4294967296%Z in Hv.
  replace (v / 16777216)%Z with (v / 256 / 256 / 256)%Z
    by (rewrite !Z.div_div by lia; done).
  replace (v / 65536)%Z with (v / 256 / 256)%Z by (rewrite Z.div_div by lia; done).
  Z.div_mod_to_equations. lia.
Qed.

(** 64-bit integers, least significant half first. *)
Definition le_u64 (l : bytes) : Z := (le_u32 l + 2 ^ 32 * le_u32 (drop 4 l))%Z.
Definition put_le_u64 (v : Z) : bytes := put_le_u32 v ++ put_le_u32 (v / 2 ^ 32).

#[export] Hint Rewrite be_u32_put be_u16_put le_u16_put le_u32_put using lia : gobytes.
#[export] Hint Resolve be_u32_bound be_u16_bound : gobytes.

(** ** Lists *)

(** Induction for loops that look one element ahead. *)
Lemma list_ind2 {A} (P : list A -> Prop) :
  P [] -> (forall x, P [x]) ->
  (forall x y l, P l -> P (y :: l) -> P (x :: y :: l)) ->
  forall l, P l.
Proof.
  intros H0 H1 H2 l. enough (P l /\ forall x, P (x :: l)) as [? _] by done.
  induction l as [|y l [IH1 IH2]]; split; auto.
Qed.

Lemma suffix_drop {A} n (l : list A) : drop n l `suffix_of` l.
Proof. exists (take n l). by rewrite take_drop. Qed.

Lemma suffix_app_cases {A} (l u k : list A) :
  l `suffix_of` u ++ k -> length k <= length l -> exists v, l = v ++ k /\ v `suffix_of` u.
Proof.
  intros [p Hp] Hl. apply app_eq_inv in Hp as [(q & -> & ->)|(q & -> & Hk)].
  - exists q. split; [done|]. by exists p.
  - assert (q = []) as ->.
    { destruct q; [done|]. apply (f_equal length) in Hk.
      rewrite length_app in Hk. simpl in *. lia. }
    simpl in Hk. subst k. exists []. split; [done|]. apply suffix_nil.
Qed.

#[export] Hint Resolve suffix_drop : golib.

Lemma take_app_prefix {A} n (d k : list A) : n <= length d -> take n (d ++ k) = take n d.
Proof. intros Hn. by apply take_app_le. Qed.

(** [data[lo:hi]] *)
Definition slice (lo hi : nat) (data : bytes) : bytes := take (hi - lo) (drop lo data).

Lemma slice_app lo hi d k : hi <= length d -> slice lo hi (d ++ k) = slice lo hi d.
Proof.
  intros Hh. unfold slice. destruct (decide (lo <= hi)).
  - rewrite drop_app_le by lia. apply take_app_prefix. rewrite length_drop. lia.
  - by replace (hi - lo) with 0 by lia.
Qed.

Lemma take_split {A} p n (l : list A) : p <= n -> take p l ++ take (n - p) (drop p l) = take n l.
Proof.
  intros Hp. rewrite <- (take_drop p (take n l)), take_take, skipn_firstn_comm.
  by rewrite Nat.min_l by lia.
Qed.

Lemma be_u32_app d k : 4 <= length d -> be_u32 (d ++ k) = be_u32 d.
Proof. intros Hd. unfold be_u32. by rewrite take_app_prefix. Qed.

Lemma be_u32_drop_app n d k : n + 4 <= length d -> be_u32 (drop n (d ++ k)) = be_u32 (drop n d).
Proof.
  intros Hd. rewrite drop_app_le by lia. apply be_u32_app. rewrite length_drop. lia.
Qed.

Lemma byte_at_app d k n : n < length d -> byte_at (d ++ k) n = byte_at d n.
Proof. intros Hn. unfold byte_at. by rewrite lookup_app_l. Qed.

Lemma be_u16_drop_app n d k : n + 2 <= length d -> be_u16 (drop n (d ++ k)) = be_u16 (drop n d).
Proof.
  intros Hd. rewrite drop_app_le by lia. unfold be_u16. apply f_equal, take_app_prefix.
  rewrite length_drop. lia.
Qed.


(** ** Ring buffers *)

(** Offsets below the capacity do not collide. *)
Lemma mod_offset_inj cap s i j :
  0 < cap -> i < cap -> j < cap -> (s + i) mod cap = (s + j) mod cap -> i = j.
Proof.
  intros Hc Hi Hj E.
  pose proof (Nat.div_mod_eq (s + i) cap) as Ei. pose proof (Nat.div_mod_eq (s + j) cap) as Ej.
  rewrite E in Ei. revert Ei Ej. generalize ((s + i) / cap) ((s + j) / cap) ((s + j) mod cap).
  intros a b r Ei Ej. destruct (decide (a = b)) as [->|Hab]; [lia|].
  assert (a < b \/ b < a) as [?|?] by lia; nia.
Qed.

(** A ring of [cap] cells that shows the last [n] elements of a list from
    [start] on, when an element is put behind the newest or over the oldest. *)
Lemma ring_put_room {A} cap (buf : list A) start n (l : list A) v :
  length buf = cap -> n < cap -> n <= length l ->
  (forall i, i < n -> buf !! ((start + i) mod cap) = l !! (length l - n + i)) ->
  forall i, i < S n ->
    <[(start + n) mod cap := v]> buf !! ((start + i) mod cap) = (l ++ [v]) !! (length (l ++ [v]) - S n + i).
Proof.
  intros Hb Hn Hl Hget i Hi. rewrite length_app. simpl. destruct (decide (i = n)) as [->|Hne].
  - rewrite list_lookup_insert_eq by (rewrite Hb; apply Nat.mod_upper_bound; lia).
    symmetry. apply list_lookup_middle. lia.
  - rewrite list_lookup_insert_ne by (intros Heq%mod_offset_inj; lia).
    rewrite Hget, lookup_app_l by lia. f_equal. lia.
Qed.

Lemma ring_put_full {A} cap (buf : list A) start (l : list A) v :
  length buf = cap -> start < cap -> cap <= length l ->
  (forall i, i < cap -> buf !! ((start + i) mod cap) = l !! (length l - cap + i)) ->
  forall i, i < cap ->
    <[start := v]> buf !! (((start + 1) mod cap + i) mod cap) = (l ++ [v]) !! (length (l ++ [v]) - cap + i).
Proof.
  intros Hb Hs Hl Hget i Hi. rewrite length_app. simpl. rewrite Nat.Div0.add_mod_idemp_l.
  destruct (decide (i = cap - 1)) as [->|Hne].
  - replace (start + 1 + (cap - 1)) with (start + 1 * cap) by lia.
    rewrite Nat.Div0.mod_add, Nat.mod_small by lia.
    rewrite list_lookup_insert_eq by lia. symmetry. apply list_lookup_middle. lia.
  - replace (start + 1 + i) with (start + (i + 1)) by lia. rewrite list_lookup_insert_ne.
    + rewrite Hget, lookup_app_l by lia. f_equal. lia.
    + intros Heq. rewrite <- (Nat.mod_small start cap) in Heq at 1 by lia.
      rewrite <- (Nat.add_0_r start) in Heq at 1. apply mod_offset_inj in Heq; lia.
Qed.

(** ** Refinement

    A component with a contract is a machine: a state and one total operation
    that answers each request.  An implementation refines a specification when
    a client that sees only the answers cannot tell them apart. *)

Record machine (Op Out : Type) := Machine {
  mstate : Type;
  minit : mstate;
  mexec : Op -> mstate -> mstate * Out;
}.
Arguments Machine {Op Out} mstate minit mexec.
Arguments mstate {Op Out}.
Arguments minit {Op Out}.
Arguments mexec {Op Out}.

Section Machines.
Context {Op Out : Type}.
Implicit Type M : machine Op Out.

Fixpoint answers M (s : mstate M) (ops : list Op) : list Out :=
  match ops with
  | [] => []
  | op :: rest => let '(s', out) := mexec M op s in out :: answers M s' rest
  end.

Definition refines (M1 M2 : machine Op Out) : Prop :=
  forall ops, answers M1 (minit M1) ops = answers M2 (minit M2) ops.

(** Forward simulation: related states answer alike and stay related. *)
Lemma simulation_refines (M1 M2 : machine Op Out) (R : mstate M1 -> mstate M2 -> Prop) :
  R (minit M1) (minit M2) ->
  (forall op s1 s2, R s1 s2 ->
    R (mexec M1 op s1).1 (mexec M2 op s2).1 /\ (mexec M1 op s1).2 = (mexec M2 op s2).2) ->
  refines M1 M2.
Proof.
  intros H0 Hstep ops. revert H0. generalize (minit M1) (minit M2).
  induction ops as [|op ops IH]; intros s1 s2 HR; [done|]. simpl.
  destruct (Hstep op _ _ HR) as [HR' Hout].
  destruct (mexec M1 op s1) as [s1' o1], (mexec M2 op s2) as [s2' o2]. simpl in *.
  subst. f_equal. by apply IH.
Qed.

(** The state a sequence of requests leads to. *)
Fixpoint mrun M (s : mstate M) (ops : list Op) : mstate M :=
  match ops with
  | [] => s
  | op :: rest => mrun M (mexec M op s).1 rest
  end.

Lemma simulation_run (M1 M2 : machine Op Out) (R : mstate M1 -> mstate M2 -> Prop) s1 s2 ops :
  (forall op s1 s2, R s1 s2 -> R (mexec M1 op s1).1 (mexec M2 op s2).1) ->
  R s1 s2 -> R (mrun M1 s1 ops) (mrun M2 s2 ops).
Proof. intros Hstep. revert s1 s2. induction ops; simpl; auto. Qed.
End Machines.
