(* ===== verification/GoStrings.v ===== *)
(** * The parts of Go's [strings] and [bytes] packages the program calls

    [ToLower], [ToUpper], [EqualFold], [TrimSpace], [Index], [Contains],
    [HasPrefix], [HasSuffix], [TrimSuffix], [Trim] and [Split] on byte strings.

    Go's case mappings have an ASCII fast path and consult the Unicode tables
    only when the argument has a byte above 0x7F.  The tables are the methods
    of the class [GoUnicode]; no theorem assumes anything of them.  [TrimSpace]
    needs only the short list of Unicode space characters, whose UTF-8
    encodings are written out. *)

From S2P Require Import Prelude.

Class GoUnicode := {
  unicode_ToLower : bytes -> bytes;
  unicode_ToUpper : bytes -> bytes;
  unicode_EqualFold : bytes -> bytes -> bool;
}.

(** The instance that leaves non-ASCII text alone, for evaluating the model. *)
Definition ascii_only : GoUnicode := {|
  unicode_ToLower s := s;
  unicode_ToUpper s := s;
  unicode_EqualFold s t := s =s t;
|}.

(** ** Case mapping *)

Definition is_ascii (c : byte) : bool := (bval c <? 128)%Z.
Definition all_ascii (s : bytes) : bool := forallb is_ascii s.

Definition lower_byte (c : byte) : byte :=
  if byte_in "A" "Z" c then to_byte (bval c + 32) else c.
Definition upper_byte (c : byte) : byte :=
  if byte_in "a" "z" c then to_byte (bval c - 32) else c.

Section Case.
Context `{GoUnicode}.

Definition ToLower (s : bytes) : bytes :=
  if all_ascii s then map lower_byte s else unicode_ToLower s.
Definition ToUpper (s : bytes) : bytes :=
  if all_ascii s then map upper_byte s else unicode_ToUpper s.
Definition EqualFold (s t : bytes) : bool :=
  if all_ascii s && all_ascii t
  then map lower_byte s =s map lower_byte t
  else unicode_EqualFold s t.
End Case.

(** ** Searching *)

Fixpoint HasPrefix (s p : bytes) {struct p} : bool :=
  match p, s with
  | [], _ => true
  | _ :: _, [] => false
  | a :: p', c :: s' => (c =b a) && HasPrefix s' p'
  end.

Definition HasSuffix (s p : bytes) : bool :=
  (length p <=? length s)%nat && (drop (length s - length p) s =s p).

Definition TrimSuffix (s p : bytes) : bytes :=
  if HasSuffix s p then take (length s - length p) s else s.

(** [None] is Go's [-1]. *)
Fixpoint Index (s sub : bytes) : option nat :=
  if HasPrefix s sub then Some 0%nat
  else match s with
       | [] => None
       | _ :: r => S <$> Index r sub
       end.

Definition Contains (s sub : bytes) : bool :=
  match Index s sub with Some _ => true | None => false end.

Fixpoint IndexByte (s : bytes) (c : byte) : option nat :=
  match s with
  | [] => None
  | d :: r => if d =b c then Some 0%nat else S <$> IndexByte r c
  end.

(** [strings.Split(s, sep)] for a one-byte separator. *)
Fixpoint Split1 (s : bytes) (sep : byte) : list bytes :=
  match s with
  | [] => [[]]
  | c :: r =>
      if c =b sep then [] :: Split1 r sep
      else match Split1 r sep with
           | [] => [[c]]
           | seg :: segs => (c :: seg) :: segs
           end
  end.

(** [strings.Trim(s, cutset)] for a one-byte cutset. *)
Fixpoint trim_left_byte (c : byte) (s : bytes) : bytes :=
  match s with
  | d :: r => if d =b c then trim_left_byte c r else s
  | [] => []
  end.
Definition TrimByte (s : bytes) (c : byte) : bytes :=
  rev (trim_left_byte c (rev (trim_left_byte c s))).

(** ** [TrimSpace] *)

Definition ascii_space (c : byte) : bool :=
  (c =b x20) || (c =b x09) || (c =b x0d) || (c =b x0a) || (c =b x0c) || (c =b x0b).

(** U+0085 and U+00A0. *)
Definition space2 (a b : byte) : bool :=
  (a =b xc2) && ((b =b x85) || (b =b xa0)).
(** U+1680, U+2000 to U+200A, U+2028, U+2029, U+202F, U+205F, U+3000. *)
Definition space3 (a b c : byte) : bool :=
  ((a =b xe1) && (b =b x9a) && (c =b x80)) ||
  ((a =b xe2) && (b =b x80) &&
     (byte_in x80 x8a c || (c =b xa8) || (c =b xa9) || (c =b xaf))) ||
  ((a =b xe2) && (b =b x81) && (c =b x9f)) ||
  ((a =b xe3) && (b =b x80) && (c =b x80)).

(** Drop leading spaces; [fwd] says whether the list is in reading order (the
    right trim runs on the reversed string). *)
Fixpoint trim_spaces (fwd : bool) (l : bytes) : bytes :=
  match l with
  | [] => []
  | c :: r =>
      if ascii_space c then trim_spaces fwd r
      else match r with
           | [] => l
           | c2 :: r2 =>
               if (if fwd then space2 c c2 else space2 c2 c) then trim_spaces fwd r2
               else match r2 with
                    | [] => l
                    | c3 :: r3 =>
                        if (if fwd then space3 c c2 c3 else space3 c3 c2 c)
                        then trim_spaces fwd r3 else l
                    end
           end
  end.

Definition TrimSpace (s : bytes) : bytes :=
  rev (trim_spaces false (rev (trim_spaces true s))).

(** ** Facts *)

Lemma HasPrefix_app p r : HasPrefix (p ++ r) p = true.
Proof. induction p as [|a p IH]; simpl; [done|]. by rewrite byte_eqb_refl. Qed.

Lemma HasPrefix_spec s p : HasPrefix s p = true <-> exists r, s = p ++ r.
Proof.
  split; [|intros [r ->]; apply HasPrefix_app].
  revert s. induction p as [|a p IH]; intros s Hs; [by exists s|].
  destruct s as [|c s]; [done|]. simpl in Hs. bool_hyps. subst.
  destruct (IH _ H0) as [r ->]. by exists r.
Qed.

Lemma Index_here sub r : Index (sub ++ r) sub = Some 0.
Proof. pose proof (HasPrefix_app sub r) as Hp. destruct (sub ++ r); cbn [Index]; by rewrite Hp. Qed.

Lemma Index_Some s sub i :
  Index s sub = Some i -> exists pre post, s = pre ++ sub ++ post /\ length pre = i.
Proof.
  revert i. induction s as [|c s IH]; intros i; simpl; destruct (HasPrefix _ _) eqn:E;
    intros Hi; simplify_eq/=.
  - apply HasPrefix_spec in E as [r ->]. by exists [], r.
  - apply HasPrefix_spec in E as [r ->]. by exists [], r.
  - apply fmap_Some in Hi as (j & Hj & ->).
    destruct (IH _ Hj) as (pre & post & -> & <-). by exists (c :: pre), post.
Qed.

Lemma Index_bound s sub i : Index s sub = Some i -> (i + length sub <= length s)%nat.
Proof.
  intros (pre & post & -> & <-)%Index_Some. rewrite !length_app. lia.
Qed.

Lemma HasPrefix_app_l s k p :
  (length p <= length s)%nat -> HasPrefix (s ++ k) p = HasPrefix s p.
Proof.
  revert s. induction p as [|a p IH]; intros s Hl; [by destruct s|].
  destruct s as [|c s]; simpl in *; [lia|]. rewrite IH by lia. done.
Qed.

(** An occurrence that ends before a suffix is found without the suffix. *)
Lemma Index_app_l s k sub i :
  Index (s ++ k) sub = Some i -> (i + length sub <= length s)%nat ->
  Index s sub = Some i.
Proof.
  revert i. induction s as [|c s IH]; intros i.
  - simpl. intros Hi Hl. destruct sub as [|a sub]; simpl in Hl; [|lia].
    assert (i = 0)%nat as -> by lia. done.
  - intros Hi Hl. cbn [app Index] in *.
    destruct (HasPrefix (c :: s ++ k) sub) eqn:E.
    + simplify_eq/=. rewrite <- (HasPrefix_app_l (c :: s) k) by (simpl; lia).
      cbn [app]. by rewrite E.
    + destruct (HasPrefix (c :: s) sub) eqn:E'.
      * apply HasPrefix_spec in E' as [r Hr].
        assert (HasPrefix (c :: s ++ k) sub = true) as E2; [|congruence].
        change (c :: s ++ k) with ((c :: s) ++ k). rewrite Hr, <- app_assoc.
        apply HasPrefix_app.
      * apply fmap_Some in Hi as (j & Hj & ->). rewrite (IH j); [done|done|].
        simpl in Hl. lia.
Qed.

Lemma trim_spaces_suffix fwd l : exists pre, l = pre ++ trim_spaces fwd l.
Proof.
  revert l. fix IH 1. intros [|c r]; [by exists []|]. cbn [trim_spaces].
  destruct (ascii_space c).
  { destruct (IH r) as [p Hp]. exists (c :: p). cbn [app]. by f_equal. }
  destruct r as [|c2 r2]; [by exists []|].
  destruct (if fwd then _ else _).
  { destruct (IH r2) as [p Hp]. exists (c :: c2 :: p). cbn [app]. by do 2 f_equal. }
  destruct r2 as [|c3 r3]; [by exists []|].
  destruct (if fwd then _ else _); [|by exists []].
  destruct (IH r3) as [p Hp]. exists (c :: c2 :: c3 :: p). cbn [app]. by do 3 f_equal.
Qed.

Lemma ascii_not_high c d :
  is_ascii c = true -> (128 <= bval d)%Z -> (c =b d) = false.
Proof.
  intros Hc Hd. apply Z.ltb_lt in Hc. apply byte_eqb_ne. intros ->. lia.
Qed.

Lemma space2_ascii a b : is_ascii a = true -> space2 a b = false.
Proof. intros Ha. unfold space2. by rewrite (ascii_not_high a xc2). Qed.

Lemma space3_ascii a b c : is_ascii a = true -> space3 a b c = false.
Proof.
  intros Ha. unfold space3.
  by rewrite (ascii_not_high a xe1), (ascii_not_high a xe2), (ascii_not_high a xe3).
Qed.

(** On ASCII text the trimmed prefix is a run of ASCII spaces. *)
Lemma trim_spaces_ascii fwd l :
  all_ascii l = true ->
  exists ws, l = ws ++ trim_spaces fwd l /\ forallb ascii_space ws = true.
Proof.
  induction l as [|c r IH]; intros Hl; [by exists []|].
  cbn [all_ascii forallb] in Hl. bool_hyps.
  cbn [trim_spaces]. destruct (ascii_space c) eqn:Ec.
  { destruct (IH H0) as (ws & Hws & Hall). exists (c :: ws). cbn [app forallb].
    rewrite Ec, Hall. by rewrite Hws at 1. }
  exists []. split; [|done]. cbn [app].
  destruct r as [|c2 r2]; [done|]. cbn [all_ascii forallb] in H0. bool_hyps.
  rewrite !space2_ascii by done. replace (if fwd then false else false) with false
    by (by destruct fwd).
  destruct r2 as [|c3 r3]; [done|]. cbn [all_ascii forallb] in H1. bool_hyps.
  rewrite !space3_ascii by done. by destruct fwd.
Qed.

Lemma all_ascii_app l k : all_ascii (l ++ k) = all_ascii l && all_ascii k.
Proof. apply forallb_app. Qed.

Lemma forallb_rev {A} (f : A -> bool) l : forallb f (rev l) = forallb f l.
Proof.
  induction l as [|a l IH]; simpl; [done|].
  rewrite forallb_app, IH. simpl. rewrite andb_true_r. apply andb_comm.
Qed.

(** [TrimSpace] on ASCII text removes a run of ASCII spaces from each end. *)
Lemma TrimSpace_ascii s :
  all_ascii s = true ->
  exists ws1 ws2, s = ws1 ++ TrimSpace s ++ ws2 /\
    forallb ascii_space ws1 = true /\ forallb ascii_space ws2 = true.
Proof.
  intros Hs. destruct (trim_spaces_ascii true s Hs) as (ws1 & H1 & Hws1).
  rewrite H1, all_ascii_app in Hs. bool_hyps.
  destruct (trim_spaces_ascii false (rev (trim_spaces true s))) as (ws2 & H2 & Hws2).
  { unfold all_ascii. by rewrite forallb_rev. }
  exists ws1, (rev ws2). split; [|by rewrite forallb_rev].
  rewrite H1 at 1. f_equal. unfold TrimSpace.
  apply (f_equal (@rev _)) in H2. by rewrite rev_involutive, rev_app_distr in H2.
Qed.

Lemma IndexByte_app (k r : bytes) c : c ∉ k -> IndexByte (k ++ c :: r) c = Some (length k).
Proof.
  induction k as [|d k IH]; cbn; intros Hk; [by rewrite byte_eqb_refl|].
  rewrite not_elem_of_cons in Hk. destruct Hk as [Hd Hk].
  destruct (d =b c) eqn:E; [apply byte_eqb_eq in E; congruence|]. by rewrite IH.
Qed.
