(* ===== verification/GoText.v ===== *)
(** * Numbers as text, sorting and formatting

    [strconv.Itoa], [strconv.Atoi], [sort.Strings], [strings.Join] and the
    fixed-width [int], shared by the policy and gate components. *)

From S2P Require Import Prelude GoStrings.

(** crypto/sha256, which nothing here looks into. *)
Class Sha256 := { Sum256 : bytes -> bytes }.

(** ** Fixed-width integers *)

(** The value of a computation in a 64-bit signed [int]. *)
Definition wrap_int64 (z : Z) : Z := ((z + 2 ^ 63) mod 2 ^ 64 - 2 ^ 63)%Z.

(** ** Decimal text *)

Definition digit (d : Z) : byte := to_byte (48 + d).
Definition is_digit (c : byte) : bool := byte_in "0" "9" c.
Definition digit_val (c : byte) : Z := (bval c - 48)%Z.

(** The digits of [n >= 0], most significant first, before [acc]. *)
Fixpoint itoa_loop (fuel : nat) (n : Z) (acc : bytes) : bytes :=
  match fuel with
  | O => acc
  | S fuel' =>
      let acc := digit (n mod 10) :: acc in
      if (n <? 10)%Z then acc else itoa_loop fuel' (n / 10)%Z acc
  end.

(** [strconv.AppendInt(nil, n, 10)] for a 64-bit [n]: twenty digits suffice. *)
Definition itoa (n : Z) : bytes :=
  if (n <? 0)%Z then x2d :: itoa_loop 20 (- n) [] else itoa_loop 20 n [].

Fixpoint atoi_loop (l : bytes) (acc : Z) : option Z :=
  match l with
  | [] => Some acc
  | c :: r => if is_digit c then atoi_loop r (acc * 10 + digit_val c)%Z else None
  end.

(** [strconv.Atoi]: an optional sign, at least one digit, within 64 bits. *)
Definition Atoi (s : bytes) : option Z :=
  let '(neg, ds) :=
    match s with
    | c :: r => if c =b "-" then (true, r) else if c =b "+" then (false, r) else (false, s)
    | [] => (false, [])
    end in
  match ds with
  | [] => None
  | _ :: _ =>
      n ← atoi_loop ds 0;
      let n := if neg : bool then (- n)%Z else n in
      if (- 2 ^ 63 <=? n)%Z && (n <? 2 ^ 63)%Z then Some n else None
  end.

(** ** [sort.Strings] and [strings.Join] *)

(** Lexicographic order by bytes. *)
Fixpoint bytes_leb (a b : bytes) : bool :=
  match a, b with
  | [], _ => true
  | _ :: _, [] => false
  | x :: a', y :: b' =>
      if (bval x <? bval y)%Z then true
      else if (bval y <? bval x)%Z then false else bytes_leb a' b'
  end.

Fixpoint insert_sorted (x : bytes) (l : list bytes) : list bytes :=
  match l with
  | [] => [x]
  | y :: r => if bytes_leb x y then x :: l else y :: insert_sorted x r
  end.

Definition sort_Strings (l : list bytes) : list bytes := fold_right insert_sorted [] l.

Fixpoint Join (l : list bytes) (sep : bytes) : bytes :=
  match l with
  | [] => []
  | [x] => x
  | x :: r => x ++ sep ++ Join r sep
  end.

(** ** What the packages take from [fmt] and [regexp]

    [%q] quotes a string; [regexp.Compile] yields a matcher or an error.  No
    theorem assumes anything of either. *)
Class GoLib := {
  fmt_q : bytes -> bytes;
  regexp_Compile : bytes -> option (bytes -> bool);
}.

(** An instance for evaluation: quotes without escaping, substring patterns. *)
Definition plain_lib : GoLib := {|
  fmt_q s := x22 :: s ++ [x22];
  regexp_Compile p := Some (fun s => Contains s p);
|}.

(** ** Facts *)

Lemma digit_val_digit d : (0 <= d < 10)%Z -> digit_val (digit d) = d /\ is_digit (digit d) = true.
Proof.
  intros Hd. unfold digit_val, digit, is_digit, byte_in. rewrite bval_to_byte, Z.mod_small by lia.
  change (bval "0") with 48%Z. change (bval "9") with 57%Z. split; [lia|].
  apply andb_true_iff. split; apply Z.leb_le; lia.
Qed.

Lemma atoi_itoa_loop fuel n acc a :
  (0 <= n < 10 ^ Z.of_nat fuel)%Z ->
  exists k, atoi_loop (itoa_loop fuel n acc) a =
    atoi_loop acc (a * 10 ^ Z.of_nat k + n)%Z.
Proof.
  revert n acc. induction fuel as [|fuel IH]; intros n acc Hn.
  { exists 0. simpl in *. f_equal. lia. }
  cbn [itoa_loop]. rewrite Nat2Z.inj_succ, Z.pow_succ_r in Hn by lia.
  destruct (digit_val_digit (n mod 10)) as [Hv Hd]; [apply Z.mod_pos_bound; lia|].
  destruct (n <? 10)%Z eqn:E; bool_hyps.
  - exists 1. cbn [atoi_loop]. by rewrite Hd, Hv, Z.mod_small by lia.
  - destruct (IH (n / 10)%Z (digit (n mod 10) :: acc)) as (k & ->).
    { split; [apply Z.div_pos; lia|]. apply Z.div_lt_upper_bound; lia. }
    exists (S k). cbn [atoi_loop]. rewrite Hd, Hv. f_equal.
    rewrite Nat2Z.inj_succ, Z.pow_succ_r by lia. pose proof (Z.div_mod n 10). lia.
Qed.

Lemma itoa_loop_ne fuel n acc : 0 < fuel -> exists c r, itoa_loop fuel n acc = c :: r.
Proof.
  revert n acc. induction fuel as [|fuel IH]; intros n acc Hf; [lia|]. cbn [itoa_loop].
  case_match; [by eexists _, _|]. destruct fuel; [by eexists _, _|]. apply IH. lia.
Qed.

(** The digits are digits, so no sign is read back. *)
Lemma itoa_loop_digits fuel n acc :
  (0 <= n)%Z -> forallb is_digit acc = true -> forallb is_digit (itoa_loop fuel n acc) = true.
Proof.
  revert n acc. induction fuel as [|fuel IH]; intros n acc Hn Ha; [done|]. cbn [itoa_loop].
  assert (forallb is_digit (digit (n mod 10) :: acc) = true) as Ha'.
  { cbn [forallb]. rewrite Ha, andb_true_r. apply digit_val_digit, Z.mod_pos_bound. lia. }
  case_match; [done|]. apply IH; [|done]. apply Z.div_pos; lia.
Qed.

(** Printing and parsing a length round-trips. *)
Lemma Atoi_itoa n : (0 <= n < 2 ^ 63)%Z -> Atoi (itoa n) = Some n.
Proof.
  intros Hn. unfold Atoi, itoa. assert ((n <? 0)%Z = false) as -> by (apply Z.ltb_ge; lia).
  destruct (atoi_itoa_loop 20 n [] 0) as (k & Hk).
  { split; [lia|]. etrans; [apply Hn|]. done. }
  pose proof (itoa_loop_digits 20 n [] ltac:(lia) eq_refl) as Hd.
  destruct (itoa_loop_ne 20 n [] ltac:(lia)) as (c & r & Hr). rewrite Hr in *.
  cbn [forallb] in Hd. apply andb_true_iff in Hd as [Hc _].
  assert ((c =b "-") = false) as -> by (apply byte_eqb_ne; by intros ->).
  assert ((c =b "+") = false) as -> by (apply byte_eqb_ne; by intros ->).
  rewrite Hk. simpl. case_match eqn:E; [done|].
  apply andb_false_iff in E as [E|E]; bool_hyps; lia.
Qed.

Lemma insert_sorted_perm x l : insert_sorted x l ≡ₚ x :: l.
Proof.
  induction l as [|y l IH]; simpl; [done|]. case_match; [done|]. rewrite IH. apply Permutation_swap.
Qed.

Lemma sort_Strings_perm l : sort_Strings l ≡ₚ l.
Proof. induction l as [|x l IH]; simpl; [done|]. by rewrite insert_sorted_perm, IH. Qed.

(** ** Fixed-width integers as bytes *)

#[local] Open Scope Z_scope.

(** The [n] low bytes of [v], most significant first. *)
Fixpoint put_be (n : nat) (v : Z) : bytes :=
  match n with
  | O => []
  | S n => to_byte (v / 256 ^ Z.of_nat n) :: put_be n v
  end.

Definition get_be (l : bytes) : Z := be_val 0 l.

Lemma length_put_be n v : length (put_be n v) = n.
Proof. induction n as [|n IH]; cbn; congruence. Qed.

Lemma be_val_acc l acc : be_val acc l = acc * 256 ^ Z.of_nat (length l) + be_val 0 l.
Proof.
  revert acc. induction l as [|b l IH]; intros acc; cbn [be_val length]; [lia|].
  rewrite IH, (IH (0 * 256 + bval b)). rewrite Nat2Z.inj_succ, Z.pow_succ_r by lia. lia.
Qed.

Lemma get_be_app l k : get_be (l ++ k) = get_be l * 256 ^ Z.of_nat (length k) + get_be k.
Proof.
  unfold get_be. revert k. induction l as [|b l IH]; intros k; cbn [app be_val]; [lia|].
  rewrite (be_val_acc (l ++ k)), (be_val_acc l), IH, length_app, Nat2Z.inj_add, Z.pow_add_r by lia. lia.
Qed.

Lemma get_be_bound l : 0 <= get_be l < 256 ^ Z.of_nat (length l).
Proof. unfold get_be. pose proof (be_val_bound l 0 ltac:(lia)). lia. Qed.

Lemma put_be_add n m v : put_be (n + m) v = put_be n (v / 256 ^ Z.of_nat m) ++ put_be m v.
Proof.
  induction n as [|n IH]; [done|]. cbn [Nat.add put_be app]. rewrite IH. do 2 f_equal.
  rewrite Z.div_div by (try lia; apply Z.pow_pos_nonneg; lia).
  by rewrite <- Z.pow_add_r, Nat2Z.inj_add, Z.add_comm by lia.
Qed.

Lemma to_byte_mod v : to_byte (v mod 256) = to_byte v.
Proof. apply bval_inj. rewrite !bval_to_byte. apply Z.mod_mod. lia. Qed.

Lemma put_be_mod n v : put_be n (v mod 256 ^ Z.of_nat n) = put_be n v.
Proof.
  assert (forall k, (k <= n)%nat -> put_be k (v mod 256 ^ Z.of_nat n) = put_be k v) as Hk; [|by apply Hk].
  induction k as [|k IH]; intros Hkn; [done|]. cbn [put_be]. rewrite IH by lia. f_equal.
  rewrite <- to_byte_mod, <- (to_byte_mod (v / _)). f_equal.
  replace (Z.of_nat n) with (Z.of_nat k + Z.succ (Z.of_nat (n - k - 1))) by lia.
  rewrite Z.pow_add_r, Z.pow_succ_r by lia.
  assert (0 < 256 ^ Z.of_nat k) by (apply Z.pow_pos_nonneg; lia).
  assert (0 < 256 ^ Z.of_nat (n - k - 1)) by (apply Z.pow_pos_nonneg; lia).
  rewrite Z.rem_mul_r by lia. rewrite Z.mul_comm, Z.div_add by lia.
  rewrite (Z.div_small (v mod _)) by (apply Z.mod_pos_bound; lia). rewrite Z.add_0_l.
  rewrite Z.rem_mul_r by lia. rewrite (Z.mul_comm 256), Z.mod_add by lia. apply Z.mod_mod. lia.
Qed.

Lemma get_put_be n v : get_be (put_be n v) = v mod 256 ^ Z.of_nat n.
Proof.
  induction n as [|n IH]; [cbn; by rewrite Z.mod_1_r|].
  change (put_be (S n) v) with ([to_byte (v / 256 ^ Z.of_nat n)] ++ put_be n v).
  rewrite get_be_app, IH, length_put_be. unfold get_be. cbn [be_val].
  rewrite bval_to_byte, Nat2Z.inj_succ, Z.pow_succ_r, (Z.mul_comm 256) by lia.
  rewrite Z.rem_mul_r by (try lia; apply Z.pow_pos_nonneg; lia). lia.
Qed.

Lemma put_get_be l : put_be (length l) (get_be l) = l.
Proof.
  induction l as [|b l IH] using rev_ind; [done|].
  rewrite length_app, put_be_add, get_be_app. cbn [length]. change (256 ^ Z.of_nat 1) with 256.
  pose proof (get_be_bound [b]) as Hb. change (256 ^ Z.of_nat (length [b])) with 256 in Hb.
  rewrite Z.div_add_l, Z.div_small, Z.add_0_r, IH by lia. f_equal. cbn.
  rewrite Z.div_1_r, <- to_byte_mod, Z.add_comm, Z.mod_add by lia. rewrite to_byte_mod. f_equal.
  unfold get_be. cbn [be_val]. apply to_byte_bval.
Qed.

Lemma put_be_inj n v w :
  0 <= v < 256 ^ Z.of_nat n -> 0 <= w < 256 ^ Z.of_nat n -> put_be n v = put_be n w -> v = w.
Proof.
  intros Hv Hw E. apply (f_equal get_be) in E. rewrite !get_put_be, !Z.mod_small in E by done. done.
Qed.

