(* ===== verification/GoTime.v ===== *)
(** * time.Parse on the two layouts the query API reads

    [time.Parse] for the layouts [time.RFC3339] and [2006-01-02], following
    the reader of Go's package time field by field: one-digit hours, a comma
    for the decimal point and zone offsets up to 24:60 are what it accepts.
    The result is the instant in nanoseconds since 1970, the unit every time
    of the development is in. *)

From S2P Require Import Prelude GoStrings GoText.

#[local] Open Scope Z_scope.

(** Days from 1970-01-01 to a date of the Gregorian calendar: years counted
    from March, in eras of 400. *)
Definition days_from_civil (y m d : Z) : Z :=
  let y' := if m <=? 2 then y - 1 else y in
  let era := y' / 400 in
  let yoe := y' - era * 400 in
  let doy := (153 * (if 2 <? m then m - 3 else m + 9) + 2) / 5 + d - 1 in
  let doe := yoe * 365 + yoe / 4 - yoe / 100 + doy in
  era * 146097 + doe - 719468.

Definition isLeap (y : Z) : bool :=
  (y mod 4 =? 0) && (negb (y mod 100 =? 0) || (y mod 400 =? 0)).

Definition daysIn (m y : Z) : Z :=
  if m =? 2 then (if isLeap y then 29 else 28)
  else if (m =? 4) || (m =? 6) || (m =? 9) || (m =? 11) then 30 else 31.

(** [getnum]: two digits, or one when [fixed] does not forbid it. *)
Definition getnum (v : bytes) (fixed : bool) : option (Z * bytes) :=
  match v with
  | a :: rest =>
      if negb (is_digit a) then None
      else match rest with
           | b :: rest' =>
               if is_digit b then Some (digit_val a * 10 + digit_val b, rest')
               else if fixed then None else Some (digit_val a, rest)
           | [] => if fixed then None else Some (digit_val a, [])
           end
  | [] => None
  end.

(** A literal byte of the layout. *)
Definition expect (c : byte) (v : bytes) : option bytes :=
  match v with
  | b :: rest => if bool_decide (b = c) then Some rest else None
  | [] => None
  end.

(** [value[0:4]] read as a number *)
Definition getyear (v : bytes) : option (Z * bytes) :=
  if (length v <? 4)%nat then None
  else y ← atoi_loop (take 4 v) 0; Some (y, drop 4 v).

(** [2006-01-02]: the day's number and what follows it. *)
Definition parse_day (v : bytes) : option (Z * bytes) :=
  '(y, v) ← getyear v;
  v ← expect x2d v;
  '(m, v) ← getnum v true;
  if (m <=? 0) || (12 <? m) then None else
  v ← expect x2d v;
  '(d, v) ← getnum v true;
  if (d <? 1) || (daysIn m y <? d) then None else
  Some (days_from_civil y m d, v).

Fixpoint digit_run (v : bytes) : bytes * bytes :=
  match v with
  | c :: r => if is_digit c then let '(a, b) := digit_run r in (c :: a, b) else ([], v)
  | [] => ([], [])
  end.

(** The fraction after the seconds, in nanoseconds; digits past the ninth are
    read over. *)
Definition parse_fraction (v : bytes) : Z * bytes :=
  match v with
  | p :: (c :: _) as rest =>
      if (bool_decide (p = x2e) || bool_decide (p = x2c)) && is_digit c then
        let '(ds, after) := digit_run (tail v) in
        let ds := take 9 ds in
        (default 0 (atoi_loop ds 0) * 10 ^ (9 - Z.of_nat (length ds)), after)
      else (0, v)
  | _ => (0, v)
  end.

(** [Z07:00]: the offset in seconds. *)
Definition parse_zone (v : bytes) : option (Z * bytes) :=
  match v with
  | [] => None
  | c :: rest =>
      if bool_decide (c = x5a) then Some (0, rest)
      else
        '(hr, v) ← getnum rest true;
        v ← expect x3a v;
        '(mm, v) ← getnum v true;
        if (24 <? hr) || (60 <? mm) then None
        else if bool_decide (c = x2b) then Some ((hr * 60 + mm) * 60, v)
        else if bool_decide (c = x2d) then Some (- ((hr * 60 + mm) * 60), v)
        else None
  end.

Definition nanoseconds (secs : Z) : Z := secs * 1000000000.

(** [time.Parse("2006-01-02", s)] *)
Definition time_Parse_date (s : bytes) : option Z :=
  '(d, v) ← parse_day s;
  match v with [] => Some (nanoseconds (d * 86400)) | _ => None end.

(** [time.Parse(time.RFC3339, s)] *)
Definition time_Parse_RFC3339 (s : bytes) : option Z :=
  '(d, v) ← parse_day s;
  v ← expect x54 v;
  '(hh, v) ← getnum v false;
  if 24 <=? hh then None else
  v ← expect x3a v;
  '(mi, v) ← getnum v true;
  if 60 <=? mi then None else
  v ← expect x3a v;
  '(ss, v) ← getnum v true;
  if 60 <=? ss then None else
  let '(ns, v) := parse_fraction v in
  '(off, v) ← parse_zone v;
  match v with
  | [] => Some (nanoseconds (d * 86400 + hh * 3600 + mi * 60 + ss - off) + ns)
  | _ => None
  end.

(** ** A date written as the layout says is read back *)

Definition two_digits (n : Z) : bytes := [digit (n / 10); digit (n mod 10)].
Definition four_digits (n : Z) : bytes := two_digits (n / 100) ++ two_digits (n mod 100).

Lemma getnum_two_digits n v fixed : 0 <= n < 100 -> getnum (two_digits n ++ v) fixed = Some (n, v).
Proof.
  intros Hn. unfold two_digits, getnum. cbn [app].
  destruct (digit_val_digit (n / 10)) as [H1 H2];
    [split; [apply Z.div_pos; lia | apply Z.div_lt_upper_bound; lia]|].
  destruct (digit_val_digit (n mod 10)) as [H3 H4]; [apply Z.mod_pos_bound; lia|].
  rewrite H1, H2, H3, H4. cbn [negb]. do 2 f_equal. pose proof (Z.div_mod n 10). lia.
Qed.

Lemma getyear_four_digits n v : 0 <= n < 10000 -> getyear (four_digits n ++ v) = Some (n, v).
Proof.
  intros Hn. unfold four_digits, two_digits, getyear. cbn [app length Nat.ltb Nat.leb take drop].
  assert (0 <= n / 100 < 100) as Ha
    by (split; [apply Z.div_pos; lia | apply Z.div_lt_upper_bound; lia]).
  pose proof (Z.mod_pos_bound n 100 ltac:(lia)) as Hb.
  assert (forall x, 0 <= x < 100 -> 0 <= x / 10 < 10 /\ 0 <= x mod 10 < 10) as Hd.
  { intros x Hx. split; [split; [apply Z.div_pos; lia | apply Z.div_lt_upper_bound; lia]|].
    apply Z.mod_pos_bound. lia. }
  destruct (Hd _ Ha) as [D1 D2], (Hd _ Hb) as [D3 D4].
  apply digit_val_digit in D1 as [V1 I1], D2 as [V2 I2], D3 as [V3 I3], D4 as [V4 I4].
  cbn [atoi_loop]. rewrite I1, I2, I3, I4, V1, V2, V3, V4. rewrite take_0, drop_0. cbn.
  do 2 f_equal. pose proof (Z.div_mod n 100). pose proof (Z.div_mod (n / 100) 10).
  pose proof (Z.div_mod (n mod 100) 10). lia.
Qed.

Lemma expect_cons c v : expect c (c :: v) = Some v.
Proof. unfold expect. by rewrite bool_decide_true. Qed.

(** Every calendar date the layout can name denotes its day's first instant. *)
Lemma time_Parse_date_written y m d :
  0 <= y < 10000 -> 1 <= m <= 12 -> 1 <= d <= daysIn m y ->
  time_Parse_date (four_digits y ++ x2d :: two_digits m ++ x2d :: two_digits d)
  = Some (nanoseconds (days_from_civil y m d * 86400)).
Proof.
  intros Hy Hm Hd. unfold time_Parse_date, parse_day.
  assert (daysIn m y <= 31) by (unfold daysIn; repeat case_match; lia).
  rewrite getyear_four_digits by done. cbn [mbind option_bind].
  rewrite expect_cons. cbn [mbind option_bind].
  rewrite getnum_two_digits by lia. cbn [mbind option_bind].
  destruct (Z.leb_spec m 0), (Z.ltb_spec 12 m); try lia. cbn [orb].
  rewrite expect_cons. cbn [mbind option_bind].
  rewrite <- (app_nil_r (two_digits d)), getnum_two_digits by lia. cbn [mbind option_bind].
  by destruct (Z.ltb_spec d 1), (Z.ltb_spec (daysIn m y) d); try lia.
Qed.

Example rfc3339_read :
  time_Parse_RFC3339 (B "2026-07-28T09:30:00.25+02:00") = Some 1785223800250000000
  /\ time_Parse_RFC3339 (B "1970-01-01T00:00:00Z") = Some 0
  /\ time_Parse_RFC3339 (B "2026-02-29T00:00:00Z") = None
  /\ time_Parse_date (B "0001-01-01") = Some (-62135596800000000000).
Proof. by vm_compute. Qed.
