(* ===== verification/Utf.v ===== *)
(** * Text encodings: the part of Go's unicode/utf8 and unicode/utf16 the source uses

    A rune is a [Z].  [EncodeRune] is [utf8.AppendRune] (and the conversion
    [string(runes)] rune by rune), [RuneStart] the test the statement
    truncation relies on, [utf16_Decode] the decoder of TDS text and
    [utf16_Encode] its inverse on Unicode scalar values. *)

From S2P Require Import Prelude.

#[local] Open Scope Z_scope.

Definition RuneError : Z := 65533.

(** Unicode scalar values: what [utf8.ValidRune] accepts. *)
Definition ValidRune (r : Z) : bool :=
  ((0 <=? r) && (r <? 55296)) || ((57343 <? r) && (r <=? 1114111)).

Definition cont_byte (v : Z) : byte := to_byte (128 + v mod 64).

Definition EncodeRune (r0 : Z) : bytes :=
  let r := if ValidRune r0 then r0 else RuneError in
  if r <=? 127 then [to_byte r]
  else if r <=? 2047 then [to_byte (192 + r / 64); cont_byte r]
  else if r <=? 65535 then [to_byte (224 + r / 4096); cont_byte (r / 64); cont_byte r]
  else [to_byte (240 + r / 262144); cont_byte (r / 4096); cont_byte (r / 64); cont_byte r].

(** [string(runes)] *)
Definition utf8_String (rs : list Z) : bytes := concat (map EncodeRune rs).

(** [b&0xC0 != 0x80] *)
Definition RuneStart (b : byte) : bool := negb (Z.land (bval b) 192 =? 128).

(** [utf16.Decode]: a surrogate without its partner becomes U+FFFD. *)
Fixpoint utf16_Decode (s : list Z) : list Z :=
  match s with
  | [] => []
  | r :: rest =>
      if (r <? 55296) || (57344 <=? r) then r :: utf16_Decode rest
      else
        match rest with
        | r2 :: rest2 =>
            if (r <? 56320) && ((56320 <=? r2) && (r2 <? 57344))
            then (Z.lor (Z.shiftl (r - 55296) 10) (r2 - 56320) + 65536) :: utf16_Decode rest2
            else RuneError :: utf16_Decode rest
        | [] => RuneError :: utf16_Decode rest
        end
  end.

(** [utf16.AppendRune] on a valid rune. *)
Definition utf16_rune (r0 : Z) : list Z :=
  let r := if ValidRune r0 then r0 else RuneError in
  if r <? 65536 then [r]
  else [55296 + (r - 65536) / 1024; 56320 + (r - 65536) mod 1024].

Definition utf16_Encode (rs : list Z) : list Z := concat (map utf16_rune rs).

(** ** Facts *)

(** High and low bit fields do not overlap. *)
Lemma land_shiftl_low a m n :
  0 <= n -> 0 <= m < 2 ^ n -> Z.land (Z.shiftl a n) m = 0.
Proof.
  intros Hn Hm. apply Z.bits_inj'. intros k Hk. rewrite Z.land_spec, Z.bits_0.
  rewrite <- (Z.mod_small m (2 ^ n)) by lia. destruct (decide (k < n)) as [Hkn|Hkn].
  - by rewrite Z.shiftl_spec_low by lia.
  - rewrite Z.mod_pow2_bits_high by lia. apply andb_false_r.
Qed.

Lemma lor_shiftl_low a m n :
  0 <= n -> 0 <= m < 2 ^ n -> Z.lor (Z.shiftl a n) m = Z.shiftl a n + m.
Proof.
  intros Hn Hm. rewrite <- Z.lxor_lor by (by apply land_shiftl_low).
  symmetry. apply Z.add_nocarry_lxor. by apply land_shiftl_low.
Qed.

Lemma cont_byte_not_start v : RuneStart (cont_byte v) = false.
Proof.
  unfold RuneStart, cont_byte. rewrite bval_to_byte.
  pose proof (Z.mod_pos_bound v 64 eq_refl) as Hv.
  rewrite Z.mod_small by lia. apply negb_false_iff, Z.eqb_eq.
  change 128 with (Z.shiftl 2 6) at 1. change 192 with (Z.shiftl 3 6).
  rewrite <- lor_shiftl_low by lia. rewrite Z.land_lor_distr_l.
  rewrite (Z.land_comm (v mod 64)), (land_shiftl_low 3 (v mod 64) 6) by lia. done.
Qed.

Lemma lead_byte_start z : 0 <= z < 128 \/ 192 <= z < 256 -> RuneStart (to_byte z) = true.
Proof.
  intros Hz. unfold RuneStart. rewrite bval_to_byte, Z.mod_small by lia.
  apply negb_true_iff, Z.eqb_neq. intros Hl.
  assert (H7 : Z.testbit (Z.land z 192) 7 = true) by (by rewrite Hl).
  assert (H6 : Z.testbit (Z.land z 192) 6 = false) by (by rewrite Hl).
  rewrite Z.land_spec in H7, H6. change (Z.testbit 192 7) with true in H7.
  change (Z.testbit 192 6) with true in H6. rewrite andb_true_r in H7, H6.
  rewrite Z.testbit_true in H7 by lia. rewrite Z.testbit_false in H6 by lia.
  change (2 ^ 7) with 128 in H7. change (2 ^ 6) with 64 in H6.
  Z.div_mod_to_equations. lia.
Qed.

Lemma ValidRune_fix r : ValidRune (if ValidRune r then r else RuneError) = true.
Proof. by destruct (ValidRune r) eqn:E. Qed.

Lemma ValidRune_range r : ValidRune r = true -> 0 <= r <= 1114111.
Proof. unfold ValidRune. rewrite orb_true_iff, !andb_true_iff. lia. Qed.

(** A rune is a start byte followed by continuation bytes. *)
Lemma EncodeRune_shape r :
  exists b k, EncodeRune r = b :: k /\ RuneStart b = true
    /\ Forall (fun c => RuneStart c = false) k /\ (length k <= 3)%nat.
Proof.
  unfold EncodeRune. pose proof (ValidRune_range _ (ValidRune_fix r)) as Hr.
  set (v := if ValidRune r then r else RuneError) in *. clearbody v.
  repeat case_go; bool_hyps; do 2 eexists; (split; [reflexivity|]);
    (split; [apply lead_byte_start; Z.div_mod_to_equations; lia|]);
    (split; [repeat constructor; apply cont_byte_not_start|simpl; lia]).
Qed.

Lemma utf16_Decode_rune r rest :
  ValidRune r = true -> utf16_Decode (utf16_rune r ++ rest) = r :: utf16_Decode rest.
Proof.
  intros Hv. pose proof (ValidRune_range _ Hv) as Hr. unfold utf16_rune. rewrite Hv.
  destruct (r <? 65536) eqn:E.
  - cbn [app utf16_Decode]. replace ((r <? 55296) || (57344 <=? r)) with true; [done|].
    symmetry. unfold ValidRune in Hv. rewrite orb_true_iff, !andb_true_iff in *. lia.
  - bool_hyps. set (v := r - 65536). cbn [app].
    assert (Hq : 0 <= v / 1024 < 1024) by (unfold v; Z.div_mod_to_equations; lia).
    pose proof (Z.mod_pos_bound v 1024 eq_refl) as Hm.
    cbn [utf16_Decode].
    replace ((55296 + v / 1024 <? 55296) || (57344 <=? 55296 + v / 1024)) with false
      by (symmetry; rewrite orb_false_iff; lia).
    replace ((55296 + v / 1024 <? 56320)
      && ((56320 <=? 56320 + v mod 1024) && (56320 + v mod 1024 <? 57344))) with true
      by (symmetry; rewrite !andb_true_iff; lia).
    f_equal. replace (55296 + v / 1024 - 55296) with (v / 1024) by lia.
    replace (56320 + v mod 1024 - 56320) with (v mod 1024) by lia.
    rewrite lor_shiftl_low, Z.shiftl_mul_pow2 by lia. change (2 ^ 10) with 1024.
    subst v. Z.div_mod_to_equations. lia.
Qed.

(** Text survives UTF-16: decoding inverts encoding on scalar values. *)
Lemma utf16_roundtrip rs :
  Forall (fun r => ValidRune r = true) rs -> utf16_Decode (utf16_Encode rs) = rs.
Proof.
  induction 1 as [|r rs Hr _ IH]; [done|]. unfold utf16_Encode. cbn [map concat].
  rewrite utf16_Decode_rune by done. by f_equal.
Qed.

(** ** UTF-8 decoding *)

(** [lo <= b && b <= hi] on a byte's value. *)
Definition between (lo : Z) (b : byte) (hi : Z) : bool := (lo <=? bval b) && (bval b <=? hi).
Definition continuation (b : byte) : bool := between 128 b 191.

(** The second byte allowed after a three- or four-byte lead byte: no overlong
    form, no surrogate, nothing past U+10FFFF. *)
Definition second_ok (b0 b1 : byte) : bool :=
  if bval b0 =? 224 then between 160 b1 191
  else if bval b0 =? 237 then between 128 b1 159
  else if bval b0 =? 240 then between 144 b1 191
  else if bval b0 =? 244 then between 128 b1 143
  else continuation b1.

(** [[]rune(s)]: a byte that starts no well-formed sequence becomes U+FFFD. *)
Fixpoint utf8_Runes (s : bytes) : list Z :=
  match s with
  | [] => []
  | b0 :: s1 =>
      let bad := RuneError :: utf8_Runes s1 in
      if bval b0 <? 128 then bval b0 :: utf8_Runes s1
      else if between 194 b0 223 then
        match s1 with
        | b1 :: s2 =>
            if continuation b1
            then (bval b0 mod 32 * 64 + bval b1 mod 64) :: utf8_Runes s2 else bad
        | [] => bad
        end
      else if between 224 b0 239 then
        match s1 with
        | b1 :: b2 :: s3 =>
            if second_ok b0 b1 && continuation b2
            then (bval b0 mod 16 * 4096 + bval b1 mod 64 * 64 + bval b2 mod 64) :: utf8_Runes s3
            else bad
        | _ => bad
        end
      else if between 240 b0 244 then
        match s1 with
        | b1 :: b2 :: b3 :: s4 =>
            if second_ok b0 b1 && continuation b2 && continuation b3
            then (bval b0 mod 8 * 262144 + bval b1 mod 64 * 4096 + bval b2 mod 64 * 64
                  + bval b3 mod 64) :: utf8_Runes s4
            else bad
        | _ => bad
        end
      else bad
  end.

Lemma bval_cont_byte v : bval (cont_byte v) = 128 + v mod 64.
Proof.
  unfold cont_byte. rewrite bval_to_byte. pose proof (Z.mod_pos_bound v 64 eq_refl).
  by rewrite Z.mod_small by lia.
Qed.

Lemma continuation_cont v : continuation (cont_byte v) = true.
Proof.
  unfold continuation, between. rewrite bval_cont_byte.
  pose proof (Z.mod_pos_bound v 64 eq_refl). apply andb_true_intro. lia.
Qed.

(** [utf8.DecodeRuneInString] on a non-empty string: the rune and its width. *)
Definition DecodeRune (s : bytes) : Z * nat :=
  match s with
  | [] => (RuneError, 0%nat)
  | b0 :: s1 =>
      if bval b0 <? 128 then (bval b0, 1%nat)
      else if between 194 b0 223 then
        match s1 with
        | b1 :: _ => if continuation b1 then (bval b0 mod 32 * 64 + bval b1 mod 64, 2%nat)
                     else (RuneError, 1%nat)
        | [] => (RuneError, 1%nat)
        end
      else if between 224 b0 239 then
        match s1 with
        | b1 :: b2 :: _ =>
            if second_ok b0 b1 && continuation b2
            then (bval b0 mod 16 * 4096 + bval b1 mod 64 * 64 + bval b2 mod 64, 3%nat)
            else (RuneError, 1%nat)
        | _ => (RuneError, 1%nat)
        end
      else if between 240 b0 244 then
        match s1 with
        | b1 :: b2 :: b3 :: _ =>
            if second_ok b0 b1 && continuation b2 && continuation b3
            then (bval b0 mod 8 * 262144 + bval b1 mod 64 * 4096 + bval b2 mod 64 * 64
                  + bval b3 mod 64, 4%nat)
            else (RuneError, 1%nat)
        | _ => (RuneError, 1%nat)
        end
      else (RuneError, 1%nat)
  end.

(** The conversion to runes decodes one after the other. *)
Lemma utf8_Runes_step s :
  s <> [] -> utf8_Runes s = (DecodeRune s).1 :: utf8_Runes (drop (DecodeRune s).2 s).
Proof.
  destruct s as [|b0 s1]; [done|]. intros _. cbn [utf8_Runes DecodeRune].
  destruct (bval b0 <? 128); [done|].
  destruct (between 194 b0 223); [destruct s1 as [|b1 s2]; [done|]; by destruct (continuation b1)|].
  destruct (between 224 b0 239).
  { destruct s1 as [|b1 [|b2 s3]]; try done. by destruct (second_ok b0 b1 && continuation b2). }
  destruct (between 240 b0 244); [|done].
  destruct s1 as [|b1 [|b2 [|b3 s4]]]; try done.
  by destruct (second_ok b0 b1 && continuation b2 && continuation b3).
Qed.

Lemma DecodeRune_width s : s <> [] -> (1 <= (DecodeRune s).2 <= length s)%nat.
Proof.
  destruct s as [|b0 s1]; [done|]. intros _. unfold DecodeRune.
  repeat case_go; cbn [snd length]; lia.
Qed.

(** The four well-formed shapes. *)
Lemma DecodeRune_1 b0 s : bval b0 < 128 -> DecodeRune (b0 :: s) = (bval b0, 1%nat).
Proof. intros H. cbn [DecodeRune]. by apply Z.ltb_lt in H as ->. Qed.

Lemma DecodeRune_2 b0 b1 s :
  194 <= bval b0 <= 223 -> continuation b1 = true ->
  DecodeRune (b0 :: b1 :: s) = (bval b0 mod 32 * 64 + bval b1 mod 64, 2%nat).
Proof.
  intros H0 H1. cbn [DecodeRune]. rewrite H1. unfold between.
  destruct (bval b0 <? 128) eqn:E; bool_hyps; [lia|].
  by replace ((194 <=? bval b0) && _) with true by lia.
Qed.

Lemma DecodeRune_3 b0 b1 b2 s :
  224 <= bval b0 <= 239 -> second_ok b0 b1 = true -> continuation b2 = true ->
  DecodeRune (b0 :: b1 :: b2 :: s)
  = (bval b0 mod 16 * 4096 + bval b1 mod 64 * 64 + bval b2 mod 64, 3%nat).
Proof.
  intros H0 H1 H2. cbn [DecodeRune]. rewrite H1, H2. unfold between.
  destruct (bval b0 <? 128) eqn:E; bool_hyps; [lia|].
  replace ((194 <=? bval b0) && _) with false by lia.
  by replace ((224 <=? bval b0) && _) with true by lia.
Qed.

Lemma DecodeRune_4 b0 b1 b2 b3 s :
  240 <= bval b0 <= 244 -> second_ok b0 b1 = true ->
  continuation b2 = true -> continuation b3 = true ->
  DecodeRune (b0 :: b1 :: b2 :: b3 :: s)
  = (bval b0 mod 8 * 262144 + bval b1 mod 64 * 4096 + bval b2 mod 64 * 64 + bval b3 mod 64, 4%nat).
Proof.
  intros H0 H1 H2 H3. cbn [DecodeRune]. rewrite H1, H2, H3. unfold between.
  destruct (bval b0 <? 128) eqn:E; bool_hyps; [lia|].
  replace ((194 <=? bval b0) && _) with false by lia.
  replace ((224 <=? bval b0) && _) with false by lia.
  by replace ((240 <=? bval b0) && _) with true by lia.
Qed.

Lemma DecodeRune_rune r s :
  ValidRune r = true -> DecodeRune (EncodeRune r ++ s) = (r, length (EncodeRune r)).
Proof.
  intros Hv. pose proof (ValidRune_range _ Hv) as Hr. unfold EncodeRune. rewrite Hv.
  unfold ValidRune in Hv. rewrite orb_true_iff, !andb_true_iff in Hv.
  repeat case_go; bool_hyps; cbn [app].
  - assert (bval (to_byte r) = r) as Hb by (rewrite bval_to_byte, Z.mod_small by lia; done).
    rewrite DecodeRune_1 by lia. by rewrite Hb.
  - assert (bval (to_byte (192 + r / 64)) = 192 + r / 64) as Hb
      by (rewrite bval_to_byte, Z.mod_small by (Z.div_mod_to_equations; lia); done).
    rewrite DecodeRune_2 by (apply continuation_cont || (rewrite Hb; Z.div_mod_to_equations; lia)).
    rewrite Hb, bval_cont_byte. f_equal. Z.div_mod_to_equations. lia.
  - assert (bval (to_byte (224 + r / 4096)) = 224 + r / 4096) as Hb
      by (rewrite bval_to_byte, Z.mod_small by (Z.div_mod_to_equations; lia); done).
    rewrite DecodeRune_3; [|rewrite Hb; Z.div_mod_to_equations; lia| |apply continuation_cont].
    + rewrite Hb, !bval_cont_byte. f_equal. Z.div_mod_to_equations. lia.
    + unfold second_ok. rewrite Hb, continuation_cont. unfold between. rewrite bval_cont_byte.
      repeat case_go; bool_hyps; try done;
        apply andb_true_intro; split; apply Z.leb_le; Z.div_mod_to_equations; lia.
  - assert (bval (to_byte (240 + r / 262144)) = 240 + r / 262144) as Hb
      by (rewrite bval_to_byte, Z.mod_small by (Z.div_mod_to_equations; lia); done).
    rewrite DecodeRune_4; [|rewrite Hb; Z.div_mod_to_equations; lia| |apply continuation_cont..].
    + rewrite Hb, !bval_cont_byte. f_equal. Z.div_mod_to_equations. lia.
    + unfold second_ok. rewrite Hb, continuation_cont. unfold between. rewrite bval_cont_byte.
      repeat case_go; bool_hyps; try done;
        apply andb_true_intro; split; apply Z.leb_le; Z.div_mod_to_equations; lia.
Qed.

Lemma utf8_Runes_rune r s :
  ValidRune r = true -> utf8_Runes (EncodeRune r ++ s) = r :: utf8_Runes s.
Proof.
  intros Hv. rewrite utf8_Runes_step, DecodeRune_rune by
    (done || by destruct (EncodeRune_shape r) as (b & k & -> & _)).
  cbn [fst snd]. by rewrite drop_app_length.
Qed.

(** Text survives UTF-8: decoding inverts encoding on scalar values. *)
Lemma utf8_roundtrip rs :
  Forall (fun r => ValidRune r = true) rs -> utf8_Runes (utf8_String rs) = rs.
Proof.
  induction 1 as [|r rs Hr _ IH]; [done|]. unfold utf8_String. cbn [map concat].
  rewrite utf8_Runes_rune by done. by f_equal.
Qed.
