(* ===== verification/Scan.v ===== *)
(** * The SQL scanner: src/hoopinspect/lexer/dialect.go and scan.go

    The scanner turns SQL text into typed tokens in one pass.  Its Go state is
    a [src] string and a position [pos] in it; here the state carries the
    remaining input [src[pos:]], so [s.pos += k] is [drop k] and
    [s.peek(off)] reads the remaining input at [off].  Nothing reads behind
    [pos] except [Split], which recovers offsets from lengths.  The loops over
    one construct (space, comment, literal, identifier) recurse structurally on
    the remaining input; the two loops that call [next] carry fuel, and
    [next_consumes] shows that the input's length plus one is enough. *)

From S2P Require Import Prelude GoStrings.

(** ** Dialects *)

Inductive Dialect := Postgres | MSSQL.

#[global] Instance Dialect_eq_dec : EqDecision Dialect.
Proof. solve_decision. Defined.

Record lexRules := {
  dollarQuote : bool;
  escapeString : bool;
  nationalString : bool;
  unicodeIdent : bool;
  bracketIdent : bool;
  nestedBlockComment : bool;
  backslashInPlainString : bool;
}.

Definition rules (d : Dialect) : lexRules :=
  match d with
  | MSSQL => {| dollarQuote := false; escapeString := false;
                nationalString := true; unicodeIdent := false;
                bracketIdent := true; nestedBlockComment := true;
                backslashInPlainString := false |}
  | Postgres => {| dollarQuote := true; escapeString := true;
                   nationalString := false; unicodeIdent := true;
                   bracketIdent := false; nestedBlockComment := true;
                   backslashInPlainString := false |}
  end.

(** ** Tokens *)

Inductive Kind := Word | Quoted | Literal | Number | Punct.

#[global] Instance Kind_eq_dec : EqDecision Kind.
Proof. solve_decision. Defined.

Record Token := { tKind : Kind; tText : bytes }.

#[global] Instance Token_eq_dec : EqDecision Token.
Proof. solve_decision. Defined.

Definition kind_is (k : Kind) (t : Token) : bool := bool_decide (tKind t = k).

Definition isName (t : Token) : bool :=
  match tKind t with
  | Quoted => negb (tText t =s [])
  | Word => negb (tText t =s [])
  | _ => false
  end.

Definition literal : Token := {| tKind := Literal; tText := [] |}.

(** ** Character classes *)

Definition isWordByte (c : byte) : bool :=
  (c =b "_") || byte_in "a" "z" c || byte_in "A" "Z" c || byte_in "0" "9" c ||
  (128 <=? bval c)%Z.

Definition isTagByte (c : byte) : bool :=
  (c =b "_") || byte_in "a" "z" c || byte_in "A" "Z" c || (128 <=? bval c)%Z.

Definition isDigit (c : byte) : bool := byte_in "0" "9" c.

Definition isNumberByte (c : byte) : bool := isDigit c || (c =b ".").

(** The bytes before the first one that fails [f], and the rest. *)
Fixpoint span (f : byte -> bool) (l : bytes) : bytes * bytes :=
  match l with
  | [] => ([], [])
  | c :: r => if f c then let '(a, b) := span f r in (c :: a, b) else ([], l)
  end.

(** ** Scanner state *)

Record scanner := {
  s_rest : bytes;          (* src[pos:] *)
  s_rules : lexRules;
  s_incomplete : bytes;
}.

Definition set_rest (s : scanner) (l : bytes) : scanner :=
  {| s_rest := l; s_rules := s_rules s; s_incomplete := s_incomplete s |}.

(** [fail] records the first construct the scanner could not finish. *)
Definition fail (s : scanner) (what : bytes) : scanner :=
  {| s_rest := s_rest s; s_rules := s_rules s;
     s_incomplete := if s_incomplete s =s [] then what else s_incomplete s |}.

Definition peek (s : scanner) (off : nat) : byte := byte_at (s_rest s) off.

(** ** Space and comments *)

Fixpoint skipSpace_loop (l : bytes) : bytes :=
  match l with
  | [] => []
  | c :: r =>
      if (c =b x20) || (c =b x09) || (c =b x0d) || (c =b x0a) || (c =b x0c) || (c =b x0b)
      then skipSpace_loop r else l
  end.

Definition skipSpace (s : scanner) : scanner := set_rest s (skipSpace_loop (s_rest s)).

Fixpoint skip_line (l : bytes) : bytes :=
  match l with
  | [] => []
  | c :: r => if c =b x0a then l else skip_line r
  end.

(** The block-comment loop; the flag says whether the comment was closed. *)
Fixpoint skip_block (nested : bool) (depth : Z) (l : bytes) : bytes * bool :=
  match l with
  | [] => ([], false)
  | c :: r =>
      match r with
      | c2 :: r2 =>
          if (c =b "/") && (c2 =b "*")
          then skip_block nested (if nested then depth + 1 else 1)%Z r2
          else if (c =b "*") && (c2 =b "/")
          then if (depth - 1 =? 0)%Z then (r2, true)
               else skip_block nested (depth - 1)%Z r2
          else skip_block nested depth r
      | [] => skip_block nested depth r
      end
  end.

Definition skipComment (s : scanner) : scanner * bool :=
  if (peek s 0 =b "-") && (peek s 1 =b "-")
  then (set_rest s (skip_line (s_rest s)), true)
  else if negb (peek s 0 =b "/") || negb (peek s 1 =b "*") then (s, false)
  else
    let '(l, closed) := skip_block (nestedBlockComment (s_rules s)) 0 (s_rest s) in
    if closed then (set_rest s l, true)
    else (fail (set_rest s l) (B "unterminated block comment"), true).

(** The [for] loop at the head of [next]: spaces and comments.  The flag is
    false at end of input. *)
Fixpoint skip_blank (fuel : nat) (s : scanner) : scanner * bool :=
  let s := skipSpace s in
  match s_rest s with
  | [] => (s, false)
  | _ :: _ =>
      let '(s', skipped) := skipComment s in
      if skipped
      then match fuel with
           | O => (s', false)
           | S fuel' => skip_blank fuel' s'
           end
      else (s, true)
  end.

(** ** Literals and identifiers *)

(** The bytes after the opening quote of a plain string. *)
Fixpoint plain_loop (bs : bool) (l : bytes) : bytes * bool :=
  match l with
  | [] => ([], false)
  | c :: r =>
      match r with
      | c2 :: r2 =>
          if bs && (c =b "\") then plain_loop bs r2
          else if c =b "'"
          then if c2 =b "'" then plain_loop bs r2 else (r, true)
          else plain_loop bs r
      | [] => if c =b "'" then (r, true) else plain_loop bs r
      end
  end.

Definition plainString (s : scanner) : scanner * Token :=
  let '(l, closed) := plain_loop (backslashInPlainString (s_rules s)) (drop 1 (s_rest s)) in
  if closed then (set_rest s l, literal)
  else (fail (set_rest s l) (B "unterminated string literal"), literal).

Fixpoint escaped_loop (l : bytes) : bytes * bool :=
  match l with
  | [] => ([], false)
  | c :: r =>
      if c =b "\"
      then match r with
           | [] => ([], false)        (* pos moves past the end of src *)
           | _ :: r2 => escaped_loop r2
           end
      else if c =b "'"
      then match r with
           | c2 :: r2 => if c2 =b "'" then escaped_loop r2 else (r, true)
           | [] => (r, true)
           end
      else escaped_loop r
  end.

Definition escapedString (s : scanner) : scanner * Token :=
  let '(l, closed) := escaped_loop (drop 1 (s_rest s)) in
  if closed then (set_rest s l, literal)
  else (fail (set_rest s l) (B "unterminated escape string"), literal).

(** Builder contents, remaining input and whether the delimiter was closed. *)
Fixpoint ident_loop (close : byte) (l : bytes) : bytes * (bytes * bool) :=
  match l with
  | [] => ([], ([], false))
  | c :: r =>
      if c =b close
      then match r with
           | c2 :: r2 =>
               if c2 =b close
               then let '(b, res) := ident_loop close r2 in (close :: b, res)
               else ([], (r, true))
           | [] => ([], (r, true))
           end
      else let '(b, res) := ident_loop close r in (c :: b, res)
  end.

Definition delimitedIdent (close : byte) (s : scanner) : scanner * Token :=
  let '(b, (l, closed)) := ident_loop close (drop 1 (s_rest s)) in
  let tok := {| tKind := Quoted; tText := b |} in
  if closed then (set_rest s l, tok)
  else (fail (set_rest s l) (B "unterminated quoted identifier"), tok).

Definition dollarString (s : scanner) : scanner * option Token :=
  let '(body, after) := span isTagByte (drop 1 (s_rest s)) in
  match after with
  | c :: rest =>
      if c =b "$" then
        let tag := x24 :: body ++ [x24] in
        match Index rest tag with
        | Some i => (set_rest s (drop (i + length tag) rest), Some literal)
        | None =>
            (fail (set_rest s []) (B "unterminated dollar-quoted string"), Some literal)
        end
      else (s, None)
  | [] => (s, None)
  end.

Definition number (s : scanner) : scanner * Token :=
  let '(a, r) := span isNumberByte (s_rest s) in
  (set_rest s r, {| tKind := Number; tText := a |}).

Section Scanner.
Context `{GoUnicode}.

Definition word (s : scanner) : scanner * Token :=
  let '(a, r) := span isWordByte (s_rest s) in
  (set_rest s r, {| tKind := Word; tText := ToLower a |}).

(** The [switch] of [next], at a byte that starts a token. *)
Definition next_token (s : scanner) : scanner * Token :=
  let ru := s_rules s in
  let c := peek s 0 in
  let adv k := set_rest s (drop k (s_rest s)) in
  if c =b "'" then plainString s
  else if escapeString ru && ((c =b "E") || (c =b "e")) && (peek s 1 =b "'")
  then escapedString (adv 1%nat)
  else if nationalString ru && ((c =b "N") || (c =b "n")) && (peek s 1 =b "'")
  then plainString (adv 1%nat)
  else if c =b x22 then delimitedIdent x22 s
  else if unicodeIdent ru && ((c =b "U") || (c =b "u")) && (peek s 1 =b "&")
            && (peek s 2 =b x22)
  then delimitedIdent x22 (adv 2%nat)
  else if bracketIdent ru && (c =b "[") then delimitedIdent "]" s
  else if dollarQuote ru && (c =b "$")
  then match dollarString s with
       | (s', Some tok) => (s', tok)
       | (_, None) => (adv 1%nat, {| tKind := Punct; tText := [x24] |})
       end
  else if isDigit c then number s
  else if isWordByte c then word s
  else (adv 1%nat, {| tKind := Punct; tText := [c] |}).

Definition next (s : scanner) : scanner * option Token :=
  let '(s1, more) := skip_blank (length (s_rest s)) s in
  if more then let '(s2, tok) := next_token s1 in (s2, Some tok)
  else (s1, None).

(** ** [scan] and [Split] *)

Definition new_scanner (src : bytes) (d : Dialect) : scanner :=
  {| s_rest := src; s_rules := rules d; s_incomplete := [] |}.

(** The loop of [scan]: the tokens in order, and the final state. *)
Fixpoint scan_loop (fuel : nat) (s : scanner) : list Token * scanner :=
  match next s with
  | (s', None) => ([], s')
  | (s', Some tok) =>
      match fuel with
      | O => ([], s')
      | S fuel' => let '(ts, sf) := scan_loop fuel' s' in (tok :: ts, sf)
      end
  end.

Definition scan (src : bytes) (d : Dialect) : list Token * bytes :=
  let '(ts, sf) := scan_loop (S (length src)) (new_scanner src d) in
  (ts, s_incomplete sf).

Definition is_semi (t : Token) : bool := kind_is Punct t && (tText t =s B ";").

Definition keep_nonblank (t : bytes) : list bytes :=
  let t := TrimSpace t in if t =s [] then [] else [t].

(** The loop of [Split]; [start] is [sql[start:]]. *)
Fixpoint split_loop (fuel : nat) (s : scanner) (start : bytes) : list bytes :=
  match next s with
  | (_, None) => keep_nonblank start
  | (s', Some tok) =>
      match fuel with
      | O => keep_nonblank start
      | S fuel' =>
          if is_semi tok
          then keep_nonblank
                 (take (length start - length (s_rest s') - 1) start)
               ++ split_loop fuel' s' (s_rest s')
          else split_loop fuel' s' start
      end
  end.

Definition Split (sql : bytes) (d : Dialect) : list bytes :=
  split_loop (S (length sql)) (new_scanner sql d) sql.
End Scanner.

(** ** Unfolding equations for the loops that look one byte ahead *)

Lemma skip_block_cons2 nested depth c c2 r :
  skip_block nested depth (c :: c2 :: r) =
  (if (c =b "/") && (c2 =b "*")
   then skip_block nested (if nested then depth + 1 else 1)%Z r
   else if (c =b "*") && (c2 =b "/")
   then if (depth - 1 =? 0)%Z then (r, true) else skip_block nested (depth - 1)%Z r
   else skip_block nested depth (c2 :: r)).
Proof. reflexivity. Qed.

Lemma plain_loop_cons2 bs c c2 r :
  plain_loop bs (c :: c2 :: r) =
  (if bs && (c =b "\") then plain_loop bs r
   else if c =b "'" then if c2 =b "'" then plain_loop bs r else (c2 :: r, true)
   else plain_loop bs (c2 :: r)).
Proof. reflexivity. Qed.

Lemma escaped_loop_cons2 c c2 r :
  escaped_loop (c :: c2 :: r) =
  (if c =b "\" then escaped_loop r
   else if c =b "'" then if c2 =b "'" then escaped_loop r else (c2 :: r, true)
   else escaped_loop (c2 :: r)).
Proof. reflexivity. Qed.

Lemma ident_loop_cons2 close c c2 r :
  ident_loop close (c :: c2 :: r) =
  (if c =b close
   then if c2 =b close
        then let '(b, res) := ident_loop close r in (close :: b, res)
        else ([], (c2 :: r, true))
   else let '(b, res) := ident_loop close (c2 :: r) in (c :: b, res)).
Proof. reflexivity. Qed.

Lemma skip_block_one nested depth c : skip_block nested depth [c] = ([], false).
Proof. reflexivity. Qed.

Lemma plain_loop_one bs c : plain_loop bs [c] = ([], c =b "'").
Proof. simpl. by destruct (c =b "'"). Qed.

Lemma escaped_loop_one c : escaped_loop [c] = ([], negb (c =b "\") && (c =b "'")).
Proof. simpl. by destruct (c =b "\"), (c =b "'"). Qed.

Lemma ident_loop_one close c :
  ident_loop close [c] = (if c =b close then [] else [c], ([], c =b close)).
Proof. simpl. by destruct (c =b close). Qed.

(** ** Every loop returns a suffix of its input *)

Lemma span_app f l a b : span f l = (a, b) -> l = a ++ b /\ forallb f a = true.
Proof.
  revert a b. induction l as [|c r IH]; intros a b; simpl; [by intros [= <- <-]|].
  destruct (f c) eqn:Hc; [|by intros [= <- <-]].
  destruct (span f r) as [a' b']. intros [= <- <-].
  destruct (IH _ _ eq_refl) as [-> Ha]. simpl. by rewrite Hc.
Qed.

Lemma span_suffix f l : (span f l).2 `suffix_of` l.
Proof.
  destruct (span f l) as [a b] eqn:E. apply span_app in E as [-> _]. by exists a.
Qed.

Lemma skipSpace_loop_suffix l : skipSpace_loop l `suffix_of` l.
Proof. induction l as [|c r IH]; simpl; [done|]. case_match; [by apply suffix_cons_r|done]. Qed.

Lemma skip_line_suffix l : skip_line l `suffix_of` l.
Proof. induction l as [|c r IH]; simpl; [done|]. case_match; [done|by apply suffix_cons_r]. Qed.

Lemma skip_block_suffix nested depth l : (skip_block nested depth l).1 `suffix_of` l.
Proof.
  revert depth. induction l as [|c|c c2 r IH1 IH2] using list_ind2; intros depth.
  - done.
  - apply suffix_nil.
  - rewrite skip_block_cons2. repeat case_match; simpl;
      repeat first [apply suffix_cons_r; apply suffix_cons_r; done
                   |apply suffix_cons_r, IH2|apply suffix_cons_r, suffix_cons_r, IH1].
Qed.

Lemma plain_loop_suffix bs l : (plain_loop bs l).1 `suffix_of` l.
Proof.
  induction l as [|c|c c2 r IH1 IH2] using list_ind2.
  - done.
  - simpl. case_match; apply suffix_nil.
  - rewrite plain_loop_cons2. repeat case_match; simpl;
      repeat first [apply suffix_cons_r, suffix_cons_r, IH1
                   |apply suffix_cons_r, IH2|apply suffix_cons_r; done].
Qed.

Lemma escaped_loop_suffix l : (escaped_loop l).1 `suffix_of` l.
Proof.
  induction l as [|c|c c2 r IH1 IH2] using list_ind2.
  - done.
  - simpl. repeat case_match; apply suffix_nil.
  - rewrite escaped_loop_cons2. repeat case_match; simpl;
      repeat first [apply suffix_cons_r, suffix_cons_r, IH1
                   |apply suffix_cons_r, IH2|apply suffix_cons_r; done].
Qed.

Lemma ident_loop_suffix close l : (ident_loop close l).2.1 `suffix_of` l.
Proof.
  induction l as [|c|c c2 r IH1 IH2] using list_ind2.
  - done.
  - simpl. repeat case_match; apply suffix_nil.
  - rewrite ident_loop_cons2.
    destruct (ident_loop close r) as [b1 r1];
      destruct (ident_loop close (c2 :: r)) as [b2 r2]; repeat case_match; simpl in *;
      repeat first [apply suffix_cons_r, suffix_cons_r, IH1
                   |apply suffix_cons_r, IH2|apply suffix_cons_r; done].
Qed.

(** ** Progress: [next] consumes input *)

Lemma peek0_cons s c : (peek s 0 =b c) = true -> c <> x00 ->
  exists r, s_rest s = c :: r.
Proof.
  unfold peek, byte_at. intros E%byte_eqb_eq Hc.
  destruct (s_rest s) as [|c' r]; simpl in E; subst; [done|]. by exists r.
Qed.

Lemma peek01_cons s c c2 :
  (peek s 0 =b c) = true -> (peek s 1 =b c2) = true -> c <> x00 -> c2 <> x00 ->
  exists r, s_rest s = c :: c2 :: r.
Proof.
  intros H0 H1 Hc Hc2. destruct (peek0_cons s c H0 Hc) as [r Hr].
  unfold peek, byte_at in H1. rewrite Hr in *. apply byte_eqb_eq in H1.
  destruct r as [|c' r]; simpl in H1; subst; [done|]. by exists r.
Qed.

Lemma skipComment_false s s' : skipComment s = (s', false) -> s' = s.
Proof. unfold skipComment. intros H. repeat case_match; simplify_eq/=; done. Qed.

Lemma skipComment_true s s' :
  skipComment s = (s', true) ->
  s_rest s' `suffix_of` s_rest s /\ length (s_rest s') + 2 <= length (s_rest s).
Proof.
  unfold skipComment. case_go.
  - intros [= <-]. bool_hyps. destruct (peek01_cons s "-" "-") as [r Hr];
      [apply byte_eqb_eq; done..|done|done|]. simpl. rewrite Hr. simpl.
    pose proof (skip_line_suffix r) as Hs. split; [by do 2 apply suffix_cons_r|].
    apply suffix_length in Hs. simpl. lia.
  - case_go; [done|]. rewrite orb_false_iff in Heqb0. destruct Heqb0 as [H0 H1].
    rewrite negb_false_iff in H0, H1.
    destruct (peek01_cons s "/" "*" H0 H1) as [r Hr]; [done..|]. rewrite Hr.
    rewrite skip_block_cons2. simpl (_ && _).
    match goal with |- context [skip_block ?n ?d r] => set (p := skip_block n d r);
      pose proof (skip_block_suffix n d r) as Hs; fold p in Hs end.
    destruct p as [l closed]. simpl in Hs.
    assert (length l + 2 <= length (x2f :: x2a :: r)) by (apply suffix_length in Hs; simpl; lia).
    destruct closed; intros [= <-]; simpl; (split; [by do 2 apply suffix_cons_r|done]).
Qed.

Lemma skip_blank_step fuel s :
  skip_blank fuel s =
  match s_rest (skipSpace s) with
  | [] => (skipSpace s, false)
  | _ :: _ =>
      let '(s', skipped) := skipComment (skipSpace s) in
      if skipped
      then match fuel with O => (s', false) | S fuel' => skip_blank fuel' s' end
      else (skipSpace s, true)
  end.
Proof. by destruct fuel. Qed.

Lemma skip_blank_suffix_space fuel s :
  s_rest (skip_blank fuel s).1 `suffix_of` skipSpace_loop (s_rest s).
Proof.
  revert s. induction fuel as [|fuel IH]; intros s; rewrite skip_blank_step;
    (destruct (s_rest (skipSpace s)) as [|c r] eqn:E; [done|]);
    destruct (skipComment (skipSpace s)) as [s' []] eqn:Ec; try done;
    apply skipComment_true in Ec as [Ec _]; [done|].
  trans (s_rest s'); [|done]. etrans; [apply IH|apply skipSpace_loop_suffix].
Qed.

Lemma skip_blank_suffix fuel s : s_rest (skip_blank fuel s).1 `suffix_of` s_rest s.
Proof. etrans; [apply skip_blank_suffix_space|apply skipSpace_loop_suffix]. Qed.

(** With fuel for the whole input, the loop stops only at the end of input
    or at a byte that starts a token. *)
Lemma skip_blank_fuel fuel s :
  length (s_rest s) <= fuel -> (skip_blank fuel s).2 = false ->
  s_rest (skip_blank fuel s).1 = [].
Proof.
  revert s. induction fuel as [|fuel IH]; intros s Hl; cbn [skip_blank];
    pose proof (suffix_length _ _ (skipSpace_loop_suffix (s_rest s))) as Hs;
    (destruct (s_rest (skipSpace s)) as [|c r] eqn:E; [done|]);
    destruct (skipComment (skipSpace s)) as [s' []] eqn:Ec; try done;
    apply skipComment_true in Ec as [_ Ec]; simpl in *; [lia|]. apply IH. lia.
Qed.

Lemma skip_blank_true fuel s :
  (skip_blank fuel s).2 = true -> s_rest (skip_blank fuel s).1 <> [].
Proof.
  revert s. induction fuel as [|fuel IH]; intros s; cbn [skip_blank];
    (destruct (s_rest (skipSpace s)) as [|c r] eqn:E; [done|]);
    destruct (skipComment (skipSpace s)) as [s' []] eqn:Ec; simpl in *; try done.
  - by rewrite E.
  - apply IH.
  - by rewrite E.
Qed.

Lemma span_head_suffix f c r :
  f c = true -> (span f (c :: r)).2 `suffix_of` r.
Proof.
  intros Hc. simpl. rewrite Hc. pose proof (span_suffix f r) as Hs.
  by destruct (span f r).
Qed.

Lemma plainString_suffix s : s_rest (plainString s).1 `suffix_of` drop 1 (s_rest s).
Proof.
  unfold plainString. pose proof (plain_loop_suffix (backslashInPlainString (s_rules s))
    (drop 1 (s_rest s))) as Hs. destruct (plain_loop _ _) as [l []]; done.
Qed.

Lemma escapedString_suffix s : s_rest (escapedString s).1 `suffix_of` drop 1 (s_rest s).
Proof.
  unfold escapedString. pose proof (escaped_loop_suffix (drop 1 (s_rest s))) as Hs.
  destruct (escaped_loop _) as [l []]; done.
Qed.

Lemma delimitedIdent_suffix close s :
  s_rest (delimitedIdent close s).1 `suffix_of` drop 1 (s_rest s).
Proof.
  unfold delimitedIdent. pose proof (ident_loop_suffix close (drop 1 (s_rest s))) as Hs.
  destruct (ident_loop _ _) as [b [l []]]; done.
Qed.

Lemma dollarString_suffix s s' tok :
  dollarString s = (s', Some tok) -> s_rest s' `suffix_of` drop 1 (s_rest s).
Proof.
  unfold dollarString. pose proof (span_suffix isTagByte (drop 1 (s_rest s))) as Hs.
  destruct (span _ _) as [a [|c rest]]; [done|]. simpl in Hs.
  case_go; [|done]. case_go; intros [= <- <-]; simpl; [|apply suffix_nil].
  trans rest; [apply suffix_drop|]. trans (c :: rest); [by apply suffix_cons_r|done].
Qed.

Lemma drop_S_suffix {A} n (l : list A) : drop (S n) l `suffix_of` drop 1 l.
Proof.
  destruct l as [|x l]; simpl; [apply suffix_nil|]. destruct n; [done|].
  apply suffix_drop.
Qed.

#[export] Hint Resolve plainString_suffix escapedString_suffix delimitedIdent_suffix
  drop_S_suffix span_suffix : golib.

Section Progress.
Context `{GoUnicode}.

Lemma next_token_suffix s :
  s_rest s <> [] -> s_rest (next_token s).1 `suffix_of` drop 1 (s_rest s).
Proof.
  intros Hne. unfold next_token.
  repeat match goal with
  | |- context [if ?b then _ else _] => destruct b eqn:?
  end; simpl; auto with golib.
  - etrans; [apply escapedString_suffix|]. simpl. rewrite drop_drop. apply (drop_S_suffix 1).
  - etrans; [apply plainString_suffix|]. simpl. rewrite drop_drop. apply (drop_S_suffix 1).
  - etrans; [apply delimitedIdent_suffix|]. simpl. rewrite drop_drop. apply (drop_S_suffix 2).
  - destruct (dollarString s) as [s' [tok|]] eqn:E; simpl.
    + by eapply dollarString_suffix.
    + done.
  - unfold number. destruct (s_rest s) as [|c r] eqn:Er; [done|].
    assert (isNumberByte c = true) as Hc.
    { unfold isNumberByte, peek, byte_at in *. rewrite Er in *. simpl in *. by rewrite Heqb6. }
    pose proof (span_head_suffix isNumberByte c r Hc) as Hs.
    by destruct (span isNumberByte (c :: r)).
  - unfold word. destruct (s_rest s) as [|c r] eqn:Er; [done|].
    assert (isWordByte c = true) as Hc.
    { unfold peek, byte_at in *. rewrite Er in *. done. }
    pose proof (span_head_suffix isWordByte c r Hc) as Hs.
    by destruct (span isWordByte (c :: r)).
Qed.

(** [next] leaves a suffix of its input, shorter when it returns a token,
    and empty when it returns none. *)
Lemma next_consumes s s' o :
  next s = (s', o) ->
  s_rest s' `suffix_of` s_rest s /\
  match o with
  | Some _ => length (s_rest s') < length (s_rest s)
  | None => s_rest s' = []
  end.
Proof.
  unfold next. pose proof (skip_blank_suffix (length (s_rest s)) s) as Hs.
  pose proof (skip_blank_fuel (length (s_rest s)) s) as Hf.
  pose proof (skip_blank_true (length (s_rest s)) s) as Ht.
  destruct (skip_blank _ _) as [s1 []]; simpl in *.
  - pose proof (next_token_suffix s1 (Ht eq_refl)) as Hn.
    destruct (next_token s1) as [s2 tok]. simpl in *. intros [= <- <-].
    split; [by trans (drop 1 (s_rest s1)); [|trans (s_rest s1); [apply suffix_drop|]]|].
    apply suffix_length in Hn, Hs. rewrite length_drop in Hn.
    destruct (s_rest s1) eqn:E; [by specialize (Ht eq_refl)|]. simpl in *. lia.
  - intros [= <- <-]. split; [done|]. by apply Hf.
Qed.

Lemma scan_loop_fuel fuel1 fuel2 s :
  length (s_rest s) < fuel1 -> length (s_rest s) < fuel2 ->
  scan_loop fuel1 s = scan_loop fuel2 s.
Proof.
  revert fuel2 s. induction fuel1 as [|f1 IH]; intros fuel2 s H1 H2; [lia|].
  destruct fuel2 as [|f2]; [lia|]. cbn [scan_loop].
  destruct (next s) as [s' [tok|]] eqn:E; [|done].
  apply next_consumes in E as [_ E]. by rewrite (IH f2) by lia.
Qed.
End Progress.
