(* ===== verification/ScanProps.v ===== *)
(** * [Split] makes exactly the scanner's lexical decisions

    src/hoopinspect/lexer/scan.go says that a splitter "has to make exactly the
    lexical decisions this scanner already makes".  This file proves it: the
    tokens of a text are the tokens of its pieces, in order, with only the
    separators missing.

    The proof has two parts.  The continuation lemmas ([..._cont]) say that a
    construct that ends before some point of the input is scanned the same way
    when everything from that point on is removed.  The blank lemmas ([..._ws])
    say that a construct that is finished never ends inside trailing spaces, so
    that trimming them changes no token. *)

From S2P Require Import Prelude GoStrings Scan.

Section Splitting.
#[local] Arguments skip_block : simpl never.
#[local] Arguments plain_loop : simpl never.
#[local] Arguments escaped_loop : simpl never.
#[local] Arguments ident_loop : simpl never.

(** ** Continuations *)

Ltac absurd_len lem H :=
  apply lem in H; rewrite ?length_app in H; simpl in H; lia.

(** [r ++ k = v ++ k] gives [r = v]. *)
Ltac tail_inv :=
  match goal with
  | H : ?r ++ ?k = ?v ++ ?k |- _ => apply app_inv_tail in H
  | H : ?c :: ?r ++ ?k = ?v ++ ?k |- _ => apply (app_inv_tail k (c :: r) v) in H
  end; subst.

Lemma skip_block_lt nested depth l r :
  skip_block nested depth l = (r, true) -> length r < length l.
Proof.
  revert depth. induction l as [|c|c c2 l IH1 IH2] using list_ind2; intros depth.
  - done.
  - done.
  - rewrite skip_block_cons2. repeat case_match; intros Hr; simplify_eq/=; try lia;
      first [apply IH1 in Hr; lia|apply IH2 in Hr; simpl in Hr; lia].
Qed.

Lemma plain_loop_lt bs l r : plain_loop bs l = (r, true) -> length r < length l.
Proof.
  induction l as [|c|c c2 l IH1 IH2] using list_ind2.
  - done.
  - rewrite plain_loop_one. intros; simplify_eq/=; lia.
  - rewrite plain_loop_cons2. repeat case_match; intros Hr; simplify_eq/=; try lia;
      first [apply IH1 in Hr; lia|apply IH2 in Hr; simpl in Hr; lia].
Qed.

Lemma escaped_loop_lt l r : escaped_loop l = (r, true) -> length r < length l.
Proof.
  induction l as [|c|c c2 l IH1 IH2] using list_ind2.
  - done.
  - rewrite escaped_loop_one. intros; simplify_eq/=; lia.
  - rewrite escaped_loop_cons2. repeat case_match; intros Hr; simplify_eq/=; try lia;
      first [apply IH1 in Hr; lia|apply IH2 in Hr; simpl in Hr; lia].
Qed.

Lemma ident_loop_lt close l b r : ident_loop close l = (b, (r, true)) -> length r < length l.
Proof.
  revert b. induction l as [|c|c c2 l IH1 IH2] using list_ind2; intros b.
  - done.
  - rewrite ident_loop_one. intros; simplify_eq/=; lia.
  - rewrite ident_loop_cons2. destruct (ident_loop close l) as [b1 res1].
    destruct (ident_loop close (c2 :: l)) as [b2 res2].
    repeat case_match; intros Hr; simplify_eq/=; try lia.
    + pose proof (IH1 _ eq_refl). lia.
    + pose proof (IH2 _ eq_refl). lia.
Qed.

(** A construct that is not closed runs to the end of the input. *)
Lemma skip_block_open nested depth l r : skip_block nested depth l = (r, false) -> r = [].
Proof.
  revert depth. induction l as [|c|c c2 l IH1 IH2] using list_ind2; intros depth.
  - by intros [= <-].
  - rewrite skip_block_one. by intros [= <-].
  - rewrite skip_block_cons2. repeat case_match; intros; simplify_eq/=; eauto.
Qed.

Lemma plain_loop_open bs l r : plain_loop bs l = (r, false) -> r = [].
Proof.
  induction l as [|c|c c2 l IH1 IH2] using list_ind2.
  - by intros [= <-].
  - rewrite plain_loop_one. by intros [= <-].
  - rewrite plain_loop_cons2. repeat case_match; intros; simplify_eq/=; eauto.
Qed.

Lemma escaped_loop_open l r : escaped_loop l = (r, false) -> r = [].
Proof.
  induction l as [|c|c c2 l IH1 IH2] using list_ind2.
  - by intros [= <-].
  - rewrite escaped_loop_one. by intros [= <-].
  - rewrite escaped_loop_cons2. repeat case_match; intros; simplify_eq/=; eauto.
Qed.

Lemma ident_loop_open close l b r : ident_loop close l = (b, (r, false)) -> r = [].
Proof.
  revert b. induction l as [|c|c c2 l IH1 IH2] using list_ind2; intros b.
  - by intros [= _ <-].
  - rewrite ident_loop_one. by intros [= _ <-].
  - rewrite ident_loop_cons2. destruct (ident_loop close l), (ident_loop close (c2 :: l)).
    repeat case_match; intros; simplify_eq/=; eauto.
Qed.

Lemma app_tail_nil {A} (v k : list A) : k = v ++ k -> v = [].
Proof. intros H. apply (f_equal length) in H. rewrite length_app in H. destruct v; [done|simpl in H; lia]. Qed.

Lemma skip_block_cont nested depth u k v :
  skip_block nested depth (u ++ k) = (v ++ k, true) ->
  skip_block nested depth u = (v, true).
Proof.
  destruct k as [|h k]; [by rewrite !app_nil_r|].
  revert depth. induction u as [|c|c c2 r IH1 IH2] using list_ind2; intros depth Hs.
  - simpl app in Hs. absurd_len skip_block_lt Hs.
  - simpl app in Hs. rewrite skip_block_cons2 in Hs. repeat case_match; simplify_eq/=;
      try absurd_len skip_block_lt Hs.
    match goal with H : k = _ |- _ => apply (f_equal length) in H;
      rewrite length_app in H; simpl in H; lia end.
  - simpl app in *. rewrite skip_block_cons2 in *. repeat case_match; simplify_eq/=; auto.
    by tail_inv.
Qed.

Lemma plain_loop_cont bs u k v :
  plain_loop bs (u ++ k) = (v ++ k, true) -> plain_loop bs u = (v, true).
Proof.
  destruct k as [|h k]; [by rewrite !app_nil_r|].
  induction u as [|c|c c2 r IH1 IH2] using list_ind2; intros Hs.
  - simpl app in Hs. absurd_len plain_loop_lt Hs.
  - simpl app in Hs. rewrite plain_loop_cons2 in Hs. rewrite plain_loop_one.
    repeat case_match; simplify_eq/=; try absurd_len plain_loop_lt Hs.
    by rewrite (app_tail_nil v (h :: k)).
  - simpl app in *. rewrite plain_loop_cons2 in *. repeat case_match; simplify_eq/=; auto.
    by tail_inv.
Qed.

Lemma escaped_loop_cont u k v :
  escaped_loop (u ++ k) = (v ++ k, true) -> escaped_loop u = (v, true).
Proof.
  destruct k as [|h k]; [by rewrite !app_nil_r|].
  induction u as [|c|c c2 r IH1 IH2] using list_ind2; intros Hs.
  - simpl app in Hs. absurd_len escaped_loop_lt Hs.
  - simpl app in Hs. rewrite escaped_loop_cons2 in Hs. rewrite escaped_loop_one.
    repeat case_match; simplify_eq/=; try absurd_len escaped_loop_lt Hs.
    by rewrite (app_tail_nil v (h :: k)).
  - simpl app in *. rewrite escaped_loop_cons2 in *. repeat case_match; simplify_eq/=; auto.
    by tail_inv.
Qed.

Lemma ident_loop_cont close u k b v :
  ident_loop close (u ++ k) = (b, (v ++ k, true)) -> ident_loop close u = (b, (v, true)).
Proof.
  destruct k as [|h k]; [by rewrite !app_nil_r|]. revert b.
  induction u as [|c|c c2 r IH1 IH2] using list_ind2; intros b Hs.
  - simpl app in Hs. absurd_len ident_loop_lt Hs.
  - simpl app in Hs. rewrite ident_loop_cons2 in Hs. rewrite ident_loop_one.
    destruct (ident_loop close k) as [b1 res1] eqn:E1.
    destruct (ident_loop close (h :: k)) as [b2 res2] eqn:E2.
    repeat case_match; simplify_eq/=;
      [absurd_len ident_loop_lt E1| |absurd_len ident_loop_lt E2].
    by rewrite (app_tail_nil v (h :: k)).
  - simpl app in *. rewrite ident_loop_cons2 in *.
    destruct (ident_loop close (r ++ h :: k)) as [b1 res1] eqn:E1.
    destruct (ident_loop close (c2 :: r ++ h :: k)) as [b2 res2] eqn:E2.
    repeat case_match; simplify_eq/=.
    + specialize (IH1 _ eq_refl). by simplify_eq/=.
    + by tail_inv.
    + specialize (IH2 _ eq_refl). by simplify_eq/=.
Qed.

Lemma span_cont f u k a v : span f (u ++ k) = (a, v ++ k) -> span f u = (a, v).
Proof.
  destruct k as [|h k]; [by rewrite !app_nil_r|].
  revert a. induction u as [|c r IH]; intros a Hs.
  - simpl app in Hs. apply span_app in Hs as [Hs _].
    apply (f_equal length) in Hs. rewrite !length_app in Hs. simpl in Hs.
    destruct a, v; simpl in Hs; [done|lia..].
  - simpl in *. destruct (f c); [|].
    + destruct (span f (r ++ h :: k)) as [a' b'] eqn:E. simplify_eq/=.
      by rewrite (IH a').
    + simplify_eq. by tail_inv.
Qed.

Lemma skipSpace_loop_cont u k v :
  skipSpace_loop (u ++ k) = v ++ k -> skipSpace_loop u = v.
Proof.
  induction u as [|c r IH]; intros Hs.
  - simpl app in Hs. pose proof (suffix_length _ _ (skipSpace_loop_suffix k)) as Hl.
    rewrite Hs, length_app in Hl. destruct v; [done|simpl in Hl; lia].
  - simpl in *. case_match; [by apply IH|].
    by tail_inv.
Qed.

Lemma skip_line_cont u k v : skip_line (u ++ k) = v ++ k -> skip_line u = v.
Proof.
  induction u as [|c r IH]; intros Hs.
  - simpl app in Hs. pose proof (suffix_length _ _ (skip_line_suffix k)) as Hl.
    rewrite Hs, length_app in Hl. destruct v; [done|simpl in Hl; lia].
  - simpl in *. case_match; [|by apply IH].
    by tail_inv.
Qed.

(** ** Continuations of the tokens

    [set_rest s u] is the scanner [s] placed on the input [u]. *)

Lemma peek_app s u k off :
  off < length u -> peek (set_rest s (u ++ k)) off = peek (set_rest s u) off.
Proof. intros Hl. unfold peek, byte_at. simpl. by rewrite lookup_app_l. Qed.

Lemma drop1_app {A} (u k : list A) : u <> [] -> drop 1 (u ++ k) = drop 1 u ++ k.
Proof. by destruct u. Qed.

Lemma plainString_cont s u k v s' t :
  u <> [] -> k <> [] ->
  plainString (set_rest s (u ++ k)) = (s', t) -> s_rest s' = v ++ k ->
  plainString (set_rest s u) = (set_rest s v, t) /\ s' = set_rest s (v ++ k).
Proof.
  intros Hu Hk. unfold plainString. simpl. rewrite drop1_app by done.
  destruct (plain_loop _ (drop 1 u ++ k)) as [l []] eqn:E; intros [= <- <-]; simpl; intros ->.
  - by rewrite (plain_loop_cont _ _ _ _ E).
  - apply plain_loop_open in E. by destruct v.
Qed.

Lemma escapedString_cont s u k v s' t :
  u <> [] -> k <> [] ->
  escapedString (set_rest s (u ++ k)) = (s', t) -> s_rest s' = v ++ k ->
  escapedString (set_rest s u) = (set_rest s v, t) /\ s' = set_rest s (v ++ k).
Proof.
  intros Hu Hk. unfold escapedString. simpl. rewrite drop1_app by done.
  destruct (escaped_loop (drop 1 u ++ k)) as [l []] eqn:E; intros [= <- <-]; simpl; intros ->.
  - by rewrite (escaped_loop_cont _ _ _ E).
  - apply escaped_loop_open in E. by destruct v.
Qed.

Lemma delimitedIdent_cont close s u k v s' t :
  u <> [] -> k <> [] ->
  delimitedIdent close (set_rest s (u ++ k)) = (s', t) -> s_rest s' = v ++ k ->
  delimitedIdent close (set_rest s u) = (set_rest s v, t) /\ s' = set_rest s (v ++ k).
Proof.
  intros Hu Hk. unfold delimitedIdent. simpl. rewrite drop1_app by done.
  destruct (ident_loop close (drop 1 u ++ k)) as [b [l []]] eqn:E; intros [= <- <-]; simpl;
    intros ->.
  - by rewrite (ident_loop_cont _ _ _ _ _ E).
  - apply ident_loop_open in E. by destruct v.
Qed.

Lemma dollarString_cont s u k v s' t :
  u <> [] -> k <> [] ->
  dollarString (set_rest s (u ++ k)) = (s', Some t) -> s_rest s' = v ++ k ->
  dollarString (set_rest s u) = (set_rest s v, Some t) /\ s' = set_rest s (v ++ k).
Proof.
  intros Hu Hk. unfold dollarString. simpl. rewrite drop1_app by done.
  destruct (span isTagByte (drop 1 u ++ k)) as [a [|c rest]] eqn:E; [done|].
  destruct (c =b "$") eqn:Hc; [|done].
  pose proof (span_app _ _ _ _ E) as [Happ _].
  destruct (Index rest _) as [i|] eqn:Hi; intros [= <- <-]; simpl; [|by destruct v].
  intros Hd. pose proof (Index_bound _ _ _ Hi) as Hb.
  assert (length k < length (c :: rest)) as Hl.
  { apply (f_equal length) in Hd. rewrite length_drop, length_app in Hd.
    simpl in *. rewrite length_app in *. simpl in *. lia. }
  destruct (suffix_app_cases (c :: rest) (drop 1 u) k) as (w & Hw & _).
  { rewrite Happ. by exists a. } { lia. }
  rewrite Hw in E. apply span_cont in E. rewrite E.
  destruct w as [|c' w]; [simpl in Hw; rewrite Hw in Hl; lia|]. simplify_eq/=.
  rewrite Hc. rewrite drop_app, length_app in Hd.
  assert (i + S (length (a ++ [x24])) <= length w) as Hle.
  { apply (f_equal length) in Hd. rewrite !length_app, !length_drop in Hd.
    rewrite length_app in Hb. simpl in *. rewrite length_app in *. simpl in *.
    destruct k; [done|simpl in *]. lia. }
  rewrite (Index_app_l _ k _ i); [|done|simpl; lia].
  replace (i + S (length a + length [x24]) - length w) with 0 in Hd
    by (rewrite length_app in Hle; simpl in *; lia).
  rewrite drop_0 in Hd. apply app_inv_tail in Hd. rewrite length_app. simpl in *.
  by rewrite <- Hd, drop_app_le by (rewrite length_app in Hle; simpl in *; lia).
Qed.

Lemma dollarString_None s u k s' :
  u <> [] -> dollarString (set_rest s (u ++ k)) = (s', None) ->
  (dollarString (set_rest s u)).2 = None.
Proof.
  intros Hu. unfold dollarString. simpl. rewrite drop1_app by done.
  generalize (drop 1 u) as w. intros w Hd.
  enough ((span isTagByte w).2 = [] \/
          (span isTagByte (w ++ k)).2 = (span isTagByte w).2 ++ k) as [He|He].
  - destruct (span isTagByte w) as [a b]. simpl in He. by subst.
  - destruct (span isTagByte w) as [a [|c b]]; [done|].
    destruct (span isTagByte (w ++ k)) as [a' b']. simpl in He. subst b'.
    destruct (c =b "$"); [|done]. by destruct (Index _ _) in Hd.
  - clear Hd. induction w as [|c r IH]; [by left|]. simpl. destruct (isTagByte c); [|by right].
    destruct (span isTagByte (r ++ k)), (span isTagByte r). done.
Qed.

Lemma peek_false s u k off x :
  x <> x00 -> (peek (set_rest s (u ++ k)) off =b x) = false ->
  (peek (set_rest s u) off =b x) = false.
Proof.
  intros Hx Hp. destruct (decide (off < length u)) as [Hl|Hl].
  - by rewrite <- (peek_app s u k).
  - unfold peek, byte_at. simpl. rewrite lookup_ge_None_2 by lia. simpl.
    by apply byte_eqb_ne.
Qed.

Lemma peek_true s u k off x :
  (peek (set_rest s (u ++ k)) off =b x) = true ->
  (peek (set_rest s u) off =b x) = true \/ length u <= off.
Proof.
  intros Hp. destruct (decide (off < length u)) as [Hl|Hl]; [left|right; lia].
  by rewrite <- (peek_app s u k).
Qed.

Lemma suffix_too_long {A} (v k l : list A) :
  v ++ k `suffix_of` drop 1 l -> l `suffix_of` k -> k <> [] -> False.
Proof.
  intros H1%suffix_length H2%suffix_length Hk.
  rewrite length_app, length_drop in H1. destruct k; [done|simpl in *; lia].
Qed.

Section TokenCont.
Context `{GoUnicode} (s : scanner) (k : bytes).
Hypothesis Hk : k <> [].

(** Scanning from [u ++ k] stopped at [v ++ k]: scanning from [u] gives the
    same token and stops at [v]. *)
Definition cont (f : scanner -> scanner * Token) (u : bytes) : Prop :=
  forall v s' t, f (set_rest s (u ++ k)) = (s', t) -> s_rest s' = v ++ k ->
    f (set_rest s u) = (set_rest s v, t) /\ s' = set_rest s (v ++ k).

Lemma cont_absurd f u :
  (forall s0, s_rest (f s0).1 `suffix_of` drop 1 (s_rest s0)) -> u = [] -> cont f u.
Proof.
  intros Hf -> v s' t E Hv. exfalso. specialize (Hf (set_rest s ([] ++ k))).
  rewrite E in Hf. simpl in Hf. rewrite Hv in Hf.
  by apply (suffix_too_long v k k) in Hf.
Qed.

Lemma plainString_cont' u : cont plainString u.
Proof.
  destruct (decide (u = [])).
  - apply cont_absurd; auto using plainString_suffix.
  - intros v s' t ??. eauto using plainString_cont.
Qed.

Lemma escapedString_cont' u : cont escapedString u.
Proof.
  destruct (decide (u = [])).
  - apply cont_absurd; auto using escapedString_suffix.
  - intros v s' t ??. eauto using escapedString_cont.
Qed.

Lemma delimitedIdent_cont' close u : cont (delimitedIdent close) u.
Proof.
  destruct (decide (u = [])).
  - apply cont_absurd; auto using delimitedIdent_suffix.
  - intros v s' t ??. eauto using delimitedIdent_cont.
Qed.

Lemma number_cont u : cont number u.
Proof.
  intros v s' t. unfold number. simpl.
  destruct (span isNumberByte (u ++ k)) as [a r] eqn:E. intros [= <- <-]. simpl.
  intros ->. by rewrite (span_cont _ _ _ _ _ E).
Qed.

Lemma word_cont u : cont word u.
Proof.
  intros v s' t. unfold word. simpl.
  destruct (span isWordByte (u ++ k)) as [a r] eqn:E. intros [= <- <-]. simpl.
  intros ->. by rewrite (span_cont _ _ _ _ _ E).
Qed.

Lemma next_token_cont u : u <> [] -> cont next_token u.
Proof.
  intros Hu v s' t. unfold next_token.
  assert (forall off x, x <> x00 -> (peek (set_rest s (u ++ k)) off =b x) = false ->
            (peek (set_rest s u) off =b x) = false) as Hp by (intros; by eapply peek_false).
  rewrite (peek_app s u k 0) by (destruct u; simpl in *; [done|lia]).
  set (c := peek (set_rest s u) 0). cbn [s_rules set_rest s_rest].
  assert (forall f n, (forall s0, s_rest (f s0).1 `suffix_of` drop 1 (s_rest s0)) ->
            f (set_rest s (drop n (u ++ k))) = (s', t) -> s_rest s' = v ++ k ->
            length u <= n -> False) as Habs.
  { intros f n Hf E Hv Hl. specialize (Hf (set_rest s (drop n (u ++ k)))).
    rewrite E in Hf. simpl in Hf. rewrite Hv in Hf.
    apply (suffix_too_long v k (drop n (u ++ k))) in Hf; [done| |done].
    rewrite drop_app_ge by done. apply suffix_drop. }
  assert (forall n, n <= length u -> drop n (u ++ k) = drop n u ++ k) as Hdrop
    by (intros; by apply drop_app_le).
  assert (forall A x off, x <> x00 -> A && (peek (set_rest s (u ++ k)) off =b x) = false ->
            A && (peek (set_rest s u) off =b x) = false) as Hcond.
  { intros [] x off Hx; [|done]. cbn [andb]. by apply Hp. }
  assert (1 <= length u) as Hlen by (destruct u; simpl; [done|lia]).
  (* 'plain' *)
  destruct (c =b "'"); [intros; by apply plainString_cont'|].
  (* E'escaped' *)
  match goal with |- context [if ?b then escapedString _ else _] => destruct b eqn:C end.
  { apply andb_true_iff in C as [CA CP]. intros E Hv. apply peek_true in CP as [CP|CP];
      [|by destruct (Habs _ _ escapedString_suffix E Hv)].
    rewrite CA, CP. cbn [andb]. rewrite Hdrop in E by lia. by apply escapedString_cont'. }
  apply Hcond in C; [|done]. rewrite C. clear C.
  (* N'national' *)
  match goal with |- context [if ?b then plainString (set_rest _ (drop 1 _)) else _] =>
    destruct b eqn:C end.
  { apply andb_true_iff in C as [CA CP]. intros E Hv. apply peek_true in CP as [CP|CP];
      [|by destruct (Habs _ _ plainString_suffix E Hv)].
    rewrite CA, CP. cbn [andb]. rewrite Hdrop in E by lia. by apply plainString_cont'. }
  apply Hcond in C; [|done]. rewrite C. clear C.
  (* quoted *)
  destruct (c =b x22); [intros; by apply delimitedIdent_cont'|].
  (* U&quoted *)
  match goal with |- context [if ?b then delimitedIdent _ (set_rest _ (drop 2 _)) else _] =>
    destruct b eqn:C end.
  { apply andb_true_iff in C as [CA CP2]. apply andb_true_iff in CA as [CA CP1].
    intros E Hv. apply peek_true in CP2 as [CP2|CP2];
      [|by destruct (Habs _ _ (delimitedIdent_suffix _) E Hv)].
    apply peek_true in CP1 as [CP1|CP1];
      [|by destruct (Habs _ 2 (delimitedIdent_suffix _) E Hv); lia].
    rewrite CA, CP1, CP2. cbn [andb].
    assert (2 <= length u) by (destruct u as [|? []]; simpl in *; [done| |lia];
      unfold peek, byte_at in CP1; by vm_compute in CP1).
    rewrite Hdrop in E by lia. by apply delimitedIdent_cont'. }
  assert (forall A : bool, A && (peek (set_rest s (u ++ k)) 1 =b "&") &&
            (peek (set_rest s (u ++ k)) 2 =b x22) = false ->
          A && (peek (set_rest s u) 1 =b "&") && (peek (set_rest s u) 2 =b x22) = false)
    as Hcond2.
  { intros A HA. apply andb_false_iff in HA as [HA|HA].
    - apply Hcond in HA; [|done]. by rewrite HA.
    - apply Hp in HA; [|done]. rewrite HA. apply andb_false_r. }
  apply Hcond2 in C. rewrite C. clear C.
  (* [bracketed] *)
  match goal with |- context [if ?b then delimitedIdent _ (set_rest s (u ++ k)) else _] =>
    destruct b; [intros; by apply delimitedIdent_cont'|] end.
  (* $tag$ *)
  match goal with |- context [if ?b then (let (_, _) := dollarString _ in _) else _] =>
    destruct b end.
  { destruct (dollarString (set_rest s (u ++ k))) as [s1 [tok|]] eqn:E; intros [= <- <-] Hv.
    - destruct (dollarString_cont s u k v s1 tok) as [-> ->]; done.
    - apply dollarString_None in E; [|done].
      destruct (dollarString (set_rest s u)) as [s2 o]. simpl in E. subst o.
      simpl in Hv. rewrite Hdrop in * by lia. by tail_inv. }
  destruct (isDigit c); [intros; by apply number_cont|].
  destruct (isWordByte c); [intros; by apply word_cont|].
  intros [= <- <-] Hv. simpl in Hv. rewrite Hdrop in * by lia. by tail_inv.
Qed.
End TokenCont.

(** ** Continuations of blanks, and of [next] *)

Lemma skipComment_cont_false s u k s' :
  skipComment (set_rest s (u ++ k)) = (s', false) -> u <> [] ->
  skipComment (set_rest s u) = (set_rest s u, false).
Proof.
  intros E Hu. unfold skipComment in *.
  assert (1 <= length u) by (destruct u; simpl; [done|lia]).
  rewrite (peek_app s u k 0) in E by lia.
  destruct ((peek (set_rest s u) 0 =b "-") && (peek (set_rest s (u ++ k)) 1 =b "-")) eqn:C1;
    [done|].
  assert ((peek (set_rest s u) 0 =b "-") && (peek (set_rest s u) 1 =b "-") = false) as ->.
  { apply andb_false_iff in C1 as [C1|C1]; [by rewrite C1|].
    apply peek_false in C1; [|done]. rewrite C1. apply andb_false_r. }
  destruct (negb (peek (set_rest s u) 0 =b "/") || negb (peek (set_rest s (u ++ k)) 1 =b "*"))
    eqn:C2; [|by repeat case_match].
  assert (negb (peek (set_rest s u) 0 =b "/") || negb (peek (set_rest s u) 1 =b "*") = true)
    as ->; [|done].
  apply orb_true_iff in C2 as [C2|C2]; [by rewrite C2|].
  apply negb_true_iff, peek_false in C2; [|done]. rewrite C2. apply orb_true_r.
Qed.

Lemma skipComment_cont_true s u k v s' :
  k <> [] -> skipComment (set_rest s (u ++ k)) = (s', true) -> s_rest s' = v ++ k ->
  skipComment (set_rest s u) = (set_rest s v, true) /\ s' = set_rest s (v ++ k).
Proof.
  intros Hk E Hv. pose proof (skipComment_true _ _ E) as [_ Hlen].
  simpl in Hlen. rewrite Hv, !length_app in Hlen.
  unfold skipComment in *.
  rewrite (peek_app s u k 0), (peek_app s u k 1) in E by lia.
  destruct (_ && _) in *; [|destruct (_ || _) in *; [done|]].
  - simplify_eq/=. by rewrite (skip_line_cont _ _ _ Hv), Hv.
  - simpl in *. destruct (skip_block _ 0 (u ++ k)) as [l []] eqn:Eb; simplify_eq/=.
    + by rewrite (skip_block_cont _ _ _ _ _ Eb).
    + apply skip_block_open in Eb. by destruct v.
Qed.

Lemma skip_blank_cont fuel s u k v s' fuel' :
  k <> [] -> skip_blank fuel (set_rest s (u ++ k)) = (s', true) -> s_rest s' = v ++ k ->
  length u <= fuel' ->
  skip_blank fuel' (set_rest s u) = (set_rest s v, negb (v =s [])) /\
  s' = set_rest s (v ++ k).
Proof.
  intros Hk. revert u fuel'. induction fuel as [fuel IH] using lt_wf_ind.
  intros u fuel' E Hv Hl.
  pose proof (skip_blank_suffix_space fuel (set_rest s (u ++ k))) as Hs0.
  rewrite E in Hs0. cbn [fst s_rest set_rest] in Hs0.
  destruct (suffix_app_cases (skipSpace_loop (u ++ k)) u k) as (w & Hw & Hwu).
  { apply skipSpace_loop_suffix. }
  { apply suffix_length in Hs0. rewrite Hv, length_app in Hs0. lia. }
  rewrite skip_blank_step in E |- *. unfold skipSpace in *. cbn [s_rest set_rest] in *.
  rewrite (skipSpace_loop_cont _ _ _ Hw). rewrite Hw in E.
  apply suffix_length in Hwu.
  destruct (w ++ k) as [|c0 r0] eqn:Ewk; [by destruct w, k|]. rewrite <- Ewk in *. clear Ewk.
  change (set_rest (set_rest s ?x) ?y) with (set_rest s y) in *.
  destruct (skipComment (set_rest s (w ++ k))) as [s1 []] eqn:Ec.
  - destruct fuel as [|fuel]; [done|].
    pose proof (skip_blank_suffix fuel s1) as Hs1. rewrite E in Hs1. cbn [fst] in Hs1.
    destruct (suffix_app_cases (s_rest s1) w k) as (w1 & Hw1 & _).
    { apply skipComment_true in Ec. apply Ec. }
    { apply suffix_length in Hs1. rewrite Hv, length_app in Hs1. lia. }
    pose proof (skipComment_true _ _ Ec) as [_ Hlen]. simpl in Hlen.
    rewrite Hw1, !length_app in Hlen.
    apply (skipComment_cont_true s w k w1) in Ec as [Ec ->]; [|done..].
    destruct w as [|c w]; [simpl in Hlen; lia|]. rewrite Ec.
    destruct fuel' as [|fuel']; [simpl in *; lia|].
    destruct (IH fuel ltac:(lia) w1 fuel' E Hv ltac:(simpl in *; lia)) as [-> ->]. done.
  - simplify_eq/=. tail_inv. destruct v as [|c v]; [done|].
    rewrite (skipComment_cont_false _ _ _ _ Ec) by done. done.
Qed.

Section NextCont.
Context `{GoUnicode} (s : scanner) (k : bytes).
Hypothesis Hk : k <> [].

(** A token found inside [u] is the token found without the rest. *)
Lemma next_cont u v s' t :
  next (set_rest s (u ++ k)) = (s', Some t) -> s_rest s' = v ++ k ->
  next (set_rest s u) = (set_rest s v, Some t) /\ s' = set_rest s (v ++ k).
Proof.
  unfold next. destruct (skip_blank _ (set_rest s (u ++ k))) as [s1 []] eqn:E; [|done].
  pose proof (skip_blank_true _ _ (f_equal snd E)) as Hne. rewrite E in Hne.
  pose proof (next_token_suffix s1 Hne) as Hs. cbn [fst] in Hne.
  pose proof (skip_blank_suffix (length (u ++ k)) (set_rest s (u ++ k))) as Hs1.
  cbn [s_rest set_rest] in *. rewrite E in Hs1. cbn [fst] in Hs1.
  destruct (next_token s1) as [s2 tok] eqn:Et. intros [= <- <-] Hv.
  cbn [fst] in Hs. rewrite Hv in Hs. apply suffix_length in Hs.
  rewrite length_app, length_drop in Hs.
  destruct (suffix_app_cases (s_rest s1) u k) as (w & Hw & _); [done|lia|].
  destruct (skip_blank_cont _ _ _ _ _ _ (length u) Hk E Hw) as [-> ->]; [lia|].
  rewrite Hw, length_app in Hs. destruct w as [|c w].
  { destruct k; [done|simpl in Hs; lia]. }
  rewrite seqb_cons_nil. cbn [negb].
  by destruct (next_token_cont s k Hk (c :: w) ltac:(done) v _ _ Et Hv) as [-> ->].
Qed.

(** When the scanner reaches [k] with nothing but blanks left in [u], the
    text [u] alone has no further token. *)
Lemma next_end u s' :
  (skip_blank (length (u ++ k)) (set_rest s (u ++ k))) = (s', true) -> s_rest s' = k ->
  next (set_rest s u) = (set_rest s [], None).
Proof.
  intros E Hv. unfold next. cbn [s_rest set_rest].
  destruct (skip_blank_cont _ _ _ _ [] _ (length u) Hk E Hv) as [-> _]; done.
Qed.
End NextCont.

(** ** A finished construct does not end in a space *)

Lemma space_ne h c : ascii_space h = true -> ascii_space c = false -> (h =b c) = false.
Proof. intros Hh Hc. apply byte_eqb_ne. intros ->. congruence. Qed.

Lemma suffix_nonspace c post w ws :
  c :: post `suffix_of` w ++ ws -> ascii_space c = false -> forallb ascii_space ws = true ->
  length ws <= length post.
Proof.
  intros Hs Hc Hws. destruct (decide (length ws <= length post)) as [|Hl]; [done|].
  exfalso. destruct Hs as [p Hp]. apply app_eq_inv in Hp as [(q & -> & Hq)|(q & -> & Hq)].
  - destruct q as [|c' q]; simplify_eq/=; [by rewrite Hc in Hws|].
    rewrite length_app in Hl. lia.
  - rewrite Hq, forallb_app in Hws. simpl in Hws. rewrite Hc in Hws.
    rewrite andb_false_r in Hws. done.
Qed.

Lemma skip_block_last nested depth l r :
  skip_block nested depth l = (r, true) -> x2f :: r `suffix_of` l.
Proof.
  revert depth. induction l as [|c|c c2 l IH1 IH2] using list_ind2; intros depth; [done..|].
  rewrite skip_block_cons2. repeat case_match; intros Hr; simplify_eq/=;
    try (apply IH1 in Hr; by do 2 apply suffix_cons_r).
  - bool_hyps. subst. by apply suffix_cons_r.
  - apply IH2 in Hr. by apply suffix_cons_r.
Qed.

Lemma plain_loop_last bs l r : plain_loop bs l = (r, true) -> x27 :: r `suffix_of` l.
Proof.
  induction l as [|c|c c2 l IH1 IH2] using list_ind2; [done| |].
  - rewrite plain_loop_one. intros. simplify_eq/=. bool_hyps. by subst.
  - rewrite plain_loop_cons2. repeat case_match; intros Hr; simplify_eq/=;
      try (apply IH1 in Hr; by do 2 apply suffix_cons_r); [bool_hyps; by subst|].
    apply IH2 in Hr. by apply suffix_cons_r.
Qed.

Lemma escaped_loop_last l r : escaped_loop l = (r, true) -> x27 :: r `suffix_of` l.
Proof.
  induction l as [|c|c c2 l IH1 IH2] using list_ind2; [done| |].
  - rewrite escaped_loop_one. intros. simplify_eq/=. bool_hyps. by subst.
  - rewrite escaped_loop_cons2. repeat case_match; intros Hr; simplify_eq/=;
      try (apply IH1 in Hr; by do 2 apply suffix_cons_r); [bool_hyps; by subst|].
    apply IH2 in Hr. by apply suffix_cons_r.
Qed.

Lemma ident_loop_last close l b r :
  ident_loop close l = (b, (r, true)) -> close :: r `suffix_of` l.
Proof.
  revert b. induction l as [|c|c c2 l IH1 IH2] using list_ind2; intros b; [done| |].
  - rewrite ident_loop_one. intros. simplify_eq/=. bool_hyps. by subst.
  - rewrite ident_loop_cons2. destruct (ident_loop close l) as [b1 r1].
    destruct (ident_loop close (c2 :: l)) as [b2 r2].
    repeat case_match; intros Hr; simplify_eq/=.
    + by do 2 apply suffix_cons_r; eapply IH1.
    + bool_hyps. by subst.
    + by apply suffix_cons_r; eapply IH2.
Qed.

(** [last_nonspace l r]: the bytes consumed between [l] and [r] end in a byte
    that is not a space. *)
Definition last_nonspace (l r : bytes) : Prop :=
  exists c, ascii_space c = false /\ c :: r `suffix_of` l.

Lemma last_nonspace_trans l m r : last_nonspace m r -> m `suffix_of` l -> last_nonspace l r.
Proof. intros (c & Hc & Hs) Hm. exists c. split; [done|]. by trans m. Qed.

Lemma fail_incomplete s what : what <> [] -> s_incomplete (fail s what) <> [].
Proof. intros Hw. simpl. case_match; [done|]. by bool_hyps. Qed.

Lemma B_ne s : s <> EmptyString -> B s <> [].
Proof. by destruct s. Qed.

Lemma plainString_last s s' t :
  plainString s = (s', t) -> s_incomplete s' = [] -> last_nonspace (s_rest s) (s_rest s').
Proof.
  unfold plainString. destruct (plain_loop _ _) as [l []] eqn:E; intros [= <- <-] Hi.
  - exists x27. split; [done|]. simpl.
    etrans; [eapply plain_loop_last, E|apply suffix_drop].
  - by apply fail_incomplete in Hi.
Qed.

Lemma escapedString_last s s' t :
  escapedString s = (s', t) -> s_incomplete s' = [] -> last_nonspace (s_rest s) (s_rest s').
Proof.
  unfold escapedString. destruct (escaped_loop _) as [l []] eqn:E; intros [= <- <-] Hi.
  - exists x27. split; [done|]. simpl.
    etrans; [eapply escaped_loop_last, E|apply suffix_drop].
  - by apply fail_incomplete in Hi.
Qed.

Lemma delimitedIdent_last close s s' t :
  ascii_space close = false ->
  delimitedIdent close s = (s', t) -> s_incomplete s' = [] ->
  last_nonspace (s_rest s) (s_rest s').
Proof.
  intros Hc. unfold delimitedIdent.
  destruct (ident_loop _ _) as [b [l []]] eqn:E; intros [= <- <-] Hi.
  - exists close. split; [done|]. simpl.
    etrans; [eapply ident_loop_last, E|apply suffix_drop].
  - by apply fail_incomplete in Hi.
Qed.

Lemma dollarString_last s s' t :
  dollarString s = (s', Some t) -> s_incomplete s' = [] ->
  last_nonspace (s_rest s) (s_rest s').
Proof.
  unfold dollarString. pose proof (span_suffix isTagByte (drop 1 (s_rest s))) as Hs.
  destruct (span _ _) as [a [|c rest]]; [done|]. simpl in Hs.
  destruct (c =b "$"); [|done]. destruct (Index _ _) as [i|] eqn:Hi; intros [= <- <-] Hinc.
  - apply Index_Some in Hi as (pre & post & -> & <-). simpl.
    exists x24. split; [done|].
    trans (c :: pre ++ (x24 :: a ++ [x24]) ++ post);
      [|trans (drop 1 (s_rest s)); [done|apply suffix_drop]].
    replace (drop _ _) with post.
    + exists (c :: pre ++ (x24 :: a)). simpl. by rewrite <- !app_assoc.
    + rewrite (app_comm_cons (a ++ [x24])), app_assoc, drop_app_length'; [done|].
      by rewrite (length_app pre).
  - by apply fail_incomplete in Hinc.
Qed.

Lemma span_last f c r a b :
  (forall x, f x = true -> ascii_space x = false) -> f c = true ->
  span f (c :: r) = (a, b) -> last_nonspace (c :: r) b.
Proof.
  intros Hf Hc Hs. pose proof (span_app _ _ _ _ Hs) as [Happ Ha].
  destruct a as [|x a _] using rev_ind.
  { simpl in Hs. rewrite Hc in Hs. by destruct (span f r). }
  rewrite forallb_app in Ha. simpl in Ha. bool_hyps.
  exists x. split; [by apply Hf|]. rewrite Happ, <- app_assoc. by exists a.
Qed.

Lemma isWordByte_nonspace c : isWordByte c = true -> ascii_space c = false.
Proof. by destruct c. Qed.

Lemma isNumberByte_nonspace c : isNumberByte c = true -> ascii_space c = false.
Proof. by destruct c. Qed.

Section Trim.
Context `{GoUnicode}.

Lemma next_token_last s s' t :
  next_token s = (s', t) -> s_incomplete s' = [] ->
  (exists c r, s_rest s = c :: r /\ ascii_space c = false) ->
  last_nonspace (s_rest s) (s_rest s').
Proof.
  intros E Hi (c & r & Hr & Hc). unfold next_token in E.
  assert (peek s 0 = c) as Hp by (unfold peek, byte_at; by rewrite Hr).
  rewrite Hp in E.
  repeat match type of E with
  | (if ?b then _ else _) = _ => destruct b eqn:?
  end.
  - by eapply plainString_last.
  - eapply last_nonspace_trans; [by eapply escapedString_last|apply suffix_drop].
  - eapply last_nonspace_trans; [by eapply plainString_last|apply suffix_drop].
  - by eapply (delimitedIdent_last x22).
  - eapply last_nonspace_trans; [by eapply (delimitedIdent_last x22)|apply suffix_drop].
  - by eapply (delimitedIdent_last x5d).
  - destruct (dollarString s) as [s1 [tok|]] eqn:Ed; simplify_eq/=.
    + by eapply dollarString_last.
    + exists (peek s 0). split; [done|]. by rewrite Hr.
  - unfold number in E. rewrite Hr in *. destruct (span _ _) as [a b] eqn:Es.
    simplify_eq/=. eapply span_last; [apply isNumberByte_nonspace| |done].
    unfold isNumberByte. by rewrite Heqb6.
  - unfold word in E. rewrite Hr in *. destruct (span _ _) as [a b] eqn:Es.
    simplify_eq/=. by eapply span_last; [apply isWordByte_nonspace| |].
  - simplify_eq/=. exists (peek s 0). split; [done|]. by rewrite Hr.
Qed.

Lemma skipSpace_loop_head l c r : skipSpace_loop l = c :: r -> ascii_space c = false.
Proof.
  induction l as [|d l IH]; simpl; [done|]. fold (ascii_space d).
  destruct (ascii_space d) eqn:Hd; [done|]. by intros [= <- <-].
Qed.

Lemma skip_blank_head fuel s s1 :
  skip_blank fuel s = (s1, true) ->
  exists c r, s_rest s1 = c :: r /\ ascii_space c = false.
Proof.
  revert s. induction fuel as [|fuel IH]; intros s; rewrite skip_blank_step;
    destruct (s_rest (skipSpace s)) as [|c r] eqn:E; try done;
    destruct (skipComment (skipSpace s)) as [s' []]; try done; [|by apply IH|];
    intros [= <-]; exists c, r; (split; [done|exact (skipSpace_loop_head (s_rest s) c r E)]).
Qed.

(** A token of [u ++ ws] that the scanner finished ends inside [u]. *)
Lemma next_ws s u ws s' t :
  forallb ascii_space ws = true ->
  next (set_rest s (u ++ ws)) = (s', Some t) -> s_incomplete s' = [] ->
  exists v, s_rest s' = v ++ ws.
Proof.
  intros Hws E Hi. pose proof (next_consumes _ _ _ E) as [Hsuf _]. simpl in Hsuf.
  unfold next in E. destruct (skip_blank _ _) as [s1 []] eqn:Eb; [|done].
  pose proof (skip_blank_suffix (length (u ++ ws)) (set_rest s (u ++ ws))) as Hs1.
  cbn [s_rest set_rest] in *. rewrite Eb in Hs1. cbn [fst] in Hs1.
  destruct (next_token s1) as [s2 tok] eqn:Et. simplify_eq.
  apply next_token_last in Et as (c & Hc & Hl); [|done|by eapply skip_blank_head].
  assert (length ws <= length (s_rest s')) as Hlen.
  { eapply (suffix_nonspace c _ u); [|done..]. by trans (s_rest s1). }
  by destruct (suffix_app_cases _ _ _ Hsuf Hlen) as (v & -> & _); exists v.
Qed.

Lemma skipSpace_loop_spaces ws l :
  forallb ascii_space ws = true -> skipSpace_loop (ws ++ l) = skipSpace_loop l.
Proof.
  induction ws as [|c ws IH]; simpl; [done|]. intros. bool_hyps.
  fold (ascii_space c). rewrite H0. by apply IH.
Qed.

Lemma skip_blank_spaces fuel s ws :
  forallb ascii_space ws = true ->
  skip_blank fuel (set_rest s ws) = (set_rest s [], false).
Proof.
  intros Hws. rewrite skip_blank_step. unfold skipSpace. cbn [s_rest set_rest].
  rewrite <- (app_nil_r ws), skipSpace_loop_spaces by done. done.
Qed.

Lemma skipComment_incomplete s :
  s_incomplete s <> [] -> s_incomplete (skipComment s).1 <> [].
Proof. intros Hi. unfold skipComment. repeat case_match; simpl; try done; by case_match. Qed.

Lemma skip_blank_incomplete fuel s :
  s_incomplete s <> [] -> s_incomplete (skip_blank fuel s).1 <> [].
Proof.
  revert s. induction fuel as [|fuel IH]; intros s Hi; rewrite skip_blank_step;
    destruct (s_rest (skipSpace s)); try done;
    pose proof (skipComment_incomplete (skipSpace s) Hi) as Hc;
    destruct (skipComment (skipSpace s)) as [s' []]; try done. by apply IH.
Qed.

Lemma next_incomplete s s' o :
  next s = (s', o) -> s_incomplete s' = [] -> s_incomplete s = [].
Proof.
  intros E Hi. destruct (decide (s_incomplete s = [])) as [|Hn]; [done|]. exfalso.
  unfold next in E. pose proof (skip_blank_incomplete (length (s_rest s)) s Hn) as H1.
  destruct (skip_blank _ _) as [s1 []]; [|by simplify_eq].
  destruct (next_token s1) as [s2 tok] eqn:Et. simplify_eq. cbn [fst] in H1.
  revert Et. unfold next_token, plainString, escapedString, delimitedIdent,
    dollarString, number, word. repeat case_match; intros; simplify_eq/=; try done.
  all: destruct (s_incomplete s1); [done|by rewrite seqb_cons_nil in Hi].
Qed.

Lemma skip_line_app w k :
  (skip_line w = [] /\ skip_line (w ++ k) = skip_line k) \/
  skip_line (w ++ k) = skip_line w ++ k.
Proof.
  induction w as [|c w IH]; [by left|]. simpl. case_match; [by right|done].
Qed.

Lemma skipSpace_loop_app u k :
  forallb ascii_space u = true \/
  (skipSpace_loop u <> [] /\ skipSpace_loop (u ++ k) = skipSpace_loop u ++ k).
Proof.
  induction u as [|c u IH]; [by left|]. simpl. fold (ascii_space c).
  destruct (ascii_space c); [done|by right].
Qed.

Lemma spaces_suffix l ws :
  l `suffix_of` ws -> forallb ascii_space ws = true -> forallb ascii_space l = true.
Proof. intros [p ->]. rewrite forallb_app. intros. by bool_hyps. Qed.

Lemma skip_blank_fuel_eq f1 f2 s :
  length (s_rest s) <= f1 -> length (s_rest s) <= f2 -> skip_blank f1 s = skip_blank f2 s.
Proof.
  revert f2 s. induction f1 as [|f1 IH]; intros f2 s H1 H2; rewrite !(skip_blank_step _ s);
    pose proof (suffix_length _ _ (skipSpace_loop_suffix (s_rest s))) as Hs;
    (destruct (s_rest (skipSpace s)) as [|c r] eqn:E; [done|]);
    destruct (skipComment (skipSpace s)) as [s' []] eqn:Ec; try done;
    apply skipComment_true in Ec as [_ Hlen]; rewrite E in Hlen;
    simpl in E; rewrite E in Hs; simpl in *; [lia|].
  destruct f2 as [|f2]; [lia|]. apply IH; lia.
Qed.

Lemma peek_ws s u ws off x :
  forallb ascii_space ws = true -> ascii_space x = false -> x <> x00 ->
  (peek (set_rest s (u ++ ws)) off =b x) = true ->
  (peek (set_rest s u) off =b x) = true.
Proof.
  intros Hws Hx Hx0 Hp. apply peek_true in Hp as Hp'. destruct Hp' as [|Hl]; [done|].
  exfalso. unfold peek, byte_at in Hp. simpl in Hp. rewrite lookup_app_r in Hp by done.
  apply byte_eqb_eq in Hp. destruct (ws !! _) as [h|] eqn:E; simpl in Hp; [|congruence].
  subst h. apply list_elem_of_lookup_2 in E. apply list_elem_of_In in E.
  rewrite forallb_forall in Hws. apply Hws in E. congruence.
Qed.

(** Unless it failed, the scanner changed nothing but its position. *)
Lemma skipComment_config s s' b :
  skipComment s = (s', b) -> s_incomplete s' = [] -> s' = set_rest s (s_rest s').
Proof.
  unfold skipComment. intros E Hi. destruct s as [l ru inc].
  repeat case_match; simplify_eq/=; try done.
  destruct inc; [done|by rewrite seqb_cons_nil in Hi].
Qed.

Lemma skip_blank_config fuel s s' b :
  skip_blank fuel s = (s', b) -> s_incomplete s' = [] -> s' = set_rest s (s_rest s').
Proof.
  revert s. induction fuel as [|fuel IH]; intros s; rewrite skip_blank_step;
    (destruct (s_rest (skipSpace s)); [by intros [= <- <-]|]);
    destruct (skipComment (skipSpace s)) as [s1 []] eqn:Ec; intros E Hi;
    try (by simplify_eq/=).
  - simplify_eq. by apply skipComment_config in Ec.
  - assert (s_incomplete s1 = []) as Hi1.
    { destruct (decide (s_incomplete s1 = [])) as [|Hn]; [done|].
      apply (skip_blank_incomplete fuel) in Hn. by rewrite E in Hn. }
    apply skipComment_config in Ec; [|done]. apply IH in E; [|done].
    rewrite E, Ec. done.
Qed.

(** A comment that runs into trailing spaces is a line comment, and it takes
    the rest of [u] with it. *)
Lemma skipComment_into_ws s u ws s1 :
  forallb ascii_space ws = true ->
  skipComment (set_rest s (u ++ ws)) = (s1, true) -> length (s_rest s1) < length ws ->
  s_incomplete s1 = [] ->
  skipComment (set_rest s u) = (set_rest s [], true) /\
  exists l, s1 = set_rest s l /\ l `suffix_of` ws.
Proof.
  intros Hws E Hlt Hi. unfold skipComment in *. case_go_in E.
  - apply andb_true_iff in Heqb as [H0 H1]. apply peek_ws in H0; [|done..].
    apply peek_ws in H1; [|done..]. rewrite H0, H1. simplify_eq/=.
    destruct (skip_line_app u ws) as [[-> ->]|Happ].
    + split; [done|]. exists (skip_line ws). by split; [|apply skip_line_suffix].
    + rewrite Happ, length_app in Hlt. lia.
  - case_go_in E; [done|]. simpl in E.
    destruct (skip_block _ 0 (u ++ ws)) as [l []] eqn:Eb; simplify_eq/=.
    + apply skip_block_last in Eb.
      apply (suffix_nonspace _ _ _ _ Eb) in Hws; [lia|done].
    + by apply fail_incomplete in Hi.
Qed.

(** Trailing spaces do not hide a token. *)
Lemma skip_blank_ws fuel s u ws s' :
  forallb ascii_space ws = true -> length (u ++ ws) <= fuel ->
  skip_blank fuel (set_rest s (u ++ ws)) = (s', false) -> s_incomplete s' = [] ->
  skip_blank (length u) (set_rest s u) = (set_rest s [], false).
Proof.
  intros Hws. destruct (decide (ws = [])) as [->|Hk].
  { rewrite !app_nil_r. intros Hl E Hi. pose proof (skip_blank_fuel fuel (set_rest s u) Hl) as Hf.
    rewrite E in Hf. apply skip_blank_config in E as Hc; [|done].
    rewrite (skip_blank_fuel_eq _ fuel) by (simpl; lia).
    specialize (Hf eq_refl). cbn [fst] in Hf. by rewrite E, Hc, Hf. }
  revert u. induction fuel as [fuel IH] using lt_wf_ind. intros u Hl E Hi.
  destruct (skipSpace_loop_app u ws) as [Hu|[Hne Happ]]; [by apply skip_blank_spaces|].
  rewrite skip_blank_step in E |- *. unfold skipSpace in *. cbn [s_rest set_rest] in *.
  rewrite Happ in E. change (set_rest (set_rest s ?x) ?y) with (set_rest s y) in *.
  pose proof (suffix_length _ _ (skipSpace_loop_suffix u)) as Hlw.
  destruct (skipSpace_loop u) as [|c w] eqn:Ew; [done|]. rewrite <- app_comm_cons in E.
  rewrite app_comm_cons in E. rewrite length_app in Hl.
  destruct (skipComment (set_rest s ((c :: w) ++ ws))) as [s1 []] eqn:Ec; [|done].
  pose proof (skipComment_true _ _ Ec) as [_ Hlen]. simpl in Hlen.
  rewrite length_app in Hlen. simpl in Hlw.
  destruct fuel as [|fuel]; [lia|].
  (* the comment ended inside [u], or it is a line comment that ran into [ws] *)
  assert (s_incomplete s1 = []) as Hi1.
  { destruct (decide (s_incomplete s1 = [])) as [|Hn]; [done|].
    apply (skip_blank_incomplete fuel) in Hn. by rewrite E in Hn. }
  destruct (length u) as [|n] eqn:En; [lia|].
  destruct (decide (length ws <= length (s_rest s1))) as [Hle|Hgt].
  - destruct (suffix_app_cases (s_rest s1) (c :: w) ws) as (v & Hv & _); [|done|].
    { apply skipComment_true in Ec as [Hs _]. done. }
    rewrite Hv, length_app in Hlen.
    apply (skipComment_cont_true s (c :: w) ws v) in Ec as [Ec ->]; [|done..].
    rewrite Ec. apply IH in E; [|rewrite ?length_app; simpl in *; lia..|done].
    rewrite <- E. apply skip_blank_fuel_eq; simpl; lia.
  - apply skipComment_into_ws in Ec as [Ec _]; [|done..|lia|done].
    rewrite Ec. by apply skip_blank_spaces.
Qed.
End Trim.

(** ** Runs of the scanner *)

Section Runs.
Context `{GoUnicode}.

(** [runs s ts s']: the scanner goes from [s] to [s'] emitting [ts]. *)
Inductive runs : scanner -> list Token -> scanner -> Prop :=
| runs_nil s : runs s [] s
| runs_cons s s1 t ts s2 :
    next s = (s1, Some t) -> runs s1 ts s2 -> runs s (t :: ts) s2.

Lemma runs_snoc s ts s1 t s2 :
  runs s ts s1 -> next s1 = (s2, Some t) -> runs s (ts ++ [t]) s2.
Proof. induction 1; intros; econstructor; eauto using runs. Qed.

Lemma runs_suffix s ts s' : runs s ts s' -> s_rest s' `suffix_of` s_rest s.
Proof.
  induction 1 as [|s s1 t ts s2 E _ IH]; [done|].
  apply next_consumes in E as [E _]. by trans (s_rest s1).
Qed.

Lemma runs_cont s k u ts s' v :
  k <> [] -> runs (set_rest s (u ++ k)) ts s' -> s_rest s' = v ++ k ->
  runs (set_rest s u) ts (set_rest s v) /\ s' = set_rest s (v ++ k).
Proof.
  intros Hk Hr. remember (set_rest s (u ++ k)) as s0 eqn:Es0. revert u Es0.
  induction Hr as [s0|s0 s1 t ts s2 E Hr IH]; intros u -> Hv.
  - simpl in Hv. tail_inv. split; [constructor|done].
  - pose proof (runs_suffix _ _ _ Hr) as Hs. rewrite Hv in Hs.
    destruct (suffix_app_cases (s_rest s1) u k) as (w & Hw & _).
    { by apply next_consumes in E as [E _]. }
    { apply suffix_length in Hs. rewrite length_app in Hs. lia. }
    destruct (next_cont s k Hk u w _ _ E Hw) as [E' ->].
    destruct (IH w eq_refl Hv) as [Hr' ->]. split; [|done]. by econstructor.
Qed.

Definition tokens (s : scanner) : list Token * scanner :=
  scan_loop (S (length (s_rest s))) s.

Lemma tokens_step s :
  tokens s = match next s with
             | (s', None) => ([], s')
             | (s', Some t) => let '(ts, sf) := tokens s' in (t :: ts, sf)
             end.
Proof.
  unfold tokens at 1. cbn [scan_loop]. destruct (next s) as [s' [t|]] eqn:E; [|done].
  apply next_consumes in E as [_ E]. unfold tokens.
  by rewrite (scan_loop_fuel _ (S (length (s_rest s')))) by lia.
Qed.

Lemma tokens_runs s ts s' :
  runs s ts s' -> tokens s = (ts ++ (tokens s').1, (tokens s').2).
Proof.
  induction 1 as [s|s s1 t ts s2 E _ IH]; [by destruct (tokens s)|].
  by rewrite tokens_step, E, IH.
Qed.

Lemma tokens_incomplete s : s_incomplete (tokens s).2 = [] -> s_incomplete s = [].
Proof.
  remember (length (s_rest s)) as n eqn:Hn. revert s Hn.
  induction n as [n IH] using lt_wf_ind. intros s ->. rewrite tokens_step.
  destruct (next s) as [s' [t|]] eqn:E; [|by apply (next_incomplete _ _ _ E)].
  pose proof (next_consumes _ _ _ E) as [_ Hl].
  destruct (tokens s') as [ts sf] eqn:Et. cbn [snd]. intros Hi.
  apply (next_incomplete _ _ _ E). apply (IH _ Hl _ eq_refl). by rewrite Et.
Qed.

Lemma next_token_config s s' t :
  next_token s = (s', t) -> s_incomplete s' = [] -> s' = set_rest s (s_rest s').
Proof.
  unfold next_token, plainString, escapedString, delimitedIdent, dollarString,
    number, word. intros E Hi. destruct s as [l ru inc].
  repeat case_match; simplify_eq/=; try done;
    (destruct inc; [done|by rewrite seqb_cons_nil in Hi]).
Qed.

Lemma next_config s s' o :
  next s = (s', o) -> s_incomplete s' = [] -> s' = set_rest s (s_rest s').
Proof.
  unfold next. destruct (skip_blank _ s) as [s1 []] eqn:E.
  - destruct (next_token s1) as [s2 t] eqn:Et. intros [= <- <-] Hi.
    assert (next s = (s2, Some t)) as En by (unfold next; by rewrite E, Et).
    apply skip_blank_config in E.
    + apply next_token_config in Et; [|done]. rewrite Et, E. done.
    + destruct (decide (s_incomplete s1 = [])) as [|Hn]; [done|]. exfalso.
      apply next_token_config in Et; [|done]. rewrite Et in Hi. by simpl in Hi.
  - intros [= <- <-] Hi. by apply skip_blank_config in E.
Qed.
End Runs.

(** ** [Split] and [scan] agree *)

Section Agreement.
Context `{GoUnicode}.

Lemma tokens_spaces s ws l :
  forallb ascii_space ws = true ->
  tokens (set_rest s (ws ++ l)) = tokens (set_rest s l).
Proof.
  intros Hws. rewrite tokens_step, (tokens_step (set_rest s l)).
  enough (next (set_rest s (ws ++ l)) = next (set_rest s l)) as -> by done.
  unfold next. cbn [s_rest set_rest].
  rewrite (skip_blank_fuel_eq (length l) (length (ws ++ l)) (set_rest s l))
    by (rewrite ?length_app; simpl; lia).
  rewrite (skip_blank_step _ (set_rest s (ws ++ l))), (skip_blank_step _ (set_rest s l)).
  unfold skipSpace. cbn [s_rest set_rest]. by rewrite skipSpace_loop_spaces.
Qed.

Lemma tokens_final s : s_incomplete (tokens s).2 = [] -> (tokens s).2 = set_rest s [].
Proof.
  remember (length (s_rest s)) as n eqn:Hn. revert s Hn.
  induction n as [n IH] using lt_wf_ind. intros s ->. rewrite tokens_step.
  destruct (next s) as [s' [t|]] eqn:E; pose proof (next_consumes _ _ _ E) as [_ Hl].
  - specialize (IH _ Hl _ eq_refl). pose proof (tokens_incomplete s') as Hi'.
    destruct (tokens s') as [ts sf]. cbn [snd] in *. intros Hi.
    rewrite (IH Hi). by rewrite (next_config _ _ _ E (Hi' Hi)).
  - cbn [snd]. intros Hi. rewrite (next_config _ _ _ E Hi). simpl. by rewrite Hl.
Qed.

Lemma tokens_trailing s u ws ts sf :
  forallb ascii_space ws = true ->
  tokens (set_rest s (u ++ ws)) = (ts, sf) -> s_incomplete sf = [] ->
  tokens (set_rest s u) = (ts, set_rest s []).
Proof.
  intros Hws. destruct (decide (ws = [])) as [->|Hk].
  { rewrite app_nil_r. intros E Hi. pose proof (tokens_final (set_rest s u)) as Hf.
    rewrite E in *. cbn [snd] in Hf. by rewrite (Hf Hi). }
  remember (length u) as n eqn:Hn. revert u ts Hn.
  induction n as [n IH] using lt_wf_ind. intros u ts -> E Hi.
  rewrite tokens_step in E |- *.
  destruct (next (set_rest s (u ++ ws))) as [s' [t|]] eqn:En.
  - destruct (tokens s') as [ts' sf'] eqn:Et. simplify_eq.
    assert (s_incomplete s' = []) as Hi' by (apply tokens_incomplete; by rewrite Et).
    destruct (next_ws _ _ _ _ _ Hws En Hi') as [v Hv].
    destruct (next_cont s ws Hk u v _ _ En Hv) as [En' ->]. rewrite En'.
    pose proof (next_consumes _ _ _ En') as [_ Hl]. simpl in Hl.
    by rewrite (IH _ Hl v ts' eq_refl Et Hi).
  - simplify_eq. unfold next in *. cbn [s_rest set_rest] in *.
    destruct (skip_blank _ (set_rest s (u ++ ws))) as [s1 []] eqn:Eb;
      [by destruct (next_token s1)|]. simplify_eq.
    by rewrite (skip_blank_ws _ _ _ _ _ Hws (le_n _) Eb Hi).
Qed.

(** The tokens of a text are those of the text with its outer spaces trimmed. *)
Lemma tokens_trim s seg ts sf :
  all_ascii seg = true ->
  tokens (set_rest s seg) = (ts, sf) -> s_incomplete sf = [] ->
  tokens (set_rest s (TrimSpace seg)) = (ts, set_rest s []).
Proof.
  intros Ha E Hi. destruct (TrimSpace_ascii seg Ha) as (ws1 & ws2 & Hseg & H1 & H2).
  rewrite Hseg, tokens_spaces in E by done. by eapply tokens_trailing.
Qed.

Lemma next_semi s s' t :
  next s = (s', Some t) -> is_semi t = true ->
  exists s1, skip_blank (length (s_rest s)) s = (s1, true) /\ s_rest s1 = x3b :: s_rest s'.
Proof.
  unfold next. destruct (skip_blank _ s) as [s1 []] eqn:E; [|done].
  pose proof (skip_blank_head _ _ _ E) as (c & r & Hr & _).
  destruct (next_token s1) as [s2 tok] eqn:Et. intros [= <- <-] Hsemi. exists s1.
  split; [done|]. revert Et. unfold next_token, plainString, escapedString,
    delimitedIdent, dollarString, number, word.
  assert (peek s1 0 = c) as Hp by (unfold peek, byte_at; by rewrite Hr). rewrite Hp.
  unfold is_semi, kind_is in Hsemi. apply andb_true_iff in Hsemi as [Hk Ht].
  apply bool_decide_eq_true in Hk. apply seqb_eq in Ht. change (B ";") with [x3b] in Ht.
  repeat case_match; intros; simplify_eq/=; try done.
  rewrite Hr. by f_equal.
Qed.

(** The tokens of one piece, scanned on its own. *)
Definition piece_tokens (d : Dialect) (p : bytes) : list Token := (scan p d).1.

(** A piece scanned on its own is fully understood and holds no separator. *)
Definition piece_ok (d : Dialect) (p : bytes) : Prop :=
  (scan p d).2 = [] /\ forallb (fun t => negb (is_semi t)) (piece_tokens d p) = true.

Lemma scan_tokens src d :
  scan src d = ((tokens (new_scanner src d)).1, s_incomplete (tokens (new_scanner src d)).2).
Proof. unfold scan, tokens. simpl s_rest. by destruct (scan_loop _ _). Qed.

Lemma new_scanner_rest src l d : set_rest (new_scanner src d) l = new_scanner l d.
Proof. done. Qed.

Lemma keep_nonblank_tokens d seg ts sf :
  all_ascii seg = true -> tokens (new_scanner seg d) = (ts, sf) -> s_incomplete sf = [] ->
  forallb (fun t => negb (is_semi t)) ts = true ->
  concat (map (piece_tokens d) (keep_nonblank seg)) = ts /\
  Forall (piece_ok d) (keep_nonblank seg).
Proof.
  intros Ha E Hi Hts. pose proof (tokens_trim (new_scanner [] d) seg ts sf Ha E Hi) as Ht.
  rewrite new_scanner_rest in Ht. unfold keep_nonblank, piece_ok, piece_tokens.
  case_match eqn:Et.
  - apply seqb_eq in Et. rewrite Et in Ht. destruct ts; [done|]. by vm_compute in Ht.
  - cbn [map concat]. rewrite Forall_singleton, !scan_tokens, Ht.
    cbn [fst snd]. by rewrite app_nil_r.
Qed.

Definition not_semi (t : Token) : bool := negb (is_semi t).

(** At a separator, the text of the piece before it scans to the tokens
    collected so far, and the scanner restarts behind it. *)
Lemma piece_before_semi d start ts s s' t :
  runs (new_scanner start d) ts s -> next s = (s', Some t) -> is_semi t = true ->
  s_incomplete s' = [] ->
  exists seg, start = seg ++ x3b :: s_rest s' /\
    tokens (new_scanner seg d) = (ts, new_scanner [] d) /\
    s' = new_scanner (s_rest s') d.
Proof.
  intros Hr En Hsemi Hi'. destruct (next_semi _ _ _ En Hsemi) as (s1 & Eb & Hs1).
  pose proof (runs_suffix _ _ _ Hr) as [p Hp]. simpl in Hp.
  pose proof (skip_blank_suffix (length (s_rest s)) s) as Hw. rewrite Eb in Hw.
  cbn [fst] in Hw. rewrite Hs1 in Hw. destruct Hw as [w Hw].
  rewrite Hw, app_assoc in Hp. exists (p ++ w). split; [done|]. rewrite Hp in Hr.
  destruct (runs_cont (new_scanner [] d) (x3b :: s_rest s') (p ++ w) ts s w)
    as [Hr' Hs]; [done..|]. rewrite Hs in Eb. cbn [s_rest set_rest] in Eb.
  pose proof (next_end (new_scanner [] d) (x3b :: s_rest s') ltac:(done) w s1 Eb Hs1) as He.
  pose proof (tokens_runs _ _ _ Hr') as Hpt.
  rewrite (tokens_step (set_rest (new_scanner [] d) w)), He in Hpt.
  cbn [fst snd] in Hpt. rewrite app_nil_r, !new_scanner_rest in Hpt.
  split; [done|]. by rewrite (next_config _ _ _ En Hi'), Hs.
Qed.

(** The loop of [Split] from a state [s] reached from the start of the current
    piece with the separator-free tokens [ts]. *)
Lemma split_loop_agrees d fuel start ts s :
  length (s_rest s) < fuel -> all_ascii start = true ->
  runs (new_scanner start d) ts s -> forallb not_semi ts = true ->
  s_incomplete (tokens s).2 = [] ->
  concat (map (piece_tokens d) (split_loop fuel s start)) =
    ts ++ List.filter not_semi (tokens s).1 /\
  Forall (piece_ok d) (split_loop fuel s start).
Proof.
  revert start ts s. induction fuel as [|fuel IH]; intros start ts s Hl Ha Hr Hts Hi; [lia|].
  pose proof (tokens_runs _ _ _ Hr) as Htok. rewrite (tokens_step s) in Hi, Htok |- *.
  cbn [split_loop]. destruct (next s) as [s' [t|]] eqn:En; cycle 1.
  { cbn [fst snd] in *. rewrite app_nil_r in Htok |- *. by eapply keep_nonblank_tokens. }
  pose proof (next_consumes _ _ _ En) as [Hs' Hl'].
  destruct (tokens s') as [ts' sf'] eqn:Et. cbn [fst snd] in *.
  assert (s_incomplete s' = []) as Hi' by (apply tokens_incomplete; by rewrite Et).
  destruct (is_semi t) eqn:Hsemi; cycle 1.
  - destruct (IH start (ts ++ [t]) s') as [IH1 IH2]; [lia|done|by eapply runs_snoc| | |].
    { rewrite forallb_app, Hts. simpl. unfold not_semi. by rewrite Hsemi. }
    { by rewrite Et. }
    rewrite IH1, Et. cbn [fst List.filter]. unfold not_semi at 2. rewrite Hsemi.
    split; [|done]. by rewrite <- app_assoc.
  - destruct (piece_before_semi _ _ _ _ _ _ Hr En Hsemi Hi') as (seg & Hseg & Hpt & Es').
    assert (take (length start - length (s_rest s') - 1) start = seg) as ->.
    { rewrite Hseg, take_app_length'; [done|]. rewrite !length_app. simpl. lia. }
    rewrite Hseg, all_ascii_app in Ha. simpl in Ha. bool_hyps.
    destruct (keep_nonblank_tokens d seg ts _ ltac:(done) Hpt eq_refl Hts) as [K1 K2].
    destruct (IH (s_rest s') [] s') as [IH1 IH2]; [lia|done| |done|by rewrite Et|].
    { rewrite <- Es'. constructor. }
    rewrite map_app, concat_app, K1, IH1, Et. cbn [fst List.filter app].
    unfold not_semi at 2. rewrite Hsemi. split; [done|]. by apply Forall_app.
Qed.
End Agreement.

End Splitting.

(** ** What the scanner promises its callers

    The scanner is total and linear, quoted text of any content is exactly one
    token, and [Split] cuts a batch where the scanner sees separators. *)
(** ** Quoting *)

(** The text of a quoted construct: every closing delimiter doubled. *)
Fixpoint double (q : byte) (l : bytes) : bytes :=
  match l with
  | [] => []
  | c :: r => if c =b q then q :: q :: double q r else c :: double q r
  end.

(** [k] does not continue a literal that ends just before it. *)
Definition not_continued (q : byte) (k : bytes) : bool :=
  match k with [] => true | c :: _ => negb (c =b q) end.

Lemma plain_loop_close k : not_continued "'" k = true -> plain_loop false (x27 :: k) = (k, true).
Proof. destruct k as [|c k]; [done|]. simpl. by intros ->%negb_true_iff. Qed.

Lemma plain_loop_other c l : (c =b "'") = false -> plain_loop false (c :: l) = plain_loop false l.
Proof. intros Hc. destruct l as [|c2 l]; simpl; by rewrite Hc. Qed.

Lemma plain_loop_double b k :
  not_continued "'" k = true -> plain_loop false (double x27 b ++ x27 :: k) = (k, true).
Proof.
  intros Hk. induction b as [|c b IH]; [by apply plain_loop_close|].
  cbn [double]. destruct (c =b x27) eqn:Ec; cbn [app].
  - rewrite plain_loop_cons2. cbn [andb]. by rewrite byte_eqb_refl.
  - by rewrite plain_loop_other.
Qed.

Lemma ident_loop_close q k : not_continued q k = true -> ident_loop q (q :: k) = ([], (k, true)).
Proof.
  destruct k as [|c k]; simpl; rewrite byte_eqb_refl; [done|]. by intros ->%negb_true_iff.
Qed.

Lemma ident_loop_double q b k :
  not_continued q k = true -> ident_loop q (double q b ++ q :: k) = (b, (k, true)).
Proof.
  intros Hk. induction b as [|c b IH]; [by apply ident_loop_close|].
  cbn [double]. destruct (c =b q) eqn:Ec; cbn [app].
  - apply byte_eqb_eq in Ec as ->. rewrite ident_loop_cons2, !byte_eqb_refl. by rewrite IH.
  - cbn [ident_loop]. by rewrite Ec, IH.
Qed.

Section Props.
Context `{GoUnicode}.

(** A byte that starts a token and no comment is read by the [switch]. *)
Lemma next_at s c r :
  s_rest s = c :: r -> ascii_space c = false -> (c =b "-") = false -> (c =b "/") = false ->
  next s = let '(s', t) := next_token s in (s', Some t).
Proof.
  intros Hr Hsp Hm Hs. unfold next. rewrite skip_blank_step. unfold skipSpace.
  rewrite Hr. unfold ascii_space in Hsp. cbn [skipSpace_loop]. rewrite Hsp.
  replace (set_rest s (c :: r)) with s by (rewrite <- Hr; by destruct s).
  rewrite Hr. unfold skipComment, peek, byte_at. rewrite Hr. simpl. by rewrite Hm, Hs.
Qed.

Lemma scan_quoted src k d t :
  next (new_scanner src d) = (new_scanner k d, Some t) ->
  scan src d = (t :: (scan k d).1, (scan k d).2).
Proof.
  intros E. rewrite !scan_tokens. rewrite (tokens_step (new_scanner src d)), E.
  by destruct (tokens (new_scanner k d)).
Qed.

Lemma next_plain_literal b k d :
  not_continued "'" k = true ->
  next (new_scanner (x27 :: double x27 b ++ x27 :: k) d) = (new_scanner k d, Some literal).
Proof.
  intros Hk. erewrite next_at by done. unfold next_token, plainString, peek, byte_at.
  cbn [s_rest s_rules new_scanner drop lookup list_lookup default]. 
  replace (backslashInPlainString (rules d)) with false by (by destruct d).
  rewrite !drop_0, plain_loop_double by done. done.
Qed.

Lemma next_quoted_ident b k d :
  not_continued x22 k = true ->
  next (new_scanner (x22 :: double x22 b ++ x22 :: k) d) =
    (new_scanner k d, Some {| tKind := Quoted; tText := b |}).
Proof.
  intros Hk. erewrite next_at by done. unfold next_token, delimitedIdent, peek, byte_at.
  cbn [s_rest s_rules new_scanner drop]. rewrite drop_0, ident_loop_double by done.
  simpl. by rewrite !andb_false_r.
Qed.

Lemma scan_loop_end fuel s :
  length (s_rest s) < fuel ->
  s_rest (scan_loop fuel s).2 = [] /\
  length (scan_loop fuel s).1 + length (s_rest (scan_loop fuel s).2) <= length (s_rest s).
Proof.
  revert s. induction fuel as [|fuel IH]; intros s Hl; [lia|]. cbn [scan_loop].
  destruct (next s) as [s' [t|]] eqn:E; apply next_consumes in E as [Hs E].
  - destruct (IH s') as [H1 H2]; [lia|]. destruct (scan_loop fuel s'). simpl in *.
    split; [done|]. lia.
  - simpl. rewrite E. split; [done|]. simpl. lia.
Qed.

(** C39 The scanner is total and linear: on every text and in every dialect
    its loop ends with no input left, having produced at most one token per
    byte. *)
Theorem scan_total sql d :
  s_rest (scan_loop (S (length sql)) (new_scanner sql d)).2 = [] /\
  length (scan sql d).1 <= length sql.
Proof.
  destruct (scan_loop_end (S (length sql)) (new_scanner sql d)) as [H1 H2]; [simpl; lia|].
  split; [done|]. unfold scan. destruct (scan_loop _ _). simpl in *. lia.
Qed.

(** Quoted text cannot leak into the token stream: whatever the content
    [b], a string literal holding it scans to one empty literal token and a
    delimited identifier holding it to one name token whose text is [b],
    and the scan goes on behind the closing quote. *)
Theorem quoted_text_is_one_token b k d :
  (not_continued x27 k = true ->
   scan (x27 :: double x27 b ++ x27 :: k) d =
     (literal :: (scan k d).1, (scan k d).2)) /\
  (not_continued x22 k = true ->
   scan (x22 :: double x22 b ++ x22 :: k) d =
     ({| tKind := Quoted; tText := b |} :: (scan k d).1, (scan k d).2)).
Proof.
  split; intros Hk; apply scan_quoted; [by apply next_plain_literal|by apply next_quoted_ident].
Qed.

(** On ASCII text that the scanner understands, [Split] cuts exactly at
    the separators of the token stream: scanning the pieces one by one gives
    the tokens of the whole text without its semicolons, and every piece is
    understood and free of separators. *)
Theorem split_agrees_with_scan sql d :
  all_ascii sql = true -> (scan sql d).2 = [] ->
  concat (map (piece_tokens d) (Split sql d)) = List.filter not_semi (scan sql d).1 /\
  Forall (piece_ok d) (Split sql d).
Proof.
  intros Ha Hs. rewrite scan_tokens in *. cbn [fst snd] in *.
  apply (split_loop_agrees d (S (length sql)) sql [] (new_scanner sql d));
    [simpl; lia|done|constructor|done|done].
Qed.
End Props.

Lemma quoted_text_is_one_token_witness :
  let U := ascii_only in
  let sql := B "'it''s; drop table t' from x" in
  scan sql Postgres =
    (literal :: (scan (B " from x") Postgres).1, (scan (B " from x") Postgres).2).
Proof.
  exact (proj1 (@quoted_text_is_one_token ascii_only (B "it's; drop table t") (B " from x") Postgres)
    eq_refl).
Defined.

Lemma split_agrees_with_scan_witness :
  let U := ascii_only in
  let sql := B "select ';' ; -- ; x
 delete from t ;" in
  Split sql Postgres = [B "select ';'"; B "-- ; x
 delete from t"] /\
  concat (map (piece_tokens Postgres) (Split sql Postgres)) =
    List.filter not_semi (scan sql Postgres).1.
Proof.
  split; [vm_compute; reflexivity|].
  apply (@split_agrees_with_scan ascii_only); vm_compute; reflexivity.
Defined.
