(* ===== verification/Keywords.v ===== *)
(** * The keyword tables of the SQL analysis: src/hoopinspect/lexer/keywords.go

    The verbs, their severity, and the tables that say which keyword begins a
    statement, introduces a relation or may stand between the two.  Go's
    [map[string]T] literals are association lists in source order, read by
    [lookup_word]; the keys of each table are distinct. *)

From S2P Require Import Prelude.

(** ** Verbs *)

Module Verb.
Inductive t :=
Select | Insert | Update | Delete | Merge | Create | Drop | Alter | Truncate | Grant | Revoke
| Call | Copy | Show | Set_ | Begin | Commit | Rollback | Explain | Other | Unknown.

#[global] Instance eq_dec : EqDecision t.
Proof. solve_decision. Defined.

(** The string constant behind each verb. *)
Definition text (v : t) : bytes :=
match v with
| Select => B "select"
| Insert => B "insert"
| Update => B "update"
| Delete => B "delete"
| Merge => B "merge"
| Create => B "create"
| Drop => B "drop"
| Alter => B "alter"
| Truncate => B "truncate"
| Grant => B "grant"
| Revoke => B "revoke"
| Call => B "call"
| Copy => B "copy"
| Show => B "show"
| Set_ => B "set"
| Begin => B "begin"
| Commit => B "commit"
| Rollback => B "rollback"
| Explain => B "explain"
| Other => B "other"
| Unknown => B "unknown"
end.

Definition mutating (v : t) : bool :=
match v with
| Insert | Update | Delete | Merge | Create | Drop | Alter | Truncate
| Grant | Revoke | Call | Copy => true
| _ => false
end.

Definition severity (v : t) : Z :=
match v with
| Drop | Truncate => 6
| Delete => 5
| Alter | Grant | Revoke => 4
| Update | Merge => 3
| Insert | Create | Copy | Call => 2
| Select | Show | Explain => 1
| Other => 0
| _ => 0
end%Z.

(** [ddlVerb] *)
Definition ddlVerb (v : t) : bool :=
match v with
| Create | Drop | Alter | Truncate | Grant | Revoke | Other => true
| _ => false
end.
End Verb.

(** ** Tables *)

(** [m[k]] with the comma-ok result. *)
Fixpoint lookup_word {A} (k : bytes) (m : list (bytes * A)) : option A :=
  match m with
  | [] => None
  | (k', a) :: r => if k' =s k then Some a else lookup_word k r
  end.

(** [m[k]] for a [map[string]bool]: false when absent. *)
Definition word_set (k : bytes) (m : list (bytes * bool)) : bool :=
  default false (lookup_word k m).

Definition statementVerb_table : list (bytes * Verb.t) := [
  (B "select", Verb.Select);
  (B "table", Verb.Select);
  (B "values", Verb.Select);
  (B "insert", Verb.Insert);
  (B "update", Verb.Update);
  (B "delete", Verb.Delete);
  (B "merge", Verb.Merge);
  (B "create", Verb.Create);
  (B "drop", Verb.Drop);
  (B "alter", Verb.Alter);
  (B "truncate", Verb.Truncate);
  (B "grant", Verb.Grant);
  (B "revoke", Verb.Revoke);
  (B "call", Verb.Call);
  (B "do", Verb.Call);
  (B "execute", Verb.Call);
  (B "exec", Verb.Call);
  (B "copy", Verb.Copy);
  (B "show", Verb.Show);
  (B "set", Verb.Set_);
  (B "reset", Verb.Set_);
  (B "begin", Verb.Begin);
  (B "start", Verb.Begin);
  (B "commit", Verb.Commit);
  (B "end", Verb.Commit);
  (B "rollback", Verb.Rollback);
  (B "abort", Verb.Rollback);
  (B "savepoint", Verb.Other);
  (B "explain", Verb.Explain);
  (B "analyze", Verb.Other);
  (B "vacuum", Verb.Other);
  (B "comment", Verb.Other);
  (B "prepare", Verb.Other);
  (B "declare", Verb.Other);
  (B "fetch", Verb.Other);
  (B "close", Verb.Other);
  (B "listen", Verb.Other);
  (B "notify", Verb.Other);
  (B "lock", Verb.Other);
  (B "refresh", Verb.Other);
  (B "reindex", Verb.Other);
  (B "cluster", Verb.Other);
  (B "discard", Verb.Other);
  (B "use", Verb.Other);
  (B "with", Verb.Other)].

Definition statementVerb (w : bytes) : option Verb.t := lookup_word w statementVerb_table.

Definition opaque_table : list (bytes * bytes) := [
  (B "do", B "anonymous code block; body is interpreted at runtime");
  (B "call", B "stored procedure; body is in the catalog");
  (B "execute", B "prepared statement; the text was supplied elsewhere");
  (B "exec", B "stored procedure; body is in the catalog")].

Definition opaque (w : bytes) : option bytes := lookup_word w opaque_table.

Definition relIntro_table : list (bytes * bool) := [
  (B "from", true); (B "join", true); (B "into", true); (B "update", true);
  (B "table", true); (B "view", true); (B "truncate", true); (B "using", true);
  (B "copy", true); (B "on", true)].

Definition relIntro (w : bytes) : bool := word_set w relIntro_table.

Definition notARelation_table : list (bytes * bool) := [
  (B "set", true); (B "values", true); (B "select", true); (B "where", true);
  (B "do", true); (B "on", true); (B "returning", true); (B "default", true);
  (B "null", true); (B "stdin", true); (B "stdout", true); (B "program", true);
  (B "nothing", true); (B "conflict", true)].

Definition notARelation (w : bytes) : bool := word_set w notARelation_table.

Definition relSkip_table : list (bytes * bool) := [
  (B "only", true); (B "if", true); (B "exists", true); (B "not", true);
  (B "table", true); (B "tables", true); (B "lateral", true); (B "outer", true);
  (B "inner", true); (B "left", true); (B "right", true); (B "full", true);
  (B "cross", true); (B "natural", true); (B "concurrently", true); (B "materialized", true);
  (B "recursive", true); (B "temporary", true); (B "temp", true); (B "unlogged", true);
  (B "global", true); (B "local", true)].

Definition relSkip (w : bytes) : bool := word_set w relSkip_table.

Definition headAfter_table : list (bytes * bool) := [
  (B "as", false); (B "then", true); (B "else", true); (B "union", true);
  (B "intersect", true); (B "except", true); (B "returning", false)].

Definition headAfter (w : bytes) : bool := word_set w headAfter_table.

Definition wrapperModifier_table : list (bytes * bool) := [
  (B "analyze", true); (B "verbose", true); (B "costs", true); (B "settings", true);
  (B "buffers", true); (B "wal", true); (B "timing", true); (B "summary", true);
  (B "format", true); (B "generic_plan", true); (B "memory", true); (B "serialize", true);
  (B "on", true); (B "off", true); (B "true", true); (B "false", true);
  (B "text", true); (B "json", true); (B "yaml", true); (B "xml", true)].

Definition wrapperModifier (w : bytes) : bool := word_set w wrapperModifier_table.

Definition introduces (intro : bytes) (verb : Verb.t) : bool :=
  if intro =s B "on" then Verb.ddlVerb verb
  else if intro =s B "from"
  then negb (bool_decide (verb = Verb.Grant)) && negb (bool_decide (verb = Verb.Revoke))
  else true.

(** ** Facts *)

Lemma lookup_word_In {A} k (m : list (bytes * A)) a :
  lookup_word k m = Some a -> In (k, a) m.
Proof.
  induction m as [|[k' a'] m IH]; simpl; [done|].
  destruct (k' =s k) eqn:E; [|by auto]. intros [= <-]. apply seqb_eq in E as ->. by left.
Qed.

Lemma severity_nonneg v : (0 <= Verb.severity v)%Z.
Proof. by destruct v. Qed.
