(* ===== verification/Analyze.v ===== *)
(** * The SQL effect analysis: src/hoopinspect/lexer/analyze.go

    One pass over the tokens of a statement with a stack of labelled regions.
    The Go analyzer is a mutable struct; here it is the record [analyzer] and
    every method returns the updated record.  The region stack is a list with
    its top at the head (Go appends at the end), so [a.stack[:1]] keeps the
    last element.  Token positions are the source's indices; the loops that
    only move forward over the tokens recurse on [drop j toks]. *)

From S2P Require Import Prelude GoStrings Scan Keywords.

(** ** Results *)

Inductive Access := Read | Write.

#[global] Instance Access_eq_dec : EqDecision Access.
Proof. solve_decision. Defined.

Definition Access_String (a : Access) : bytes :=
  match a with Write => B "write" | Read => B "read" end.

Record Relation := { rName : bytes; rAccess : Access }.

#[global] Instance Relation_eq_dec : EqDecision Relation.
Proof. solve_decision. Defined.

Record Analysis := {
  anVerb : Verb.t;
  anEffects : list Verb.t;
  anRelations : list Relation;
  anComplete : bool;
  anReason : bytes;
}.

(** [Analysis.Severity]: the loop keeps the first verb of maximal severity. *)
Definition Severity (a : Analysis) : Verb.t :=
  fold_left (fun worst e =>
    if (Verb.severity worst <? Verb.severity e)%Z then e else worst)
    (anEffects a) (anVerb a).

Definition Writes (a : Analysis) : bool := existsb Verb.mutating (anEffects a).

Definition Names (a : Analysis) : list bytes := map rName (anRelations a).

(** ** State *)

Inductive regionKind := regTop | regCTE | regSub | regParen.

#[global] Instance regionKind_eq_dec : EqDecision regionKind.
Proof. solve_decision. Defined.

Record region := { rg_kind : regionKind; rg_verb : Verb.t; rg_firstTarget : bool }.

Definition top_region : region :=
  {| rg_kind := regTop; rg_verb := Verb.Unknown; rg_firstTarget := false |}.

Record analyzer := {
  a_toks : list Token;
  a_stack : list region;
  a_effects : list Verb.t;
  a_rels : list Relation;
  a_cteNames : list bytes;
  a_inCTEList : bool;
  a_expectCTEName : bool;
  a_explainSeen : bool;
  a_analyzeSeen : bool;
  a_wrapper : bool;
  a_sawStatement : bool;
  a_incomplete : bytes;
}.

Definition new_analyzer (toks : list Token) (bad : bytes) : analyzer :=
  {| a_toks := toks; a_stack := [top_region]; a_effects := []; a_rels := [];
     a_cteNames := []; a_inCTEList := false; a_expectCTEName := false;
     a_explainSeen := false; a_analyzeSeen := false; a_wrapper := false;
     a_sawStatement := false; a_incomplete := bad |}.

(** Field assignments. *)
Definition set_stack a v := {| a_toks := a_toks a; a_stack := v; a_effects := a_effects a;
  a_rels := a_rels a; a_cteNames := a_cteNames a; a_inCTEList := a_inCTEList a;
  a_expectCTEName := a_expectCTEName a; a_explainSeen := a_explainSeen a;
  a_analyzeSeen := a_analyzeSeen a; a_wrapper := a_wrapper a;
  a_sawStatement := a_sawStatement a; a_incomplete := a_incomplete a |}.
Definition set_effects a v := {| a_toks := a_toks a; a_stack := a_stack a; a_effects := v;
  a_rels := a_rels a; a_cteNames := a_cteNames a; a_inCTEList := a_inCTEList a;
  a_expectCTEName := a_expectCTEName a; a_explainSeen := a_explainSeen a;
  a_analyzeSeen := a_analyzeSeen a; a_wrapper := a_wrapper a;
  a_sawStatement := a_sawStatement a; a_incomplete := a_incomplete a |}.
Definition set_rels a v := {| a_toks := a_toks a; a_stack := a_stack a;
  a_effects := a_effects a; a_rels := v; a_cteNames := a_cteNames a;
  a_inCTEList := a_inCTEList a; a_expectCTEName := a_expectCTEName a;
  a_explainSeen := a_explainSeen a; a_analyzeSeen := a_analyzeSeen a;
  a_wrapper := a_wrapper a; a_sawStatement := a_sawStatement a;
  a_incomplete := a_incomplete a |}.
Definition set_cteNames a v := {| a_toks := a_toks a; a_stack := a_stack a;
  a_effects := a_effects a; a_rels := a_rels a; a_cteNames := v;
  a_inCTEList := a_inCTEList a; a_expectCTEName := a_expectCTEName a;
  a_explainSeen := a_explainSeen a; a_analyzeSeen := a_analyzeSeen a;
  a_wrapper := a_wrapper a; a_sawStatement := a_sawStatement a;
  a_incomplete := a_incomplete a |}.
Definition set_cteFlags a inl exp := {| a_toks := a_toks a; a_stack := a_stack a;
  a_effects := a_effects a; a_rels := a_rels a; a_cteNames := a_cteNames a;
  a_inCTEList := inl; a_expectCTEName := exp; a_explainSeen := a_explainSeen a;
  a_analyzeSeen := a_analyzeSeen a; a_wrapper := a_wrapper a;
  a_sawStatement := a_sawStatement a; a_incomplete := a_incomplete a |}.
Definition set_explain a ex an wr := {| a_toks := a_toks a; a_stack := a_stack a;
  a_effects := a_effects a; a_rels := a_rels a; a_cteNames := a_cteNames a;
  a_inCTEList := a_inCTEList a; a_expectCTEName := a_expectCTEName a;
  a_explainSeen := ex; a_analyzeSeen := an; a_wrapper := wr;
  a_sawStatement := a_sawStatement a; a_incomplete := a_incomplete a |}.
Definition set_sawStatement a := {| a_toks := a_toks a; a_stack := a_stack a;
  a_effects := a_effects a; a_rels := a_rels a; a_cteNames := a_cteNames a;
  a_inCTEList := a_inCTEList a; a_expectCTEName := a_expectCTEName a;
  a_explainSeen := a_explainSeen a; a_analyzeSeen := a_analyzeSeen a;
  a_wrapper := a_wrapper a; a_sawStatement := true; a_incomplete := a_incomplete a |}.

(** [analyzer.fail] *)
Definition an_fail (a : analyzer) (why : bytes) : analyzer :=
  {| a_toks := a_toks a; a_stack := a_stack a; a_effects := a_effects a;
     a_rels := a_rels a; a_cteNames := a_cteNames a; a_inCTEList := a_inCTEList a;
     a_expectCTEName := a_expectCTEName a; a_explainSeen := a_explainSeen a;
     a_analyzeSeen := a_analyzeSeen a; a_wrapper := a_wrapper a;
     a_sawStatement := a_sawStatement a;
     a_incomplete := if a_incomplete a =s [] then why else a_incomplete a |}.

(** [a.top()].  Indexing an empty stack panics in Go; [Inv] below shows that
    the stack is never empty, so the default is never read. *)
Definition top (a : analyzer) : region := hd top_region (a_stack a).
Definition set_top (a : analyzer) (r : region) : analyzer :=
  set_stack a (r :: tl (a_stack a)).

(** [a.stack[:1]] *)
Definition bottom (l : list region) : list region :=
  match last l with Some r => [r] | None => [] end.

(** ** Regions *)

(** The backward loop of [prevWord], on the reversed tokens before [i]. *)
Fixpoint prevWord_loop (l : list Token) : option bytes :=
  match l with
  | [] => None
  | t :: r =>
      if kind_is Word t then Some (tText t)
      else if kind_is Punct t && negb (tText t =s B ",") then None
      else prevWord_loop r
  end.

Definition prevWord (a : analyzer) (i : nat) : option bytes :=
  prevWord_loop (rev (take i (a_toks a))).

Definition push_kind (a : analyzer) (i : nat) : regionKind :=
  match prevWord a i with
  | None => regParen
  | Some prev =>
      if (prev =s B "as") && a_inCTEList a then regCTE
      else if (prev =s B "from") || (prev =s B "join") || (prev =s B "in") ||
              (prev =s B "exists") || (prev =s B "using") || (prev =s B "copy")
      then regSub
      else regParen
  end.

Definition push (a : analyzer) (i : nat) : analyzer :=
  let kind := push_kind a i in
  let verb := match kind with regParen => rg_verb (top a) | _ => Verb.Unknown end in
  set_stack a ({| rg_kind := kind; rg_verb := verb; rg_firstTarget := false |} :: a_stack a).

Definition pop (a : analyzer) : analyzer :=
  if (length (a_stack a) =? 1)%nat then an_fail a (B "unbalanced parentheses")
  else
    let closing := top a in
    let a := set_stack a (tl (a_stack a)) in
    match rg_kind closing with
    | regCTE => set_cteFlags a (a_inCTEList a) false
    | _ => a
    end.

(** ** Statement heads *)

Definition headFollows (a : analyzer) (word : bytes) : bool :=
  if word =s B "as" then Verb.ddlVerb (rg_verb (top a)) else headAfter word.

Definition head (a : analyzer) (t : Token) : analyzer * bool :=
  match statementVerb (tText t) with
  | None => (a, false)
  | Some verb =>
      let a := set_sawStatement a in
      let a := match opaque (tText t) with Some why => an_fail a why | None => a end in
      match verb with
      | Verb.Explain => (set_explain a true (a_analyzeSeen a) true, true)
      | _ =>
          let a := set_explain a (a_explainSeen a) (a_analyzeSeen a) false in
          let a := match rg_kind (top a) with
                   | regTop => set_cteFlags a false (a_expectCTEName a)
                   | _ => a
                   end in
          let r := {| rg_kind := rg_kind (top a); rg_verb := verb; rg_firstTarget := true |} in
          let a := set_top a r in
          (set_effects a (a_effects a ++ [verb]), true)
      end
  end.

(** ** Relations *)

Fixpoint copyDirection_loop (depth : Z) (l : list Token) : Access :=
  match l with
  | [] => Write
  | t :: r =>
      if kind_is Punct t then
        if tText t =s B "(" then copyDirection_loop (depth + 1) r
        else if tText t =s B ")" then copyDirection_loop (depth - 1) r
        else if tText t =s B ";" then Write
        else copyDirection_loop depth r
      else if negb (depth =? 0)%Z || negb (kind_is Word t) then copyDirection_loop depth r
      else if tText t =s B "to" then Read
      else if tText t =s B "from" then Write
      else copyDirection_loop depth r
  end.

Definition copyDirection (a : analyzer) (j : nat) : Access :=
  copyDirection_loop 0 (drop (j + 1) (a_toks a)).

(** [access] also clears [firstTarget] on the region it is given. *)
Definition access (r : region) (intro : bytes) : Access * region :=
  let claimed := {| rg_kind := rg_kind r; rg_verb := rg_verb r; rg_firstTarget := false |} in
  match rg_verb r with
  | Verb.Select => (if intro =s B "into" then Write else Read, r)
  | Verb.Delete =>
      if (intro =s B "from") && rg_firstTarget r then (Write, claimed) else (Read, r)
  | Verb.Update =>
      if (intro =s B "update") && rg_firstTarget r then (Write, claimed) else (Read, r)
  | Verb.Insert | Verb.Merge =>
      if (intro =s B "into") && rg_firstTarget r then (Write, claimed) else (Read, r)
  | Verb.Copy => (if intro =s B "copy" then Write else Read, r)
  | v =>
      if negb (Verb.ddlVerb v) then (Read, r)
      else if (intro =s B "table") || (intro =s B "view") || (intro =s B "into") ||
              (intro =s B "on") || (intro =s B "truncate")
      then (Write, r) else (Read, r)
  end.

(** The number of skippable keywords at the front. *)
Fixpoint rel_skip (l : list Token) : nat :=
  match l with
  | t :: r => if kind_is Word t && relSkip (tText t) then S (rel_skip r) else 0
  | [] => 0
  end.

Definition is_punct (c : bytes) (t : Token) : bool := kind_is Punct t && (tText t =s c).

(** The [.name] parts of a qualified name and how many tokens they take. *)
Fixpoint qualified (l : list Token) : bytes * nat :=
  match l with
  | dot :: nm :: r =>
      if is_punct (B ".") dot && isName nm
      then let '(s, k) := qualified r in (B "." ++ tText nm ++ s, 2 + k)
      else ([], 0)
  | _ => ([], 0)
  end.

(** [toks[j]] exists and is the given punctuation. *)
Definition punct_at (a : analyzer) (j : nat) (c : bytes) : bool :=
  match a_toks a !! j with Some t => is_punct c t | None => false end.

Definition intro_text (a : analyzer) (i : nat) : bytes :=
  match a_toks a !! i with Some t => tText t | None => [] end.

Definition relationAt (a : analyzer) (i j : nat) : analyzer * (nat * option Relation) :=
  let j := j + 1 in
  let j := j + rel_skip (drop j (a_toks a)) in
  match a_toks a !! j with
  | None => (a, (j, None))
  | Some t =>
      if negb (isName t) then (a, (j, None))
      else if kind_is Word t && notARelation (tText t) then (a, (j, None))
      else
        let '(parts, k) := qualified (drop (j + 1) (a_toks a)) in
        let name := tText t ++ parts in
        let j := j + k in
        let intro := intro_text a i in
        if bool_decide (name ∈ a_cteNames a) then (a, (j, None))
        else if ((intro =s B "from") || (intro =s B "join") || (intro =s B "using")) &&
                punct_at a (j + 1) (B "(")
        then (a, (j, None))
        else
          let '(acc, r) := access (top a) intro in
          let a := set_top a r in
          let acc := if bool_decide (rg_verb r = Verb.Copy) && (intro =s B "copy")
                     then copyDirection a j else acc in
          (a, (j, Some {| rName := name; rAccess := acc |}))
  end.

(** The list loop of [relationsAfter]; [j] is the last token consumed. *)
Fixpoint relations_loop (fuel : nat) (a : analyzer) (i j : nat)
    : analyzer * (nat * list Relation) :=
  match fuel with
  | O => (a, (j, []))
  | S fuel' =>
      match relationAt a i j with
      | (a', (_, None)) => (a', (j, []))
      | (a', (next, Some rel)) =>
          if punct_at a' (next + 1) (B ",")
          then let '(a'', (j', rels)) := relations_loop fuel' a' i (next + 1) in
               (a'', (j', rel :: rels))
          else (a', (next, [rel]))
      end
  end.

Definition relationsAfter (a : analyzer) (i : nat) : analyzer * (nat * list Relation) :=
  if negb (introduces (intro_text a i) (rg_verb (top a))) then (a, (i, []))
  else relations_loop (length (a_toks a)) a i i.

(** [addRelation]: write dominates. *)
Fixpoint add_rel (rels : list Relation) (rel : Relation) : list Relation :=
  match rels with
  | [] => [rel]
  | r :: rest =>
      if rName r =s rName rel
      then match rAccess rel with
           | Write => {| rName := rName r; rAccess := Write |} :: rest
           | Read => r :: rest
           end
      else r :: add_rel rest rel
  end.

Definition addRelation (a : analyzer) (rel : Relation) : analyzer :=
  set_rels a (add_rel (a_rels a) rel).

(** The introducer branch of [walk], shared by verbs that name a target. *)
Definition claim_relations (a : analyzer) (i : nat) : analyzer * nat :=
  let '(a, (j, rels)) := relationsAfter a i in
  match rels with
  | [] => (a, i)
  | _ :: _ => (fold_left addRelation rels a, j)
  end.

(** ** The walk *)

(** The [Punct] cases of one iteration. *)
Definition walk_punct (a : analyzer) (i : nat) (txt : bytes) : analyzer * bool :=
  if txt =s B "(" then
    let a := push a i in
    (a, match rg_kind (top a) with regCTE | regSub => true | _ => a_wrapper a end)
  else if txt =s B ")" then
    let wasCTE := match rg_kind (top a) with regCTE => true | _ => false end in
    let a := pop a in
    (a, wasCTE || a_wrapper a)
  else if txt =s B ";" then
    let a := if negb (length (a_stack a) =? 1)%nat
             then let a := an_fail a (B "unbalanced parentheses at statement end") in
                  set_stack a (bottom (a_stack a))
             else a in
    let a := set_top a top_region in
    (set_cteFlags a false false, true)
  else if txt =s B "," then
    let a := if a_inCTEList a && (length (a_stack a) =? 1)%nat
             then set_cteFlags a (a_inCTEList a) true else a in
    (a, a_wrapper a)
  else (a, a_wrapper a).

(** One iteration: the new state, the last index consumed and [atHead]. *)
Definition walk_step (a : analyzer) (i : nat) (atHead : bool) (t : Token)
    : analyzer * (nat * bool) :=
  match tKind t with
  | Punct => let '(a, h) := walk_punct a i (tText t) in (a, (i, h))
  | Word =>
      if a_expectCTEName a then
        (set_cteFlags (set_cteNames a (tText t :: a_cteNames a)) (a_inCTEList a) false,
         (i, false))
      else if tText t =s B "with" then
        (set_sawStatement (set_cteFlags a true true), (i, false))
      else if a_wrapper a && wrapperModifier (tText t) then
        (if tText t =s B "analyze"
         then set_explain a (a_explainSeen a) true (a_wrapper a) else a, (i, true))
      else
        let '(a, consumed) := if atHead then head a t else (a, false) in
        if consumed then
          let '(a, j) := if relIntro (tText t) then claim_relations a i else (a, i) in
          (a, (j, false))
        else if relIntro (tText t) then
          let '(a, j) := claim_relations a i in (a, (j, false))
        else (a, (i, headFollows a (tText t)))
  | _ => (a, (i, a_wrapper a))
  end.

Fixpoint walk_loop (fuel : nat) (a : analyzer) (i : nat) (atHead : bool) : analyzer :=
  match fuel with
  | O => a
  | S fuel' =>
      match a_toks a !! i with
      | None => a
      | Some t =>
          let '(a', (j, h)) := walk_step a i atHead t in
          walk_loop fuel' a' (j + 1) h
      end
  end.

Definition walk (a : analyzer) : analyzer :=
  let a := walk_loop (length (a_toks a)) a 0 true in
  if negb (length (a_stack a) =? 1)%nat then an_fail a (B "unbalanced parentheses") else a.

Definition result (a : analyzer) : Analysis :=
  let verb := match a_effects a with
              | v :: _ => v
              | [] => if a_explainSeen a then Verb.Explain
                      else if a_sawStatement a then Verb.Other else Verb.Unknown
              end in
  let planOnly := a_explainSeen a && negb (a_analyzeSeen a) in
  {| anVerb := if planOnly then Verb.Explain else verb;
     anEffects := if planOnly then [] else a_effects a;
     anRelations := a_rels a;
     anComplete := a_incomplete a =s [];
     anReason := a_incomplete a |}.

Section Analyze.
Context `{GoUnicode}.

Definition Analyze (sql : bytes) (d : Dialect) : Analysis :=
  let '(toks, bad) := scan sql d in
  result (walk (new_analyzer toks bad)).
End Analyze.
