(* ===== verification/AnalyzeFacts.v ===== *)
(** * Lemmas about the analysis of src/hoopinspect/lexer/analyze.go

    The invariant of the region stack, what one iteration of [walk] may
    change, which tokens a relation list may swallow, and the induction
    principle for the walk. *)

From S2P Require Import Prelude GoStrings Scan Keywords Analyze.

(** ** The region stack *)

(** Never empty, [regTop] at the bottom and nowhere else: every [a.top()] and
    [a.stack[:1]] of the source is in range. *)
Definition stack_ok (l : list region) : Prop :=
  exists pre r, l = pre ++ [r] /\ rg_kind r = regTop /\
    Forall (fun g => rg_kind g <> regTop) pre.

Definition Inv (a : analyzer) : Prop := stack_ok (a_stack a).

Definition kinds (l : list region) : list (regionKind * Verb.t) :=
  map (fun r => (rg_kind r, rg_verb r)) l.

(** [a'] differs from [a] at most in the [firstTarget] flags and in the
    relations, to which [rels] were added. *)
Definition claims (a a' : analyzer) (rels : list Relation) : Prop :=
  a' = set_rels (set_stack a (a_stack a')) (a_rels a') /\
  kinds (a_stack a') = kinds (a_stack a) /\
  a_rels a' = fold_left add_rel rels (a_rels a).

Lemma Inv_ne a : Inv a -> a_stack a <> [].
Proof. intros (pre & r & -> & _). by destruct pre. Qed.

Lemma kinds_not_top pre pre' :
  kinds pre' = kinds pre -> Forall (fun g => rg_kind g <> regTop) pre ->
  Forall (fun g => rg_kind g <> regTop) pre'.
Proof.
  revert pre. induction pre' as [|g pre' IH]; intros [|g' pre] Hp Hpre; simplify_eq/=; [done|].
  apply Forall_cons in Hpre as [Hg Hpre]. constructor; [congruence|]. by eapply IH.
Qed.

Lemma stack_ok_kinds l l' : kinds l' = kinds l -> stack_ok l -> stack_ok l'.
Proof.
  intros Hk (pre & r & -> & Hr & Hpre). unfold kinds in Hk. rewrite map_app in Hk.
  apply map_eq_app in Hk as (pre' & r' & -> & Hp & Hr').
  destruct r' as [|r1 [|]]; [done| |done]. injection Hr' as Hk' _.
  exists pre', r1. split; [done|]. split; [congruence|]. by eapply kinds_not_top.
Qed.

Lemma stack_ok_cons g l : rg_kind g <> regTop -> stack_ok l -> stack_ok (g :: l).
Proof.
  intros Hg (pre & r & -> & Hr & Hpre). exists (g :: pre), r.
  split; [done|]. split; [done|]. by constructor.
Qed.

Lemma stack_ok_tl l : stack_ok l -> length l <> 1 -> stack_ok (tl l).
Proof.
  intros (pre & r & -> & Hr & Hpre) Hl. destruct pre as [|g pre]; [done|].
  apply Forall_cons in Hpre as [_ Hpre]. by exists pre, r.
Qed.

Lemma stack_ok_single r : rg_kind r = regTop -> stack_ok [r].
Proof. intros Hr. by exists [], r. Qed.

Lemma stack_ok_last l :
  stack_ok l -> stack_ok (bottom l).
Proof. unfold bottom. intros (pre & r & -> & Hr & _). rewrite last_snoc. by apply stack_ok_single. Qed.

(** The top can be replaced by a region of the same kind. *)
Lemma stack_ok_top l r :
  stack_ok l -> rg_kind r = rg_kind (hd top_region l) -> stack_ok (r :: tl l).
Proof.
  intros (pre & r0 & -> & Hr & Hpre). destruct pre as [|g pre]; simpl.
  - intros E. apply stack_ok_single. by rewrite E.
  - apply Forall_cons in Hpre as [Hg Hpre]. intros E. apply stack_ok_cons; [by rewrite E|].
    by exists pre, r0.
Qed.

Lemma length_one_top l : stack_ok l -> length l = 1 -> exists r, l = [r] /\ rg_kind r = regTop.
Proof.
  intros (pre & r & -> & Hr & _) Hl. destruct pre; [by exists r|].
  rewrite length_app in Hl. simpl in Hl. lia.
Qed.

#[export] Hint Resolve Inv_ne stack_ok_cons stack_ok_tl stack_ok_single stack_ok_last
  stack_ok_top : golib.

(** ** Relation lists *)

(** Tokens a relation list never swallows. *)
Definition structural (t : Token) : bool :=
  is_punct (B "(") t || is_punct (B ")") t || is_punct (B ";") t.

Definition quiet_between (toks : list Token) (i j : nat) : Prop :=
  forall k t, i < k <= j -> toks !! k = Some t -> structural t = false.

Lemma isName_quiet t : isName t = true -> structural t = false.
Proof. unfold isName, structural, is_punct, kind_is. by destruct (tKind t). Qed.

Lemma word_quiet t : kind_is Word t = true -> structural t = false.
Proof. unfold structural, is_punct, kind_is. by destruct (tKind t). Qed.

Lemma punct_quiet c t :
  is_punct c t = true -> (c =s B "(") || (c =s B ")") || (c =s B ";") = false ->
  structural t = false.
Proof.
  unfold structural, is_punct. intros [-> Ht]%andb_true_iff Hc.
  apply seqb_eq in Ht as ->. exact Hc.
Qed.

Lemma rel_skip_le l : rel_skip l <= length l.
Proof. induction l as [|t l IH]; simpl; [lia|]. case_match; lia. Qed.

Lemma rel_skip_quiet l k t : k < rel_skip l -> l !! k = Some t -> structural t = false.
Proof.
  revert k. induction l as [|t' l IH]; intros k Hk Hl; simpl in *; [lia|].
  destruct (kind_is Word t' && _) eqn:E; [|lia].
  destruct k as [|k]; simplify_eq/=.
  - apply word_quiet. by bool_hyps.
  - apply (IH k); [lia|done].
Qed.

Lemma qualified_quiet l k t :
  k < (qualified l).2 -> l !! k = Some t -> structural t = false.
Proof.
  revert k. induction l as [|t1|dot nm l IH1 _] using list_ind2; intros k Hk Hl;
    [simpl in *; lia..|]. cbn [qualified] in Hk. destruct (is_punct _ dot && _) eqn:E; [|simpl in *; lia].
  bool_hyps. destruct (qualified l) as [s n]. simpl in Hk.
  destruct k as [|[|k]]; simplify_eq/=.
  - by eapply punct_quiet.
  - by apply isName_quiet.
  - apply (IH1 k); [lia|done].
Qed.

Lemma qualified_le l : (qualified l).2 <= length l.
Proof.
  induction l as [|t1|dot nm l IH1 _] using list_ind2; [simpl; lia..|].
  cbn [qualified]. destruct (is_punct _ dot && _); [|simpl; lia].
  destruct (qualified l). simpl in *. lia.
Qed.

Lemma access_same r intro :
  rg_kind (access r intro).2 = rg_kind r /\ rg_verb (access r intro).2 = rg_verb r.
Proof. unfold access. repeat case_match; done. Qed.

Lemma kinds_set_top a r :
  a_stack a <> [] -> rg_kind r = rg_kind (top a) -> rg_verb r = rg_verb (top a) ->
  kinds (a_stack (set_top a r)) = kinds (a_stack a).
Proof. unfold top. destruct (a_stack a) eqn:E; [done|]. simpl. rewrite E. simpl. by intros _ -> ->. Qed.

Lemma claims_refl a : claims a a [].
Proof. by destruct a. Qed.

Lemma claims_set_top a r :
  a_stack a <> [] -> rg_kind r = rg_kind (top a) -> rg_verb r = rg_verb (top a) ->
  claims a (set_top a r) [].
Proof. intros. split; [by destruct a|]. split; [by apply kinds_set_top|done]. Qed.

Lemma claims_trans a a' a'' rels rels' :
  claims a a' rels -> claims a' a'' rels' -> claims a a'' (rels ++ rels').
Proof.
  intros (H1 & H2 & H3) (H4 & H5 & H6). split; [|split].
  - rewrite H4. rewrite H1. by destruct a.
  - by rewrite H5.
  - by rewrite H6, H3, fold_left_app.
Qed.

Lemma claims_ne a a' rels : claims a a' rels -> a_stack a <> [] -> a_stack a' <> [].
Proof. intros (_ & Hk & _) Ha E. rewrite E in Hk. by destruct (a_stack a). Qed.

Lemma claims_toks a a' rels : claims a a' rels -> a_toks a' = a_toks a.
Proof. intros (-> & _). done. Qed.

Lemma relationAt_spec a i j a' j' o :
  a_stack a <> [] -> relationAt a i j = (a', (j', o)) ->
  claims a a' [] /\
  (is_Some o -> j < j' < length (a_toks a) /\ quiet_between (a_toks a) j j').
Proof.
  intros Hne. unfold relationAt.
  set (j1 := j + 1 + rel_skip (drop (j + 1) (a_toks a))).
  destruct (a_toks a !! j1) as [t|] eqn:Et; cycle 1.
  { intros [= <- <- <-]. split; [apply claims_refl|]. by intros [? [=]]. }
  destruct (isName t) eqn:Hn; cbn [negb]; cycle 1.
  { intros [= <- <- <-]. split; [apply claims_refl|]. by intros [? [=]]. }
  case_go; [intros [= <- <- <-]; split; [apply claims_refl|by intros [? [=]]]|].
  pose proof (qualified_quiet (drop (j1 + 1) (a_toks a))) as Hq.
  pose proof (qualified_le (drop (j1 + 1) (a_toks a))) as Hl.
  destruct (qualified _) as [parts k]. cbn [snd] in *.
  case_go; [intros [= <- <- <-]; split; [apply claims_refl|by intros [? [=]]]|].
  case_go; [intros [= <- <- <-]; split; [apply claims_refl|by intros [? [=]]]|].
  destruct (access (top a) (intro_text a i)) as [acc r] eqn:Ea.
  pose proof (access_same (top a) (intro_text a i)) as [Hk Hv]. rewrite Ea in Hk, Hv.
  intros [= <- <- <-]. split; [by apply claims_set_top|]. intros _.
  apply lookup_lt_Some in Et as Hlt. rewrite length_drop in Hl. split; [lia|].
  intros n tn Hn' Htn. destruct (decide (n < j1)).
  - apply (rel_skip_quiet (drop (j + 1) (a_toks a)) (n - (j + 1))); [lia|].
    rewrite lookup_drop. by replace (j + 1 + (n - (j + 1))) with n by lia.
  - destruct (decide (n = j1)) as [->|]; [rewrite Et in Htn; simplify_eq; by apply isName_quiet|].
    apply (Hq (n - (j1 + 1))); [lia|].
    rewrite lookup_drop. by replace (j1 + 1 + (n - (j1 + 1))) with n by lia.
Qed.

Lemma punct_at_quiet a j t :
  punct_at a j (B ",") = true -> a_toks a !! j = Some t -> structural t = false.
Proof. unfold punct_at. intros H E. rewrite E in H. by eapply punct_quiet. Qed.

Lemma quiet_between_trans toks i j k :
  quiet_between toks i j -> quiet_between toks j k -> quiet_between toks i k.
Proof. intros H1 H2 n t Hn. destruct (decide (n <= j)); [apply H1; lia|apply H2; lia]. Qed.

Lemma relations_loop_spec fuel a i j a' j' rels :
  a_stack a <> [] -> j < length (a_toks a) ->
  relations_loop fuel a i j = (a', (j', rels)) ->
  claims a a' [] /\ j <= j' < length (a_toks a) /\ quiet_between (a_toks a) j j'.
Proof.
  revert a j a' j' rels. induction fuel as [|fuel IH]; intros a j a' j' rels Hne Hj; simpl.
  { intros [= <- <- <-]. split; [apply claims_refl|]. split; [lia|]. intros n t. lia. }
  destruct (relationAt a i j) as [a1 [nx o]] eqn:E.
  destruct (relationAt_spec _ _ _ _ _ _ Hne E) as [Hc Ho].
  destruct o as [rel|]; cycle 1.
  { intros [= <- <- <-]. split; [done|]. split; [lia|]. intros n t. lia. }
  destruct (Ho ltac:(done)) as [Hnx Hq]. pose proof (claims_toks _ _ _ Hc) as Ht.
  destruct (punct_at a1 (nx + 1) _) eqn:Ep.
  - destruct (relations_loop fuel a1 i (nx + 1)) as [a2 [j2 rels2]] eqn:E2.
    intros [= <- <- <-]. assert (nx + 1 < length (a_toks a1)) as Hlt.
    { unfold punct_at in Ep. destruct (a_toks a1 !! (nx + 1)) eqn:El; [|done].
      by apply lookup_lt_Some in El. }
    destruct (IH _ _ _ _ _ (claims_ne _ _ _ Hc Hne) Hlt E2) as (Hc2 & Hj2 & Hq2).
    rewrite Ht in *. split; [by apply (claims_trans _ _ _ _ _ Hc Hc2)|]. split; [lia|].
    eapply quiet_between_trans; [exact Hq|]. eapply quiet_between_trans; [|exact Hq2].
    intros n t Hn Hnt. assert (n = nx + 1) as -> by lia. rewrite <- Ht in Hnt.
    by eapply punct_at_quiet.
  - intros [= <- <- <-]. split; [done|]. split; [lia|done].
Qed.

Lemma fold_addRelation rels a :
  fold_left addRelation rels a = set_rels a (fold_left add_rel rels (a_rels a)).
Proof.
  revert a. induction rels as [|r rels IH]; intros a; simpl; [by destruct a|]. by rewrite IH.
Qed.

(** What the introducer branch of [walk] does. *)
Lemma claim_relations_spec a i a' j :
  a_stack a <> [] -> i < length (a_toks a) -> claim_relations a i = (a', j) ->
  (exists rels, claims a a' rels) /\ i <= j < length (a_toks a) /\
  quiet_between (a_toks a) i j.
Proof.
  intros Hne Hi. unfold claim_relations, relationsAfter.
  case_go; cbn [fst snd].
  { intros [= <- <-]. split; [exists []; apply claims_refl|]. split; [lia|]. intros n t. lia. }
  destruct (relations_loop _ a i i) as [a1 [j1 rels]] eqn:E.
  destruct (relations_loop_spec _ _ _ _ _ _ _ Hne Hi E) as (Hc & Hj & Hq).
  destruct rels as [|rel rels].
  { intros [= <- <-]. split; [by exists []|]. split; [lia|]. intros n t. lia. }
  rewrite fold_addRelation. intros [= <- <-]. split; [|done].
  exists (rel :: rels). destruct Hc as (Hc1 & Hc2 & Hc3). split; [|split].
  - rewrite Hc1. by destruct a.
  - done.
  - simpl. by rewrite Hc3.
Qed.

(** ** One iteration of the walk *)

(** What every iteration respects; [ev] are the effects it appends. *)
Record evolves (a a' : analyzer) (ev : list Verb.t) : Prop := {
  ev_toks : a_toks a' = a_toks a;
  ev_inv : Inv a -> Inv a';
  ev_effects : a_effects a' = a_effects a ++ ev;
  ev_rels : exists rels, a_rels a' = fold_left add_rel rels (a_rels a);
  ev_incomplete : a_incomplete a <> [] -> a_incomplete a' <> [];
  ev_explain : a_explainSeen a = true -> a_explainSeen a' = true;
  ev_analyze : a_analyzeSeen a = true -> a_analyzeSeen a' = true;
}.

Lemma evolves_refl a : evolves a a [].
Proof. split; auto; [by rewrite app_nil_r|by exists []]. Qed.

Lemma evolves_trans a a' a'' ev ev' :
  evolves a a' ev -> evolves a' a'' ev' -> evolves a a'' (ev ++ ev').
Proof.
  intros [T1 I1 E1 (r1 & R1) C1 X1 Y1] [T2 I2 E2 (r2 & R2) C2 X2 Y2]. split; auto.
  - congruence.
  - by rewrite E2, E1, app_assoc.
  - exists (r1 ++ r2). by rewrite R2, R1, fold_left_app.
Qed.

Lemma evolves_claims a a' rels : claims a a' rels -> evolves a a' [].
Proof.
  intros (H1 & H2 & H3). rewrite H1. split; simpl; auto.
  - intros HI. unfold Inv in *. simpl. by eapply stack_ok_kinds.
  - by rewrite app_nil_r.
  - by exists rels.
Qed.

Lemma an_fail_incomplete a why : why <> [] -> a_incomplete (an_fail a why) <> [].
Proof. intros Hw. simpl. case_match; [done|]. by bool_hyps. Qed.

Lemma evolves_fail a why : why <> [] -> evolves a (an_fail a why) [].
Proof.
  intros Hw. split; simpl; auto; [by rewrite app_nil_r|by exists []|].
  intros _. by apply (an_fail_incomplete a).
Qed.

(** Assignments to the stack and to the flags. *)
Lemma evolves_stack a l : (Inv a -> stack_ok l) -> evolves a (set_stack a l) [].
Proof. intros Hl. split; simpl; auto; [by rewrite app_nil_r|by exists []]. Qed.

Lemma evolves_cteFlags a x y : evolves a (set_cteFlags a x y) [].
Proof. split; simpl; auto; [by rewrite app_nil_r|by exists []]. Qed.

Lemma evolves_saw a : evolves a (set_sawStatement a) [].
Proof. split; simpl; auto; [by rewrite app_nil_r|by exists []]. Qed.

Lemma evolves_cteNames a l : evolves a (set_cteNames a l) [].
Proof. split; simpl; auto; [by rewrite app_nil_r|by exists []]. Qed.

Lemma evolves_explain a x y z :
  (a_explainSeen a = true -> x = true) -> (a_analyzeSeen a = true -> y = true) ->
  evolves a (set_explain a x y z) [].
Proof. intros Hx Hy. split; simpl; auto; [by rewrite app_nil_r|by exists []]. Qed.

Lemma evolves_effect a v : evolves a (set_effects a (a_effects a ++ [v])) [v].
Proof. split; simpl; auto. by exists []. Qed.

Lemma evolves_cons a a' a'' ev :
  evolves a a' [] -> evolves a' a'' ev -> evolves a a'' ev.
Proof. intros H1 H2. apply (evolves_trans _ _ _ [] ev H1 H2). Qed.

#[export] Hint Resolve evolves_refl evolves_cteFlags evolves_saw evolves_cteNames
  evolves_effect : golib.

Lemma opaque_ne w why : opaque w = Some why -> why <> [].
Proof.
  intros E%lookup_word_In. simpl in E. repeat destruct E as [E|E]; simplify_eq; done.
Qed.

Lemma push_kind_not_top a i : push_kind a i <> regTop.
Proof. unfold push_kind. repeat case_match; done. Qed.

Lemma push_evolves a i : evolves a (push a i) [].
Proof.
  apply evolves_stack. intros HI. apply stack_ok_cons; [apply push_kind_not_top|done].
Qed.

Lemma pop_evolves a : evolves a (pop a) [].
Proof.
  unfold pop. destruct (_ =? _)%nat eqn:E; [by apply evolves_fail|]. bool_hyps.
  eapply evolves_cons; [apply evolves_stack; intros HI; by apply stack_ok_tl|].
  case_match; auto with golib.
Qed.

Lemma head_explain a t :
  statementVerb (tText t) = Some Verb.Explain ->
  exists a', head a t = (a', true) /\ evolves a a' [] /\ a_explainSeen a' = true.
Proof.
  intros E. unfold head. rewrite E. eexists. split; [done|]. split; [|done].
  eapply evolves_cons; [apply evolves_saw|].
  destruct (opaque _) eqn:Eo; [|by apply evolves_explain].
  eapply evolves_cons; [apply evolves_fail; by eapply opaque_ne|]. by apply evolves_explain.
Qed.

Lemma head_verb a t v :
  statementVerb (tText t) = Some v -> v <> Verb.Explain ->
  exists a', head a t = (a', true) /\ evolves a a' [v] /\
    rg_verb (top a') = v /\ a_explainSeen a' = a_explainSeen a /\
    length (a_stack a') = S (pred (length (a_stack a))).
Proof.
  intros E Hv. unfold head. rewrite E.
  set (a1 := match opaque (tText t) with Some why => _ | None => _ end).
  assert (evolves a a1 [] /\ a_stack a1 = a_stack a /\ a_explainSeen a1 = a_explainSeen a)
    as (H1 & Hs & Hx).
  { unfold a1. destruct (opaque _) eqn:Eo; [|by auto with golib].
    split; [|done]. eapply evolves_cons; [apply evolves_saw|].
    apply evolves_fail. by eapply opaque_ne. }
  set (a2 := set_explain a1 (a_explainSeen a1) (a_analyzeSeen a1) false).
  set (a3 := match rg_kind (top a2) with regTop => _ | _ => _ end).
  set (a4 := set_top a3 _).
  assert (evolves a (set_effects a4 (a_effects a4 ++ [v])) [v]) as H4.
  { apply (evolves_cons _ a1); [done|]. apply (evolves_cons _ a2); [by apply evolves_explain|].
    apply (evolves_cons _ a3).
    { unfold a3. case_match; (apply evolves_cteFlags || apply evolves_refl). }
    apply (evolves_cons _ a4); [|apply evolves_effect].
    apply evolves_stack. intros HI. by apply stack_ok_top. }
  exists (set_effects a4 (a_effects a4 ++ [v])). split; [by destruct v|].
  split; [done|]. split; [done|]. split; [|].
  - unfold a4, a3. by case_match.
  - cbn [a_stack set_effects]. unfold a4, a3, set_top. cbn [a_stack set_stack length].
    rewrite <- Hs. case_match; simpl; by destruct (a_stack a1).
Qed.

(** The parenthesis depth a token leads to, [None] where the analysis must
    refuse: a closing parenthesis too many, or a statement that ends inside one. *)
Definition depth_step (dep : nat) (t : Token) : option nat :=
  if is_punct (B "(") t then Some (S dep)
  else if is_punct (B ")") t then match dep with O => None | S d => Some d end
  else if is_punct (B ";") t then match dep with O => Some 0 | S _ => None end
  else Some dep.

Definition opaque_word (t : Token) : bool :=
  kind_is Word t && match opaque (tText t) with Some _ => true | None => false end.

Lemma evolves_reset a : evolves a (set_top (set_stack a (bottom (a_stack a))) top_region) [].
Proof.
  eapply evolves_cons; [apply evolves_stack; intros HI; by apply stack_ok_last|].
  apply evolves_stack. intros HI. apply stack_ok_top; [done|]. unfold Inv, bottom in *. simpl in *.
  destruct (last _) as [r|]; [|done]. destruct (length_one_top [r] HI eq_refl) as (? & [= <-] & Hr).
  done.
Qed.

Lemma bottom_one l : length l = 1 -> bottom l = l.
Proof. by destruct l as [|r [|]]. Qed.

Lemma walk_punct_evolves a i txt : evolves a (walk_punct a i txt).1 [].
Proof.
  unfold walk_punct. destruct (txt =s B "("); [apply push_evolves|].
  destruct (txt =s B ")"); [apply pop_evolves|]. destruct (txt =s B ";").
  - cbn [fst]. eapply evolves_cons; [|apply evolves_cteFlags].
    destruct (length (a_stack a) =? 1)%nat eqn:E; cbn [negb].
    + bool_hyps. pose proof (evolves_reset a) as Hr. rewrite (bottom_one _ E) in Hr.
      by destruct a.
    + eapply evolves_cons; [|apply evolves_reset]. by apply evolves_fail.
  - destruct (txt =s B ","); [|apply evolves_refl]. cbn [fst].
    destruct (a_inCTEList a && _); auto with golib.
Qed.

Lemma walk_punct_depth a i t dep :
  Inv a -> tKind t = Punct -> length (a_stack a) = S dep ->
  match depth_step dep t with
  | Some d => length (a_stack (walk_punct a i (tText t)).1) = S d /\
              a_incomplete (walk_punct a i (tText t)).1 = a_incomplete a
  | None => a_incomplete (walk_punct a i (tText t)).1 <> []
  end.
Proof.
  intros HI Hk Hl. unfold depth_step, walk_punct, is_punct, kind_is. rewrite Hk.
  rewrite bool_decide_true by done. cbn [andb].
  destruct (tText t =s B "("); [simpl; by rewrite Hl|].
  destruct (tText t =s B ")").
  { cbn [fst]. unfold pop. rewrite Hl. destruct dep; cbn [Nat.eqb].
    - by apply an_fail_incomplete.
    - assert (length (tl (a_stack a)) = S dep) by (destruct (a_stack a); simpl in *; lia).
      by case_match. }
  destruct (tText t =s B ";").
  { cbn [fst]. rewrite Hl. destruct dep; cbn [Nat.eqb negb].
    - split; [|done]. simpl. destruct (a_stack a); simpl in *; lia.
    - by apply (an_fail_incomplete a). }
  destruct (tText t =s B ","); [|by cbn [fst]]. cbn [fst].
  by destruct (a_inCTEList a && _).
Qed.

(** What one iteration may append to the effects. *)
Definition effect_of (t : Token) (ev : list Verb.t) : Prop :=
  ev = [] \/ exists v, ev = [v] /\ tKind t = Word /\ statementVerb (tText t) = Some v /\
    v <> Verb.Explain.

Lemma claims_length a a' rels : claims a a' rels -> length (a_stack a') = length (a_stack a).
Proof. intros (_ & Hk & _). apply (f_equal length) in Hk. unfold kinds in Hk. by rewrite !length_map in Hk. Qed.

Lemma claims_incomplete a a' rels : claims a a' rels -> a_incomplete a' = a_incomplete a.
Proof. intros (-> & _). done. Qed.

(** The introducer branch, taken or not. *)
Lemma claim_if_spec (b : bool) a i a' j :
  a_stack a <> [] -> i < length (a_toks a) ->
  (if b then claim_relations a i else (a, i)) = (a', j) ->
  (exists rels, claims a a' rels) /\ i <= j < length (a_toks a) /\
  quiet_between (a_toks a) i j.
Proof.
  destruct b; [apply claim_relations_spec|]. intros Hne Hi [= <- <-].
  split; [exists []; apply claims_refl|]. split; [lia|]. intros n t. lia.
Qed.

Lemma head_none a t : statementVerb (tText t) = None -> head a t = (a, false).
Proof. intros E. unfold head. by rewrite E. Qed.

Lemma head_stack a t a' :
  head a t = (a', true) -> a_stack a <> [] ->
  a_toks a' = a_toks a /\ length (a_stack a') = length (a_stack a) /\
  (opaque (tText t) = None -> a_incomplete a' = a_incomplete a) /\
  exists ev, evolves a a' ev /\
    match statementVerb (tText t) with
    | Some v => ev = (if bool_decide (v = Verb.Explain) then [] else [v])
    | None => False
    end.
Proof.
  intros Eh Hne. destruct (statementVerb (tText t)) as [v|] eqn:E; cycle 1.
  { by rewrite head_none in Eh. }
  assert (opaque (tText t) = None -> a_incomplete a' = a_incomplete a) as Hop.
  { unfold head in Eh. rewrite E in Eh. intros Ho. rewrite Ho in Eh.
    destruct v; simplify_eq/=; try done; by case_match. }
  destruct (decide (v = Verb.Explain)) as [->|Hv].
  - destruct (head_explain a t E) as (a1 & E1 & He & _). rewrite E1 in Eh. simplify_eq.
    split; [apply He|]. split.
    { unfold head in E1. rewrite E in E1. simplify_eq/=. by case_match. }
    split; [done|]. by exists [].
  - destruct (head_verb a t v E Hv) as (a1 & E1 & He & _ & _ & Hl). rewrite E1 in Eh. simplify_eq.
    split; [apply He|]. split; [destruct (a_stack a); [done|]; simpl in *; lia|].
    split; [done|]. exists [v]. split; [done|]. by rewrite bool_decide_false.
Qed.

Lemma walk_step_word a i h t a' j h' dep :
  Inv a -> a_toks a !! i = Some t -> tKind t = Word -> length (a_stack a) = S dep ->
  walk_step a i h t = (a', (j, h')) ->
  (exists ev, evolves a a' ev /\ effect_of t ev) /\
  i <= j < length (a_toks a) /\ quiet_between (a_toks a) i j /\
  length (a_stack a') = S dep /\
  (opaque_word t = false -> a_incomplete a' = a_incomplete a).
Proof.
  intros HI Ht Hk Hl. pose proof (lookup_lt_Some _ _ _ Ht) as Hi.
  assert (quiet_between (a_toks a) i i) as Hq by (intros n tn; lia).
  pose proof (Inv_ne _ HI) as Hne. unfold walk_step. rewrite Hk.
  assert (effect_of t []) as He0 by (by left).
  destruct (a_expectCTEName a).
  { intros [= <- <- <-]. split; [exists []; split; [|done]|done].
    eapply evolves_cons; [apply evolves_cteNames|]. apply evolves_cteFlags. }
  destruct (tText t =s B "with").
  { intros [= <- <- <-]. split; [exists []; split; [|done]|done].
    eapply evolves_cons; [apply evolves_cteFlags|]. apply evolves_saw. }
  destruct (a_wrapper a && _).
  { intros [= <- <- <-]. split; [exists []; split; [|done]|by case_match].
    case_match; [by apply evolves_explain|apply evolves_refl]. }
  destruct (if h then head a t else (a, false)) as [a1 c] eqn:Eh. destruct c.
  - destruct h; [|done]. destruct (head_stack _ _ _ Eh Hne) as (Ht1 & Hl1 & Ho & ev & Hev & Hv).
    assert (a_stack a1 <> []) as Hne1 by (destruct (a_stack a1), (a_stack a); done).
    destruct (if relIntro _ then _ else _) as [a2 j2] eqn:Ec.
    apply claim_if_spec in Ec as ((rels & Hc) & Hj & Hqj); [|done|by rewrite Ht1].
    intros [= <- <- <-]. rewrite Ht1 in *. split; [|split; [done|split; [done|split]]].
    + exists ev. split; [rewrite <- (app_nil_r ev); eapply evolves_trans; [exact Hev|by eapply evolves_claims]|].
      destruct (statementVerb (tText t)) as [v|] eqn:Ev; [|done]. subst.
      case_bool_decide; [done|]. right. eauto.
    + rewrite (claims_length _ _ _ Hc). congruence.
    + intros Hop. rewrite (claims_incomplete _ _ _ Hc). apply Ho. unfold opaque_word, kind_is in Hop.
      rewrite Hk in Hop. simpl in Hop. by destruct (opaque _).
  - assert (a1 = a) as -> by (destruct h; [unfold head in Eh; repeat case_match; simplify_eq|]; congruence).
    destruct (relIntro (tText t)) eqn:Er.
    + destruct (claim_relations a i) as [a2 j2] eqn:Ec.
      apply (claim_relations_spec _ _ _ _ Hne Hi) in Ec as ((rels & Hc) & Hj & Hqj).
      intros [= <- <- <-]. split; [exists []; split; [by eapply evolves_claims|done]|].
      split; [done|]. split; [done|]. rewrite (claims_length _ _ _ Hc). split; [done|].
      intros _. by rewrite (claims_incomplete _ _ _ Hc).
    + intros [= <- <- <-]. split; [exists []; split; [apply evolves_refl|done]|done].
Qed.

(** What one iteration does, for every kind of token. *)
Lemma walk_step_spec a i h t a' j h' dep :
  Inv a -> a_toks a !! i = Some t -> length (a_stack a) = S dep ->
  walk_step a i h t = (a', (j, h')) ->
  (exists ev, evolves a a' ev /\ effect_of t ev) /\
  i <= j < length (a_toks a) /\ quiet_between (a_toks a) i j /\
  match depth_step dep t with
  | Some d => length (a_stack a') = S d /\
              (opaque_word t = false -> a_incomplete a' = a_incomplete a)
  | None => a_incomplete a' <> []
  end.
Proof.
  intros HI Ht Hl E. pose proof (lookup_lt_Some _ _ _ Ht) as Hi.
  assert (quiet_between (a_toks a) i i) as Hq by (intros n tn; lia).
  destruct (decide (tKind t = Word)) as [Hk|Hk].
  { destruct (walk_step_word _ _ _ _ _ _ _ _ HI Ht Hk Hl E) as (H1 & H2 & H3 & H4).
    split; [done|]. split; [done|]. split; [done|].
    unfold depth_step, is_punct, kind_is. by rewrite Hk. }
  destruct (decide (tKind t = Punct)) as [Hp|Hp].
  { unfold walk_step in E. rewrite Hp in E.
    pose proof (walk_punct_evolves a i (tText t)) as He.
    pose proof (walk_punct_depth a i t dep HI Hp Hl) as Hd.
    destruct (walk_punct a i (tText t)) as [a1 h1]. simplify_eq. cbn [fst] in *.
    split; [exists []; split; [done|by left]|]. split; [done|]. split; [done|].
    destruct (depth_step dep t); [|done]. by destruct Hd. }
  unfold walk_step in E. unfold depth_step, is_punct, kind_is.
  destruct (tKind t); try done; simplify_eq; (split; [exists []; split; [apply evolves_refl|by left]|done]).
Qed.

Lemma walk_step_inv a i h t a' j h' :
  Inv a -> a_toks a !! i = Some t -> walk_step a i h t = (a', (j, h')) ->
  (exists ev, evolves a a' ev /\ effect_of t ev) /\
  i <= j < length (a_toks a) /\ quiet_between (a_toks a) i j /\
  Inv a' /\ a_toks a' = a_toks a.
Proof.
  intros HI Ht E. pose proof (Inv_ne _ HI). destruct (length (a_stack a)) as [|dep] eqn:Hl.
  { by destruct (a_stack a). }
  destruct (walk_step_spec _ _ _ _ _ _ _ _ HI Ht Hl E) as ((ev & He & Hev) & Hj & Hq & _).
  split; [by exists ev|]. split; [done|]. split; [done|]. split; [by apply He|apply He].
Qed.

(** ** The whole walk *)

(** Rule induction over the iterations. *)
Lemma walk_loop_ind (P : analyzer -> Prop) toks :
  (forall a i h t a' j h', Inv a -> P a -> a_toks a = toks -> toks !! i = Some t ->
     walk_step a i h t = (a', (j, h')) -> P a') ->
  forall fuel a i h, Inv a -> P a -> a_toks a = toks ->
  Inv (walk_loop fuel a i h) /\ P (walk_loop fuel a i h) /\
  a_toks (walk_loop fuel a i h) = toks.
Proof.
  intros Hstep fuel. induction fuel as [|fuel IH]; intros a i h HI HP Ht; [done|].
  cbn [walk_loop]. rewrite Ht. destruct (toks !! i) as [t|] eqn:Et; [|done].
  destruct (walk_step a i h t) as [a' [j h']] eqn:E.
  assert (a_toks a !! i = Some t) as Et' by (by rewrite Ht).
  destruct (walk_step_inv _ _ _ _ _ _ _ HI Et' E) as (_ & _ & _ & HI' & Ht').
  apply IH; [done|by apply (Hstep a i h t a' j h')|congruence].
Qed.

(** [fuel] iterations suffice from [i]: more change nothing. *)
Lemma walk_loop_fuel f1 f2 a i h :
  Inv a -> length (a_toks a) - i <= f1 -> length (a_toks a) - i <= f2 ->
  walk_loop f1 a i h = walk_loop f2 a i h.
Proof.
  revert f2 a i h. induction f1 as [|f1 IH]; intros f2 a i h HI H1 H2.
  { destruct f2; [done|]. cbn [walk_loop]. by rewrite lookup_ge_None_2 by lia. }
  cbn [walk_loop]. destruct (a_toks a !! i) as [t|] eqn:Et; cycle 1.
  { destruct f2; [done|]. cbn [walk_loop]. by rewrite Et. }
  destruct (walk_step a i h t) as [a' [j h']] eqn:E. pose proof (lookup_lt_Some _ _ _ Et).
  destruct (walk_step_inv _ _ _ _ _ _ _ HI Et E) as (_ & Hj & _ & HI' & Ht').
  destruct f2 as [|f2]; [lia|]. cbn [walk_loop]. rewrite Et, E.
  apply IH; [done|rewrite Ht'; lia..].
Qed.

Lemma walk_loop_evolves fuel a i h :
  Inv a ->
  exists ev, evolves a (walk_loop fuel a i h) ev /\
    Forall (fun v => exists t, t ∈ a_toks a /\ tKind t = Word /\
      statementVerb (tText t) = Some v /\ v <> Verb.Explain) ev.
Proof.
  revert a i h. induction fuel as [|fuel IH]; intros a i h HI.
  { exists []. split; [apply evolves_refl|done]. }
  cbn [walk_loop]. destruct (a_toks a !! i) as [t|] eqn:Et; cycle 1.
  { exists []. split; [apply evolves_refl|done]. }
  destruct (walk_step a i h t) as [a' [j h']] eqn:E.
  destruct (walk_step_inv _ _ _ _ _ _ _ HI Et E) as ((ev & He & Hev) & _ & _ & HI' & Ht').
  destruct (IH a' (j + 1) h' HI') as (ev' & He' & Hall). rewrite Ht' in Hall.
  exists (ev ++ ev'). split; [by eapply evolves_trans|]. apply Forall_app. split; [|done].
  destruct Hev as [->|(v & -> & Hk & Hv & Hx)]; [done|]. apply Forall_singleton.
  exists t. split; [by eapply list_elem_of_lookup_2|done].
Qed.

(** A structural token is never swallowed by a relation list: the walk visits it. *)
Lemma walk_reach (P : analyzer -> Prop) toks p t0 :
  (forall a i h t a' j h', Inv a -> P a -> a_toks a = toks -> toks !! i = Some t ->
     walk_step a i h t = (a', (j, h')) -> P a') ->
  toks !! p = Some t0 -> structural t0 = true ->
  forall fuel a i h, Inv a -> P a -> a_toks a = toks -> i <= p -> length toks - i <= fuel ->
  exists fuel' a' h', Inv a' /\ P a' /\ a_toks a' = toks /\ length toks - p <= fuel' /\
    walk_loop fuel a i h = walk_loop fuel' a' p h'.
Proof.
  intros Hstep Hp Hs fuel. pose proof (lookup_lt_Some _ _ _ Hp) as Hlt.
  induction fuel as [|fuel IH]; intros a i h HI HP Ht Hi Hf; [lia|].
  destruct (decide (i = p)) as [->|Hne]; [by exists (S fuel), a, h|].
  cbn [walk_loop]. rewrite Ht. destruct (toks !! i) as [t|] eqn:Et.
  2: { apply lookup_ge_None_1 in Et. lia. }
  destruct (walk_step a i h t) as [a' [j h']] eqn:E.
  assert (a_toks a !! i = Some t) as Et' by (by rewrite Ht).
  destruct (walk_step_inv _ _ _ _ _ _ _ HI Et' E) as (_ & Hj & Hq & HI' & Ht').
  assert (j < p) as Hjp.
  { destruct (decide (j < p)); [done|]. rewrite Ht in Hq.
    rewrite (Hq p t0) in Hs; [done|lia|done]. }
  apply IH; [done|by apply (Hstep a i h t a' j h')|congruence|lia..].
Qed.

(** ** Balance *)

Fixpoint balanced (dep : nat) (l : list Token) : bool :=
  match l with
  | [] => (dep =? 0)%nat
  | t :: r => match depth_step dep t with Some d => balanced d r | None => false end
  end.

Lemma structural_depth dep t : structural t = false -> depth_step dep t = Some dep.
Proof.
  unfold structural, depth_step. intros H. apply orb_false_iff in H as [H H3].
  apply orb_false_iff in H as [H1 H2]. by rewrite H1, H2, H3.
Qed.

Lemma balanced_quiet toks i j dep :
  quiet_between toks i j -> i <= j ->
  balanced dep (drop (i + 1) toks) = balanced dep (drop (j + 1) toks).
Proof.
  intros Hq Hij. induction Hij as [|j Hij IH]; [done|]. rewrite IH.
  - replace (S j + 1) with (S (j + 1)) by lia.
    destruct (toks !! (j + 1)) as [t|] eqn:Et.
    + erewrite (drop_S toks t (j + 1)) by done. cbn [balanced].
      rewrite structural_depth; [done|]. apply (Hq (j + 1)); [lia|done].
    + apply lookup_ge_None_1 in Et. by rewrite !drop_ge by lia.
  - intros n t Hn. apply Hq. lia.
Qed.

Lemma walk_loop_balance fuel a i h dep :
  Inv a -> length (a_stack a) = S dep -> length (a_toks a) - i <= fuel ->
  let a' := walk_loop fuel a i h in
  (a_incomplete a' = [] -> length (a_stack a') = 1 ->
   balanced dep (drop i (a_toks a)) = true) /\
  (a_incomplete a = [] -> forallb (fun t => negb (opaque_word t)) (drop i (a_toks a)) = true ->
   balanced dep (drop i (a_toks a)) = true ->
   a_incomplete a' = [] /\ length (a_stack a') = 1).
Proof.
  revert a i h dep. induction fuel as [|fuel IH]; intros a i h dep HI Hl Hf.
  { simpl. rewrite drop_ge by lia. simpl. rewrite Nat.eqb_eq. split; intros; [lia|split; [done|lia]]. }
  cbn [walk_loop]. destruct (a_toks a !! i) as [t|] eqn:Et; cycle 1.
  { apply lookup_ge_None_1 in Et. rewrite drop_ge by lia. simpl. rewrite Nat.eqb_eq.
    split; intros; [lia|split; [done|lia]]. }
  destruct (walk_step a i h t) as [a1 [j h']] eqn:E. erewrite (drop_S _ _ _ Et).
  destruct (walk_step_inv _ _ _ _ _ _ _ HI Et E) as (_ & _ & _ & HI' & Ht').
  destruct (walk_step_spec _ _ _ _ _ _ _ _ HI Et Hl E) as (_ & Hj & Hq & Hd).
  cbn [balanced forallb]. destruct (depth_step dep t) as [d|] eqn:Ed.
  - destruct Hd as [Hd1 Hd2]. destruct (IH a1 (j + 1) h' d HI' Hd1) as [IH1 IH2]; [rewrite Ht'; lia|].
    rewrite Ht' in *. rewrite <- (balanced_quiet _ i j d Hq) in IH1, IH2 by lia.
    replace (i + 1) with (S i) in * by lia. split; [done|]. intros Hi0 Ho Hb. bool_hyps.
    apply IH2; [by rewrite Hd2| |done].
    replace (drop (j + 1) (a_toks a)) with (drop (j - i) (drop (S i) (a_toks a)))
      by (rewrite drop_drop; f_equal; lia).
    rewrite <- (take_drop (j - i) (drop (S i) (a_toks a))) in H0.
    rewrite forallb_app in H0. by bool_hyps.
  - split; [|done]. intros Hi0. destruct (walk_loop_evolves fuel a1 (j + 1) h' HI') as (ev & He & _).
    by apply (ev_incomplete _ _ _ He) in Hd.
Qed.

(** ** The EXPLAIN flags *)

(** Only a bare EXPLAIN sets [explainSeen] and [wrapper]. *)
Definition explain_word (t : Token) : bool :=
  kind_is Word t && (tText t =s B "explain").

(** Only a bare ANALYZE sets [analyzeSeen]. *)
Definition analyze_word (t : Token) : bool :=
  kind_is Word t && (tText t =s B "analyze").

Definition flags (a : analyzer) : bool * bool * bool :=
  (a_explainSeen a, a_analyzeSeen a, a_wrapper a).

Lemma claims_flags a a' rels : claims a a' rels -> flags a' = flags a.
Proof. intros (-> & _). done. Qed.

Lemma walk_punct_flags a i txt : flags (walk_punct a i txt).1 = flags a.
Proof.
  unfold walk_punct. destruct (txt =s B "("); [done|].
  destruct (txt =s B ")"); [unfold pop; simpl; by repeat case_match|].
  destruct (txt =s B ";"); [simpl; by repeat case_match|].
  destruct (txt =s B ","); [simpl; by repeat case_match|done].
Qed.

Lemma statementVerb_explain w : statementVerb w = Some Verb.Explain -> w = B "explain".
Proof.
  intros E%lookup_word_In. simpl in E. repeat destruct E as [E|E]; simplify_eq; done.
Qed.

Lemma head_flags a t :
  explain_word t = false -> kind_is Word t = true ->
  a_explainSeen (head a t).1 = a_explainSeen a /\
  a_analyzeSeen (head a t).1 = a_analyzeSeen a /\
  (a_wrapper a = false -> a_wrapper (head a t).1 = false).
Proof.
  unfold explain_word. intros He Hk. rewrite Hk in He. simpl in He. unfold head.
  destruct (statementVerb (tText t)) as [v|] eqn:Ev; [|done].
  destruct (decide (v = Verb.Explain)) as [->|Hv].
  { apply statementVerb_explain in Ev. by rewrite Ev in He. }
  destruct (opaque (tText t)), v; try done; simpl; by case_match.
Qed.

Lemma walk_step_flags a i h t a' j h' :
  Inv a -> a_toks a !! i = Some t -> walk_step a i h t = (a', (j, h')) ->
  (analyze_word t = false -> a_analyzeSeen a' = a_analyzeSeen a) /\
  (explain_word t = false -> a_wrapper a = false ->
   a_explainSeen a' = a_explainSeen a /\ a_wrapper a' = false /\
   a_analyzeSeen a' = a_analyzeSeen a).
Proof.
  intros HI Ht E. pose proof (lookup_lt_Some _ _ _ Ht) as Hi. pose proof (Inv_ne _ HI) as Hne.
  unfold walk_step in E. destruct (tKind t) eqn:Hk; try by simplify_eq.
  2: { pose proof (walk_punct_flags a i (tText t)) as Hf.
       destruct (walk_punct a i (tText t)) as [a1 h1]. injection E as <- <- <-.
       unfold flags in Hf. cbn [fst] in Hf. injection Hf as Hx Hy Hz. rewrite Hx, Hy, Hz. done. }
  assert (kind_is Word t = true) as Hw by (unfold kind_is; by rewrite Hk).
  unfold analyze_word. rewrite Hw. cbn [andb].
  destruct (a_expectCTEName a); [by simplify_eq|].
  destruct (tText t =s B "with"); [by simplify_eq|].
  destruct (a_wrapper a && wrapperModifier (tText t)) eqn:Ew.
  { bool_hyps. split; [|congruence]. intros Hn. rewrite Hn in E. injection E as <- _ _. done. }
  assert (a_analyzeSeen (if h then head a t else (a, false)).1 = a_analyzeSeen a) as Hah.
  { destruct h; [|done]. unfold head. destruct (statementVerb _) as [v|]; [|done].
    destruct (opaque _), v; try done; simpl; by repeat case_match. }
  pose proof (head_flags a t) as Hf.
  destruct (if h then head a t else (a, false)) as [a1 c] eqn:Eh. cbn [fst] in Hah.
  assert (a_stack a1 <> [] /\ a_toks a1 = a_toks a) as [Hne1 Ht1].
  { destruct h; [|by simplify_eq]. destruct c.
    - destruct (head_stack _ _ _ Eh Hne) as (? & Hl & _). split; [|done].
      by destruct (a_stack a1), (a_stack a).
    - unfold head in Eh. repeat case_match; by simplify_eq. }
  assert (flags a' = flags a1) as Hfl.
  { destruct c.
    - destruct (if relIntro _ then _ else _) as [a2 j2] eqn:Ec. simplify_eq.
      apply claim_if_spec in Ec as ((rels & Hc) & _); [|done|by rewrite Ht1].
      by eapply claims_flags.
    - destruct (relIntro _); [|by simplify_eq].
      destruct (claim_relations a1 i) as [a2 j2] eqn:Ec. simplify_eq.
      apply claim_relations_spec in Ec as ((rels & Hc) & _); [|done|by rewrite Ht1].
      by eapply claims_flags. }
  unfold flags in Hfl. injection Hfl as Hx' Hy' Hz'. rewrite Hx', Hy', Hz'. split; [done|].
  intros Hx Hwr. destruct h; [|by simplify_eq]. rewrite Eh in Hf. cbn [fst] in Hf.
  destruct (Hf Hx Hw) as (? & ? & ?). auto.
Qed.
