(* ===== verification/AnalyzeProps.v ===== *)
(** * What the effect analysis promises

    The walk terminates without running off its stack; what it reports as an
    effect was written as a bare keyword; every statement verb in head position
    is reported, whether the statement is first, follows a separator or is the
    body of a common table expression; an unbalanced or unfinished text is
    never reported complete. *)

From S2P Require Import Prelude GoStrings Scan Keywords Analyze AnalyzeFacts.

(** ** The relation list *)

Lemma add_rel_names rels rel :
  map rName (add_rel rels rel) =
  if bool_decide (rName rel ∈ map rName rels) then map rName rels
  else map rName rels ++ [rName rel].
Proof.
  induction rels as [|r rels IH]; simpl; [done|].
  destruct (rName r =s rName rel) eqn:E; bool_hyps.
  - rewrite bool_decide_true by (rewrite E; left). by destruct (rAccess rel).
  - simpl. rewrite IH. do 2 case_bool_decide; try done.
    + exfalso. match goal with H : ¬ _ |- _ => apply H end. by right.
    + exfalso. match goal with H : _ ∈ _ :: _ |- _ => apply elem_of_cons in H as [|] end; done.
Qed.

Lemma add_rel_NoDup rels rel :
  NoDup (map rName rels) -> NoDup (map rName (add_rel rels rel)).
Proof.
  intros Hn. rewrite add_rel_names. case_bool_decide; [done|].
  apply NoDup_app. split; [done|]. split; [|apply NoDup_singleton].
  intros x Hx Hx'. apply list_elem_of_singleton in Hx' as ->. done.
Qed.

Lemma add_rel_In_names rels rel n :
  n ∈ map rName (add_rel rels rel) <-> n ∈ map rName rels \/ n = rName rel.
Proof.
  rewrite add_rel_names. case_bool_decide as Hd.
  - split; [by left|]. by intros [?| ->].
  - by rewrite elem_of_app, list_elem_of_singleton.
Qed.

Lemma add_rel_write rels rel n :
  {| rName := n; rAccess := Write |} ∈ add_rel rels rel <->
  {| rName := n; rAccess := Write |} ∈ rels \/ rel = {| rName := n; rAccess := Write |}.
Proof.
  induction rels as [|r rels IH]; simpl.
  { rewrite list_elem_of_singleton, elem_of_nil. naive_solver. }
  destruct (rName r =s rName rel) eqn:E; bool_hyps.
  - destruct rel as [m []], r as [m' acc]; simpl in *; subst.
    + rewrite elem_of_cons. naive_solver.
    + rewrite !elem_of_cons. naive_solver.
  - rewrite !elem_of_cons, IH. naive_solver.
Qed.

Lemma fold_add_rel rels out :
  NoDup (map rName out) ->
  let out' := fold_left add_rel rels out in
  NoDup (map rName out') /\
  (forall n, {| rName := n; rAccess := Write |} ∈ out' <->
     {| rName := n; rAccess := Write |} ∈ out \/ {| rName := n; rAccess := Write |} ∈ rels) /\
  (forall n, n ∈ map rName out' <-> n ∈ map rName out \/ n ∈ map rName rels).
Proof.
  revert out. induction rels as [|r rels IH]; intros out Hn; simpl.
  { split; [done|]. split; intros n; rewrite elem_of_nil; naive_solver. }
  destruct (IH (add_rel out r) (add_rel_NoDup _ _ Hn)) as (H1 & H2 & H3).
  split; [done|]. split; intros n.
  - rewrite H2, add_rel_write, elem_of_cons. naive_solver.
  - rewrite H3, add_rel_In_names, elem_of_cons. naive_solver.
Qed.

(** ** Severity *)

Lemma severity_fold l w :
  let m := fold_left (fun worst e =>
    if (Verb.severity worst <? Verb.severity e)%Z then e else worst) l w in
  m ∈ w :: l /\ (forall e, e ∈ w :: l -> (Verb.severity e <= Verb.severity m)%Z).
Proof.
  revert w. induction l as [|e l IH]; intros w; simpl.
  { split; [left|]. intros e He. apply list_elem_of_singleton in He as ->. lia. }
  destruct (IH (if (Verb.severity w <? Verb.severity e)%Z then e else w)) as [H1 H2].
  split.
  - destruct (_ <? _)%Z; set_solver.
  - intros x Hx. assert (Verb.severity w <= Verb.severity
        (if (Verb.severity w <? Verb.severity e)%Z then e else w) /\
      Verb.severity e <= Verb.severity
        (if (Verb.severity w <? Verb.severity e)%Z then e else w))%Z as [Hw He].
    { destruct (_ <? _)%Z eqn:E; bool_hyps; lia. }
    pose proof (H2 _ (list_elem_of_here _ _)) as Hm.
    apply elem_of_cons in Hx as [->|Hx]; [lia|].
    apply elem_of_cons in Hx as [->|Hx]; [lia|]. apply H2. by right.
Qed.

(** ** Statement heads *)

Lemma new_analyzer_inv toks bad : Inv (new_analyzer toks bad).
Proof. by apply stack_ok_single. Qed.

(** A bare word that begins a statement of verb [v]. *)
Definition head_word (t : Token) (v : Verb.t) : Prop :=
  tKind t = Word /\ statementVerb (tText t) = Some v /\ v <> Verb.Explain /\
  tText t <> B "with".

(** A statement verb met in head position is appended to the effects. *)
Lemma walk_step_head a i t v a' j h' :
  Inv a -> a_toks a !! i = Some t -> head_word t v ->
  a_expectCTEName a = false -> a_wrapper a && wrapperModifier (tText t) = false ->
  walk_step a i true t = (a', (j, h')) -> evolves a a' [v].
Proof.
  intros HI Ht (Hk & Hv & Hx & Hw) He Hwr. pose proof (lookup_lt_Some _ _ _ Ht).
  unfold walk_step. rewrite Hk, He, Hwr.
  replace (tText t =s B "with") with false by (symmetry; by apply bool_decide_eq_false).
  destruct (head_verb a t v Hv Hx) as (a1 & Eh & Hev & _ & _ & Hl). rewrite Eh.
  destruct (if relIntro _ then _ else _) as [a2 j2] eqn:Ec. intros [= <- <- <-].
  apply claim_if_spec in Ec as ((rels & Hc) & _).
  - rewrite <- (app_nil_r [v]). eapply evolves_trans; [exact Hev|by eapply evolves_claims].
  - by destruct (a_stack a1).
  - by rewrite (ev_toks _ _ _ Hev).
Qed.

Lemma walk_loop_head fuel a i t v :
  Inv a -> a_toks a !! i = Some t -> head_word t v -> 0 < fuel ->
  a_expectCTEName a = false -> a_wrapper a && wrapperModifier (tText t) = false ->
  exists post, a_effects (walk_loop fuel a i true) = a_effects a ++ v :: post.
Proof.
  intros HI Ht Hh Hf He Hw. destruct fuel as [|fuel]; [lia|]. cbn [walk_loop]. rewrite Ht.
  destruct (walk_step a i true t) as [a' [j h']] eqn:E.
  pose proof (walk_step_head _ _ _ _ _ _ _ HI Ht Hh He Hw E) as Hev.
  destruct (walk_loop_evolves fuel a' (j + 1) h') as (ev & Hev' & _).
  { by apply (ev_inv _ _ _ Hev). }
  exists ev.
  rewrite (ev_effects _ _ _ Hev'), (ev_effects _ _ _ Hev). by rewrite <- app_assoc.
Qed.

Lemma walk_effects a : a_effects (walk a) = a_effects (walk_loop (length (a_toks a)) a 0 true).
Proof. unfold walk. by case_match. Qed.

Lemma walk_flags a : flags (walk a) = flags (walk_loop (length (a_toks a)) a 0 true).
Proof. unfold walk. by case_match. Qed.

(** Without a bare EXPLAIN the EXPLAIN flags stay down. *)
Lemma no_explain_step toks a i h t a' j h' :
  forallb (fun t => negb (explain_word t)) toks = true ->
  Inv a -> a_explainSeen a = false /\ a_wrapper a = false -> a_toks a = toks ->
  toks !! i = Some t -> walk_step a i h t = (a', (j, h')) ->
  a_explainSeen a' = false /\ a_wrapper a' = false.
Proof.
  intros Hn HI [Hx Hw] <- Ht E. destruct (walk_step_flags _ _ _ _ _ _ _ HI Ht E) as [_ Hf].
  rewrite forallb_forall in Hn. specialize (Hn t). rewrite negb_true_iff in Hn.
  destruct Hf as (H1 & H2 & _); [|done|split; congruence].
  apply Hn. apply list_elem_of_In. by eapply list_elem_of_lookup_2.
Qed.

Lemma no_explain_walk toks bad :
  forallb (fun t => negb (explain_word t)) toks = true ->
  a_explainSeen (walk (new_analyzer toks bad)) = false.
Proof.
  intros Hn. pose proof (walk_flags (new_analyzer toks bad)) as Hf.
  destruct (walk_loop_ind (fun a => a_explainSeen a = false /\ a_wrapper a = false) toks
    (fun a i h t a' j h' => no_explain_step toks a i h t a' j h' Hn)
    (length toks) (new_analyzer toks bad) 0 true) as (_ & [Hx _] & _);
    [apply new_analyzer_inv|done..|].
  unfold flags in Hf. simpl in Hf. by injection Hf as -> _ _.
Qed.

Section Props.
Context `{GoUnicode}.

Lemma Analyze_effects sql d v :
  v ∈ anEffects (Analyze sql d) ->
  v ∈ a_effects (walk (new_analyzer (scan sql d).1 (scan sql d).2)).
Proof.
  unfold Analyze. destruct (scan sql d) as [toks bad]. unfold result. cbn [anEffects fst snd].
  case_match; [|done]. by rewrite elem_of_nil.
Qed.

(** The position of a statement head: the first token, or the one behind a
    separator. *)
Definition statement_start (toks : list Token) (i : nat) : Prop :=
  i = 0 \/ exists p s, i = p + 1 /\ toks !! p = Some s /\ is_punct (B ";") s = true.

Lemma head_reached toks bad i t v :
  forallb (fun t => negb (explain_word t)) toks = true ->
  statement_start toks i -> toks !! i = Some t -> head_word t v ->
  exists pre post, a_effects (walk (new_analyzer toks bad)) = pre ++ v :: post /\
    (i = 0 -> pre = []).
Proof.
  intros Hn Hst Ht Hh. rewrite walk_effects. simpl a_toks.
  pose proof (lookup_lt_Some _ _ _ Ht) as Hlt.
  destruct Hst as [->|(p & s & -> & Hp & Hs)].
  { destruct (walk_loop_head (length toks) (new_analyzer toks bad) 0 t v)
      as (post & ->); [apply new_analyzer_inv|done|done|lia|done|done|].
    exists [], post. done. }
  assert (structural s = true) as Hss by (unfold structural; by rewrite Hs, orb_true_r).
  destruct (walk_reach (fun a => a_explainSeen a = false /\ a_wrapper a = false) toks p s
    (fun a i h t a' j h' => no_explain_step toks a i h t a' j h' Hn) Hp Hss
    (length toks) (new_analyzer toks bad) 0 true) as (f & a & h & HI & [Hx Hw] & Hat & Hf & ->);
    [apply new_analyzer_inv|done|done|lia|lia|].
  destruct f as [|f]; [lia|]. cbn [walk_loop]. rewrite Hat, Hp.
  unfold is_punct, kind_is in Hs. bool_hyps. apply bool_decide_eq_true in H0.
  assert (a_toks a !! p = Some s) as Hps by (by rewrite Hat).
  destruct (walk_step a p h s) as [a' [j h']] eqn:E.
  pose proof E as E'. unfold walk_step in E'. rewrite H0 in E'.
  unfold walk_punct in E'. rewrite H1 in E'. cbn -[walk_loop set_top set_stack bottom] in E'.
  injection E' as Ea <- <-.
  destruct (walk_step_inv _ _ _ _ _ _ _ HI Hps E) as (_ & _ & _ & HI' & Hat').
  destruct (no_explain_step toks a p h s a' p true Hn HI (conj Hx Hw) Hat Hp E) as [_ Hw'].
  destruct (walk_loop_head f a' (p + 1) t v) as (post & ->);
    [done|by rewrite Hat', Hat|done|lia|by rewrite <- Ea|by rewrite Hw'|].
  exists (a_effects a'), post. split; [done|lia].
Qed.
(** The walk over the tokens terminates and is memory safe: one iteration
    per token suffices (more change nothing), and at the end, as at every
    step, the region stack is non-empty with its top-level region at the
    bottom, so no [a.top()] or [a.stack[:1]] indexes out of range. *)
Theorem walk_terminates_safely toks bad fuel :
  length toks <= fuel ->
  walk_loop fuel (new_analyzer toks bad) 0 true =
    walk_loop (length toks) (new_analyzer toks bad) 0 true /\
  Inv (walk_loop fuel (new_analyzer toks bad) 0 true) /\
  (forall a i h t, Inv a -> a_toks a !! i = Some t ->
     Inv (walk_step a i h t).1 /\ i <= (walk_step a i h t).2.1 < length (a_toks a)).
Proof.
  intros Hf. pose proof (new_analyzer_inv toks bad) as HI.
  split; [apply walk_loop_fuel; [done|simpl; lia..]|]. split.
  - by destruct (walk_loop_evolves fuel _ 0 true HI) as (ev & He & _); apply (ev_inv _ _ _ He).
  - intros a i h t Ha Ht. destruct (walk_step a i h t) as [a' [j h']] eqn:E.
    by destruct (walk_step_inv _ _ _ _ _ _ _ Ha Ht E) as (_ & Hj & _ & HI' & _).
Qed.

(** No effect is invented: every verb the analysis reports was written in
    the text as a bare keyword, never inside a literal, a quoted identifier
    or a comment, and is not EXPLAIN. *)
Theorem effects_come_from_keywords sql d v :
  v ∈ anEffects (Analyze sql d) ->
  exists t, t ∈ (scan sql d).1 /\ tKind t = Word /\
    statementVerb (tText t) = Some v /\ v <> Verb.Explain.
Proof.
  intros Hv%Analyze_effects. rewrite walk_effects in Hv. simpl a_toks in Hv.
  destruct (walk_loop_evolves (length (scan sql d).1)
    (new_analyzer (scan sql d).1 (scan sql d).2) 0 true) as (ev & He & Hall);
    [apply new_analyzer_inv|].
  rewrite (ev_effects _ _ _ He) in Hv. simpl in Hv, Hall. rewrite Forall_forall in Hall. by apply Hall.
Qed.

(** No statement of a batch is missed: in a text without a bare EXPLAIN,
    every statement verb that opens the text or follows a separator is among
    the reported effects, wherever the separator stands, and the verb that
    opens the text is the reported verb. *)
Theorem statement_verbs_are_effects sql d i t v :
  forallb (fun t => negb (explain_word t)) (scan sql d).1 = true ->
  statement_start (scan sql d).1 i -> (scan sql d).1 !! i = Some t -> head_word t v ->
  v ∈ anEffects (Analyze sql d) /\ (i = 0 -> anVerb (Analyze sql d) = v).
Proof.
  intros Hn Hst Ht Hh. unfold Analyze. destruct (scan sql d) as [toks bad]. cbn [fst] in *.
  destruct (head_reached toks bad i t v Hn Hst Ht Hh) as (pre & post & E & Hp).
  unfold result. rewrite (no_explain_walk toks bad Hn), E. cbn [andb anEffects anVerb].
  split; [apply elem_of_app; right; left|]. intros Hi. by rewrite (Hp Hi).
Qed.

Lemma complete_iff_understood sql d :
  (anComplete (Analyze sql d) = true ->
     (scan sql d).2 = [] /\ balanced 0 (scan sql d).1 = true) /\
  ((scan sql d).2 = [] -> balanced 0 (scan sql d).1 = true ->
     forallb (fun t => negb (opaque_word t)) (scan sql d).1 = true ->
     anComplete (Analyze sql d) = true).
Proof.
  unfold Analyze, result. destruct (scan sql d) as [toks bad]. cbn [fst snd anComplete].
  pose proof (new_analyzer_inv toks bad) as HI. rewrite seqb_eq. unfold walk.
  destruct (walk_loop_balance (length toks) (new_analyzer toks bad) 0 true 0 HI eq_refl)
    as [Hb1 Hb2]; [simpl; lia|]. cbn [a_toks new_analyzer] in *. rewrite drop_0 in *.
  destruct (walk_loop_evolves (length toks) (new_analyzer toks bad) 0 true HI) as (ev & He & _).
  pose proof (ev_incomplete _ _ _ He) as Hinc. simpl in Hinc.
  set (a' := walk_loop _ _ 0 true) in *. split.
  - destruct (length (a_stack a') =? 1)%nat eqn:El; cbn [negb].
    + bool_hyps. intros Ha. split; [|by apply Hb1].
      destruct (decide (bad = [])) as [|Hbad]; [done|]. by destruct (Hinc Hbad).
    + intros Ha. by apply (an_fail_incomplete a' (B "unbalanced parentheses")) in Ha.
  - intros -> Hbal Hop. destruct (Hb2 eq_refl Hop Hbal) as [Hi Hl]. by rewrite Hl.
Qed.

(** [Complete] fails closed: a text is reported complete only if the
    scanner finished every construct and the parentheses balance within each
    statement; conversely such a text is reported complete unless it invokes
    code whose effect is decided at run time. *)
Theorem complete_means_understood sql d :
  (anComplete (Analyze sql d) = true ->
     (scan sql d).2 = [] /\ balanced 0 (scan sql d).1 = true) /\
  ((scan sql d).2 = [] -> balanced 0 (scan sql d).1 = true ->
     forallb (fun t => negb (opaque_word t)) (scan sql d).1 = true ->
     anComplete (Analyze sql d) = true).
Proof. apply complete_iff_understood. Qed.

(** The body of a common table expression is analysed as a statement:
    whatever the CTE is called, a verb that opens its body is reported as an
    effect, so a data-modifying CTE cannot hide behind an outer SELECT. *)
Theorem cte_body_verb_is_effect sql d name t v rest :
  (scan sql d).1 = {| tKind := Word; tText := B "with" |} ::
    {| tKind := Word; tText := name |} :: {| tKind := Word; tText := B "as" |} ::
    {| tKind := Punct; tText := B "(" |} :: t :: rest ->
  forallb (fun t => negb (explain_word t)) (scan sql d).1 = true -> head_word t v ->
  v ∈ anEffects (Analyze sql d).
Proof.
  intros Hs Hn Hh. unfold Analyze. destruct (scan sql d) as [toks bad]. cbn [fst] in *.
  unfold result. rewrite (no_explain_walk toks bad Hn). cbn [andb anEffects].
  rewrite walk_effects. cbn [a_toks new_analyzer]. rewrite Hs. cbn [length].
  set (T := _ :: _ :: _ :: _ :: t :: rest) in *. set (n := length rest).
  pose (a4 := {| a_toks := T;
    a_stack := [{| rg_kind := regCTE; rg_verb := Verb.Unknown; rg_firstTarget := false |}; top_region];
    a_effects := []; a_rels := []; a_cteNames := [name]; a_inCTEList := true;
    a_expectCTEName := false; a_explainSeen := false; a_analyzeSeen := false;
    a_wrapper := false; a_sawStatement := true; a_incomplete := bad |}).
  assert (walk_loop (S (S (S (S (S n))))) (new_analyzer T bad) 0 true =
    walk_loop (S n) a4 4 true) as ->.
  { cbn [walk_loop a_toks new_analyzer lookup list_lookup T]. reflexivity. }
  destruct (walk_loop_head (S n) a4 4 t v) as (post & ->);
    [|done|done|lia|done|done|apply elem_of_app; right; left].
  apply stack_ok_cons; [done|by apply stack_ok_single].
Qed.

(** EXPLAIN plans and does not execute: a text that opens with a bare
    EXPLAIN and has no bare ANALYZE is reported as an explain with no effect
    at all.  The quantification is over the rest of the text: a second
    statement behind a separator is covered by the same flag and reported
    with no effect either. *)
Theorem explain_plans_only sql d rest :
  (scan sql d).1 = {| tKind := Word; tText := B "explain" |} :: rest ->
  forallb (fun t => negb (analyze_word t)) rest = true ->
  anVerb (Analyze sql d) = Verb.Explain /\ anEffects (Analyze sql d) = [] /\
  Writes (Analyze sql d) = false.
Proof.
  intros Hs Hn. unfold Analyze. destruct (scan sql d) as [toks bad]. cbn [fst] in *. subst toks.
  set (T := _ :: rest). pose proof (new_analyzer_inv T bad) as HI.
  assert (flags (walk (new_analyzer T bad)) = (true, false, a_wrapper (walk (new_analyzer T bad))))
    as Hf.
  { rewrite walk_flags. set (n := length (a_toks (new_analyzer T bad))).
    assert (a_analyzeSeen (walk_loop n (new_analyzer T bad) 0 true) = false) as Ha.
    { apply (walk_loop_ind (fun a => a_analyzeSeen a = false) T); [|done..].
      intros a i h t a' j h' Ha HP HT Ht E.
      rewrite (proj1 (walk_step_flags _ _ _ _ _ _ _ Ha ltac:(rewrite HT; exact Ht) E)); [done|].
      rewrite forallb_forall in Hn. apply list_elem_of_lookup_2 in Ht.
      apply elem_of_cons in Ht as [->|Ht]; [done|].
      apply negb_true_iff, Hn. by apply list_elem_of_In. }
    assert (a_explainSeen (walk_loop n (new_analyzer T bad) 0 true) = true) as Hx.
    { unfold n. cbn [a_toks new_analyzer T length walk_loop lookup list_lookup].
      destruct (walk_step (new_analyzer T bad) 0 true {| tKind := Word; tText := B "explain" |})
        as [a' [j h']] eqn:E.
      destruct (walk_step_inv (new_analyzer T bad) 0 true _ _ _ _ HI eq_refl E)
        as (_ & _ & _ & HI' & _).
      assert (a_explainSeen a' = true) as Hx by (vm_compute in E; by injection E as <- _ _).
      destruct (walk_loop_evolves (length rest) a' (j + 1) h' HI') as (ev & He & _).
      by apply (ev_explain _ _ _ He). }
    unfold flags. rewrite Ha, Hx. f_equal. unfold walk. by case_match. }
  unfold flags in Hf. apply (f_equal fst) in Hf. cbn [fst] in Hf.
  unfold result, Writes. destruct (a_explainSeen _), (a_analyzeSeen _); try discriminate Hf.
  done.
Qed.

(** EXPLAIN ANALYZE executes: the verb it wraps is reported as an effect. *)
Theorem explain_analyze_executes sql d t v rest :
  (scan sql d).1 = {| tKind := Word; tText := B "explain" |} ::
    {| tKind := Word; tText := B "analyze" |} :: t :: rest ->
  head_word t v -> wrapperModifier (tText t) = false ->
  v ∈ anEffects (Analyze sql d).
Proof.
  intros Hs Hh Hm. unfold Analyze. destruct (scan sql d) as [toks bad]. cbn [fst] in *. subst.
  set (T := _ :: _ :: t :: rest). set (n := length rest).
  pose (a2 := {| a_toks := T; a_stack := [top_region]; a_effects := []; a_rels := [];
    a_cteNames := []; a_inCTEList := false; a_expectCTEName := false;
    a_explainSeen := true; a_analyzeSeen := true; a_wrapper := true;
    a_sawStatement := true; a_incomplete := bad |}).
  assert (Inv a2) as HI2 by (by apply stack_ok_single).
  assert (walk_loop (S (S (S n))) (new_analyzer T bad) 0 true = walk_loop (S n) a2 2 true) as Hw.
  { cbn [walk_loop a_toks new_analyzer lookup list_lookup T]. reflexivity. }
  destruct (walk_loop_head (S n) a2 2 t v) as (post & Hp);
    [done|done|done|lia|done|by rewrite Hm, andb_false_r|].
  destruct (walk_loop_evolves (S n) a2 2 true HI2) as (ev & He & _).
  pose proof (walk_flags (new_analyzer T bad)) as Hf.
  unfold flags in Hf. cbn [a_toks new_analyzer T length] in Hf. fold T n in Hf.
  rewrite Hw in Hf. apply (f_equal (fun f => f.1.2)) in Hf. cbn [fst snd] in Hf.
  rewrite (ev_analyze _ _ _ He eq_refl) in Hf.
  unfold result. rewrite Hf, andb_false_r. cbn [anEffects].
  rewrite walk_effects. cbn [a_toks new_analyzer T length]. fold T n. rewrite Hw, Hp.
  apply elem_of_app. right. left.
Qed.

(** Deduplicated relations, write dominating: adding any sequence of
    claims leaves each relation name once, keeps exactly the claimed names,
    and marks a relation written if and only if some claim wrote it. *)
Theorem relations_dedup_write_dominates a rels :
  a_rels a = [] ->
  let out := a_rels (fold_left addRelation rels a) in
  NoDup (map rName out) /\
  (forall n, n ∈ map rName out <-> n ∈ map rName rels) /\
  (forall n, {| rName := n; rAccess := Write |} ∈ out <->
             {| rName := n; rAccess := Write |} ∈ rels).
Proof.
  intros Ha. simpl. rewrite fold_addRelation. cbn [a_rels set_rels]. rewrite Ha.
  destruct (fold_add_rel rels []) as (H1 & H2 & H3); [constructor|].
  split; [done|]. split; intros n; [rewrite H3|rewrite H2]; simpl; rewrite elem_of_nil; naive_solver.
Qed.

(** [Severity] is the worst thing the statement does: it is the reported
    verb or one of the effects, and no effect is more severe. *)
Theorem severity_is_worst sql d :
  let a := Analyze sql d in
  Severity a ∈ anVerb a :: anEffects a /\
  (forall e, e ∈ anEffects a -> (Verb.severity e <= Verb.severity (Severity a))%Z).
Proof.
  intros a. destruct (severity_fold (anEffects a) (anVerb a)) as [H1 H2].
  split; [done|]. intros e He. apply H2. by right.
Qed.
End Props.

(** ** Witnesses *)

#[local] Existing Instance ascii_only.

Definition cte_delete : bytes :=
  B "WITH set AS (DELETE FROM a.b USING c RETURNING *) SELECT * FROM set; DROP TABLE t".

Lemma walk_terminates_safely_witness :
  Inv (walk_loop 40 (new_analyzer (scan cte_delete Postgres).1 []) 0 true).
Proof.
  refine (proj1 (proj2 (walk_terminates_safely (scan cte_delete Postgres).1 [] 40 _))).
  vm_compute. lia.
Defined.

Lemma effects_come_from_keywords_witness :
  exists t, t ∈ (scan cte_delete Postgres).1 /\ tKind t = Word /\
    statementVerb (tText t) = Some Verb.Delete /\ Verb.Delete <> Verb.Explain.
Proof.
  apply (effects_come_from_keywords cte_delete Postgres Verb.Delete).
  apply (bool_decide_unpack _). vm_compute. exact I.
Defined.

Lemma statement_verbs_are_effects_witness :
  Verb.Drop ∈ anEffects (Analyze (B "select 1; drop table t") MSSQL).
Proof.
  apply (statement_verbs_are_effects (B "select 1; drop table t") MSSQL 3
    {| tKind := Word; tText := B "drop" |} Verb.Drop).
  - vm_compute. reflexivity.
  - right. exists 2, {| tKind := Punct; tText := B ";" |}. vm_compute. done.
  - vm_compute. reflexivity.
  - vm_compute. done.
Defined.

Lemma complete_means_understood_witness :
  anComplete (Analyze cte_delete Postgres) = true /\
  anComplete (Analyze (B "select (1") Postgres) = false /\
  balanced 0 (scan cte_delete Postgres).1 = true.
Proof.
  split; [apply complete_means_understood; vm_compute; reflexivity|].
  split; [vm_compute; reflexivity|].
  apply complete_means_understood. vm_compute. reflexivity.
Defined.

Lemma cte_body_verb_is_effect_witness : Verb.Delete ∈ anEffects (Analyze cte_delete Postgres).
Proof.
  eapply (cte_body_verb_is_effect cte_delete Postgres (B "set"));
    [vm_compute; reflexivity|vm_compute; reflexivity|].
  repeat split; discriminate.
Defined.

Lemma explain_plans_only_witness :
  anEffects (Analyze (B "explain select 1; delete from t") MSSQL) = [].
Proof.
  eapply (explain_plans_only (B "explain select 1; delete from t") MSSQL); vm_compute; reflexivity.
Defined.

Lemma explain_analyze_executes_witness :
  Verb.Delete ∈ anEffects (Analyze (B "EXPLAIN ANALYZE DELETE FROM t") Postgres).
Proof.
  eapply (explain_analyze_executes (B "EXPLAIN ANALYZE DELETE FROM t") Postgres);
    [vm_compute; reflexivity| |vm_compute; reflexivity].
  repeat split; discriminate.
Defined.

Lemma relations_dedup_write_dominates_witness :
  NoDup (map rName (a_rels (fold_left addRelation
    [{| rName := B "t"; rAccess := Read |}; {| rName := B "t"; rAccess := Write |}]
    (new_analyzer [] [])))).
Proof. apply relations_dedup_write_dominates. reflexivity. Defined.
