(* ===== verification/Types.v ===== *)
(** * The shared vocabulary: the types of src/hoopinspect/inspect.go

    [Statement] is the document every other part works on: codecs produce it,
    policies read it, the audit trail records it.  [Protocol], [Operation] and
    [Access] are Go string types that are compared with strings from
    configuration, so they stay byte strings with the source's constants;
    [Direction] takes only its two constants.  Go maps are stdpp's [gmap]. *)

From S2P Require Import Prelude.

(** ** Protocols, directions, operations *)

Abbreviation Protocol := bytes.
Module Protocol.
Definition Postgres : Protocol := B "postgres".
Definition MSSQL : Protocol := B "mssql".
Definition HTTP : Protocol := B "http".
End Protocol.

Inductive Direction := FromClient | FromServer.

#[global] Instance Direction_eq_dec : EqDecision Direction.
Proof. solve_decision. Defined.

Definition Direction_text (d : Direction) : bytes :=
  match d with FromClient => B "client" | FromServer => B "server" end.

Abbreviation Operation := bytes.
Definition OpSelect : Operation := B "select".
Definition OpInsert : Operation := B "insert".
Definition OpUpdate : Operation := B "update".
Definition OpDelete : Operation := B "delete".
Definition OpCreate : Operation := B "create".
Definition OpDrop : Operation := B "drop".
Definition OpAlter : Operation := B "alter".
Definition OpTruncate : Operation := B "truncate".
Definition OpGrant : Operation := B "grant".
Definition OpRevoke : Operation := B "revoke".
Definition OpCall : Operation := B "call".
Definition OpShow : Operation := B "show".
Definition OpSet : Operation := B "set".
Definition OpBegin : Operation := B "begin".
Definition OpCommit : Operation := B "commit".
Definition OpRollback : Operation := B "rollback".
Definition OpGet : Operation := B "get".
Definition OpPost : Operation := B "post".
Definition OpPut : Operation := B "put".
Definition OpPatch : Operation := B "patch".
Definition OpHead : Operation := B "head".
Definition OpOptions : Operation := B "options".
Definition OpConnect : Operation := B "connect".
Definition OpTrace : Operation := B "trace".
Definition OpOther : Operation := B "other".
Definition OpUnknown : Operation := B "unknown".

(** ** Relations *)

Definition AccessRead : bytes := B "read".
Definition AccessWrite : bytes := B "write".

Record StmtRelation := { relName : bytes; relAccess : bytes }.

#[global] Instance StmtRelation_eq_dec : EqDecision StmtRelation.
Proof. solve_decision. Defined.

(** ** Result sets and HTTP *)

Record Column := { colName : bytes; colDataTypeOID : Z }.

#[global] Instance Column_eq_dec : EqDecision Column.
Proof. solve_decision. Defined.

Record ResultDetail := {
  rdColumns : list Column;
  rdRowCount : Z;
  rdTruncated : bool;
}.

Record ReframeResult := { rfCells : Z; rfRows : Z }.

Record HTTPDetail := {
  htMethod : bytes;
  htPath : bytes;
  htQuery : gmap bytes (list bytes);
  htHost : bytes;
  htResource : bytes;
  htStatusCode : Z;
  htContentType : bytes;
  htHeaders : gmap bytes bytes;
  htBody : bytes;
  htBodyTruncated : bool;
}.

(** ** Statements *)

Record Statement := {
  stProtocol : Protocol;
  stDirection : Direction;
  stText : bytes;
  stOperation : Operation;
  stEffects : list Operation;
  stRelations : list StmtRelation;
  stTables : list bytes;
  stDatabase : bytes;
  stHTTP : option HTTPDetail;
  stResult : option ResultDetail;
  stMetadata : gmap bytes bytes;
}.

(** ** Errors the packages share

    A Go error is compared by [errors.Is]; the kinds the program tells apart
    are the constructors, and wrapping keeps the kind. *)
Inductive InspectError :=
  | ErrUnsupportedProtocol
  | ErrStreamUnsafe
  | ErrBufferOverflow
  | ErrMalformed.

#[global] Instance InspectError_eq_dec : EqDecision InspectError.
Proof. solve_decision. Defined.
