(* ===== verification/SqlMeta.v ===== *)
(** * From the analysis to a statement's fields: src/hoopinspect/sqlmeta.go

    [AnalyzeSQL] maps the scanner's verbs onto the operations rules are
    written against and reports an incomplete scan as [OpUnknown]. *)

From S2P Require Import Prelude GoStrings Scan Keywords Analyze AnalyzeFacts AnalyzeProps Types.

Definition MetadataSQLIncomplete : bytes := B "sql.incomplete".

Record SQLAnalysis := {
  sqOperation : Operation;
  sqEffects : list Operation;
  sqRelations : list StmtRelation;
  sqTables : list bytes;
  sqComplete : bool;
  sqReason : bytes;
}.

Definition operationOf (v : Verb.t) (copyWrites : bool) : Operation :=
  match v with
  | Verb.Select => OpSelect
  | Verb.Insert => OpInsert
  | Verb.Update => OpUpdate
  | Verb.Delete => OpDelete
  | Verb.Merge => OpUpdate
  | Verb.Create => OpCreate
  | Verb.Drop => OpDrop
  | Verb.Alter => OpAlter
  | Verb.Truncate => OpTruncate
  | Verb.Grant => OpGrant
  | Verb.Revoke => OpRevoke
  | Verb.Call => OpCall
  | Verb.Copy => if copyWrites then OpInsert else OpSelect
  | Verb.Show => OpShow
  | Verb.Set_ => OpSet
  | Verb.Begin => OpBegin
  | Verb.Commit => OpCommit
  | Verb.Rollback => OpRollback
  | Verb.Explain => OpSelect
  | Verb.Other => OpOther
  | Verb.Unknown => OpUnknown
  end.

(** [if !slices.Contains(out, op) { out = append(out, op) }] *)
Definition append_new (out : list Operation) (op : Operation) : list Operation :=
  if bool_decide (op ∈ out) then out else out ++ [op].

Section SqlMeta.
Context `{GoUnicode}.

Definition copyWrites_of (a : Analysis) : bool :=
  existsb (fun r => bool_decide (rAccess r = Write)) (anRelations a).

Definition to_relation (r : Relation) : StmtRelation :=
  {| relName := ToLower (rName r);
     relAccess := match rAccess r with Write => AccessWrite | Read => AccessRead end |}.

Definition AnalyzeSQL (sql : bytes) (proto : Protocol) : SQLAnalysis :=
  let d := if proto =s Protocol.MSSQL then MSSQL else Postgres in
  let a := Analyze sql d in
  let copyWrites := copyWrites_of a in
  {| sqOperation := if anComplete a then operationOf (Severity a) copyWrites else OpUnknown;
     sqEffects := fold_left append_new
       (map (fun e => operationOf e copyWrites) (anEffects a)) [];
     sqRelations := map to_relation (anRelations a);
     sqTables := map (fun r => ToLower (rName r)) (anRelations a);
     sqComplete := anComplete a;
     sqReason := anReason a |}.

Definition ClassifySQL (sql : bytes) : Operation * list bytes :=
  let a := AnalyzeSQL sql Protocol.Postgres in (sqOperation a, sqTables a).
End SqlMeta.

(** ** Facts *)

(** The severity of an operation, from the scanner's order. *)
Definition op_severity (op : Operation) : Z :=
  if (op =s OpDrop) || (op =s OpTruncate) then 6
  else if op =s OpDelete then 5
  else if (op =s OpAlter) || (op =s OpGrant) || (op =s OpRevoke) then 4
  else if op =s OpUpdate then 3
  else if (op =s OpInsert) || (op =s OpCreate) || (op =s OpCall) then 2
  else if (op =s OpSelect) || (op =s OpShow) then 1
  else 0.

(** The fold onto operations keeps the severity, a reading COPY apart. *)
Lemma operationOf_severity v cw :
  v <> Verb.Copy \/ cw = true -> op_severity (operationOf v cw) = Verb.severity v.
Proof. destruct v, cw; intros [?|?]; try done. Qed.

Lemma operationOf_le v cw : (op_severity (operationOf v cw) <= Verb.severity v)%Z.
Proof. destruct v, cw; vm_compute; done. Qed.

Lemma fold_append_new l out :
  NoDup out ->
  NoDup (fold_left append_new l out) /\
  (forall op, op ∈ fold_left append_new l out <-> op ∈ out \/ op ∈ l).
Proof.
  revert out. induction l as [|op l IH]; intros out Hn; simpl.
  { split; [done|]. intros op. rewrite elem_of_nil. naive_solver. }
  destruct (IH (append_new out op)) as [H1 H2].
  { unfold append_new. case_bool_decide; [done|]. apply NoDup_app. split; [done|].
    split; [|apply NoDup_singleton]. intros x Hx Hx'. by apply list_elem_of_singleton in Hx' as ->. }
  split; [done|]. intros op'. rewrite H2, elem_of_cons. unfold append_new.
  case_bool_decide; [naive_solver|]. rewrite elem_of_app, list_elem_of_singleton. naive_solver.
Qed.

(** An operation is one of the sixteen SQL verbs, [other] or [unknown], and
    [unknown] only for the absent verb. *)
Lemma operationOf_unknown v cw : operationOf v cw = OpUnknown <-> v = Verb.Unknown.
Proof. destruct v, cw; split; intros; try done. Qed.

Section Props.
Context `{GoUnicode}.

Definition dialect_of (proto : Protocol) : Dialect :=
  if proto =s Protocol.MSSQL then MSSQL else Postgres.

(** A statement the scanner could not read is never reported as a
    harmless one: whenever the scanner stopped inside a construct or the
    parentheses do not balance, [AnalyzeSQL] reports [OpUnknown], clears
    [Complete] and gives a reason. *)
Theorem unreadable_is_unknown sql proto :
  (scan sql (dialect_of proto)).2 <> [] \/
    balanced 0 (scan sql (dialect_of proto)).1 = false ->
  let a := AnalyzeSQL sql proto in
  sqOperation a = OpUnknown /\ sqComplete a = false /\ sqReason a <> [].
Proof.
  intros Hbad a. unfold a, AnalyzeSQL. fold (dialect_of proto).
  set (an := Analyze sql (dialect_of proto)).
  assert (anComplete an = (anReason an =s [])) as Hr.
  { unfold an, Analyze, result. by destruct (scan _ _). }
  assert (anComplete an = false) as Hc.
  { destruct (anComplete an) eqn:E; [|done].
    destruct (proj1 (complete_iff_understood sql (dialect_of proto)) E) as [H1 H2].
    destruct Hbad as [Hb|Hb]; [done|]. by rewrite H2 in Hb. }
  cbn [sqOperation sqComplete sqReason]. rewrite Hc in *. split; [done|]. split; [done|].
  symmetry in Hr. by bool_hyps.
Qed.

(** The operation a rule sees is at least as severe as everything the
    statement does: for a statement read to the end whose worst verb is not a
    COPY that writes nothing, every effect reported in [Effects] is, in the
    severity order, at most the reported operation; the effects hold no
    duplicate, and the operation is [unknown] only when no statement was
    found. *)
Theorem operation_covers_effects sql proto :
  let a := AnalyzeSQL sql proto in
  sqComplete a = true ->
  (let an := Analyze sql (dialect_of proto) in
   Severity an <> Verb.Copy \/ copyWrites_of an = true) ->
  (forall op, op ∈ sqEffects a -> (op_severity op <= op_severity (sqOperation a))%Z) /\
  NoDup (sqEffects a) /\
  (sqOperation a = OpUnknown <-> Severity (Analyze sql (dialect_of proto)) = Verb.Unknown).
Proof.
  unfold AnalyzeSQL. fold (dialect_of proto). set (an := Analyze sql (dialect_of proto)).
  cbn [sqOperation sqComplete sqEffects]. intros Hc Hcopy. rewrite Hc.
  destruct (fold_append_new (map (fun e => operationOf e (copyWrites_of an)) (anEffects an)) [])
    as [Hnd Hin]; [constructor|]. split; [|split; [done|apply operationOf_unknown]].
  intros op Hop. apply Hin in Hop as [Hop|Hop]; [by apply not_elem_of_nil in Hop|].
  apply list_elem_of_In, in_map_iff in Hop as (e & <- & He). apply list_elem_of_In in He.
  destruct (severity_fold (anEffects an) (anVerb an)) as [_ Hmax].
  specialize (Hmax e ltac:(by right)). fold (Severity an) in Hmax.
  rewrite (operationOf_severity (Severity an)) by done.
  etrans; [apply operationOf_le|done].
Qed.
End Props.

(** ** Witnesses *)

#[local] Existing Instance ascii_only.

Lemma unreadable_is_unknown_witness :
  sqOperation (AnalyzeSQL (B "select 'oops; drop table t") Protocol.Postgres) = OpUnknown.
Proof.
  refine (proj1 (unreadable_is_unknown (B "select 'oops; drop table t") Protocol.Postgres _)).
  left. vm_compute. discriminate.
Defined.

Lemma operation_covers_effects_witness :
  let sql := B "merge into t using s on t.id = s.id when matched then delete" in
  sqOperation (AnalyzeSQL sql Protocol.Postgres) = OpDelete /\
  NoDup (sqEffects (AnalyzeSQL sql Protocol.Postgres)).
Proof.
  split; [vm_compute; reflexivity|].
  refine (proj1 (proj2 (operation_covers_effects
    (B "merge into t using s on t.id = s.id when matched then delete") Protocol.Postgres _ _))).
  - vm_compute. reflexivity.
  - left. vm_compute. discriminate.
Defined.
