(* ===== verification/HttpPath.v ===== *)
(** * Resource paths: src/hoopinspect/codec/http/path.go

    Dynamic path segments collapse to a wildcard, so that a rule names an
    endpoint instead of an object. *)

From S2P Require Import Prelude GoStrings GoText.

(** [strings.LastIndexByte] *)
Fixpoint LastIndexByte (s : bytes) (c : byte) : option nat :=
  match s with
  | [] => None
  | d :: r =>
      match LastIndexByte r c with
      | Some i => Some (S i)
      | None => if d =b c then Some 0 else None
      end
  end.

Definition isAllDigits (s : bytes) : bool :=
  negb (s =s []) && forallb (byte_in "0" "9") s.

(** [s[i] | 0x20] lowercases a letter. *)
Definition isAlphaOnly (s : bytes) : bool :=
  negb (s =s []) && forallb (fun c => byte_in "a" "z" (to_byte (Z.lor (bval c) 32))) s.

Definition hex_byte (c : byte) : bool :=
  byte_in "0" "9" c || byte_in "a" "f" c || byte_in "A" "F" c.

Definition isHex (s : bytes) : bool := negb (s =s []) && forallb hex_byte s.

Definition uuid_dashes : list nat := [8; 13; 18; 23].

Definition isUUID (s : bytes) : bool :=
  (length s =? 36)%nat
  && forallb (fun i => byte_at s i =b "-") uuid_dashes
  && forallb (fun i => bool_decide (i ∈ uuid_dashes) || hex_byte (byte_at s i)) (seq 0 (length s)).

Fixpoint opaque_loop (s : bytes) (hasUpper hasLower hasDigit hasSep : bool) : bool :=
  match s with
  | [] => (hasUpper && hasLower && hasDigit) || (hasSep && hasDigit)
  | c :: r =>
      if byte_in "A" "Z" c then opaque_loop r true hasLower hasDigit hasSep
      else if byte_in "a" "z" c then opaque_loop r hasUpper true hasDigit hasSep
      else if byte_in "0" "9" c then opaque_loop r hasUpper hasLower true hasSep
      else if (c =b "-") || (c =b "_") || (c =b ".") || (c =b "=") || (c =b "~")
      then opaque_loop r hasUpper hasLower hasDigit true
      else false
  end.

Definition isOpaqueToken (s : bytes) : bool := opaque_loop s false false false false.

Definition isDynamicSegment (s : bytes) : bool :=
  if isAllDigits s then true
  else if isUUID s then true
  else if (12 <=? length s)%nat && isHex s then true
  else if (24 <=? length s)%nat && isOpaqueToken s then true
  else false.

(** The extension of a segment: where the last dot is, when what follows it is
    one to five letters. *)
Definition extension_at (s : bytes) : option nat :=
  match LastIndexByte s "." with
  | Some dot =>
      if (0 <? dot)%nat && (dot <? length s - 1)%nat then
        let ext := drop (dot + 1) s in
        if isAlphaOnly ext && (length ext <=? 5)%nat then Some dot else None
      else None
  | None => None
  end.

(** Each call is on a shorter segment. *)
Fixpoint normalizeSegment_fuel (fuel : nat) (s : bytes) : bytes * bool :=
  match fuel with
  | O => (s, false)
  | S fuel =>
      match extension_at s with
      | Some dot =>
          if (normalizeSegment_fuel fuel (take dot s)).2
          then (B "*." ++ drop (dot + 1) s, true) else (s, false)
      | None => if isDynamicSegment s then (B "*", true) else (s, false)
      end
  end.

Definition normalizeSegment (s : bytes) : bytes * bool := normalizeSegment_fuel (S (length s)) s.

Fixpoint normalize_segments (segs : list bytes) : list bytes * bool :=
  match segs with
  | [] => ([], false)
  | s :: segs =>
      let '(rest, changed) := normalize_segments segs in
      if s =s [] then (s :: rest, changed)
      else
        let '(norm, dynamic) := normalizeSegment s in
        if dynamic then (norm :: rest, true) else (s :: rest, changed)
  end.

Definition NormalizePath (path : bytes) : bytes :=
  if (path =s []) || (path =s B "/") then path
  else
    let '(segs, changed) := normalize_segments (Split1 path "/") in
    if negb changed then path else Join segs (B "/").

(** ** Facts *)

Definition no_byte (c : byte) (s : bytes) : Prop := c ∉ s.

Lemma Join_Split1 s c : Join (Split1 s c) [c] = s.
Proof.
  induction s as [|d s IH]; [done|]. cbn [Split1]. destruct (d =b c) eqn:E; bool_hyps.
  - subst. destruct (Split1 s c) as [|x l] eqn:Es; [by destruct s; cbn in Es; repeat case_match|].
    cbn [Join]. cbn [app]. f_equal. exact IH.
  - destruct (Split1 s c) as [|x l]; [by destruct s|]. destruct l as [|y l]; cbn [Join app] in *; by rewrite <- IH.
Qed.

Lemma Split1_ne s c : Split1 s c <> [].
Proof. destruct s; cbn; repeat case_match; done. Qed.

Lemma Split1_free s c : Forall (no_byte c) (Split1 s c).
Proof.
  induction s as [|d s IH]; [by repeat constructor; apply not_elem_of_nil|]. cbn [Split1].
  destruct (d =b c) eqn:E; bool_hyps.
  - constructor; [apply not_elem_of_nil|done].
  - destruct (Split1 s c) as [|x l] eqn:Es; [by destruct (Split1_ne s c)|].
    inversion_clear IH as [|? ? Hx Hl]. constructor; [|done].
    apply not_elem_of_cons. split; [congruence|done].
Qed.

Lemma Split1_app x s c : no_byte c x -> Split1 (x ++ c :: s) c = x :: Split1 s c.
Proof.
  intros Hx. induction x as [|d x IH].
  - cbn. by rewrite byte_eqb_refl.
  - apply not_elem_of_cons in Hx as [Hd Hx]. cbn [app Split1]. rewrite IH by done.
    by rewrite (proj2 (byte_eqb_ne _ _)) by congruence.
Qed.

Lemma Split1_only x c : no_byte c x -> Split1 x c = [x].
Proof.
  intros Hx. induction x as [|d x IH]; [done|]. apply not_elem_of_cons in Hx as [Hd Hx].
  cbn [Split1]. rewrite IH by done. by rewrite (proj2 (byte_eqb_ne _ _)) by congruence.
Qed.

Lemma Split1_Join l c : l <> [] -> Forall (no_byte c) l -> Split1 (Join l [c]) c = l.
Proof.
  intros Hne Hf. induction Hf as [|x l Hx Hl IH]; [done|]. destruct l as [|y l].
  - by apply Split1_only.
  - change (Join (x :: y :: l) [c]) with (x ++ c :: Join (y :: l) [c]).
    rewrite Split1_app by done. f_equal. by apply IH.
Qed.

(** ** What a resource identifies

    Two paths name the same resource exactly when they agree segment by
    segment, up to identifiers with the same extension. *)
Lemma extension_at_bound s dot : extension_at s = Some dot -> 0 < dot /\ S dot < length s.
Proof.
  unfold extension_at. destruct (LastIndexByte s ".") as [d|]; [|done].
  destruct ((0 <? d)%nat && (d <? length s - 1)%nat) eqn:E; [|done]. bool_hyps.
  destruct (_ && _); [|done]. intros [= <-]. lia.
Qed.

Lemma normalizeSegment_fuel_eq f1 f2 s :
  length s < f1 -> length s < f2 -> normalizeSegment_fuel f1 s = normalizeSegment_fuel f2 s.
Proof.
  revert f2 s. induction f1 as [|f1 IH]; intros f2 s H1 H2; [lia|]. destruct f2 as [|f2]; [lia|].
  cbn [normalizeSegment_fuel]. destruct (extension_at s) as [dot|] eqn:E; [|done].
  apply extension_at_bound in E. by rewrite (IH f2) by (rewrite length_take; lia).
Qed.

(** The unfolding of the recursion on the part before an extension. *)
Lemma normalizeSegment_eq s :
  normalizeSegment s =
  match extension_at s with
  | Some dot => if (normalizeSegment (take dot s)).2
                then (B "*." ++ drop (dot + 1) s, true) else (s, false)
  | None => if isDynamicSegment s then (B "*", true) else (s, false)
  end.
Proof.
  unfold normalizeSegment at 1. cbn [normalizeSegment_fuel].
  destruct (extension_at s) as [dot|] eqn:E; [|done]. apply extension_at_bound in E.
  unfold normalizeSegment. by rewrite (normalizeSegment_fuel_eq _ (S (length (take dot s))))
    by (rewrite ?length_take; lia).
Qed.

Definition norm_seg (s : bytes) : bytes := if s =s [] then s else (normalizeSegment s).1.

(** A segment that collapses does so to [*] or to [*.] and its extension. *)
Definition wildcard (w : bytes) : Prop :=
  w = B "*" \/ exists ext, w = B "*." ++ ext /\ isAlphaOnly ext = true /\ length ext <= 5.

Lemma normalizeSegment_cases s :
  ((normalizeSegment s).2 = false /\ (normalizeSegment s).1 = s)
  \/ ((normalizeSegment s).2 = true /\ wildcard (normalizeSegment s).1
      /\ forall c, c ∈ (normalizeSegment s).1 -> c ∈ B "*." \/ c ∈ s).
Proof.
  rewrite normalizeSegment_eq. destruct (extension_at s) as [dot|] eqn:E.
  - destruct (normalizeSegment (take dot s)).2; [right|by left]. cbn [fst snd]. split; [done|]. split.
    + right. exists (drop (dot + 1) s). split; [done|]. revert E. unfold extension_at.
      destruct (LastIndexByte s ".") as [d|]; [|done]. destruct (_ && _); [|done].
      destruct (isAlphaOnly _ && _) eqn:Ea; [|done]. intros [= <-]. by bool_hyps.
    + intros c [Hc|Hc]%elem_of_app; [by left|right]. rewrite <- (take_drop (dot + 1) s).
      apply elem_of_app. by right.
  - destruct (isDynamicSegment s); [right|by left]. cbn [fst snd]. split; [done|]. split; [by left|].
    intros c Hc. left. apply list_elem_of_singleton in Hc as ->. left.
Qed.

Lemma normalize_segments_eq segs :
  normalize_segments segs =
    (map norm_seg segs, existsb (fun s => negb (s =s []) && (normalizeSegment s).2) segs)
  /\ (existsb (fun s => negb (s =s []) && (normalizeSegment s).2) segs = false -> map norm_seg segs = segs).
Proof.
  induction segs as [|s segs [IH1 IH2]]; [done|]. cbn [normalize_segments map existsb]. rewrite IH1.
  assert (norm_seg s = if s =s [] then s else (normalizeSegment s).1) as -> by done.
  destruct (s =s []) eqn:Es; cbn [negb andb orb].
  { split; [done|]. intros Hf. by rewrite IH2. }
  destruct (normalizeSegment_cases s) as [[H2 H1]|[H2 _]].
  - destruct (normalizeSegment s) as [nm dyn]. cbn [fst snd] in *. subst. split; [done|].
    intros Hf. by rewrite IH2.
  - destruct (normalizeSegment s) as [nm dyn]. cbn [fst snd] in *. subst. split; [done|]. done.
Qed.

Lemma NormalizePath_eq p : NormalizePath p = Join (map norm_seg (Split1 p "/")) (B "/").
Proof.
  unfold NormalizePath. destruct ((p =s []) || (p =s B "/")) eqn:E.
  { apply orb_true_iff in E as [E|E]; bool_hyps; by subst. }
  destruct (normalize_segments_eq (Split1 p "/")) as [-> Hid]. destruct (existsb _ _); [done|].
  cbn [negb]. rewrite Hid by done. symmetry. apply Join_Split1.
Qed.

Lemma norm_seg_free s : no_byte "/" s -> no_byte "/" (norm_seg s).
Proof.
  intros Hs. unfold norm_seg. destruct (s =s []); [done|].
  destruct (normalizeSegment_cases s) as [[_ ->]|(_ & _ & Hc)]; [done|].
  intros Hin. destruct (Hc _ Hin) as [Hx|Hx]; [|done]. vm_compute in Hx.
  repeat (apply elem_of_cons in Hx as [Hx|Hx]; [done|]). by apply elem_of_nil in Hx.
Qed.

(** The segments of a resource are those of the path, each normalized. *)
Lemma NormalizePath_segments p : Split1 (NormalizePath p) "/" = map norm_seg (Split1 p "/").
Proof.
  rewrite NormalizePath_eq. apply Split1_Join.
  - intros E. apply map_eq_nil in E. by apply Split1_ne in E.
  - pose proof (Split1_free p "/") as Hf. induction Hf; constructor; [by apply norm_seg_free|done].
Qed.

(** ** Wildcards are stable *)

Lemma alpha_no_dot ext : isAlphaOnly ext = true -> LastIndexByte ext "." = None.
Proof.
  unfold isAlphaOnly. intros [_ E]%andb_true_iff. induction ext as [|c ext IH]; [done|].
  cbn [forallb] in E. apply andb_true_iff in E as [Hc E]. cbn [LastIndexByte]. rewrite IH by done. by destruct c.
Qed.

Lemma wildcard_stable w : wildcard w -> norm_seg w = w.
Proof.
  intros [->|(ext & -> & Ha & Hl)]; [by vm_compute|]. unfold norm_seg. cbn [B].
  change (B "*." ++ ext =s []) with false. cbn [negb].
  rewrite normalizeSegment_eq. assert (extension_at (B "*." ++ ext) = Some 1) as ->.
  { unfold extension_at. change (B "*." ++ ext) with ("*"%byte :: "."%byte :: ext). cbn [LastIndexByte].
    rewrite alpha_no_dot by done. change ("."%byte =b ".") with true. cbv iota.
    change (drop (1 + 1) ("*"%byte :: "."%byte :: ext)) with ext. rewrite Ha.
    assert (ext <> []) by (by destruct ext).
    assert (0 < length ext) by (destruct ext; [done|simpl; lia]).
    rewrite (proj2 (Nat.leb_le _ _) Hl). cbn [length andb].
    rewrite (proj2 (Nat.ltb_lt 1 _)) by lia. done. }
  change (take 1 (B "*." ++ ext)) with (B "*"). by vm_compute (normalizeSegment (B "*")).2.
Qed.

Lemma norm_seg_cases s : norm_seg s = s \/ wildcard (norm_seg s).
Proof.
  unfold norm_seg. destruct (s =s []); [by left|].
  destruct (normalizeSegment_cases s) as [[_ ->]|(_ & Hw & _)]; [by left|by right].
Qed.

Lemma norm_seg_idem s : norm_seg (norm_seg s) = norm_seg s.
Proof. destruct (norm_seg_cases s) as [E|Hw]; [by rewrite E|by apply wildcard_stable]. Qed.

(** Two segments name the same thing: they are equal, or each is an
    identifier, or the wildcard itself, with the same extension. *)
Definition same_segment (s t : bytes) : Prop :=
  s = t \/ exists w, wildcard w /\ norm_seg s = w /\ norm_seg t = w.

Lemma same_segment_norm s t : same_segment s t <-> norm_seg s = norm_seg t.
Proof.
  split.
  - intros [->|(w & _ & -> & ->)]; done.
  - intros E. destruct (norm_seg_cases s) as [Es|Hs]; [|right; by exists (norm_seg s)].
    destruct (norm_seg_cases t) as [Et|Ht]; [left; congruence|]. right. exists (norm_seg t). by rewrite E.
Qed.

Lemma Join_inj (l m : list bytes) c :
  l <> [] -> m <> [] -> Forall (no_byte c) l -> Forall (no_byte c) m -> Join l [c] = Join m [c] -> l = m.
Proof. intros. rewrite <- (Split1_Join l c), <- (Split1_Join m c) by done. congruence. Qed.

(** A resource identifies an endpoint: two paths are mapped to the same
    resource exactly when they have the same number of segments and agree at
    each, up to identifiers (numbers, UUIDs, long hexadecimal strings and
    opaque tokens) with the same extension; the resource has the segments of
    the path, and normalizing it again changes nothing. *)
Theorem resource_identifies_endpoint p q :
  (NormalizePath p = NormalizePath q <-> Forall2 same_segment (Split1 p "/") (Split1 q "/"))
  /\ length (Split1 (NormalizePath p) "/") = length (Split1 p "/")
  /\ NormalizePath (NormalizePath p) = NormalizePath p.
Proof.
  split; [|split].
  - split.
    + intros E. apply (f_equal (fun s => Split1 s "/")) in E. rewrite !NormalizePath_segments in E.
      revert E. generalize (Split1 q "/"). induction (Split1 p "/") as [|s l IH]; intros [|t m] E; try done.
      injection E as E1 E2. constructor; [by apply same_segment_norm|by apply IH].
    + intros HF. rewrite !NormalizePath_eq. f_equal.
      induction HF as [|s t l m Hs _ IH]; [done|]. cbn [map]. by rewrite IH, (proj1 (same_segment_norm s t) Hs).
  - by rewrite NormalizePath_segments, length_map.
  - rewrite (NormalizePath_eq (NormalizePath p)), NormalizePath_segments, map_map.
    rewrite (map_ext _ norm_seg) by (apply norm_seg_idem). by rewrite <- NormalizePath_eq.
Qed.

(** A hand-written route of 24 letters, a dash and a digit is taken for an
    identifier, so a rule on the resource also covers other routes; the
    comments promise a rule that can be too narrow, never too broad. *)
Lemma route_taken_for_token :
  NormalizePath (B "/admin/list-all-user-accounts-v2") = NormalizePath (B "/admin/drop-all-user-accounts-v2").
Proof. by vm_compute. Qed.

(** A long mixed-case token without a digit is kept, although the comments
    count it as an identifier. *)
Lemma token_without_digit_kept :
  NormalizePath (B "/sessions/eyJhbGciOiJIUzITokenABCDEF") = B "/sessions/eyJhbGciOiJIUzITokenABCDEF".
Proof. by vm_compute. Qed.
