(* ===== verification/Inspect.v ===== *)
(** * Stream decoding: the Codec interface, the registry and the Inspector

    src/hoopinspect/inspect.go ([Codec], [Inspector], [Inspect], [retain], ...)
    and src/hoopinspect/registry.go.

    A Go codec is a mutable object; here it is a state type with a [Decode]
    operation that returns the new state.  The class [Framed] is what a codec
    promises the Inspector: [Decode] is the iteration of a step that looks at
    the front of the buffer and either asks for more bytes, refuses the stream,
    or consumes one frame, and a decision once taken does not change when more
    bytes arrive.  Against that interface the Inspector is shown to be
    insensitive to how the stream is cut into reads. *)

From S2P Require Import Prelude Types.

(** ** Codecs *)

(** What [Decode] returns: the statements, the bytes consumed and the error. *)
Record Decoded := {
  dStmts : list Statement;
  dConsumed : nat;
  dErr : option InspectError;
}.

Class Codec (C : Type) := {
  codec_Protocol : C -> Protocol;
  Decode : C -> Direction -> bytes -> C * Decoded;
}.

(** ** The registry *)

(** Protocols to codec factories.  A factory is a function of nothing, so it
    returns at every call what it returned to [Register]'s probe. *)
Definition Registry (C : Type) : Type := gmap Protocol (unit -> C).

Inductive RegisterPanic := NilFactory | NilCodec | DuplicateProtocol (p : Protocol).

Section Registry.
Context {C : Type} `{Codec C}.

(** [Register]; the panics are values, and [None] is a nil factory or a
    factory that returns nil. *)
Definition Register (reg : Registry C) (newCodec : option (unit -> option C))
    : RegisterPanic + Registry C :=
  match newCodec with
  | None => inl NilFactory
  | Some f =>
      match f tt with
      | None => inl NilCodec
      | Some probe =>
          let p := codec_Protocol probe in
          match reg !! p with
          | Some _ => inl (DuplicateProtocol p)
          | None => inr (<[p := fun u => default probe (f u)]> reg)
          end
      end
  end.

Definition registry_lookup (reg : Registry C) (p : Protocol) : option (unit -> C) := reg !! p.

Definition Registered (reg : Registry C) : list Protocol := (map_to_list reg).*1.
End Registry.

(** ** The Inspector *)

Record Inspector (C : Type) := MkInspector {
  i_codec : C;
  i_buf : bytes;
  i_maxBuffer : Z;
}.
Arguments MkInspector {C}.
Arguments i_codec {C}.
Arguments i_buf {C}.
Arguments i_maxBuffer {C}.

Definition DefaultMaxBuffer : Z := Z.shiftl 8 20.

Section Inspector.
Context {C : Type} `{Codec C}.

Definition NewWithCodec (c : C) : Inspector C :=
  MkInspector c [] DefaultMaxBuffer.

Definition New (reg : Registry C) (p : Protocol) : InspectError + Inspector C :=
  match registry_lookup reg p with
  | None => inl ErrUnsupportedProtocol
  | Some newCodec => inr (MkInspector (newCodec tt) [] DefaultMaxBuffer)
  end.

Definition SetMaxBuffer (i : Inspector C) (n : Z) : Inspector C :=
  MkInspector (i_codec i) (i_buf i) (if (n <=? 0)%Z then DefaultMaxBuffer else n).

Definition insp_Protocol (i : Inspector C) : Protocol := codec_Protocol (i_codec i).

(** [retain] *)
Definition retain (i : Inspector C) (input : bytes) (consumed : nat) : Inspector C :=
  MkInspector (i_codec i)
    (if (length input <=? consumed)%nat then [] else drop consumed input) (i_maxBuffer i).

Definition drop_buf (i : Inspector C) : Inspector C :=
  MkInspector (i_codec i) [] (i_maxBuffer i).

Definition set_codec (i : Inspector C) (c : C) : Inspector C :=
  MkInspector c (i_buf i) (i_maxBuffer i).

Definition Inspect (i : Inspector C) (dir : Direction) (data : bytes)
    : Inspector C * (list Statement * option InspectError) :=
  if (length data =? 0)%nat && (length (i_buf i) =? 0)%nat then (i, ([], None))
  else
    let input := if (0 <? length (i_buf i))%nat then i_buf i ++ data else data in
    let '(c, r) := Decode (i_codec i) dir input in
    let i := set_codec i c in
    if (i_maxBuffer i <? Z.of_nat (length input))%Z then
      match dErr r with
      | Some e => (drop_buf i, (dStmts r, Some e))
      | None =>
          if (dConsumed r =? 0)%nat
          then (drop_buf i, (dStmts r, Some ErrBufferOverflow))
          else (retain i input (dConsumed r), (dStmts r, None))
      end
    else
      match dErr r with
      | Some e => (drop_buf i, (dStmts r, Some e))
      | None => (retain i input (dConsumed r), (dStmts r, None))
      end.

Definition Buffered (i : Inspector C) : nat := length (i_buf i).

Definition insp_Reset (i : Inspector C) : Inspector C := drop_buf i.

(** Feeding a connection's reads one after the other, stopping at the first
    error as a caller must. *)
Fixpoint inspect_all (i : Inspector C) (dir : Direction) (chunks : list bytes)
    : Inspector C * (list Statement * option InspectError) :=
  match chunks with
  | [] => (i, ([], None))
  | d :: rest =>
      match Inspect i dir d with
      | (i', (stmts, Some e)) => (i', (stmts, Some e))
      | (i', (stmts, None)) =>
          let '(i'', (stmts', e)) := inspect_all i' dir rest in
          (i'', (stmts ++ stmts', e))
      end
  end.
End Inspector.

(** ** Framed codecs *)

(** One look at the front of the buffer.  Waiting may already note something
    in the codec; a refusal says how much it consumed. *)
Inductive Step (C : Type) :=
  | NeedMore (c : C)
  | Refuse (n : nat) (c : C) (e : InspectError)
  | Frame (n : nat) (c : C) (stmts : list Statement).
Arguments NeedMore {C}.
Arguments Refuse {C}.
Arguments Frame {C}.

(** The [for pos < len(data)] loop that every codec's [Decode] is. *)
Fixpoint frames {C} (step : C -> bytes -> Step C) (fuel : nat) (c : C) (data : bytes)
    : C * Decoded :=
  match data, fuel with
  | [], _ | _, O => (c, {| dStmts := []; dConsumed := 0; dErr := None |})
  | _ :: _, S fuel' =>
      match step c data with
      | NeedMore c' => (c', {| dStmts := []; dConsumed := 0; dErr := None |})
      | Refuse n c' e => (c', {| dStmts := []; dConsumed := n; dErr := Some e |})
      | Frame n c' stmts =>
          let '(c'', r) := frames step fuel' c' (drop n data) in
          (c'', {| dStmts := stmts ++ dStmts r; dConsumed := n + dConsumed r; dErr := dErr r |})
      end
  end.

(** What the Inspector relies on. *)
Class Framed (C : Type) `{Codec C} (dir : Direction) := {
  frame_step : C -> bytes -> Step C;
  decode_frames c data : Decode c dir data = frames frame_step (length data) c data;
  frame_stable c data n c' stmts more :
    frame_step c data = Frame n c' stmts ->
    frame_step c (data ++ more) = Frame n c' stmts /\ 0 < n <= length data;
  refuse_stable c data n c' e more :
    frame_step c data = Refuse n c' e ->
    frame_step c (data ++ more) = Refuse n c' e /\ n <= length data;
  need_stable c data c' more :
    frame_step c data = NeedMore c' ->
    frame_step c' (data ++ more) = frame_step c (data ++ more);
}.

Section Frames.
Context {C : Type} (step : C -> bytes -> Step C).
Hypothesis step_stable : forall c data n c' stmts more,
  step c data = Frame n c' stmts ->
  step c (data ++ more) = Frame n c' stmts /\ 0 < n <= length data.
Hypothesis step_refuse : forall c data n c' e more,
  step c data = Refuse n c' e -> step c (data ++ more) = Refuse n c' e /\ n <= length data.
Hypothesis step_need : forall c data c' more,
  step c data = NeedMore c' -> step c' (data ++ more) = step c (data ++ more).

Lemma frames_fuel f1 f2 c data :
  length data <= f1 -> length data <= f2 -> frames step f1 c data = frames step f2 c data.
Proof.
  revert f2 c data. induction f1 as [|f1 IH]; intros f2 c data H1 H2.
  { destruct data; [by destruct f2|simpl in *; lia]. }
  destruct data as [|b data]; [by destruct f2|]. destruct f2 as [|f2]; [simpl in *; lia|].
  cbn [frames]. destruct (step c (b :: data)) as [c'|n c' e|n c' stmts] eqn:E; [done..|].
  destruct (step_stable _ _ _ _ _ [] E) as [_ Hn].
  rewrite (IH f2); [done|rewrite length_drop; simpl in *; lia..].
Qed.

Lemma frames_consumed fuel c data : dConsumed (frames step fuel c data).2 <= length data.
Proof.
  revert c data. induction fuel as [|fuel IH]; intros c [|b data]; simpl; [lia..|].
  destruct (step c (b :: data)) as [c'|n c' e|n c' stmts] eqn:E; simpl.
  { lia. }
  { destruct (step_refuse _ _ _ _ _ [] E). simpl in *. lia. }
  destruct (step_stable _ _ _ _ _ [] E) as [_ Hn].
  specialize (IH c' (drop n (b :: data))). rewrite length_drop in IH.
  destruct (frames step fuel c' (drop n (b :: data))). simpl in *. lia.
Qed.

(** Decoding a buffer and then the rest with new bytes behind it is decoding
    everything at once. *)
Lemma frames_app c d k :
  let '(c1, r1) := frames step (length d) c d in
  frames step (length (d ++ k)) c (d ++ k) =
  match dErr r1 with
  | Some e => (c1, r1)
  | None =>
      let rest := drop (dConsumed r1) d ++ k in
      let '(c2, r2) := frames step (length rest) c1 rest in
      (c2, {| dStmts := dStmts r1 ++ dStmts r2; dConsumed := dConsumed r1 + dConsumed r2;
              dErr := dErr r2 |})
  end.
Proof.
  remember (length d) as m eqn:Hm. revert c d Hm. induction m as [m IH] using lt_wf_ind.
  intros c d Hm. destruct d as [|b d]; [subst m; simpl; by destruct (frames step _ c k) as [c2 []]|].
  destruct m as [|m]; [done|]. simpl in Hm. injection Hm as Hm.
  cbn [frames]. destruct (step c (b :: d)) as [c'|n c' e|n c' stmts] eqn:E.
  - cbn [dErr dConsumed dStmts]. rewrite drop_0. cbn [app length frames].
    change (b :: d ++ k) with ((b :: d) ++ k). rewrite (step_need _ _ _ k E).
    destruct (step c ((b :: d) ++ k)) as [c2|n c2 e|n c2 stmts]; [done..|].
    by destruct (frames step _ c2 _) as [c3 []].
  - cbn [dErr]. cbn [app length frames].
    change (b :: d ++ k) with ((b :: d) ++ k). by rewrite (proj1 (step_refuse _ _ _ _ _ k E)).
  - destruct (step_stable _ _ _ _ _ k E) as [Ek Hn].
    assert (length (drop n (b :: d)) <= m) as Hdm by (rewrite length_drop; simpl in *; lia).
    rewrite (frames_fuel m (length (drop n (b :: d)))) by (simpl in *; lia).
    specialize (IH (length (drop n (b :: d))) ltac:(lia) c' (drop n (b :: d)) eq_refl).
    destruct (frames step _ c' (drop n (b :: d))) as [c1 r1] eqn:E1.
    cbn [app length frames]. change (b :: d ++ k) with ((b :: d) ++ k). rewrite Ek.
    rewrite drop_app_le by lia.
    rewrite (frames_fuel (length (d ++ k)) (length (drop n (b :: d) ++ k)))
      by (rewrite !length_app in *; simpl in *; lia).
    rewrite IH. cbn [dErr dConsumed dStmts]. destruct (dErr r1) eqn:Ee; [by rewrite Ee|].
    rewrite drop_drop. destruct (frames step _ c1 _) as [c2 r2]. cbn [dErr dConsumed dStmts].
    by rewrite <- app_assoc, Nat.add_assoc.
Qed.
End Frames.

(** ** The Inspector over a framed codec *)

Definition no_output : Decoded := {| dStmts := []; dConsumed := 0; dErr := None |}.

Section Streaming.
Context {C : Type} `{Codec C} {dir : Direction} `{!Framed C dir}.

Lemma Decode_nil c : Decode c dir [] = (c, no_output).
Proof. by rewrite decode_frames. Qed.

Lemma Decode_consumed c data : dConsumed (Decode c dir data).2 <= length data.
Proof.
  rewrite decode_frames. apply frames_consumed; intros; [by apply frame_stable|].
  by eapply refuse_stable.
Qed.

Lemma Decode_app c d k :
  let '(c1, r1) := Decode c dir d in
  Decode c dir (d ++ k) =
  match dErr r1 with
  | Some e => (c1, r1)
  | None =>
      let '(c2, r2) := Decode c1 dir (drop (dConsumed r1) d ++ k) in
      (c2, {| dStmts := dStmts r1 ++ dStmts r2; dConsumed := dConsumed r1 + dConsumed r2;
              dErr := dErr r2 |})
  end.
Proof.
  pose proof (frames_app frame_step frame_stable refuse_stable need_stable c d k) as Ha.
  rewrite !decode_frames. destruct (frames frame_step (length d) c d) as [c1 r1].
  rewrite Ha. destruct (dErr r1); [done|]. by rewrite decode_frames.
Qed.

(** The buffer holds nothing decodable. *)
Definition residual (i : Inspector C) : Prop :=
  Decode (i_codec i) dir (i_buf i) = (i_codec i, no_output).

Lemma decoded_residual c d c1 r1 :
  Decode c dir d = (c1, r1) -> dErr r1 = None ->
  Decode c1 dir (drop (dConsumed r1) d) = (c1, no_output).
Proof.
  intros E He. pose proof (Decode_app c d []) as Ha. rewrite E, He, !app_nil_r, E in Ha.
  destruct (Decode c1 dir (drop (dConsumed r1) d)) as [c2 r2]. injection Ha as <- Ha.
  apply (f_equal dStmts) in Ha as Hs. apply (f_equal dConsumed) in Ha as Hc.
  apply (f_equal dErr) in Ha as Hr. simpl in *. rewrite He in Hr.
  destruct r2 as [s n e]. simpl in *. f_equal. unfold no_output. f_equal.
  - rewrite <- (app_nil_r (dStmts r1)) in Hs at 1. by apply app_inv_head in Hs.
  - lia.
  - done.
Qed.

(** [Inspect] decodes the buffer followed by the new bytes. *)
Lemma Inspect_spec i data c r :
  Decode (i_codec i) dir (i_buf i ++ data) = (c, r) ->
  Inspect i dir data =
  match dErr r with
  | Some e => (MkInspector c [] (i_maxBuffer i), (dStmts r, Some e))
  | None =>
      if (i_maxBuffer i <? Z.of_nat (length (i_buf i ++ data)))%Z && (dConsumed r =? 0)%nat
         && (0 <? length (i_buf i ++ data))%nat
      then (MkInspector c [] (i_maxBuffer i), (dStmts r, Some ErrBufferOverflow))
      else (MkInspector c (drop (dConsumed r) (i_buf i ++ data)) (i_maxBuffer i),
            (dStmts r, None))
  end.
Proof.
  intros E. unfold Inspect. destruct i as [c0 buf max]. cbn [i_buf i_codec i_maxBuffer] in *.
  pose proof (Decode_consumed c0 (buf ++ data)) as Hle. rewrite E in Hle. simpl in Hle.
  destruct ((length data =? 0)%nat && (length buf =? 0)%nat) eqn:E0.
  { bool_hyps. destruct data, buf; try done. simpl in E. rewrite Decode_nil in E. simplify_eq/=.
    by rewrite andb_false_r. }
  assert ((if (0 <? length buf)%nat then buf ++ data else data) = buf ++ data) as ->.
  { destruct buf; done. }
  rewrite E. unfold set_codec, retain, drop_buf. cbn [i_buf i_codec i_maxBuffer].
  assert ((if (length (buf ++ data) <=? dConsumed r)%nat then [] else drop (dConsumed r) (buf ++ data))
    = drop (dConsumed r) (buf ++ data)) as Hd.
  { case_match; [|done]. bool_hyps. by rewrite drop_ge. }
  rewrite Hd. assert ((0 <? length (buf ++ data))%nat = true) as ->.
  { apply Nat.ltb_lt. rewrite length_app. apply andb_false_iff in E0 as [?|?]; bool_hyps; lia. }
  rewrite andb_true_r. destruct (_ <? _)%Z, (dErr r); simpl; try done.
Qed.

Lemma inspect_all_spec i chunks i' stmts e :
  residual i -> inspect_all i dir chunks = (i', (stmts, e)) ->
  let '(c, r) := Decode (i_codec i) dir (i_buf i ++ concat chunks) in
  match e with
  | None => c = i_codec i' /\ dStmts r = stmts /\ dErr r = None /\
            i_buf i' = drop (dConsumed r) (i_buf i ++ concat chunks) /\ residual i'
  | Some e => e = ErrBufferOverflow \/ (dStmts r = stmts /\ dErr r = Some e)
  end.
Proof.
  revert i stmts. induction chunks as [|d chunks IH]; intros i stmts Hr; cbn [inspect_all].
  { intros [= <- <- <-]. simpl. rewrite app_nil_r, Hr. simpl. by rewrite drop_0. }
  cbn [concat]. rewrite app_assoc. pose proof (Decode_app (i_codec i) (i_buf i ++ d) (concat chunks)) as Ha.
  destruct (Decode (i_codec i) dir (i_buf i ++ d)) as [c1 r1] eqn:E1.
  rewrite (Inspect_spec _ _ _ _ E1), Ha. destruct (dErr r1) as [e1|] eqn:Ee.
  { intros [= <- <- <-]. by right. }
  destruct (_ && _); [intros [= <- <- <-]; destruct (Decode c1 dir _); by left|].
  set (i1 := MkInspector c1 _ _). assert (residual i1) as Hr1 by (by eapply decoded_residual).
  destruct (inspect_all i1 dir chunks) as [i2 [stmts2 e2]] eqn:E2.
  specialize (IH i1 stmts2 Hr1). intros [= -> <- ->]. specialize (IH E2).
  cbn [i_codec i_buf i1] in IH. fold i1 in IH.
  destruct (Decode c1 dir (drop (dConsumed r1) (i_buf i ++ d) ++ concat chunks)) as [c2 r2].
  cbn [dStmts dErr dConsumed]. destruct e as [e|].
  - destruct IH as [->|[<- ->]]; [by left|by right].
  - destruct IH as (-> & <- & -> & -> & Hr'). split; [done|]. split; [done|]. split; [done|].
    split; [|done]. pose proof (Decode_consumed (i_codec i) (i_buf i ++ d)) as Hle.
    rewrite E1 in Hle. cbn [snd] in Hle.
    rewrite <- drop_drop, (drop_app_le (i_buf i ++ d)) by done. done.
Qed.

(** C31 Cutting the stream does not matter: however the bytes of one
    direction are split into reads, a fresh Inspector that reports no error
    yields exactly the statements [Decode] finds in the whole stream, leaves
    the codec in the same state and buffers exactly the undecoded tail; and
    an error it reports is either its own buffer budget or the error
    [Decode] reports on the whole stream, with the same statements before
    it. *)
Theorem inspect_chunking c max chunks i' stmts e :
  inspect_all (MkInspector c [] max) dir chunks = (i', (stmts, e)) ->
  let '(c', r) := Decode c dir (concat chunks) in
  match e with
  | None => dStmts r = stmts /\ dErr r = None /\ i_codec i' = c' /\
            i_buf i' = drop (dConsumed r) (concat chunks)
  | Some e => e = ErrBufferOverflow \/ (dStmts r = stmts /\ dErr r = Some e)
  end.
Proof.
  intros E. apply inspect_all_spec in E; [|apply Decode_nil]. cbn [i_codec i_buf] in E.
  rewrite app_nil_l in E. destruct (Decode c dir (concat chunks)) as [c' r].
  destruct e; [done|]. by destruct E as (-> & ? & ? & ? & _).
Qed.

(** Reassembly memory: an error empties the buffer, a call whose input
    fits the budget leaves a buffer that fits it, the buffer never holds more
    than was fed, and a message that outgrows the budget without completing
    is refused with [ErrBufferOverflow]. *)
Theorem inspect_buffer_bound i data i' stmts e :
  Inspect i dir data = (i', (stmts, e)) ->
  (e <> None -> i_buf i' = []) /\
  i_maxBuffer i' = i_maxBuffer i /\
  Buffered i' <= Buffered i + length data /\
  ((Z.of_nat (Buffered i + length data) <= i_maxBuffer i)%Z ->
     (Z.of_nat (Buffered i') <= i_maxBuffer i)%Z) /\
  ((i_maxBuffer i < Z.of_nat (Buffered i + length data))%Z -> 0 < Buffered i + length data ->
     dErr (Decode (i_codec i) dir (i_buf i ++ data)).2 = None ->
     dConsumed (Decode (i_codec i) dir (i_buf i ++ data)).2 = 0 ->
     e = Some ErrBufferOverflow).
Proof.
  unfold Buffered. destruct (Decode (i_codec i) dir (i_buf i ++ data)) as [c r] eqn:E.
  rewrite (Inspect_spec _ _ _ _ E), length_app. cbn [snd]. destruct (dErr r) as [e0|].
  { intros [= <- <- <-]. cbn [i_buf i_maxBuffer length]. repeat split; try done; lia. }
  destruct (_ && _) eqn:Eo; intros [= <- <- <-]; cbn [i_buf i_maxBuffer];
    rewrite ?length_drop, ?length_app; repeat split; try done; simpl; try lia.
  intros Hmax Hpos _ Hc. rewrite Hc in Eo. simpl in Eo. rewrite andb_true_r in Eo.
  apply andb_false_iff in Eo as [Eo|Eo]; bool_hyps; lia.
Qed.
End Streaming.
