(* ===== verification/HttpCodec.v ===== *)
(** * The HTTP codec: src/hoopinspect/codec/http/http.go

    Parsed requests and responses become statements; a raw HTTP/1.x stream is
    read message by message.  The parser is Go's net/http: the class [NetHTTP]
    is what the codec calls of it, [http.ReadRequest] and [http.ReadResponse]
    on a [bufio.Reader] over the bytes at hand, with what they leave behind. *)

From S2P Require Import Prelude GoStrings GoText Types HttpPath Inspect.

(** ** What net/http parses *)

Record URL := {
  u_Path : bytes;
  u_Host : bytes;
  u_Query : gmap bytes (list bytes);     (* [URL.Query()] *)
  u_RequestURI : bytes;                  (* [URL.RequestURI()] *)
}.

Definition Header : Type := gmap bytes (list bytes).

(** A request; its [URL] is set, as on every request net/http hands out. *)
Record Request := {
  rq_Method : bytes;
  rq_URL : URL;
  rq_Host : bytes;
  rq_Header : Header;
  rq_Proto : bytes;
}.

Record Response := {
  rs_Status : bytes;
  rs_StatusCode : Z;
  rs_Header : Header;
  rs_Proto : bytes;
  rs_Request : option Request;
}.

(** What reading a body gives: none, all of it, or an unexpected end. *)
Inductive Body := NoBody | WholeBody (b : bytes) | BodyCut.

(** A message read from a [bufio.Reader]: [rd_buffered] is [br.Buffered()]
    once the body was drained. *)
Record Reading (M : Type) := { rd_msg : M; rd_body : Body; rd_buffered : nat }.
Arguments Build_Reading {M}.
Arguments rd_msg {M}.
Arguments rd_body {M}.
Arguments rd_buffered {M}.

Class NetHTTP := {
  ReadRequest : bytes -> option (Reading Request);
  ReadResponse : bytes -> option (Reading Response);
}.

(** [h.Get(key)] for a canonical key. *)
Definition header_Get (h : Header) (key : bytes) : bytes :=
  match h !! key with Some (v :: _) => v | _ => [] end.

(** ** The inspector *)

Record Options := {
  opCaptureBody : bool;
  opMaxBodyBytes : Z;
  opHeaders : list bytes;
}.

Definition DefaultMaxBodyBytes : Z := Z.shiftl 64 10.
Definition maxHeaderBytes : Z := Z.shiftl 1 20.

Record HttpInspector := { hi_opts : Options; hi_headers : gset bytes }.

Record drained := { dr_data : bytes; dr_truncated : bool }.

Section Http.
Context `{GoUnicode} `{NetHTTP}.

Definition http_New (opts : Options) : HttpInspector :=
  {| hi_opts := {| opCaptureBody := opCaptureBody opts;
                   opMaxBodyBytes := if (opMaxBodyBytes opts <=? 0)%Z then DefaultMaxBodyBytes
                                     else opMaxBodyBytes opts;
                   opHeaders := opHeaders opts |};
     hi_headers := list_to_set (map ToLower (opHeaders opts)) |}.

Definition operationFor (d : HTTPDetail) : Operation :=
  let m := htMethod d in
  if m =s B "GET" then OpGet
  else if m =s B "POST" then OpPost
  else if m =s B "PUT" then OpPut
  else if m =s B "PATCH" then OpPatch
  else if m =s B "DELETE" then OpDelete
  else if m =s B "HEAD" then OpHead
  else if m =s B "OPTIONS" then OpOptions
  else if m =s B "CONNECT" then OpConnect
  else if m =s B "TRACE" then OpTrace
  else if m =s [] then OpUnknown
  else OpOther.

Definition resourceTables (d : HTTPDetail) : list bytes :=
  if htResource d =s [] then [] else [ToLower (htResource d)].

Definition contentType (h : Header) : bytes :=
  let ct := header_Get h (B "Content-Type") in
  let ct := match IndexByte ct ";" with Some i => take i ct | None => ct end in
  ToLower (TrimSpace ct).

Definition requestHost (r : Request) : bytes :=
  if negb (rq_Host r =s []) then rq_Host r else u_Host (rq_URL r).

(** [pickHeaders]; the nil map is the empty one. *)
Definition pick_header (allowed : gset bytes) (name : bytes) (vals : list bytes)
    (out : gmap bytes bytes) : gmap bytes bytes :=
  if negb (bool_decide (ToLower name ∈ allowed)) || (length vals =? 0)%nat then out
  else <[ToLower name := Join vals (B ", ")]> out.

Definition pickHeaders (i : HttpInspector) (h : Header) : gmap bytes bytes :=
  if bool_decide (hi_headers i = ∅) then ∅
  else map_fold (pick_header (hi_headers i)) ∅ h.

(** [attachBody]: the body and whether it is a prefix. *)
Definition attachBody (i : HttpInspector) (b : drained) : bytes * bool :=
  if negb (opCaptureBody (hi_opts i)) || (length (dr_data b) =? 0)%nat then ([], false)
  else if (opMaxBodyBytes (hi_opts i) <? Z.of_nat (length (dr_data b)))%Z
  then (take (Z.to_nat (opMaxBodyBytes (hi_opts i))) (dr_data b), true)
  else (dr_data b, dr_truncated b).

(** [drainBody]: [None] while the body is still arriving. *)
Definition drainBody (b : Body) (limit : nat) : option drained :=
  match b with
  | NoBody => Some {| dr_data := []; dr_truncated := false |}
  | WholeBody b => Some {| dr_data := take limit b; dr_truncated := (limit <? length b)%nat |}
  | BodyCut => None
  end.

Definition or_root (path : bytes) : bytes := if path =s [] then B "/" else path.

Definition http_statement (dir : Direction) (text proto : bytes) (d : HTTPDetail) : Statement :=
  {| stProtocol := Protocol.HTTP; stDirection := dir; stText := text; stOperation := operationFor d;
     stEffects := []; stRelations := []; stTables := resourceTables d; stDatabase := [];
     stHTTP := Some d; stResult := None; stMetadata := {[ B "http.proto" := proto ]} |}.

Definition inspectRequest (i : HttpInspector) (r : Request) (b : drained) : Statement :=
  let path := or_root (u_Path (rq_URL r)) in
  let '(body, cut) := attachBody i b in
  let d := {| htMethod := ToUpper (rq_Method r); htPath := path; htQuery := u_Query (rq_URL r);
              htHost := requestHost r; htResource := NormalizePath path; htStatusCode := 0;
              htContentType := contentType (rq_Header r); htHeaders := pickHeaders i (rq_Header r);
              htBody := body; htBodyTruncated := cut |} in
  http_statement FromClient (htMethod d ++ B " " ++ u_RequestURI (rq_URL r)) (rq_Proto r) d.

Definition InspectRequest (i : HttpInspector) (r : Request) (body : bytes) : Statement :=
  inspectRequest i r {| dr_data := body; dr_truncated := false |}.

Definition inspectResponse (i : HttpInspector) (resp : Response) (req : option Request) (b : drained)
    : Statement :=
  let req := match req with Some r => Some r | None => rs_Request resp end in
  let '(body, cut) := attachBody i b in
  let d :=
    match req with
    | Some r =>
        let path := or_root (u_Path (rq_URL r)) in
        {| htMethod := ToUpper (rq_Method r); htPath := path; htQuery := ∅; htHost := requestHost r;
           htResource := NormalizePath path; htStatusCode := rs_StatusCode resp;
           htContentType := contentType (rs_Header resp); htHeaders := pickHeaders i (rs_Header resp);
           htBody := body; htBodyTruncated := cut |}
    | None =>
        {| htMethod := []; htPath := []; htQuery := ∅; htHost := []; htResource := [];
           htStatusCode := rs_StatusCode resp; htContentType := contentType (rs_Header resp);
           htHeaders := pickHeaders i (rs_Header resp); htBody := body; htBodyTruncated := cut |}
    end in
  http_statement FromServer (rs_Status resp) (rs_Proto resp) d.

Definition InspectResponse (i : HttpInspector) (resp : Response) (req : option Request) (body : bytes)
    : Statement :=
  inspectResponse i resp req {| dr_data := body; dr_truncated := false |}.

(** ** The stream *)

Definition headEndIndex (b : bytes) : option nat :=
  match Index b [x0d; x0a; x0d; x0a] with
  | Some i => Some (i + 4)
  | None => match Index b [x0a; x0a] with Some i => Some (i + 2) | None => None end
  end.

(** What one turn of the loop of [Decode] does with the bytes at hand. *)
Inductive Turn := Wait | Malformed | Message (s : Statement) (consumed : nat).

(** [consumed := len(rest) - br.Buffered()] *)
Definition message_turn {M} (i : HttpInspector) (rest : bytes) (r : option (Reading M))
    (inspect : M -> drained -> Statement) : Turn :=
  match r with
  | None => Malformed
  | Some rd =>
      match drainBody (rd_body rd) (Z.to_nat (opMaxBodyBytes (hi_opts i))) with
      | None => Wait
      | Some b => Message (inspect (rd_msg rd) b) (length rest - rd_buffered rd)
      end
  end.

Definition http_turn (i : HttpInspector) (dir : Direction) (rest : bytes) : Turn :=
  match headEndIndex rest with
  | None => if (maxHeaderBytes <? Z.of_nat (length rest))%Z then Malformed else Wait
  | Some _ =>
      match dir with
      | FromServer => message_turn i rest (ReadResponse rest) (fun m b => inspectResponse i m None b)
      | FromClient => message_turn i rest (ReadRequest rest) (inspectRequest i)
      end
  end.

Fixpoint http_loop (fuel : nat) (i : HttpInspector) (dir : Direction) (rest : bytes) (pos : nat)
    (stmts : list Statement) : Decoded :=
  match fuel, rest with
  | O, _ | _, [] => {| dStmts := stmts; dConsumed := pos; dErr := None |}
  | S fuel, _ =>
      match http_turn i dir rest with
      | Wait => {| dStmts := stmts; dConsumed := pos; dErr := None |}
      | Malformed => {| dStmts := stmts; dConsumed := pos; dErr := Some ErrMalformed |}
      | Message s n => http_loop fuel i dir (drop n rest) (pos + n) (stmts ++ [s])
      end
  end.

#[global] Instance http_codec : Codec HttpInspector := {
  codec_Protocol _ := Protocol.HTTP;
  Decode i dir data := (i, http_loop (length data) i dir data 0 []);
}.
End Http.
