(* ===== verification/TdsCodec.v ===== *)
(** * The MSSQL (TDS) codec: src/hoopinspect/codec/mssql/mssql.go and encrypted.go

    [TdsCodec] is the decoding half of the Go struct; the response rewriter's
    fields are independent of it.  The loops of [Decode], [decodeServer] and
    [consumeEncrypted] follow the source, with fuel; the rest of the buffer
    stands for [data[pos:]]. *)

From S2P Require Import Prelude GoStrings GoText Utf Types Scan Keywords Analyze SqlMeta Inspect.

(** ** Constants *)

Definition pktSQLBatch : byte := x01.
Definition pktRPCRequest : byte := x03.
Definition pktReply : byte := x04.
Definition pktLogin7 : byte := x10.
Definition pktSSPIMessage : byte := x11.
Definition pktPrelogin : byte := x12.
Definition headerLen : nat := 8.
Definition procIDExecuteSQL : Z := 10.
Definition typeNVarChar : byte := xe7.
Definition maxMessageLen : Z := Z.shiftl 16 20.
Definition tlsHeaderLen : nat := 5.
Definition tlsRecordMax : Z := (2 ^ 14 + 2048)%Z.
Definition maxEncryptedLogin : Z := Z.shiftl 32 10.
Definition metaEncryptedLogin : bytes := B "mssql.login_encrypted".
Definition tokenEnvChange : byte := xe3.
Definition tokenLoginAck : byte := xad.
Definition tokenDone : byte := xfd.
Definition envTypeRouting : byte := x14.
Definition routingTCP : byte := x00.
Definition doneTokenLen : nat := 13.

(** [status&statusEOM != 0] *)
Definition is_eom (status : byte) : bool := Z.odd (bval status).

Record TdsCodec := {
  td_pending : bytes;
  td_pendTyp : byte;
  td_srvPending : bytes;
  td_routingRetired : bool;
  td_seenPrelogin : bool;
  td_inTLS : bool;
  td_tlsResynced : bool;
  td_tlsBytes : Z;
  td_loginEncrypted : bool;
}.

(** [&Codec{}] *)
Definition new_tds : TdsCodec :=
  {| td_pending := []; td_pendTyp := x00; td_srvPending := []; td_routingRetired := false;
     td_seenPrelogin := false; td_inTLS := false; td_tlsResynced := false; td_tlsBytes := 0;
     td_loginEncrypted := false |}.

Definition set_pending (c : TdsCodec) (p : bytes) (typ : byte) : TdsCodec :=
  {| td_pending := p; td_pendTyp := typ; td_srvPending := td_srvPending c;
     td_routingRetired := td_routingRetired c; td_seenPrelogin := td_seenPrelogin c;
     td_inTLS := td_inTLS c; td_tlsResynced := td_tlsResynced c; td_tlsBytes := td_tlsBytes c;
     td_loginEncrypted := td_loginEncrypted c |}.

Definition set_prelogin (c : TdsCodec) (b : bool) : TdsCodec :=
  {| td_pending := td_pending c; td_pendTyp := td_pendTyp c; td_srvPending := td_srvPending c;
     td_routingRetired := td_routingRetired c; td_seenPrelogin := b;
     td_inTLS := td_inTLS c; td_tlsResynced := td_tlsResynced c; td_tlsBytes := td_tlsBytes c;
     td_loginEncrypted := td_loginEncrypted c |}.

Definition set_tls (c : TdsCodec) (inTLS resynced : bool) (n : Z) (enc : bool) : TdsCodec :=
  {| td_pending := td_pending c; td_pendTyp := td_pendTyp c; td_srvPending := td_srvPending c;
     td_routingRetired := td_routingRetired c; td_seenPrelogin := td_seenPrelogin c;
     td_inTLS := inTLS; td_tlsResynced := resynced; td_tlsBytes := n;
     td_loginEncrypted := enc |}.

Definition set_srv (c : TdsCodec) (p : bytes) (retired : bool) : TdsCodec :=
  {| td_pending := td_pending c; td_pendTyp := td_pendTyp c; td_srvPending := p;
     td_routingRetired := retired; td_seenPrelogin := td_seenPrelogin c;
     td_inTLS := td_inTLS c; td_tlsResynced := td_tlsResynced c; td_tlsBytes := td_tlsBytes c;
     td_loginEncrypted := td_loginEncrypted c |}.

(** ** Text *)

(** The little-endian 16-bit units of a slice; a trailing odd byte is dropped. *)
Fixpoint u16s (b : bytes) : list Z :=
  match b with
  | lo :: hi :: r => (bval lo + 256 * bval hi)%Z :: u16s r
  | _ => []
  end.

Definition ucs2ToString (b : bytes) : bytes := utf8_String (utf16_Decode (u16s b)).

(** ** Encrypted login pass-through *)

Definition isTLSRecord (b : bytes) : bool :=
  if (length b <? tlsHeaderLen)%nat then false
  else if negb ((byte_at b 0 =b x14) || (byte_at b 0 =b x15) || (byte_at b 0 =b x16)
                || (byte_at b 0 =b x17)) then false
  else if negb (byte_at b 1 =b x03) || (4 <? bval (byte_at b 2))%Z then false
  else
    let n := be_u16 (drop 3 b) in
    ((0 <? n) && (n <=? tlsRecordMax))%Z.

(** The record at the front: header and declared payload. *)
Definition record_len (b : bytes) : nat := tlsHeaderLen + Z.to_nat (be_u16 (drop 3 b)).

(** Plaintext resumed: the region is closed for good. *)
Definition latch_tls (c : TdsCodec) : TdsCodec := set_tls c false true (td_tlsBytes c) true.

Definition count_tls (c : TdsCodec) (n : nat) : TdsCodec :=
  set_tls c (td_inTLS c) (td_tlsResynced c) (td_tlsBytes c + Z.of_nat n) (td_loginEncrypted c).

(** [consumeEncrypted]: the codec, the bytes consumed, whether it is still
    inside, and the error. *)
Fixpoint consumeEncrypted (fuel : nat) (c : TdsCodec) (b : bytes)
  : TdsCodec * nat * bool * option InspectError :=
  match fuel with
  | O => (c, 0, true, None)
  | S fuel =>
      if (length b <? headerLen)%nat then (c, 0, true, None)
      else if negb (isTLSRecord b) then (latch_tls c, 0, false, None)
      else
        let recLen := record_len b in
        if (length b <? recLen)%nat then (c, 0, true, None)
        else
          let c := count_tls c recLen in
          if (maxEncryptedLogin <? td_tlsBytes c)%Z then (c, recLen, true, Some ErrStreamUnsafe)
          else
            let '(c, n, inside, err) := consumeEncrypted fuel c (drop recLen b) in
            (c, recLen + n, inside, err)
  end.

Definition serverCiphertext (b : bytes) : option InspectError :=
  if (length b <? headerLen)%nat || negb (isTLSRecord b) then None else Some ErrStreamUnsafe.

Definition enter_tls (c : TdsCodec) : TdsCodec :=
  set_tls c true (td_tlsResynced c) (td_tlsBytes c) (td_loginEncrypted c).

Definition encryptedRegion (c : TdsCodec) (b : bytes) (allowEnter : bool)
  : TdsCodec * nat * bool * option InspectError :=
  if negb (td_inTLS c) then
    if (length b <? headerLen)%nat || negb (isTLSRecord b) then (c, 0, false, None)
    else if td_tlsResynced c then (c, 0, false, Some ErrStreamUnsafe)
    else if negb allowEnter then (c, 0, false, Some ErrStreamUnsafe)
    else consumeEncrypted (S (length b)) (enter_tls c) b
  else consumeEncrypted (S (length b)) c b.

(** ** Statements in client messages *)

Definition msgName (typ : byte) : bytes :=
  if typ =b pktSQLBatch then B "SQLBatch" else B "RPCRequest".

Definition decodeSQLBatch (body : bytes) : bytes :=
  if (length body <? 4)%nat then []
  else
    let hdrLen := le_u32 body in
    if ((4 <=? hdrLen) && (hdrLen <=? Z.of_nat (length body)))%Z
    then ucs2ToString (drop (Z.to_nat hdrLen) body)
    else ucs2ToString body.

(** The part of [decodeRPCRequest] after the procedure id and option flags:
    the first parameter. *)
Definition first_parameter (b : bytes) : bytes * bytes :=
  if (length b <? 1)%nat then ([], [])
  else
    let nameLen := (Z.to_nat (bval (byte_at b 0)) * 2)%nat in
    if (length b <? 1 + nameLen + 2)%nat then ([], [])
    else
      let b := drop (1 + nameLen + 1) b in
      if negb (byte_at b 0 =b typeNVarChar) then ([], [])
      else
        let b := drop 1 b in
        if (length b <? 7)%nat then ([], [])
        else
          let b := drop 7 b in
          if (length b <? 2)%nat then ([], [])
          else
            let dataLen := le_u16 b in
            if (dataLen =? 65535)%Z then ([], [])
            else
              let b := drop 2 b in
              let n := Z.to_nat dataLen `min` length b in
              (ucs2ToString (take n b), B "sp_executesql").

Definition decodeRPCRequest (body : bytes) : bytes * bytes :=
  if (length body <? 4)%nat then ([], [])
  else
    let hdrLen := le_u32 body in
    if ((hdrLen <? 4) || (Z.of_nat (length body) <? hdrLen))%Z then ([], [])
    else
      let b := drop (Z.to_nat hdrLen) body in
      if (length b <? 4)%nat || negb (byte_at b 0 =b xff) || negb (byte_at b 1 =b xff)
      then ([], [])
      else if negb (le_u16 (drop 2 b) =? procIDExecuteSQL)%Z then ([], [])
      else
        let b := drop 4 b in
        if (length b <? 2)%nat then ([], [])
        else first_parameter (drop 2 b).

Section Client.
Context `{GoUnicode}.

(** [hoopinspect.Statement{...}] with its metadata. *)
Definition tds_statement (encrypted : bool) (typ : byte) (text proc : bytes) : Statement :=
  let a := AnalyzeSQL text Protocol.MSSQL in
  let md : gmap bytes bytes := {[ B "mssql.message" := msgName typ ]} in
  let md := if proc =s [] then md else <[ B "mssql.proc" := proc ]> md in
  let md := if encrypted then <[ metaEncryptedLogin := B "true" ]> md else md in
  let md := if sqComplete a then md else <[ MetadataSQLIncomplete := sqReason a ]> md in
  {| stProtocol := Protocol.MSSQL; stDirection := FromClient; stText := text;
     stOperation := sqOperation a; stEffects := sqEffects a; stRelations := sqRelations a;
     stTables := sqTables a; stDatabase := []; stHTTP := None; stResult := None;
     stMetadata := md |}.

(** The statements of a whole message. *)
Definition message_statements (encrypted : bool) (typ : byte) (msg : bytes) : list Statement :=
  let '(text, proc) :=
    if typ =b pktSQLBatch then (decodeSQLBatch msg, []) else decodeRPCRequest msg in
  if TrimSpace text =s [] then [] else [tds_statement encrypted typ text proc].

(** A packet at the front of the buffer: the loop body of [Decode] after the
    encrypted region. *)
Definition client_packet (c : TdsCodec) (data : bytes) : Step TdsCodec :=
  if (length data <? headerLen)%nat then NeedMore c
  else
    let typ := byte_at data 0 in
    let status := byte_at data 1 in
    let len := Z.to_nat (be_u16 (drop 2 data)) in
    if (len <? headerLen)%nat then Refuse 0 c ErrMalformed
    else if (length data <? len)%nat then NeedMore c
    else
      let payload := take (len - headerLen) (drop headerLen data) in
      if negb (typ =b pktSQLBatch) && negb (typ =b pktRPCRequest) then
        let c := if typ =b pktPrelogin then set_prelogin c true else c in
        Frame len (set_pending c [] x00) []
      else if (maxMessageLen <? Z.of_nat (length (td_pending c) + length payload))%Z
      then Refuse len (set_pending c [] x00) ErrMalformed
      else
        let msg := td_pending c ++ payload in
        if negb (is_eom status) then Frame len (set_pending c msg typ) []
        else Frame len (set_pending c [] x00) (message_statements (td_loginEncrypted c) typ msg).

(** Prefix a result with what was consumed and found before it. *)
Definition after (n : nat) (stmts : list Statement) (r : TdsCodec * Decoded) : TdsCodec * Decoded :=
  (r.1, {| dStmts := stmts ++ dStmts r.2; dConsumed := n + dConsumed r.2; dErr := dErr r.2 |}).

(** The loop of [Decode] for the client. *)
Fixpoint decode_client (fuel : nat) (c : TdsCodec) (data : bytes) : TdsCodec * Decoded :=
  match fuel with
  | O => (c, no_output)
  | S fuel =>
      match encryptedRegion c data (td_seenPrelogin c) with
      | (c, n, _, Some e) => (c, {| dStmts := []; dConsumed := n; dErr := Some e |})
      | (c, n, true, None) => (c, {| dStmts := []; dConsumed := n; dErr := None |})
      | (c, n, false, None) =>
          if (0 <? n)%nat then after n [] (decode_client fuel c (drop n data))
          else
            match client_packet c data with
            | NeedMore c => (c, no_output)
            | Refuse n c e => (c, {| dStmts := []; dConsumed := n; dErr := Some e |})
            | Frame n c stmts => after n stmts (decode_client fuel c (drop n data))
            end
      end
  end.
End Client.

(** ** Server messages *)

(** One candidate ENVCHANGE: the redirect target. *)
Definition parseRoutingEnvChange (b : bytes) : option (bytes * bytes) :=
  let minLen := 13%nat in
  if (length b <? minLen)%nat then None
  else
    let tokenLen := Z.to_nat (le_u16 (drop 1 b)) in
    if (tokenLen <? minLen - 3)%nat || (length b <? 3 + tokenLen)%nat then None
    else if negb (byte_at b 3 =b envTypeRouting) then None
    else
      let valueLen := Z.to_nat (le_u16 (drop 4 b)) in
      if (valueLen <? 5)%nat || (3 + tokenLen <? 6 + valueLen)%nat then None
      else if negb (byte_at b 6 =b routingTCP) then None
      else
        let portNum := le_u16 (drop 7 b) in
        let nameBytes := (Z.to_nat (le_u16 (drop 9 b)) * 2)%nat in
        if negb (5 + nameBytes =? valueLen)%nat || (length b <? 11 + nameBytes)%nat then None
        else Some (ucs2ToString (take nameBytes (drop 11 b)), itoa portNum).

Fixpoint findRoutingEnvChange (body : bytes) : option (bytes * bytes) :=
  match body with
  | [] => None
  | c :: r =>
      if negb (c =b tokenEnvChange) then findRoutingEnvChange r
      else
        match parseRoutingEnvChange body with
        | Some found => Some found
        | None => findRoutingEnvChange r
        end
  end.

(** The test of [hasLoginAck] at one offset. *)
Definition login_ack_here (b : bytes) : bool :=
  if (length b <? 3)%nat || negb (byte_at b 0 =b tokenLoginAck) then false
  else
    let n := le_u16 (drop 1 b) in
    if ((n <? 10) || (Z.of_nat (length b) <? 3 + n))%Z then false
    else (n =? 10 + 2 * bval (byte_at b 8))%Z.

Fixpoint hasLoginAck (b : bytes) : bool :=
  match b with
  | [] => false
  | _ :: r => login_ack_here b || hasLoginAck r
  end.

Definition isLoginResponse (msg : bytes) : bool :=
  if (length msg <? doneTokenLen)%nat
     || negb (byte_at msg (length msg - doneTokenLen) =b tokenDone) then false
  else hasLoginAck (take (length msg - doneTokenLen) msg).

(** The loop body of [decodeServer]. *)
Definition server_packet (c : TdsCodec) (data : bytes) : Step TdsCodec :=
  match serverCiphertext data with
  | Some e => Refuse 0 c e
  | None =>
      if (length data <? headerLen)%nat then NeedMore c
      else
        let typ := byte_at data 0 in
        let status := byte_at data 1 in
        let len := Z.to_nat (be_u16 (drop 2 data)) in
        if (len <? headerLen)%nat then Refuse 0 c ErrMalformed
        else if (length data <? len)%nat then NeedMore c
        else
          let payload := take (len - headerLen) (drop headerLen data) in
          if negb (typ =b pktReply) then Frame len (set_srv c [] (td_routingRetired c)) []
          else
            let reassemble := (0 <? length (td_srvPending c))%nat || negb (is_eom status) in
            if reassemble
               && (maxMessageLen <? Z.of_nat (length (td_srvPending c) + length payload))%Z
            then Refuse len (set_srv c [] (td_routingRetired c)) ErrMalformed
            else
              let msg := if reassemble then td_srvPending c ++ payload else payload in
              if negb (is_eom status) then Frame len (set_srv c msg (td_routingRetired c)) []
              else
                match findRoutingEnvChange msg with
                | Some _ => Refuse len (set_srv c [] (td_routingRetired c)) ErrStreamUnsafe
                | None =>
                    if isLoginResponse msg then Frame len (set_srv c [] true) []
                    else Frame len (set_srv c [] (td_routingRetired c)) []
                end
  end.

(** The loop of [decodeServer]; retiring the scan ends it with everything
    consumed. *)
Fixpoint server_loop (fuel : nat) (c : TdsCodec) (data : bytes) : TdsCodec * Decoded :=
  match fuel with
  | O => (c, no_output)
  | S fuel =>
      match server_packet c data with
      | NeedMore c => (c, no_output)
      | Refuse n c e => (c, {| dStmts := []; dConsumed := n; dErr := Some e |})
      | Frame n c stmts =>
          if td_routingRetired c
          then (c, {| dStmts := []; dConsumed := length data; dErr := None |})
          else after n stmts (server_loop fuel c (drop n data))
      end
  end.

Definition decodeServer (c : TdsCodec) (data : bytes) : TdsCodec * Decoded :=
  if td_routingRetired c
  then (c, {| dStmts := []; dConsumed := length data; dErr := None |})
  else server_loop (S (length data)) c data.

#[global] Instance tds_codec `{GoUnicode} : Codec TdsCodec := {|
  codec_Protocol _ := Protocol.MSSQL;
  Decode c dir data :=
    match dir with
    | FromServer => decodeServer c data
    | FromClient => decode_client (S (length data)) c data
    end;
|}.

(** ** What a caller may ask of a single packet *)

Record LoginInfo := {
  liUsername : bytes;
  liDatabase : bytes;
  liAppName : bytes;
  liUsesSSPI : bool;
}.

(** The offset and length pair at [off] of a LOGIN7 body. *)
Definition login_pair (body : bytes) (off : nat) : nat * nat :=
  (Z.to_nat (le_u16 (drop off body)), Z.to_nat (le_u16 (drop (off + 2) body))).

Definition login_str (body : bytes) (off : nat) : bytes :=
  let '(o, l) := login_pair body off in
  let l := (l * 2)%nat in
  if (o =? 0)%nat || (l =? 0)%nat || (length body <? o + l)%nat then []
  else ucs2ToString (take l (drop o body)).

Definition DetectSSPI (packet : bytes) : option LoginInfo :=
  if (length packet <? headerLen)%nat || negb (byte_at packet 0 =b pktLogin7) then None
  else
    let len := Z.to_nat (be_u16 (drop 2 packet)) in
    if (len <? headerLen)%nat || (length packet <? len)%nat then None
    else
      let body := take (len - headerLen) (drop headerLen packet) in
      if (length body <? 94)%nat then None
      else
        let '(sspiOff, sspiLen) := login_pair body 78 in
        Some {| liUsername := login_str body 40; liDatabase := login_str body 64;
                liAppName := login_str body 48;
                liUsesSSPI := (0 <? sspiLen)%nat && (0 <? sspiOff)%nat
                              && (sspiOff + sspiLen <=? length body)%nat |}.

Definition IsPrelogin (packet : bytes) : bool :=
  (headerLen <=? length packet)%nat && (byte_at packet 0 =b pktPrelogin).

Definition IsSSPIMessage (packet : bytes) : bool :=
  (headerLen <=? length packet)%nat && (byte_at packet 0 =b pktSSPIMessage).
