(* ===== verification/TdsFacts.v ===== *)
(** * The TDS codec as a framed codec

    The source's decoding loops, with the nested walk over TLS records, are
    shown equal to the iteration of a single step, and the step's decisions
    stable under more input: the instances of [Framed] for both directions. *)

From S2P Require Import Prelude GoStrings GoText Utf Types SqlMeta Inspect TdsCodec.

(** ** The step of the client direction *)

Section Steps.
Context `{GoUnicode}.

Definition tls_step (c : TdsCodec) (data : bytes) : Step TdsCodec :=
  if (length data <? headerLen)%nat then NeedMore c
  else if negb (isTLSRecord data) then client_packet (latch_tls c) data
  else if (length data <? record_len data)%nat then NeedMore c
  else
    let c := count_tls c (record_len data) in
    if (maxEncryptedLogin <? td_tlsBytes c)%Z then Refuse (record_len data) c ErrStreamUnsafe
    else Frame (record_len data) c [].

Definition tds_client_step (c : TdsCodec) (data : bytes) : Step TdsCodec :=
  if td_inTLS c then tls_step c data
  else if (length data <? headerLen)%nat || negb (isTLSRecord data) then client_packet c data
  else if td_tlsResynced c || negb (td_seenPrelogin c) then Refuse 0 c ErrStreamUnsafe
  else tls_step (enter_tls c) data.

(** Once the scan is retired every byte passes. *)
Definition tds_server_step (c : TdsCodec) (data : bytes) : Step TdsCodec :=
  if td_routingRetired c then match data with [] => NeedMore c | _ => Frame 1 c [] end
  else server_packet c data.

(** ** Stability *)

Lemma isTLSRecord_app d k : 8 <= length d -> isTLSRecord (d ++ k) = isTLSRecord d.
Proof.
  intros Hd. unfold isTLSRecord, tlsHeaderLen.
  rewrite !byte_at_app, be_u16_drop_app by lia. rewrite length_app.
  destruct (length d <? 5)%nat eqn:E1, (length d + length k <? 5)%nat eqn:E2;
    bool_hyps; try lia; done.
Qed.

Lemma record_len_app d k : 8 <= length d -> record_len (d ++ k) = record_len d.
Proof. intros Hd. unfold record_len. by rewrite be_u16_drop_app by lia. Qed.

Lemma record_len_pos d : 0 < record_len d.
Proof. unfold record_len, tlsHeaderLen. lia. Qed.

(** The bytes a packet at the front declares. *)
Definition packet_len (d : bytes) : nat := Z.to_nat (be_u16 (drop 2 d)).

Lemma packet_payload_app d k :
  8 <= packet_len d <= length d ->
  packet_len (d ++ k) = packet_len d
  /\ take (packet_len d - headerLen) (drop headerLen (d ++ k))
     = take (packet_len d - headerLen) (drop headerLen d).
Proof.
  intros Hl. unfold packet_len in *. rewrite be_u16_drop_app by lia. split; [done|].
  unfold headerLen in *. rewrite drop_app_le by lia. apply take_app_prefix.
  rewrite length_drop. lia.
Qed.

(** Split on the length tests of a step, before and after appending. *)
Ltac len_tests :=
  repeat match goal with
  | |- context [(length ?d <? ?n)%nat] => destruct (length d <? n)%nat eqn:?; bool_hyps
  end; rewrite ?length_app in *; unfold headerLen in *; try lia.

Lemma client_packet_app c d k :
  client_packet c d <> NeedMore c -> client_packet c (d ++ k) = client_packet c d.
Proof.
  unfold client_packet. destruct (length d <? headerLen)%nat eqn:E8; [done|].
  bool_hyps. unfold headerLen in E8.
  replace (length (d ++ k) <? headerLen)%nat with false
    by (symmetry; apply Nat.ltb_ge; rewrite length_app; unfold headerLen; lia).
  rewrite !byte_at_app, be_u16_drop_app by lia. fold (packet_len d).
  destruct (packet_len d <? headerLen)%nat eqn:E1; [done|].
  destruct (length d <? packet_len d)%nat eqn:E2; [done|]. bool_hyps. unfold headerLen in E1.
  replace (length (d ++ k) <? packet_len d)%nat with false
    by (symmetry; apply Nat.ltb_ge; rewrite length_app; lia).
  destruct (packet_payload_app d k) as [_ ->]; [lia|]. done.
Qed.

Lemma client_packet_frame c d n c' stmts :
  client_packet c d = Frame n c' stmts -> 0 < n <= length d.
Proof.
  unfold client_packet, headerLen. intros E. repeat case_match; simplify_eq; bool_hyps; lia.
Qed.

Lemma client_packet_refuse c d n c' e : client_packet c d = Refuse n c' e -> n <= length d.
Proof.
  unfold client_packet, headerLen. intros E. repeat case_match; simplify_eq; bool_hyps; lia.
Qed.

Lemma client_packet_need c d c' : client_packet c d = NeedMore c' -> c' = c.
Proof. unfold client_packet. intros E. repeat case_match; simplify_eq; done. Qed.

(** What a step's outcome promises under more input. *)
Definition step_promise (step : TdsCodec -> bytes -> Step TdsCodec) (c : TdsCodec) (d : bytes) : Prop :=
  match step c d with
  | NeedMore c' => forall k, step c' (d ++ k) = step c (d ++ k)
  | Refuse n _ _ => n <= length d /\ forall k, step c (d ++ k) = step c d
  | Frame n _ _ => 0 < n <= length d /\ forall k, step c (d ++ k) = step c d
  end.

Lemma client_packet_promise c d : step_promise client_packet c d.
Proof.
  unfold step_promise. pose proof (client_packet_app c d) as Ha.
  destruct (client_packet c d) as [c'|n c' e|n c' stmts] eqn:E.
  - apply client_packet_need in E. by subst.
  - split; [by eapply client_packet_refuse|]. intros k. by apply Ha.
  - split; [by eapply client_packet_frame|]. intros k. by apply Ha.
Qed.

(** Plaintext after the region: the packet is read with the latch set. *)
Lemma step_plain c d :
  td_inTLS c = false -> isTLSRecord d = false -> tds_client_step c d = client_packet c d.
Proof. intros Hc Hd. unfold tds_client_step. by rewrite Hc, Hd, orb_true_r. Qed.

Lemma step_inside c d : td_inTLS c = true -> tds_client_step c d = tls_step c d.
Proof. intros Hc. unfold tds_client_step. by rewrite Hc. Qed.

Lemma tls_step_latch c d :
  8 <= length d -> isTLSRecord d = false -> tls_step c d = client_packet (latch_tls c) d.
Proof.
  intros Hd Ht. unfold tls_step. rewrite Ht. destruct (_ <? _)%nat eqn:E; [|done].
  bool_hyps. unfold headerLen in *. lia.
Qed.

Lemma tls_step_promise c d :
  td_inTLS c = true ->
  match tls_step c d with
  | NeedMore c' => forall k, tds_client_step c' (d ++ k) = tls_step c (d ++ k)
  | Refuse n _ _ => n <= length d /\ forall k, tls_step c (d ++ k) = tls_step c d
  | Frame n _ _ => 0 < n <= length d /\ forall k, tls_step c (d ++ k) = tls_step c d
  end.
Proof.
  intros Hc. destruct (decide (length d < 8)) as [Hs|Hl].
  { unfold tls_step at 1. replace (length d <? headerLen)%nat with true
      by (symmetry; apply Nat.ltb_lt; done).
    intros k. by apply step_inside. }
  destruct (isTLSRecord d) eqn:Ht.
  - unfold tls_step. rewrite Ht. cbn [negb].
    replace (length d <? headerLen)%nat with false
      by (symmetry; apply Nat.ltb_ge; unfold headerLen; lia).
    destruct (length d <? record_len d)%nat eqn:E1.
    + intros k. by apply step_inside.
    + bool_hyps. pose proof (record_len_pos d).
      destruct (_ <? td_tlsBytes _)%Z eqn:E2; (split; [lia|]); intros k;
        rewrite isTLSRecord_app, record_len_app, Ht, E2 by lia; cbn [negb];
        len_tests; done.
  - pose proof (client_packet_promise (latch_tls c) d) as Hp. unfold step_promise in Hp.
    assert (Hk : forall k, tls_step c (d ++ k) = client_packet (latch_tls c) (d ++ k)).
    { intros k. apply tls_step_latch; [rewrite length_app; lia|].
      by rewrite isTLSRecord_app by lia. }
    rewrite (tls_step_latch c d) by (lia || done).
    destruct (client_packet (latch_tls c) d) as [c'|n c' e|n c' stmts] eqn:E.
    + apply client_packet_need in E as ->. intros k. rewrite Hk.
      apply step_plain; [done|]. by rewrite isTLSRecord_app by lia.
    + destruct Hp as [? Hp]. split; [done|]. intros k. by rewrite Hk, Hp.
    + destruct Hp as [? Hp]. split; [done|]. intros k. by rewrite Hk, Hp.
Qed.

(** When a step behaves like [g] on every extension, [g]'s promise is its own. *)
Lemma promise_as (step : TdsCodec -> bytes -> Step TdsCodec) c d (g : bytes -> Step TdsCodec) :
  (forall k, step c (d ++ k) = g (d ++ k)) ->
  match g d with
  | NeedMore c' => forall k, step c' (d ++ k) = g (d ++ k)
  | Refuse n _ _ => n <= length d /\ forall k, g (d ++ k) = g d
  | Frame n _ _ => 0 < n <= length d /\ forall k, g (d ++ k) = g d
  end -> step_promise step c d.
Proof.
  intros Hg Hp. pose proof (Hg []) as H0. rewrite !app_nil_r in H0.
  unfold step_promise. rewrite H0.
  destruct (g d); [|destruct Hp as [? Hp]; split; [done|]..]; intros k; by rewrite Hg, Hp.
Qed.

Lemma tds_client_promise c d : step_promise tds_client_step c d.
Proof.
  destruct (td_inTLS c) eqn:Hin.
  { apply (promise_as _ _ _ (tls_step c)); [intros k; by apply step_inside|].
    by apply tls_step_promise. }
  destruct (decide (length d < 8)) as [Hs|Hl].
  { assert (tds_client_step c d = NeedMore c) as Hn; [|unfold step_promise; by rewrite Hn].
    unfold tds_client_step, client_packet. rewrite Hin. len_tests. done. }
  destruct (isTLSRecord d) eqn:Ht.
  - assert (Hk : forall k, tds_client_step c (d ++ k)
      = if td_tlsResynced c || negb (td_seenPrelogin c) then Refuse 0 c ErrStreamUnsafe
        else tls_step (enter_tls c) (d ++ k)).
    { intros k. unfold tds_client_step. rewrite Hin, isTLSRecord_app, Ht by lia.
      cbn [negb]. len_tests; done. }
    destruct (td_tlsResynced c || negb (td_seenPrelogin c)).
    + apply (promise_as _ _ _ (fun _ => Refuse 0 c ErrStreamUnsafe)); [done|].
      split; [lia|done].
    + apply (promise_as _ _ _ (tls_step (enter_tls c))); [done|].
      by apply (tls_step_promise (enter_tls c)).
  - assert (Hk : forall k, tds_client_step c (d ++ k) = client_packet c (d ++ k)).
    { intros k. apply step_plain; [done|]. by rewrite isTLSRecord_app by lia. }
    apply (promise_as _ _ _ (client_packet c)); [done|].
    pose proof (client_packet_promise c d) as Hp. unfold step_promise in Hp.
    destruct (client_packet c d) as [c'|n c' e|n c' stmts] eqn:E; [|done..].
    apply client_packet_need in E as ->. done.
Qed.

(** ** The server direction *)

Lemma serverCiphertext_app d k :
  8 <= length d -> serverCiphertext (d ++ k) = serverCiphertext d.
Proof.
  intros Hd. unfold serverCiphertext. rewrite isTLSRecord_app by done. len_tests; done.
Qed.

Lemma server_packet_short c d : length d < 8 -> server_packet c d = NeedMore c.
Proof. intros Hd. unfold server_packet, serverCiphertext. len_tests. done. Qed.

Lemma server_packet_app c d k :
  server_packet c d <> NeedMore c -> server_packet c (d ++ k) = server_packet c d.
Proof.
  destruct (decide (length d < 8)) as [Hs|Hl]; [by rewrite server_packet_short|].
  unfold server_packet. rewrite serverCiphertext_app by lia.
  destruct (serverCiphertext d); [done|].
  replace (length d <? headerLen)%nat with false
    by (symmetry; apply Nat.ltb_ge; unfold headerLen; lia).
  replace (length (d ++ k) <? headerLen)%nat with false
    by (symmetry; apply Nat.ltb_ge; rewrite length_app; unfold headerLen; lia).
  rewrite !byte_at_app, be_u16_drop_app by lia. fold (packet_len d).
  destruct (packet_len d <? headerLen)%nat eqn:E1; [done|].
  destruct (length d <? packet_len d)%nat eqn:E2; [done|]. bool_hyps. unfold headerLen in E1.
  replace (length (d ++ k) <? packet_len d)%nat with false
    by (symmetry; apply Nat.ltb_ge; rewrite length_app; lia).
  destruct (packet_payload_app d k) as [_ ->]; [lia|]. done.
Qed.

Lemma server_packet_bound c d :
  match server_packet c d with
  | NeedMore c' => c' = c
  | Refuse n _ _ => n <= length d
  | Frame n _ stmts => 0 < n <= length d /\ stmts = []
  end.
Proof.
  unfold server_packet, headerLen. repeat case_match; simplify_eq; bool_hyps;
    try done; try lia; (split; [lia|done]).
Qed.

Lemma tds_server_promise c d : step_promise tds_server_step c d.
Proof.
  destruct (td_routingRetired c) eqn:Hr.
  { unfold step_promise, tds_server_step. rewrite Hr. destruct d; simpl; rewrite ?Hr; [done|].
    split; [lia|done]. }
  apply (promise_as _ _ _ (server_packet c)).
  { intros k. unfold tds_server_step. by rewrite Hr. }
  pose proof (server_packet_app c d) as Ha. pose proof (server_packet_bound c d) as Hb.
  destruct (server_packet c d) as [c'|n c' e|n c' stmts].
  - subst c'. intros k. unfold tds_server_step. by rewrite Hr.
  - split; [done|]. intros k. by apply Ha.
  - split; [apply Hb|]. intros k. by apply Ha.
Qed.

(** ** The loops are the iteration of the steps *)

Section Iterate.
Context (step : TdsCodec -> bytes -> Step TdsCodec).
Hypothesis promise : forall c d, step_promise step c d.
Hypothesis step_nil : forall c, step c [] = NeedMore c.

Definition iterate (c : TdsCodec) (d : bytes) : TdsCodec * Decoded := frames step (length d) c d.

Lemma promise_stable c data n c' stmts more :
  step c data = Frame n c' stmts ->
  step c (data ++ more) = Frame n c' stmts /\ 0 < n <= length data.
Proof.
  intros E. pose proof (promise c data) as Hp. unfold step_promise in Hp. rewrite E in Hp.
  destruct Hp as [Hn Hp]. by rewrite Hp.
Qed.

Lemma promise_refuse c data n c' e more :
  step c data = Refuse n c' e -> step c (data ++ more) = Refuse n c' e /\ n <= length data.
Proof.
  intros E. pose proof (promise c data) as Hp. unfold step_promise in Hp. rewrite E in Hp.
  destruct Hp as [Hn Hp]. by rewrite Hp.
Qed.

Lemma promise_need c data c' more :
  step c data = NeedMore c' -> step c' (data ++ more) = step c (data ++ more).
Proof.
  intros E. pose proof (promise c data) as Hp. unfold step_promise in Hp. by rewrite E in Hp.
Qed.

Lemma iterate_eq c d :
  iterate c d = match step c d with
    | NeedMore c' => (c', no_output)
    | Refuse n c' e => (c', {| dStmts := []; dConsumed := n; dErr := Some e |})
    | Frame n c' stmts => after n stmts (iterate c' (drop n d))
    end.
Proof.
  unfold iterate. destruct d as [|b d]; [by rewrite step_nil|]. cbn [length frames].
  destruct (step c (b :: d)) as [c'|n c' e|n c' stmts] eqn:E; [done..|].
  apply (promise_stable _ _ _ _ _ []) in E as [_ Hn].
  rewrite (frames_fuel step promise_stable (length d) (length (drop n (b :: d))))
    by (rewrite length_drop; simpl in *; lia).
  by destruct (frames step _ c' _).
Qed.
End Iterate.

Lemma after_0 r : after 0 [] r = r.
Proof. by destruct r as [c []]. Qed.

Lemma after_after n m s r : after n [] (after m s r) = after (n + m) s r.
Proof. unfold after. simpl. by rewrite Nat.add_assoc. Qed.

Lemma client_step_nil c : tds_client_step c [] = NeedMore c.
Proof. unfold tds_client_step, tls_step, client_packet. by destruct (td_inTLS c). Qed.

Lemma server_step_nil c : tds_server_step c [] = NeedMore c.
Proof. unfold tds_server_step. by destruct (td_routingRetired c). Qed.

#[local] Abbreviation client_run := (iterate tds_client_step).
#[local] Abbreviation server_run := (iterate tds_server_step).

Lemma client_run_eq c d :
  client_run c d = match tds_client_step c d with
    | NeedMore c' => (c', no_output)
    | Refuse n c' e => (c', {| dStmts := []; dConsumed := n; dErr := Some e |})
    | Frame n c' stmts => after n stmts (client_run c' (drop n d))
    end.
Proof. apply iterate_eq; [apply tds_client_promise|apply client_step_nil]. Qed.

(** The walk over TLS records, and where it leaves the codec. *)
Lemma consume_run fuel c b c1 n inside err :
  td_inTLS c = true -> length b < fuel -> consumeEncrypted fuel c b = (c1, n, inside, err) ->
  client_run c b = match err with
    | Some e => (c1, {| dStmts := []; dConsumed := n; dErr := Some e |})
    | None => if inside then (c1, {| dStmts := []; dConsumed := n; dErr := None |})
              else after n [] (client_run c1 (drop n b))
    end
  /\ (err = None -> inside = false -> td_inTLS c1 = false /\ isTLSRecord (drop n b) = false
       /\ n <= length b).
Proof.
  revert c b c1 n. induction fuel as [|fuel IH]; intros c b c1 n Hin Hf; [lia|].
  cbn [consumeEncrypted]. rewrite client_run_eq, step_inside by done. unfold tls_step.
  destruct (length b <? headerLen)%nat eqn:E8; [by intros [= <- <- <- <-]|].
  destruct (isTLSRecord b) eqn:Et; cbn [negb].
  2:{ intros [= <- <- <- <-]. rewrite drop_0, after_0. split; [|intros _ _; split; [done|split; [done|lia]]].
      rewrite client_run_eq, step_plain by done. done. }
  destruct (length b <? record_len b)%nat eqn:Er; [by intros [= <- <- <- <-]|].
  destruct (_ <? td_tlsBytes _)%Z eqn:Em; [by intros [= <- <- <- <-]|].
  pose proof (record_len_pos b). bool_hyps.
  destruct (consumeEncrypted fuel _ _) as [[[c2 n2] in2] e2] eqn:EC. intros [= <- <- <- <-].
  apply IH in EC as [EC Hout]; [|done|rewrite length_drop; lia]. rewrite EC.
  rewrite length_drop, drop_drop in Hout. split.
  2:{ intros He Hi. destruct (Hout He Hi) as (?&?&?). split; [done|split; [done|]].
      unfold record_len, tlsHeaderLen in *. lia. }
  destruct e2; [done|]. destruct in2; [done|]. by rewrite after_after, drop_drop.
Qed.

Lemma enter_run c b :
  td_inTLS c = false -> 8 <= length b -> isTLSRecord b = true ->
  td_tlsResynced c = false -> td_seenPrelogin c = true ->
  client_run c b = client_run (enter_tls c) b.
Proof.
  intros Hin Hb Ht Hr Hp. rewrite !client_run_eq, (step_inside (enter_tls c)) by done.
  unfold tds_client_step. rewrite Hin, Ht, Hr, Hp. len_tests. done.
Qed.

(** The encrypted region, entered or not. *)
Lemma region_run c b c1 n inside err :
  encryptedRegion c b (td_seenPrelogin c) = (c1, n, inside, err) ->
  client_run c b = match err with
    | Some e => (c1, {| dStmts := []; dConsumed := n; dErr := Some e |})
    | None => if inside then (c1, {| dStmts := []; dConsumed := n; dErr := None |})
              else after n [] (client_run c1 (drop n b))
    end
  /\ (err = None -> inside = false -> n <= length b
       /\ client_run c1 (drop n b) = match client_packet c1 (drop n b) with
            | NeedMore c' => (c', no_output)
            | Refuse n c' e => (c', {| dStmts := []; dConsumed := n; dErr := Some e |})
            | Frame m c' stmts => after m stmts (client_run c' (drop m (drop n b)))
            end).
Proof.
  unfold encryptedRegion. destruct (td_inTLS c) eqn:Hin; cbn [negb].
  { intros [HC Hout]%consume_run; [|done|lia]. split; [done|]. intros He Hi.
    destruct (Hout He Hi) as (H1 & H2 & H3). split; [done|].
    by rewrite client_run_eq, step_plain. }
  destruct ((length b <? headerLen)%nat || negb (isTLSRecord b)) eqn:Et.
  { intros [= <- <- <- <-]. rewrite drop_0, after_0. split; [done|]. intros _ _.
    split; [lia|]. rewrite client_run_eq. unfold tds_client_step. by rewrite Hin, Et. }
  apply orb_false_iff in Et as [E8 Et%negb_false_iff]. bool_hyps. unfold headerLen in E8.
  destruct (td_tlsResynced c) eqn:Hr.
  { intros [= <- <- <- <-]. split; [|done]. rewrite client_run_eq. unfold tds_client_step.
    rewrite Hin, Et, Hr. len_tests. done. }
  destruct (td_seenPrelogin c) eqn:Hp; cbn [negb].
  2:{ intros [= <- <- <- <-]. split; [|done]. rewrite client_run_eq. unfold tds_client_step.
      rewrite Hin, Et, Hr, Hp. len_tests. done. }
  rewrite enter_run by done.
  intros [HC Hout]%consume_run; [|done|lia]. split; [done|]. intros He Hi.
  destruct (Hout He Hi) as (H1 & H2 & H3). split; [done|]. by rewrite client_run_eq, step_plain.
Qed.

Lemma decode_client_run fuel c data :
  length data < fuel -> decode_client fuel c data = client_run c data.
Proof.
  revert c data. induction fuel as [|fuel IH]; intros c data Hf; [lia|]. cbn [decode_client].
  destruct (encryptedRegion c data (td_seenPrelogin c)) as [[[c1 n] inside] err] eqn:ER.
  apply region_run in ER as [-> Hout].
  destruct err; [by destruct inside|]. destruct inside; [done|]. destruct (Hout eq_refl eq_refl) as [Hn HP].
  destruct (0 <? n)%nat eqn:En; bool_hyps.
  - rewrite IH by (rewrite length_drop; lia). done.
  - assert (n = 0) as -> by lia. rewrite drop_0 in HP. rewrite drop_0, after_0, HP.
    destruct (client_packet c1 data) as [c'|m c' e|m c' stmts] eqn:EP; [done..|].
    apply client_packet_frame in EP. rewrite IH by (rewrite length_drop; lia). done.
Qed.

Lemma server_run_eq c d :
  server_run c d = match tds_server_step c d with
    | NeedMore c' => (c', no_output)
    | Refuse n c' e => (c', {| dStmts := []; dConsumed := n; dErr := Some e |})
    | Frame n c' stmts => after n stmts (server_run c' (drop n d))
    end.
Proof. apply iterate_eq; [apply tds_server_promise|apply server_step_nil]. Qed.

Lemma retired_run c d :
  td_routingRetired c = true ->
  server_run c d = (c, {| dStmts := []; dConsumed := length d; dErr := None |}).
Proof.
  intros Hr. induction d as [|b d IH]; rewrite server_run_eq;
    unfold tds_server_step at 1; rewrite Hr; [done|]. cbn [drop]. rewrite drop_0, IH. done.
Qed.

Lemma server_loop_run fuel c data :
  td_routingRetired c = false -> length data < fuel -> server_loop fuel c data = server_run c data.
Proof.
  revert c data. induction fuel as [|fuel IH]; intros c data Hr Hf; [lia|]. cbn [server_loop].
  rewrite server_run_eq. unfold tds_server_step at 1. rewrite Hr.
  pose proof (server_packet_bound c data) as Hb.
  destruct (server_packet c data) as [c'|n c' e|n c' stmts]; [done..|].
  destruct Hb as [Hn ->]. destruct (td_routingRetired c') eqn:Hr'.
  - rewrite retired_run by done. unfold after. simpl. rewrite length_drop. do 2 f_equal. lia.
  - by rewrite IH by (done || rewrite length_drop; lia).
Qed.

#[global] Program Instance tds_client_framed : Framed TdsCodec FromClient :=
  { frame_step := tds_client_step }.
Next Obligation. intros c data. apply (decode_client_run (S (length data))). lia. Qed.
Next Obligation. apply promise_stable, tds_client_promise. Qed.
Next Obligation. apply promise_refuse, tds_client_promise. Qed.
Next Obligation. apply promise_need, tds_client_promise. Qed.

#[global] Program Instance tds_server_framed : Framed TdsCodec FromServer :=
  { frame_step := tds_server_step }.
Next Obligation.
  intros c data. simpl. unfold decodeServer. destruct (td_routingRetired c) eqn:Hr.
  - symmetry. by apply retired_run.
  - apply server_loop_run; [done|lia].
Qed.
Next Obligation. apply promise_stable, tds_server_promise. Qed.
Next Obligation. apply promise_refuse, tds_server_promise. Qed.
Next Obligation. apply promise_need, tds_server_promise. Qed.
End Steps.
