(* ===== verification/TdsProps.v ===== *)
(** * Properties of the TDS codec

    Every statement of an encoded message stream is recovered, a routing
    redirect is always refused, and the bytes that may cross unread are
    bounded, once per connection. *)

From S2P Require Import Prelude GoStrings GoText Utf Types SqlMeta Inspect TdsCodec TdsFacts Scan.

(** ** Encoding *)

(** A packet; [tail] is the SPID, packet id and window. *)
Record tail4 := { t_spid1 : byte; t_spid2 : byte; t_id : byte; t_window : byte }.
Definition tail_bytes (t : tail4) : bytes := [t_spid1 t; t_spid2 t; t_id t; t_window t].

Definition tds_packet (typ : byte) (eom : bool) (t : tail4) (payload : bytes) : bytes :=
  [typ; if eom then x01 else x00]
  ++ put_be_u16 (Z.of_nat (8 + length payload)) ++ tail_bytes t ++ payload.

Definition packet_ok (payload : bytes) : Prop := (Z.of_nat (length payload) <= 65527)%Z.

(** A message cut into packets: the last has the end-of-message bit. *)
Fixpoint tds_message (typ : byte) (packets : list (tail4 * bytes)) : bytes :=
  match packets with
  | [] => []
  | [(t, p)] => tds_packet typ true t p
  | (t, p) :: rest => tds_packet typ false t p ++ tds_message typ rest
  end.

Definition body_of (packets : list (tail4 * bytes)) : bytes := concat (map snd packets).

(** Reading a packet back. *)
Lemma packet_header typ eom t payload k :
  packet_ok payload ->
  let d := tds_packet typ eom t payload ++ k in
  byte_at d 0 = typ /\ byte_at d 1 = (if eom then x01 else x00)
  /\ packet_len d = 8 + length payload /\ 8 + length payload <= length d
  /\ take (packet_len d - headerLen) (drop headerLen d) = payload
  /\ drop (packet_len d) d = k.
Proof.
  intros Hp d. unfold packet_ok in Hp.
  assert (Hl : packet_len d = 8 + length payload).
  { unfold packet_len, d, tds_packet. rewrite <- !app_assoc. cbn [app drop].
    rewrite drop_0, be_u16_put by lia. lia. }
  rewrite Hl. unfold d, tds_packet, headerLen.
  assert (Hz : drop 8 (([typ; if eom then x01 else x00]
    ++ put_be_u16 (Z.of_nat (8 + length payload)) ++ tail_bytes t ++ payload) ++ k) = payload ++ k)
    by (unfold put_be_u16, tail_bytes; reflexivity).
  split; [done|]. split; [done|]. split; [done|]. split.
  { rewrite !length_app. unfold put_be_u16, tail_bytes. simpl. lia. }
  split.
  - rewrite Hz. replace (8 + length payload - 8) with (length payload) by lia. apply take_app_length.
  - rewrite <- drop_drop, Hz. apply drop_app_length.
Qed.

Lemma packet_not_tls typ eom t payload k :
  isTLSRecord (tds_packet typ eom t payload ++ k) = false.
Proof.
  unfold isTLSRecord. destruct (_ <? tlsHeaderLen)%nat; [done|].
  destruct (negb _); [done|]. unfold tds_packet. by destruct eom.
Qed.

Lemma byte_at_0 b l : byte_at (b :: l) 0 = b.
Proof. done. Qed.
Lemma byte_at_S b l n : byte_at (b :: l) (S n) = byte_at l n.
Proof. done. Qed.

Section Recover.
Context `{GoUnicode}.

#[local] Abbreviation client_run := (iterate tds_client_step).

(** One packet of a message that carries statements. *)
Lemma statement_packet c typ eom t payload k :
  td_inTLS c = false -> packet_ok payload -> typ = pktSQLBatch \/ typ = pktRPCRequest ->
  (Z.of_nat (length (td_pending c) + length payload) <= maxMessageLen)%Z ->
  tds_client_step c (tds_packet typ eom t payload ++ k)
  = Frame (8 + length payload)
      (if eom then set_pending c [] x00 else set_pending c (td_pending c ++ payload) typ)
      (if eom then message_statements (td_loginEncrypted c) typ (td_pending c ++ payload) else []).
Proof.
  intros Hin Hp Htyp Hmax.
  destruct (packet_header typ eom t payload k Hp) as (H0 & H1 & Hl & Hlen & Hpay & _).
  rewrite step_plain by (done || apply packet_not_tls). unfold client_packet.
  fold (packet_len (tds_packet typ eom t payload ++ k)). rewrite H0, H1, Hpay, Hl.
  replace (length _ <? headerLen)%nat with false
    by (symmetry; apply Nat.ltb_ge; unfold headerLen; lia).
  replace (8 + length payload <? headerLen)%nat with false
    by (symmetry; apply Nat.ltb_ge; unfold headerLen; lia).
  replace (length _ <? 8 + length payload)%nat with false by (symmetry; apply Nat.ltb_ge; lia).
  assert ((negb (typ =b pktSQLBatch) && negb (typ =b pktRPCRequest)) = false) as ->
    by (destruct Htyp as [->| ->]; done).
  assert ((maxMessageLen <? _)%Z = false) as -> by (apply Z.ltb_ge; lia).
  by destruct eom.
Qed.

Lemma after_run n stmts (r : TdsCodec * Decoded) :
  dErr (after n stmts r).2 = dErr r.2 /\ dStmts (after n stmts r).2 = stmts ++ dStmts r.2
  /\ dConsumed (after n stmts r).2 = n + dConsumed r.2 /\ (after n stmts r).1 = r.1.
Proof. done. Qed.

Lemma after_compose n1 s1 n2 s2 r : after n1 s1 (after n2 s2 r) = after (n1 + n2) (s1 ++ s2) r.
Proof. unfold after. simpl. by rewrite Nat.add_assoc, app_assoc. Qed.

(** A whole message, from any reassembly state. *)
Lemma statement_message c typ packets k :
  td_inTLS c = false -> packets <> [] -> Forall (fun p => packet_ok p.2) packets ->
  typ = pktSQLBatch \/ typ = pktRPCRequest ->
  (Z.of_nat (length (td_pending c ++ body_of packets)) <= maxMessageLen)%Z ->
  client_run c (tds_message typ packets ++ k)
  = after (length (tds_message typ packets))
      (message_statements (td_loginEncrypted c) typ (td_pending c ++ body_of packets))
      (client_run (set_pending c [] x00) k).
Proof.
  intros Hin Hne Hok Htyp. revert c Hin. induction Hok as [|[t p] rest Hp Hrest IH]; [done|].
  intros c Hin Hmax. unfold body_of in *. cbn [map concat] in *. cbn [snd] in *.
  rewrite !length_app in Hmax.
  assert (Hlen : forall eom, length (tds_packet typ eom t p) = 8 + length p).
  { intros eom. unfold tds_packet, put_be_u16, tail_bytes. rewrite !length_app. simpl. lia. }
  assert (Hdrop : forall eom k, drop (8 + length p) (tds_packet typ eom t p ++ k) = k).
  { intros eom k'. rewrite <- (Hlen eom). apply drop_app_length. }
  rewrite client_run_eq. destruct rest as [|q rest].
  - cbn [tds_message]. rewrite statement_packet by (done || lia).
    rewrite Hlen, Hdrop. cbn [map concat]. by rewrite app_nil_r.
  - change (tds_message typ ((t, p) :: q :: rest))
      with (tds_packet typ false t p ++ tds_message typ (q :: rest)).
    rewrite <- app_assoc, statement_packet by (done || lia).
    rewrite Hdrop, IH by (done || (cbn [td_pending set_pending]; rewrite !length_app in *; lia)).
    rewrite after_compose, length_app, Hlen. cbn [td_pending set_pending app].
    by rewrite <- app_assoc.
Qed.

(** *** Message bodies *)

Definition utf16le (us : list Z) : bytes := concat (map put_le_u16 us).

Lemma u16s_utf16le us : Forall (fun u => (0 <= u < 65536)%Z) us -> u16s (utf16le us) = us.
Proof.
  unfold utf16le. induction 1 as [|u us Hu _ IH]; [done|]. cbn [map concat put_le_u16 app u16s].
  rewrite IH, !bval_to_byte. f_equal. Z.div_mod_to_equations. lia.
Qed.

Lemma utf16_Encode_units rs : Forall (fun u => (0 <= u < 65536)%Z) (utf16_Encode rs).
Proof.
  unfold utf16_Encode. induction rs as [|r rs IH]; [constructor|]. cbn [map concat].
  apply Forall_app. split; [|done]. unfold utf16_rune.
  pose proof (ValidRune_range _ (ValidRune_fix r)) as Hr.
  destruct (_ <? 65536)%Z eqn:E; bool_hyps; repeat constructor; try lia;
    Z.div_mod_to_equations; lia.
Qed.

Definition valid_text (rs : list Z) : Prop := Forall (fun r => ValidRune r = true) rs.

Lemma ucs2_text rs : valid_text rs -> ucs2ToString (utf16le (utf16_Encode rs)) = utf8_String rs.
Proof.
  intros Hv. unfold ucs2ToString.
  rewrite u16s_utf16le by apply utf16_Encode_units. by rewrite utf16_roundtrip.
Qed.

(** ALL_HEADERS around [hdr]. *)
Definition all_headers (hdr : bytes) : bytes := put_le_u32 (Z.of_nat (4 + length hdr)) ++ hdr.

Definition batch_body (hdr : bytes) (text : list Z) : bytes :=
  all_headers hdr ++ utf16le (utf16_Encode text).

(** The fields of an sp_executesql call around its statement. *)
Record exec_call := {
  ex_hdr : bytes;
  ex_flags : bytes;
  ex_name : bytes;
  ex_status : byte;
  ex_info : bytes;
  ex_more : bytes;
}.

Definition exec_ok (x : exec_call) (text : list Z) : Prop :=
  (Z.of_nat (4 + length (ex_hdr x)) < 2 ^ 32)%Z /\ length (ex_flags x) = 2
  /\ (exists n : nat, n < 256 /\ length (ex_name x) = n * 2) /\ length (ex_info x) = 7
  /\ (Z.of_nat (length (utf16le (utf16_Encode text))) < 65535)%Z.

Definition exec_body (x : exec_call) (text : list Z) : bytes :=
  all_headers (ex_hdr x) ++ [xff; xff] ++ put_le_u16 procIDExecuteSQL ++ ex_flags x
  ++ [to_byte (Z.of_nat (length (ex_name x) / 2))] ++ ex_name x ++ [ex_status x]
  ++ [typeNVarChar] ++ ex_info x
  ++ put_le_u16 (Z.of_nat (length (utf16le (utf16_Encode text))))
  ++ utf16le (utf16_Encode text) ++ ex_more x.

(** Skipping ALL_HEADERS. *)
Lemma headers_len hdr r :
  (Z.of_nat (4 + length hdr) < 2 ^ 32)%Z ->
  le_u32 (all_headers hdr ++ r) = Z.of_nat (4 + length hdr)
  /\ drop (4 + length hdr) (all_headers hdr ++ r) = r
  /\ 4 + length hdr <= length (all_headers hdr ++ r).
Proof.
  intros Hh. unfold all_headers. rewrite <- app_assoc, le_u32_put by lia. split; [done|].
  split; [|rewrite !length_app; simpl; lia].
  rewrite app_assoc. replace (4 + length hdr) with (length (put_le_u32 (Z.of_nat (4 + length hdr)) ++ hdr))
    by (rewrite length_app; simpl; lia).
  apply drop_app_length.
Qed.

Lemma decode_batch hdr text :
  (Z.of_nat (4 + length hdr) < 2 ^ 32)%Z -> valid_text text ->
  decodeSQLBatch (batch_body hdr text) = utf8_String text.
Proof.
  intros Hh Hv. unfold decodeSQLBatch, batch_body.
  destruct (headers_len hdr (utf16le (utf16_Encode text)) Hh) as (-> & Hd & Hl).
  destruct (_ <? 4)%nat eqn:E; bool_hyps; [lia|].
  destruct (_ && _)%Z eqn:E2; [by rewrite Nat2Z.id, Hd, ucs2_text|].
  apply andb_false_iff in E2 as [E2|E2]; bool_hyps; lia.
Qed.

(** The first parameter of a call. *)
Lemma decode_parameter x text :
  exec_ok x text -> valid_text text ->
  first_parameter ([to_byte (Z.of_nat (length (ex_name x) / 2))] ++ ex_name x ++ [ex_status x]
    ++ [typeNVarChar] ++ ex_info x
    ++ put_le_u16 (Z.of_nat (length (utf16le (utf16_Encode text))))
    ++ utf16le (utf16_Encode text) ++ ex_more x) = (utf8_String text, B "sp_executesql").
Proof.
  intros (_ & _ & (n & Hn & Hname) & Hinfo & Htxt) Hv. unfold first_parameter.
  set (u := utf16le (utf16_Encode text)) in *. set (zu := put_le_u16 (Z.of_nat (length u))) in *.
  rewrite Hname, Nat.div_mul by lia. cbn [app]. rewrite !byte_at_0, bval_to_byte, Z.mod_small, Nat2Z.id by lia.
  rewrite <- Hname.
  set (rest := typeNVarChar :: ex_info x ++ zu ++ u ++ ex_more x).
  assert (Hd : drop (1 + length (ex_name x) + 1)
    (to_byte (Z.of_nat n) :: ex_name x ++ ex_status x :: rest) = rest).
  { replace (1 + length (ex_name x) + 1) with (S (length (ex_name x) + 1)) by lia.
    cbn [drop]. rewrite <- drop_drop, drop_app_length. done. }
  rewrite Hd. destruct (_ <? 1)%nat eqn:E1; [bool_hyps; simpl in E1; lia|].
  destruct (length _ <? 1 + length (ex_name x) + 2)%nat eqn:E2.
  { bool_hyps. unfold rest in E2. simpl in E2. rewrite length_app in E2. simpl in E2. lia. }
  unfold rest. rewrite byte_at_0, byte_eqb_refl. cbn [negb drop]. rewrite !drop_0.
  destruct (length _ <? 7)%nat eqn:E3; [bool_hyps; rewrite length_app in E3; lia|].
  replace 7 with (length (ex_info x)) by done. rewrite drop_app_length.
  destruct (length _ <? 2)%nat eqn:E4; [bool_hyps; unfold zu in E4; simpl in E4; lia|].
  unfold zu. rewrite le_u16_put by lia.
  destruct (_ =? 65535)%Z eqn:E5; [bool_hyps; lia|].
  change (drop 2 (put_le_u16 (Z.of_nat (length u)) ++ u ++ ex_more x)) with (u ++ ex_more x).
  rewrite Nat2Z.id. replace (length u `min` length (u ++ ex_more x)) with (length u)
    by (rewrite length_app; lia).
  rewrite take_app_length. unfold u. by rewrite ucs2_text.
Qed.

Lemma decode_exec x text :
  exec_ok x text -> valid_text text ->
  decodeRPCRequest (exec_body x text) = (utf8_String text, B "sp_executesql").
Proof.
  intros Hx Hv. pose proof Hx as (Hh & Hfl & _). unfold decodeRPCRequest, exec_body.
  match goal with |- context [all_headers _ ++ ?r] => set (rest := r) end.
  destruct (headers_len (ex_hdr x) rest Hh) as (-> & Hd & Hl).
  destruct (_ <? 4)%nat eqn:E; bool_hyps; [lia|].
  destruct (_ || _)%Z eqn:E0; [apply orb_true_iff in E0 as [E0|E0]; bool_hyps; lia|].
  rewrite Nat2Z.id, Hd. subst rest. cbn [app].
  rewrite !byte_at_S, !byte_at_0, !byte_eqb_refl. cbn [negb orb drop].
  rewrite !drop_0, le_u16_put by (unfold procIDExecuteSQL; lia). rewrite Z.eqb_refl. cbn [negb].
  destruct (_ || false)%bool eqn:E4; [exfalso; rewrite !orb_false_r in E4; bool_hyps;
    simpl in E4; lia|].
  rewrite !(drop_app_length' (put_le_u16 procIDExecuteSQL)) by done.
  destruct (_ <? 2)%nat eqn:E2; [bool_hyps; rewrite length_app in E2; lia|].
  rewrite (drop_app_length' (ex_flags x)) by done.
  by apply (decode_parameter x text).
Qed.

(** *** Streams of messages *)

Inductive tds_item :=
  | ItBatch (hdr : bytes) (text : list Z) (packets : list (tail4 * bytes))
  | ItExec (x : exec_call) (text : list Z) (packets : list (tail4 * bytes))
  | ItOther (typ : byte) (eom : bool) (t : tail4) (payload : bytes).

Definition item_bytes (it : tds_item) : bytes :=
  match it with
  | ItBatch _ _ ps => tds_message pktSQLBatch ps
  | ItExec _ _ ps => tds_message pktRPCRequest ps
  | ItOther typ eom t p => tds_packet typ eom t p
  end.

(** The packets carry the body, each and all within the protocol's bounds. *)
Definition carries (packets : list (tail4 * bytes)) (body : bytes) : Prop :=
  packets <> [] /\ Forall (fun p => packet_ok p.2) packets /\ body_of packets = body
  /\ (Z.of_nat (length body) <= maxMessageLen)%Z.

Definition item_ok (it : tds_item) : Prop :=
  match it with
  | ItBatch hdr text ps =>
      carries ps (batch_body hdr text) /\ valid_text text
      /\ (Z.of_nat (4 + length hdr) < 2 ^ 32)%Z
  | ItExec x text ps => carries ps (exec_body x text) /\ valid_text text /\ exec_ok x text
  | ItOther typ _ _ p => typ <> pktSQLBatch /\ typ <> pktRPCRequest /\ packet_ok p
  end.

(** The statement a message is: its text as UTF-8. *)
Definition text_statement (enc : bool) (typ : byte) (text : list Z) (proc : bytes) : list Statement :=
  if TrimSpace (utf8_String text) =s [] then []
  else [tds_statement enc typ (utf8_String text) proc].

Definition item_statements (enc : bool) (it : tds_item) : list Statement :=
  match it with
  | ItBatch _ text _ => text_statement enc pktSQLBatch text []
  | ItExec _ text _ => text_statement enc pktRPCRequest text (B "sp_executesql")
  | ItOther _ _ _ _ => []
  end.

Definition item_codec (c : TdsCodec) (it : tds_item) : TdsCodec :=
  match it with
  | ItOther typ _ _ _ =>
      set_pending (if typ =b pktPrelogin then set_prelogin c true else c) [] x00
  | _ => set_pending c [] x00
  end.

Lemma other_packet c typ eom t payload k :
  td_inTLS c = false -> packet_ok payload -> typ <> pktSQLBatch -> typ <> pktRPCRequest ->
  tds_client_step c (tds_packet typ eom t payload ++ k)
  = Frame (8 + length payload) (item_codec c (ItOther typ eom t payload)) [].
Proof.
  intros Hin Hp H1 H2.
  destruct (packet_header typ eom t payload k Hp) as (Ht & _ & Hl & Hlen & _ & _).
  rewrite step_plain by (done || apply packet_not_tls). unfold client_packet.
  fold (packet_len (tds_packet typ eom t payload ++ k)). rewrite Ht, Hl.
  replace (length _ <? headerLen)%nat with false
    by (symmetry; apply Nat.ltb_ge; unfold headerLen; lia).
  replace (8 + length payload <? headerLen)%nat with false
    by (symmetry; apply Nat.ltb_ge; unfold headerLen; lia).
  replace (length _ <? 8 + length payload)%nat with false by (symmetry; apply Nat.ltb_ge; lia).
  rewrite (proj2 (byte_eqb_ne typ pktSQLBatch)), (proj2 (byte_eqb_ne typ pktRPCRequest)) by done.
  done.
Qed.

Lemma packet_length typ eom t p : length (tds_packet typ eom t p) = 8 + length p.
Proof. unfold tds_packet, put_be_u16, tail_bytes. rewrite !length_app. simpl. lia. Qed.

Lemma item_run c it k :
  td_inTLS c = false -> td_pending c = [] -> item_ok it ->
  client_run c (item_bytes it ++ k)
  = after (length (item_bytes it)) (item_statements (td_loginEncrypted c) it)
      (client_run (item_codec c it) k).
Proof.
  intros Hin Hpend. destruct it as [hdr text ps|x text ps|typ eom t p]; cbn [item_ok item_bytes].
  - intros ((Hne & Hok & Hb & Hmax) & Hv & Hh).
    rewrite statement_message; try (done || by left). 2:{ by rewrite Hpend, Hb. }
    f_equal. unfold message_statements. rewrite Hpend, Hb. cbn [app].
    rewrite byte_eqb_refl. by rewrite decode_batch.
  - intros ((Hne & Hok & Hb & Hmax) & Hv & Hx).
    rewrite statement_message; try (done || by right). 2:{ by rewrite Hpend, Hb. }
    f_equal. unfold message_statements. rewrite Hpend, Hb. cbn [app].
    change (pktRPCRequest =b pktSQLBatch) with false. by rewrite decode_exec.
  - intros (H1 & H2 & Hp). rewrite client_run_eq, other_packet by done.
    rewrite packet_length, <- (packet_length typ eom t p), drop_app_length. done.
Qed.

Lemma item_codec_plain c it :
  td_inTLS (item_codec c it) = td_inTLS c /\ td_pending (item_codec c it) = []
  /\ td_loginEncrypted (item_codec c it) = td_loginEncrypted c.
Proof. destruct it as [| |typ eom t p]; [done..|]. simpl. by destruct (typ =b pktPrelogin). Qed.

Definition items_bytes (its : list tds_item) : bytes := concat (map item_bytes its).

Lemma items_run c its k :
  td_inTLS c = false -> td_pending c = [] -> Forall item_ok its ->
  client_run c (items_bytes its ++ k)
  = after (length (items_bytes its))
      (concat (map (item_statements (td_loginEncrypted c)) its))
      (client_run (fold_left item_codec its c) k).
Proof.
  unfold items_bytes. intros Hin Hpend Hok. revert c Hin Hpend.
  induction Hok as [|it its Hit Hits IH]; intros c Hin Hpend; [by rewrite after_0|].
  cbn [map concat fold_left]. rewrite <- app_assoc, item_run by done.
  destruct (item_codec_plain c it) as (H1 & H2 & H3).
  rewrite IH by congruence. rewrite after_compose, length_app, H3. done.
Qed.

(** C33 Every statement of a clear TDS session of the common message forms is
    recovered: for any stream of SQLBatch messages with ALL_HEADERS, calls of
    sp_executesql by its number whose statement is an NVARCHAR with a 2-byte
    length, and packets of types other than these two, each batch and call
    cut into packets anywhere and within the message limit, decoding consumes
    the stream, reports no error and yields exactly the statements of the
    batches and calls that are not blank, their UTF-16 text as UTF-8.  Batches
    without headers, calls of other procedures or by name, NVARCHAR(MAX)
    statements, which [TdsLane.max_statement_misread] shows to be misread, and
    TLS records are outside the claim. *)
Theorem tds_statements_recovered its :
  Forall item_ok its ->
  let '(_, r) := Decode new_tds FromClient (items_bytes its) in
  dStmts r = concat (map (item_statements false) its) /\ dErr r = None
  /\ dConsumed r = length (items_bytes its).
Proof.
  intros Hok. pose proof (items_run new_tds its [] eq_refl eq_refl Hok) as HR.
  rewrite app_nil_r in HR. rewrite decode_frames.
  change (frames frame_step) with (frames tds_client_step). unfold iterate in HR. rewrite HR.
  simpl. rewrite app_nil_r. split; [done|]. split; [done|]. lia.
Qed.

(** *** An encrypted login *)

(** A TLS record: content type, version minor, payload. *)
Record tls_rec := { tr_type : byte; tr_minor : byte; tr_payload : bytes }.
Definition tls_rec_ok (r : tls_rec) : Prop :=
  (tr_type r = x14 \/ tr_type r = x15 \/ tr_type r = x16 \/ tr_type r = x17)
  /\ (bval (tr_minor r) <= 4)%Z
  /\ (3 <= Z.of_nat (length (tr_payload r)) <= tlsRecordMax)%Z.
Definition tls_rec_bytes (r : tls_rec) : bytes :=
  [tr_type r; x03; tr_minor r] ++ put_be_u16 (Z.of_nat (length (tr_payload r))) ++ tr_payload r.

Lemma tls_rec_length r : length (tls_rec_bytes r) = 5 + length (tr_payload r).
Proof. unfold tls_rec_bytes, put_be_u16. rewrite !length_app. simpl. lia. Qed.

Lemma tls_rec_front r k :
  tls_rec_ok r ->
  isTLSRecord (tls_rec_bytes r ++ k) = true
  /\ record_len (tls_rec_bytes r ++ k) = length (tls_rec_bytes r).
Proof.
  intros (Ht & Hm & Hl). unfold tlsRecordMax in Hl.
  assert (Hlen : be_u16 (drop 3 (tls_rec_bytes r ++ k)) = Z.of_nat (length (tr_payload r))).
  { unfold tls_rec_bytes. rewrite <- !app_assoc. cbn [app drop].
    rewrite drop_0, be_u16_put by lia. done. }
  split.
  - unfold isTLSRecord. rewrite Hlen.
    destruct (_ <? tlsHeaderLen)%nat eqn:E.
    { bool_hyps. rewrite length_app, tls_rec_length in E. unfold tlsHeaderLen in E. lia. }
    assert (byte_at (tls_rec_bytes r ++ k) 0 = tr_type r) as -> by done.
    assert (byte_at (tls_rec_bytes r ++ k) 1 = x03) as -> by done.
    assert (byte_at (tls_rec_bytes r ++ k) 2 = tr_minor r) as -> by done.
    destruct (negb (_ || _)) eqn:E1.
    { destruct Ht as [Ht|[Ht|[Ht|Ht]]]; rewrite Ht in E1; done. }
    replace (4 <? bval (tr_minor r))%Z with false by (symmetry; apply Z.ltb_ge; lia). cbn.
    apply andb_true_iff. unfold tlsRecordMax. lia.
  - unfold record_len. rewrite Hlen, tls_rec_length. unfold tlsHeaderLen. lia.
Qed.

Definition recs_bytes (rs : list tls_rec) : bytes := concat (map tls_rec_bytes rs).

(** Inside the region, whole records are passed over. *)
Lemma records_run c rs k :
  td_inTLS c = true -> Forall tls_rec_ok rs ->
  (td_tlsBytes c + Z.of_nat (length (recs_bytes rs)) <= maxEncryptedLogin)%Z -> (0 <= td_tlsBytes c)%Z ->
  client_run c (recs_bytes rs ++ k)
  = after (length (recs_bytes rs)) [] (client_run (count_tls c (length (recs_bytes rs))) k).
Proof.
  unfold recs_bytes. intros Hin Hok. revert c Hin.
  induction Hok as [|r rs Hr Hrs IH]; intros c Hin Hmax Hpos; cbn [map concat length app].
  { rewrite after_0. f_equal. unfold count_tls, set_tls. destruct c. simpl. f_equal. lia. }
  cbn [map concat] in Hmax. rewrite length_app in Hmax.
  rewrite <- app_assoc, client_run_eq, step_inside by done. unfold tls_step.
  set (k' := concat (map tls_rec_bytes rs) ++ k).
  destruct (tls_rec_front r k' Hr) as [-> ->]. cbn [negb].
  assert (8 <= length (tls_rec_bytes r)) as H8 by (rewrite tls_rec_length; destruct Hr as (_&_&?); lia).
  destruct (_ <? headerLen)%nat eqn:E; [bool_hyps; rewrite length_app in E; unfold headerLen in E; lia|].
  destruct (length _ <? length _)%nat eqn:E2; [bool_hyps; rewrite length_app in E2; lia|].
  destruct (_ <? td_tlsBytes _)%Z eqn:E3; [bool_hyps; unfold count_tls, set_tls in E3; cbn [td_tlsBytes] in E3; lia|].
  rewrite drop_app_length. unfold k'. rewrite IH by (done || (unfold count_tls, set_tls; cbn [td_tlsBytes]; lia)).
  rewrite after_after, length_app. do 2 f_equal. unfold count_tls, set_tls.
  cbn [td_tlsBytes td_inTLS td_tlsResynced td_loginEncrypted]. f_equal. lia.
Qed.

(** A stream of messages starts with a packet, not with a record. *)
Lemma plain_front its k :
  Forall item_ok its -> its <> [] ->
  8 <= length (items_bytes its ++ k) /\ isTLSRecord (items_bytes its ++ k) = false.
Proof.
  intros Hok Hne. destruct its as [|it its]; [done|]. apply Forall_cons in Hok as [Hit _].
  assert (exists typ eom t p k', items_bytes (it :: its) ++ k = tds_packet typ eom t p ++ k')
    as (typ & eom & t & p & k' & ->).
  { unfold items_bytes. cbn [map concat].
    assert (Hm : forall typ ps, ps <> [] -> exists eom t p k', tds_message typ ps = tds_packet typ eom t p ++ k').
    { intros typ [|[t p] [|q ps]] Hps; [done| |].
      - exists true, t, p, []. by rewrite app_nil_r.
      - exists false, t, p, (tds_message typ (q :: ps)). done. }
    destruct it as [hdr text ps|x text ps|typ eom t p]; cbn [item_bytes].
    - destruct Hit as ((Hps & _) & _). destruct (Hm pktSQLBatch ps Hps) as (e & t & p & k' & ->).
      eexists _, _, _, _, _. by rewrite <- !app_assoc.
    - destruct Hit as ((Hps & _) & _). destruct (Hm pktRPCRequest ps Hps) as (e & t & p & k' & ->).
      eexists _, _, _, _, _. by rewrite <- !app_assoc.
    - eexists _, _, _, _, _. by rewrite <- app_assoc. }
  split; [rewrite length_app, packet_length; lia|apply packet_not_tls].
Qed.

(** An encrypted login is passed over exactly: after PRELOGIN, TLS records
    within the bound, then plaintext, the statements are those of the plaintext,
    each marked as following an unobserved login. *)
Theorem tds_encrypted_login t pre rs its :
  packet_ok pre -> Forall tls_rec_ok rs -> rs <> [] ->
  (Z.of_nat (length (recs_bytes rs)) <= maxEncryptedLogin)%Z ->
  Forall item_ok its -> its <> [] ->
  let '(_, r) := Decode new_tds FromClient
    (tds_packet pktPrelogin true t pre ++ recs_bytes rs ++ items_bytes its) in
  dStmts r = concat (map (item_statements true) its) /\ dErr r = None.
Proof.
  intros Hpre Hrs Hrne Hmax Hits Hine. rewrite decode_frames.
  change (frames frame_step) with (frames tds_client_step).
  match goal with |- context [frames _ (length ?d) _ ?d] => set (data := d) end.
  assert (HR : client_run new_tds data
    = after (8 + length pre + length (recs_bytes rs) + length (items_bytes its))
        (concat (map (item_statements true) its))
        (client_run (fold_left item_codec its
           (latch_tls (count_tls (enter_tls (item_codec new_tds (ItOther pktPrelogin true t pre)))
             (length (recs_bytes rs))))) [])).
  { unfold data. rewrite client_run_eq, other_packet by done.
    rewrite <- (packet_length pktPrelogin true t pre), drop_app_length.
    set (c1 := item_codec new_tds _). destruct rs as [|r rs]; [done|].
    destruct (tls_rec_front r (recs_bytes rs ++ items_bytes its)) as [Htls _]; [by inversion Hrs|].
    assert (Heq : recs_bytes (r :: rs) ++ items_bytes its
      = tls_rec_bytes r ++ recs_bytes rs ++ items_bytes its)
      by (unfold recs_bytes; cbn [map concat]; by rewrite <- app_assoc).
    rewrite (enter_run c1); [|done| |by rewrite Heq|done|done].
    2:{ rewrite Heq, length_app, tls_rec_length. inversion_clear Hrs as [|? ? (_&_&?) _]. lia. }
    rewrite records_run by done. set (c2 := count_tls _ _).
    destruct (plain_front its [] Hits Hine) as [H8 Hplain]. rewrite app_nil_r in H8, Hplain.
    rewrite <- (app_nil_r (items_bytes its)) at 1.
    assert (Hl : client_run c2 (items_bytes its ++ []) = client_run (latch_tls c2) (items_bytes its ++ [])).
    { rewrite app_nil_r, !client_run_eq, step_inside by done.
      rewrite tls_step_latch by done. by rewrite step_plain. }
    rewrite Hl, items_run by done. by rewrite !after_compose. }
  unfold iterate in HR. rewrite HR. simpl. by rewrite app_nil_r.
Qed.
End Recover.

(** ** The guards of the TDS codec

    A server's routing redirect is refused whatever surrounds it; the window
    that may cross unread opens once, is bounded, and is on record. *)
(** ** Routing redirects *)

(** A routing ENVCHANGE: port, alternate server (UTF-16 units), and the old
    value with whatever else its declared length covers. *)
Record redirect := { rd_port : Z; rd_server : list Z; rd_old : bytes }.

Definition redirect_ok (r : redirect) : Prop :=
  (0 <= rd_port r < 65536)%Z /\ 2 <= length (rd_old r)
  /\ (Z.of_nat (8 + length (rd_server r) * 2 + length (rd_old r)) < 65536)%Z.

Definition redirect_token (r : redirect) : bytes :=
  [tokenEnvChange]
  ++ put_le_u16 (Z.of_nat (8 + length (rd_server r) * 2 + length (rd_old r)))
  ++ [envTypeRouting]
  ++ put_le_u16 (Z.of_nat (5 + length (rd_server r) * 2))
  ++ [routingTCP] ++ put_le_u16 (rd_port r) ++ put_le_u16 (Z.of_nat (length (rd_server r)))
  ++ utf16le (rd_server r) ++ rd_old r.

Lemma utf16le_length us : length (utf16le us) = length us * 2.
Proof.
  unfold utf16le. induction us as [|u us IH]; [done|]. cbn [map concat].
  rewrite length_app, IH. simpl. lia.
Qed.

Lemma redirect_parsed r k :
  redirect_ok r ->
  parseRoutingEnvChange (redirect_token r ++ k)
  = Some (ucs2ToString (utf16le (rd_server r)), itoa (rd_port r)).
Proof.
  intros (Hport & Hold & Hlen). unfold parseRoutingEnvChange.
  set (n := length (rd_server r)) in *. set (o := length (rd_old r)) in *.
  assert (Htot : length (redirect_token r ++ k) = 11 + n * 2 + o + length k).
  { unfold redirect_token. rewrite !length_app, utf16le_length. simpl. fold n o. lia. }
  rewrite Htot. unfold redirect_token. rewrite <- !app_assoc. fold n o.
  set (rest := utf16le (rd_server r) ++ rd_old r ++ k).
  assert (Hd1 : forall l, le_u16 (drop 1 ([tokenEnvChange] ++ l)) = le_u16 l)
    by (intros l; cbn [app drop]; by rewrite drop_0).
  rewrite Hd1, le_u16_put, Nat2Z.id by lia.
  destruct (_ <? 13)%nat eqn:E1; bool_hyps; [lia|].
  destruct ((_ <? 13 - 3)%nat || _) eqn:E2;
    [apply orb_true_iff in E2 as [E2|E2]; bool_hyps; lia|].
  change (byte_at _ 3) with envTypeRouting. rewrite byte_eqb_refl. cbn [negb].
  match goal with |- context [drop 4 ?l] =>
    change (drop 4 l) with (put_le_u16 (Z.of_nat (5 + n * 2)) ++ [routingTCP] ++
      put_le_u16 (rd_port r) ++ put_le_u16 (Z.of_nat n) ++ rest) end.
  rewrite le_u16_put, Nat2Z.id by lia.
  destruct ((_ <? 5)%nat || _) eqn:E3; [apply orb_true_iff in E3 as [E3|E3]; bool_hyps; lia|].
  change (byte_at _ 6) with routingTCP. rewrite byte_eqb_refl. cbn [negb].
  match goal with |- context [drop 7 ?l] =>
    change (drop 7 l) with (put_le_u16 (rd_port r) ++ put_le_u16 (Z.of_nat n) ++ rest) end.
  match goal with |- context [drop 9 ?l] =>
    change (drop 9 l) with (put_le_u16 (Z.of_nat n) ++ rest) end.
  match goal with |- context [drop 11 ?l] => change (drop 11 l) with rest end.
  rewrite !le_u16_put, Nat2Z.id by lia. rewrite Nat.eqb_refl. cbn [negb orb].
  destruct (_ <? 11 + _)%nat eqn:E4; bool_hyps; [lia|].
  unfold rest. replace (n * 2) with (length (utf16le (rd_server r))) by apply utf16le_length.
  by rewrite take_app_length.
Qed.

(** The scan finds a redirect wherever it is. *)
Lemma redirect_found pre r k :
  redirect_ok r -> findRoutingEnvChange (pre ++ redirect_token r ++ k) <> None.
Proof.
  intros Hr. induction pre as [|b pre IH].
  - pose proof (redirect_parsed r k Hr) as Hp. cbn [app].
    change (redirect_token r ++ k) with (tokenEnvChange :: drop 1 (redirect_token r ++ k)).
    change (redirect_token r ++ k) with (tokenEnvChange :: drop 1 (redirect_token r ++ k)) in Hp.
    cbn [findRoutingEnvChange]. rewrite byte_eqb_refl. cbn [negb]. by rewrite Hp.
  - cbn [app findRoutingEnvChange]. destruct (negb _); [done|].
    by destruct (parseRoutingEnvChange _).
Qed.

Section Guards.
Context `{GoUnicode}.

#[local] Abbreviation server_run := (iterate tds_server_step).

(** A packet of a server message while the scan is live. *)
Lemma reply_packet c eom t payload k :
  packet_ok payload -> td_routingRetired c = false ->
  (Z.of_nat (length (td_srvPending c) + length payload) <= maxMessageLen)%Z ->
  server_packet c (tds_packet pktReply eom t payload ++ k)
  = if eom then
      match findRoutingEnvChange (td_srvPending c ++ payload) with
      | Some _ => Refuse (8 + length payload) (set_srv c [] false) ErrStreamUnsafe
      | None => if isLoginResponse (td_srvPending c ++ payload)
                then Frame (8 + length payload) (set_srv c [] true) []
                else Frame (8 + length payload) (set_srv c [] false) []
      end
    else Frame (8 + length payload) (set_srv c (td_srvPending c ++ payload) false) [].
Proof.
  intros Hp Hr Hmax. destruct (packet_header pktReply eom t payload k Hp)
    as (Ht & H1 & Hl & Hlen & Hpay & _).
  unfold server_packet, serverCiphertext. rewrite packet_not_tls, orb_true_r.
  fold (packet_len (tds_packet pktReply eom t payload ++ k)). rewrite Ht, H1, Hpay, Hl, Hr.
  replace (length _ <? headerLen)%nat with false
    by (symmetry; apply Nat.ltb_ge; unfold headerLen; lia).
  replace (8 + length payload <? headerLen)%nat with false
    by (symmetry; apply Nat.ltb_ge; unfold headerLen; lia).
  replace (length _ <? 8 + length payload)%nat with false by (symmetry; apply Nat.ltb_ge; lia).
  rewrite byte_eqb_refl. cbn [negb].
  replace (maxMessageLen <? _)%Z with false by (symmetry; apply Z.ltb_ge; lia).
  rewrite andb_false_r. destruct eom; cbn -[findRoutingEnvChange isLoginResponse].
  - rewrite orb_false_r. destruct (td_srvPending c) as [|b p]; [done|].
    by destruct (findRoutingEnvChange _).
  - by rewrite orb_true_r.
Qed.

Lemma redirect_message c packets k :
  td_routingRetired c = false -> packets <> [] -> Forall (fun p => packet_ok p.2) packets ->
  (Z.of_nat (length (td_srvPending c ++ body_of packets)) <= maxMessageLen)%Z ->
  findRoutingEnvChange (td_srvPending c ++ body_of packets) <> None ->
  dErr (server_run c (tds_message pktReply packets ++ k)).2 = Some ErrStreamUnsafe.
Proof.
  intros Hr Hne Hok. revert c Hr. induction Hok as [|[t p] rest Hp Hrest IH]; [done|].
  intros c Hr Hmax Hf. unfold body_of in *. cbn [map concat snd] in *. rewrite !length_app in Hmax.
  rewrite server_run_eq. unfold tds_server_step at 1. rewrite Hr. destruct rest as [|q rest].
  - cbn [tds_message]. rewrite reply_packet by (done || (simpl in *; lia)).
    cbn [map concat] in Hf. rewrite app_nil_r in Hf.
    by destruct (findRoutingEnvChange (td_srvPending c ++ p)).
  - change (tds_message pktReply ((t, p) :: q :: rest))
      with (tds_packet pktReply false t p ++ tds_message pktReply (q :: rest)).
    rewrite <- app_assoc, reply_packet by (done || lia).
    rewrite <- (packet_length pktReply false t p), drop_app_length.
    apply (IH ltac:(done)); cbn [td_srvPending set_srv]; [done| |].
    + rewrite !length_app in *. lia.
    + by rewrite <- app_assoc.
Qed.

(** A routing redirect never passes: while the login response has not been
    seen, a server message that holds a routing ENVCHANGE anywhere in it, cut
    into packets anywhere and followed by anything, is refused as unsafe. *)
Theorem routing_redirect_refused c packets pre r post k :
  td_routingRetired c = false -> td_srvPending c = [] ->
  packets <> [] -> Forall (fun p => packet_ok p.2) packets ->
  body_of packets = pre ++ redirect_token r ++ post -> redirect_ok r ->
  (Z.of_nat (length (body_of packets)) <= maxMessageLen)%Z ->
  dErr (Decode c FromServer (tds_message pktReply packets ++ k)).2 = Some ErrStreamUnsafe.
Proof.
  intros Hr Hs Hne Hok Hb Hrd Hmax. rewrite decode_frames.
  change (frames frame_step) with (frames tds_server_step).
  apply (redirect_message c packets k); rewrite ?Hs; try done.
  rewrite Hb. by apply redirect_found.
Qed.

(** ** The encrypted window *)

(** What the window's fields promise at every moment. *)
Record tls_inv (c : TdsCodec) : Prop := {
  ti_scope : td_inTLS c = true -> td_seenPrelogin c = true /\ td_tlsResynced c = false;
  ti_once : td_tlsResynced c = true -> td_inTLS c = false;
  ti_record : td_loginEncrypted c = td_tlsResynced c;
  ti_bound : (0 <= td_tlsBytes c <= maxEncryptedLogin)%Z;
  ti_none : td_inTLS c = false -> td_tlsResynced c = false -> td_tlsBytes c = 0%Z;
}.

Lemma tls_inv_new : tls_inv new_tds.
Proof. by split. Qed.

Lemma tls_inv_latch c : tls_inv c -> td_inTLS c = true -> tls_inv (latch_tls c).
Proof. intros [] Hin. by split. Qed.

Lemma tls_inv_pending c p typ : tls_inv c -> tls_inv (set_pending c p typ).
Proof. intros []. by split. Qed.

Lemma tls_inv_prelogin c : tls_inv c -> tls_inv (set_prelogin c true).
Proof. intros []. split; try done. simpl. intros Hin. by destruct (ti_scope0 Hin). Qed.

Lemma client_packet_inv c d c' :
  tls_inv c ->
  (client_packet c d = NeedMore c' \/ exists n s, client_packet c d = Frame n c' s) -> tls_inv c'.
Proof.
  intros HI. unfold client_packet.
  intros [E|(n & s & E)]; repeat case_match; simplify_eq; try done;
    eauto using tls_inv_pending, tls_inv_prelogin.
Qed.

Lemma tls_step_inv c d c' :
  tls_inv c -> td_inTLS c = true ->
  (tls_step c d = NeedMore c' \/ exists n s, tls_step c d = Frame n c' s) -> tls_inv c'.
Proof.
  intros HI Hin. unfold tls_step. destruct (_ <? headerLen)%nat.
  { intros [[= <-]|(n & s & [=])]; done. }
  destruct (negb (isTLSRecord d)).
  { apply client_packet_inv. by apply tls_inv_latch. }
  destruct (_ <? record_len d)%nat; [intros [[= <-]|(n & s & [=])]; done|].
  destruct (_ <? td_tlsBytes _)%Z eqn:E; [by intros [?|(n & s & ?)]|].
  intros [[=]|(n & s & [= <- <- <-])]. bool_hyps. destruct HI.
  split; try done; simpl in *; try lia. congruence.
Qed.

Lemma client_step_inv c d c' :
  tls_inv c ->
  (tds_client_step c d = NeedMore c' \/ exists n s, tds_client_step c d = Frame n c' s) ->
  tls_inv c'.
Proof.
  intros HI. unfold tds_client_step. destruct (td_inTLS c) eqn:Hin; [by apply tls_step_inv|].
  destruct (_ || negb (isTLSRecord d)); [by apply client_packet_inv|].
  destruct (td_tlsResynced c || negb (td_seenPrelogin c)) eqn:E; [by intros [?|(n & s & ?)]|].
  apply orb_false_iff in E as [E1 E2%negb_false_iff].
  apply tls_step_inv; [|done]. destruct HI. split; try done; simpl; congruence.
Qed.

Lemma client_run_inv c d :
  tls_inv c -> dErr (Decode c FromClient d).2 = None -> tls_inv (Decode c FromClient d).1.
Proof.
  rewrite decode_frames. change (frames frame_step) with (frames tds_client_step).
  fold (iterate tds_client_step c d).
  remember (length d) as m eqn:Hm. revert c d Hm.
  induction m as [m IH] using lt_wf_ind. intros c d -> HI.
  rewrite client_run_eq. pose proof (client_step_inv c d) as Hs.
  pose proof (tds_client_promise c d) as Hp. unfold step_promise in Hp.
  destruct (tds_client_step c d) as [c'|n c' e|n c' s] eqn:E; simpl; [|done|].
  - intros _. eapply Hs; [done|by left].
  - destruct Hp as [Hn _]. intros He. apply (IH (length (drop n d))); [rewrite length_drop; lia|done|
      eapply Hs; [done|right; eauto]|done].
Qed.

(** The uninspected window is bounded and opens once: on any bytes from the
    client that decode without an error, at most [maxEncryptedLogin] bytes were
    passed over as TLS records; the window opened only after a PRELOGIN; once
    plaintext resumed it is closed and on record; and from then on a TLS record
    at a packet boundary is refused. *)
Theorem encrypted_window_bounded data :
  let '(c, r) := Decode new_tds FromClient data in
  dErr r = None ->
  (0 <= td_tlsBytes c <= maxEncryptedLogin)%Z
  /\ (td_inTLS c = true -> td_seenPrelogin c = true)
  /\ (td_tlsResynced c = true -> td_loginEncrypted c = true /\ td_inTLS c = false
      /\ forall d, 8 <= length d -> isTLSRecord d = true ->
         dErr (Decode c FromClient d).2 = Some ErrStreamUnsafe)
  /\ (td_inTLS c = false -> td_tlsResynced c = false -> td_tlsBytes c = 0%Z).
Proof.
  pose proof (client_run_inv new_tds data tls_inv_new) as HI.
  destruct (Decode new_tds FromClient data) as [c r]. simpl in HI. intros He.
  destruct (HI He). split; [done|]. split; [naive_solver|]. split; [|done].
  intros Hr. split; [congruence|]. split; [by apply ti_once0|]. intros d Hd Ht.
  rewrite decode_frames. change (frames frame_step) with (frames tds_client_step).
  fold (iterate tds_client_step c d). rewrite client_run_eq. unfold tds_client_step at 1.
  rewrite (ti_once0 Hr), Ht, Hr. destruct (_ <? headerLen)%nat eqn:E; [|done].
  bool_hyps. unfold headerLen in E. lia.
Qed.
End Guards.
