(* ===== verification/TdsRewrite.v ===== *)
(** * Re-framing TDS result sets:
      src/hoopinspect/codec/mssql/colmeta.go, cell.go and rewrite.go

    [Rewrite] strips the packet headers from a response, masks the values of
    its ROW and NBCROW tokens, and lays fresh packets over the result.
    [Rewriter] holds the fields of the Go struct this half uses; decoding
    touches none of them.  A parser returns the value and the number of bytes
    it took, or says that more bytes are needed or that it cannot measure what
    it sees; [parsed] is the monad of the three outcomes. *)

From S2P Require Import Prelude GoStrings Utf Types Inspect TdsCodec.

(** ** Outcomes: [parseStatus] with the results that go with it *)

Inductive parsed (A : Type) :=
  | parseOK (a : A)
  | parseNeedMore
  | parseCannot.
Arguments parseOK {A}.
Arguments parseNeedMore {A}.
Arguments parseCannot {A}.

#[global] Instance parsed_bind : MBind parsed := fun A B f x =>
  match x with
  | parseOK a => f a
  | parseNeedMore => parseNeedMore
  | parseCannot => parseCannot
  end.

(** ** Tokens and types *)

Definition tokColMetaData : byte := x81.
Definition tokRow : byte := xd1.
Definition tokNBCRow : byte := xd2.
Definition tokDone : byte := xfd.
Definition tokDoneProc : byte := xfe.
Definition tokDoneInProc : byte := xff.
Definition tokError : byte := xaa.
Definition tokInfo : byte := xab.
Definition tokEnvChange : byte := xe3.
Definition tokLoginAck : byte := xad.
Definition tokOrder : byte := xa9.
Definition tokReturnStatus : byte := x79.
Definition tokReturnValue : byte := xac.
Definition tokFeatureExtAck : byte := xae.
Definition tokSSPI : byte := xed.
Definition tokRowStat : byte := xd3.
Definition tokSessionState : byte := xe4.
Definition tokFedAuthInfo : byte := xee.
Definition tokTabName : byte := xa4.
Definition tokColInfo : byte := xa5.

Definition tNull : byte := x1f.
Definition tInt1 : byte := x30.
Definition tBit : byte := x32.
Definition tInt2 : byte := x34.
Definition tInt4 : byte := x38.
Definition tDateTim4 : byte := x3a.
Definition tFlt4 : byte := x3b.
Definition tMoney : byte := x3c.
Definition tDateTime : byte := x3d.
Definition tFlt8 : byte := x3e.
Definition tMoney4 : byte := x7a.
Definition tInt8 : byte := x7f.
Definition tGuid : byte := x24.
Definition tIntN : byte := x26.
Definition tDecimal : byte := x37.
Definition tNumeric : byte := x3f.
Definition tBitN : byte := x68.
Definition tDecimalN : byte := x6a.
Definition tNumericN : byte := x6c.
Definition tFltN : byte := x6d.
Definition tMoneyN : byte := x6e.
Definition tDateTimeN : byte := x6f.
Definition tDateN : byte := x28.
Definition tTimeN : byte := x29.
Definition tDateTime2N : byte := x2a.
Definition tDTOffsetN : byte := x2b.
Definition tChar : byte := x2f.
Definition tVarChar : byte := x27.
Definition tBinary : byte := x2d.
Definition tVarBinary : byte := x25.
Definition tBigVarBin : byte := xa5.
Definition tBigVarChar : byte := xa7.
Definition tBigBinary : byte := xad.
Definition tBigChar : byte := xaf.
Definition tNVarChar : byte := xe7.
Definition tNChar : byte := xef.
Definition tText : byte := x23.
Definition tImage : byte := x22.
Definition tNText : byte := x63.

(** [case a, b, c:] *)
Definition one_of (t : byte) (l : list byte) : bool := existsb (Byte.eqb t) l.

(** ** Column metadata *)

Inductive lenKind := lenFixed | lenByte | lenUShort | lenPLP | lenLong | lenUnknown.

Record column := {
  co_name : bytes;
  co_kind : lenKind;
  co_width : nat;
  co_text : bool;
  co_ucs2 : bool;
}.

Definition col_fixed (w : nat) : column :=
  {| co_name := []; co_kind := lenFixed; co_width := w; co_text := false; co_ucs2 := false |}.
Definition col_of (k : lenKind) (text ucs2 : bool) : column :=
  {| co_name := []; co_kind := k; co_width := 0; co_text := text; co_ucs2 := ucs2 |}.
Definition col_named (c : column) (name : bytes) : column :=
  {| co_name := name; co_kind := co_kind c; co_width := co_width c; co_text := co_text c;
     co_ucs2 := co_ucs2 c |}.

(** The loop of [skipTableName] over the parts of the name. *)
Fixpoint skip_parts (parts : nat) (b : bytes) (p : nat) : option nat :=
  match parts with
  | O => Some p
  | S parts =>
      if (length b <? p + 2)%nat then None
      else
        let p := (p + (2 + Z.to_nat (le_u16 (drop p b)) * 2))%nat in
        if (length b <? p)%nat then None else skip_parts parts b p
  end.

Definition skipTableName (b : bytes) : option nat :=
  if (length b <? 1)%nat then None
  else skip_parts (Z.to_nat (bval (byte_at b 0))) b 1.

(** A TYPE_INFO of [n] bytes behind the type byte. *)
Definition with_info (b : bytes) (n : nat) (c : column) : parsed (column * nat) :=
  if (length b <? 1 + n)%nat then parseNeedMore else parseOK (c, 1 + n)%nat.

(** The column of a type with a table name behind [n] bytes. *)
Definition with_table (b : bytes) (n : nat) (c : column) : parsed (column * nat) :=
  if (length b <? 1 + n)%nat then parseNeedMore
  else
    match skipTableName (drop (1 + n) b) with
    | None => parseNeedMore
    | Some adv => parseOK (c, 1 + n + adv)%nat
    end.

(** USHORT lengths, or PLP when the declared maximum is 0xFFFF. *)
Definition sized_kind (b : bytes) : lenKind :=
  if (le_u16 (drop 1 b) =? 65535)%Z then lenPLP else lenUShort.

(** The switch of [parseTypeInfo] on the type byte [t]. *)
Definition type_info (t : byte) (b : bytes) : parsed (column * nat) :=
  if t =b tNull then parseOK (col_fixed 0, 1)
  else if one_of t [tInt1; tBit] then parseOK (col_fixed 1, 1)
  else if t =b tInt2 then parseOK (col_fixed 2, 1)
  else if one_of t [tInt4; tFlt4; tDateTim4; tMoney4] then parseOK (col_fixed 4, 1)
  else if one_of t [tInt8; tFlt8; tMoney; tDateTime] then parseOK (col_fixed 8, 1)
  else if one_of t [tIntN; tBitN; tFltN; tMoneyN; tDateTimeN; tGuid; tBinary; tVarBinary]
  then with_info b 1 (col_of lenByte false false)
  else if one_of t [tDecimal; tNumeric; tDecimalN; tNumericN]
  then with_info b 3 (col_of lenByte false false)
  else if t =b tDateN then parseOK (col_of lenByte false false, 1)
  else if one_of t [tTimeN; tDateTime2N; tDTOffsetN]
  then with_info b 1 (col_of lenByte false false)
  else if one_of t [tChar; tVarChar] then with_info b 1 (col_of lenByte true false)
  else if one_of t [tBigVarChar; tBigChar; tNVarChar; tNChar]
  then with_info b 7 (col_of (sized_kind b) true ((t =b tNVarChar) || (t =b tNChar)))
  else if one_of t [tBigVarBin; tBigBinary]
  then with_info b 2 (col_of (sized_kind b) false false)
  else if one_of t [tText; tNText] then with_table b 9 (col_of lenLong true (t =b tNText))
  else if t =b tImage then with_table b 4 (col_of lenLong false false)
  else parseCannot.

Definition parseTypeInfo (b : bytes) : parsed (column * nat) :=
  if (length b <? 1)%nat then parseNeedMore else type_info (byte_at b 0) b.

(** The loop of [parseColMetaData]. *)
Fixpoint parse_columns (count : nat) (b : bytes) (p : nat) : parsed (list column * nat) :=
  match count with
  | O => parseOK ([], p)
  | S count =>
      if (length b <? p + 6)%nat then parseNeedMore
      else
        let p := (p + 6)%nat in
        '(col, adv) ← parseTypeInfo (drop p b);
        let p := (p + adv)%nat in
        if (length b <? p + 1)%nat then parseNeedMore
        else
          let nameLen := (Z.to_nat (bval (byte_at b p)) * 2)%nat in
          let p := (p + 1)%nat in
          if (length b <? p + nameLen)%nat then parseNeedMore
          else
            let col := col_named col (ucs2ToString (take nameLen (drop p b))) in
            '(cols, n) ← parse_columns count b (p + nameLen);
            parseOK (col :: cols, n)
  end.

(** [None] is the nil slice: count 0xFFFF, no metadata change. *)
Definition parseColMetaData (b : bytes) : parsed (option (list column) * nat) :=
  if (length b <? 2)%nat then parseNeedMore
  else
    let count := le_u16 b in
    if (count =? 65535)%Z then parseOK (None, 2)
    else
      '(cols, n) ← parse_columns (Z.to_nat count) b 2;
      parseOK (Some cols, n).

(** ** Cells *)

Definition plpNull : Z := (2 ^ 64 - 1)%Z.
Definition ushortNull : Z := 65535.

Record cell_read := {
  cr_raw : bytes;
  cr_val : bytes;
  cr_n : nat;
  cr_null : bool;
}.

Definition decodeText (b : bytes) (col : column) : bytes :=
  if negb (co_text col) then []
  else if co_ucs2 col then ucs2ToString b
  else b.

Definition null_cell (raw : bytes) : parsed cell_read :=
  parseOK {| cr_raw := raw; cr_val := []; cr_n := length raw; cr_null := true |}.

(** A value of [l] bytes behind a prefix of [p]. *)
Definition value_cell (b : bytes) (col : column) (p : nat) (l : Z) : parsed cell_read :=
  if (Z.of_nat (length b) <? Z.of_nat p + l)%Z then parseNeedMore
  else
    let raw := take (Z.to_nat l) (drop p b) in
    parseOK {| cr_raw := raw; cr_val := decodeText raw col; cr_n := (p + Z.to_nat l)%nat;
               cr_null := false |}.

(** The chunks of a PLP value: the body and the bytes taken. *)
Fixpoint plp_chunks (fuel : nat) (b : bytes) : parsed (bytes * nat) :=
  match fuel with
  | O => parseNeedMore
  | S fuel =>
      if (length b <? 4)%nat then parseNeedMore
      else
        let chunk := le_u32 b in
        let b := drop 4 b in
        if (chunk =? 0)%Z then parseOK ([], 4)
        else if (Z.of_nat (length b) <? chunk)%Z then parseNeedMore
        else
          let k := Z.to_nat chunk in
          '(body, n) ← plp_chunks fuel (drop k b);
          parseOK (take k b ++ body, 4 + k + n)%nat
  end.

Definition readPLPCell (b : bytes) (col : column) : parsed cell_read :=
  if (length b <? 8)%nat then parseNeedMore
  else if (le_u64 b =? plpNull)%Z then null_cell (take 8 b)
  else
    '(body, n) ← plp_chunks (length b) (drop 8 b);
    parseOK {| cr_raw := body; cr_val := decodeText body col; cr_n := (8 + n)%nat;
               cr_null := false |}.

Definition readCell (b : bytes) (col : column) : parsed cell_read :=
  match co_kind col with
  | lenFixed =>
      if (length b <? co_width col)%nat then parseNeedMore
      else parseOK {| cr_raw := take (co_width col) b; cr_val := []; cr_n := co_width col;
                      cr_null := false |}
  | lenByte =>
      if (length b <? 1)%nat then parseNeedMore
      else
        let l := bval (byte_at b 0) in
        if (l =? 0)%Z then null_cell (take 1 b) else value_cell b col 1 l
  | lenUShort =>
      if (length b <? 2)%nat then parseNeedMore
      else
        let l := le_u16 b in
        if (l =? ushortNull)%Z then null_cell (take 2 b) else value_cell b col 2 l
  | lenPLP => readPLPCell b col
  | lenLong =>
      if (length b <? 1)%nat then parseNeedMore
      else
        let ptrLen := Z.to_nat (bval (byte_at b 0)) in
        if (ptrLen =? 0)%nat then null_cell (take 1 b)
        else
          let p := (1 + ptrLen + 8)%nat in
          if (length b <? p + 4)%nat then parseNeedMore
          else value_cell b col (p + 4) (le_u32 (drop p b))
  | lenUnknown => parseNeedMore
  end.

Definition toUCS2 (b : bytes) : bytes :=
  concat (map put_le_u16 (utf16_Encode (utf8_Runes b))).

Definition encodeCell (val : bytes) (col : column) : option bytes :=
  let body := if co_ucs2 col then toUCS2 val else val in
  match co_kind col with
  | lenByte =>
      if (254 <? length body)%nat then None
      else Some (to_byte (Z.of_nat (length body)) :: body)
  | lenUShort =>
      if (ushortNull <=? Z.of_nat (length body))%Z then None
      else Some (put_le_u16 (Z.of_nat (length body)) ++ body)
  | lenPLP =>
      Some (put_le_u64 (Z.of_nat (length body)) ++ put_le_u32 (Z.of_nat (length body))
            ++ body ++ put_le_u32 0)
  | lenLong =>
      Some (x10 :: repeat x00 16 ++ repeat x00 8 ++ put_le_u32 (Z.of_nat (length body)) ++ body)
  | lenFixed | lenUnknown => None
  end.

(** ** Tokens that are passed on *)

(** The (FeatureId, ULONG length, data) triples of FEATUREEXTACK, up to 0xFF. *)
Fixpoint skip_features (fuel : nat) (b : bytes) : parsed nat :=
  match fuel with
  | O => parseNeedMore
  | S fuel =>
      if (length b <? 1)%nat then parseNeedMore
      else if byte_at b 0 =b xff then parseOK 1
      else if (length b <? 5)%nat then parseNeedMore
      else
        let l := le_u32 (drop 1 b) in
        if (Z.of_nat (length b) <? 5 + l)%Z then parseNeedMore
        else
          let k := (5 + Z.to_nat l)%nat in
          n ← skip_features fuel (drop k b); parseOK (k + n)%nat
  end.

(** A token of [n] bytes. *)
Definition exactly (b : bytes) (n : nat) : parsed nat :=
  if (length b <? n)%nat then parseNeedMore else parseOK n.

(** A token whose length field [l] counts the bytes behind its [hdr] bytes. *)
Definition counted (b : bytes) (hdr : nat) (l : bytes -> Z) : parsed nat :=
  if (length b <? hdr)%nat then parseNeedMore
  else if (Z.of_nat (length b) <? Z.of_nat hdr + l (drop 1 b))%Z then parseNeedMore
  else parseOK (hdr + Z.to_nat (l (drop 1 b)))%nat.

(** The switch of [skipToken] on the token byte [t]. *)
Definition token_length (t : byte) (b : bytes) : parsed nat :=
  if one_of t [tokDone; tokDoneProc; tokDoneInProc] then exactly b 13
  else if t =b tokReturnStatus then exactly b 5
  else if t =b tokRowStat then exactly b 5
  else if t =b tokFeatureExtAck then
    n ← skip_features (length b) (drop 1 b); parseOK (1 + n)%nat
  else if one_of t [tokError; tokInfo; tokEnvChange; tokLoginAck; tokSSPI; tokTabName; tokColInfo]
  then counted b 3 le_u16
  else if one_of t [tokSessionState; tokFedAuthInfo] then counted b 5 le_u32
  else if t =b tokOrder then counted b 3 le_u16
  else parseCannot.

Definition skipToken (b : bytes) : parsed nat :=
  if (length b <? 1)%nat then parseNeedMore else token_length (byte_at b 0) b.

(** ** Rows *)

Definition CellMasker : Type := bytes -> bytes -> bytes.

(** The null bitmap of an NBCROW; a ROW has none. *)
Definition null_bit (nulls : option bytes) (i : nat) : bool :=
  match nulls with
  | None => false
  | Some nulls => Z.testbit (bval (byte_at nulls (i / 8))) (Z.of_nat (i mod 8))
  end.

(** What replaces a cell that takes [wire] bytes, and whether it changed. *)
Definition rewrite_cell (mask : CellMasker) (col : column) (r : cell_read) (wire : bytes)
    : bytes * bool :=
  if cr_null r || negb (co_text col) || (length (cr_val r) =? 0)%nat then (wire, false)
  else
    let masked := mask (co_name col) (cr_val r) in
    if masked =s cr_val r then (wire, false)
    else
      match encodeCell masked col with
      | None => (wire, false)
      | Some enc => (enc, true)
      end.

(** The loop of [rewriteRow] at [b[p:]]: the bytes it emits, the end of the
    row, and the number of cells changed. *)
Fixpoint rewrite_cells (mask : CellMasker) (nulls : option bytes) (cols : list column) (i : nat)
    (b : bytes) (p : nat) : parsed (bytes * nat * Z) :=
  match cols with
  | [] => parseOK ([], p, 0%Z)
  | col :: cols =>
      if null_bit nulls i then rewrite_cells mask nulls cols (S i) b p
      else
        r ← readCell (drop p b) col;
        let '(piece, changed) := rewrite_cell mask col r (take (cr_n r) (drop p b)) in
        '(out, n, cells) ← rewrite_cells mask nulls cols (S i) b (p + cr_n r);
        parseOK (piece ++ out, n, ((if changed then 1 else 0) + cells)%Z)
  end.

Definition rewriteRow (cols : list column) (b : bytes) (mask : CellMasker) (nbc : bool)
    : parsed (bytes * nat * Z) :=
  let nb := if nbc then ((length cols + 7) / 8)%nat else O in
  if (length b <? 1 + nb)%nat then parseNeedMore
  else
    let nulls := if nbc then Some (take nb (drop 1 b)) else None in
    '(out, n, cells) ← rewrite_cells mask nulls cols 0 b (1 + nb);
    parseOK (take (1 + nb) b ++ out, n, cells).

(** ** The token stream *)

Record token := {
  tk_out : bytes;
  tk_used : nat;
  tk_cols : option (list column);
  tk_meta : bool;
  tk_cells : Z;
}.

(** One round of [rewriteTokens] at a token boundary, under the layout [cols]. *)
Definition rewrite_token (cols : option (list column)) (mask : CellMasker) (s : bytes)
    : parsed token :=
  let tok := byte_at s 0 in
  if tok =b tokColMetaData then
    '(new, n) ← parseColMetaData (drop 1 s);
    parseOK {| tk_out := take (1 + n) s; tk_used := (1 + n)%nat;
               tk_cols := match new with Some cols => Some cols | None => cols end;
               tk_meta := true; tk_cells := 0 |}
  else if (tok =b tokRow) || (tok =b tokNBCRow) then
    match cols with
    | None => parseCannot
    | Some layout =>
        '(row, n, cells) ← rewriteRow layout s mask (tok =b tokNBCRow);
        parseOK {| tk_out := row; tk_used := n; tk_cols := cols; tk_meta := false;
                   tk_cells := cells |}
    end
  else
    n ← skipToken s;
    parseOK {| tk_out := take n s; tk_used := n; tk_cols := cols; tk_meta := false;
               tk_cells := 0 |}.

Record Rewriter := {
  rw_cols : option (list column);
  rw_held : bytes;
  rw_tokenBuf : bytes;
  rw_rawBuf : bytes;
  rw_seenColMeta : bool;
  rw_noRewrite : bool;
}.

Definition new_rewriter : Rewriter :=
  {| rw_cols := None; rw_held := []; rw_tokenBuf := []; rw_rawBuf := [];
     rw_seenColMeta := false; rw_noRewrite := false |}.

Definition set_bufs (c : Rewriter) (held tokenBuf rawBuf : bytes) (noRewrite : bool) : Rewriter :=
  {| rw_cols := rw_cols c; rw_held := held; rw_tokenBuf := tokenBuf; rw_rawBuf := rawBuf;
     rw_seenColMeta := rw_seenColMeta c; rw_noRewrite := noRewrite |}.

(** The bookkeeping of the loop: the layout a token leaves in force. *)
Definition take_token (c : Rewriter) (t : token) : Rewriter :=
  {| rw_cols := tk_cols t; rw_held := rw_held c; rw_tokenBuf := rw_tokenBuf c;
     rw_rawBuf := rw_rawBuf c; rw_seenColMeta := tk_meta t || rw_seenColMeta c;
     rw_noRewrite := rw_noRewrite c |}.

Definition count_token (res : ReframeResult) (t : token) : ReframeResult :=
  {| rfCells := (rfCells res + tk_cells t)%Z;
     rfRows := (rfRows res + if 0 <? tk_cells t then 1 else 0)%Z |}.

Record Walked := {
  wk_out : bytes;
  wk_used : nat;
  wk_res : ReframeResult;
  wk_st : parsed unit;
}.

(** [rewriteTokens]; every token takes a byte, so the length is fuel enough. *)
Fixpoint rewrite_tokens (fuel : nat) (c : Rewriter) (s : bytes) (mask : CellMasker)
    (res : ReframeResult) : Rewriter * Walked :=
  match s, fuel with
  | [], _ | _, O => (c, {| wk_out := []; wk_used := 0; wk_res := res; wk_st := parseOK tt |})
  | _, S fuel =>
      match rewrite_token (rw_cols c) mask s with
      | parseOK t =>
          let '(c, w) :=
            rewrite_tokens fuel (take_token c t) (drop (tk_used t) s) mask (count_token res t) in
          (c, {| wk_out := tk_out t ++ wk_out w; wk_used := (tk_used t + wk_used w)%nat;
                 wk_res := wk_res w; wk_st := wk_st w |})
      | parseNeedMore =>
          (c, {| wk_out := []; wk_used := 0; wk_res := res; wk_st := parseNeedMore |})
      | parseCannot =>
          (c, {| wk_out := []; wk_used := 0; wk_res := res; wk_st := parseCannot |})
      end
  end.

Definition zero_result : ReframeResult := {| rfCells := 0; rfRows := 0 |}.

Definition rewriteTokens (c : Rewriter) (s : bytes) (mask : CellMasker) : Rewriter * Walked :=
  rewrite_tokens (length s) c s mask zero_result.

(** ** Packets *)

Definition maxHeldBytes : Z := Z.shiftl 4 20.
Definition defaultPacketSize : nat := 4096.

Fixpoint drain_loop (fuel : nat) (buf : bytes) (eom : bool) : bytes * nat * bool :=
  match fuel with
  | O => ([], 0, eom)
  | S fuel =>
      if (length buf <? headerLen)%nat then ([], 0, eom)
      else
        let len := Z.to_nat (be_u16 (drop 2 buf)) in
        if (len <? headerLen)%nat || (length buf <? len)%nat then ([], 0, eom)
        else
          let '(stream, n, eom) := drain_loop fuel (drop len buf) (is_eom (byte_at buf 1)) in
          (take (len - headerLen) (drop headerLen buf) ++ stream, (len + n)%nat, eom)
  end.

(** The payloads of the whole packets in [buf], the bytes they take, and
    whether the last of them ends a message. *)
Definition drainPackets (buf : bytes) : bytes * nat * bool := drain_loop (length buf) buf false.

(** The packet id is a byte and wraps. *)
Fixpoint packetize_loop (fuel : nat) (id : Z) (stream : bytes) (eom : bool) : bytes :=
  match stream, fuel with
  | [], _ | _, O => []
  | _, S fuel =>
      let payload := (defaultPacketSize - headerLen)%nat in
      let piece := take payload stream in
      let rest := drop payload stream in
      let last := (length rest =? 0)%nat in
      [pktReply; if last && eom then x01 else x00]
        ++ put_be_u16 (Z.of_nat (headerLen + length piece)) ++ [x00; x00; to_byte id; x00]
        ++ piece ++ packetize_loop fuel (id + 1) rest eom
  end.

Definition packetize (stream : bytes) (eom : bool) : bytes :=
  packetize_loop (length stream) 1 stream eom.

(** ** The stream *)

Definition tds_Rewrite (c : Rewriter) (data : bytes) (mask : option CellMasker)
    : Rewriter * (bytes * ReframeResult) :=
  match mask with
  | None => (c, (data, zero_result))
  | Some mask =>
      if rw_noRewrite c then (c, (data, zero_result))
      else
        let held := rw_held c ++ data in
        if (maxHeldBytes <? Z.of_nat (length held + length (rw_tokenBuf c)))%Z
        then (set_bufs c [] [] [] true, (rw_rawBuf c ++ held, zero_result))
        else
          let '(stream, consumed, eom) := drainPackets held in
          let rest := drop consumed held in
          let tokenBuf := rw_tokenBuf c ++ stream in
          let rawBuf := rw_rawBuf c ++ take consumed held in
          if (length tokenBuf =? 0)%nat
          then (set_bufs c rest tokenBuf rawBuf (rw_noRewrite c), ([], zero_result))
          else
            let '(c, w) := rewriteTokens c tokenBuf mask in
            match wk_st w with
            | parseOK _ =>
                let left := drop (wk_used w) tokenBuf in
                (set_bufs c rest left [] (rw_noRewrite c),
                 (packetize (wk_out w)
                    (eom && (length left =? 0)%nat && (length rest =? 0)%nat), wk_res w))
            | parseNeedMore =>
                if negb (rw_seenColMeta c)
                then (set_bufs c [] [] [] (rw_noRewrite c), (rawBuf ++ rest, wk_res w))
                else
                  let left := drop (wk_used w) tokenBuf in
                  (set_bufs c rest left [] (rw_noRewrite c),
                   (packetize (wk_out w)
                      (eom && (length left =? 0)%nat && (length rest =? 0)%nat), wk_res w))
            | parseCannot =>
                if negb (rw_seenColMeta c)
                then (set_bufs c [] [] [] (rw_noRewrite c), (rawBuf ++ rest, wk_res w))
                else
                  (set_bufs c [] [] [] true,
                   (packetize (wk_out w) false
                      ++ packetize (drop (wk_used w) tokenBuf) eom ++ rest, wk_res w))
            end
  end.

Definition tds_Flush (c : Rewriter) : Rewriter * bytes :=
  (set_bufs c [] [] [] (rw_noRewrite c), packetize (rw_tokenBuf c) true ++ rw_held c).
