(* ===== verification/TdsRewriteFacts.v ===== *)
(** * TDS result sets: parsers decide on what has arrived

    Every parser of the rewriter is stable: once it answers, more bytes behind
    the ones it saw do not change the answer.  That is what lets the rewriter
    work on a stream that arrives in pieces.  Then the packet layer: stripping
    headers inverts laying them. *)

From S2P Require Import Prelude GoStrings Utf Types Inspect TdsCodec TdsFacts TdsProps TdsRewrite.

(** ** Stability *)

Definition stable_at {A} (used : A -> nat) (f : bytes -> parsed A) (b : bytes) : Prop :=
  match f b with
  | parseOK a => used a <= length b /\ forall k, f (b ++ k) = parseOK a
  | parseCannot => forall k, f (b ++ k) = parseCannot
  | parseNeedMore => True
  end.

Definition stable {A} (used : A -> nat) (f : bytes -> parsed A) : Prop :=
  forall b, stable_at used f b.

Lemma stable_ok {A} (used : A -> nat) f b a k :
  stable used f -> f b = parseOK a -> f (b ++ k) = parseOK a.
Proof. intros Hf E. specialize (Hf b). unfold stable_at in Hf. rewrite E in Hf. by apply Hf. Qed.

Lemma stable_used {A} (used : A -> nat) f b a :
  stable used f -> f b = parseOK a -> used a <= length b.
Proof. intros Hf E. specialize (Hf b). unfold stable_at in Hf. rewrite E in Hf. by apply Hf. Qed.

Lemma stable_cannot {A} (used : A -> nat) f b k :
  stable used f -> f b = parseCannot -> f (b ++ k) = parseCannot.
Proof. intros Hf E. specialize (Hf b). unfold stable_at in Hf. rewrite E in Hf. by apply Hf. Qed.

Lemma drop_app_short {A} n (l k : list A) : n <= length l -> drop n (l ++ k) = drop n l ++ k.
Proof. apply drop_app_le. Qed.

Lemma test_app {A} (b k : list A) n : n <= length b -> (length (b ++ k) <? n)%nat = false.
Proof. rewrite Nat.ltb_ge, length_app. lia. Qed.

Lemma ztest_app {A} (b k : list A) n :
  (n <= Z.of_nat (length b))%Z -> (Z.of_nat (length (b ++ k)) <? n)%Z = false.
Proof. rewrite Z.ltb_ge, length_app. lia. Qed.

Lemma le_u16_app b k : 2 <= length b -> le_u16 (b ++ k) = le_u16 b.
Proof. intros Hb. unfold le_u16. by rewrite take_app_prefix. Qed.

Lemma le_u32_app b k : 4 <= length b -> le_u32 (b ++ k) = le_u32 b.
Proof. intros Hb. unfold le_u32. by rewrite take_app_prefix. Qed.

Lemma le_u64_app b k : 8 <= length b -> le_u64 (b ++ k) = le_u64 b.
Proof.
  intros Hb. unfold le_u64. rewrite drop_app_short by lia.
  rewrite !le_u32_app by (rewrite ?length_drop; lia). done.
Qed.

Lemma le_u16_nonneg b : (0 <= le_u16 b)%Z.
Proof. unfold le_u16. apply be_val_bound. lia. Qed.

Lemma le_u32_nonneg b : (0 <= le_u32 b)%Z.
Proof. unfold le_u32. apply be_val_bound. lia. Qed.

(** Whatever the code tested on the bytes it has holds with more behind them. *)
Create Rewrite HintDb stab.
#[export] Hint Rewrite @drop_app_short @byte_at_app le_u16_app le_u32_app le_u64_app
  @take_app_prefix @test_app @ztest_app using (rewrite ?length_drop; lia) : stab.

Lemma skip_parts_stable parts b p n k :
  skip_parts parts b p = Some n ->
  p <= length b -> p <= n <= length b /\ skip_parts parts (b ++ k) p = Some n.
Proof.
  revert p. induction parts as [|parts IH]; cbn [skip_parts]; intros p E Hp.
  - injection E as <-. split; [lia|done].
  - destruct (length b <? p + 2)%nat eqn:E1; [done|]. bool_hyps. autorewrite with stab.
    destruct (length b <? _)%nat eqn:E2 in E; [done|]. bool_hyps. autorewrite with stab.
    apply IH in E; [|lia]. destruct E as [E3 ->]. split; [lia|done].
Qed.

Lemma skipTableName_stable b n k :
  skipTableName b = Some n -> n <= length b /\ skipTableName (b ++ k) = Some n.
Proof.
  unfold skipTableName. destruct (length b <? 1)%nat eqn:E1; [done|]. bool_hyps.
  autorewrite with stab.
  intros E. apply (skip_parts_stable _ _ _ _ k) in E; [|lia]. destruct E as [? ->]. split; [lia|done].
Qed.

Lemma with_info_stable n (c : bytes -> column) b :
  (forall k, 1 + n <= length b -> c (b ++ k) = c b) ->
  stable_at snd (fun b => with_info b n (c b)) b.
Proof.
  intros Hc. unfold stable_at, with_info. destruct (length b <? 1 + n)%nat eqn:E; [done|].
  bool_hyps. simpl. split; [lia|]. intros k. autorewrite with stab. by rewrite Hc by lia.
Qed.

Lemma with_table_stable n c : stable snd (fun b => with_table b n c).
Proof.
  intros b. unfold stable_at, with_table. destruct (length b <? 1 + n)%nat eqn:E; [done|].
  bool_hyps.
  destruct (skipTableName (drop (1 + n) b)) as [adv|] eqn:E2; [|done]. cbn [snd]. split.
  - apply (skipTableName_stable _ _ []) in E2 as [E2 _]. rewrite length_drop in E2. lia.
  - intros k. autorewrite with stab. by destruct (skipTableName_stable _ _ k E2) as [_ ->].
Qed.

Lemma sized_kind_app n b k : 1 + n <= length b -> 2 <= n -> sized_kind (b ++ k) = sized_kind b.
Proof. intros Hb Hn. unfold sized_kind. by autorewrite with stab. Qed.

(** A switch on the first byte is stable when every case is. *)
Lemma stable_head {A} (used : A -> nat) (g : byte -> bytes -> parsed A) :
  (forall t b, 1 <= length b -> stable_at used (g t) b) ->
  stable used (fun b => if (length b <? 1)%nat then parseNeedMore else g (byte_at b 0) b).
Proof.
  intros Hg b. unfold stable_at. destruct (length b <? 1)%nat eqn:E; [done|]. bool_hyps.
  pose proof (Hg (byte_at b 0) b E) as HS. unfold stable_at in HS.
  destruct (g (byte_at b 0) b); try done.
  - destruct HS as [H1 H2]. split; [done|]. intros k. by autorewrite with stab.
  - intros k. by autorewrite with stab.
Qed.

Lemma type_info_stable t b : 1 <= length b -> stable_at snd (type_info t) b.
Proof.
  intros Hb. unfold type_info, stable_at.
  repeat match goal with |- context [if Byte.eqb t ?x then _ else _] => destruct (Byte.eqb t x) end;
  repeat match goal with |- context [if one_of t ?x then _ else _] => destruct (one_of t x) end.
  all: try done.
  all: first
    [ apply (with_table_stable _ _ b)
    | apply (with_info_stable _ (fun _ => _) b); done
    | apply (with_info_stable _ (fun b => col_of (sized_kind b) _ _) b);
      intros k Hk; by rewrite (sized_kind_app _ b k Hk) by lia ].
Qed.

Lemma parseTypeInfo_stable : stable snd parseTypeInfo.
Proof. apply stable_head, type_info_stable. Qed.

(** Sequencing: a parser run behind [p] bytes of the input. *)
Lemma stable_behind {A} (used : A -> nat) f p b a :
  stable used f -> p <= length b -> f (drop p b) = parseOK a ->
  p + used a <= length b /\ forall k, f (drop p (b ++ k)) = parseOK a.
Proof.
  intros Hf Hp E. split.
  - apply (stable_used used) in E; [|done]. rewrite length_drop in E. lia.
  - intros k. rewrite drop_app_short by lia. by apply (stable_ok used).
Qed.

Lemma cannot_behind {A} (used : A -> nat) f p b :
  stable used f -> p <= length b -> f (drop p b) = parseCannot ->
  forall k, f (drop p (b ++ k)) = parseCannot.
Proof. intros Hf Hp E k. rewrite drop_app_short by lia. by apply (stable_cannot used). Qed.

Lemma parse_columns_stable count p b :
  p <= length b -> stable_at snd (fun b => parse_columns count b p) b.
Proof.
  revert p. induction count as [|count IH]; intros p Hp; [done|].
  unfold stable_at. cbn [parse_columns].
  destruct (length b <? p + 6)%nat eqn:E1; [done|]. bool_hyps.
  destruct (parseTypeInfo (drop (p + 6) b)) as [[col adv]| |] eqn:E2; cbn [mbind parsed_bind]; [|done|].
  2:{ intros k. autorewrite with stab. rewrite <- drop_app_short by lia.
      by rewrite (cannot_behind _ _ _ _ parseTypeInfo_stable E1 E2). }
  destruct (stable_behind _ _ _ _ _ parseTypeInfo_stable E1 E2) as [Hadv HT]. cbn [snd] in Hadv.
  destruct (length b <? p + 6 + adv + 1)%nat eqn:E3; [done|]. bool_hyps.
  destruct (length b <? _)%nat eqn:E4; [done|]. bool_hyps.
  specialize (IH _ E4). unfold stable_at in IH.
  destruct (parse_columns count b _) as [[cols n]| |]; cbn [mbind parsed_bind]; [|done|].
  - destruct IH as [Hn HK]. split; [done|]. intros k. rewrite (test_app b k (p + 6)) by lia.
    rewrite HT. cbn [mbind parsed_bind]. autorewrite with stab. by rewrite HK.
  - intros k. rewrite (test_app b k (p + 6)) by lia.
    rewrite HT. cbn [mbind parsed_bind]. autorewrite with stab. by rewrite IH.
Qed.

Lemma parseColMetaData_stable : stable snd parseColMetaData.
Proof.
  intros b. unfold stable_at, parseColMetaData.
  destruct (length b <? 2)%nat eqn:E1; [done|]. bool_hyps.
  destruct (le_u16 b =? 65535)%Z eqn:E2.
  { split; [done|]. intros k. autorewrite with stab. by rewrite E2. }
  pose proof (parse_columns_stable (Z.to_nat (le_u16 b)) 2 b E1) as HS. unfold stable_at in HS.
  destruct (parse_columns _ b 2) as [[cols n]| |]; cbn [mbind parsed_bind]; [|done|].
  - destruct HS as [Hn HK]. split; [done|]. intros k. autorewrite with stab. by rewrite E2, HK.
  - intros k. autorewrite with stab. by rewrite E2, HS.
Qed.

(** ** Cells *)

Lemma plp_chunks_stable fuel b body n :
  plp_chunks fuel b = parseOK (body, n) ->
  n <= length b /\ forall k fuel', fuel <= fuel' -> plp_chunks fuel' (b ++ k) = parseOK (body, n).
Proof.
  revert b body n. induction fuel as [|fuel IH]; [done|]. intros b body n. cbn [plp_chunks].
  destruct (length b <? 4)%nat eqn:E1; [done|]. bool_hyps.
  destruct (le_u32 b =? 0)%Z eqn:E2.
  { intros [= <- <-]. split; [done|]. intros k [|fuel'] Hf; [lia|]. cbn [plp_chunks].
    autorewrite with stab. by rewrite E2. }
  destruct (Z.of_nat (length (drop 4 b)) <? le_u32 b)%Z eqn:E3; [done|]. bool_hyps.
  pose proof (le_u32_nonneg b) as Hc.
  destruct (plp_chunks fuel _) as [[body' n']| |] eqn:E4; [|done|done]. intros [= <- <-].
  apply IH in E4 as [Hn HK]. rewrite !length_drop in Hn. rewrite length_drop in E3.
  split; [lia|]. intros k [|fuel'] Hf; [lia|]. cbn [plp_chunks].
  autorewrite with stab. apply Z.eqb_neq in E2 as ->.
  by rewrite HK by lia.
Qed.

Lemma plp_chunks_cannot fuel b : plp_chunks fuel b <> parseCannot.
Proof.
  revert b. induction fuel as [|fuel IH]; intros b; [done|]. cbn [plp_chunks].
  repeat case_go; try done.
  destruct (plp_chunks fuel _) as [[? ?]| |] eqn:E; try done. by apply IH in E.
Qed.

Lemma value_cell_stable (l : bytes -> Z) col p b :
  (forall k, l (b ++ k) = l b) -> p <= length b -> (0 <= l b)%Z ->
  stable_at cr_n (fun b => value_cell b col p (l b)) b.
Proof.
  intros Hl Hp H0. unfold stable_at, value_cell.
  destruct (Z.of_nat (length b) <? _)%Z eqn:E; [done|]. bool_hyps. cbn [cr_n]. split; [lia|].
  intros k. rewrite Hl, ztest_app by lia.
  by rewrite drop_app_short, take_app_prefix by (rewrite ?length_drop; lia).
Qed.

Lemma null_cell_stable n b : n <= length b -> stable_at cr_n (fun b => null_cell (take n b)) b.
Proof.
  intros Hn. unfold stable_at, null_cell. cbn [cr_n]. split; [rewrite length_take; lia|].
  intros k. by rewrite take_app_prefix by lia.
Qed.

(** A branch on a test that more bytes do not change. *)
Lemma stable_if {A} (used : A -> nat) (t : bytes -> bool) f g b :
  (forall k, t (b ++ k) = t b) -> stable_at used f b -> stable_at used g b ->
  stable_at used (fun b => if t b then f b else g b) b.
Proof.
  intros Ht Hf Hg. unfold stable_at in *. destruct (t b) eqn:E.
  - destruct (f b); try done.
    + destruct Hf as [? Hf]. split; [done|]. intros k. by rewrite Ht.
    + intros k. by rewrite Ht.
  - destruct (g b); try done.
    + destruct Hg as [? Hg]. split; [done|]. intros k. by rewrite Ht.
    + intros k. by rewrite Ht.
Qed.

(** A parser that first waits for [n] bytes. *)
Lemma stable_wait {A} (used : A -> nat) n f b :
  (n <= length b -> stable_at used f b) ->
  stable_at used (fun b => if (length b <? n)%nat then parseNeedMore else f b) b.
Proof.
  intros Hf. unfold stable_at. destruct (length b <? n)%nat eqn:E; [done|]. bool_hyps.
  specialize (Hf E). unfold stable_at in Hf. destruct (f b); try done.
  - destruct Hf as [? Hf]. split; [done|]. intros k. by rewrite test_app by lia.
  - intros k. by rewrite test_app by lia.
Qed.

Lemma readPLPCell_stable col : stable cr_n (fun b => readPLPCell b col).
Proof.
  intros b. apply stable_wait. intros Hb. apply stable_if.
  { intros k. by autorewrite with stab. }
  { by apply null_cell_stable. }
  unfold stable_at. destruct (plp_chunks _ _) as [[body n]| |] eqn:E; [|done|].
  - cbn [mbind parsed_bind cr_n]. apply plp_chunks_stable in E as [Hn HK]. rewrite length_drop in Hn.
    split; [lia|]. intros k. rewrite drop_app_short by lia.
    by rewrite HK by (rewrite length_app; lia).
  - by apply plp_chunks_cannot in E.
Qed.

Lemma readCell_stable col : stable cr_n (fun b => readCell b col).
Proof.
  intros b. unfold readCell. destruct (co_kind col).
  - apply stable_wait. intros Hb. unfold stable_at. cbn [cr_n]. split; [done|].
    intros k. by autorewrite with stab.
  - apply stable_wait. intros Hb. apply stable_if.
    + intros k. by autorewrite with stab.
    + by apply null_cell_stable.
    + apply value_cell_stable; [|done|apply bval_range]. intros k. by autorewrite with stab.
  - apply stable_wait. intros Hb. apply stable_if.
    + intros k. by autorewrite with stab.
    + by apply null_cell_stable.
    + apply value_cell_stable; [|done|apply le_u16_nonneg]. intros k. by autorewrite with stab.
  - apply readPLPCell_stable.
  - apply stable_wait. intros Hb. apply stable_if.
    + intros k. by autorewrite with stab.
    + by apply null_cell_stable.
    + set (q := fun b : bytes => (1 + Z.to_nat (bval (byte_at b 0)) + 8)%nat).
      assert (forall k, q (b ++ k) = q b) as Hq by (intros k; unfold q; by autorewrite with stab).
      unfold stable_at. fold (q b). destruct (length b <? q b + 4)%nat eqn:E; [done|]. bool_hyps.
      pose proof (value_cell_stable (fun b => le_u32 (drop (q b) b)) col (q b + 4) b) as HV.
      unfold stable_at in HV. cbv beta in HV.
      destruct (value_cell b col _ _) eqn:EV in HV |- *; rewrite ?EV; try done.
      * destruct HV as [H1 H2]; [| lia | apply le_u32_nonneg |].
        { intros k. rewrite Hq. by autorewrite with stab. }
        split; [done|]. intros k. rewrite <- H2 with (k := k). fold (q (b ++ k)).
        by rewrite !Hq, test_app by lia.
      * intros k. rewrite <- HV with (k := k); [| |lia|apply le_u32_nonneg].
        { fold (q (b ++ k)). by rewrite !Hq, test_app by lia. }
        { intros k'. rewrite Hq. by autorewrite with stab. }
  - done.
Qed.

(** ** Tokens *)

Lemma skip_features_stable fuel b n :
  skip_features fuel b = parseOK n ->
  n <= length b /\ forall k fuel', fuel <= fuel' -> skip_features fuel' (b ++ k) = parseOK n.
Proof.
  revert b n. induction fuel as [|fuel IH]; [done|]. intros b n. cbn [skip_features].
  destruct (length b <? 1)%nat eqn:E1; [done|]. bool_hyps.
  destruct (byte_at b 0 =b xff) eqn:E2.
  { intros [= <-]. split; [done|]. intros k [|fuel'] Hf; [lia|]. cbn [skip_features].
    autorewrite with stab. by rewrite E2. }
  destruct (length b <? 5)%nat eqn:E3; [done|]. bool_hyps.
  destruct (Z.of_nat (length b) <? _)%Z eqn:E4; [done|]. bool_hyps.
  pose proof (le_u32_nonneg (drop 1 b)) as Hc.
  destruct (skip_features fuel _) as [n'| |] eqn:E5; [|done|done]. intros [= <-].
  apply IH in E5 as [Hn HK]. rewrite length_drop in Hn.
  split; [lia|]. intros k [|fuel'] Hf; [lia|]. cbn [skip_features].
  autorewrite with stab. apply byte_eqb_ne in E2 as ->. by rewrite HK by lia.
Qed.

Lemma skip_features_cannot fuel b : skip_features fuel b <> parseCannot.
Proof.
  revert b. induction fuel as [|fuel IH]; intros b; [done|]. cbn [skip_features].
  repeat case_go; try done.
  destruct (skip_features fuel _) as [?| |] eqn:E; try done. by apply IH in E.
Qed.

Lemma exactly_stable n : stable id (fun b => exactly b n).
Proof. intros b. apply stable_wait. intros Hb. by unfold stable_at. Qed.

Lemma counted_stable hdr l b :
  (forall k, hdr <= length b -> l (drop 1 (b ++ k)) = l (drop 1 b)) -> (0 <= l (drop 1 b))%Z ->
  stable_at id (fun b => counted b hdr l) b.
Proof.
  intros Hl H0. apply stable_wait. intros Hb. unfold stable_at.
  destruct (Z.of_nat (length b) <? _)%Z eqn:E; [done|]. bool_hyps. unfold id. split; [lia|].
  intros k. by rewrite Hl, ztest_app by lia.
Qed.

Lemma token_length_stable t b : 1 <= length b -> stable_at id (token_length t) b.
Proof.
  intros Hb. unfold token_length, stable_at.
  repeat match goal with |- context [if Byte.eqb t ?x then _ else _] => destruct (Byte.eqb t x) end;
  repeat match goal with |- context [if one_of t ?x then _ else _] => destruct (one_of t x) end.
  all: try done.
  all: first
    [ apply (exactly_stable _ b)
    | apply (counted_stable 3 le_u16 b); [|apply le_u16_nonneg];
      intros k Hk; by autorewrite with stab
    | apply (counted_stable 5 le_u32 b); [|apply le_u32_nonneg];
      intros k Hk; by autorewrite with stab
    | destruct (skip_features _ _) as [n| |] eqn:E; [|done|by apply skip_features_cannot in E];
      cbn [mbind parsed_bind]; apply skip_features_stable in E as [Hn HK];
      rewrite length_drop in Hn; unfold id; split; [lia|]; intros k;
      rewrite drop_app_short by lia; by rewrite HK by (rewrite length_app; lia) ].
Qed.

Lemma skipToken_stable : stable id skipToken.
Proof. apply stable_head, token_length_stable. Qed.

Lemma skipToken_pos b n : skipToken b = parseOK n -> 0 < n.
Proof.
  unfold skipToken, token_length, exactly, counted. repeat case_go; try done; intros E;
    try (destruct (skip_features _ _); try done; cbn in E); injection E as <-; lia.
Qed.

(** ** Rows *)

Section Walk.
Context (mask : CellMasker).

Lemma rewrite_cells_stable nulls cols i p b :
  p <= length b ->
  match rewrite_cells mask nulls cols i b p with
  | parseOK (out, n, cells) =>
      p <= n <= length b
      /\ forall k, rewrite_cells mask nulls cols i (b ++ k) p = parseOK (out, n, cells)
  | parseCannot => forall k, rewrite_cells mask nulls cols i (b ++ k) p = parseCannot
  | parseNeedMore => True
  end.
Proof.
  revert i p. induction cols as [|col cols IH]; intros i p Hp; cbn [rewrite_cells]; [done|].
  destruct (null_bit nulls i); [by apply IH|].
  destruct (readCell (drop p b) col) as [r| |] eqn:E; cbn [mbind parsed_bind]; [|done|].
  2:{ intros k. by rewrite (cannot_behind _ _ _ _ (readCell_stable col) Hp E). }
  destruct (stable_behind _ _ _ _ _ (readCell_stable col) Hp E) as [Hr HR].
  pose proof (IH (S i) _ Hr) as HS.
  assert (forall k, take (cr_n r) (drop p (b ++ k)) = take (cr_n r) (drop p b)) as HT.
  { intros k. rewrite drop_app_short, take_app_prefix by (rewrite ?length_drop; lia). done. }
  destruct (rewrite_cell mask col r _) as [piece changed] eqn:EP.
  destruct (rewrite_cells _ _ _ _ _ _) as [[[out n] cells]| |] eqn:ER; cbn [mbind parsed_bind]; [|done|].
  - destruct HS as [Hn HK]. split; [lia|]. intros k. rewrite HR. cbn [mbind parsed_bind].
    by rewrite HT, EP, HK.
  - intros k. rewrite HR. cbn [mbind parsed_bind]. by rewrite HT, EP, HS.
Qed.

Lemma rewriteRow_stable cols nbc :
  stable (fun r : bytes * nat * Z => r.1.2) (fun b => rewriteRow cols b mask nbc).
Proof.
  intros b. unfold rewriteRow.
  set (nb := if nbc then _ else _). apply stable_wait. intros Hb. unfold stable_at.
  set (nulls := fun b : bytes => if nbc then Some (take nb (drop 1 b)) else None).
  assert (forall k, nulls (b ++ k) = nulls b) as HN.
  { intros k. unfold nulls. destruct nbc; [|done].
    by rewrite drop_app_short, take_app_prefix by (rewrite ?length_drop; lia). }
  fold (nulls b).
  pose proof (rewrite_cells_stable (nulls b) cols 0 (1 + nb) b Hb) as HS.
  destruct (rewrite_cells _ _ _ _ _ _) as [[[out n] cells]| |]; cbn [mbind parsed_bind]; [|done|].
  - destruct HS as [Hn HK]. cbn [fst snd]. split; [lia|]. intros k. fold (nulls (b ++ k)).
    rewrite HN, HK. cbn [mbind parsed_bind]. by rewrite take_app_prefix by lia.
  - intros k. fold (nulls (b ++ k)). by rewrite HN, HS.
Qed.

Lemma rewriteRow_pos cols b nbc out n cells :
  rewriteRow cols b mask nbc = parseOK (out, n, cells) -> 0 < n.
Proof.
  unfold rewriteRow. destruct (_ <? _)%nat eqn:E; [done|]. bool_hyps.
  pose proof (rewrite_cells_stable (if nbc then Some (take (if nbc then (length cols + 7) / 8 else 0)
    (drop 1 b)) else None) cols 0 _ b E) as HS.
  destruct (rewrite_cells _ _ _ _ _ _) as [[[out' n'] cells']| |]; cbn; try done.
  intros [= _ <- _]. lia.
Qed.

Lemma rewrite_token_stable cols b :
  b <> [] -> stable_at tk_used (rewrite_token cols mask) b.
Proof.
  intros Hb. assert (1 <= length b) as Hb1 by (destruct b; simpl; [done|lia]).
  assert (forall k, byte_at (b ++ k) 0 = byte_at b 0) as HB
    by (intros k; by autorewrite with stab).
  unfold stable_at, rewrite_token.
  destruct (byte_at b 0 =b tokColMetaData) eqn:E1.
  { destruct (parseColMetaData (drop 1 b)) as [[new n]| |] eqn:E; cbn [mbind parsed_bind]; [|done|].
    - destruct (stable_behind _ _ _ _ _ parseColMetaData_stable Hb1 E) as [Hn HK].
      cbn [snd] in Hn. cbn [tk_used]. split; [lia|]. intros k. rewrite HB, E1, HK.
      cbn [mbind parsed_bind]. by rewrite take_app_prefix by lia.
    - intros k. by rewrite HB, E1, (cannot_behind _ _ _ _ parseColMetaData_stable Hb1 E). }
  destruct ((byte_at b 0 =b tokRow) || (byte_at b 0 =b tokNBCRow)) eqn:E2.
  { destruct cols as [cols|]; [|intros k; by rewrite HB, E1, E2].
    pose proof (rewriteRow_stable cols (byte_at b 0 =b tokNBCRow) b) as HS. unfold stable_at in HS.
    destruct (rewriteRow _ _ _ _) as [[[row n] cells]| |]; cbn [mbind parsed_bind]; [|done|].
    - destruct HS as [Hn HK]. cbn [fst snd] in Hn. cbn [tk_used]. split; [done|].
      intros k. by rewrite HB, E1, E2, HK.
    - intros k. by rewrite HB, E1, E2, HS. }
  destruct (skipToken b) as [n| |] eqn:E; cbn [mbind parsed_bind]; [|done|].
  - pose proof (stable_used _ _ _ _ skipToken_stable E) as Hn. unfold id in Hn. cbn [tk_used].
    split; [done|]. intros k. rewrite HB, E1, E2, (stable_ok _ _ _ _ k skipToken_stable E).
    cbn [mbind parsed_bind]. by rewrite take_app_prefix by lia.
  - intros k. by rewrite HB, E1, E2, (stable_cannot _ _ _ k skipToken_stable E).
Qed.

Lemma rewrite_token_pos cols b t : rewrite_token cols mask b = parseOK t -> 0 < tk_used t.
Proof.
  unfold rewrite_token. case_go.
  { destruct (parseColMetaData _) as [[? ?]| |]; try done. cbn. intros [= <-]. cbn. lia. }
  case_go.
  { destruct cols as [cols|]; [|done].
    destruct (rewriteRow _ _ _ _) as [[[? ?] ?]| |] eqn:E; try done. cbn. intros [= <-].
    by apply rewriteRow_pos in E. }
  destruct (skipToken b) as [n| |] eqn:E; try done. cbn. intros [= <-]. by apply skipToken_pos in E.
Qed.

Lemma rewrite_token_out cols b t :
  b <> [] -> rewrite_token cols mask b = parseOK t -> tk_out t <> [].
Proof.
  intros Hb. unfold rewrite_token. case_go.
  { destruct (parseColMetaData _) as [[? ?]| |]; try done. cbn. intros [= <-]. by destruct b. }
  case_go.
  { destruct cols as [cols|]; [|done]. unfold rewriteRow. case_go; [done|].
    destruct (rewrite_cells _ _ _ _ _ _) as [[[? ?] ?]| |] eqn:E; try done. cbn. intros [= <-].
    cbn [tk_out]. by destruct b. }
  destruct (skipToken b) as [n| |] eqn:E; try done. cbn. intros [= <-].
  apply skipToken_pos in E. cbn [tk_out]. destruct b; [done|]. by destruct n; [lia|].
Qed.

(** ** Walking the tokens *)

(** Induction along the tokens of a stream. *)
Lemma token_induction (P : Rewriter -> bytes -> Prop) :
  (forall c s, (forall t, s <> [] -> rewrite_token (rw_cols c) mask s = parseOK t ->
                 P (take_token c t) (drop (tk_used t) s)) -> P c s) ->
  forall c s, P c s.
Proof.
  intros HP c s. remember (length s) as m eqn:Hm. revert c s Hm.
  induction m as [m IH] using lt_wf_ind. intros c s ->. apply HP. intros t Hs E.
  pose proof (rewrite_token_pos _ _ _ E) as Hp. eapply IH; [|reflexivity].
  rewrite length_drop. destruct s; simpl; [done|lia].
Qed.

Definition after_token (t : token) (r : Rewriter * Walked) : Rewriter * Walked :=
  (r.1, {| wk_out := tk_out t ++ wk_out r.2; wk_used := (tk_used t + wk_used r.2)%nat;
           wk_res := wk_res r.2; wk_st := wk_st r.2 |}).

Definition stop_walk (c : Rewriter) (res : ReframeResult) (st : parsed unit) : Rewriter * Walked :=
  (c, {| wk_out := []; wk_used := 0; wk_res := res; wk_st := st |}).

Definition walk (c : Rewriter) (s : bytes) (res : ReframeResult) : Rewriter * Walked :=
  rewrite_tokens (length s) c s mask res.

Lemma rewrite_tokens_fuel fuel c s res :
  length s <= fuel -> rewrite_tokens fuel c s mask res = walk c s res.
Proof.
  unfold walk. revert c s res.
  induction fuel as [fuel IH] using lt_wf_ind; intros c s res Hs.
  destruct s as [|b s]; [by destruct fuel|]. destruct fuel as [|fuel]; [simpl in Hs; lia|].
  cbn [rewrite_tokens length]. destruct (rewrite_token _ _ _) as [t| |] eqn:E; [|done|done].
  pose proof (rewrite_token_pos _ _ _ E) as Hp.
  assert (length (drop (tk_used t) (b :: s)) <= length s) as Hl
    by (rewrite length_drop; simpl; lia).
  simpl in Hs. rewrite (IH fuel), (IH (length s)); [done|lia|done|lia|lia].
Qed.

Lemma walk_eq c s res :
  walk c s res =
  match s with
  | [] => stop_walk c res (parseOK tt)
  | _ => match rewrite_token (rw_cols c) mask s with
         | parseOK t =>
             after_token t (walk (take_token c t) (drop (tk_used t) s) (count_token res t))
         | parseNeedMore => stop_walk c res parseNeedMore
         | parseCannot => stop_walk c res parseCannot
         end
  end.
Proof.
  destruct s as [|b s]; [done|]. unfold walk at 1. cbn [rewrite_tokens length].
  destruct (rewrite_token _ _ _) as [t| |] eqn:E; [|done|done].
  pose proof (rewrite_token_pos _ _ _ E) as Hp.
  rewrite rewrite_tokens_fuel by (rewrite length_drop; simpl; lia).
  by destruct (walk _ _ _).
Qed.

(** What a first walk did, in front of a second one. *)
Definition join (w : Walked) (r : Rewriter * Walked) : Rewriter * Walked :=
  (r.1, {| wk_out := wk_out w ++ wk_out r.2; wk_used := (wk_used w + wk_used r.2)%nat;
           wk_res := wk_res r.2; wk_st := wk_st r.2 |}).

Lemma after_join t w r : after_token t (join w r) = join (after_token t (r.1, w)).2 r.
Proof. unfold after_token, join. cbn. by rewrite app_assoc, Nat.add_assoc. Qed.

(** Walking may stop and go on when more bytes are there: the result is that of
    walking everything at once. *)
Lemma walk_app c s k res :
  let '(c', w) := walk c s res in
  wk_used w <= length s
  /\ match wk_st w with
     | parseOK _ => wk_used w = length s
         /\ walk c (s ++ k) res = join w (walk c' k (wk_res w))
     | parseNeedMore => wk_used w < length s
         /\ walk c (s ++ k) res = join w (walk c' (drop (wk_used w) s ++ k) (wk_res w))
     | parseCannot => wk_used w < length s /\ walk c (s ++ k) res = (c', w)
     end.
Proof.
  revert res. pattern c, s. apply token_induction. clear c s. intros c s IH res. rewrite walk_eq.
  destruct s as [|b s]; [simpl; split; [lia|]; split; [done|]; by destruct (walk c k res) as [? []]|].
  assert (b :: s <> []) as Hne by done.
  pose proof (rewrite_token_stable (rw_cols c) _ Hne) as HS. unfold stable_at in HS.
  rewrite (walk_eq c ((b :: s) ++ k)). cbn [app].
  destruct (rewrite_token (rw_cols c) mask (b :: s)) as [t| |] eqn:E.
  - destruct HS as [Hu HK]. pose proof (rewrite_token_pos _ _ _ E) as Hp.
    specialize (HK k). cbn [app] in HK. rewrite HK.
    change (b :: s ++ k) with ((b :: s) ++ k). rewrite drop_app_short by done.
    specialize (IH t Hne eq_refl (count_token res t)).
    destruct (walk _ _ _) as [c' w] eqn:EW. unfold after_token. cbn [fst snd wk_st wk_used].
    rewrite length_drop in IH. destruct IH as [HU IH]. split; [lia|].
    destruct (wk_st w) eqn:Est.
    + destruct IH as [HF IH]. split; [lia|]. rewrite IH. unfold join. cbn.
      by rewrite app_assoc, Nat.add_assoc.
    + destruct IH as [HF IH]. split; [lia|]. rewrite IH, drop_drop. unfold join. cbn.
      by rewrite app_assoc, Nat.add_assoc.
    + destruct IH as [HF IH]. split; [lia|]. rewrite IH. cbn. by rewrite Est.
  - simpl. split; [lia|]. split; [lia|]. rewrite <- walk_eq with (s := b :: s ++ k).
    by destruct (walk c (b :: s ++ k) res) as [? []].
  - simpl. split; [lia|]. split; [lia|]. specialize (HS k). cbn [app] in HS. by rewrite HS.
Qed.

(** The walk reads and writes the layout only. *)
Lemma walk_bufs c h t r n s res :
  walk (set_bufs c h t r n) s res
  = (set_bufs (walk c s res).1 h t r n, (walk c s res).2).
Proof.
  revert res. pattern c, s. apply token_induction. clear c s. intros c s IH res. rewrite !walk_eq.
  destruct s as [|b s]; [done|]. cbn [rw_cols set_bufs].
  destruct (rewrite_token _ _ _) as [tk| |] eqn:E; [|done|done].
  change (take_token (set_bufs c h t r n) tk) with (set_bufs (take_token c tk) h t r n).
  by rewrite IH.
Qed.

Lemma walk_keeps c s res :
  let c' := (walk c s res).1 in
  rw_held c' = rw_held c /\ rw_tokenBuf c' = rw_tokenBuf c /\ rw_rawBuf c' = rw_rawBuf c
  /\ rw_noRewrite c' = rw_noRewrite c
  /\ (rw_seenColMeta c = true -> rw_seenColMeta c' = true).
Proof.
  revert res. pattern c, s. apply token_induction. clear c s. intros c s IH res. rewrite walk_eq.
  destruct s as [|b s]; [done|].
  destruct (rewrite_token _ _ _) as [tk| |] eqn:E; [|done|done].
  cbv zeta in *. cbn [after_token fst].
  destruct (IH tk ltac:(done) eq_refl (count_token res tk)) as (-> & -> & -> & -> & HC).
  repeat split; try done. intros Hs. apply HC. cbn. rewrite Hs. apply orb_true_r.
Qed.

Definition add_res (a b : ReframeResult) : ReframeResult :=
  {| rfCells := (rfCells a + rfCells b)%Z; rfRows := (rfRows a + rfRows b)%Z |}.

Lemma walk_add c s res :
  walk c s res =
  ((walk c s zero_result).1,
   let w := (walk c s zero_result).2 in
   {| wk_out := wk_out w; wk_used := wk_used w; wk_res := add_res res (wk_res w);
      wk_st := wk_st w |}).
Proof.
  revert res. pattern c, s. apply token_induction. clear c s. intros c s IH res. rewrite !walk_eq.
  destruct s as [|b s].
  { unfold stop_walk, add_res. cbn. rewrite !Z.add_0_r. by destruct res. }
  destruct (rewrite_token _ _ _) as [tk| |] eqn:E.
  2,3: unfold stop_walk, add_res; cbn; rewrite !Z.add_0_r; by destruct res.
  rewrite (IH tk ltac:(done) eq_refl (count_token res tk)).
  rewrite (IH tk ltac:(done) eq_refl (count_token zero_result tk)).
  unfold after_token, add_res. cbn. do 2 f_equal. f_equal; lia.
Qed.

Lemma walk_out_nonempty c s res :
  s <> [] -> wk_st (walk c s res).2 = parseOK tt -> wk_out (walk c s res).2 <> [].
Proof.
  intros Hs. rewrite walk_eq. destruct s as [|b s]; [done|].
  destruct (rewrite_token _ _ _) as [tk| |] eqn:E; [|done|done]. intros _.
  apply rewrite_token_out in E; [|done]. cbn. by destruct (tk_out tk).
Qed.
End Walk.

(** ** Packets, as the client of the relay reads them *)

(** The whole packets at the front of a wire, each with its end-of-message bit,
    and what is left. *)
Fixpoint split_packets (fuel : nat) (buf : bytes) : list (bool * bytes) * bytes :=
  match fuel with
  | O => ([], buf)
  | S fuel =>
      if (length buf <? headerLen)%nat then ([], buf)
      else
        let len := Z.to_nat (be_u16 (drop 2 buf)) in
        if (len <? headerLen)%nat || (length buf <? len)%nat then ([], buf)
        else
          let '(ps, rest) := split_packets fuel (drop len buf) in
          ((is_eom (byte_at buf 1), take (len - headerLen) (drop headerLen buf)) :: ps, rest)
  end.

Definition packets (buf : bytes) : list (bool * bytes) * bytes := split_packets (length buf) buf.

Definition payloads (ps : list (bool * bytes)) : bytes := concat (map snd ps).
Definition last_eom (eom : bool) (ps : list (bool * bytes)) : bool :=
  match last ps with Some (e, _) => e | None => eom end.

Lemma split_packets_fuel fuel buf :
  length buf <= fuel -> split_packets fuel buf = packets buf.
Proof.
  unfold packets. revert buf. induction fuel as [fuel IH] using lt_wf_ind. intros buf Hf.
  destruct fuel as [|fuel]; [by destruct buf; [|simpl in Hf; lia]|].
  destruct buf as [|b buf]; [done|]. cbn [split_packets length]. simpl in Hf.
  destruct (_ <? headerLen)%nat; [done|]. destruct (_ || _) eqn:E; [done|].
  apply orb_false_iff in E as [E1 E2]. bool_hyps. unfold headerLen in *.
  assert (length (drop (Z.to_nat (be_u16 (drop 2 (b :: buf)))) (b :: buf)) <= length buf) as Hl
    by (rewrite length_drop; cbn [length]; lia).
  rewrite (IH fuel), (IH (length buf)); [done|lia..].
Qed.

Lemma packets_eq buf :
  packets buf =
  if (length buf <? headerLen)%nat then ([], buf)
  else if (packet_len buf <? headerLen)%nat || (length buf <? packet_len buf)%nat then ([], buf)
  else
    ((is_eom (byte_at buf 1), take (packet_len buf - headerLen) (drop headerLen buf))
       :: (packets (drop (packet_len buf) buf)).1, (packets (drop (packet_len buf) buf)).2).
Proof.
  unfold packets at 1. destruct buf as [|b buf]; [done|]. cbn [split_packets length].
  fold (packet_len (b :: buf)).
  destruct (_ <? headerLen)%nat eqn:E0; [done|]. destruct (_ || _) eqn:E; [done|].
  apply orb_false_iff in E as [E1 E2]. bool_hyps. unfold headerLen in *.
  rewrite split_packets_fuel by (rewrite length_drop; cbn [length]; lia).
  by destruct (packets _).
Qed.

Lemma packets_rest buf : length (packets buf).2 <= length buf.
Proof.
  remember (length buf) as n eqn:Hn. revert buf Hn.
  induction n as [n IH] using lt_wf_ind. intros buf ->. rewrite packets_eq.
  destruct (_ <? headerLen)%nat eqn:E0; [done|]. destruct (_ || _) eqn:E; [done|].
  apply orb_false_iff in E as [E1 E2]. bool_hyps. cbn [snd]. unfold headerLen in *.
  etrans; [eapply IH; [|reflexivity]; rewrite length_drop; lia|]. rewrite length_drop. lia.
Qed.

Lemma last_eom_cons eom p ps : last_eom eom (p :: ps) = last_eom p.1 ps.
Proof.
  unfold last_eom. destruct ps as [|q ps]; [by destruct p|]. rewrite last_cons_cons.
  destruct (last (q :: ps)) as [[]|] eqn:EL; [done|]. by apply last_None in EL.
Qed.

Lemma drain_packets_loop fuel buf eom :
  length buf <= fuel ->
  drain_loop fuel buf eom
  = (payloads (packets buf).1, length buf - length (packets buf).2, last_eom eom (packets buf).1).
Proof.
  revert buf eom. induction fuel as [|fuel IH]; intros buf eom Hf.
  { destruct buf; [done|simpl in Hf; lia]. }
  rewrite packets_eq. cbn [drain_loop]. fold (packet_len buf).
  destruct (length buf <? headerLen)%nat eqn:E0; [by rewrite Nat.sub_diag|].
  destruct (_ || _) eqn:E; [by rewrite Nat.sub_diag|].
  apply orb_false_iff in E as [E1 E2]. bool_hyps. unfold headerLen in *.
  rewrite IH by (rewrite length_drop; lia).
  pose proof (packets_rest (drop (packet_len buf) buf)) as Hl.
  rewrite length_drop in Hl |- *. cbn [fst snd]. rewrite last_eom_cons. cbn [fst].
  destruct (packets _) as [ps rest]. cbn [fst snd] in *.
  by replace (packet_len buf + (length buf - packet_len buf - length rest))
    with (length buf - length rest) by lia.
Qed.

Lemma drain_packets buf :
  drainPackets buf
  = (payloads (packets buf).1, length buf - length (packets buf).2, last_eom false (packets buf).1).
Proof. by apply drain_packets_loop. Qed.

(** What is left is the end of the wire. *)
Lemma packets_tail buf : drop (length buf - length (packets buf).2) buf = (packets buf).2.
Proof.
  remember (length buf) as n eqn:Hn. revert buf Hn.
  induction n as [n IH] using lt_wf_ind. intros buf ->. rewrite packets_eq.
  destruct (_ <? headerLen)%nat eqn:E0; [cbn [snd]; by rewrite Nat.sub_diag|].
  destruct (_ || _) eqn:E; [cbn [snd]; by rewrite Nat.sub_diag|].
  apply orb_false_iff in E as [E1 E2]. bool_hyps. cbn [snd]. unfold headerLen in *.
  pose proof (packets_rest (drop (packet_len buf) buf)) as Hl. rewrite length_drop in Hl.
  rewrite <- (IH (length (drop (packet_len buf) buf)) ltac:(rewrite length_drop; lia) _ eq_refl) at 2.
  rewrite drop_drop, length_drop. f_equal. lia.
Qed.

(** Packets do not depend on how the wire is cut. *)
Lemma packets_app buf k :
  packets (buf ++ k)
  = ((packets buf).1 ++ (packets ((packets buf).2 ++ k)).1, (packets ((packets buf).2 ++ k)).2).
Proof.
  remember (length buf) as n eqn:Hn. revert buf Hn.
  induction n as [n IH] using lt_wf_ind. intros buf ->. rewrite (packets_eq buf).
  destruct (length buf <? headerLen)%nat eqn:E0.
  { cbn [fst snd app]. by destruct (packets (buf ++ k)). }
  bool_hyps. unfold headerLen in E0.
  destruct ((packet_len buf <? headerLen) || _)%nat eqn:E.
  { cbn [fst snd app]. by destruct (packets (buf ++ k)). }
  rewrite packets_eq. unfold packet_len at 1 2 3 4 5. rewrite !be_u16_drop_app by lia.
  fold (packet_len buf). apply orb_false_iff in E as [E1 E2]. bool_hyps.
  rewrite test_app by (unfold headerLen; lia).
  apply Nat.ltb_ge in E1 as E1'. rewrite E1', test_app by done. cbn [orb fst snd app].
  unfold headerLen in *.
  rewrite byte_at_app, !drop_app_short, take_app_prefix by (rewrite ?length_drop; lia).
  rewrite (IH (length (drop (packet_len buf) buf)) ltac:(rewrite length_drop; lia) _ eq_refl).
  done.
Qed.

Lemma packets_size buf :
  length (payloads (packets buf).1) + length (packets buf).2 <= length buf.
Proof.
  remember (length buf) as n eqn:Hn. revert buf Hn.
  induction n as [n IH] using lt_wf_ind. intros buf ->. rewrite packets_eq.
  destruct (_ <? headerLen)%nat eqn:E0; [done|]. destruct (_ || _) eqn:E; [done|].
  apply orb_false_iff in E as [E1 E2]. bool_hyps. unfold headerLen in *. unfold payloads.
  cbn [fst snd map concat]. rewrite length_app, length_take.
  specialize (IH (length (drop (packet_len buf) buf)) ltac:(rewrite length_drop; lia) _ eq_refl).
  unfold payloads in IH. rewrite length_drop in IH. lia.
Qed.

Lemma packets_idem buf : (packets (packets buf).2).1 = [].
Proof.
  pose proof (packets_app buf []) as HA. rewrite !app_nil_r in HA.
  destruct (packets buf) as [ps rest]. cbn [fst snd] in *. injection HA as HA _.
  rewrite <- (app_nil_r ps) in HA at 1. by apply app_inv_head in HA.
Qed.

Lemma packets_nil buf : packets buf = ([], []) -> buf = [].
Proof.
  rewrite packets_eq. repeat case_go; intros [= ->]; try done.
Qed.

(** A well-formed packet is read as it was written. *)
Lemma packets_cons typ eom t payload k :
  packet_ok payload ->
  packets (tds_packet typ eom t payload ++ k) = ((eom, payload) :: (packets k).1, (packets k).2).
Proof.
  intros Hp. rewrite packets_eq.
  destruct (packet_header typ eom t payload k Hp) as (_ & H1 & H2 & H3 & H4 & H5).
  set (d := tds_packet typ eom t payload ++ k) in *. rewrite H1, H4, H5.
  destruct (length d <? headerLen)%nat eqn:E0; bool_hyps; [unfold headerLen in E0; lia|].
  destruct ((packet_len d <? headerLen) || (length d <? packet_len d))%nat eqn:E.
  { apply orb_true_iff in E as [E|E]; bool_hyps; unfold headerLen in E; lia. }
  by destruct eom.
Qed.

(** ** Messages: packets up to one with the end-of-message bit *)

Fixpoint messages (acc : bytes) (ps : list (bool * bytes)) : list bytes * bytes :=
  match ps with
  | [] => ([], acc)
  | (true, p) :: ps => let '(ms, rest) := messages [] ps in ((acc ++ p) :: ms, rest)
  | (false, p) :: ps => messages (acc ++ p) ps
  end.

(** The packets [packetize] lays. *)
Fixpoint cut (fuel : nat) (s : bytes) (eom : bool) : list (bool * bytes) :=
  match s, fuel with
  | [], _ | _, O => []
  | _, S fuel =>
      let rest := drop (defaultPacketSize - headerLen) s in
      ((length rest =? 0)%nat && eom, take (defaultPacketSize - headerLen) s) :: cut fuel rest eom
  end.

Lemma packetize_loop_packets fuel id s eom k :
  packets (packetize_loop fuel id s eom ++ k)
  = (cut fuel s eom ++ (packets k).1, (packets k).2).
Proof.
  revert id s. induction fuel as [|fuel IH]; intros id s.
  { destruct s; cbn [packetize_loop cut app]; apply surjective_pairing. }
  destruct s as [|b s]; [cbn [packetize_loop cut app]; apply surjective_pairing|].
  remember (b :: s) as l eqn:Hl. cbn [packetize_loop cut]. rewrite Hl. rewrite <- Hl.
  set (piece := take _ l). set (rest := drop _ l). set (e := (length rest =? 0)%nat && eom).
  pose proof (packets_cons pktReply e
    {| t_spid1 := x00; t_spid2 := x00; t_id := to_byte id; t_window := x00 |} piece
    (packetize_loop fuel (id + 1) rest eom ++ k)) as HP.
  unfold tds_packet, tail_bytes in HP. cbn [t_spid1 t_spid2 t_id t_window] in HP.
  rewrite <- !app_assoc in HP. repeat rewrite <- app_assoc. unfold headerLen at 1.
  rewrite HP, IH; [done|].
  unfold packet_ok, piece. rewrite length_take. unfold defaultPacketSize, headerLen. lia.
Qed.

Lemma messages_cut fuel s eom acc ps :
  length s <= fuel -> s <> [] ->
  messages acc (cut fuel s eom ++ ps)
  = if eom then ((acc ++ s) :: (messages [] ps).1, (messages [] ps).2) else messages (acc ++ s) ps.
Proof.
  revert s acc. induction fuel as [|fuel IH]; intros s acc Hf Hs; [by destruct s; [|simpl in Hf; lia]|].
  destruct s as [|b s]; [done|]. remember (b :: s) as l eqn:Hl. cbn [cut]. rewrite Hl. rewrite <- Hl.
  set (m := (defaultPacketSize - headerLen)%nat).
  assert (0 < m) as Hm by (unfold m, defaultPacketSize, headerLen; lia).
  cbn [app messages]. destruct (length (drop m l) =? 0)%nat eqn:E; bool_hyps; cbn [andb].
  - apply nil_length_inv in E. rewrite E. cbn [cut].
    assert (take m l = l) as -> by (rewrite <- (take_drop m l) at 2; by rewrite E, app_nil_r).
    assert (cut fuel [] eom = []) as -> by (by destruct fuel).
    destruct eom; [|done]. cbn [app]. by destruct (messages [] ps).
  - rewrite IH; [|rewrite length_drop; lia|by intros E'; rewrite E' in E].
    by rewrite <- !app_assoc, (take_drop m l).
Qed.

Lemma payloads_cut fuel s eom : length s <= fuel -> payloads (cut fuel s eom) = s.
Proof.
  revert s. induction fuel as [|fuel IH]; intros s Hf; [by destruct s; [|simpl in Hf; lia]|].
  destruct s as [|b s]; [done|]. remember (b :: s) as l eqn:Hl. cbn [cut]. rewrite Hl. rewrite <- Hl.
  set (m := (defaultPacketSize - headerLen)%nat).
  assert (0 < m) as Hm by (unfold m, defaultPacketSize, headerLen; lia).
  unfold payloads in *. cbn [map concat snd].
  rewrite IH by (rewrite length_drop; subst l; cbn [length] in *; lia). apply take_drop.
Qed.

(** Laid packets read back as the stream they were laid over. *)
Lemma packetize_packets s eom k :
  packets (packetize s eom ++ k)
  = (cut (length s) s eom ++ (packets k).1, (packets k).2).
Proof. apply packetize_loop_packets. Qed.
