(* ===== verification/TdsRewriteProps.v ===== *)
(** * What masking a TDS response does

    However a response is cut into packets and reads, the client reassembles
    one message: the token stream rewritten as a whole.  What that stream holds
    is the subject of TdsMask.v. *)

From S2P Require Import Prelude GoStrings Utf Types Inspect TdsCodec TdsFacts TdsProps.
From S2P Require Import TdsRewrite TdsRewriteFacts.

(** Feeding the reads of a response to the rewriter. *)
Fixpoint rewrite_reads (c : Rewriter) (reads : list bytes) (mask : CellMasker)
    : Rewriter * (bytes * ReframeResult) :=
  match reads with
  | [] => (c, ([], zero_result))
  | d :: reads =>
      let '(c, (out, res)) := tds_Rewrite c d (Some mask) in
      let '(c, (out', res')) := rewrite_reads c reads mask in
      (c, (out ++ out', add_res res res'))
  end.

(** The rewriter inside a result set, between messages. *)
Definition ready (c : Rewriter) : Prop :=
  rw_seenColMeta c = true /\ rw_noRewrite c = false /\ rw_held c = [] /\ rw_tokenBuf c = [].

(** ** One message *)

Lemma messages_open acc ps rest :
  messages acc ps = ([], rest) -> Forall (fun p => p.2 <> []) ps -> rest = [] -> ps = [].
Proof.
  intros E Hne ->. destruct ps as [|[[] p] ps]; [done| |].
  - cbn in E. by destruct (messages [] ps).
  - exfalso. apply Forall_cons in Hne as [Hp Hne]. cbn [messages snd] in *.
    assert (acc ++ p <> []) as Ha by (by destruct acc, p). revert E Ha. clear Hp.
    generalize (acc ++ p). revert Hne. clear. induction ps as [|[[] q] ps IH]; cbn; intros Hne a E Ha.
    + congruence.
    + by destruct (messages [] ps).
    + apply Forall_cons in Hne as [_ Hne]. apply (IH Hne _ E). by destruct a.
Qed.

(** The packets of one message: the end-of-message bit is on the last. *)
Definition single (ps : list (bool * bytes)) : Prop :=
  Forall (fun p => p.2 <> []) ps
  /\ forall ps1 ps2, ps = ps1 ++ ps2 -> ps1 <> [] ->
       last_eom false ps1 = match ps2 with [] => true | _ => false end.

Lemma messages_single acc ps m :
  messages acc ps = ([m], []) -> Forall (fun p => p.2 <> []) ps ->
  m = acc ++ payloads ps /\ single ps.
Proof.
  revert acc. induction ps as [|[e p] ps IH]; intros acc E Hne; [done|].
  apply Forall_cons in Hne as Hc. destruct Hc as [Hp Hne']. cbn [snd] in Hp.
  cbn [messages] in E. unfold payloads. cbn [map concat snd].
  assert (forall e0 ps1 ps2, ps = [] -> e = true -> (e0, p) :: ps = ps1 ++ ps2 -> ps1 <> [] ->
    e0 = e -> last_eom false ps1 = match ps2 with [] => true | _ => false end) as HL.
  { intros e0 ps1 ps2 -> -> Hs Hn ->. destruct ps1 as [|q ps1]; [done|].
    destruct ps1; [|by destruct ps1]. by injection Hs as <- <-. }
  destruct e.
  - destruct (messages [] ps) as [ms rest] eqn:EM. injection E as <- -> ->.
    apply messages_open in EM; [|done|done]. subst ps. cbn. rewrite app_nil_r. split; [done|].
    split; [done|]. intros ps1 ps2 Hs Hn. by apply (HL true ps1 ps2).
  - destruct (IH _ E Hne') as [-> [_ HS]]. rewrite <- app_assoc. split; [done|].
    split; [done|]. intros ps1 ps2 Hs Hn. destruct ps1 as [|q ps1]; [done|].
    injection Hs as <- Hs. rewrite last_eom_cons. cbn [fst].
    destruct ps1 as [|q ps1]; [|by apply HS].
    cbn in Hs |- *. destruct ps2; [|done]. subst ps. done.
Qed.

Lemma single_app ps1 ps2 : single (ps1 ++ ps2) -> single ps2.
Proof.
  intros [Hne HS]. split; [by apply Forall_app in Hne as [_ Hne]|]. intros qs1 qs2 -> Hn.
  rewrite <- (HS (ps1 ++ qs1) qs2); [|by rewrite app_assoc|by destruct ps1, qs1].
  unfold last_eom. rewrite last_app. by destruct (last qs1) eqn:E; [|apply last_None in E].
Qed.

Lemma payloads_app ps qs : payloads (ps ++ qs) = payloads ps ++ payloads qs.
Proof. unfold payloads. by rewrite map_app, concat_app. Qed.

Lemma payloads_nil ps : Forall (fun p : bool * bytes => p.2 <> []) ps -> payloads ps = [] -> ps = [].
Proof.
  intros Hne E. destruct ps as [|[e p] ps]; [done|]. exfalso. apply Forall_cons in Hne as [Hp _].
  unfold payloads in E. cbn in E. by destruct p.
Qed.

(** ** One read *)

Definition in_budget (c : Rewriter) (more : bytes) : Prop :=
  (Z.of_nat (length (rw_tokenBuf c) + length (rw_held c ++ more)) <= maxHeldBytes)%Z.

Section Mask.
Context (mask : CellMasker).

(** [tds_Rewrite] inside a result set, in terms of the walk: the bytes that are
    not emitted are held, unless the walk met something it cannot measure. *)
Lemma rewrite_read c d ps rest c1 w :
  rw_seenColMeta c = true -> rw_noRewrite c = false -> in_budget c d ->
  packets (rw_held c ++ d) = (ps, rest) ->
  walk mask c (rw_tokenBuf c ++ payloads ps) zero_result = (c1, w) ->
  let left := drop (wk_used w) (rw_tokenBuf c ++ payloads ps) in
  match wk_st w with
  | parseCannot =>
      tds_Rewrite c d (Some mask) =
      (set_bufs c1 [] [] [] true,
       (packetize (wk_out w) false ++ packetize left (last_eom false ps) ++ rest, wk_res w))
  | _ =>
      exists r, tds_Rewrite c d (Some mask) =
        (set_bufs c1 rest left r false,
         (packetize (wk_out w)
            (last_eom false ps && (length left =? 0)%nat && (length rest =? 0)%nat), wk_res w))
  end.
Proof.
  intros Hs Hn Hb EP EW left. unfold tds_Rewrite. rewrite Hn. unfold in_budget in Hb.
  destruct (_ <? _)%Z eqn:E; bool_hyps; [lia|]. rewrite drain_packets, packets_tail, EP.
  cbn [fst snd]. change (rewriteTokens c ?t mask) with (walk mask c t zero_result). rewrite EW.
  destruct (walk_keeps mask c (rw_tokenBuf c ++ payloads ps) zero_result)
    as (_ & _ & _ & Hn1 & Hs1). rewrite EW in Hn1, Hs1. cbn [fst] in *. rewrite Hn in Hn1.
  specialize (Hs1 Hs). destruct (length (_ ++ payloads ps) =? 0)%nat eqn:E0.
  - bool_hyps. apply nil_length_inv in E0. rewrite walk_eq, E0 in EW. injection EW as <- <-.
    subst left. rewrite E0. cbn. eauto.
  - destruct (wk_st w); rewrite ?Hs1, ?Hn1; eauto.
Qed.

(** Going on after a read: the rest of the walk. *)
Lemma walk_rest c t k cw w :
  walk mask c (t ++ k) zero_result = (cw, w) -> wk_st w = parseOK tt ->
  let '(c1, w1) := walk mask c t zero_result in
  let '(cw2, w2) := walk mask c1 (drop (wk_used w1) t ++ k) zero_result in
  wk_st w1 <> parseCannot /\ cw2 = cw /\ wk_st w2 = parseOK tt
  /\ wk_out w = wk_out w1 ++ wk_out w2 /\ wk_res w = add_res (wk_res w1) (wk_res w2)
  /\ (k = [] -> drop (wk_used w1) t = [] /\ wk_st w1 = parseOK tt).
Proof.
  intros Hw Hok. pose proof (walk_app mask c t k zero_result) as HA.
  destruct (walk mask c t zero_result) as [c1 w1] eqn:EW. destruct HA as [Hu HA].
  assert (wk_st w1 <> parseCannot) as Hc.
  { intros E. rewrite E in HA. destruct HA as [_ HA]. rewrite Hw in HA. injection HA as -> ->. congruence. }
  assert (k = [] -> wk_st w1 = parseOK tt) as Hk.
  { intros ->. rewrite app_nil_r, EW in Hw. by injection Hw as -> ->. }
  assert (walk mask c (t ++ k) zero_result
    = join w1 (walk mask c1 (drop (wk_used w1) t ++ k) (wk_res w1))) as HJ.
  { destruct (wk_st w1); [|by apply HA|done]. destruct HA as [HU ->].
    by rewrite HU, drop_all. }
  rewrite Hw, walk_add in HJ.
  destruct (walk mask c1 (drop (wk_used w1) t ++ k) zero_result) as [cw2 w2].
  unfold join in HJ. cbn in HJ. injection HJ as -> ->. cbn in *.
  repeat split; try done.
  - rewrite (Hk H) in HA. destruct HA as [-> _]. apply drop_all.
  - by apply Hk.
Qed.

(** What emitting a piece of a message adds to what the client reassembles. *)
Lemma messages_emit out eom acc ps :
  (eom = true -> out <> []) ->
  messages acc (cut (length out) out eom ++ ps)
  = if eom then ((acc ++ out) :: (messages [] ps).1, (messages [] ps).2)
    else messages (acc ++ out) ps.
Proof.
  intros Hne. destruct (decide (out = [])) as [->|Ho]; [|by apply messages_cut].
  destruct eom; [by destruct (Hne eq_refl)|]. by rewrite app_nil_r.
Qed.

(** One read of a message: [ps1] are the packets it completes, [ps2] those still
    to come.  The end-of-message bit goes out with the last of them. *)
Lemma one_read c d ps1 rest ps2 cw w :
  rw_seenColMeta c = true -> rw_noRewrite c = false -> in_budget c d ->
  packets (rw_held c ++ d) = (ps1, rest) -> single (ps1 ++ ps2) ->
  (ps1 ++ ps2 = [] -> rw_tokenBuf c = []) -> (ps2 = [] -> rest = []) ->
  walk mask c ((rw_tokenBuf c ++ payloads ps1) ++ payloads ps2) zero_result = (cw, w) ->
  wk_st w = parseOK tt ->
  exists c1 left r w1 w2,
    let eom := match ps1, ps2 with _ :: _, [] => true | _, _ => false end in
    tds_Rewrite c d (Some mask)
      = (set_bufs c1 rest left r false, (packetize (wk_out w1) eom, wk_res w1))
    /\ rw_seenColMeta c1 = true /\ walk mask c1 (left ++ payloads ps2) zero_result = (cw, w2)
    /\ wk_st w2 = parseOK tt /\ wk_out w = wk_out w1 ++ wk_out w2
    /\ wk_res w = add_res (wk_res w1) (wk_res w2)
    /\ length left <= length (rw_tokenBuf c ++ payloads ps1) /\ (ps2 = [] -> left = [])
    /\ (eom = true -> wk_out w1 <> []) /\ (ps1 ++ ps2 = [] -> wk_out w = []).
Proof.
  intros Hs Hn Hb EP H1 Ht Hr Hw Hok. set (t := rw_tokenBuf c ++ payloads ps1) in *.
  pose proof (walk_rest _ _ _ _ _ Hw Hok) as HR.
  destruct (walk mask c t zero_result) as [c1 w1] eqn:EW.
  pose proof (rewrite_read c d ps1 rest c1 w1 Hs Hn Hb EP EW) as HD. cbv zeta in HD.
  destruct (walk mask c1 _ zero_result) as [cw2 w2] eqn:EW2.
  destruct HR as (Hc1 & -> & Hok2 & HO & HRes & Hlast). fold t in HD.
  set (left := drop (wk_used w1) t) in *.
  assert (Hl : ps2 = [] -> left = [] /\ wk_st w1 = parseOK tt) by (intros ->; by apply Hlast).
  assert (last_eom false ps1 && (length left =? 0)%nat && (length rest =? 0)%nat
    = match ps1, ps2 with _ :: _, [] => true | _, _ => false end) as He.
  { destruct ps1 as [|p ps1]; [done|]. rewrite (proj2 H1 (p :: ps1) ps2) by done.
    destruct ps2; [|done]. by rewrite (proj1 (Hl eq_refl)), Hr. }
  rewrite He in HD. destruct (walk_keeps mask c t zero_result) as (_ & _ & _ & _ & Hs1).
  rewrite EW in Hs1.
  assert (exists r, tds_Rewrite c d (Some mask) = (set_bufs c1 rest left r false,
    (packetize (wk_out w1) (match ps1, ps2 with _ :: _, [] => true | _, _ => false end), wk_res w1)))
    as [r Hrw] by (by destruct (wk_st w1)).
  exists c1, left, r, w1, w2. cbv zeta. repeat split; try done; try by apply Hs1.
  - unfold left. rewrite length_drop. lia.
  - apply Hl.
  - destruct ps1 as [|p ps1], ps2; try done. intros _. destruct (Hl eq_refl) as [_ HS].
    pose proof (walk_out_nonempty mask c t zero_result) as HN. rewrite EW in HN. apply HN; [|done].
    intros E0. unfold t in E0. apply app_nil in E0 as [_ E0].
    apply payloads_nil in E0; [done|]. destruct H1 as [H1 _]. by rewrite app_nil_r in H1.
  - intros E. pose proof (Ht E) as Ht'. apply app_nil in E as [-> ->].
    unfold t in Hw. rewrite Ht', walk_eq in Hw. by injection Hw as _ <-.
Qed.

(** What is left to read of one message, behind [rw_held] and [rw_tokenBuf]. *)
Lemma run_reads reads c ps cw w :
  rw_seenColMeta c = true -> rw_noRewrite c = false -> in_budget c (concat reads) ->
  packets (rw_held c ++ concat reads) = (ps, []) -> single ps ->
  (ps = [] -> rw_tokenBuf c = []) -> (packets (rw_held c)).1 = [] ->
  walk mask c (rw_tokenBuf c ++ payloads ps) zero_result = (cw, w) -> wk_st w = parseOK tt ->
  let '(c', (out, res)) := rewrite_reads c reads mask in
  (packets out).2 = []
  /\ (forall acc qs, messages acc ((packets out).1 ++ qs)
        = match ps with
          | [] => messages acc qs
          | _ => ((acc ++ wk_out w) :: (messages [] qs).1, (messages [] qs).2)
          end)
  /\ res = wk_res w /\ ready c' /\ rw_cols c' = rw_cols cw.
Proof.
  revert c ps cw w.
  induction reads as [|d reads IH]; intros c ps cw w Hs Hn Hb Hps H1 Ht Hh Hw Hok.
  { cbn [concat rewrite_reads] in *. rewrite app_nil_r in Hps. rewrite Hps in Hh. cbn [fst] in Hh.
    subst ps. rewrite (Ht eq_refl) in Hw. rewrite walk_eq in Hw. injection Hw as <- <-.
    repeat split; try done; [by apply packets_nil|by apply Ht]. }
  cbn [concat rewrite_reads] in *. rewrite app_assoc, packets_app in Hps.
  pose proof (packets_size (rw_held c ++ d)) as Hrl. pose proof (packets_idem (rw_held c ++ d)) as Hid.
  destruct (packets (rw_held c ++ d)) as [ps1 rest] eqn:EP1. cbn [fst snd] in *.
  destruct (packets (rest ++ concat reads)) as [ps2 rest2] eqn:EP. injection Hps as <- ->.
  rewrite payloads_app, app_assoc in Hw.
  destruct (one_read c d ps1 rest ps2 cw w) as (c1 & left & r & w1 & w2 & -> & Hs1 & EW2 & Hok2
    & HO & HRes & Hll & Hl & Hne & Hnil); try done.
  { unfold in_budget in *. rewrite !length_app in *. lia. }
  { intros ->. by apply packets_nil, app_nil in EP as [-> _]. }
  specialize (IH (set_bufs c1 rest left r false) ps2 (set_bufs cw rest left r false) w2).
  cbn [rw_seenColMeta rw_noRewrite rw_held rw_tokenBuf rw_cols set_bufs] in IH.
  rewrite walk_bufs, EW2 in IH. cbn [fst snd] in IH.
  destruct (rewrite_reads _ reads mask) as [c' [out' res']].
  destruct IH as (HI1 & HI2 & -> & HI4 & HI5); try done.
  { unfold in_budget in *. cbn [rw_tokenBuf rw_held set_bufs]. rewrite !length_app in *. lia. }
  { by eapply single_app. }
  rewrite packetize_packets. cbn [fst snd]. split; [done|]. split; [|by rewrite HRes].
  intros acc qs. rewrite <- app_assoc, messages_emit, !HI2 by done.
  destruct ps2 as [|q ps2].
  - rewrite (Hl eq_refl), walk_eq in EW2. injection EW2 as _ <-. cbn in HO. rewrite app_nil_r in HO.
    destruct ps1 as [|p ps1]; [|by rewrite HO]. by rewrite <- HO, Hnil, app_nil_r.
  - rewrite HO, app_assoc. by destruct ps1.
Qed.
End Mask.

(** Masking a response does not depend on how it arrives: inside a result set,
    let one message come in any packets and any reads within the buffer, and
    let its token stream be readable.  The client reassembles exactly one
    message, the token stream rewritten as a whole; the counters are those of
    the whole, nothing stays held, and the rewriter is ready for the next
    message with the layout the stream left in force. *)
Lemma response_reassembled mask c reads ps s :
  ready c -> (Z.of_nat (length (concat reads)) <= maxHeldBytes)%Z ->
  packets (concat reads) = (ps, []) -> Forall (fun p => p.2 <> []) ps ->
  messages [] ps = ([s], []) ->
  let '(cw, w) := rewriteTokens c s mask in
  wk_st w = parseOK tt ->
  let '(c', (out, res)) := rewrite_reads c reads mask in
  messages [] (packets out).1 = ([wk_out w], []) /\ (packets out).2 = []
  /\ res = wk_res w /\ ready c' /\ rw_cols c' = rw_cols cw.
Proof.
  intros (Hs & Hn & Hh & Ht) Hb Hps Hne Hm.
  change (rewriteTokens c s mask) with (walk mask c s zero_result).
  destruct (walk mask c s zero_result) as [cw w] eqn:EW. intros Hok.
  destruct (messages_single _ _ _ Hm Hne) as [-> H1].
  pose proof (run_reads mask reads c ps cw w) as HR. rewrite Hh, Ht in HR.
  destruct (rewrite_reads c reads mask) as [c' [out res]].
  destruct HR as (HR1 & HR2 & HR3 & HR4 & HR5); try done.
  { unfold in_budget. rewrite Hh, Ht. simpl. lia. }
  specialize (HR2 [] []). rewrite app_nil_r in HR2. rewrite HR2.
  split; [|done]. by destruct ps.
Qed.

(** ** A masker that changes nothing *)

Section Identity.
Context (mask : CellMasker) (Hid : forall col v, mask col v = v).

Lemma rewrite_cell_keeps col r wire : rewrite_cell mask col r wire = (wire, false).
Proof. unfold rewrite_cell. case_go; [done|]. by rewrite Hid, seqb_refl. Qed.

Lemma rewrite_cells_keeps nulls cols i b p out n cells :
  p <= length b -> rewrite_cells mask nulls cols i b p = parseOK (out, n, cells) ->
  p <= n <= length b /\ out = take (n - p) (drop p b).
Proof.
  revert i p out n cells. induction cols as [|col cols IH]; cbn [rewrite_cells]; intros i p out n cells Hp E.
  { injection E as <- <- _. by rewrite Nat.sub_diag. }
  destruct (null_bit nulls i); [by eapply IH|].
  destruct (readCell (drop p b) col) as [r| |] eqn:ER; try done. cbn [mbind parsed_bind] in E.
  destruct (stable_behind _ _ _ _ _ (readCell_stable col) Hp ER) as [Hr _].
  rewrite rewrite_cell_keeps in E.
  destruct (rewrite_cells _ _ _ _ _ _) as [[[out' n'] cells']| |] eqn:E'; try done.
  cbn in E. injection E as <- <- _. apply IH in E' as [Hn ->]; [|done]. split; [lia|].
  rewrite <- (take_split (cr_n r) (n' - p)), drop_drop by lia. do 2 f_equal. lia.
Qed.

Lemma rewrite_token_keeps cols s t :
  rewrite_token cols mask s = parseOK t -> tk_out t = take (tk_used t) s.
Proof.
  unfold rewrite_token. case_go.
  { destruct (parseColMetaData _) as [[? ?]| |]; try done. cbn. by intros [= <-]. }
  case_go.
  { destruct cols as [cols|]; [|done]. unfold rewriteRow.
    destruct (length s <? _)%nat eqn:E; [done|]. bool_hyps.
    destruct (rewrite_cells _ _ _ _ _ _) as [[[out n] cells]| |] eqn:E'; try done.
    cbn [mbind parsed_bind]. intros [= <-]. cbn [tk_out tk_used].
    apply rewrite_cells_keeps in E' as [Hn ->]; [|done].
    apply take_split. lia. }
  destruct (skipToken s) as [n| |]; try done. cbn. by intros [= <-].
Qed.

Lemma walk_keeps_stream c s res :
  wk_out (walk mask c s res).2 = take (wk_used (walk mask c s res).2) s.
Proof.
  revert res. pattern c, s. apply (token_induction mask). clear c s. intros c s IH res.
  rewrite walk_eq. destruct s as [|b s]; [done|].
  destruct (rewrite_token _ _ _) as [t| |] eqn:E; [|done|done].
  cbn [after_token snd wk_out wk_used].
  rewrite (IH t), (rewrite_token_keeps _ _ _ E) by done.
  pose proof (rewrite_token_stable mask (rw_cols c) (b :: s) ltac:(done)) as HS.
  unfold stable_at in HS. rewrite E in HS. destruct HS as [Hu _].
  rewrite <- (take_split (tk_used t) (tk_used t + _)) by lia. do 2 f_equal. lia.
Qed.

(** The rewriter after it gave up forwards everything as it comes. *)
Lemma reads_after_latch c reads :
  rw_noRewrite c = true -> rewrite_reads c reads mask = (c, (concat reads, zero_result)).
Proof.
  intros Hn. induction reads as [|d reads IH]; [done|]. cbn [rewrite_reads tds_Rewrite].
  by rewrite Hn, IH.
Qed.

Lemma reads_conserve reads c :
  rw_seenColMeta c = true -> rw_noRewrite c = false -> in_budget c (concat reads) ->
  (packets (rw_held c)).1 = [] ->
  let '(c', (out, _)) := rewrite_reads c reads mask in
  let wire := out ++ (tds_Flush c').2 in
  let '(ps, rest) := packets (rw_held c ++ concat reads) in
  payloads (packets wire).1 = rw_tokenBuf c ++ payloads ps /\ (packets wire).2 = rest.
Proof.
  revert c. induction reads as [|d reads IH]; intros c Hs Hn Hb Hh.
  { cbn [rewrite_reads concat app tds_Flush snd]. rewrite app_nil_r, packetize_packets.
    pose proof (packets_tail (rw_held c)) as HT. destruct (packets (rw_held c)) as [ps rest].
    cbn [fst snd] in *. subst ps. by rewrite !app_nil_r, payloads_cut. }
  cbn [concat rewrite_reads] in *. rewrite app_assoc, packets_app.
  pose proof (packets_size (rw_held c ++ d)) as Hrl. pose proof (packets_idem (rw_held c ++ d)) as Hidm.
  destruct (packets (rw_held c ++ d)) as [ps1 rest] eqn:EP1. cbn [fst snd] in *.
  destruct (walk mask c (rw_tokenBuf c ++ payloads ps1) zero_result) as [c1 w1] eqn:EW.
  assert (in_budget c d) as Hbd by (unfold in_budget in *; rewrite !length_app in *; lia).
  pose proof (rewrite_read mask c d ps1 rest c1 w1 Hs Hn Hbd EP1 EW) as HD. cbv zeta in HD.
  pose proof (walk_keeps_stream c (rw_tokenBuf c ++ payloads ps1) zero_result) as HO.
  destruct (walk_keeps mask c (rw_tokenBuf c ++ payloads ps1) zero_result) as (_ & _ & _ & _ & Hs1).
  rewrite EW in HO, Hs1. cbn [fst snd] in HO, Hs1.
  set (t := rw_tokenBuf c ++ payloads ps1) in *. set (left := drop (wk_used w1) t) in *.
  assert (wk_out w1 ++ left = t) as HT by (unfold left; by rewrite HO, take_drop).
  assert (wk_st w1 = parseCannot \/ wk_st w1 <> parseCannot) as [Hc|Hc]
    by (destruct (wk_st w1); (by left) || (by right)).
  - rewrite Hc in HD. rewrite HD, reads_after_latch by done. cbn [tds_Flush rw_tokenBuf rw_held set_bufs snd].
    cbn [packetize packetize_loop length app]. rewrite app_nil_r, <- !app_assoc, !packetize_packets.
    destruct (packets (rest ++ concat reads)) as [ps2 rest2]. cbn [fst snd].
    split; [|done]. rewrite !payloads_app, !payloads_cut by done. by rewrite !app_assoc, HT.
  - assert (exists r e, tds_Rewrite c d (Some mask)
      = (set_bufs c1 rest left r false, (packetize (wk_out w1) e, wk_res w1))) as (r & e & ->).
    { destruct (wk_st w1); [| |done]; destruct HD as [r ->]; eauto. }
    specialize (IH (set_bufs c1 rest left r false)). cbn [rw_seenColMeta rw_noRewrite rw_held rw_tokenBuf set_bufs] in IH.
    destruct (rewrite_reads _ reads mask) as [c' [out' res']]. cbv zeta in *.
    rewrite <- app_assoc, packetize_packets. cbn [fst snd].
    destruct (packets (rest ++ concat reads)) as [ps2 rest2]. cbn [fst snd].
    destruct IH as [IH1 ->]; try done; [by apply Hs1| |].
    { unfold in_budget in *. cbn [rw_tokenBuf rw_held set_bufs]. unfold left, t.
      rewrite !length_app in *. rewrite length_drop, length_app. lia. }
    split; [|done]. rewrite !payloads_app, payloads_cut, IH1 by done. by rewrite !app_assoc, HT.
Qed.
End Identity.

(** Re-framing loses and adds nothing: inside a result set, with a masker that
    changes nothing, whatever the server sends within the buffer, readable or
    not, in any packets and any reads, what the client receives up to the final
    flush carries exactly the server's token stream, followed by the same
    incomplete packet. *)
Theorem tds_rewrite_conserves mask c reads :
  (forall col v, mask col v = v) -> ready c ->
  (Z.of_nat (length (concat reads)) <= maxHeldBytes)%Z ->
  let '(c', (out, _)) := rewrite_reads c reads mask in
  let wire := out ++ (tds_Flush c').2 in
  payloads (packets wire).1 = payloads (packets (concat reads)).1
  /\ (packets wire).2 = (packets (concat reads)).2.
Proof.
  intros Hid (Hs & Hn & Hh & Ht) Hb. pose proof (reads_conserve mask Hid reads c) as HR.
  rewrite Hh, Ht in HR. destruct (rewrite_reads c reads mask) as [c' [out res]]. cbv zeta in *.
  cbn [app] in HR. destruct (packets (concat reads)) as [ps rest]. cbn [fst snd].
  apply HR; try done. unfold in_budget. rewrite Hh, Ht. simpl. lia.
Qed.
