(* ===== verification/TdsMask.v ===== *)
(** * What a client reads in a rewritten response

    A row read with the layout of its result set is a list of values; reading a
    rewritten row gives the values the masker asked for, and the counter tells
    how many of them differ.  A reader of whole replies, independent of the
    rewriter, then says what a masked response is made of.  Last the places
    where the rewriter departs from its comments. *)

From S2P Require Import Prelude GoStrings Utf Types Inspect TdsCodec TdsFacts TdsProps.
From S2P Require Import TdsRewrite TdsRewriteFacts TdsRewriteProps.

(** ** Reading a row *)

(** The value of a cell: NULL, text, or the bytes of another type. *)
Definition cell_view (col : column) (r : cell_read) : option bytes :=
  if cr_null r then None else Some (if co_text col then cr_val r else cr_raw r).

Fixpoint read_row (nulls : option bytes) (cols : list column) (i : nat) (b : bytes)
    : parsed (list (option bytes) * bytes) :=
  match cols with
  | [] => parseOK ([], b)
  | col :: cols =>
      if null_bit nulls i then
        '(vs, rest) ← read_row nulls cols (S i) b; parseOK (None :: vs, rest)
      else
        r ← readCell b col;
        '(vs, rest) ← read_row nulls cols (S i) (drop (cr_n r) b);
        parseOK (cell_view col r :: vs, rest)
  end.

(** ** What a masker makes of a value *)

Definition cell_body (col : column) (v : bytes) : bytes :=
  if co_ucs2 col then toUCS2 v else v.

(** A value the column's encoding can carry: Unicode text for a UCS-2 column,
    not empty where an empty value means something else, below 4 GiB. *)
Definition writable (col : column) (v : bytes) : Prop :=
  (co_ucs2 col = true -> exists rs, valid_text rs /\ v = utf8_String rs)
  /\ (co_kind col = lenByte \/ co_kind col = lenPLP -> cell_body col v <> [])
  /\ (Z.of_nat (length (cell_body col v)) < 2 ^ 32)%Z.

(** What the masker puts in place of a value fits the column. *)
Definition replacements_fit (mask : CellMasker) (col : column) : Prop :=
  forall x, mask (co_name col) x <> x -> writable col (mask (co_name col) x).

(** The longest value in bytes that the length in front of a column's values can
    describe: one byte with 0xff as NULL, two with 0xffff; text is not of fixed
    or unknown length. *)
Definition has_room (col : column) (v : bytes) : bool :=
  let n := Z.of_nat (length (cell_body col v)) in
  match co_kind col with
  | lenByte => (n <? 255)%Z
  | lenUShort => (n <? 65535)%Z
  | lenPLP | lenLong => true
  | lenFixed | lenUnknown => false
  end.

Lemma has_room_encodes v col : has_room col v = bool_decide (is_Some (encodeCell v col)).
Proof.
  unfold encodeCell, has_room, ushortNull. fold (cell_body col v).
  destruct (co_kind col); try done.
  - destruct (Nat.ltb_spec 254 (length (cell_body col v))); cbn; [apply Z.ltb_ge|apply Z.ltb_lt]; lia.
  - destruct (Z.leb_spec 65535 (Z.of_nat (length (cell_body col v)))); cbn; [apply Z.ltb_ge|apply Z.ltb_lt]; lia.
Qed.

(** The value behind the masker: text is replaced where the column has room for
    the replacement, the rest is kept. *)
Definition masked_view (mask : CellMasker) (col : column) (v : option bytes) : option bytes :=
  match v with
  | Some x =>
      if co_text col && negb (x =s []) then
        if has_room col (mask (co_name col) x) then Some (mask (co_name col) x) else Some x
      else Some x
  | None => None
  end.

Fixpoint masked_row (mask : CellMasker) (cols : list column) (vs : list (option bytes))
    : list (option bytes) :=
  match cols, vs with
  | col :: cols, v :: vs => masked_view mask col v :: masked_row mask cols vs
  | _, _ => []
  end.

Definition differing (vs ws : list (option bytes)) : Z :=
  Z.of_nat (length (List.filter (fun p : option bytes * option bytes =>
    negb (bool_decide (p.1 = p.2))) (combine vs ws))).

(** ** A cell that is written is read back *)

Lemma value_cell_body col pre body k :
  value_cell (pre ++ body ++ k) col (length pre) (Z.of_nat (length body))
  = parseOK {| cr_raw := body; cr_val := decodeText body col;
               cr_n := (length pre + length body)%nat; cr_null := false |}.
Proof.
  unfold value_cell. rewrite !length_app. destruct (_ <? _)%Z eqn:E; bool_hyps; [lia|].
  rewrite drop_app_length, Nat2Z.id, take_app_length. done.
Qed.

Lemma decode_body col v :
  co_text col = true -> writable col v -> decodeText (cell_body col v) col = v.
Proof.
  intros Ht (Hu & _). unfold decodeText, cell_body. rewrite Ht. cbn [negb].
  destruct (co_ucs2 col); [|done]. destruct (Hu eq_refl) as (rs & Hrs & ->).
  unfold toUCS2. rewrite utf8_roundtrip by done. by apply ucs2_text.
Qed.

Lemma le_u64_put v r : (0 <= v < 2 ^ 32)%Z -> le_u64 (put_le_u64 v ++ r) = v.
Proof.
  intros Hv. unfold le_u64, put_le_u64. rewrite <- app_assoc, le_u32_put by done.
  change (drop 4 (put_le_u32 v ++ ?x)) with x. rewrite le_u32_put; [|rewrite Z.div_small; lia].
  rewrite Z.div_small by lia. lia.
Qed.

Lemma plp_one_chunk fuel body k :
  2 <= fuel -> body <> [] -> (Z.of_nat (length body) < 2 ^ 32)%Z ->
  plp_chunks fuel (put_le_u32 (Z.of_nat (length body)) ++ body ++ put_le_u32 0 ++ k)
  = parseOK (body, 4 + length body + 4).
Proof.
  intros Hf Hb Hl. destruct fuel as [|[|fuel]]; [lia|lia|]. cbn [plp_chunks].
  rewrite le_u32_put by lia. set (L := Z.of_nat (length body)) in *.
  change (drop 4 (put_le_u32 L ++ ?x)) with x.
  destruct (length (put_le_u32 L ++ _) <? 4)%nat eqn:E0; bool_hyps; [cbn in E0; lia|].
  destruct (L =? 0)%Z eqn:E1; bool_hyps; [destruct body; [done|unfold L in E1; simpl in E1; lia]|].
  destruct (_ <? L)%Z eqn:E2; bool_hyps; [rewrite length_app in E2; unfold L in E2; lia|].
  unfold L. rewrite Nat2Z.id, drop_app_length, take_app_length.
  destruct (length (put_le_u32 0 ++ k) <? 4)%nat eqn:E3; bool_hyps; [cbn in E3; lia|].
  rewrite le_u32_put by lia. cbn [Z.eqb mbind parsed_bind]. by rewrite app_nil_r.
Qed.

Lemma encode_read col v enc k :
  co_text col = true -> writable col v -> encodeCell v col = Some enc ->
  readCell (enc ++ k) col
  = parseOK {| cr_raw := cell_body col v; cr_val := v; cr_n := length enc; cr_null := false |}.
Proof.
  intros Ht HW E. pose proof (decode_body col v Ht HW) as HD. destruct HW as (_ & Hne & Hl).
  unfold encodeCell in E. fold (cell_body col v) in E. set (body := cell_body col v) in *.
  unfold readCell. destruct (co_kind col) eqn:Ek; try done.
  - destruct (254 <? length body)%nat eqn:E1; [done|]. bool_hyps. apply (inj Some) in E as <-. cbn [app].
    rewrite byte_at_0, bval_to_byte, Z.mod_small by lia.
    assert (body <> []) as Hb by (apply Hne; by left).
    destruct (Z.of_nat (length body) =? 0)%Z eqn:E2; bool_hyps; [destruct body; simpl in E2; [done|lia]|].
    cbn [length Nat.ltb Nat.leb].
    pose proof (value_cell_body col [to_byte (Z.of_nat (length body))] body k) as HV.
    cbn [app length] in HV. rewrite HV, HD. done.
  - destruct (ushortNull <=? Z.of_nat (length body))%Z eqn:E1; [done|]. bool_hyps. apply (inj Some) in E as <-.
    unfold ushortNull in *. rewrite <- app_assoc, le_u16_put by lia.
    destruct (Z.of_nat (length body) =? 65535)%Z eqn:E2; bool_hyps; [lia|].
    pose proof (value_cell_body col (put_le_u16 (Z.of_nat (length body))) body k) as HV.
    change (length (put_le_u16 ?z)) with 2 in HV. rewrite HV, HD, length_app. done.
  - apply (inj Some) in E as <-. unfold readPLPCell. rewrite <- !app_assoc, le_u64_put by lia.
    unfold plpNull. destruct (_ =? 2 ^ 64 - 1)%Z eqn:E2; bool_hyps; [lia|].
    change (drop 8 (put_le_u64 ?z ++ ?x)) with x.
    rewrite plp_one_chunk; [|rewrite !length_app; cbn; lia|by apply Hne; right|done].
    cbn [mbind parsed_bind]. rewrite HD, !length_app. cbn. do 2 f_equal.
  - apply (inj Some) in E as <-.
    set (pre := x10 :: repeat x00 16 ++ repeat x00 8 ++ put_le_u32 (Z.of_nat (length body))).
    change ((x10 :: repeat x00 16 ++ _) ++ k) with (pre ++ body ++ k).
    change (byte_at (pre ++ body ++ k) 0) with x10. change (Z.to_nat (bval x10)) with 16.
    change (drop (1 + 16 + 8) (pre ++ body ++ k))
      with (put_le_u32 (Z.of_nat (length body)) ++ body ++ k).
    rewrite le_u32_put by lia. pose proof (value_cell_body col pre body k) as HV.
    change (length pre) with 29 in HV. cbn [Nat.eqb Nat.add] in *. rewrite HV, HD. done.
Qed.

(** ** A cell that is kept is read back *)

Lemma value_cell_exact col p l b k r :
  (0 <= l)%Z -> value_cell (b ++ k) col p l = parseOK r -> cr_n r = length b ->
  p <= length b /\ value_cell b col p l = parseOK r.
Proof.
  intros Hl. unfold value_cell. destruct (_ <? _)%Z eqn:E; [done|]. intros [= <-]. cbn [cr_n].
  intros Hn. destruct (Z.of_nat (length b) <? _)%Z eqn:E'; bool_hyps; [lia|]. split; [lia|].
  by rewrite drop_app_short, take_app_prefix by (rewrite ?length_drop; lia).
Qed.

Lemma null_cell_exact n b k r :
  null_cell (take n (b ++ k)) = parseOK r -> cr_n r = length b -> n <= length (b ++ k) ->
  n = length b /\ null_cell (take n b) = parseOK r.
Proof.
  intros E Hn Hl. assert (cr_n r = length (take n (b ++ k))) as Hr by (by injection E as <-).
  rewrite length_take, Nat.min_l in Hr by lia. rewrite <- E.
  split; [lia|]. by rewrite take_app_prefix by lia.
Qed.

Lemma plp_chunks_exact fuel b k body n :
  plp_chunks fuel (b ++ k) = parseOK (body, n) -> n = length b ->
  plp_chunks fuel b = parseOK (body, n).
Proof.
  revert b body n. induction fuel as [|fuel IH]; [done|]. intros b body n. cbn [plp_chunks].
  destruct (length (b ++ k) <? 4)%nat eqn:E1; [done|].
  assert (forall n', 4 + n' = length b -> le_u32 (b ++ k) = le_u32 b /\ drop 4 (b ++ k) = drop 4 b ++ k
    /\ (length b <? 4)%nat = false) as HB.
  { intros n' Hn. split; [apply le_u32_app; lia|]. split; [apply drop_app_short; lia|].
    apply Nat.ltb_ge. lia. }
  destruct (le_u32 (b ++ k) =? 0)%Z eqn:E2.
  { intros [= <- <-] Hn. destruct (HB 0 Hn) as (HB1 & _ & ->). by rewrite <- HB1, E2. }
  destruct (Z.of_nat (length (drop 4 (b ++ k))) <? _)%Z eqn:E3; [done|].
  pose proof (le_u32_nonneg (b ++ k)) as Hc.
  destruct (plp_chunks fuel _) as [[body' n']| |] eqn:E4; [|done|done]. intros [= <- <-] Hn.
  destruct (HB (Z.to_nat (le_u32 (b ++ k)) + n') ltac:(lia)) as (HB1 & HB2 & ->).
  rewrite HB1, HB2 in *. rewrite E2.
  rewrite drop_app_short in E4 by (rewrite length_drop; lia).
  apply IH in E4; [|rewrite !length_drop; lia]. rewrite E4. cbn [mbind parsed_bind].
  destruct (Z.of_nat (length (drop 4 b)) <? _)%Z eqn:E5; bool_hyps; [rewrite length_drop in E5; lia|].
  by rewrite take_app_prefix by (rewrite length_drop; lia).
Qed.

Lemma plp_chunks_fuel fuel b body n fuel' :
  plp_chunks fuel b = parseOK (body, n) -> length b <= fuel' ->
  plp_chunks fuel' b = parseOK (body, n).
Proof.
  revert b body n fuel'. induction fuel as [|fuel IH]; [done|]. intros b body n fuel'.
  cbn [plp_chunks]. destruct (length b <? 4)%nat eqn:E1; [done|]. bool_hyps.
  destruct fuel' as [|fuel']; [lia|]. cbn [plp_chunks].
  destruct (length b <? 4)%nat eqn:E1'; bool_hyps; [lia|].
  destruct (_ =? 0)%Z; [done|]. destruct (_ <? _)%Z; [done|].
  destruct (plp_chunks fuel _) as [[body' n']| |] eqn:E4; [|done|done]. intros HE Hf.
  rewrite (IH _ _ _ fuel' E4); [done|]. rewrite !length_drop. lia.
Qed.

Lemma readCell_exact col b k r :
  readCell (b ++ k) col = parseOK r -> cr_n r = length b -> readCell b col = parseOK r.
Proof.
  unfold readCell. destruct (co_kind col).
  - destruct (_ <? _)%nat eqn:E; [done|]. intros [= <-]. cbn [cr_n]. intros Hn.
    rewrite take_app_prefix by lia. destruct (length b <? _)%nat eqn:E'; bool_hyps; [lia|done].
  - destruct (_ <? 1)%nat eqn:E; [done|]. bool_hyps.
    pose proof (bval_range (byte_at (b ++ k) 0)) as Hr.
    assert (1 <= length b -> byte_at (b ++ k) 0 = byte_at b 0 /\ (length b <? 1)%nat = false) as HB.
    { intros Hb. split; [by apply byte_at_app|by apply Nat.ltb_ge]. }
    destruct (_ =? 0)%Z eqn:E2; intros HC Hn.
    + destruct (null_cell_exact _ _ _ _ HC Hn E) as [H1 HN]. destruct HB as [HB ->]; [lia|].
      by rewrite <- HB, E2.
    + destruct (value_cell_exact _ _ _ _ _ _ (proj1 Hr) HC Hn) as [H1 HV].
      destruct HB as [HB ->]; [lia|]. by rewrite <- HB, E2.
  - destruct (_ <? 2)%nat eqn:E; [done|]. bool_hyps.
    assert (2 <= length b -> le_u16 (b ++ k) = le_u16 b /\ (length b <? 2)%nat = false) as HB.
    { intros Hb. split; [by apply le_u16_app|by apply Nat.ltb_ge]. }
    destruct (_ =? ushortNull)%Z eqn:E2; intros HC Hn.
    + destruct (null_cell_exact _ _ _ _ HC Hn E) as [H1 HN]. destruct HB as [HB ->]; [lia|].
      by rewrite <- HB, E2.
    + destruct (value_cell_exact _ _ _ _ _ _ (le_u16_nonneg _) HC Hn) as [H1 HV].
      destruct HB as [HB ->]; [lia|]. by rewrite <- HB, E2.
  - unfold readPLPCell. destruct (_ <? 8)%nat eqn:E; [done|]. bool_hyps.
    assert (8 <= length b -> le_u64 (b ++ k) = le_u64 b /\ (length b <? 8)%nat = false) as HB.
    { intros Hb. split; [by apply le_u64_app|by apply Nat.ltb_ge]. }
    destruct (_ =? plpNull)%Z eqn:E2; intros HC Hn.
    + destruct (null_cell_exact _ _ _ _ HC Hn E) as [H1 HN]. destruct HB as [HB ->]; [lia|].
      by rewrite <- HB, E2.
    + destruct (plp_chunks _ _) as [[body n]| |] eqn:EP; try done. cbn in HC. injection HC as <-.
      cbn [cr_n] in Hn. destruct HB as [HB ->]; [lia|]. rewrite <- HB, E2.
      rewrite drop_app_short in EP by lia.
      apply plp_chunks_exact in EP; [|rewrite length_drop; lia].
      by rewrite (plp_chunks_fuel _ _ _ _ (length b) EP) by (rewrite length_drop; lia).
  - destruct (_ <? 1)%nat eqn:E; [done|]. bool_hyps.
    assert (1 <= length b -> byte_at (b ++ k) 0 = byte_at b 0 /\ (length b <? 1)%nat = false) as HB.
    { intros Hb. split; [by apply byte_at_app|by apply Nat.ltb_ge]. }
    destruct (_ =? 0)%nat eqn:E2; intros HC Hn.
    + destruct (null_cell_exact _ _ _ _ HC Hn E) as [H1 HN]. destruct HB as [HB ->]; [lia|].
      by rewrite <- HB, E2.
    + destruct (_ <? _ + 4)%nat eqn:E3; [done|].
      destruct (value_cell_exact _ _ _ _ _ _ (le_u32_nonneg _) HC Hn) as [H1 HV].
      destruct HB as [HB ->]; [lia|]. rewrite <- HB, E2.
      rewrite drop_app_short, le_u32_app in HV by (rewrite ?length_drop; lia).
      destruct (length b <? _)%nat eqn:E4; bool_hyps; [lia|done].
  - done.
Qed.

(** ** A rewritten row is read back *)

Section Row.
Context (mask : CellMasker).

(** One cell: what goes out reads as the masked view of what came in. *)
Lemma rewrite_cell_view col b r piece changed k :
  readCell b col = parseOK r ->
  (co_text col = true -> replacements_fit mask col) ->
  rewrite_cell mask col r (take (cr_n r) b) = (piece, changed) ->
  exists r', readCell (piece ++ k) col = parseOK r' /\ cr_n r' = length piece
    /\ cell_view col r' = masked_view mask col (cell_view col r)
    /\ changed = negb (bool_decide (cell_view col r = cell_view col r')).
Proof.
  intros HR HW. pose proof (stable_used _ _ _ _ (readCell_stable col) HR) as Hn.
  assert (exists r', readCell (take (cr_n r) b ++ k) col = parseOK r'
    /\ cr_n r' = length (take (cr_n r) b) /\ cell_view col r' = cell_view col r) as HK.
  { exists r. assert (length (take (cr_n r) b) = cr_n r) as Hl by (rewrite length_take; lia).
    split; [|by rewrite Hl]. apply (stable_ok cr_n _ _ _ k (readCell_stable col)).
    apply readCell_exact with (k := drop (cr_n r) b); [by rewrite take_drop|done]. }
  assert (masked_view mask col (cell_view col r) = cell_view col r ->
    (take (cr_n r) b, false) = (piece, changed) ->
    exists r', readCell (piece ++ k) col = parseOK r' /\ cr_n r' = length piece
    /\ cell_view col r' = masked_view mask col (cell_view col r)
    /\ changed = negb (bool_decide (cell_view col r = cell_view col r'))) as HKeep.
  { intros HV [= <- <-]. destruct HK as (r' & H1 & H2 & H3). exists r'. rewrite HV, H3.
    repeat split; try done. by rewrite bool_decide_eq_true_2. }
  unfold rewrite_cell. destruct (cr_null r || _ || _) eqn:E.
  { intros HE. apply HKeep; [|done]. unfold cell_view, masked_view.
    apply orb_true_iff in E as [E|E]; [apply orb_true_iff in E as [->|E]|].
    - done.
    - apply negb_true_iff in E. rewrite E. by destruct (cr_null r).
    - apply Nat.eqb_eq, nil_length_inv in E. rewrite E. destruct (cr_null r); [done|].
      destruct (co_text col); [done|]. done. }
  apply orb_false_iff in E as [E Ev]. apply orb_false_iff in E as [En Et].
  apply negb_false_iff in Et. bool_hyps.
  assert (cell_view col r = Some (cr_val r)) as HV by (unfold cell_view; by rewrite En, Et).
  assert (masked_view mask col (cell_view col r)
    = match encodeCell (mask (co_name col) (cr_val r)) col with
      | Some _ => Some (mask (co_name col) (cr_val r)) | None => Some (cr_val r) end) as HM.
  { rewrite HV. cbn [masked_view]. rewrite Et, has_room_encodes. destruct (cr_val r) as [|x v]; [done|].
    cbn [negb andb]. by destruct (encodeCell _ col). }
  destruct (mask (co_name col) (cr_val r) =s cr_val r) eqn:Eq.
  { intros HE. apply HKeep; [|done]. bool_hyps. rewrite HM, Eq, HV.
    by destruct (encodeCell (cr_val r) col). }
  destruct (encodeCell (mask (co_name col) (cr_val r)) col) as [enc|] eqn:Ee.
  2:{ intros HE. apply HKeep; [|done]. by rewrite HM, HV. }
  intros [= <- <-]. bool_hyps. eexists. split; [by apply encode_read; [done|by apply HW|]|].
  cbn [cr_n]. split; [done|]. rewrite HM, HV. unfold cell_view. cbn [cr_null cr_val]. rewrite Et.
  split; [done|]. symmetry. apply negb_true_iff, bool_decide_eq_false. congruence.
Qed.

Lemma rewrite_cells_view nulls cols i b p out n cells k :
  p <= length b ->
  Forall (fun col => co_text col = true -> replacements_fit mask col) cols ->
  rewrite_cells mask nulls cols i b p = parseOK (out, n, cells) ->
  exists vs, read_row nulls cols i (drop p b) = parseOK (vs, drop n b)
    /\ read_row nulls cols i (out ++ k) = parseOK (masked_row mask cols vs, k)
    /\ cells = differing vs (masked_row mask cols vs).
Proof.
  revert i p out n cells. induction cols as [|col cols IH]; intros i p out n cells Hp HW; cbn [rewrite_cells].
  { intros [= <- <- <-]. by exists []. }
  apply Forall_cons in HW as [HW1 HW]. cbn [read_row].
  destruct (null_bit nulls i) eqn:Enull.
  { intros E. destruct (IH _ _ _ _ _ Hp HW E) as (vs & H1 & H2 & H3). exists (None :: vs).
    cbn [masked_row masked_view]. rewrite H1, H2. by cbn [mbind parsed_bind]. }
  destruct (readCell (drop p b) col) as [r| |] eqn:ER; cbn [mbind parsed_bind]; [|done|done].
  destruct (stable_behind _ _ _ _ _ (readCell_stable col) Hp ER) as [Hr _].
  destruct (rewrite_cell mask col r _) as [piece changed] eqn:EP.
  destruct (rewrite_cells _ _ _ _ _ _) as [[[out' n'] cells']| |] eqn:E'; cbn [mbind parsed_bind]; [|done|done].
  intros [= <- <- <-]. destruct (IH _ _ _ _ _ Hr HW E') as (vs & H1 & H2 & H3).
  destruct (rewrite_cell_view col (drop p b) r piece changed (out' ++ k) ER HW1 EP)
    as (r' & HR' & Hn' & HV & Hch).
  exists (cell_view col r :: vs). rewrite <- app_assoc, HR'. cbn [mbind parsed_bind].
  rewrite Hn', drop_app_length, drop_drop, H1, H2. cbn [mbind parsed_bind masked_row]. rewrite HV.
  repeat split; try done. rewrite H3, Hch, <- HV. unfold differing. cbn [combine List.filter fst snd].
  destruct (bool_decide _); cbn [negb length]; lia.
Qed.
End Row.

(** Masked values arrive: when [rewriteRow] rewrites a row and the masker
    answers text columns with values their encoding can carry, then reading the
    new row with the same layout, in front of any bytes, gives for every column
    the masked view of the original value, NULLs and values of other types
    unchanged, and ends exactly where the row ends; the counter is the number of
    columns that differ. *)
Theorem masked_row_reads_back mask cols b nbc out n cells k :
  Forall (fun col => co_text col = true -> replacements_fit mask col) cols ->
  rewriteRow cols b mask nbc = parseOK (out, n, cells) ->
  let nb := if nbc then ((length cols + 7) / 8)%nat else O in
  let nulls := if nbc then Some (take nb (drop 1 b)) else None in
  exists vs,
    read_row nulls cols 0 (drop (1 + nb) b) = parseOK (vs, drop n b)
    /\ take (1 + nb) (out ++ k) = take (1 + nb) b
    /\ read_row nulls cols 0 (drop (1 + nb) (out ++ k)) = parseOK (masked_row mask cols vs, k)
    /\ cells = differing vs (masked_row mask cols vs).
Proof.
  intros HW. unfold rewriteRow. set (nb := if nbc then _ else _).
  destruct (length b <? 1 + nb)%nat eqn:E; [done|]. bool_hyps.
  set (nulls := if nbc then _ else _).
  destruct (rewrite_cells _ _ _ _ _ _) as [[[out' n'] cells']| |] eqn:E'; [|done|done].
  cbn [mbind parsed_bind]. cbv zeta. intros HE. assert (out = take (1 + nb) b ++ out' /\ n = n' /\ cells = cells')
    as (-> & -> & ->) by (by inversion HE).
  destruct (rewrite_cells_view mask nulls cols 0 b (1 + nb) out' n' cells' k E HW E')
    as (vs & H1 & H2 & H3).
  assert (length (take (1 + nb) b) = 1 + nb) as Hl by (rewrite length_take; lia).
  exists vs. split; [done|]. rewrite <- app_assoc. split.
  { rewrite <- Hl at 1. apply take_app_length. }
  split; [|done]. rewrite <- Hl at 1. by rewrite drop_app_length.
Qed.

(** ** A response is read back

    A token stream as its reader sees it: column metadata and other tokens as
    they are, rows as the values they have under the layout in force. *)

Inductive reply_item :=
  | ItemRow (cols : list column) (head : bytes) (vs : list (option bytes))
  | ItemToken (raw : bytes).

(** Which columns hold text is decided by their type alone: the character types
    of every width, and only they. *)
Lemma text_columns_by_type t b col n :
  type_info t b = parseOK (col, n) ->
  co_text col = one_of t [tChar; tVarChar; tBigVarChar; tBigChar; tNVarChar; tNChar; tText; tNText].
Proof.
  unfold type_info, with_info, with_table. intros E.
  destruct t; cbn in E; repeat case_match; by simplify_eq.
Qed.

(** The null bitmap in the head of a row. *)
Definition nulls_of (head : bytes) : option bytes :=
  if byte_at head 0 =b tokNBCRow then Some (drop 1 head) else None.

Definition read_token (cols : option (list column)) (s : bytes)
    : parsed (reply_item * option (list column) * bytes) :=
  let tok := byte_at s 0 in
  if tok =b tokColMetaData then
    '(new, n) ← parseColMetaData (drop 1 s);
    parseOK (ItemToken (take (1 + n) s), match new with Some cols => Some cols | None => cols end, drop (1 + n) s)
  else if (tok =b tokRow) || (tok =b tokNBCRow) then
    match cols with
    | None => parseCannot
    | Some layout =>
        let hd := (1 + if tok =b tokNBCRow then (length layout + 7) / 8 else 0)%nat in
        if (length s <? hd)%nat then parseNeedMore
        else
          '(vs, rest) ← read_row (nulls_of (take hd s)) layout 0 (drop hd s);
          parseOK (ItemRow layout (take hd s) vs, cols, rest)
    end
  else n ← skipToken s; parseOK (ItemToken (take n s), cols, drop n s).

(** All of a stream, and the layout it leaves; every token takes a byte. *)
Fixpoint read_reply (fuel : nat) (cols : option (list column)) (s : bytes)
    : option (list reply_item * option (list column)) :=
  match s, fuel with
  | [], _ => Some ([], cols)
  | _, O => None
  | _, S fuel =>
      match read_token cols s with
      | parseOK (it, cols, rest) =>
          '(its, cols) ← read_reply fuel cols rest; Some (it :: its, cols)
      | _ => None
      end
  end.

(** What [piece] makes of an item: a row with the same head whose values, read
    under the same layout, are the masked ones; anything else byte for byte. *)
Definition masked_item (mask : CellMasker) (it : reply_item) (piece : bytes) : Prop :=
  match it with
  | ItemRow cols head vs =>
      exists body, piece = head ++ body
        /\ forall k, read_row (nulls_of head) cols 0 (body ++ k) = parseOK (masked_row mask cols vs, k)
  | ItemToken raw => piece = raw
  end.

(** How many of its values the masker changes. *)
Definition item_cells (mask : CellMasker) (it : reply_item) : Z :=
  match it with
  | ItemRow cols _ vs => differing vs (masked_row mask cols vs)
  | ItemToken _ => 0
  end.

Definition item_result (mask : CellMasker) (it : reply_item) : ReframeResult :=
  {| rfCells := item_cells mask it; rfRows := if (0 <? item_cells mask it)%Z then 1 else 0 |}.

Definition total_result (mask : CellMasker) (its : list reply_item) : ReframeResult :=
  fold_right (fun it => add_res (item_result mask it)) zero_result its.

Section Response.
Context (mask : CellMasker).
Context (Hfit : forall col, co_text col = true -> replacements_fit mask col).

(** A row that can be read can be rewritten. *)
Lemma read_row_rewritten nulls cols : forall i b p vs rest, p <= length b ->
  read_row nulls cols i (drop p b) = parseOK (vs, rest) ->
  exists out n cells, rewrite_cells mask nulls cols i b p = parseOK (out, n, cells) /\ rest = drop n b.
Proof.
  induction cols as [|col cols IH]; intros i b p vs rest Hp; cbn [read_row rewrite_cells].
  { intros [= <- <-]. by eexists _, _, _. }
  destruct (null_bit nulls i).
  { destruct (read_row _ cols _ _) as [[vs' rest']| |] eqn:E; try done. cbn. intros [= <- <-]. by eapply IH. }
  destruct (readCell (drop p b) col) as [r| |] eqn:ER; cbn [mbind parsed_bind]; [|done|done].
  destruct (stable_behind _ _ _ _ _ (readCell_stable col) Hp ER) as [Hr _]. rewrite drop_drop.
  destruct (read_row _ cols _ _) as [[vs' rest']| |] eqn:E; try done. cbn. intros [= <- <-].
  destruct (IH _ _ _ _ _ Hr E) as (out & n & cells & -> & ->).
  destruct (rewrite_cell mask col r _) as [piece changed]. cbn. by eexists _, _, _.
Qed.

(** One token. *)
Lemma read_token_rewritten cols s it cols' rest : s <> [] -> read_token cols s = parseOK (it, cols', rest) ->
  exists t, rewrite_token cols mask s = parseOK t /\ tk_cols t = cols' /\ drop (tk_used t) s = rest
    /\ masked_item mask it (tk_out t) /\ tk_cells t = item_cells mask it.
Proof.
  intros Hs. unfold read_token, rewrite_token. cbv zeta.
  destruct (byte_at s 0 =b tokColMetaData).
  { destruct (parseColMetaData _) as [[new n]| |]; try done. cbn [mbind parsed_bind]. intros [= <- <- <-]. by eexists. }
  destruct (_ || _).
  2:{ destruct (skipToken s) as [n| |]; try done. cbn [mbind parsed_bind]. intros [= <- <- <-]. by eexists. }
  destruct cols as [layout|]; [|done]. set (nbc := byte_at s 0 =b tokNBCRow). unfold rewriteRow.
  set (nb := if nbc then ((length layout + 7) / 8)%nat else 0).
  destruct (length s <? 1 + nb)%nat eqn:El; [done|]. bool_hyps.
  assert (nulls_of (take (1 + nb) s) = if nbc then Some (take nb (drop 1 s)) else None) as Hnulls.
  { unfold nulls_of. destruct s as [|x s]; [done|]. reflexivity. }
  destruct (read_row _ layout 0 _) as [[vs rest']| |] eqn:E; try done. cbn [mbind parsed_bind]. intros [= <- <- <-].
  rewrite Hnulls in E. destruct (read_row_rewritten _ _ _ _ _ _ _ El E) as (out & n & cells & Er & ->).
  rewrite Er. cbn [mbind parsed_bind]. eexists. split; [done|]. cbn [tk_cols tk_used tk_out tk_cells masked_item item_cells].
  assert (forall k, read_row (nulls_of (take (1 + nb) s)) layout 0 (out ++ k) = parseOK (masked_row mask layout vs, k)
    /\ cells = differing vs (masked_row mask layout vs)) as Hv.
  { intros k. assert (Forall (fun col => co_text col = true -> replacements_fit mask col) layout) as Hf
      by (apply Forall_forall; intros col _; apply Hfit).
    destruct (rewrite_cells_view mask _ layout 0 s (1 + nb) out n cells k El Hf Er) as (vs' & V1 & V2 & V3).
    rewrite E in V1. injection V1 as <-. by rewrite Hnulls. }
  split; [done|]. split; [done|]. split; [|apply (Hv [])]. exists out. split; [done|]. intros k. apply Hv.
Qed.

(** The whole stream. *)
Lemma read_reply_rewritten fuel : forall c s its cols res, read_reply fuel (rw_cols c) s = Some (its, cols) ->
  let '(cw, w) := walk mask c s res in
  wk_st w = parseOK tt /\ rw_cols cw = cols /\ wk_res w = add_res res (total_result mask its)
  /\ exists pieces, wk_out w = concat pieces /\ Forall2 (masked_item mask) its pieces.
Proof.
  assert (forall res, add_res res zero_result = res) as Hzero
    by (intros []; unfold add_res; cbn; by rewrite !Z.add_0_r).
  induction fuel as [|fuel IH]; intros c s its cols res; rewrite walk_eq; destruct s as [|x s]; cbn [read_reply]; try done.
  1,2: intros [= <- <-]; cbn; rewrite Hzero; (split; [done|split; [done|split; [done|by exists []]]]).
  destruct (read_token (rw_cols c) (x :: s)) as [[[it cols1] rest]| |] eqn:E; try done.
  assert (x :: s <> []) as Hxs by done. destruct (read_token_rewritten _ _ _ _ _ Hxs E) as (t & -> & Hc & <- & Hm & Hn).
  destruct (read_reply fuel cols1 _) as [[its' cols2]|] eqn:E2; [|done]. cbn. intros [= <- <-].
  rewrite <- Hc in E2. change (tk_cols t) with (rw_cols (take_token c t)) in E2.
  specialize (IH (take_token c t) _ _ _ (count_token res t) E2).
  destruct (walk mask (take_token c t) _ _) as [cw w]. destruct IH as (I1 & I2 & I3 & pieces & I4 & I5).
  unfold after_token. cbn [fst snd wk_st wk_out wk_res]. split; [done|]. split; [done|]. split.
  - rewrite I3. unfold count_token, total_result. cbn [fold_right]. unfold add_res, item_result.
    cbn [rfCells rfRows]. rewrite Hn. f_equal; lia.
  - exists (tk_out t :: pieces). rewrite I4. split; [done|]. by constructor.
Qed.

(** C10 Masking a response: inside a result set, let one message of at most 4 MiB
    come in any packets, none of them empty, and any reads, let its token
    stream be readable, and let what the masker puts in place of a text be one
    its column can carry.  Then the
    client reassembles exactly one message; it is made of the same tokens in
    the same order, byte for byte but for the rows, and each row, read under
    the layout in force, has the values the masker gives: every text value is
    the masker's answer to it unless that is too long for its column, NULLs
    and values of other types are those the server sent.  The counters are the
    numbers of values and of rows that differ, nothing stays held, and the
    rewriter is ready for the next message with the layout the stream left in
    force.  The reader of replies shares the layouts, the lengths of tokens and
    the reading of one cell with the code, not the rewriting, the encoding of
    cells or the packets; which columns are text is [text_columns_by_type]. *)
Theorem tds_response_masked c reads ps s its cols :
  ready c -> (Z.of_nat (length (concat reads)) <= maxHeldBytes)%Z ->
  packets (concat reads) = (ps, []) -> Forall (fun p => p.2 <> []) ps ->
  messages [] ps = ([s], []) -> read_reply (length s) (rw_cols c) s = Some (its, cols) ->
  let '(c', (out, res)) := rewrite_reads c reads mask in
  exists pieces, messages [] (packets out).1 = ([concat pieces], []) /\ (packets out).2 = []
    /\ Forall2 (masked_item mask) its pieces
    /\ res = total_result mask its /\ ready c' /\ rw_cols c' = cols.
Proof.
  intros Hr Hb Hps Hne Hm Hread. pose proof (response_reassembled mask c reads ps s Hr Hb Hps Hne Hm) as HR.
  pose proof (read_reply_rewritten _ _ _ _ _ zero_result Hread) as HW.
  change (rewriteTokens c s mask) with (walk mask c s zero_result) in HR.
  destruct (walk mask c s zero_result) as [cw w]. destruct HW as (W1 & W2 & W3 & pieces & W4 & W5).
  specialize (HR W1). destruct (rewrite_reads c reads mask) as [c' [out res]].
  destruct HR as (R1 & R2 & -> & R4 & ->). exists pieces. rewrite <- W4, W3. split_and!; try done.
  by destruct (total_result mask its).
Qed.
End Response.

(** ** Concrete responses *)

Definition ucs2 (s : bytes) : bytes := utf16le (map bval s).

(** Columns "email" NVARCHAR(100) and "id" INT. *)
Definition demo_meta : bytes :=
  [x81; x02; x00]
  ++ repeat x00 6 ++ [xe7; xc8; x00; x09; x04; xd0; x00; x34] ++ [x05] ++ ucs2 (B "email")
  ++ repeat x00 6 ++ [x38] ++ [x02] ++ ucs2 (B "id").

Definition demo_row (email : bytes) : bytes :=
  [xd1] ++ put_le_u16 (Z.of_nat (length (ucs2 email))) ++ ucs2 email ++ [x07; x00; x00; x00].

Definition demo_done : bytes := xfd :: repeat x00 12.

Definition demo_mask : CellMasker := fun col v => if col =s B "email" then B "***" else v.

Definition demo_tail : tail4 := {| t_spid1 := x00; t_spid2 := x33; t_id := x01; t_window := x00 |}.
Definition reply (eom : bool) (s : bytes) : bytes := tds_packet pktReply eom demo_tail s.

(** The rewriter behind a first, empty result set. *)
Definition demo_ready : Rewriter :=
  (tds_Rewrite new_rewriter (reply true (demo_meta ++ demo_done)) (Some demo_mask)).1.

Definition demo_stream : bytes := demo_meta ++ demo_row (B "ann@x") ++ demo_row (B "bob@y") ++ demo_done.
Definition demo_wire : bytes := reply false (take 70 demo_stream) ++ reply true (drop 70 demo_stream).
Definition demo_reads : list bytes := [take 5 demo_wire; take 90 (drop 5 demo_wire); drop 95 demo_wire].

Lemma demo_mask_fits col : co_text col = true -> replacements_fit demo_mask col.
Proof.
  intros Ht x. unfold demo_mask. destruct (_ =s _); [|done]. intros _. split; [|split].
  - intros _. exists (map bval (B "***")). split; [by repeat constructor|by vm_compute].
  - intros _. unfold cell_body. destruct (co_ucs2 col); by vm_compute.
  - unfold cell_body. destruct (co_ucs2 col); by vm_compute.
Qed.

(** A row cut by a packet and by reads; both addresses are masked. *)
Lemma tds_response_masked_witness :
  exists its cols pieces, read_reply (length demo_stream) (rw_cols demo_ready) demo_stream = Some (its, cols)
    /\ length its = 4 /\ Forall2 (masked_item demo_mask) its pieces
    /\ messages [] (packets (rewrite_reads demo_ready demo_reads demo_mask).2.1).1 = ([concat pieces], [])
    /\ rfCells (rewrite_reads demo_ready demo_reads demo_mask).2.2 = 2%Z.
Proof.
  assert ((fun p => (length p.1, rfCells (total_result demo_mask p.1)))
    <$> read_reply (length demo_stream) (rw_cols demo_ready) demo_stream = Some (4, 2%Z)) as Hits by (by vm_compute).
  destruct (read_reply (length demo_stream) (rw_cols demo_ready) demo_stream) as [[its cols]|] eqn:E; [|done].
  injection Hits as Hlen Hcells.
  pose proof (tds_response_masked demo_mask demo_mask_fits demo_ready demo_reads
    [(false, take 70 demo_stream); (true, drop 70 demo_stream)] demo_stream its cols) as HR.
  destruct (rewrite_reads demo_ready demo_reads demo_mask) as [c' [out res]]. cbn [fst snd].
  destruct HR as (pieces & H1 & _ & H2 & -> & _ & _).
  - by repeat split.
  - by vm_compute.
  - by vm_compute.
  - by repeat constructor.
  - by vm_compute.
  - exact E.
  - exists its, cols, pieces. split; [reflexivity|]. split; [exact Hlen|]. split; [exact H2|]. split; [exact H1|exact Hcells].
Defined.

Lemma tds_rewrite_conserves_witness :
  let '(c', (out, _)) := rewrite_reads demo_ready [reply false [xd1; x02]; [x04; x00; x00]] (fun _ v => v) in
  payloads (packets (out ++ (tds_Flush c').2)).1 = [xd1; x02].
Proof.
  pose proof (tds_rewrite_conserves (fun _ v => v) demo_ready [reply false [xd1; x02]; [x04; x00; x00]]) as HR.
  destruct (rewrite_reads demo_ready _ _) as [c' [out res]]. destruct HR as [-> _].
  - done.
  - by repeat split.
  - by vm_compute.
  - by vm_compute.
Defined.

Definition demo_cols : list column := default [] (rw_cols demo_ready).

Lemma masked_row_reads_back_witness :
  exists out n,
    rewriteRow demo_cols (demo_row (B "ann@x")) demo_mask false = parseOK (out, n, 1%Z)
    /\ read_row None demo_cols 0 (drop 1 (out ++ [xfd]))
       = parseOK ([Some (B "***"); Some [x07; x00; x00; x00]], [xfd]).
Proof.
  destruct (rewriteRow demo_cols (demo_row (B "ann@x")) demo_mask false) as [[[out n] cells]| |] eqn:E;
    [|by vm_compute in E|by vm_compute in E].
  destruct (masked_row_reads_back demo_mask demo_cols (demo_row (B "ann@x")) false out n cells [xfd])
    as (vs & H1 & _ & H2 & H3); [|exact E|].
  - assert (demo_cols = [col_named (col_of lenUShort true true) (B "email");
      col_named (col_fixed 4) (B "id")]) as -> by (by vm_compute).
    repeat apply List.Forall_cons; try apply List.Forall_nil; [|done].
    intros _ x _. change (demo_mask _ x) with (B "***"). split.
    + intros _. exists (map bval (B "***")). split; [by repeat constructor|by vm_compute].
    + split; [by intros [?|?]|by vm_compute].
  - exists out, n. vm_compute in H1. injection H1 as <- _. split; [rewrite H3; by vm_compute|].
    cbn [Nat.add] in H2. rewrite H2. by vm_compute.
Defined.

(** ** Departures *)

(** A first result set whose column metadata is cut by a packet is not masked:
    before the first COLMETADATA nothing is held, so the metadata is never read
    as a whole and the rows behind it go out as they came. *)
Lemma split_metadata_unmasked :
  let reads := [reply false (take 20 demo_stream); reply true (drop 20 demo_stream)] in
  rewrite_reads new_rewriter reads demo_mask
  = (new_rewriter, (concat reads, zero_result)).
Proof. by vm_compute. Qed.

(** Over the budget the bytes of a token held from earlier reads are dropped:
    behind the start of a row, any read of more than 4 MiB goes out without it,
    and nothing is left to flush. *)
Lemma overflow_drops_partial_row d :
  (maxHeldBytes < Z.of_nat (length d))%Z ->
  let c := (tds_Rewrite demo_ready (reply false (take 6 (demo_row (B "ann@x")))) (Some demo_mask)).1 in
  rw_tokenBuf c = take 6 (demo_row (B "ann@x"))
  /\ let '(c', (out, _)) := tds_Rewrite c d (Some demo_mask) in out = d /\ (tds_Flush c').2 = [].
Proof.
  intros Hd c. assert (c = set_bufs demo_ready [] (take 6 (demo_row (B "ann@x"))) [] false) as -> by (by vm_compute).
  split; [done|]. unfold tds_Rewrite. cbn [rw_noRewrite set_bufs rw_held rw_tokenBuf app].
  destruct (maxHeldBytes <? _)%Z eqn:E; bool_hyps; [done|lia].
Qed.

(** During the login, forwarding the start of a packet makes the rewriter take
    its middle for a header: the rest of the packet is held, here for good. *)
Lemma forwarded_half_packet_stalls :
  let prelogin := reply true [x00; x00; x1a; x00; x06] in
  let next := reply true (repeat x00 40) in
  let '(c, (out, _)) := tds_Rewrite new_rewriter (prelogin ++ take 12 next) (Some demo_mask) in
  let '(c', (out', _)) := tds_Rewrite c (drop 12 next) (Some demo_mask) in
  out = prelogin ++ take 12 next /\ out' = [] /\ rw_held c' = drop 12 next.
Proof. by vm_compute. Qed.

(** A RETURNVALUE token, which every call with an output parameter sends, ends
    masking for the connection. *)
Lemma return_value_ends_masking cols mask s : rewrite_token cols mask (tokReturnValue :: s) = parseCannot.
Proof. done. Qed.

Lemma return_value_latches :
  rw_noRewrite (tds_Rewrite demo_ready (reply true ([tokReturnValue] ++ demo_done)) (Some demo_mask)).1
  = true.
Proof. by vm_compute. Qed.

(** An empty masked value in a MAX column: the empty chunk already terminates
    the value, and the terminator behind it shifts the rest of the row. *)
Lemma empty_mask_shifts_row :
  let col := col_of lenPLP true true in
  let row := [xd1] ++ put_le_u64 2 ++ put_le_u32 2 ++ ucs2 (B "a") ++ put_le_u32 0 in
  match rewriteRow [col] row (fun _ _ => []) false with
  | parseOK (out, _, 1%Z) => read_row None [col] 0 (drop 1 out) = parseOK ([Some []], repeat x00 4)
  | _ => False
  end.
Proof. by vm_compute. Qed.
