(* ===== verification/PgCodec.v ===== *)
(** * The PostgreSQL codec: src/hoopinspect/codec/postgres/postgres.go and
      response.go

    The state of the Go [Codec] struct is [PgCodec].  [Decode] in each
    direction is the loop [frames] over one step; [data[pos:]] of the source
    is the step's argument.  A Go [int(uint32)] conversion is exact on the
    64-bit platforms the program builds for, so lengths are compared as [Z]. *)

From S2P Require Import Prelude GoStrings Scan Keywords Analyze Types SqlMeta Inspect.

(** ** State *)

Record PgCodec := {
  pg_rowDesc : option (list Column);
  pg_rowCount : Z;
  pg_truncated : bool;
  pg_held : bytes;
  pg_pending : bytes;
  pg_maskCols : list bytes;
}.

Definition new_pg : PgCodec :=
  {| pg_rowDesc := None; pg_rowCount := 0; pg_truncated := false;
     pg_held := []; pg_pending := []; pg_maskCols := [] |}.

Definition set_result (c : PgCodec) (rd : option (list Column)) (n : Z) (tr : bool) : PgCodec :=
  {| pg_rowDesc := rd; pg_rowCount := n; pg_truncated := tr;
     pg_held := pg_held c; pg_pending := pg_pending c; pg_maskCols := pg_maskCols c |}.

(** ** Constants *)

Definition tagQuery : byte := x51.            (* 'Q' *)
Definition tagParse : byte := x50.            (* 'P' *)
Definition tagRowDescription : byte := x54.   (* 'T' *)
Definition tagDataRow : byte := x44.          (* 'D' *)
Definition tagCommandComplete : byte := x43.  (* 'C' *)
Definition tagReadyForQuery : byte := x5a.    (* 'Z' *)
Definition tagErrorResponse : byte := x45.    (* 'E' *)
Definition tagEmptyQuery : byte := x49.       (* 'I' *)

Definition sslRequestCode : Z := 80877103.
Definition cancelRequestCode : Z := 80877102.
Definition gssEncRequestCode : Z := 80877104.
Definition maxMessageLen : Z := Z.shiftl 64 20.
Definition nullColumn : Z := 4294967295.      (* 0xFFFFFFFF *)
Definition maxDecodedRows : Z := 1000.

(** ** Frames *)

Definition zlen (l : bytes) : Z := Z.of_nat (length l).

(** The tag, length and payload of a tagged message; [None] while incomplete. *)
Inductive Header := HIncomplete | HMalformed | HMessage (tag : byte) (payload : bytes) (total : nat).

Definition read_message (data : bytes) : Header :=
  if (length data <? 5)%nat then HIncomplete
  else
    let msgLen := be_u32 (drop 1 data) in
    if (msgLen <? 4)%Z || (maxMessageLen <? msgLen)%Z then HMalformed
    else if (zlen data <? 1 + msgLen)%Z then HIncomplete
    else
      let total := Z.to_nat (1 + msgLen) in
      HMessage (byte_at data 0) (slice 5 total data) total.

(** ** NUL-terminated strings *)

Definition indexNUL (b : bytes) : option nat := IndexByte b x00.

Definition cstring (b : bytes) : bytes :=
  match indexNUL b with Some i => take i b | None => b end.

Definition parseMessage (payload : bytes) : option (bytes * bytes) :=
  match indexNUL payload with
  | None => None
  | Some i =>
      let name := take i payload in
      let rest := drop (i + 1) payload in
      match indexNUL rest with
      | None => None
      | Some j => Some (name, take j rest)
      end
  end.

(** ** The handshake *)

Definition isGSSEncRequest (data : bytes) : bool :=
  if (length data <? 8)%nat || negb (byte_at data 0 =b x00) then false
  else (be_u32 data =? 8)%Z && (be_u32 (drop 4 data) =? gssEncRequestCode)%Z.

(** [(0, true)] is a handshake that is not fully buffered. *)
Definition skipHandshake (data : bytes) : nat * bool :=
  if (length data =? 0)%nat || negb (byte_at data 0 =b x00) then (0, false)
  else if (length data <? 8)%nat then (0, true)
  else
    let len := be_u32 data in
    if (len <? 8)%Z || (maxMessageLen <? len)%Z then (0, false)
    else if (zlen data <? len)%Z then (0, true)
    else
      let code := be_u32 (drop 4 data) in
      if (code =? gssEncRequestCode)%Z then (0, false)
      else if (code =? sslRequestCode)%Z || (code =? cancelRequestCode)%Z
      then (Z.to_nat len, true)
      else if (Z.shiftr code 16 =? 3)%Z then (Z.to_nat len, true)
      else (0, false).

(** ** Client messages *)

Section Client.
Context `{GoUnicode}.

Definition splitSimpleQuery (q : bytes) : list bytes := Split q Postgres.

Definition newStatement (text msgType stmtName : bytes) : Statement :=
  let a := AnalyzeSQL text Protocol.Postgres in
  let md : gmap bytes bytes := {[ B "pg.message" := msgType ]} in
  let md := if stmtName =s [] then md else <[ B "pg.statement" := stmtName ]> md in
  let md := if sqComplete a then md else <[ MetadataSQLIncomplete := sqReason a ]> md in
  {| stProtocol := Protocol.Postgres; stDirection := FromClient; stText := text;
     stOperation := sqOperation a; stEffects := sqEffects a; stRelations := sqRelations a;
     stTables := sqTables a; stDatabase := []; stHTTP := None; stResult := None;
     stMetadata := md |}.

(** The statements of one complete client message. *)
Definition client_statements (tag : byte) (payload : bytes) : list Statement :=
  if tag =b tagQuery
  then map (fun s => newStatement s (B "Query") []) (splitSimpleQuery (cstring payload))
  else if tag =b tagParse
  then match parseMessage payload with
       | Some (name, query) =>
           if TrimSpace query =s [] then [] else [newStatement query (B "Parse") name]
       | None => []
       end
  else [].

Definition client_step (c : PgCodec) (data : bytes) : Step PgCodec :=
  if isGSSEncRequest data then Refuse 0 c ErrStreamUnsafe
  else
    let '(n, handled) := skipHandshake data in
    if handled then if (n =? 0)%nat then NeedMore c else Frame n c []
    else
      match read_message data with
      | HIncomplete => NeedMore c
      | HMalformed => Refuse 0 c ErrMalformed
      | HMessage tag payload total => Frame total c (client_statements tag payload)
      end.
End Client.

(** ** Server messages *)

Definition resetResult (c : PgCodec) : PgCodec := set_result c None 0 false.

(** The column loop of [validateDataRow]: the position after the last column. *)
Fixpoint row_walk (count : nat) (payload : bytes) (pos : nat) : option nat :=
  match count with
  | O => Some pos
  | S k =>
      if (length payload <? pos + 4)%nat then None
      else
        let n := be_u32 (drop pos payload) in
        let pos := (pos + 4)%nat in
        if (n =? nullColumn)%Z then row_walk k payload pos
        else if (zlen payload <? Z.of_nat pos + n)%Z then None
        else row_walk k payload (pos + Z.to_nat n)
  end.

Definition validateDataRow (payload : bytes) : bool :=
  match row_walk (Z.to_nat (be_u16 payload)) payload 2 with
  | Some pos => (pos =? length payload)%nat
  | None => false
  end.

(** [countRow]: false is a malformed row; the state changes either way. *)
Definition countRow (c : PgCodec) (payload : bytes) : PgCodec * bool :=
  if (length payload <? 2)%nat then (c, false)
  else
    let n := (pg_rowCount c + 1)%Z in
    if (maxDecodedRows <? n)%Z then (set_result c (pg_rowDesc c) n true, true)
    else (set_result c (pg_rowDesc c) n (pg_truncated c), validateDataRow payload).

Definition terminatorName (tag : byte) : bytes :=
  if tag =b tagErrorResponse then B "ErrorResponse"
  else if tag =b tagEmptyQuery then B "EmptyQueryResponse"
  else B "CommandComplete".

Definition flushResult (c : PgCodec) (text : bytes) (tag : byte) : PgCodec * option Statement :=
  if match pg_rowDesc c with None => true | Some _ => false end &&
     (pg_rowCount c =? 0)%Z && negb (tag =b tagErrorResponse)
  then (resetResult c, None)
  else
    let detail := {| rdColumns := default [] (pg_rowDesc c); rdRowCount := pg_rowCount c;
                     rdTruncated := pg_truncated c |} in
    (resetResult c,
     Some {| stProtocol := Protocol.Postgres; stDirection := FromServer; stText := text;
             stOperation := OpUnknown; stEffects := []; stRelations := []; stTables := [];
             stDatabase := []; stHTTP := None; stResult := Some detail;
             stMetadata := {[ B "pg.message" := terminatorName tag ]} |}).

(** The field loop of [decodeRowDescription]. *)
Fixpoint description_loop (count : nat) (payload : bytes) (pos : nat) : option (list Column) :=
  match count with
  | O => Some []
  | S k =>
      match indexNUL (drop pos payload) with
      | None => None
      | Some n =>
          let name := slice pos (pos + n) payload in
          let pos := (pos + n + 1)%nat in
          if (length payload <? pos + 18)%nat then None
          else
            cols ← description_loop k payload (pos + 18);
            Some ({| colName := name; colDataTypeOID := be_u32 (drop (pos + 6) payload) |} :: cols)
      end
  end.

Definition decodeRowDescription (payload : bytes) : option (list Column) :=
  if (length payload <? 2)%nat then None
  else
    let count := be_u16 payload in
    if (count <? 0)%Z || (zlen payload <? count * 19)%Z then None
    else description_loop (Z.to_nat count) payload 2.

Definition server_step (c : PgCodec) (data : bytes) : Step PgCodec :=
  match read_message data with
  | HIncomplete => NeedMore c
  | HMalformed => Refuse 0 c ErrMalformed
  | HMessage tag payload total =>
      if tag =b tagRowDescription then
        match decodeRowDescription payload with
        | None => Refuse 0 c ErrMalformed
        | Some cols =>
            let c := resetResult c in
            Frame total (set_result c (Some cols) (pg_rowCount c) (pg_truncated c)) []
        end
      else if tag =b tagDataRow then
        let '(c, ok) := countRow c payload in
        if ok then Frame total c [] else Refuse 0 c ErrMalformed
      else if (tag =b tagCommandComplete) || (tag =b tagErrorResponse) || (tag =b tagEmptyQuery)
      then
        let '(c, o) := flushResult c (cstring payload) tag in
        Frame total c (match o with Some stmt => [stmt] | None => [] end)
      else if tag =b tagReadyForQuery then Frame total (resetResult c) []
      else Frame total c []
  end.

#[global] Instance pg_codec `{GoUnicode} : Codec PgCodec := {
  codec_Protocol _ := Protocol.Postgres;
  Decode c dir data :=
    match dir with
    | FromServer => frames server_step (length data) c data
    | FromClient => frames client_step (length data) c data
    end;
}.

(** ** The codec keeps the Inspector's contract *)

Lemma zlen_app d k : zlen (d ++ k) = (zlen d + zlen k)%Z.
Proof. unfold zlen. rewrite length_app. lia. Qed.

(** A message once recognised is recognised with more bytes behind it. *)
Lemma read_message_app d k :
  match read_message d with
  | HIncomplete => True
  | h => read_message (d ++ k) = h
  end.
Proof.
  unfold read_message. destruct (length d <? 5)%nat eqn:E5; [done|]. bool_hyps.
  assert ((length (d ++ k) <? 5)%nat = false) as ->
    by (apply Nat.ltb_ge; rewrite length_app; lia).
  rewrite be_u32_drop_app by lia. destruct (_ || _)%Z; [done|].
  destruct (zlen d <? _)%Z eqn:Ez; [done|]. bool_hyps.
  pose proof (be_u32_bound (drop 1 d)). assert (0 <= zlen k)%Z by (unfold zlen; lia).
  rewrite zlen_app. assert ((zlen d + zlen k <? 1 + be_u32 (drop 1 d))%Z = false) as ->
    by (apply Z.ltb_ge; lia).
  rewrite byte_at_app, slice_app; [done| |lia]. unfold zlen in *. lia.
Qed.

Lemma read_message_bound d tag payload total :
  read_message d = HMessage tag payload total ->
  5 <= total <= length d /\ payload = slice 5 total d /\ tag = byte_at d 0 /\
  Z.of_nat total = (1 + be_u32 (drop 1 d))%Z.
Proof.
  unfold read_message. destruct (length d <? 5)%nat; [done|].
  destruct (_ || _)%Z eqn:El; [done|]. destruct (zlen d <? _)%Z eqn:Ez; [done|].
  intros [= <- <- <-]. bool_hyps. pose proof (be_u32_bound (drop 1 d)). unfold zlen in *.
  repeat split; lia.
Qed.

Lemma isGSS_app d k : 8 <= length d -> isGSSEncRequest (d ++ k) = isGSSEncRequest d.
Proof.
  intros Hd. unfold isGSSEncRequest. rewrite byte_at_app, be_u32_app, be_u32_drop_app by lia.
  assert ((length d <? 8)%nat = false) as -> by (apply Nat.ltb_ge; lia).
  by assert ((length (d ++ k) <? 8)%nat = false) as -> by (apply Nat.ltb_ge; rewrite length_app; lia).
Qed.

Lemma isGSS_long d : isGSSEncRequest d = true -> 8 <= length d.
Proof. unfold isGSSEncRequest. case_go; [done|]. bool_hyps. intros. lia. Qed.

(** Unless it asks for more bytes, [skipHandshake] has decided. *)
Lemma skipHandshake_app d k :
  d <> [] -> skipHandshake d <> (0, true) -> skipHandshake (d ++ k) = skipHandshake d.
Proof.
  intros Hne. unfold skipHandshake. destruct d as [|b d]; [done|].
  rewrite byte_at_app by (simpl; lia). cbn [length app Nat.eqb orb].
  destruct (negb _); [done|]. change (b :: d ++ k) with ((b :: d) ++ k).
  destruct (S (length d) <? 8)%nat eqn:E8; [done|]. bool_hyps.
  assert ((S (length (d ++ k)) <? 8)%nat = false) as ->
    by (apply Nat.ltb_ge; rewrite length_app; lia).
  rewrite be_u32_app, be_u32_drop_app by (simpl; lia).
  destruct ((_ <? 8)%Z || _) eqn:E; [done|]. rewrite zlen_app.
  destruct (zlen (b :: d) <? _)%Z eqn:Ez; [done|]. bool_hyps.
  assert (0 <= zlen k)%Z by (unfold zlen; lia).
  by assert ((zlen (b :: d) + zlen k <? be_u32 (b :: d))%Z = false) as -> by (apply Z.ltb_ge; lia).
Qed.

Lemma skipHandshake_bound d n : skipHandshake d = (n, true) -> n <= length d.
Proof.
  unfold skipHandshake, zlen. intros E. pose proof (be_u32_bound d).
  repeat case_match; simplify_eq; bool_hyps; lia.
Qed.

Section Contract.
Context `{GoUnicode}.

Lemma client_step_app c d k :
  client_step c d <> NeedMore c -> client_step c (d ++ k) = client_step c d.
Proof.
  destruct (decide (d = [])) as [->|Hne]; [done|]. unfold client_step.
  destruct (isGSSEncRequest d) eqn:Eg.
  { pose proof (isGSS_long _ Eg). rewrite isGSS_app by done. by rewrite Eg. }
  intros Hs. assert (skipHandshake d <> (0, true)) as Hh by (intros E; by rewrite E in Hs).
  rewrite (skipHandshake_app _ _ Hne Hh).
  assert (isGSSEncRequest (d ++ k) = false) as ->.
  { destruct (decide (8 <= length d)); [by rewrite isGSS_app|]. unfold isGSSEncRequest.
    assert (byte_at d 0 <> x00).
    { intros E0. apply Hh. unfold skipHandshake. rewrite E0.
      destruct d; [done|]. cbn [length Nat.eqb orb]. rewrite byte_eqb_refl. simpl negb. cbn iota.
      destruct (_ <? 8)%nat eqn:E8; [done|]. bool_hyps. simpl in *. lia. }
    rewrite byte_at_app by (destruct d; [done|simpl; lia]).
    assert ((byte_at d 0 =b x00) = false) as -> by (by apply byte_eqb_ne).
    by rewrite orb_true_r. }
  destruct (skipHandshake d) as [n []]; [done|].
  pose proof (read_message_app d k) as Hr. by destruct (read_message d); [|rewrite Hr..].
Qed.

Lemma client_step_frame c d n c' stmts :
  client_step c d = Frame n c' stmts -> 0 < n <= length d /\ c' = c.
Proof.
  unfold client_step. case_go; [done|]. destruct (skipHandshake d) as [m []] eqn:Eh.
  - destruct (m =? 0)%nat eqn:E0; [done|]. intros [= <- <- <-]. bool_hyps.
    apply skipHandshake_bound in Eh. split; [lia|done].
  - destruct (read_message d) eqn:Er; try done. intros [= <- <- <-].
    apply read_message_bound in Er. split; [lia|done].
Qed.

Lemma server_step_app c d k :
  server_step c d <> NeedMore c -> server_step c (d ++ k) = server_step c d.
Proof.
  unfold server_step. pose proof (read_message_app d k) as Hr.
  by destruct (read_message d); [|rewrite Hr..].
Qed.

Lemma server_step_frame c d n c' stmts :
  server_step c d = Frame n c' stmts -> 0 < n <= length d.
Proof.
  unfold server_step. destruct (read_message d) as [| |tag payload total] eqn:E; try done.
  apply read_message_bound in E. intros Hs.
  assert (n = total) as -> by (repeat case_match; congruence). lia.
Qed.

Lemma client_step_stable c data n c' stmts more :
  client_step c data = Frame n c' stmts ->
  client_step c (data ++ more) = Frame n c' stmts /\ 0 < n <= length data.
Proof.
  intros E. rewrite client_step_app by congruence. split; [done|].
  by eapply client_step_frame.
Qed.

Lemma server_step_stable c data n c' stmts more :
  server_step c data = Frame n c' stmts ->
  server_step c (data ++ more) = Frame n c' stmts /\ 0 < n <= length data.
Proof.
  intros E. rewrite server_step_app by congruence. split; [done|].
  by eapply server_step_frame.
Qed.

Lemma client_step_refuse c d n c' e : client_step c d = Refuse n c' e -> n = 0.
Proof. unfold client_step. intros E. repeat case_match; simplify_eq; done. Qed.

Lemma client_step_need c d c' : client_step c d = NeedMore c' -> c' = c.
Proof. unfold client_step. intros E. repeat case_match; simplify_eq; done. Qed.

Lemma server_step_refuse c d n c' e : server_step c d = Refuse n c' e -> n = 0.
Proof. unfold server_step. intros E. repeat case_match; simplify_eq; done. Qed.

Lemma server_step_need c d c' : server_step c d = NeedMore c' -> c' = c.
Proof. unfold server_step. intros E. repeat case_match; simplify_eq; done. Qed.

#[global] Program Instance pg_client_framed : Framed PgCodec FromClient :=
  { frame_step := client_step }.
Next Obligation. done. Qed.
Next Obligation. apply client_step_stable. Qed.
Next Obligation.
  intros c data n c' e more E. rewrite client_step_app by congruence.
  split; [done|]. apply client_step_refuse in E. lia.
Qed.
Next Obligation. intros c data c' more E. by rewrite (client_step_need _ _ _ E). Qed.

#[global] Program Instance pg_server_framed : Framed PgCodec FromServer :=
  { frame_step := server_step }.
Next Obligation. done. Qed.
Next Obligation. apply server_step_stable. Qed.
Next Obligation.
  intros c data n c' e more E. rewrite server_step_app by congruence.
  split; [done|]. apply server_step_refuse in E. lia.
Qed.
Next Obligation. intros c data c' more E. by rewrite (server_step_need _ _ _ E). Qed.
End Contract.
