(* ===== verification/PgRewrite.v ===== *)
(** * Re-framing PostgreSQL result sets:
      src/hoopinspect/codec/postgres/rewrite.go

    [Rewrite] masks the cells of a response stream and rebuilds every row it
    changes.  The masker is an argument; [None] is the nil slice, which means
    "leave this cell alone". *)

From S2P Require Import Prelude GoStrings Types SqlMeta Inspect PgCodec.

Definition CellMasker : Type := bytes -> bytes -> option bytes.

Definition maxHeldBytes : Z := Z.shiftl 4 20.

Definition set_held (c : PgCodec) (h : bytes) : PgCodec :=
  {| pg_rowDesc := pg_rowDesc c; pg_rowCount := pg_rowCount c; pg_truncated := pg_truncated c;
     pg_held := h; pg_pending := pg_pending c; pg_maskCols := pg_maskCols c |}.
Definition set_pending (c : PgCodec) (p : bytes) : PgCodec :=
  {| pg_rowDesc := pg_rowDesc c; pg_rowCount := pg_rowCount c; pg_truncated := pg_truncated c;
     pg_held := pg_held c; pg_pending := p; pg_maskCols := pg_maskCols c |}.
Definition set_maskCols (c : PgCodec) (m : list bytes) : PgCodec :=
  {| pg_rowDesc := pg_rowDesc c; pg_rowCount := pg_rowCount c; pg_truncated := pg_truncated c;
     pg_held := pg_held c; pg_pending := pg_pending c; pg_maskCols := m |}.

Definition columnNames (cols : list Column) : list bytes := map colName cols.

(** ** One row *)

(** A cell of a row: [None] is SQL NULL. *)
Abbreviation cell := (option bytes).

Definition encode_cell (cl : cell) : bytes :=
  match cl with
  | None => put_be_u32 nullColumn
  | Some v => put_be_u32 (zlen v) ++ v
  end.

Definition cell_size (cl : cell) : Z :=
  match cl with None => 4 | Some v => 4 + zlen v end.

(** The value a masker leaves in a cell. *)
Definition masked_value (mask : CellMasker) (col val : bytes) : bytes :=
  default val (mask col val).

(** The loop of [maskRow] from column [i] at [pos]: the cells and how many
    changed; [None] is a malformed row. *)
Fixpoint maskRow_loop (count : nat) (payload : bytes) (pos i : nat)
    (cols : list bytes) (mask : CellMasker) : option (list cell * Z) :=
  match count with
  | O => Some ([], 0%Z)
  | S k =>
      if (length payload <? pos + 4)%nat then None
      else
        let n := be_u32 (drop pos payload) in
        let pos := (pos + 4)%nat in
        if (n =? nullColumn)%Z
        then '(cells, changed) ← maskRow_loop k payload pos (i + 1) cols mask;
             Some (None :: cells, changed)
        else if (zlen payload <? Z.of_nat pos + n)%Z then None
        else
          let val := slice pos (pos + Z.to_nat n) payload in
          let col := default [] (cols !! i) in
          let masked := masked_value mask col val in
          '(cells, changed) ← maskRow_loop k payload (pos + Z.to_nat n) (i + 1) cols mask;
          Some (Some masked :: cells, ((if masked =s val then 0 else 1) + changed)%Z)
  end.

(** The rebuilt message: both length prefixes recomputed ([AppendUint32] of a
    [uint32] conversion keeps the low 32 bits, as [put_be_u32] does). *)
Definition build_row (cells : list cell) : bytes :=
  let size := fold_left (fun s cl => (s + cell_size cl)%Z) cells 6%Z in
  tagDataRow :: put_be_u32 size ++ put_be_u16 (Z.of_nat (length cells)) ++
    concat (map encode_cell cells).

(** [maskRow]: the rebuilt message and the number of changed cells. *)
Definition maskRow (cols : list bytes) (payload : bytes) (mask : CellMasker)
    : option (bytes * Z) :=
  if (length payload <? 2)%nat then None
  else
    '(cells, changed) ← maskRow_loop (Z.to_nat (be_u16 payload)) payload 2 0 cols mask;
    if (changed =? 0)%Z then None else Some (build_row cells, changed).

Definition add_result (r : ReframeResult) (cells rows : Z) : ReframeResult :=
  {| rfCells := (rfCells r + cells)%Z; rfRows := (rfRows r + rows)%Z |}.

(** ** Held rows *)

(** The loop of [flushHeld] over [held[pos:]]. *)
Fixpoint flushHeld_loop (fuel : nat) (cols : list bytes) (mask : CellMasker) (held : bytes)
    (res : ReframeResult) : bytes * ReframeResult :=
  match held, fuel with
  | [], _ => ([], res)
  | _ :: _, O => (held, res)
  | _ :: _, S fuel' =>
      if (length held <? 5)%nat then (held, res)
      else
        let total := (1 + be_u32 (drop 1 held))%Z in
        if (total <? 5)%Z || (zlen held <? total)%Z then (held, res)
        else
          let n := Z.to_nat total in
          let msg := take n held in
          let '(piece, res) :=
            match maskRow cols (drop 5 msg) mask with
            | Some (rewritten, changed) => (rewritten, add_result res changed 1)
            | None => (msg, res)
            end in
          let '(out, res) := flushHeld_loop fuel' cols mask (drop n held) res in
          (piece ++ out, res)
  end.

Definition flushHeld (c : PgCodec) (mask : CellMasker) (res : ReframeResult)
    : PgCodec * (bytes * ReframeResult) :=
  (set_held c [], flushHeld_loop (length (pg_held c)) (pg_maskCols c) mask (pg_held c) res).

(** ** The stream *)

Record Rewritten := {
  rwOut : bytes;
  rwResult : ReframeResult;
  rwErr : option InspectError;
}.

(** One complete message: the bytes it lets out; [None] is a malformed
    description, where [out] has the rows flushed before it. *)
Definition rewrite_message (c : PgCodec) (mask : CellMasker) (res : ReframeResult)
    (tag : byte) (payload msg : bytes) : PgCodec * (bytes * ReframeResult * bool) :=
  if tag =b tagRowDescription then
    let '(c, (out, res)) := flushHeld c mask res in
    match decodeRowDescription payload with
    | None => (c, (out, res, false))
    | Some cols => (set_maskCols c (columnNames cols), (out ++ msg, res, true))
    end
  else if tag =b tagDataRow then
    let c := set_held c (pg_held c ++ msg) in
    if (maxHeldBytes <=? zlen (pg_held c))%Z
    then let '(c, (out, res)) := flushHeld c mask res in (c, (out, res, true))
    else (c, ([], res, true))
  else
    let '(c, (out, res)) := flushHeld c mask res in
    let c := if tag =b tagReadyForQuery then set_maskCols c [] else c in
    (c, (out ++ msg, res, true)).

(** The loop of [Rewrite] on [data[pos:]]; the tail is kept pending. *)
Fixpoint rewrite_loop (fuel : nat) (c : PgCodec) (data : bytes) (mask : CellMasker)
    (res : ReframeResult) : PgCodec * Rewritten :=
  match data, fuel with
  | [], _ => (c, {| rwOut := []; rwResult := res; rwErr := None |})
  | _ :: _, O => (set_pending c data, {| rwOut := []; rwResult := res; rwErr := None |})
  | _ :: _, S fuel' =>
      match read_message data with
      | HIncomplete => (set_pending c data, {| rwOut := []; rwResult := res; rwErr := None |})
      | HMalformed => (c, {| rwOut := []; rwResult := res; rwErr := Some ErrMalformed |})
      | HMessage tag payload total =>
          let '(c, (out, res, ok)) :=
            rewrite_message c mask res tag payload (take total data) in
          if ok then
            let '(c, r) := rewrite_loop fuel' c (drop total data) mask res in
            (c, {| rwOut := out ++ rwOut r; rwResult := rwResult r; rwErr := rwErr r |})
          else (c, {| rwOut := out; rwResult := res; rwErr := Some ErrMalformed |})
      end
  end.

(** A nil masker is [None]. *)
Definition Rewrite (c : PgCodec) (data : bytes) (mask : option CellMasker)
    : PgCodec * Rewritten :=
  let zero := {| rfCells := 0; rfRows := 0 |} in
  match mask with
  | None => (c, {| rwOut := data; rwResult := zero; rwErr := None |})
  | Some mask =>
      let input := if (0 <? length (pg_pending c))%nat then pg_pending c ++ data else data in
      let c := if (0 <? length (pg_pending c))%nat then set_pending c [] else c in
      rewrite_loop (length input) c input mask zero
  end.

Definition Flush (c : PgCodec) (mask : option CellMasker) : PgCodec * bytes :=
  match mask with
  | None => (set_held (set_pending c []) [], pg_pending c ++ pg_held c)
  | Some mask =>
      let '(c, (out, _)) := flushHeld c mask {| rfCells := 0; rfRows := 0 |} in
      (set_pending c [], out ++ pg_pending c)
  end.

(** Feeding the reads of a connection and closing it. *)
Fixpoint rewrite_all (c : PgCodec) (chunks : list bytes) (mask : CellMasker)
    : PgCodec * (bytes * option InspectError) :=
  match chunks with
  | [] => let '(c, out) := Flush c (Some mask) in (c, (out, None))
  | d :: rest =>
      let '(c, r) := Rewrite c d (Some mask) in
      match rwErr r with
      | Some e => (c, (rwOut r, Some e))
      | None => let '(c, (out, e)) := rewrite_all c rest mask in (c, (rwOut r ++ out, e))
      end
  end.
