(* ===== verification/PgFacts.v ===== *)
(** * Lemmas about the PostgreSQL codec

    The encoding of messages and rows, and that the codec's readers invert
    it. *)

From S2P Require Import Prelude GoStrings Types SqlMeta Inspect PgCodec PgRewrite.

(** ** Encodings *)

(** A tagged message. *)
Definition frame (tag : byte) (payload : bytes) : bytes :=
  tag :: put_be_u32 (4 + zlen payload) ++ payload.

(** A DataRow payload. *)
Definition encode_row (cells : list cell) : bytes :=
  put_be_u16 (Z.of_nat (length cells)) ++ concat (map encode_cell cells).

(** A cell whose length fits its prefix without reading as NULL. *)
Definition cell_ok (cl : cell) : Prop :=
  match cl with None => True | Some v => (zlen v < nullColumn)%Z end.

Definition row_ok (cells : list cell) : Prop :=
  Forall cell_ok cells /\ (Z.of_nat (length cells) < 65536)%Z.

Lemma length_put_be_u16 v : length (put_be_u16 v) = 2.
Proof. done. Qed.

Lemma drop_app_exact {A} n (a b : list A) : length a = n -> drop n (a ++ b) = b.
Proof. intros <-. apply drop_app_length. Qed.
Lemma take_app_exact {A} n (a b : list A) : length a = n -> take n (a ++ b) = a.
Proof. intros <-. apply take_app_length. Qed.

Lemma zlen_nonneg l : (0 <= zlen l)%Z.
Proof. unfold zlen. lia. Qed.

#[export] Hint Resolve zlen_nonneg : gobytes.

Lemma maxMessageLen_eq : maxMessageLen = 67108864%Z.
Proof. done. Qed.

Lemma read_message_frame tag p k :
  (4 + zlen p <= maxMessageLen)%Z ->
  read_message (frame tag p ++ k) = HMessage tag p (5 + length p).
Proof.
  intros Hp. rewrite maxMessageLen_eq in Hp. pose proof (zlen_nonneg p). unfold read_message.
  assert (be_u32 (drop 1 (frame tag p ++ k)) = (4 + zlen p)%Z) as ->.
  { unfold frame. cbn [app drop]. rewrite drop_0, <- app_assoc. apply be_u32_put. lia. }
  assert (length (frame tag p ++ k) = 5 + length p + length k) as Hl.
  { unfold frame. cbn [app length]. rewrite !length_app, length_put_be_u32. lia. }
  assert ((length (frame tag p ++ k) <? 5)%nat = false) as -> by (apply Nat.ltb_ge; lia).
  assert (((4 + zlen p <? 4) || (maxMessageLen <? 4 + zlen p))%Z = false) as ->.
  { rewrite maxMessageLen_eq. apply orb_false_iff. split; apply Z.ltb_ge; lia. }
  assert ((zlen (frame tag p ++ k) <? 1 + (4 + zlen p))%Z = false) as ->.
  { apply Z.ltb_ge. unfold zlen. rewrite Hl. lia. }
  assert (Z.to_nat (1 + (4 + zlen p)) = 5 + length p) as -> by (unfold zlen; lia).
  f_equal. unfold slice, frame. cbn [app drop].
  replace (5 + length p - 5) with (length p) by lia. rewrite <- app_assoc.
  rewrite (drop_app_exact 4) by done. by apply take_app_exact.
Qed.

Lemma length_frame tag p : length (frame tag p) = 5 + length p.
Proof. unfold frame. cbn [length]. rewrite length_app, length_put_be_u32. lia. Qed.

Lemma drop_frame tag p k : drop (5 + length p) (frame tag p ++ k) = k.
Proof. apply drop_app_exact, length_frame. Qed.
Lemma take_frame tag p k : take (5 + length p) (frame tag p ++ k) = frame tag p.
Proof. apply take_app_exact, length_frame. Qed.
Lemma drop5_frame tag p : drop 5 (frame tag p) = p.
Proof. unfold frame. cbn [drop]. by apply (drop_app_exact 4). Qed.

(** A complete message is its frame. *)
Lemma read_message_take d tag payload total :
  read_message d = HMessage tag payload total ->
  d = take total d ++ drop total d /\ 0 < total.
Proof. intros E%read_message_bound. rewrite take_drop. split; [done|lia]. Qed.

(** ** Rows *)

Lemma length_encode_cell cl : Z.of_nat (length (encode_cell cl)) = cell_size cl.
Proof.
  destruct cl as [v|]; simpl; [|done]. unfold zlen. lia.
Qed.

(** Reading one cell at its position. *)
Lemma cell_at pre cl post :
  cell_ok cl ->
  let payload := pre ++ encode_cell cl ++ post in
  let pos := length pre in
  (length payload <? pos + 4)%nat = false /\
  be_u32 (drop pos payload) = match cl with None => nullColumn | Some v => zlen v end /\
  match cl with
  | None => True
  | Some v =>
      (zlen v =? nullColumn)%Z = false /\
      (zlen payload <? Z.of_nat (pos + 4) + zlen v)%Z = false /\
      slice (pos + 4) (pos + 4 + Z.to_nat (zlen v)) payload = v /\
      pos + 4 + Z.to_nat (zlen v) = length (pre ++ encode_cell cl)
  end.
Proof.
  intros Hok payload pos. unfold payload, pos.
  assert (4 <= length (encode_cell cl)) by (destruct cl; simpl; lia).
  split; [apply Nat.ltb_ge; rewrite !length_app; lia|].
  rewrite drop_app_length. split.
  { destruct cl as [v|]; cbn [encode_cell]; [rewrite <- app_assoc|]; apply be_u32_put.
    - pose proof (zlen_nonneg v). simpl in Hok. unfold nullColumn in *. lia.
    - done. }
  destruct cl as [v|]; [|done]. simpl in Hok. cbn [encode_cell]. split; [apply Z.eqb_neq; lia|].
  assert (Z.to_nat (zlen v) = length v) as -> by (unfold zlen; lia).
  split; [apply Z.ltb_ge; unfold zlen; rewrite !length_app, length_put_be_u32; lia|]. split.
  - unfold slice. replace (length pre + 4 + length v - (length pre + 4)) with (length v) by lia.
    rewrite <- drop_drop, drop_app_length, <- app_assoc, (drop_app_exact 4) by done.
    by apply take_app_exact.
  - rewrite !length_app, length_put_be_u32. lia.
Qed.

(** What the masker makes of a row, from column [i] on, and how many cells it
    changed. *)
Fixpoint mask_cells (cols : list bytes) (mask : CellMasker) (i : nat) (cells : list cell)
    : list cell * Z :=
  match cells with
  | [] => ([], 0%Z)
  | cl :: rest =>
      let '(out, n) := mask_cells cols mask (i + 1) rest in
      match cl with
      | None => (None :: out, n)
      | Some v =>
          let v' := masked_value mask (default [] (cols !! i)) v in
          (Some v' :: out, ((if v' =s v then 0 else 1) + n)%Z)
      end
  end.

Lemma maskRow_loop_encode cols mask pre cells i :
  Forall cell_ok cells ->
  maskRow_loop (length cells) (pre ++ concat (map encode_cell cells)) (length pre) i cols mask =
    Some (mask_cells cols mask i cells).
Proof.
  revert pre i. induction cells as [|cl cells IH]; intros pre i Hok; [done|].
  apply Forall_cons in Hok as [Hcl Hok]. cbn [length map concat].
  destruct (cell_at pre cl (concat (map encode_cell cells)) Hcl) as (H1 & H2 & H3).
  cbn [maskRow_loop mask_cells]. rewrite H1, H2.
  specialize (IH (pre ++ encode_cell cl) (i + 1) Hok). rewrite <- app_assoc in IH.
  destruct cl as [v|].
  - destruct H3 as (-> & -> & -> & Hpos). rewrite Hpos, IH.
    by destruct (mask_cells cols mask (i + 1) cells).
  - rewrite Z.eqb_refl. assert (length pre + 4 = length (pre ++ encode_cell None)) as ->
      by (rewrite length_app; done).
    rewrite IH. by destruct (mask_cells cols mask (i + 1) cells).
Qed.

Lemma mask_cells_length cols mask i cells : length (mask_cells cols mask i cells).1 = length cells.
Proof.
  revert i. induction cells as [|cl cells IH]; intros i; [done|]. simpl. specialize (IH (i + 1)).
  destruct (mask_cells cols mask (i + 1) cells), cl; simpl in *; lia.
Qed.

Lemma mask_cells_count cols mask i cells :
  (0 <= (mask_cells cols mask i cells).2)%Z /\
  ((mask_cells cols mask i cells).2 = 0%Z -> (mask_cells cols mask i cells).1 = cells).
Proof.
  revert i. induction cells as [|cl cells IH]; intros i; [done|]. simpl. specialize (IH (i + 1)).
  destruct (mask_cells cols mask (i + 1) cells) as [out n], cl as [v|]; simpl in *.
  - destruct (_ =s v) eqn:E; [|split; intros; lia]. apply seqb_eq in E. rewrite E.
    split; [lia|]. intros Hn. f_equal. apply IH. lia.
  - split; [lia|]. intros Hn. f_equal. by apply IH.
Qed.

Lemma sum_sizes cells s :
  fold_left (fun s cl => (s + cell_size cl)%Z) cells s =
    (s + Z.of_nat (length (concat (map encode_cell cells))))%Z.
Proof.
  revert s. induction cells as [|cl cells IH]; intros s; simpl; [lia|].
  rewrite IH, length_app. pose proof (length_encode_cell cl). lia.
Qed.

(** The rebuilt message is the frame of the row. *)
Lemma build_row_frame cells : build_row cells = frame tagDataRow (encode_row cells).
Proof.
  unfold build_row, frame, encode_row. rewrite sum_sizes. f_equal. f_equal. f_equal.
  unfold zlen. rewrite length_app, length_put_be_u16. lia.
Qed.

Lemma be_u16_encode_row cells :
  (Z.of_nat (length cells) < 65536)%Z -> be_u16 (encode_row cells) = Z.of_nat (length cells).
Proof. intros Hl. apply be_u16_put. lia. Qed.

Lemma maskRow_encode cols mask cells :
  row_ok cells ->
  maskRow cols (encode_row cells) mask =
    let '(cells', n) := mask_cells cols mask 0 cells in
    if (n =? 0)%Z then None else Some (frame tagDataRow (encode_row cells'), n).
Proof.
  intros [Hok Hl]. unfold maskRow. rewrite be_u16_encode_row by done.
  assert ((length (encode_row cells) <? 2)%nat = false) as ->
    by (apply Nat.ltb_ge; unfold encode_row; rewrite length_app, length_put_be_u16; lia).
  rewrite Nat2Z.id. unfold encode_row at 1.
  change 2 with (length (put_be_u16 (Z.of_nat (length cells)))).
  rewrite maskRow_loop_encode by done. simpl.
  destruct (mask_cells cols mask 0 cells) as [cells' n]. by rewrite build_row_frame.
Qed.

(** ** Validation *)

Lemma row_walk_encode pre cells :
  Forall cell_ok cells ->
  row_walk (length cells) (pre ++ concat (map encode_cell cells)) (length pre) =
    Some (length (pre ++ concat (map encode_cell cells))).
Proof.
  revert pre. induction cells as [|cl cells IH]; intros pre Hok; [simpl; by rewrite app_nil_r|].
  apply Forall_cons in Hok as [Hcl Hok]. cbn [length map concat].
  destruct (cell_at pre cl (concat (map encode_cell cells)) Hcl) as (H1 & H2 & H3).
  cbn [row_walk]. rewrite H1, H2. specialize (IH (pre ++ encode_cell cl) Hok).
  rewrite <- app_assoc in IH. destruct cl as [v|].
  - destruct H3 as (-> & -> & _ & ->). by rewrite IH.
  - rewrite Z.eqb_refl. assert (length pre + 4 = length (pre ++ encode_cell None)) as ->
      by (rewrite length_app; done). by rewrite IH.
Qed.

Lemma put_be_u32_be_u32 l : length l = 4 -> put_be_u32 (be_u32 l) = l.
Proof.
  destruct l as [|b1 [|b2 [|b3 [|b4 [|]]]]]; try done. intros _.
  unfold be_u32, put_be_u32. cbn [take be_val].
  pose proof (bval_range b1). pose proof (bval_range b2). pose proof (bval_range b3).
  pose proof (bval_range b4).
  repeat f_equal; apply bval_inj; rewrite bval_to_byte; Z.div_mod_to_equations; lia.
Qed.

Lemma put_be_u16_be_u16 l : length l = 2 -> put_be_u16 (be_u16 l) = l.
Proof.
  destruct l as [|b1 [|b2 [|]]]; try done. intros _. unfold be_u16, put_be_u16. cbn [take be_val].
  pose proof (bval_range b1). pose proof (bval_range b2).
  repeat f_equal; apply bval_inj; rewrite bval_to_byte; Z.div_mod_to_equations; lia.
Qed.

Lemma drop_split {A} n m (l : list A) : drop n l = take m (drop n l) ++ drop (n + m) l.
Proof. by rewrite <- drop_drop, take_drop. Qed.

(** The walk over the columns succeeds only over encoded cells. *)
Lemma row_walk_cells count payload pos pos' :
  row_walk count payload pos = Some pos' ->
  exists cells, length cells = count /\ Forall cell_ok cells /\
    pos' = pos + length (concat (map encode_cell cells)) /\
    (pos <= length payload -> pos' <= length payload) /\
    drop pos payload = concat (map encode_cell cells) ++ drop pos' payload.
Proof.
  revert pos. induction count as [|count IH]; intros pos; cbn [row_walk].
  { intros [= <-]. exists []. simpl. repeat split; try done; lia. }
  destruct (length payload <? pos + 4)%nat eqn:E4; [done|]. bool_hyps.
  assert (length (take 4 (drop pos payload)) = 4) as Ht by (rewrite length_take, length_drop; lia).
  assert (put_be_u32 (be_u32 (drop pos payload)) = take 4 (drop pos payload)) as Hput.
  { rewrite <- (put_be_u32_be_u32 _ Ht). unfold be_u32. by rewrite take_take. }
  pose proof (be_u32_bound (drop pos payload)) as Hb.
  destruct (_ =? nullColumn)%Z eqn:En; bool_hyps.
  - intros (cells & Hc & Hok & -> & Hle & Hd)%IH. exists (None :: cells).
    cbn [length map concat encode_cell]. rewrite length_app, length_put_be_u32.
    split; [lia|]. split; [by constructor|]. split; [lia|]. split; [lia|].
    rewrite (drop_split pos 4), <- Hput, En, Hd. by rewrite <- app_assoc.
  - destruct (zlen payload <? _)%Z eqn:Ez; [done|]. bool_hyps.
    set (n := Z.to_nat (be_u32 (drop pos payload))) in *.
    assert (pos + 4 + n <= length payload) as Hn by (unfold n, zlen in *; lia).
    intros (cells & Hc & Hok & -> & Hle & Hd)%IH.
    set (v := take n (drop (pos + 4) payload)).
    assert (length v = n) as Hv by (unfold v; rewrite length_take, length_drop; lia).
    exists (Some v :: cells). cbn [length map concat encode_cell].
    split; [lia|]. split.
    { constructor; [|done]. simpl. unfold zlen, nullColumn in *. lia. }
    assert (zlen v = be_u32 (drop pos payload)) as Hz by (unfold zlen, n in *; lia).
    rewrite Hz, Hput, !length_app, Ht, Hv. split; [lia|]. split; [lia|].
    trans (take 4 (drop pos payload) ++ v ++ drop (pos + 4 + n) payload).
    { unfold v. rewrite <- (drop_split (pos + 4) n). apply drop_split. }
    rewrite Hd. by rewrite <- !app_assoc.
Qed.
