(* ===== verification/PgProps.v ===== *)
(** * What the PostgreSQL codec promises

    The client side recovers every statement of a well-formed stream and
    refuses to go blind; the server side reports one statement per result set;
    rewriting loses no byte and produces frames the client can read. *)

From S2P Require Import Prelude GoStrings Scan Types SqlMeta Inspect PgCodec PgRewrite PgFacts.

(** ** Client messages *)

Inductive client_msg :=
  | MQuery (q : bytes)
  | MParse (name q oids : bytes)
  | MOther (tag : byte) (payload : bytes)
  | MStartup (params : bytes)
  | MSSLRequest
  | MCancel (key : bytes).

Definition untagged (code : Z) (rest : bytes) : bytes :=
  put_be_u32 (8 + zlen rest) ++ put_be_u32 code ++ rest.

Definition encode_client (m : client_msg) : bytes :=
  match m with
  | MQuery q => frame tagQuery (q ++ [x00])
  | MParse name q oids => frame tagParse (name ++ x00 :: q ++ x00 :: oids)
  | MOther tag payload => frame tag payload
  | MStartup params => untagged 196608 params
  | MSSLRequest => untagged sslRequestCode []
  | MCancel key => untagged cancelRequestCode key
  end.

Definition no_nul (l : bytes) : Prop := x00 ∉ l.

Definition client_msg_ok (m : client_msg) : Prop :=
  (zlen (encode_client m) <= maxMessageLen)%Z /\
  match m with
  | MQuery q => no_nul q
  | MParse name q _ => no_nul name /\ no_nul q
  | MOther tag _ => tag <> x00 /\ tag <> tagQuery /\ tag <> tagParse
  | _ => True
  end.

Lemma cstring_nul q rest : no_nul q -> cstring (q ++ x00 :: rest) = q.
Proof. intros Hq. unfold cstring, indexNUL. rewrite IndexByte_app by done. by apply take_app_exact. Qed.

Lemma parseMessage_encode name q oids :
  no_nul name -> no_nul q -> parseMessage (name ++ x00 :: q ++ x00 :: oids) = Some (name, q).
Proof.
  intros Hn Hq. unfold parseMessage, indexNUL. rewrite IndexByte_app by done.
  rewrite take_app_exact by done.
  assert (drop (length name + 1) (name ++ x00 :: q ++ x00 :: oids) = q ++ x00 :: oids) as ->.
  { rewrite <- drop_drop, drop_app_length. done. }
  rewrite IndexByte_app by done. by rewrite take_app_exact.
Qed.

Lemma put_be_u32_head v : (0 <= v < 16777216)%Z -> exists r, put_be_u32 v = x00 :: r /\ length r = 3.
Proof.
  intros Hv. unfold put_be_u32. rewrite (Z.div_small v 16777216) by lia. by eexists.
Qed.

Lemma untagged_facts code rest k :
  (8 + zlen rest < 16777216)%Z -> (0 <= code < 2 ^ 32)%Z ->
  let d := untagged code rest ++ k in
  byte_at d 0 = x00 /\ (length d <? 8)%nat = false /\ (length d =? 0)%nat = false /\
  be_u32 d = (8 + zlen rest)%Z /\ be_u32 (drop 4 d) = code /\
  (zlen d <? 8 + zlen rest)%Z = false /\ length (untagged code rest) = Z.to_nat (8 + zlen rest).
Proof.
  intros Hr Hc d. pose proof (zlen_nonneg rest). unfold d, untagged.
  assert (length ((put_be_u32 (8 + zlen rest) ++ put_be_u32 code ++ rest) ++ k) =
    8 + length rest + length k) as Hl by (rewrite !length_app, !length_put_be_u32; lia).
  destruct (put_be_u32_head (8 + zlen rest)) as (r & Hp & _); [lia|].
  split; [by rewrite Hp|]. split; [apply Nat.ltb_ge; lia|]. split; [apply Nat.eqb_neq; lia|].
  rewrite <- !app_assoc. split; [apply be_u32_put; lia|].
  rewrite (drop_app_exact 4) by done. split; [by apply be_u32_put|].
  split; [apply Z.ltb_ge; unfold zlen; rewrite !length_app, !length_put_be_u32; lia|].
  rewrite !length_app, !length_put_be_u32. unfold zlen. lia.
Qed.

Section Client.
Context `{GoUnicode}.

(** The statements one client message carries. *)
Definition client_msg_statements (m : client_msg) : list Statement :=
  match m with
  | MQuery q => map (fun s => newStatement s (B "Query") []) (Split q Postgres)
  | MParse name q _ => if TrimSpace q =s [] then [] else [newStatement q (B "Parse") name]
  | _ => []
  end.

Lemma client_step_tagged c tag payload k :
  tag <> x00 -> (4 + zlen payload <= maxMessageLen)%Z ->
  client_step c (frame tag payload ++ k) =
    Frame (length (frame tag payload)) c (client_statements tag payload).
Proof.
  intros Ht Hl. unfold client_step.
  assert (byte_at (frame tag payload ++ k) 0 = tag) as Hb by done.
  unfold isGSSEncRequest, skipHandshake. rewrite Hb.
  assert ((tag =b x00) = false) as -> by (by apply byte_eqb_ne). cbn [negb].
  rewrite !orb_true_r, read_message_frame by done. by rewrite length_frame.
Qed.

Lemma client_step_untagged c code rest k :
  (8 + zlen rest < 16777216)%Z -> (0 <= code < 2 ^ 32)%Z -> code <> gssEncRequestCode ->
  (code = sslRequestCode \/ code = cancelRequestCode \/ Z.shiftr code 16 = 3%Z) ->
  client_step c (untagged code rest ++ k) = Frame (length (untagged code rest)) c [].
Proof.
  intros Hl Hc Hg Hk. pose proof (zlen_nonneg rest).
  destruct (untagged_facts code rest k Hl Hc) as (H1 & H2 & H3 & H4 & H5 & H6 & H7).
  assert ((code =? gssEncRequestCode)%Z = false) as Hgb by (by apply Z.eqb_neq).
  unfold client_step, isGSSEncRequest, skipHandshake. rewrite H1, H2, H3, H4, H5, H6, H7, Hgb.
  rewrite andb_false_r, byte_eqb_refl. cbn [negb orb].
  assert (((8 + zlen rest <? 8) || (maxMessageLen <? 8 + zlen rest))%Z = false) as ->.
  { rewrite maxMessageLen_eq. apply orb_false_iff. split; apply Z.ltb_ge; lia. }
  assert ((Z.to_nat (8 + zlen rest) =? 0)%nat = false) as Hz by (apply Nat.eqb_neq; lia).
  destruct ((code =? sslRequestCode)%Z || (code =? cancelRequestCode)%Z) eqn:E; [by rewrite Hz|].
  apply orb_false_iff in E as [E1%Z.eqb_neq E2%Z.eqb_neq]. destruct Hk as [?|[?| ->]]; [done|done|].
  cbn [Z.eqb Pos.eqb]. by rewrite Hz.
Qed.

Lemma client_step_msg c m k :
  client_msg_ok m -> (zlen (encode_client m) < 16777216)%Z ->
  client_step c (encode_client m ++ k) =
    Frame (length (encode_client m)) c (client_msg_statements m).
Proof.
  intros [Hl Hm] Hs. rewrite maxMessageLen_eq in Hl.
  destruct m as [q|name q oids|tag payload|params| |key]; cbn [encode_client] in *.
  - rewrite client_step_tagged; [|done|unfold zlen in *; rewrite length_frame in Hl; rewrite maxMessageLen_eq; lia].
    unfold client_statements. cbn [Byte.eqb]. f_equal. simpl. by rewrite cstring_nul.
  - rewrite client_step_tagged; [|done|unfold zlen in *; rewrite length_frame in Hl; rewrite maxMessageLen_eq; lia].
    f_equal. unfold client_statements. cbn. by rewrite parseMessage_encode by apply Hm.
  - destruct Hm as (H0 & H1 & H2).
    rewrite client_step_tagged; [|done|unfold zlen in *; rewrite length_frame in Hl; rewrite maxMessageLen_eq; lia].
    f_equal. unfold client_statements. by rewrite (proj2 (byte_eqb_ne _ _) H1), (proj2 (byte_eqb_ne _ _) H2).
  - apply client_step_untagged; [|done|done|by right; right].
    unfold zlen, untagged in *. rewrite !length_app, !length_put_be_u32 in Hs. lia.
  - by apply client_step_untagged; [| | |left].
  - apply client_step_untagged; [|done|done|by right; left].
    unfold zlen, untagged in *. rewrite !length_app, !length_put_be_u32 in Hs. lia.
Qed.

Definition stream (ms : list client_msg) : bytes := concat (map encode_client ms).

Definition stream_ok (ms : list client_msg) : Prop :=
  Forall (fun m => client_msg_ok m /\ (zlen (encode_client m) < 16777216)%Z) ms.

(** Decoding a stream of messages followed by anything. *)
Lemma decode_stream_app c ms k :
  stream_ok ms ->
  Decode c FromClient (stream ms ++ k) =
    let '(c', r) := Decode c FromClient k in
    (c', {| dStmts := concat (map client_msg_statements ms) ++ dStmts r;
            dConsumed := length (stream ms) + dConsumed r; dErr := dErr r |}).
Proof.
  cbn [Decode pg_codec]. revert c. induction ms as [|m ms IH]; intros c Hok.
  { unfold stream. simpl. by destruct (frames client_step (length k) c k) as [? []]. }
  apply Forall_cons in Hok as [[Hm Hs] Hok]. unfold stream in *. cbn [map concat].
  rewrite <- app_assoc. pose proof (client_step_msg c m (concat (map encode_client ms) ++ k) Hm Hs) as Hst.
  destruct (client_step_frame _ _ _ _ _ Hst) as [Hlen _].
  destruct (encode_client m ++ _) as [|b rest] eqn:Ed; [simpl in *; lia|].
  cbn [length frames]. rewrite Hst, <- Ed, drop_app_length.
  assert (length (b :: rest) = length (encode_client m) + length (concat (map encode_client ms) ++ k))
    as Hle by (by rewrite <- Ed, length_app). cbn [length] in Hle.
  rewrite (frames_fuel client_step client_step_stable _
    (length (concat (map encode_client ms) ++ k))) by lia.
  rewrite IH by done. destruct (frames client_step (length k) c k) as [c' r].
  cbn [dStmts dConsumed dErr]. by rewrite <- app_assoc, length_app, Nat.add_assoc.
Qed.
End Client.

(** ** Result sets *)

Definition row_frame (cells : list cell) : bytes := frame tagDataRow (encode_row cells).

Definition row_msg_ok (cells : list cell) : Prop :=
  row_ok cells /\ (4 + zlen (encode_row cells) <= maxMessageLen)%Z.

Lemma validate_encode cells : row_ok cells -> validateDataRow (encode_row cells) = true.
Proof.
  intros [Hok Hl]. unfold validateDataRow. rewrite be_u16_encode_row, Nat2Z.id by done.
  unfold encode_row. change 2 with (length (put_be_u16 (Z.of_nat (length cells)))).
  rewrite row_walk_encode by done. apply Nat.eqb_refl.
Qed.

Section Server.
Context `{GoUnicode}.

(** One more row. *)
Definition counted (c : PgCodec) : PgCodec :=
  set_result c (pg_rowDesc c) (pg_rowCount c + 1)
    (pg_truncated c || (maxDecodedRows <? pg_rowCount c + 1)%Z).

Lemma decode_server_frame c m k c' s :
  m <> [] -> server_step c (m ++ k) = Frame (length m) c' s ->
  Decode c FromServer (m ++ k) =
    let '(c'', r) := Decode c' FromServer k in
    (c'', {| dStmts := s ++ dStmts r; dConsumed := length m + dConsumed r; dErr := dErr r |}).
Proof.
  intros Hne E. cbn [Decode pg_codec].
  destruct m as [|b m]; [done|]. cbn [app length frames] in *. rewrite E.
  cbn [drop]. rewrite drop_app_length.
  rewrite (frames_fuel server_step server_step_stable _ (length k)) by (rewrite ?length_app; lia).
  done.
Qed.

Lemma server_step_row c cells k :
  row_msg_ok cells ->
  server_step c (row_frame cells ++ k) = Frame (length (row_frame cells)) (counted c) [].
Proof.
  intros [Hok Hl]. unfold server_step, row_frame. rewrite read_message_frame, length_frame by done.
  cbn [Byte.eqb]. unfold countRow.
  assert ((length (encode_row cells) <? 2)%nat = false) as ->
    by (apply Nat.ltb_ge; unfold encode_row; rewrite length_app, length_put_be_u16; lia).
  unfold counted. rewrite validate_encode by done.
  destruct (maxDecodedRows <? _)%Z; simpl; by rewrite ?orb_true_r, ?orb_false_r.
Qed.

Lemma decode_rows c rows k :
  Forall row_msg_ok rows ->
  Decode c FromServer (concat (map row_frame rows) ++ k) =
    let '(c', r) := Decode (Nat.iter (length rows) counted c) FromServer k in
    (c', {| dStmts := dStmts r; dConsumed := length (concat (map row_frame rows)) + dConsumed r;
            dErr := dErr r |}).
Proof.
  revert c. induction rows as [|row rows IH]; intros c Hok.
  { cbn [map concat app length]. change (Nat.iter 0 counted c) with c.
    by destruct (Decode c FromServer k) as [? []]. }
  apply Forall_cons in Hok as [Hr Hok]. cbn [map concat]. rewrite <- app_assoc.
  rewrite (decode_server_frame _ _ _ (counted c) []) by (done || by apply server_step_row).
  rewrite IH by done. cbn [length]. rewrite Nat.iter_swap. cbn [Nat.iter].
  destruct (Decode _ FromServer k) as [c' r]. cbn [dStmts dConsumed dErr].
  by rewrite length_app, Nat.add_assoc.
Qed.

Lemma iter_counted n c :
  Nat.iter n counted c =
  set_result c (pg_rowDesc c) (pg_rowCount c + Z.of_nat n)
    (pg_truncated c || ((0 <? n)%nat && (maxDecodedRows <? pg_rowCount c + Z.of_nat n)%Z)).
Proof.
  induction n as [|n IH].
  - destruct c. unfold set_result. simpl. by rewrite Z.add_0_r, orb_false_r.
  - change (Nat.iter (S n) counted c) with (counted (Nat.iter n counted c)). rewrite IH. unfold counted, set_result. cbn [pg_rowDesc pg_rowCount pg_truncated].
    replace (pg_rowCount c + Z.of_nat n + 1)%Z with (pg_rowCount c + Z.of_nat (S n))%Z by lia.
    f_equal. rewrite <- orb_assoc. f_equal. cbn [Nat.ltb Nat.leb andb].
    destruct (maxDecodedRows <? pg_rowCount c + Z.of_nat (S n))%Z eqn:E; [by rewrite orb_true_r|].
    rewrite orb_false_r. apply andb_false_iff. right. bool_hyps. apply Z.ltb_ge. lia.
Qed.

(** The statement that reports a completed result set. *)
Definition result_statement (cols : list Column) (n : nat) (text : bytes) : Statement :=
  {| stProtocol := Protocol.Postgres; stDirection := FromServer; stText := text;
     stOperation := OpUnknown; stEffects := []; stRelations := []; stTables := [];
     stDatabase := []; stHTTP := None;
     stResult := Some {| rdColumns := cols; rdRowCount := Z.of_nat n;
                         rdTruncated := (maxDecodedRows <? Z.of_nat n)%Z |};
     stMetadata := {[ B "pg.message" := B "CommandComplete" ]} |}.

Definition result_stream (desc : bytes) (rows : list (list cell)) (text : bytes) : bytes :=
  frame tagRowDescription desc ++ concat (map row_frame rows) ++
  frame tagCommandComplete (text ++ [x00]).

(** An ErrorResponse is reported even with nothing pending. *)
Lemma flush_error c text :
  exists s, flushResult c text tagErrorResponse = (resetResult c, Some s) /\ stText s = text.
Proof. unfold flushResult. rewrite byte_eqb_refl, andb_false_r. by eexists. Qed.
End Server.

(** ** Properties *)

Definition gss_request : bytes := untagged gssEncRequestCode [].

Section Props.
Context `{GoUnicode}.

Lemma client_step_gss c k : client_step c (gss_request ++ k) = Refuse 0 c ErrStreamUnsafe.
Proof. unfold client_step. by rewrite isGSS_app. Qed.

(** C32 Every statement of a client stream is recovered: for any sequence of
    startup, cancel, TLS-request, Query, Parse and other messages, [Decode]
    consumes the whole stream without error and returns, in order, one
    statement for every piece of every simple query and one for every
    prepared statement that is not blank. *)
Theorem client_stream_recovered c ms :
  stream_ok ms ->
  Decode c FromClient (stream ms) =
    (c, {| dStmts := concat (map client_msg_statements ms);
           dConsumed := length (stream ms); dErr := None |}).
Proof.
  intros Hok. rewrite <- (app_nil_r (stream ms)) at 1. rewrite decode_stream_app by done.
  cbn. by rewrite app_nil_r, Nat.add_0_r.
Qed.

(** The codec refuses to go blind: a GSSAPI encryption request behind
    any message of a client stream stops the decoding with [ErrStreamUnsafe],
    whatever follows it, and the statements before it are still returned. *)
Theorem gss_encryption_refused c ms k :
  stream_ok ms ->
  Decode c FromClient (stream ms ++ gss_request ++ k) =
    (c, {| dStmts := concat (map client_msg_statements ms);
           dConsumed := length (stream ms); dErr := Some ErrStreamUnsafe |}).
Proof.
  intros Hok. rewrite decode_stream_app by done.
  assert (Decode c FromClient (gss_request ++ k) =
    (c, {| dStmts := []; dConsumed := 0; dErr := Some ErrStreamUnsafe |})) as ->.
  { cbn [Decode pg_codec]. pose proof (client_step_gss c k) as Hs.
    destruct (gss_request ++ k) eqn:E; [done|]. cbn [length frames]. by rewrite Hs. }
  cbn. by rewrite app_nil_r, Nat.add_0_r.
Qed.

(** Row validation is exact: a payload is accepted if and only if it is
    the encoding of some row of at most 65535 cells, each NULL or a value
    whose length prefix spans it exactly. *)
Theorem data_row_valid_iff payload :
  2 <= length payload ->
  validateDataRow payload = true <-> exists cells, row_ok cells /\ payload = encode_row cells.
Proof.
  intros Hl. split; [|by intros (cells & Hok & ->); apply validate_encode].
  unfold validateDataRow. destruct (row_walk _ payload 2) as [pos|] eqn:E; [|done].
  apply row_walk_cells in E as (cells & Hc & Hok & Hpos & _ & Hd). intros Hp. bool_hyps.
  exists cells. pose proof (be_u16_bound payload) as Hb. split.
  - split; [done|]. rewrite Hc. lia.
  - unfold encode_row. rewrite Hc, Z2Nat.id by lia.
    assert (length (take 2 payload) = 2) as Ht by (rewrite length_take; lia).
    replace (put_be_u16 (be_u16 payload)) with (take 2 payload).
    + rewrite <- (take_drop 2 payload) at 1. f_equal. rewrite Hd, Hp, drop_all. by rewrite app_nil_r.
    + rewrite <- (put_be_u16_be_u16 _ Ht). unfold be_u16. by rewrite take_take.
Qed.

(** One statement per result set: whatever was pending, a description, any
    number of rows and a completion yield exactly one statement, with the
    described columns, the exact row count, the server's command tag, and
    [Truncated] set exactly when more than 1000 rows came back; the codec is
    then ready for the next result set and goes on with the bytes behind. *)
Theorem result_set_reported_once c desc cols rows text k :
  decodeRowDescription desc = Some cols -> (4 + zlen desc <= maxMessageLen)%Z ->
  Forall row_msg_ok rows -> no_nul text -> (5 + zlen text <= maxMessageLen)%Z ->
  Decode c FromServer (result_stream desc rows text ++ k) =
    let '(c', r) := Decode (resetResult c) FromServer k in
    (c', {| dStmts := result_statement cols (length rows) text :: dStmts r;
            dConsumed := length (result_stream desc rows text) + dConsumed r;
            dErr := dErr r |}).
Proof.
  intros Hd Hdl Hr Hn Htl. unfold result_stream. rewrite <- !app_assoc.
  rewrite (decode_server_frame _ _ _ (set_result c (Some cols) 0 false) []); [|done|].
  2: { unfold server_step. rewrite read_message_frame, length_frame by done.
       cbn [Byte.eqb]. simpl. by rewrite Hd. }
  rewrite decode_rows by done. rewrite iter_counted.
  cbn [pg_rowDesc pg_rowCount pg_truncated set_result]. rewrite Z.add_0_l. cbn [orb].
  rewrite (decode_server_frame _ _ _ (resetResult c) [result_statement cols (length rows) text]);
    [|done|].
  - destruct (Decode (resetResult c) FromServer k) as [c' r]. cbn [dStmts dConsumed dErr app].
    rewrite !length_app. f_equal. f_equal. lia.
  - unfold server_step. rewrite read_message_frame; cycle 1.
    { unfold zlen in *. rewrite length_app. simpl. lia. }
    rewrite length_frame. change (tagCommandComplete =b tagRowDescription) with false.
    change (tagCommandComplete =b tagDataRow) with false.
    change (tagCommandComplete =b tagCommandComplete) with true. cbn [orb].
    rewrite cstring_nul by done. unfold flushResult. cbn [pg_rowDesc set_result andb].
    unfold resetResult, set_result, result_statement. cbn [pg_rowDesc pg_rowCount pg_truncated default].
    do 3 f_equal. destruct (length rows); [done|]. by rewrite andb_true_l.
Qed.

(** The text reported for a failed query is the first field of the
    server's ErrorResponse, type byte included, whatever the later fields
    say: with the severity in front, as servers send it, the text is
    "SERROR" and not the primary message. *)
Theorem error_text_is_first_field c field rest k :
  no_nul field -> (6 + zlen field + zlen rest <= maxMessageLen)%Z ->
  map stText (Decode c FromServer
    (frame tagErrorResponse (field ++ x00 :: rest) ++ k)).2.(dStmts) =
  field :: map stText (Decode (resetResult c) FromServer k).2.(dStmts).
Proof.
  intros Hn Hl. pose proof (flush_error c field) as [s [Hf Hs]].
  rewrite (decode_server_frame _ _ _ (resetResult c) [s]); [|done|].
  - destruct (Decode (resetResult c) FromServer k) as [c' r]. cbn [snd dStmts app map]. by rewrite Hs.
  - unfold server_step. rewrite read_message_frame; cycle 1.
    { unfold zlen in *. rewrite length_app. simpl. lia. }
    rewrite length_frame. change (tagErrorResponse =b tagRowDescription) with false.
    change (tagErrorResponse =b tagDataRow) with false.
    change (tagErrorResponse =b tagErrorResponse) with true. rewrite orb_true_r. cbn [orb].
    by rewrite cstring_nul, Hf.
Qed.

(** A GSSAPI request that declares any length but 8 is not refused: the
    nine-byte request below, followed by a simple query that drops a table
    and by padding, is consumed as one unknown message of 2309 bytes, with
    no error and no statement reported. *)
Theorem long_gss_request_hides_statements :
  Decode new_pg FromClient
    (untagged gssEncRequestCode [x00] ++ encode_client (MQuery (B "drop table t")) ++
     replicate 2282 x41) =
    (new_pg, {| dStmts := []; dConsumed := 2309; dErr := None |}).
Proof. vm_compute. reflexivity. Qed.
End Props.

(** ** Witnesses *)

#[local] Existing Instance ascii_only.

Definition example_stream : list client_msg :=
  [MStartup (B "user"); MQuery (B "select 1; drop table t"); MParse (B "s1") (B "delete from t") []].

Lemma example_stream_ok : stream_ok example_stream.
Proof.
  repeat constructor; try (vm_compute; intros; congruence);
    unfold no_nul; apply (bool_decide_unpack _); vm_compute; exact I.
Defined.

Lemma client_stream_recovered_witness :
  map stOperation (Decode new_pg FromClient (stream example_stream)).2.(dStmts) =
    [OpSelect; OpDrop; OpDelete].
Proof. rewrite (client_stream_recovered new_pg example_stream example_stream_ok). vm_compute. reflexivity. Defined.

Lemma gss_encryption_refused_witness :
  (Decode new_pg FromClient (stream example_stream ++ gss_request ++ B "junk")).2.(dErr) =
    Some ErrStreamUnsafe.
Proof. rewrite (gss_encryption_refused new_pg example_stream (B "junk") example_stream_ok). reflexivity. Defined.

Lemma data_row_valid_iff_witness :
  validateDataRow (encode_row [Some (B "ada"); None]) = true.
Proof.
  refine (proj2 (data_row_valid_iff (encode_row [Some (B "ada"); None]) _) _).
  - vm_compute. lia.
  - exists [Some (B "ada"); None]. split; [|reflexivity].
    split; [repeat constructor|vm_compute; reflexivity].
Defined.

(** A description of one column named [c]. *)
Definition example_desc : bytes := [x00; x01; x63; x00] ++ replicate 18 x00.

Lemma example_row_ok : row_msg_ok [Some (B "ada"); None].
Proof.
  split; [split; [repeat constructor|vm_compute; reflexivity]|]. vm_compute. congruence.
Defined.

Lemma result_set_reported_once_witness :
  map stResult (Decode new_pg FromServer
    (result_stream example_desc [[Some (B "ada"); None]] (B "SELECT 1"))).2.(dStmts) =
  [Some {| rdColumns := [{| colName := B "c"; colDataTypeOID := 0 |}]; rdRowCount := 1;
           rdTruncated := false |}].
Proof.
  rewrite <- (app_nil_r (result_stream _ _ _)).
  rewrite (result_set_reported_once new_pg example_desc
    [{| colName := B "c"; colDataTypeOID := 0 |}] [[Some (B "ada"); None]] (B "SELECT 1") []).
  - reflexivity.
  - vm_compute. reflexivity.
  - vm_compute. congruence.
  - constructor; [exact example_row_ok|constructor].
  - apply (bool_decide_unpack _). vm_compute. exact I.
  - vm_compute. congruence.
Defined.

Lemma error_text_is_first_field_witness :
  map stText (Decode new_pg FromServer (frame tagErrorResponse
    (B "SERROR" ++ x00 :: B "C42P01" ++ x00 :: B "Mrelation t does not exist" ++ [x00; x00]))).2.(dStmts)
  = [B "SERROR"].
Proof.
  rewrite <- (app_nil_r (frame _ _)).
  rewrite (error_text_is_first_field new_pg (B "SERROR")
    (B "C42P01" ++ x00 :: B "Mrelation t does not exist" ++ [x00; x00]) []).
  - reflexivity.
  - apply (bool_decide_unpack _). vm_compute. exact I.
  - vm_compute. congruence.
Defined.

Lemma inspect_chunking_witness :
  let chunks := [take 7 (stream example_stream); drop 7 (stream example_stream)] in
  (inspect_all (MkInspector new_pg [] DefaultMaxBuffer) FromClient chunks).2.1 =
    (Decode new_pg FromClient (concat chunks)).2.(dStmts).
Proof.
  set (chunks := [take 7 (stream example_stream); drop 7 (stream example_stream)]). cbv zeta.
  assert ((inspect_all (MkInspector new_pg [] DefaultMaxBuffer) FromClient chunks).2.2 = None)
    as He by (vm_compute; reflexivity).
  pose proof (inspect_chunking (dir := FromClient) new_pg DefaultMaxBuffer chunks) as Hc.
  destruct (inspect_all _ FromClient chunks) as [i' [stmts e]]. cbn [fst snd] in *. subst e.
  specialize (Hc i' stmts None eq_refl). destruct (Decode new_pg FromClient (concat chunks)) as [c' r].
  symmetry. exact (proj1 Hc).
Defined.

Lemma inspect_buffer_bound_witness :
  i_buf (Inspect (SetMaxBuffer (NewWithCodec new_pg) 10) FromClient (replicate 20 x00)).1 = [] /\
  (Inspect (SetMaxBuffer (NewWithCodec new_pg) 10) FromClient (B "Q12")).2.2 = None.
Proof.
  split; [|reflexivity].
  destruct (Inspect (SetMaxBuffer (NewWithCodec new_pg) 10) FromClient (replicate 20 x00))
    as [i' [stmts e]] eqn:E.
  refine (proj1 (inspect_buffer_bound (dir := FromClient) _ _ _ _ _ E) _).
  vm_compute in E. congruence.
Defined.

(** The reassembly buffer is not bounded by its budget: with a budget of 10
    bytes, one complete five-byte message followed by an unfinished message of
    100 bytes is accepted and leaves 100 bytes buffered. *)
Theorem buffer_can_exceed_budget :
  let r := Inspect (SetMaxBuffer (NewWithCodec new_pg) 10) FromClient
             (frame x53 [] ++ x51 :: put_be_u32 200 ++ replicate 95 x41) in
  r.2.2 = None /\ Buffered r.1 = 100 /\ i_maxBuffer r.1 = 10%Z.
Proof. vm_compute. repeat split. Qed.
