(* ===== verification/Handshake.v ===== *)
(** * Before the gate: src/hoopinspect/proxy/downstream.go and starttls.go

    The pgwire exchange that precedes the StartupMessage, answered by the relay
    on the client's side and made by it on the upstream's side, and the rewrite
    of the server's SASL offer.

    A client connection is what its socket reads will return, behind what the
    buffered reader already holds.  Writes may fail; TLS is a library, so the
    server's handshake is an argument that turns the raw reads into the
    decrypted ones, or fails. *)

From S2P Require Import Prelude GoStrings GoText Types.

(** ** The client's side: [negotiateDownstream] *)

Definition pgGSSEncRequestCode : Z := 80877104.
Definition pgCancelRequestCode : Z := 80877102.
Definition pgSSLRequestCode : Z := 80877103.
Definition pgNegotiateLen : nat := 8.
Definition maxNegotiationRounds : nat := 4.
Definition maxStartupPacket : Z := 10000.

Record Conn := {
  cn_buf : bytes;          (* buffered by the [bufio.Reader] *)
  cn_reads : list bytes;   (* what the next socket reads return; then EOF *)
  cn_writes : list bool;   (* whether the next writes succeed; then they do *)
  cn_sent : bytes;         (* the negotiation replies written so far *)
  cn_tls : bool;
}.

(** All the bytes the connection still has to deliver. *)
Definition cn_stream (c : Conn) : bytes := cn_buf c ++ concat (cn_reads c).

Definition set_input (c : Conn) (buf : bytes) (reads : list bytes) : Conn :=
  {| cn_buf := buf; cn_reads := reads; cn_writes := cn_writes c; cn_sent := cn_sent c;
     cn_tls := cn_tls c |}.

(** [Peek(n)]: read until [n] bytes are buffered; [false] at the end of input. *)
Fixpoint fill (n : nat) (buf : bytes) (reads : list bytes) : bytes * list bytes * bool :=
  if (n <=? length buf)%nat then (buf, reads, true)
  else
    match reads with
    | [] => (buf, [], false)
    | d :: reads => fill n (buf ++ d) reads
    end.

Definition peek (c : Conn) (n : nat) : Conn * bool :=
  let '(buf, reads, ok) := fill n (cn_buf c) (cn_reads c) in (set_input c buf reads, ok).

Definition discard (c : Conn) (n : nat) : Conn := set_input c (drop n (cn_buf c)) (cn_reads c).

Definition conn_Write (c : Conn) (b : byte) : Conn * bool :=
  match cn_writes c with
  | false :: ws =>
      ({| cn_buf := cn_buf c; cn_reads := cn_reads c; cn_writes := ws; cn_sent := cn_sent c;
          cn_tls := cn_tls c |}, false)
  | ws =>
      ({| cn_buf := cn_buf c; cn_reads := cn_reads c; cn_writes := drop 1 ws;
          cn_sent := cn_sent c ++ [b]; cn_tls := cn_tls c |}, true)
  end.

(** [bytes.Cut(s, []byte{0})] *)
Definition cut_nul (s : bytes) : option (bytes * bytes) :=
  match IndexByte s x00 with
  | None => None
  | Some i => Some (take i s, drop (i + 1) s)
  end.

(** The parameter loop of [startupUser]; each round shortens the packet. *)
Fixpoint user_param (fuel : nat) (params : bytes) : bytes :=
  match fuel with
  | O => []
  | S fuel =>
      match cut_nul params with
      | None => []
      | Some (k, rest) =>
          if (length k =? 0)%nat then []
          else
            match cut_nul rest with
            | None => []
            | Some (v, rest) => if k =s B "user" then v else user_param fuel rest
            end
      end
  end.

Definition startupUser (c : Conn) (len : Z) : Conn * bytes :=
  if (len <? 9)%Z || (maxStartupPacket <? len)%Z then (c, [])
  else
    let '(c, ok) := peek c (Z.to_nat len) in
    if negb ok then (c, [])
    else
      let pkt := take (Z.to_nat len) (cn_buf c) in
      if negb (Z.shiftr (be_u32 (drop 4 pkt)) 16 =? 3)%Z then (c, [])
      else (c, user_param (length pkt) (drop 8 pkt)).

Inductive NegError := ClientClosed | WriteFailed | EarlyData | HandshakeFailed | TooManyRounds.

Section Negotiate.
(** [tls.Server(conn, tlsCfg).Handshake()]; [None] is a nil configuration. *)
Context (tls_server : option (list bytes -> option (list bytes))).

(** The TLS upgrade after [S]: the exchange restarts inside it. *)
Definition upgrade (c : Conn) (handshake : list bytes -> option (list bytes))
    : Conn * option NegError :=
  if (0 <? length (cn_buf c))%nat then (c, Some EarlyData)
  else
    match handshake (cn_reads c) with
    | None => (c, Some HandshakeFailed)
    | Some reads =>
        ({| cn_buf := []; cn_reads := reads; cn_writes := cn_writes c; cn_sent := cn_sent c;
            cn_tls := true |}, None)
    end.

(** The rounds of [negotiateDownstream]: the connection, and the error or the
    user named in the StartupMessage. *)
Fixpoint negotiate_loop (rounds : nat) (c : Conn) : Conn * (NegError + bytes) :=
  match rounds with
  | O => (c, inl TooManyRounds)
  | S rounds =>
      let '(c, ok) := peek c pgNegotiateLen in
      if negb ok then (c, inl ClientClosed)
      else
        let len := be_u32 (cn_buf c) in
        let code := be_u32 (drop 4 (cn_buf c)) in
        if negb (len =? Z.of_nat pgNegotiateLen)%Z
        then let '(c, user) := startupUser c len in (c, inr user)
        else if (code =? pgGSSEncRequestCode)%Z then
          let '(c, ok) := conn_Write (discard c pgNegotiateLen) "N" in
          if negb ok then (c, inl WriteFailed) else negotiate_loop rounds c
        else if (code =? pgSSLRequestCode)%Z then
          match tls_server with
          | None =>
              let '(c, ok) := conn_Write (discard c pgNegotiateLen) "N" in
              if negb ok then (c, inl WriteFailed) else negotiate_loop rounds c
          | Some handshake =>
              let '(c, ok) := conn_Write (discard c pgNegotiateLen) "S" in
              if negb ok then (c, inl WriteFailed)
              else
                match upgrade c handshake with
                | (c, Some e) => (c, inl e)
                | (c, None) => negotiate_loop rounds c
                end
          end
        else (c, inr [])
  end.

Definition negotiateDownstream (c : Conn) (proto : Protocol) : Conn * (NegError + bytes) :=
  if proto =s Protocol.Postgres then negotiate_loop maxNegotiationRounds c
  else (c, inr []).
End Negotiate.

(** ** The upstream's side: [negotiatePostgresTLS] *)

Inductive UpstreamTLS := TLSAccepted | TLSWriteFailed | TLSNoReply | TLSRefused | TLSErrorReply
  | TLSUnexpected (reply : byte).

Definition ssl_request : bytes := put_be_u32 8 ++ put_be_u32 pgSSLRequestCode.

(** [reply] is the byte the server answers with, if the write went out and any
    arrived. *)
Definition negotiatePostgresTLS (write_ok : bool) (reply : option byte) : UpstreamTLS :=
  if negb write_ok then TLSWriteFailed
  else
    match reply with
    | None => TLSNoReply
    | Some b =>
        if b =b "S" then TLSAccepted
        else if b =b "N" then TLSRefused
        else if b =b "E" then TLSErrorReply
        else TLSUnexpected b
    end.

(** ** The SASL offer *)

Definition pgTagAuth : byte := "R".
Definition pgAuthSASL : Z := 10.
Definition pgSCRAMChannelBinding : bytes := B "SCRAM-SHA-256-PLUS".
Definition maxSASLFrame : Z := Z.shiftl 8 10.

Definition stripChannelBinding (data : bytes) : bytes * bool :=
  if (length data <? 9)%nat || negb (byte_at data 0 =b pgTagAuth) then (data, false)
  else
    let len := be_u32 (drop 1 data) in
    let total := (len + 1)%Z in
    if (len <? 8)%Z || (Z.of_nat (length data) <? total)%Z then (data, false)
    else if negb (be_u32 (drop 5 data) =? pgAuthSASL)%Z then (data, false)
    else
      let total := Z.to_nat total in
      let body := slice 9 total data in
      let want := pgSCRAMChannelBinding ++ [x00] in
      match Index body want with
      | None => (data, false)
      | Some idx =>
          (take 1 data ++ put_be_u32 (len - Z.of_nat (length want))
             ++ slice 5 9 data ++ take idx body ++ drop (idx + length want) body
             ++ drop total data, true)
      end.

Record saslReassembler := { sr_pending : bytes; sr_done : bool }.

Definition sasl_release (data : bytes) : saslReassembler * bytes :=
  ({| sr_pending := []; sr_done := true |}, data).

Definition sasl_hold (r : saslReassembler) (data : bytes) : saslReassembler * bytes :=
  ({| sr_pending := if (length (sr_pending r) =? 0)%nat then data else sr_pending r;
      sr_done := sr_done r |}, []).

(** [feed]: the bytes to forward and whether the mechanism was removed. *)
Definition sasl_feed (r : saslReassembler) (chunk : bytes) : saslReassembler * (bytes * bool) :=
  if sr_done r || (length chunk =? 0)%nat then (r, (chunk, false))
  else
    let '(r, data) :=
      if (0 <? length (sr_pending r))%nat
      then let p := sr_pending r ++ chunk in ({| sr_pending := p; sr_done := sr_done r |}, p)
      else (r, chunk) in
    let give '(r, out) := (r, (out, false)) in
    if negb (byte_at data 0 =b pgTagAuth) then give (sasl_release data)
    else if (length data <? 5)%nat then give (sasl_hold r data)
    else
      let len := be_u32 (drop 1 data) in
      let total := (len + 1)%Z in
      if (len <? 8)%Z || (maxSASLFrame <? total)%Z then give (sasl_release data)
      else if (Z.of_nat (length data) <? total)%Z then give (sasl_hold r data)
      else
        let '(rewritten, changed) := stripChannelBinding data in
        let '(r, out) := sasl_release rewritten in (r, (out, changed)).
