(* ===== verification/HandshakeProps.v ===== *)
(** * What the handshakes guarantee

    The relay never lets a session become unreadable: a request for GSS
    encryption is always refused, TLS is entered only with the relay as its
    endpoint, and what reaches the gate is the rest of the client's stream,
    whole.  The user named in the StartupMessage is read without consuming it,
    and the SASL offer is rewritten whatever way it arrives. *)

From S2P Require Import Prelude GoStrings GoText Types Scan SqlMeta Inspect PgCodec Handshake.

(** ** The buffered reader *)

Lemma fill_spec n buf reads :
  let '(buf', reads', ok) := fill n buf reads in
  buf' ++ concat reads' = buf ++ concat reads
  /\ (if ok then n <= length buf' else reads' = [] /\ length buf' < n).
Proof.
  revert buf. induction reads as [|d reads IH]; intros buf; cbn [fill].
  - destruct (n <=? length buf)%nat eqn:E; bool_hyps; done.
  - destruct (n <=? length buf)%nat eqn:E; bool_hyps; [done|].
    specialize (IH (buf ++ d)). destruct (fill n (buf ++ d) reads) as [[buf' reads'] ok].
    cbn [concat]. by rewrite <- app_assoc in IH.
Qed.

Lemma peek_spec c n :
  let '(c', ok) := peek c n in
  cn_stream c' = cn_stream c /\ cn_sent c' = cn_sent c /\ cn_tls c' = cn_tls c
  /\ (if ok then n <= length (cn_buf c') else cn_reads c' = [] /\ length (cn_buf c') < n).
Proof.
  unfold peek, cn_stream. pose proof (fill_spec n (cn_buf c) (cn_reads c)) as HF.
  destruct (fill _ _ _) as [[buf reads] ok]. cbn. by destruct HF.
Qed.

Lemma startupUser_stream c len :
  let c' := (startupUser c len).1 in
  cn_stream c' = cn_stream c /\ cn_sent c' = cn_sent c /\ cn_tls c' = cn_tls c.
Proof.
  unfold startupUser. case_go; [done|]. pose proof (peek_spec c (Z.to_nat len)) as HP.
  destruct (peek _ _) as [c' ok]. destruct HP as (? & ? & ? & _).
  by destruct (negb ok); [|destruct (negb _)].
Qed.

Lemma write_spec c b :
  let '(c', ok) := conn_Write c b in
  cn_stream c' = cn_stream c /\ cn_tls c' = cn_tls c
  /\ cn_sent c' = cn_sent c ++ (if ok then [b] else []).
Proof.
  unfold conn_Write. destruct (cn_writes c) as [|[] ws]; cbn; rewrite ?app_nil_r; done.
Qed.

Lemma discard_stream c n :
  n <= length (cn_buf c) -> cn_stream c = take n (cn_buf c) ++ cn_stream (discard c n).
Proof. intros Hn. unfold cn_stream, discard. cbn. by rewrite app_assoc, take_drop. Qed.

(** ** Negotiation *)

(** A negotiation packet, and the test that the next one is not of a kind. *)
Definition neg_request (code : Z) : bytes := put_be_u32 8 ++ put_be_u32 code.

Definition asks (s : bytes) (code : Z) : bool :=
  (8 <=? length s)%nat && (be_u32 s =? 8)%Z && (be_u32 (drop 4 s) =? code)%Z.

Lemma be_val_inj4 l k :
  length l = 4 -> length k = 4 -> be_u32 l = be_u32 k -> l = k.
Proof.
  intros Hl Hk. destruct l as [|a [|b [|c [|d [|]]]]]; try done.
  destruct k as [|a' [|b' [|c' [|d' [|]]]]]; try done. unfold be_u32. cbn [take be_val].
  pose proof (bval_range a). pose proof (bval_range b). pose proof (bval_range c).
  pose proof (bval_range d). pose proof (bval_range a'). pose proof (bval_range b').
  pose proof (bval_range c'). pose proof (bval_range d'). intros E.
  assert (bval a = bval a' /\ bval b = bval b' /\ bval c = bval c' /\ bval d = bval d')
    as (Ha & Hb & Hc & Hd) by lia.
  apply bval_inj in Ha, Hb, Hc, Hd. by subst.
Qed.

(** Eight bytes that read as a length of 8 and a code are that request. *)
Lemma request_bytes s code :
  8 <= length s -> (0 <= code < 2 ^ 32)%Z -> be_u32 s = 8%Z -> be_u32 (drop 4 s) = code ->
  take 8 s = neg_request code.
Proof.
  intros Hl Hc H1 H2. rewrite <- (take_split 4 8 s) by lia. unfold neg_request. f_equal.
  - apply be_val_inj4; [rewrite length_take; lia|done|].
    rewrite <- (app_nil_r (put_be_u32 8)), be_u32_put by lia.
    rewrite <- H1. unfold be_u32. by rewrite take_take.
  - apply be_val_inj4; [rewrite length_take, length_drop; lia|done|].
    rewrite <- (app_nil_r (put_be_u32 code)), be_u32_put by lia.
    rewrite <- H2. unfold be_u32. by rewrite take_take.
Qed.

Section Negotiate.
Context (tls : option (list bytes -> option (list bytes))).

Definition reply_ok (b : byte) : Prop := b = "N"%byte \/ (b = "S"%byte /\ tls <> None).

(** What a successful negotiation leaves. *)
Record negotiated (c c' : Conn) (rounds : nat) : Prop := {
  ng_no_gss : asks (cn_stream c') pgGSSEncRequestCode = false;
  ng_no_ssl : asks (cn_stream c') pgSSLRequestCode = false;
  ng_replies : exists rs, cn_sent c' = cn_sent c ++ rs /\ Forall reply_ok rs /\ length rs < rounds;
  ng_plain : tls = None -> exists codes,
    Forall (fun code => code = pgGSSEncRequestCode \/ code = pgSSLRequestCode) codes
    /\ cn_stream c = concat (map neg_request codes) ++ cn_stream c'
    /\ cn_sent c' = cn_sent c ++ repeat "N"%byte (length codes) /\ cn_tls c' = cn_tls c;
}.

Lemma negotiated_here c c1 c' rounds :
  8 <= length (cn_buf c1) -> cn_stream c1 = cn_stream c -> cn_stream c' = cn_stream c1 ->
  cn_sent c' = cn_sent c -> cn_tls c' = cn_tls c ->
  (forall code, code = pgGSSEncRequestCode \/ code = pgSSLRequestCode ->
     be_u32 (cn_buf c1) = 8%Z -> be_u32 (drop 4 (cn_buf c1)) <> code) ->
  negotiated c c' (S rounds).
Proof.
  intros Hl Hs Hs' Hsent Htls Hno.
  assert (forall code, code = pgGSSEncRequestCode \/ code = pgSSLRequestCode ->
    asks (cn_stream c') code = false) as HA.
  { intros code Hc. rewrite Hs'. unfold asks. destruct (_ && _) eqn:E; [|done]. bool_hyps.
    exfalso. unfold cn_stream in *. apply (Hno code Hc).
    - by rewrite be_u32_app in * by lia.
    - rewrite drop_app_le in * by lia. by rewrite be_u32_app in * by (rewrite length_drop; lia). }
  split; [by apply HA; left|by apply HA; right| |].
  - exists []. rewrite app_nil_r. split; [done|]. split; [done|]. simpl. lia.
  - intros _. exists []. cbn. rewrite app_nil_r. repeat split; try done. by rewrite Hs'.
Qed.

(** A round that answers a request and goes on. *)
Lemma negotiated_round c c1 c2 c' rounds code b :
  (0 <= code < 2 ^ 32)%Z -> code = pgGSSEncRequestCode \/ code = pgSSLRequestCode ->
  8 <= length (cn_buf c1) -> cn_stream c1 = cn_stream c -> be_u32 (cn_buf c1) = 8%Z ->
  be_u32 (drop 4 (cn_buf c1)) = code -> reply_ok b ->
  cn_sent c2 = cn_sent c ++ [b] ->
  (tls = None -> b = "N"%byte /\ cn_stream c2 = cn_stream (discard c1 8) /\ cn_tls c2 = cn_tls c) ->
  negotiated c2 c' rounds -> negotiated c c' (S rounds).
Proof.
  intros Hc Hcode Hl Hs H1 H2 Hb Hsent Hplain HN. destruct HN as [HN1 HN2 (rs & HN3 & HF & Hn) HN4].
  split; [done|done| |].
  - exists (b :: rs). rewrite HN3, Hsent, <- app_assoc. split; [done|].
    split; [by constructor|simpl; lia].
  - intros Ht. destruct (Hplain Ht) as (-> & Hs2 & Htls2). destruct (HN4 Ht) as (codes & HC & HS & HR & HT).
    exists (code :: codes). split; [by constructor|]. cbn [map concat length repeat].
    split; [|split; [by rewrite HR, Hsent, <- app_assoc|by rewrite HT]].
    rewrite <- Hs, (discard_stream c1 8 Hl), <- app_assoc, <- HS, Hs2.
    by rewrite (request_bytes (cn_buf c1) code).
Qed.

Lemma negotiate_loop_spec rounds c c' user :
  negotiate_loop tls rounds c = (c', inr user) -> negotiated c c' rounds.
Proof.
  revert c. induction rounds as [|rounds IH]; intros c; cbn [negotiate_loop]; [done|].
  pose proof (peek_spec c pgNegotiateLen) as HP. destruct (peek c pgNegotiateLen) as [c1 ok].
  destruct HP as (Hs & Hsent & Htls & Hl). destruct ok; cbn [negb]; [|done].
  unfold pgNegotiateLen in Hl. change (Z.of_nat pgNegotiateLen) with 8%Z.
  destruct (be_u32 (cn_buf c1) =? 8)%Z eqn:E8; bool_hyps; cbn [negb].
  2:{ pose proof (startupUser_stream c1 (be_u32 (cn_buf c1))) as HU. cbv zeta in HU.
      destruct (startupUser _ _) as [c2 u]. cbn [fst] in HU. destruct HU as (HU1 & HU2 & HU3).
      intros [= <- <-]. eapply negotiated_here; try done; congruence. }
  pose proof (write_spec (discard c1 pgNegotiateLen) "N") as HW.
  pose proof (write_spec (discard c1 pgNegotiateLen) "S") as HW'.
  destruct (be_u32 (drop 4 (cn_buf c1)) =? pgGSSEncRequestCode)%Z eqn:EG; bool_hyps.
  { destruct (conn_Write _ "N") as [c2 []]; cbn [negb]; [|done]. destruct HW as (HW1 & HW2 & HW3).
    intros E. apply IH in E. eapply (negotiated_round c c1 c2 _ _ pgGSSEncRequestCode "N" ltac:(done) (or_introl eq_refl));
      try done; [by left|by rewrite HW3; cbn; rewrite Hsent|].
    intros _. split; [done|]. split; [done|]. by rewrite HW2. }
  destruct (be_u32 (drop 4 (cn_buf c1)) =? pgSSLRequestCode)%Z eqn:ES; bool_hyps.
  2:{ intros [= <- <-]. eapply negotiated_here; try done. intros code [-> | ->] _; done. }
  destruct tls as [hs|] eqn:Etls.
  - destruct (conn_Write _ "S") as [c2 []]; cbn [negb]; [|done]. destruct HW' as (HW1 & HW2 & HW3).
    unfold upgrade. destruct (0 <? _)%nat; [done|]. destruct (hs (cn_reads c2)) as [reads|]; [|done].
    intros E. apply IH in E.
    eapply (negotiated_round c c1 _ _ _ pgSSLRequestCode "S" ltac:(done) (or_intror eq_refl)); try done.
    + right. by rewrite Etls.
    + cbn. by rewrite HW3; cbn; rewrite Hsent.
    + by rewrite Etls.
  - destruct (conn_Write _ "N") as [c2 []]; cbn [negb]; [|done]. destruct HW as (HW1 & HW2 & HW3).
    intros E. apply IH in E. eapply (negotiated_round c c1 c2 _ _ pgSSLRequestCode "N" ltac:(done) (or_intror eq_refl));
      try done; [by left|by rewrite HW3; cbn; rewrite Hsent|].
    intros _. split; [done|]. split; [done|]. by rewrite HW2.
Qed.
End Negotiate.

(** C35 The gate gets a stream it can read: whatever the client sends and
    however its TLS library answers, when [negotiateDownstream] succeeds on a
    Postgres lane the next bytes are no request of 8 bytes for GSS encryption
    or for TLS, every reply was a refusal or, with a certificate configured,
    an acceptance of TLS, and there were fewer than four of them.  Without a
    certificate, and only then, the client's stream is shown to be exactly the
    refused requests followed by what the gate reads. *)
Theorem negotiated_stream_readable tls c c' user :
  negotiateDownstream tls c Protocol.Postgres = (c', inr user) ->
  isGSSEncRequest (cn_stream c') = false /\ negotiated tls c c' maxNegotiationRounds.
Proof.
  unfold negotiateDownstream. rewrite seqb_refl. intros E. apply negotiate_loop_spec in E.
  split; [|done]. destruct E as [HG _ _ _]. unfold isGSSEncRequest. unfold asks in HG.
  destruct (length (cn_stream c') <? 8)%nat eqn:El; [done|]. bool_hyps.
  destruct (8 <=? length (cn_stream c'))%nat eqn:El'; bool_hyps; [|lia]. cbn [andb orb] in *.
  by destruct (negb _).
Qed.

(** ** The user of a StartupMessage *)

Definition nul_free (s : bytes) : Prop := x00 ∉ s.

Definition param_bytes (p : bytes * bytes) : bytes := p.1 ++ [x00] ++ p.2 ++ [x00].
Definition params_bytes (ps : list (bytes * bytes)) : bytes := concat (map param_bytes ps) ++ [x00].

Definition startup_message (minor : Z) (ps : list (bytes * bytes)) : bytes :=
  put_be_u32 (Z.of_nat (8 + length (params_bytes ps))) ++ put_be_u32 (3 * 65536 + minor)
  ++ params_bytes ps.

Fixpoint user_of (ps : list (bytes * bytes)) : bytes :=
  match ps with
  | [] => []
  | (k, v) :: ps => if k =s B "user" then v else user_of ps
  end.

Definition param_ok (p : bytes * bytes) : Prop := p.1 <> [] /\ nul_free p.1 /\ nul_free p.2.

Lemma cut_nul_app s rest : nul_free s -> cut_nul (s ++ [x00] ++ rest) = Some (s, rest).
Proof.
  intros Hs. unfold cut_nul. assert (IndexByte (s ++ [x00] ++ rest) x00 = Some (length s)) as ->.
  { induction s as [|a s IH]; [done|]. unfold nul_free in *.
    apply not_elem_of_cons in Hs as [Ha Hs]. cbn [app IndexByte length].
    destruct (a =b x00) eqn:E; bool_hyps; [done|]. cbn [app] in IH. by rewrite IH. }
  f_equal. f_equal; [by rewrite take_app_length|].
  replace (length s + 1) with (length (s ++ [x00])) by (rewrite length_app; simpl; lia).
  by rewrite app_assoc, drop_app_length.
Qed.

Lemma user_param_params fuel ps k :
  Forall param_ok ps -> length ps < fuel -> user_param fuel (params_bytes ps ++ k) = user_of ps.
Proof.
  revert fuel. induction ps as [|[key v] ps IH]; intros fuel Hok Hf; (destruct fuel as [|fuel]; [simpl in Hf; lia|]).
  - cbn [user_param]. change (params_bytes [] ++ k) with ([] ++ [x00] ++ k).
    rewrite cut_nul_app; [done|apply not_elem_of_nil].
  - apply Forall_cons in Hok as [(Hne & Hk & Hv) Hok]. cbn [user_param user_of fst snd] in *.
    unfold params_bytes, param_bytes. cbn [map concat fst snd]. rewrite <- !app_assoc.
    rewrite cut_nul_app by done. destruct (length key =? 0)%nat eqn:E; bool_hyps.
    { by apply nil_length_inv in E. }
    rewrite cut_nul_app by done. destruct (key =s B "user"); [done|].
    rewrite app_assoc. change (concat (map param_bytes ps) ++ [x00]) with (params_bytes ps).
    apply IH; [done|simpl in Hf; lia].
Qed.

Lemma params_count ps : length ps < length (params_bytes ps).
Proof.
  unfold params_bytes. rewrite length_app. induction ps as [|p ps IH]; simpl in *; [lia|].
  unfold param_bytes at 1. rewrite !length_app. simpl. lia.
Qed.

Lemma peek_enough c n s k :
  cn_stream c = s ++ k -> n <= length s ->
  exists buf reads, peek c n = (set_input c buf reads, true) /\ n <= length buf
    /\ buf ++ concat reads = s ++ k.
Proof.
  intros Hs Hn. unfold peek. pose proof (fill_spec n (cn_buf c) (cn_reads c)) as HF.
  destruct (fill _ _ _) as [[buf reads] ok]. destruct HF as [HF HO]. unfold cn_stream in Hs.
  rewrite Hs in HF. destruct ok; [eauto|]. destruct HO as [-> HO]. cbn in HF.
  rewrite app_nil_r in HF. subst buf. rewrite length_app in HO. lia.
Qed.

(** The user is recorded and the message kept: a StartupMessage of protocol 3
    with any parameters, arriving in any reads, leaves the negotiation with the
    value of its first "user" parameter, and every byte of it still unread. *)
Theorem startup_user_recorded tls c minor ps k :
  cn_stream c = startup_message minor ps ++ k -> (0 <= minor < 65536)%Z ->
  Forall param_ok ps -> (Z.of_nat (8 + length (params_bytes ps)) <= maxStartupPacket)%Z ->
  let '(c', r) := negotiateDownstream tls c Protocol.Postgres in
  r = inr (user_of ps) /\ cn_stream c' = cn_stream c /\ cn_sent c' = cn_sent c.
Proof.
  intros Hs Hm Hok Hmax. unfold maxStartupPacket in Hmax. set (P := params_bytes ps) in *.
  pose proof (params_count ps) as Hcnt. fold P in Hcnt.
  assert (length (startup_message minor ps) = 8 + length P) as Hlen.
  { unfold startup_message. fold P. by rewrite !length_app. }
  unfold negotiateDownstream. rewrite seqb_refl. unfold maxNegotiationRounds.
  cbn [negotiate_loop]. unfold pgNegotiateLen.
  destruct (peek_enough c 8 _ k Hs) as (buf & reads & -> & Hb & HS); [lia|]. cbn [negb].
  change (cn_buf (set_input c buf reads)) with buf.
  assert (be_u32 buf = Z.of_nat (8 + length P)) as Hlen32.
  { rewrite <- (be_u32_app buf (concat reads)) by lia. rewrite HS. unfold startup_message. fold P.
    rewrite <- !app_assoc. apply be_u32_put. lia. }
  rewrite Hlen32. destruct (Z.of_nat (8 + length P) =? _)%Z eqn:E; bool_hyps.
  { lia. }
  cbn [negb]. unfold startupUser.
  destruct ((_ <? 9)%Z || (maxStartupPacket <? _)%Z) eqn:E2.
  { unfold maxStartupPacket in E2. apply orb_true_iff in E2 as [E2|E2]; bool_hyps; lia. }
  rewrite Nat2Z.id.
  destruct (peek_enough (set_input c buf reads) (8 + length P) _ k HS) as (buf' & reads' & -> & Hb' & HS');
    [lia|].
  cbn [negb]. change (cn_buf (set_input _ buf' reads')) with buf'.
  assert (take (8 + length P) buf' = startup_message minor ps) as ->.
  { rewrite <- (take_app_prefix _ buf' (concat reads')) by lia. rewrite HS', <- Hlen.
    apply take_app_length. }
  unfold startup_message. fold P.
  change (drop 4 (put_be_u32 ?a ++ ?b)) with b.
  change (drop 8 (put_be_u32 ?a ++ put_be_u32 ?b ++ ?d)) with d.
  rewrite be_u32_put by lia. rewrite Z.shiftr_div_pow2 by lia.
  replace ((3 * 65536 + minor) / 2 ^ 16)%Z with 3%Z by (change (2 ^ 16)%Z with 65536%Z; Z.div_mod_to_equations; lia).
  cbn [negb Z.eqb Pos.eqb]. split; [|split; [by rewrite Hs, <- HS'|done]].
  f_equal. match goal with |- user_param ?f _ = _ =>
    pose proof (user_param_params f ps [] Hok) as HU end.
  rewrite app_nil_r in HU. apply HU. rewrite !length_app. fold P. lia.
Qed.

(** ** The SASL offer, in any reads *)

Definition mechs_bytes (ms : list bytes) : bytes := concat (map (fun m => m ++ [x00]) ms) ++ [x00].

Definition sasl_offer (ms : list bytes) : bytes :=
  pgTagAuth :: put_be_u32 (Z.of_nat (8 + length (mechs_bytes ms))) ++ put_be_u32 pgAuthSASL
  ++ mechs_bytes ms.

Fixpoint sasl_run (r : saslReassembler) (chunks : list bytes) : saslReassembler * bytes :=
  match chunks with
  | [] => (r, [])
  | d :: chunks =>
      let '(r, (out, _)) := sasl_feed r d in
      let '(r, out') := sasl_run r chunks in (r, out ++ out')
  end.

Lemma HasPrefix_nul P m tail :
  nul_free P -> nul_free m -> HasPrefix (m ++ x00 :: tail) (P ++ [x00]) = true -> P = m.
Proof.
  unfold nul_free. revert m. induction P as [|a P IH]; intros m HP Hm; destruct m as [|b m];
    cbn [app HasPrefix]; try done.
  - apply not_elem_of_cons in Hm as [Hb _]. intros E. bool_hyps. congruence.
  - apply not_elem_of_cons in HP as [Ha _]. intros E. bool_hyps. congruence.
  - apply not_elem_of_cons in HP as [Ha HP]. apply not_elem_of_cons in Hm as [Hb Hm].
    intros E. bool_hyps. f_equal; [done|by apply IH].
Qed.

(** A NUL-terminated name that does not end in [P] is skipped by the search. *)
Lemma Index_mech P m tail :
  P <> [] -> nul_free P -> nul_free m -> (forall pre, m <> pre ++ P) ->
  Index (m ++ x00 :: tail) (P ++ [x00])
  = (fun i => S (length m) + i)%nat <$> Index tail (P ++ [x00]).
Proof.
  intros HP HPn Hm Hs. induction m as [|a m IH]; cbn [app Index length].
  - destruct (HasPrefix (x00 :: tail) (P ++ [x00])) eqn:E.
    { apply (HasPrefix_nul P [] tail) in E; [done|done|done]. }
    by destruct (Index tail (P ++ [x00])).
  - destruct (HasPrefix (a :: m ++ x00 :: tail) (P ++ [x00])) eqn:E.
    { apply (HasPrefix_nul P (a :: m) tail) in E; [|done|done]. by destruct (Hs []). }
    apply not_elem_of_cons in Hm as [_ Hm]. rewrite IH; [|done|].
    + by destruct (Index tail (P ++ [x00])).
    + intros pre Ep. apply (Hs (a :: pre)). by rewrite Ep.
Qed.

Definition mech_ok (m : bytes) : Prop :=
  nul_free m /\ forall pre, m <> pre ++ pgSCRAMChannelBinding.

Definition names (ms : list bytes) : bytes := concat (map (fun m => m ++ [x00]) ms).

Lemma names_app l1 l2 : names (l1 ++ l2) = names l1 ++ names l2.
Proof. unfold names. by rewrite map_app, concat_app. Qed.

Lemma plus_nul_free : nul_free pgSCRAMChannelBinding.
Proof. unfold nul_free. by vm_compute; set_solver. Qed.

Lemma Index_offer l1 rest :
  Forall mech_ok l1 ->
  Index (names l1 ++ (pgSCRAMChannelBinding ++ [x00]) ++ rest) (pgSCRAMChannelBinding ++ [x00])
  = Some (length (names l1)).
Proof.
  induction 1 as [|m l1 [Hm Hs] _ IH]; [apply (Index_here (pgSCRAMChannelBinding ++ [x00]) rest)|].
  unfold names. cbn [map concat]. rewrite <- !app_assoc. cbn [app].
  rewrite Index_mech by (done || apply plus_nul_free).
  fold (names l1). rewrite <- app_assoc in IH. cbn [app] in IH. rewrite IH. cbn. rewrite !length_app. simpl. f_equal. lia.
Qed.

Lemma offer_length ms : length (sasl_offer ms) = 9 + length (mechs_bytes ms).
Proof. unfold sasl_offer. cbn [length]. by rewrite !length_app. Qed.

(** The rewritten offer is the offer without the mechanism, length included. *)
Lemma strip_offer l1 l2 k :
  Forall mech_ok l1 ->
  let ms := l1 ++ pgSCRAMChannelBinding :: l2 in
  (Z.of_nat (length (sasl_offer ms)) < 2 ^ 32)%Z ->
  stripChannelBinding (sasl_offer ms ++ k) = (sasl_offer (l1 ++ l2) ++ k, true).
Proof.
  intros H1 ms Hlen. rewrite offer_length in Hlen.
  assert (mechs_bytes ms = names l1 ++ (pgSCRAMChannelBinding ++ [x00]) ++ names l2 ++ [x00]) as HM.
  { unfold mechs_bytes, ms. fold (names (l1 ++ pgSCRAMChannelBinding :: l2)).
    rewrite names_app. unfold names at 2. cbn [map concat]. fold (names l2). by rewrite <- !app_assoc. }
  set (L := Z.of_nat (8 + length (mechs_bytes ms))).
  assert (HD : sasl_offer ms ++ k
    = pgTagAuth :: put_be_u32 L ++ put_be_u32 pgAuthSASL ++ mechs_bytes ms ++ k).
  { unfold sasl_offer. cbn [app]. by rewrite <- !app_assoc. }
  unfold stripChannelBinding. rewrite HD.
  change (byte_at (pgTagAuth :: ?x) 0) with pgTagAuth. rewrite byte_eqb_refl.
  change (drop 1 (pgTagAuth :: ?x)) with x.
  change (drop 5 (pgTagAuth :: put_be_u32 L ++ ?x)) with x.
  change (take 1 (pgTagAuth :: ?x)) with [pgTagAuth].
  rewrite !be_u32_put by (unfold L, pgAuthSASL; lia). rewrite Z.eqb_refl. cbn [negb].
  set (data := pgTagAuth :: _).
  assert (length data = 9 + length (mechs_bytes ms) + length k) as Hl.
  { unfold data. cbn [length]. rewrite !length_app. cbn. lia. }
  destruct ((length data <? 9)%nat || false) eqn:E1.
  { rewrite orb_false_r in E1. bool_hyps. lia. }
  destruct ((L <? 8)%Z || (Z.of_nat (length data) <? L + 1)%Z) eqn:E2.
  { apply orb_true_iff in E2 as [E2|E2]; bool_hyps; unfold L in E2; lia. }
  replace (Z.to_nat (L + 1)) with (9 + length (mechs_bytes ms)) by (unfold L; lia).
  assert (slice 9 (9 + length (mechs_bytes ms)) data = mechs_bytes ms) as ->.
  { unfold slice, data. change (drop 9 (pgTagAuth :: put_be_u32 L ++ put_be_u32 pgAuthSASL ++ ?x)) with x.
    replace (9 + length (mechs_bytes ms) - 9) with (length (mechs_bytes ms)) by lia.
    apply take_app_length. }
  assert (drop (9 + length (mechs_bytes ms)) data = k) as ->.
  { unfold data. rewrite <- drop_drop.
    change (drop 9 (pgTagAuth :: put_be_u32 L ++ put_be_u32 pgAuthSASL ++ ?x)) with x.
    apply drop_app_length. }
  change (slice 5 9 data) with (put_be_u32 pgAuthSASL).
  rewrite HM, Index_offer by done. f_equal. rewrite take_app_length, <- drop_drop, drop_app_length, drop_app_length.
  unfold sasl_offer, mechs_bytes. fold (names (l1 ++ l2)). rewrite names_app. cbn [app].
  f_equal. rewrite <- !app_assoc. f_equal. f_equal. unfold L. rewrite HM, !length_app.
  unfold pgSCRAMChannelBinding. cbn. lia.
Qed.

Lemma sasl_run_done chunks : sasl_run {| sr_pending := []; sr_done := true |} chunks
  = ({| sr_pending := []; sr_done := true |}, concat chunks).
Proof. induction chunks as [|d chunks IH]; [done|]. cbn. by rewrite IH. Qed.

(** One read while the frame [fr] is incomplete: it is held until it is whole,
    then rewritten in front of what came with it. *)
Lemma sasl_feed_frame fr L p d k :
  byte_at fr 0 = pgTagAuth -> be_u32 (drop 1 fr) = L -> Z.of_nat (length fr) = (L + 1)%Z ->
  (8 <= L)%Z -> (L + 1 <= maxSASLFrame)%Z ->
  d <> [] -> length p < length fr -> p ++ d `prefix_of` fr ++ k ->
  sasl_feed {| sr_pending := p; sr_done := false |} d
  = if (length (p ++ d) <? length fr)%nat
    then ({| sr_pending := p ++ d; sr_done := false |}, ([], false))
    else ({| sr_pending := []; sr_done := true |}, stripChannelBinding (p ++ d)).
Proof.
  intros Ht HL Hl H8 Hmax Hd Hp [q Hq]. unfold sasl_feed. cbn [sr_done sr_pending].
  destruct (length d =? 0)%nat eqn:E0; bool_hyps; [by apply nil_length_inv in E0|]. cbn [orb].
  set (data := p ++ d) in *.
  assert ((if (0 <? length p)%nat then ({| sr_pending := data; sr_done := false |}, data)
           else ({| sr_pending := p; sr_done := false |}, d))
    = ({| sr_pending := (if (0 <? length p)%nat then data else p); sr_done := false |}, data)) as ->.
  { destruct p; [done|]. done. }
  assert (0 < length data) as Hdl by (unfold data; rewrite length_app; lia).
  assert (byte_at data 0 = pgTagAuth) as ->.
  { rewrite <- (byte_at_app data q 0) by lia. rewrite <- Hq, byte_at_app by lia. done. }
  rewrite byte_eqb_refl. cbn [negb].
  assert (Hhold : forall b, sasl_hold {| sr_pending := (if (0 <? length p)%nat then data else p); sr_done := b |} data
    = ({| sr_pending := data; sr_done := b |}, [])).
  { intros b. unfold sasl_hold. cbn [sr_pending sr_done]. destruct p as [|a p]; [done|]. cbn [length Nat.ltb Nat.leb].
    destruct (length data =? 0)%nat eqn:E1; bool_hyps; [lia|done]. }
  rewrite Hhold. destruct (length data <? 5)%nat eqn:E5; bool_hyps.
  { destruct (length data <? length fr)%nat eqn:E6; bool_hyps; [done|lia]. }
  assert (be_u32 (drop 1 data) = L) as ->.
  { rewrite <- (be_u32_drop_app 1 data q) by lia. rewrite <- Hq, be_u32_drop_app by lia. done. }
  destruct ((L <? 8)%Z || (maxSASLFrame <? L + 1)%Z) eqn:E7.
  { apply orb_true_iff in E7 as [E7|E7]; bool_hyps; lia. }
  rewrite <- Hl. destruct (Z.of_nat (length data) <? Z.of_nat (length fr))%Z eqn:E8; bool_hyps.
  - destruct (length data <? length fr)%nat eqn:E6; bool_hyps; [done|lia].
  - destruct (length data <? length fr)%nat eqn:E6; bool_hyps; [lia|].
    by destruct (stripChannelBinding data).
Qed.

(** The client is never offered channel binding: however the server's
    AuthenticationSASL message and what follows it are cut into reads, the
    client receives the offer without SCRAM-SHA-256-PLUS, its length corrected,
    and every byte behind it. *)
Theorem sasl_offer_stripped l1 l2 k chunks :
  Forall mech_ok l1 -> Forall (fun d => d <> []) chunks ->
  let ms := l1 ++ pgSCRAMChannelBinding :: l2 in
  (Z.of_nat (length (sasl_offer ms)) <= maxSASLFrame)%Z ->
  concat chunks = sasl_offer ms ++ k ->
  sasl_run {| sr_pending := []; sr_done := false |} chunks
  = ({| sr_pending := []; sr_done := true |}, sasl_offer (l1 ++ l2) ++ k).
Proof.
  intros H1 Hne ms Hmax Hch. change maxSASLFrame with 8192%Z in Hmax.
  pose proof (offer_length ms) as Hol. set (fr := sasl_offer ms) in *.
  assert (Hgo : forall chunks p, Forall (fun d => d <> []) chunks ->
    length p < length fr -> p ++ concat chunks = fr ++ k ->
    sasl_run {| sr_pending := p; sr_done := false |} chunks
    = ({| sr_pending := []; sr_done := true |}, sasl_offer (l1 ++ l2) ++ k)).
  { clear Hch Hne chunks. induction chunks as [|d chunks IH]; intros p Hne Hp Hs.
    { cbn [concat] in Hs. rewrite app_nil_r in Hs. apply (f_equal length) in Hs.
      rewrite length_app in Hs. lia. }
    apply Forall_cons in Hne as [Hd Hne]. cbn [concat sasl_run] in *. rewrite app_assoc in Hs.
    assert (be_u32 (drop 1 fr) = Z.of_nat (8 + length (mechs_bytes ms))) as HL.
    { unfold fr, sasl_offer. change (drop 1 (pgTagAuth :: ?x)) with x. apply be_u32_put. lia. }
    rewrite (sasl_feed_frame fr _ p d k eq_refl HL); [|lia|lia|change maxSASLFrame with 8192%Z; lia|done|done|by exists (concat chunks)].
    destruct (length (p ++ d) <? length fr)%nat eqn:E; bool_hyps.
    - by rewrite (IH (p ++ d)).
    - rewrite <- (take_drop (length fr) (p ++ d)) in Hs |- *.
      rewrite <- app_assoc in Hs. apply app_inj_1 in Hs as [-> <-]; [|rewrite length_take; lia].
      unfold fr, ms. rewrite strip_offer; [|done|fold ms fr; lia].
      rewrite sasl_run_done. by rewrite <- app_assoc. }
  apply Hgo; [done| |done]. rewrite Hol. simpl. lia.
Qed.

(** ** Concrete exchanges *)

Definition demo_conn (reads : list bytes) : Conn :=
  {| cn_buf := []; cn_reads := reads; cn_writes := []; cn_sent := []; cn_tls := false |}.

Definition demo_startup : bytes := startup_message 0 [(B "database", B "app"); (B "user", B "ann")].

(** A GSS request, an SSL request and the startup message, cut anywhere. *)
Lemma negotiated_stream_readable_witness :
  exists c', isGSSEncRequest (cn_stream c') = false
    /\ cn_stream c' = demo_startup /\ cn_sent c' = B "NN".
Proof.
  pose (w := neg_request pgGSSEncRequestCode ++ neg_request pgSSLRequestCode ++ demo_startup).
  destruct (negotiateDownstream None (demo_conn [take 5 w; take 20 (drop 5 w); drop 25 w]) Protocol.Postgres)
    as [c' r] eqn:E.
  destruct (negotiated_stream_readable None (demo_conn [take 5 w; take 20 (drop 5 w); drop 25 w]) c' (B "ann"))
    as [H1 _].
  - rewrite E. vm_compute in E. by injection E as <- <-.
  - exists c'. split; [done|]. vm_compute in E. by injection E as <- <-.
Defined.

Lemma startup_user_recorded_witness :
  (negotiateDownstream None (demo_conn [take 3 demo_startup; drop 3 demo_startup]) Protocol.Postgres).2
  = inr (B "ann").
Proof.
  pose proof (startup_user_recorded None (demo_conn [take 3 demo_startup; drop 3 demo_startup]) 0
    [(B "database", B "app"); (B "user", B "ann")] []) as HR.
  destruct (negotiateDownstream None _ _) as [c' r]. destruct HR as [-> _]; try done.
  repeat apply List.Forall_cons; try apply List.Forall_nil;
    (split; [done|]; split; unfold nul_free; vm_compute; set_solver).
Defined.

Lemma sasl_offer_stripped_witness :
  let w := sasl_offer [B "SCRAM-SHA-256-PLUS"; B "SCRAM-SHA-256"] in
  (sasl_run {| sr_pending := []; sr_done := false |} [take 3 w; take 20 (drop 3 w); drop 23 w ++ [x53]]).2
  = sasl_offer [B "SCRAM-SHA-256"] ++ [x53].
Proof.
  intros w. rewrite (sasl_offer_stripped [] [B "SCRAM-SHA-256"] [x53]); try done; by repeat constructor.
Defined.

(** A GSS request that declares another length than 8 is taken for the
    StartupMessage and handed to the gate. *)
Lemma long_gss_is_handed_on :
  let w := put_be_u32 12 ++ put_be_u32 pgGSSEncRequestCode ++ put_be_u32 0 in
  let '(c', r) := negotiateDownstream None (demo_conn [w]) Protocol.Postgres in
  r = inr [] /\ cn_stream c' = w /\ isGSSEncRequest w = false.
Proof. by vm_compute. Qed.

(** An offer behind another message is not rewritten: the reassembler retires
    at the first message that is not an authentication request, such as
    NegotiateProtocolVersion. *)
Lemma later_offer_keeps_binding :
  let v := "v"%byte :: put_be_u32 8 ++ put_be_u32 0 in
  let offer := sasl_offer [B "SCRAM-SHA-256-PLUS"; B "SCRAM-SHA-256"] in
  (sasl_run {| sr_pending := []; sr_done := false |} [v; offer]).2 = v ++ offer.
Proof. by vm_compute. Qed.
