(* ===== verification/PgRewriteProps.v ===== *)
(** * What re-framing promises

    A masker that changes nothing leaves the stream byte for byte as it was;
    a masker that changes cells yields the same messages in the same order
    with every changed row rebuilt as a well-formed row. *)

From S2P Require Import Prelude GoStrings Types SqlMeta Inspect PgCodec PgRewrite PgFacts PgProps.

(** ** Maskers that change nothing *)

Definition keeps (mask : CellMasker) : Prop :=
  forall col val, masked_value mask col val = val.

Section Identity.
Context (mask : CellMasker) (Hkeep : keeps mask).

Lemma maskRow_loop_keeps count payload pos i cols cells n :
  maskRow_loop count payload pos i cols mask = Some (cells, n) -> n = 0%Z.
Proof.
  revert pos i cells n. induction count as [|count IH]; intros pos i cells n; cbn [maskRow_loop].
  { by intros [= <- <-]. }
  case_go; [done|]. case_go.
  - destruct (maskRow_loop count _ _ _ _ _) as [[cs m]|] eqn:E; [|done].
    simpl. intros [= <- <-]. by eapply IH.
  - case_go; [done|]. rewrite Hkeep, seqb_refl.
    destruct (maskRow_loop count _ _ _ _ _) as [[cs m]|] eqn:E; [|done].
    simpl. intros [= <- <-]. by eapply IH.
Qed.

Lemma maskRow_keeps cols payload : maskRow cols payload mask = None.
Proof.
  unfold maskRow. case_go; [done|].
  destruct (maskRow_loop _ _ _ _ _ _) as [[cells n]|] eqn:E; [|done].
  apply maskRow_loop_keeps in E as ->. done.
Qed.

Lemma flushHeld_loop_keeps fuel cols held res :
  length held <= fuel -> flushHeld_loop fuel cols mask held res = (held, res).
Proof.
  revert held. induction fuel as [|fuel IH]; intros [|b held] Hl; simpl in Hl; [done|lia|done|].
  cbn [flushHeld_loop]. destruct (_ <? 5)%nat; [done|]. destruct (_ || _)%Z eqn:E; [done|].
  rewrite maskRow_keeps. set (n := Z.to_nat _).
  assert (0 < n) by (unfold n; bool_hyps; lia).
  rewrite IH by (rewrite length_drop; simpl; lia). by rewrite take_drop.
Qed.

Lemma flushHeld_keeps c res : flushHeld c mask res = (set_held c [], (pg_held c, res)).
Proof. unfold flushHeld. by rewrite flushHeld_loop_keeps. Qed.

Lemma rewrite_message_keeps c res tag payload msg c' out res' ok :
  rewrite_message c mask res tag payload msg = (c', (out, res', ok)) ->
  res' = res /\ pg_pending c' = pg_pending c /\
  if ok then out ++ pg_held c' = pg_held c ++ msg else out = pg_held c /\ pg_held c' = [].
Proof.
  unfold rewrite_message. rewrite !flushHeld_keeps. case_go.
  { destruct (decodeRowDescription payload); intros [= <- <- <- <-]; simpl; [|done].
    by rewrite app_nil_r. }
  case_go.
  { case_go; intros [= <- <- <- <-]; simpl; [by rewrite app_nil_r|done]. }
  intros [= <- <- <- <-]. by case_match; simpl; rewrite app_nil_r.
Qed.

Lemma rewrite_loop_keeps fuel c data res c' r :
  length data <= fuel -> pg_pending c = [] ->
  rewrite_loop fuel c data mask res = (c', r) ->
  rwResult r = res /\
  match rwErr r with
  | None => rwOut r ++ pg_held c' ++ pg_pending c' = pg_held c ++ data
  | Some _ => rwOut r `prefix_of` pg_held c ++ data
  end.
Proof.
  revert c data c' r. induction fuel as [|fuel IH]; intros c [|b data] c' r Hl Hp; simpl in Hl;
    [|lia| |]; cbn [rewrite_loop].
  1,2: intros [= <- <-]; simpl; by rewrite Hp.
  destruct (read_message (b :: data)) as [| |tag payload total] eqn:E.
  { by intros [= <- <-]. }
  { intros [= <- <-]. simpl. split; [done|]. apply prefix_nil. }
  destruct (read_message_take _ _ _ _ E) as [Hsplit Ht]. set (d := b :: data) in *.
  destruct (rewrite_message c mask res tag payload (take total d)) as [c1 [[out res1] ok]] eqn:Em.
  destruct (rewrite_message_keeps _ _ _ _ _ _ _ _ _ Em) as (-> & Hp1 & Hout).
  destruct ok; cycle 1.
  { destruct Hout as [-> _]. intros [= <- <-]. simpl. split; [done|]. by apply prefix_app_r. }
  destruct (rewrite_loop fuel c1 (drop total d) mask res) as [c2 r2] eqn:El.
  apply IH in El as [Hres Hrest]; [|rewrite length_drop; simpl; lia|by rewrite Hp1].
  intros [= <- <-]. cbn [rwResult rwErr rwOut]. split; [done|].
  rewrite Hsplit, app_assoc, <- Hout. destruct (rwErr r2); rewrite <- !app_assoc.
  - by apply prefix_app.
  - by rewrite Hrest.
Qed.

Lemma Rewrite_keeps c data c' r :
  Rewrite c data (Some mask) = (c', r) ->
  rwResult r = {| rfCells := 0; rfRows := 0 |} /\
  match rwErr r with
  | None => rwOut r ++ pg_held c' ++ pg_pending c' = pg_held c ++ pg_pending c ++ data
  | Some _ => rwOut r `prefix_of` pg_held c ++ pg_pending c ++ data
  end.
Proof.
  unfold Rewrite. destruct (pg_pending c) eqn:Ep; cbn [length Nat.ltb Nat.leb].
  - intros E. by apply rewrite_loop_keeps in E.
  - intros E. by apply rewrite_loop_keeps in E.
Qed.

Lemma rewrite_all_keeps c chunks c' out e :
  rewrite_all c chunks mask = (c', (out, e)) ->
  match e with
  | None => out = pg_held c ++ pg_pending c ++ concat chunks
  | Some _ => out `prefix_of` pg_held c ++ pg_pending c ++ concat chunks
  end.
Proof.
  revert c c' out e. induction chunks as [|d chunks IH]; intros c c' out e; cbn [rewrite_all].
  { unfold Flush. rewrite flushHeld_keeps. intros [= <- <- <-]. simpl. by rewrite app_nil_r. }
  destruct (Rewrite c d (Some mask)) as [c1 r] eqn:E. apply Rewrite_keeps in E as [_ E].
  cbn [concat]. rewrite !app_assoc, <- (app_assoc (pg_held c)).
  destruct (rwErr r) as [e1|].
  { intros [= <- <- <-]. by apply prefix_app_r. }
  rewrite <- E. destruct (rewrite_all c1 chunks mask) as [c2 [out2 e2]] eqn:E2.
  apply IH in E2. intros [= <- <- <-]. rewrite <- !app_assoc. destruct e2.
  - by apply prefix_app.
  - by rewrite E2.
Qed.
End Identity.

(** ** Maskers that change cells *)

Section Masking.
Context (mask : CellMasker).

Definition mask_row (cols : list bytes) (cells : list cell) : list cell :=
  (mask_cells cols mask 0 cells).1.

Definition rows_bytes (rows : list (list cell)) : bytes := concat (map row_frame rows).

(** What the rows look like after masking under the layout [cols]. *)
Definition masked_bytes (cols : list bytes) (rows : list (list cell)) : bytes :=
  rows_bytes (map (mask_row cols) rows).

(** The cells and rows a batch of rows adds to the counters. *)
Definition changes (cols : list bytes) (rows : list (list cell)) (res : ReframeResult)
    : ReframeResult :=
  fold_left (fun r cells =>
    let n := (mask_cells cols mask 0 cells).2 in
    if (n =? 0)%Z then r else add_result r n 1) rows res.

Lemma flushHeld_loop_rows fuel cols rows res :
  Forall row_msg_ok rows -> length (rows_bytes rows) <= fuel ->
  flushHeld_loop fuel cols mask (rows_bytes rows) res =
    (masked_bytes cols rows, changes cols rows res).
Proof.
  unfold rows_bytes, masked_bytes. revert fuel res.
  induction rows as [|cells rows IH]; intros fuel res Hok Hl; [by destruct fuel|].
  apply Forall_cons in Hok as [[Hrow Hsz] Hok]. cbn [map concat] in *.
  set (rest := concat (map row_frame rows)) in *.
  assert (be_u32 (drop 1 (row_frame cells ++ rest)) = (4 + zlen (encode_row cells))%Z) as Hu.
  { unfold row_frame, frame. cbn [app drop]. rewrite drop_0, <- app_assoc. apply be_u32_put.
    rewrite maxMessageLen_eq in Hsz. pose proof (zlen_nonneg (encode_row cells)). lia. }
  assert (length (row_frame cells) = 5 + length (encode_row cells)) as Hlf by apply length_frame.
  rewrite length_app in Hl.
  destruct fuel as [|fuel]; [lia|].
  destruct (row_frame cells ++ rest) as [|b tl] eqn:Eb; [done|].
  cbn [flushHeld_loop]. rewrite <- Eb in Hu |- *. rewrite Hu.
  assert ((length (row_frame cells ++ rest) <? 5)%nat = false) as ->
    by (apply Nat.ltb_ge; rewrite length_app; lia).
  assert (((1 + (4 + zlen (encode_row cells)) <? 5) ||
           (zlen (row_frame cells ++ rest) <? 1 + (4 + zlen (encode_row cells))))%Z = false) as ->.
  { pose proof (zlen_nonneg (encode_row cells)). apply orb_false_iff.
    split; apply Z.ltb_ge; [lia|]. unfold zlen. rewrite length_app. lia. }
  assert (Z.to_nat (1 + (4 + zlen (encode_row cells))) = length (row_frame cells)) as ->
    by (unfold zlen; lia).
  rewrite take_app_length, drop_app_length. unfold row_frame at 1. rewrite drop5_frame.
  rewrite maskRow_encode by done. cbn [changes fold_left].
  pose proof (mask_cells_count cols mask 0 cells) as [_ Hcount]. unfold mask_row.
  destruct (mask_cells cols mask 0 cells) as [cells' n]. cbn [fst snd] in *.
  destruct (n =? 0)%Z eqn:En; bool_hyps.
  - rewrite (Hcount En). rewrite IH by (done || lia). done.
  - rewrite IH by (done || lia). done.
Qed.

Lemma masked_bytes_app cols rows rows' :
  masked_bytes cols (rows ++ rows') = masked_bytes cols rows ++ masked_bytes cols rows'.
Proof. unfold masked_bytes, rows_bytes. by rewrite !map_app, concat_app. Qed.

Lemma changes_app cols rows rows' res :
  changes cols (rows ++ rows') res = changes cols rows' (changes cols rows res).
Proof. unfold changes. by rewrite fold_left_app. Qed.

(** The loop over a run of rows: whatever was let out early, the rows let out
    and the rows still held are the masked rows seen so far. *)
Lemma rewrite_loop_rows fuel c hs rows tail res :
  pg_held c = rows_bytes hs -> Forall row_msg_ok hs -> Forall row_msg_ok rows ->
  length (rows_bytes rows ++ tail) <= fuel ->
  exists fuel' c' hs' out res',
    length tail <= fuel' /\ pg_held c' = rows_bytes hs' /\ Forall row_msg_ok hs' /\
    pg_pending c' = pg_pending c /\ pg_maskCols c' = pg_maskCols c /\
    out ++ masked_bytes (pg_maskCols c) hs' = masked_bytes (pg_maskCols c) (hs ++ rows) /\
    changes (pg_maskCols c) hs' res' = changes (pg_maskCols c) (hs ++ rows) res /\
    rewrite_loop fuel c (rows_bytes rows ++ tail) mask res =
      let '(cf, r) := rewrite_loop fuel' c' tail mask res' in
      (cf, {| rwOut := out ++ rwOut r; rwResult := rwResult r; rwErr := rwErr r |}).
Proof.
  revert fuel c hs res. induction rows as [|cells rows IH]; intros fuel c hs res Hh Hhs Hok Hl.
  { exists fuel, c, hs, [], res. rewrite app_nil_r. cbn [rows_bytes map concat app] in *.
    repeat split; try done. by destruct (rewrite_loop fuel c tail mask res) as [? []]. }
  apply Forall_cons in Hok as [Hrow Hok]. unfold rows_bytes in *. cbn [map concat] in *.
  rewrite <- app_assoc in *. pose proof (length_frame tagDataRow (encode_row cells)) as Hlf.
  fold (row_frame cells) in Hlf. rewrite length_app in Hl.
  destruct fuel as [|fuel]; [lia|].
  assert (read_message (row_frame cells ++ concat (map row_frame rows) ++ tail) =
    HMessage tagDataRow (encode_row cells) (length (row_frame cells))) as Hm.
  { rewrite Hlf. apply read_message_frame, Hrow. }
  destruct (row_frame cells ++ _) as [|b tl] eqn:Eb; [done|]. cbn [rewrite_loop]. rewrite Hm.
  rewrite <- Eb, take_app_length, drop_app_length. unfold rewrite_message.
  change (tagDataRow =b tagRowDescription) with false. change (tagDataRow =b tagDataRow) with true.
  cbv iota. set (c1 := set_held c (pg_held c ++ row_frame cells)).
  assert (pg_held c1 = concat (map row_frame (hs ++ [cells]))) as Hh1.
  { simpl. rewrite map_app, concat_app, Hh. simpl. by rewrite app_nil_r. }
  assert (Forall row_msg_ok (hs ++ [cells])) as Hhs1 by (apply Forall_app; split; [done|by constructor]).
  replace (hs ++ cells :: rows) with ((hs ++ [cells]) ++ rows) by (by rewrite <- app_assoc).
  destruct (maxHeldBytes <=? zlen (pg_held c1))%Z.
  - unfold flushHeld. rewrite Hh1. fold (rows_bytes (hs ++ [cells])).
    rewrite flushHeld_loop_rows by done.
    destruct (IH fuel (set_held c1 []) [] (changes (pg_maskCols c1) (hs ++ [cells]) res))
      as (f' & c' & hs' & out & res' & H1 & H2 & H3 & H4 & H5 & H6 & H7 & H8);
      [done|done|done|lia|]. cbn [pg_maskCols set_held c1 app pg_pending] in *.
    exists f', c', hs', (masked_bytes (pg_maskCols c) (hs ++ [cells]) ++ out), res'.
    rewrite H8. repeat split; try done.
    + rewrite <- app_assoc, H6. by rewrite (masked_bytes_app _ (hs ++ [cells])).
    + by rewrite H7, (changes_app _ (hs ++ [cells])).
    + destruct (rewrite_loop f' c' tail mask res') as [cf r]. cbn [rwOut rwResult rwErr].
      by rewrite app_assoc.
  - destruct (IH fuel c1 (hs ++ [cells]) res Hh1 Hhs1 Hok)
      as (f' & c' & hs' & out & res' & H1 & H2 & H3 & H4 & H5 & H6 & H7 & H8); [lia|].
    exists f', c', hs', out, res'. rewrite H8. cbn [pg_maskCols set_held c1 pg_pending] in *.
    repeat split; try done. by destruct (rewrite_loop f' c' tail mask res').
Qed.
End Masking.

(** ** Properties *)

(** Rewriting loses and adds nothing: with a masker that changes no cell,
    whatever the codec held before and however the response is cut into reads,
    the bytes let out, including the final flush, are exactly the bytes fed
    in, in order; if the stream turns out malformed they are a prefix of it. *)
Theorem rewrite_conserves_stream mask c chunks c' out e :
  (forall col val, masked_value mask col val = val) ->
  rewrite_all c chunks mask = (c', (out, e)) ->
  match e with
  | None => out = pg_held c ++ pg_pending c ++ concat chunks
  | Some _ => out `prefix_of` pg_held c ++ pg_pending c ++ concat chunks
  end.
Proof. intros Hk. by apply rewrite_all_keeps. Qed.

(** Masked result sets stay well-formed: for any masker, a description,
    any number of rows (however many bytes they fill) and a completion come
    out as the same description, the same rows with exactly the masked cells,
    NULLs and cell counts kept, every length prefix recomputed, and the same
    completion; nothing stays held, and the counters report the changed cells
    and rows. *)
Theorem masked_result_set mask c desc cols rows text :
  pg_held c = [] -> pg_pending c = [] ->
  decodeRowDescription desc = Some cols -> (4 + zlen desc <= maxMessageLen)%Z ->
  Forall row_msg_ok rows -> (5 + zlen text <= maxMessageLen)%Z ->
  let names := columnNames cols in
  exists c',
    Rewrite c (result_stream desc rows text) (Some mask) =
      (c', {| rwOut := frame tagRowDescription desc ++
                concat (map (fun cells => row_frame (mask_row mask names cells)) rows) ++
                frame tagCommandComplete (text ++ [x00]);
              rwResult := changes mask names rows {| rfCells := 0; rfRows := 0 |};
              rwErr := None |}) /\
    pg_held c' = [] /\ pg_pending c' = [].
Proof.
  intros Hh Hp Hd Hdl Hrows Htl names. unfold Rewrite, result_stream. rewrite Hp.
  cbn [length Nat.ltb Nat.leb].
  set (tail := frame tagCommandComplete (text ++ [x00])). fold (rows_bytes rows).
  assert (read_message (frame tagRowDescription desc ++ rows_bytes rows ++ tail) =
    HMessage tagRowDescription desc (length (frame tagRowDescription desc))) as Hm.
  { rewrite length_frame. by apply read_message_frame. }
  pose proof (length_frame tagRowDescription desc) as Hlf.
  destruct (frame tagRowDescription desc ++ _) as [|b tl] eqn:Eb; [done|].
  set (zero := {| rfCells := 0; rfRows := 0 |}). cbn [length rewrite_loop].
  rewrite Hm, <- Eb, take_app_length, drop_app_length. unfold rewrite_message.
  change (tagRowDescription =b tagRowDescription) with true. cbv iota.
  unfold flushHeld at 1. rewrite Hh, Hd. cbn [length flushHeld_loop app].
  set (c1 := set_maskCols (set_held c []) (columnNames cols)).
  assert (length (rows_bytes rows ++ tail) <= length tl) as Hle.
  { apply (f_equal length) in Eb. rewrite length_app, Hlf in Eb. simpl in Eb. lia. }
  destruct (rewrite_loop_rows mask (length tl) c1 [] rows tail zero)
    as (f' & c2 & hs & out & res & H1 & H2 & H3 & H4 & H5 & H6 & H7 & ->); [done|done|done|done|].
  cbn [app] in H6, H7. cbn [pg_maskCols set_maskCols c1] in H5, H6, H7.
  assert (read_message tail = HMessage tagCommandComplete (text ++ [x00]) (length tail)) as Hmt.
  { unfold tail. rewrite length_frame. rewrite <- (app_nil_r (frame _ _)) at 1.
    apply read_message_frame. unfold zlen in *. rewrite length_app. simpl. lia. }
  destruct f' as [|f']; [simpl in H1; lia|]. destruct tail as [|b' tl'] eqn:Et; [done|].
  cbn [rewrite_loop]. rewrite Hmt, <- Et, firstn_all, drop_all. unfold rewrite_message.
  change (tagCommandComplete =b tagRowDescription) with false.
  change (tagCommandComplete =b tagDataRow) with false.
  change (tagCommandComplete =b tagReadyForQuery) with false. cbv iota.
  unfold flushHeld. rewrite H2, flushHeld_loop_rows, H5 by done. fold names in H5, H6, H7 |- *.
  exists (set_held c2 []). split; [|cbn [pg_held pg_pending set_held]; by rewrite H4]. destruct f'; cbn [rewrite_loop rwOut rwResult rwErr].
  all: rewrite H7, app_nil_r; f_equal; f_equal; f_equal; rewrite app_assoc, H6;
    unfold masked_bytes, rows_bytes; by rewrite map_map.
Qed.

(** Flushing without a masker reorders the stream: rows held from an
    earlier call are emitted behind the partial message that arrived after
    them. *)
Theorem flush_without_masker_reorders c :
  (Flush c None).2 = pg_pending c ++ pg_held c /\
  let c0 := (Rewrite new_pg (row_frame [Some (B "ada")] ++ B "C12") (Some (fun _ v => Some v))).1 in
  (Flush c0 None).2 = B "C12" ++ row_frame [Some (B "ada")] /\
  (Flush c0 (Some (fun _ v => Some v))).2 = row_frame [Some (B "ada")] ++ B "C12".
Proof. split; [done|]. vm_compute. split; reflexivity. Qed.

(** ** Witnesses *)

Lemma rewrite_conserves_stream_witness :
  (rewrite_all new_pg [row_frame [Some (B "ada")] ++ B "C"; B "12"] (fun _ _ => None)).2.1 =
    row_frame [Some (B "ada")] ++ B "C12".
Proof.
  destruct (rewrite_all new_pg [row_frame [Some (B "ada")] ++ B "C"; B "12"] (fun _ _ => None))
    as [c' [out e]] eqn:E.
  assert (e = None) as -> by (vm_compute in E; congruence).
  exact (rewrite_conserves_stream (fun _ _ => None) new_pg _ c' out None (fun _ _ => eq_refl) E).
Defined.

Lemma masked_result_set_witness :
  exists c',
    Rewrite new_pg (result_stream example_desc [[Some (B "ada"); None]] (B "SELECT 1"))
        (Some (fun _ _ => Some (B "***redacted***"))) =
      (c', {| rwOut := frame tagRowDescription example_desc ++
                row_frame [Some (B "***redacted***"); None] ++
                frame tagCommandComplete (B "SELECT 1" ++ [x00]);
              rwResult := {| rfCells := 1; rfRows := 1 |}; rwErr := None |}).
Proof.
  destruct (masked_result_set (fun _ _ => Some (B "***redacted***")) new_pg example_desc
    [{| colName := B "c"; colDataTypeOID := 0 |}] [[Some (B "ada"); None]] (B "SELECT 1"))
    as (c' & E & _).
  - reflexivity.
  - reflexivity.
  - vm_compute. reflexivity.
  - vm_compute. congruence.
  - constructor; [exact example_row_ok|constructor].
  - vm_compute. congruence.
  - exists c'. exact E.
Defined.
