(* ===== verification/Policy.v ===== *)
(** * Policy: src/hoopinspect/policy/policy.go, http.go, pii.go, builders.go

    Verdicts, findings, the local rule set and the chain of evaluators.  A Go
    [error] that evaluators join is a list of errors ([errors.Join] is list
    append, nil is the empty list).  An [EvalContext] is threaded through
    evaluation; Go maps are [gmap]s, and a nil map is an empty one.  The PII
    [Scanner] is supplied by another package and is an argument. *)

From S2P Require Import Prelude GoStrings GoText Types.

(** ** Verdicts *)

Inductive PolicyError :=
  | NoCompiledPattern (rule : bytes)
  | UnknownRuleType (type : bytes)
  | EvaluatorError (msg : bytes).

Record Verdict := {
  vDenied : bool;
  vMessage : bytes;
  vRule : bytes;
  vErr : list PolicyError;
  vAnnotations : gmap bytes bytes;
}.

Definition Allow : Verdict :=
  {| vDenied := false; vMessage := []; vRule := []; vErr := []; vAnnotations := ∅ |}.

Definition Deny (rule msg : bytes) : Verdict :=
  {| vDenied := true; vMessage := msg; vRule := rule; vErr := []; vAnnotations := ∅ |}.

(** ** Findings *)

(** A value of a finding's payload: the rule set writes string lists, the analyzer a string. *)
Inductive AnyValue := VStrings (l : list bytes) | VString (s : bytes).

Record Finding := {
  fSource : bytes;
  fRule : bytes;
  fStatus : bytes;
  fReason : bytes;
  fValues : gmap bytes AnyValue;
}.

Definition FindingOK : bytes := B "ok".
Definition FindingCached : bytes := B "cached".
Definition FindingSkipped : bytes := B "skipped".
Definition FindingUnavailable : bytes := B "unavailable".
Definition FindingError : bytes := B "error".

Definition FindingRank (status : bytes) : Z :=
  if status =s FindingError then 4
  else if status =s FindingUnavailable then 3
  else if status =s FindingSkipped then 2
  else if (status =s FindingCached) || (status =s FindingOK) then 1
  else 0.

Definition Answered (f : Finding) : bool :=
  (fStatus f =s FindingOK) || (fStatus f =s FindingCached).

(** [f] with the rule and values of [g]. *)
Definition with_values (f g : Finding) : Finding :=
  {| fSource := fSource f; fRule := fRule g; fStatus := fStatus f; fReason := fReason f;
     fValues := fValues g |}.

Definition Merge (f other : Finding) : Finding :=
  if (FindingRank (fStatus f) <? FindingRank (fStatus other))%Z
  then if negb (Answered other) && Answered f then with_values other f else other
  else if negb (Answered f) && Answered other then with_values f other else f.

Record EvalContext := {
  ecAnnotations : gmap bytes bytes;
  ecFindings : gmap bytes Finding;
  ecRequested : gmap bytes bool;
  ecContext : gmap bytes bytes;
}.

Definition empty_context : EvalContext :=
  {| ecAnnotations := ∅; ecFindings := ∅; ecRequested := ∅; ecContext := ∅ |}.

Definition set_annotations (ec : EvalContext) (m : gmap bytes bytes) : EvalContext :=
  {| ecAnnotations := m; ecFindings := ecFindings ec; ecRequested := ecRequested ec;
     ecContext := ecContext ec |}.

Definition AddFinding (ec : EvalContext) (f : Finding) : EvalContext :=
  let f := match ecFindings ec !! fSource f with Some prev => Merge prev f | None => f end in
  {| ecAnnotations := ecAnnotations ec; ecFindings := <[ fSource f := f ]> (ecFindings ec);
     ecRequested := ecRequested ec; ecContext := ecContext ec |}.

Definition ec_Finding (ec : EvalContext) (source : bytes) : option Finding :=
  ecFindings ec !! source.

(** [(want, stated)] *)
Definition WantsRun (ec : EvalContext) (source : bytes) : bool * bool :=
  match ecRequested ec !! source with Some w => (w, true) | None => (false, false) end.

(** ** Rules *)

Definition MatchDenyWords : bytes := B "deny_words_list".
Definition MatchPattern : bytes := B "pattern_match".
Definition MatchOperation : bytes := B "operation".
Definition MatchTable : bytes := B "table".
Definition MatchAIAnalysis : bytes := B "ai_analysis".
Definition MatchHTTPResource : bytes := B "http_resource".
Definition MatchHTTPStatus : bytes := B "http_status".
Definition MatchPII : bytes := B "pii".
Definition ActionDefer : bytes := B "defer".

Record AITrigger := {
  atOperations : list Operation;
  atTables : list bytes;
  atResources : list bytes;
}.

(** [IsZero]; a nil trigger is [None]. *)
Definition AITrigger_IsZero (t : option AITrigger) : bool :=
  match t with
  | None => true
  | Some t => match atOperations t, atTables t, atResources t with
              | [], [], [] => true
              | _, _, _ => false
              end
  end.

Record Rule := {
  rlName : bytes;
  rlType : bytes;
  rlWords : list bytes;
  rlPattern : bytes;
  rlOperations : list Operation;
  rlTables : list bytes;
  rlRequireTableMatch : bool;
  rlAccess : bytes;
  rlMessage : bytes;
  rlAction : bytes;
  rlEntities : list bytes;
  rlTrigger : option AITrigger;
  rlHighRisk : bytes;
  rlMediumRisk : bytes;
  rlLowRisk : bytes;
  rlPrompt : bytes;
  rlResources : list bytes;
  rlMethods : list bytes;
  rlStatuses : list bytes;
  rlCompiled : option (bytes -> bool);
}.

(** The builders of builders.go, as one record update. *)
Definition rule_with (r : Rule) (name message : bytes) (resources methods statuses : list bytes)
    (compiled : option (bytes -> bool)) : Rule :=
  {| rlName := name; rlType := rlType r; rlWords := rlWords r; rlPattern := rlPattern r;
     rlOperations := rlOperations r; rlTables := rlTables r;
     rlRequireTableMatch := rlRequireTableMatch r; rlAccess := rlAccess r;
     rlMessage := message; rlAction := rlAction r; rlEntities := rlEntities r;
     rlTrigger := rlTrigger r; rlHighRisk := rlHighRisk r; rlMediumRisk := rlMediumRisk r;
     rlLowRisk := rlLowRisk r; rlPrompt := rlPrompt r; rlResources := resources;
     rlMethods := methods; rlStatuses := statuses; rlCompiled := compiled |}.

Definition WithResources (r : Rule) (patterns : list bytes) : Rule :=
  rule_with r (rlName r) (rlMessage r) patterns (rlMethods r) (rlStatuses r) (rlCompiled r).
Definition WithMethods (r : Rule) (methods : list bytes) : Rule :=
  rule_with r (rlName r) (rlMessage r) (rlResources r) methods (rlStatuses r) (rlCompiled r).
Definition WithStatuses (r : Rule) (statuses : list bytes) : Rule :=
  rule_with r (rlName r) (rlMessage r) (rlResources r) (rlMethods r) statuses (rlCompiled r).
Definition WithMessage (r : Rule) (msg : bytes) : Rule :=
  rule_with r (rlName r) msg (rlResources r) (rlMethods r) (rlStatuses r) (rlCompiled r).

Section HTTP.
Context `{GoUnicode}.

(** ** HTTP matchers (http.go) *)

Fixpoint segments_match (ps rs : list bytes) : bool :=
  match ps, rs with
  | [], [] => true
  | p :: ps', r :: rs' => ((p =s B "*") || EqualFold p r) && segments_match ps' rs'
  | _, _ => false
  end.

Definition matchResource (pattern resource : bytes) : bool :=
  if pattern =s resource then true
  else if HasSuffix pattern (B "/**") then
    let prefix := TrimSuffix pattern (B "/**") in
    (resource =s prefix) || HasPrefix resource (prefix ++ B "/")
  else
    let pSegs := Split1 (TrimByte pattern x2f) x2f in
    let rSegs := Split1 (TrimByte resource x2f) x2f in
    if negb (length pSegs =? length rSegs)%nat then false
    else segments_match pSegs rSegs.

Definition MatchResource (pattern resource : bytes) : bool := matchResource pattern resource.

(** The digit loop of [matchStatus]; [want] is a Go [int]. *)
Fixpoint status_number (spec : bytes) (want : Z) : option Z :=
  match spec with
  | [] => Some want
  | c :: r =>
      if (bval c <? 48)%Z || (57 <? bval c)%Z then None
      else status_number r (wrap_int64 (want * 10 + (bval c - 48)))
  end.

(** [int(spec[0]-'0') * 100] subtracts in a byte. *)
Definition matchStatus (spec : bytes) (code : Z) : bool :=
  let spec := ToLower (TrimSpace spec) in
  if (length spec =? 3)%nat && (byte_at spec 1 =b "x") && (byte_at spec 2 =b "x") then
    let class := ((bval (byte_at spec 0) - 48) mod 256 * 100)%Z in
    (class <=? code)%Z && (code <? class + 100)%Z
  else
    match status_number spec 0 with
    | None => false
    | Some want => (want =? code)%Z
    end.

Definition validStatusSpec (s : bytes) : bool :=
  let s := ToLower (TrimSpace s) in
  if negb (length s =? 3)%nat then false
  else if negb (byte_in "1" "5" (byte_at s 0)) then false
  else if (byte_at s 1 =b "x") && (byte_at s 2 =b "x") then true
  else byte_in "0" "9" (byte_at s 1) && byte_in "0" "9" (byte_at s 2).

Definition methodAllowed (r : Rule) (method : bytes) : bool :=
  match rlMethods r with
  | [] => true
  | ms => existsb (fun m => EqualFold m method) ms
  end.

(** [None] is [ok = false]: not an HTTP rule type. *)
Definition matchesHTTP (r : Rule) (stmt : Statement) : option bool :=
  if negb ((rlType r =s MatchHTTPResource) || (rlType r =s MatchHTTPStatus)) then None
  else
    match stHTTP stmt with
    | None => Some false
    | Some d =>
        if rlType r =s MatchHTTPResource then
          if negb (methodAllowed r (htMethod d)) then Some false
          else Some (existsb (fun p => matchResource p (htResource d)) (rlResources r))
        else
          if (htStatusCode d =? 0)%Z then Some false
          else if negb (methodAllowed r (htMethod d)) then Some false
          else Some (existsb (fun s => matchStatus s (htStatusCode d)) (rlStatuses r))
    end.

(** ** SQL matchers (policy.go) *)

Definition accessMatches (r : Rule) (got : bytes) : bool :=
  if rlAccess r =s [] then true
  else if rlAccess r =s AccessWrite then got =s AccessWrite
  else if rlAccess r =s AccessRead then got =s AccessRead
  else true.

Definition deny_word_in (upper w : bytes) : bool :=
  negb (w =s []) && Contains upper (ToUpper w).

(** [got == want || strings.HasSuffix(got, "."+want)] *)
Definition name_matches (got want : bytes) : bool :=
  (got =s want) || HasSuffix got (B "." ++ want).

Definition table_matches (r : Rule) (stmt : Statement) : bool :=
  match stRelations stmt, stTables stmt with
  | [], [] => rlRequireTableMatch r
  | _, _ =>
      existsb (fun want =>
        let want := ToLower want in
        match stRelations stmt with
        | _ :: _ =>
            existsb (fun got => accessMatches r (relAccess got) && name_matches (relName got) want)
              (stRelations stmt)
        | [] => existsb (fun got => name_matches got want) (stTables stmt)
        end) (rlTables r)
  end.

Definition rule_matches (r : Rule) (stmt : Statement) : PolicyError + bool :=
  match matchesHTTP r stmt with
  | Some matched => inr matched
  | None =>
      if rlType r =s MatchDenyWords then
        let upper := ToUpper (stText stmt) in
        inr (existsb (deny_word_in upper) (rlWords r))
      else if rlType r =s MatchPattern then
        match rlCompiled r with
        | None => inl (NoCompiledPattern (rlName r))
        | Some re => inr (re (stText stmt))
        end
      else if rlType r =s MatchOperation then
        inr (existsb (fun op => stOperation stmt =s op) (rlOperations r))
      else if rlType r =s MatchTable then inr (table_matches r stmt)
      else inl (UnknownRuleType (rlType r))
  end.

(** ** PII rules (pii.go); a nil Scanner is [None] *)

Definition Scanner : Type := bytes -> list bytes.

Definition matchesPII (r : Rule) (stmt : Statement) (s : option Scanner)
    : bool * list bytes :=
  match s with
  | None => (false, [])
  | Some scan =>
      if stText stmt =s [] then (false, [])
      else
        let hit := List.filter (fun f => bool_decide (f ∈ rlEntities r)) (scan (stText stmt)) in
        match hit with
        | [] => (false, [])
        | _ :: _ => (true, sort_Strings hit)
        end
  end.

(** ** Messages and findings of a match *)

Context `{GoLib}.

Definition piiMessage (r : Rule) (entities : list bytes) : bytes :=
  if negb (rlMessage r =s []) then rlMessage r
  else B "statement carries sensitive data (" ++ Join entities (B ", ") ++
       B ") and was denied by rule " ++ fmt_q (rlName r).

Definition messageOr (r : Rule) (stmt : Statement) : bytes :=
  if negb (rlMessage r =s []) then rlMessage r
  else B "statement denied by policy rule " ++ fmt_q (rlName r) ++
       B " (operation=" ++ stOperation stmt ++ B ")".

Definition findingValues (r : Rule) (stmt : Statement) : gmap bytes AnyValue :=
  if negb (rlType r =s MatchDenyWords) then ∅
  else {[ B "words" := VStrings (List.filter (deny_word_in (ToUpper (stText stmt))) (rlWords r)) ]}.

Definition stringsIn (v : option AnyValue) : list bytes :=
  match v with Some (VStrings l) => l | _ => [] end.

Definition appendUnique (dst add : list bytes) : list bytes :=
  fold_left (fun d a => if bool_decide (a ∈ d) then d else d ++ [a]) add dst.

Definition add_value (m : gmap bytes AnyValue) (k : bytes) (v : AnyValue) : gmap bytes AnyValue :=
  match v with
  | VStrings l => <[ k := VStrings (appendUnique (stringsIn (m !! k)) l) ]> m
  | VString _ => <[ k := v ]> m
  end.

Definition recordMatch (into : gmap bytes Finding) (r : Rule) (values : gmap bytes AnyValue)
    : gmap bytes Finding :=
  let f := match into !! rlType r with
           | Some f => f
           | None => {| fSource := rlType r; fRule := rlName r; fStatus := FindingOK;
                        fReason := []; fValues := ∅ |}
           end in
  let vals := <[ B "rules" :=
    VStrings (appendUnique (stringsIn (fValues f !! B "rules")) [rlName r]) ]> (fValues f) in
  let vals := map_fold (fun k v m => add_value m k v) vals values in
  <[ rlType r := {| fSource := fSource f; fRule := fRule f; fStatus := fStatus f;
                    fReason := fReason f; fValues := vals |} ]> into.

(** ** Construction *)

Inductive RuleProblem :=
  | UnknownAction (name action : bytes)
  | DeferOnAI (name : bytes)
  | NoWords (name : bytes)
  | NoPattern (name : bytes)
  | BadPattern (name : bytes)
  | NoOperations (name : bytes)
  | NoTables (name : bytes)
  | UnknownAccess (name access : bytes)
  | PIINeedsScanner (name : bytes)
  | NoEntities (name : bytes)
  | AINotLocal (name : bytes)
  | NoResources (name : bytes)
  | NoStatuses (name : bytes)
  | InvalidStatus (name status : bytes)
  | UnknownType (name type : bytes).

Definition validatePII (r : Rule) (hasScanner : bool) : list RuleProblem :=
  if negb hasScanner then [PIINeedsScanner (rlName r)]
  else match rlEntities r with [] => [NoEntities (rlName r)] | _ => [] end.

Definition validateHTTP (r : Rule) : list RuleProblem :=
  if rlType r =s MatchHTTPResource then
    match rlResources r with [] => [NoResources (rlName r)] | _ => [] end
  else if rlType r =s MatchHTTPStatus then
    match rlStatuses r with
    | [] => [NoStatuses (rlName r)]
    | ss => match List.filter (fun s => negb (validStatusSpec s)) ss with
            | [] => []
            | s :: _ => [InvalidStatus (rlName r) s]
            end
    end
  else [].

(** One iteration of [newRules]: the rule as stored and its problems. *)
Definition check_rule (hasScanner : bool) (i : nat) (r : Rule) : Rule * list RuleProblem :=
  let r := if rlName r =s []
           then rule_with r (B "rule[" ++ itoa (Z.of_nat i) ++ B "]") (rlMessage r)
                  (rlResources r) (rlMethods r) (rlStatuses r) (rlCompiled r)
           else r in
  let p1 := if (rlAction r =s []) || (rlAction r =s ActionDefer) then []
            else [UnknownAction (rlName r) (rlAction r)] in
  let p2 := if (rlAction r =s ActionDefer) && (rlType r =s MatchAIAnalysis)
            then [DeferOnAI (rlName r)] else [] in
  let '(r, p3) :=
    if rlType r =s MatchDenyWords then
      (r, match rlWords r with [] => [NoWords (rlName r)] | _ => [] end)
    else if rlType r =s MatchPattern then
      if rlPattern r =s [] then (r, [NoPattern (rlName r)])
      else match regexp_Compile (rlPattern r) with
           | None => (r, [BadPattern (rlName r)])
           | Some re => (rule_with r (rlName r) (rlMessage r) (rlResources r) (rlMethods r)
                           (rlStatuses r) (Some re), [])
           end
    else if rlType r =s MatchOperation then
      (r, match rlOperations r with [] => [NoOperations (rlName r)] | _ => [] end)
    else if rlType r =s MatchTable then
      (r, (match rlTables r with [] => [NoTables (rlName r)] | _ => [] end) ++
          (if (rlAccess r =s []) || (rlAccess r =s AccessRead) || (rlAccess r =s AccessWrite)
           then [] else [UnknownAccess (rlName r) (rlAccess r)]))
    else if rlType r =s MatchPII then (r, validatePII r hasScanner)
    else if rlType r =s MatchAIAnalysis then (r, [AINotLocal (rlName r)])
    else if (rlType r =s MatchHTTPResource) || (rlType r =s MatchHTTPStatus)
    then (r, validateHTTP r)
    else (r, [UnknownType (rlName r) (rlType r)]) in
  (r, p1 ++ p2 ++ p3).

Fixpoint check_rules (hasScanner : bool) (i : nat) (rs : list Rule)
    : list Rule * list RuleProblem :=
  match rs with
  | [] => ([], [])
  | r :: rest =>
      let '(r', p) := check_rule hasScanner i r in
      let '(out, ps) := check_rules hasScanner (i + 1) rest in
      (r' :: out, p ++ ps)
  end.

Record Rules := {
  rsRules : list Rule;
  rsScanner : option Scanner;
  rsFailOpen : bool;
}.

Definition newRules (rs : list Rule) (hasScanner : bool) : list RuleProblem + Rules :=
  let '(out, problems) := check_rules hasScanner 0 rs in
  match problems with
  | [] => inr {| rsRules := out; rsScanner := None; rsFailOpen := false |}
  | _ => inl problems
  end.

Definition NewRules (rs : list Rule) : list RuleProblem + Rules := newRules rs false.

Definition NewRulesWithScanner (rs : list Rule) (s : option Scanner)
    : list RuleProblem + Rules :=
  match newRules rs (match s with Some _ => true | None => false end) with
  | inl p => inl p
  | inr R => inr {| rsRules := rsRules R; rsScanner := s; rsFailOpen := rsFailOpen R |}
  end.

(** ** Evaluation *)

(** The rule loop: the findings deferred so far, and the verdict. *)
Fixpoint rules_loop (scanner : option Scanner) (failOpen : bool) (stmt : Statement)
    (rs : list Rule) (deferred : gmap bytes Finding) : gmap bytes Finding * Verdict :=
  match rs with
  | [] => (deferred, Allow)
  | rule :: rest =>
      if rlType rule =s MatchPII then
        let '(hit, entities) := matchesPII rule stmt scanner in
        if negb hit then rules_loop scanner failOpen stmt rest deferred
        else if rlAction rule =s ActionDefer then
          rules_loop scanner failOpen stmt rest
            (recordMatch deferred rule {[ B "entities" := VStrings entities ]})
        else (deferred, Deny (rlName rule) (piiMessage rule entities))
      else
        match rule_matches rule stmt with
        | inl err =>
            if failOpen then
              (deferred, {| vDenied := false; vMessage := []; vRule := []; vErr := [err];
                            vAnnotations := ∅ |})
            else
              (deferred, {| vDenied := true; vMessage := B "policy evaluation failed; denying";
                            vRule := rlName rule; vErr := [err]; vAnnotations := ∅ |})
        | inr false => rules_loop scanner failOpen stmt rest deferred
        | inr true =>
            if rlAction rule =s ActionDefer then
              rules_loop scanner failOpen stmt rest
                (recordMatch deferred rule (findingValues rule stmt))
            else (deferred, Deny (rlName rule) (messageOr rule stmt))
        end
  end.

(** [EvaluateWith]; the deferred flush runs on every exit. *)
Definition Rules_EvaluateWith (R : Rules) (stmt : Statement) (ec : EvalContext)
    : EvalContext * Verdict :=
  let '(deferred, v) := rules_loop (rsScanner R) (rsFailOpen R) stmt (rsRules R) ∅ in
  (map_fold (fun _ f ec => AddFinding ec f) ec deferred, v).

Definition Rules_Evaluate (R : Rules) (stmt : Statement) : Verdict :=
  (Rules_EvaluateWith R stmt empty_context).2.
End HTTP.

(** ** Chains *)

(** A [ContextualEvaluator] reads and writes the context; any other
    [Evaluator] sees the statement only. *)
Inductive Evaluator :=
  | Plain (f : Statement -> Verdict)
  | Contextual (f : Statement -> EvalContext -> EvalContext * Verdict).

Definition AnnotationRiskLevel : bytes := B "risk_level".
Definition AnnotationRiskAction : bytes := B "risk_action".

Definition riskRank (level : bytes) : Z :=
  if level =s B "high" then 3
  else if level =s B "medium" then 2
  else if level =s B "low" then 1
  else 0.

Definition mergeAnnotations (dst src : gmap bytes bytes) : gmap bytes bytes :=
  if bool_decide (src = ∅) then dst
  else
    let dst := delete AnnotationRiskLevel (delete AnnotationRiskAction src) ∪ dst in
    match src !! AnnotationRiskLevel with
    | None =>
        match src !! AnnotationRiskAction with
        | Some action => <[ AnnotationRiskAction := action ]> dst
        | None => dst
        end
    | Some incoming =>
        if (riskRank incoming <=? riskRank (default [] (dst !! AnnotationRiskLevel)))%Z then dst
        else
          let dst := <[ AnnotationRiskLevel := incoming ]> dst in
          match src !! AnnotationRiskAction with
          | Some action => <[ AnnotationRiskAction := action ]> dst
          | None => delete AnnotationRiskAction dst
          end
    end.

Definition run_evaluator (e : Evaluator) (stmt : Statement) (ec : EvalContext)
    : EvalContext * Verdict :=
  match e with
  | Plain f => (ec, f stmt)
  | Contextual f => f stmt ec
  end.

(** [Chain.EvaluateWith] with the errors joined so far. *)
Fixpoint chain_loop (c : list Evaluator) (stmt : Statement) (ec : EvalContext)
    (errs : list PolicyError) : EvalContext * Verdict :=
  match c with
  | [] => (ec, {| vDenied := false; vMessage := []; vRule := []; vErr := errs;
                  vAnnotations := ecAnnotations ec |})
  | e :: rest =>
      let '(ec, v) := run_evaluator e stmt ec in
      let ec := set_annotations ec (mergeAnnotations (ecAnnotations ec) (vAnnotations v)) in
      if vDenied v then
        (ec, {| vDenied := true; vMessage := vMessage v; vRule := vRule v;
                vErr := errs ++ vErr v; vAnnotations := ecAnnotations ec |})
      else chain_loop rest stmt ec (errs ++ vErr v)
  end.

Definition Chain_EvaluateWith (c : list Evaluator) (stmt : Statement) (ec : EvalContext)
    : EvalContext * Verdict := chain_loop c stmt ec [].

Definition Chain_Evaluate (c : list Evaluator) (stmt : Statement) : Verdict :=
  (Chain_EvaluateWith c stmt empty_context).2.

(** A chain is itself a contextual evaluator, and so is a rule set. *)
Definition chain_evaluator (c : list Evaluator) : Evaluator := Contextual (Chain_EvaluateWith c).
Definition rules_evaluator `{GoUnicode} `{GoLib} (R : Rules) : Evaluator :=
  Contextual (Rules_EvaluateWith R).
