(* ===== verification/PolicyProps.v ===== *)
(** * What policy evaluation promises

    A rule set that was accepted never fails at run time; the first rule that
    denies decides and deferring rules only report; a chain denies exactly when
    one of its evaluators does; annotations and findings merge towards the
    worse reading. *)

From S2P Require Import Prelude GoStrings GoText Types Policy.

Section RuleSets.
Context `{GoUnicode} `{GoLib}.

(** ** Accepted rules *)

(** What construction leaves of a rule: a type the rule set evaluates, and a
    compiled pattern where one is needed. *)
Definition rule_ready (r : Rule) : Prop :=
  rlType r = MatchDenyWords \/ (rlType r = MatchPattern /\ rlCompiled r <> None) \/
  rlType r = MatchOperation \/ rlType r = MatchTable \/ rlType r = MatchPII \/
  rlType r = MatchHTTPResource \/ rlType r = MatchHTTPStatus.

Lemma check_rule_ready hasScanner i r r' :
  check_rule hasScanner i r = (r', []) -> rule_ready r'.
Proof.
  unfold check_rule. set (r0 := if rlName r =s [] then _ else r). unfold rule_ready.
  destruct (rlType r0 =s MatchDenyWords) eqn:E1.
  { intros [= <- _]. apply seqb_eq in E1. by left. }
  destruct (rlType r0 =s MatchPattern) eqn:E2.
  { apply seqb_eq in E2. destruct (rlPattern r0 =s []).
    { intros [= <- Hp]. by repeat (apply app_nil in Hp as [_ Hp]). }
    destruct (regexp_Compile (rlPattern r0)).
    - intros [= <- _]. right. left. split; [exact E2|done].
    - intros [= <- Hp]. by repeat (apply app_nil in Hp as [_ Hp]). }
  destruct (rlType r0 =s MatchOperation) eqn:E3.
  { intros [= <- _]. apply seqb_eq in E3. tauto. }
  destruct (rlType r0 =s MatchTable) eqn:E4.
  { intros [= <- _]. apply seqb_eq in E4. tauto. }
  destruct (rlType r0 =s MatchPII) eqn:E5.
  { intros [= <- _]. apply seqb_eq in E5. tauto. }
  destruct (rlType r0 =s MatchAIAnalysis) eqn:E6.
  { intros [= <- Hp]. by repeat (apply app_nil in Hp as [_ Hp]). }
  destruct ((rlType r0 =s MatchHTTPResource) || (rlType r0 =s MatchHTTPStatus)) eqn:E7.
  { intros [= <- _]. apply orb_true_iff in E7 as [E7|E7]; apply seqb_eq in E7; tauto. }
  intros [= <- Hp]. by repeat (apply app_nil in Hp as [_ Hp]).
Qed.

Lemma check_rules_ready hasScanner i rs out :
  check_rules hasScanner i rs = (out, []) -> Forall rule_ready out.
Proof.
  revert i out. induction rs as [|r rs IH]; intros i out; simpl; [by intros [= <-]|].
  destruct (check_rule hasScanner i r) as [r' p] eqn:E.
  destruct (check_rules hasScanner (i + 1) rs) as [out' ps] eqn:E'.
  intros [= <- Hp]. apply app_nil in Hp as [-> ->].
  constructor; [by eapply check_rule_ready|by eapply IH].
Qed.

Lemma newRules_ready rs s R :
  NewRulesWithScanner rs s = inr R -> Forall rule_ready (rsRules R).
Proof.
  unfold NewRulesWithScanner, newRules.
  destruct (check_rules _ 0 rs) as [out ps] eqn:E. destruct ps; [|done].
  intros [= <-]. by eapply check_rules_ready.
Qed.

Lemma ready_matches r stmt :
  rule_ready r -> rlType r <> MatchPII -> exists b, rule_matches r stmt = inr b.
Proof.
  intros Hr Hp. unfold rule_matches, matchesHTTP.
  destruct Hr as [E|[[E Hc]|[E|[E|[E|[E|E]]]]]]; rewrite E in *; simpl;
    try (eexists; reflexivity).
  - destruct (rlCompiled r); [eexists; reflexivity|done].
  - done.
  - repeat case_match; simplify_eq; eexists; reflexivity.
  - repeat case_match; simplify_eq; eexists; reflexivity.
Qed.

(** ** What one rule does *)

Inductive outcome := Passes | Defers (vals : gmap bytes AnyValue) | Denies (msg : bytes)
  | Breaks (err : PolicyError).

(** The outcome of a rule on a statement. *)
Definition rule_outcome (scanner : option Scanner) (stmt : Statement) (r : Rule) : outcome :=
  if rlType r =s MatchPII then
    let '(hit, entities) := matchesPII r stmt scanner in
    if negb hit then Passes
    else if rlAction r =s ActionDefer then Defers {[ B "entities" := VStrings entities ]}
    else Denies (piiMessage r entities)
  else
    match rule_matches r stmt with
    | inl err => Breaks err
    | inr false => Passes
    | inr true =>
        if rlAction r =s ActionDefer then Defers (findingValues r stmt)
        else Denies (messageOr r stmt)
    end.

Definition goes_on (scanner : option Scanner) (stmt : Statement) (r : Rule) : Prop :=
  match rule_outcome scanner stmt r with Passes | Defers _ => True | _ => False end.

Lemma rules_loop_cons scanner fo stmt r rs d :
  rules_loop scanner fo stmt (r :: rs) d =
  match rule_outcome scanner stmt r with
  | Passes => rules_loop scanner fo stmt rs d
  | Defers vals => rules_loop scanner fo stmt rs (recordMatch d r vals)
  | Denies msg => (d, Deny (rlName r) msg)
  | Breaks err => (d, {| vDenied := negb fo;
      vMessage := if fo then [] else B "policy evaluation failed; denying";
      vRule := if fo then [] else rlName r; vErr := [err]; vAnnotations := ∅ |})
  end.
Proof.
  cbn [rules_loop]. unfold rule_outcome. destruct (rlType r =s MatchPII).
  - destruct (matchesPII r stmt scanner) as [[] entities]; simpl; [|done]. by case_match.
  - destruct (rule_matches r stmt) as [err|[]]; [by destruct fo| |done]. by case_match.
Qed.

Lemma ready_outcome scanner stmt r :
  rule_ready r -> match rule_outcome scanner stmt r with Breaks _ => False | _ => True end.
Proof.
  intros Hr. unfold rule_outcome. destruct (rlType r =s MatchPII) eqn:E.
  - destruct (matchesPII r stmt scanner) as [[] ?]; simpl; [|done]. by destruct (rlAction r =s ActionDefer).
  - apply bool_decide_eq_false in E. destruct (ready_matches r stmt Hr E) as [[] ->]; [|done].
    by destruct (rlAction r =s ActionDefer).
Qed.

Lemma rules_loop_verdict scanner fo stmt rs d :
  Forall rule_ready rs ->
  (Forall (goes_on scanner stmt) rs /\ (rules_loop scanner fo stmt rs d).2 = Allow) \/
  (exists pre r post msg, rs = pre ++ r :: post /\ Forall (goes_on scanner stmt) pre /\
     rule_outcome scanner stmt r = Denies msg /\
     (rules_loop scanner fo stmt rs d).2 = Deny (rlName r) msg).
Proof.
  revert d. induction rs as [|r rs IH]; intros d Hok; [by left|].
  apply Forall_cons in Hok as [Hr Hok]. rewrite rules_loop_cons.
  pose proof (ready_outcome scanner stmt r Hr) as Hb.
  destruct (rule_outcome scanner stmt r) as [|vals|msg|err] eqn:E; [| | |done].
  - destruct (IH d Hok) as [[H1 H2]|(pre & r' & post & msg & -> & H1 & H2 & H3)].
    + left. split; [|done]. constructor; [|done]. unfold goes_on. by rewrite E.
    + right. exists (r :: pre), r', post, msg. repeat split; try done. constructor; [|done].
      unfold goes_on. by rewrite E.
  - destruct (IH (recordMatch d r vals) Hok) as [[H1 H2]|(pre & r' & post & msg & -> & H1 & H2 & H3)].
    + left. split; [|done]. constructor; [|done]. unfold goes_on. by rewrite E.
    + right. exists (r :: pre), r', post, msg. repeat split; try done. constructor; [|done].
      unfold goes_on. by rewrite E.
  - right. exists [], r, rs, msg. done.
Qed.

(** ** Deferred findings *)

Definition names_of (f : Finding) : list bytes := stringsIn (fValues f !! B "rules").

(** Every collected finding sits under its own source. *)
Definition keyed (d : gmap bytes Finding) : Prop :=
  forall t f, d !! t = Some f -> fSource f = t.

(** The rule named [n] is reported under the type [t]. *)
Definition reported (d : gmap bytes Finding) (t n : bytes) : Prop :=
  exists f, d !! t = Some f /\ n ∈ names_of f.

Lemma appendUnique_elem dst add n :
  n ∈ appendUnique dst add <-> n ∈ dst \/ n ∈ add.
Proof.
  unfold appendUnique. revert dst. induction add as [|a add IH]; intros dst; simpl.
  { rewrite elem_of_nil. naive_solver. }
  rewrite IH, elem_of_cons. case_bool_decide; [naive_solver|].
  rewrite elem_of_app, list_elem_of_singleton. naive_solver.
Qed.

(** Adding payload values keeps the rule names already reported. *)
Lemma add_values_names (vals m : gmap bytes AnyValue) n :
  n ∈ stringsIn (m !! B "rules") -> vals !! B "rules" = None ->
  n ∈ stringsIn (map_fold (fun k v m => add_value m k v) m vals !! B "rules").
Proof.
  intros Hn. 
  apply (map_fold_weak_ind (fun m' vals => vals !! B "rules" = None ->
    n ∈ stringsIn (m' !! B "rules"))); [done|].
  intros k v vals' m' Hk IH Hv. rewrite lookup_insert_None in Hv. destruct Hv as [Hv Hne].
  specialize (IH Hv). unfold add_value. destruct v; by rewrite lookup_insert_ne.
Qed.

Lemma recordMatch_reports d r vals :
  vals !! B "rules" = None -> keyed d ->
  keyed (recordMatch d r vals) /\ reported (recordMatch d r vals) (rlType r) (rlName r) /\
  (forall t n, reported d t n -> reported (recordMatch d r vals) t n).
Proof.
  intros Hv Hk. unfold recordMatch.
  set (f := match d !! rlType r with Some f => f | None => _ end).
  assert (fSource f = rlType r) as Hs.
  { unfold f. destruct (d !! rlType r) eqn:E; [by apply Hk|done]. }
  set (vals0 := <[ B "rules" := _ ]> (fValues f)). split; [|split].
  - intros t g. rewrite lookup_insert_Some. intros [[<- <-]|[_ Hg]]; [done|by apply Hk].
  - eexists. rewrite lookup_insert_eq. split; [done|]. unfold names_of. simpl.
    apply add_values_names; [|done]. unfold vals0. rewrite lookup_insert_eq. cbn [stringsIn].
    apply appendUnique_elem. right. by apply list_elem_of_singleton.
  - intros t n (g & Hg & Hn). destruct (decide (t = rlType r)) as [->|Hne].
    + eexists. rewrite lookup_insert_eq. split; [done|]. unfold names_of. simpl.
      apply add_values_names; [|done]. unfold vals0. rewrite lookup_insert_eq. cbn [stringsIn].
      apply appendUnique_elem. left. unfold f. by rewrite Hg.
    + exists g. by rewrite lookup_insert_ne.
Qed.

Lemma outcome_values scanner stmt r vals :
  rule_outcome scanner stmt r = Defers vals -> vals !! B "rules" = None.
Proof.
  unfold rule_outcome, findingValues. intros E.
  repeat case_match; simplify_eq; try apply lookup_empty; by rewrite lookup_singleton_ne.
Qed.

Lemma rules_loop_reports scanner fo stmt rs d :
  keyed d ->
  keyed (rules_loop scanner fo stmt rs d).1 /\
  (forall t n, reported d t n -> reported (rules_loop scanner fo stmt rs d).1 t n).
Proof.
  revert d. induction rs as [|r rs IH]; intros d Hk; [done|]. rewrite rules_loop_cons.
  destruct (rule_outcome scanner stmt r) as [|vals|msg|err] eqn:E; try done; [by apply IH|].
  destruct (recordMatch_reports d r vals (outcome_values _ _ _ _ E) Hk) as (H1 & _ & H3).
  destruct (IH _ H1) as [H4 H5]. split; [done|]. auto.
Qed.

(** Rules that go on leave the decision to the rest. *)
Lemma rules_loop_skip scanner fo stmt pre rs d :
  Forall (goes_on scanner stmt) pre -> keyed d ->
  exists d', keyed d' /\
    rules_loop scanner fo stmt (pre ++ rs) d = rules_loop scanner fo stmt rs d'.
Proof.
  revert d. induction pre as [|q pre IH]; intros d Hp Hk; [by exists d|].
  apply Forall_cons in Hp as [Hq Hp]. cbn [app]. rewrite rules_loop_cons. unfold goes_on in Hq.
  destruct (rule_outcome scanner stmt q) eqn:Eq; try done; [by apply IH|].
  apply IH; [done|]. by apply recordMatch_reports; [eapply outcome_values|].
Qed.

(** Flushing into a context without findings keeps the reports. *)
Lemma flush_reports (d : gmap bytes Finding) ec :
  keyed d -> ecFindings ec = ∅ ->
  forall t, ecFindings (map_fold (fun _ f ec => AddFinding ec f) ec d) !! t = d !! t.
Proof.
  intros Hk He. revert Hk.
  apply (map_fold_weak_ind (fun ec' d => keyed d -> forall t, ecFindings ec' !! t = d !! t)).
  { intros _ t. by rewrite He, !lookup_empty. }
  intros s f d' ec' Hs IH Hk t.
  assert (keyed d') as Hk'.
  { intros t' g Hg. apply Hk. rewrite lookup_insert_ne; [done|]. intros <-. congruence. }
  specialize (IH Hk'). assert (fSource f = s) as Hfs by (apply Hk; apply lookup_insert_eq).
  unfold AddFinding. rewrite Hfs, IH, Hs. cbn [ecFindings]. rewrite Hfs.
  destruct (decide (s = t)) as [->|Hne]; [by rewrite !lookup_insert_eq|].
  by rewrite !lookup_insert_ne.
Qed.

(** ** Table rules *)

Lemma accessMatches_write r a :
  rlAccess r = AccessWrite -> accessMatches r a = true <-> a = AccessWrite.
Proof. intros Ha. unfold accessMatches. rewrite Ha. simpl. apply seqb_eq. Qed.

(** A table rule matches on some relation under some of its names. *)
Lemma table_rule_matches r stmt :
  rlType r = MatchTable -> stRelations stmt <> [] ->
  rule_matches r stmt = inr true <->
  exists rel want, rel ∈ stRelations stmt /\ accessMatches r (relAccess rel) = true /\
    want ∈ rlTables r /\ name_matches (relName rel) (ToLower want) = true.
Proof.
  intros Ht Hr. unfold rule_matches, matchesHTTP. rewrite Ht. simpl.
  assert (table_matches r stmt = existsb (fun want =>
    existsb (fun got => accessMatches r (relAccess got) && name_matches (relName got) (ToLower want))
      (stRelations stmt)) (rlTables r)) as ->.
  { unfold table_matches. by destruct (stRelations stmt). }
  split.
  - intros [= (want & Hw & Hx)%existsb_exists]. apply existsb_exists in Hx as (rel & Hrel & Hb).
    apply andb_true_iff in Hb as [Hb1 Hb2]. exists rel, want. by rewrite !list_elem_of_In.
  - intros (rel & want & Hrel & Hw & Hwant & Hn). f_equal. apply existsb_exists.
    exists want. split; [by apply list_elem_of_In|]. apply existsb_exists.
    exists rel. split; [by apply list_elem_of_In|]. by rewrite Hw, Hn.
Qed.

(** A rule of an accepted set that denies a statement gets it denied. *)
Lemma denying_rule_denies rs s R stmt ec r msg :
  NewRulesWithScanner rs s = inr R -> r ∈ rsRules R ->
  rule_outcome (rsScanner R) stmt r = Denies msg ->
  vDenied (Rules_EvaluateWith R stmt ec).2 = true.
Proof.
  intros Hr%newRules_ready Hin Ho. unfold Rules_EvaluateWith.
  pose proof (rules_loop_verdict (rsScanner R) (rsFailOpen R) stmt (rsRules R) ∅ Hr) as Hv.
  destruct (rules_loop _ _ _ _ _) as [d v]. cbn [snd] in *.
  destruct Hv as [[Hall ->]|(? & ? & ? & ? & _ & _ & _ & ->)]; [|done].
  rewrite Forall_forall in Hall. specialize (Hall _ Hin). unfold goes_on in Hall.
  by rewrite Ho in Hall.
Qed.

(** ** Properties of rule sets *)

(** Validation is complete: a rule set that the constructor accepted
    never fails to evaluate, on any statement and in any context. *)
Theorem accepted_rules_never_fail rs s R stmt ec :
  NewRulesWithScanner rs s = inr R ->
  vErr (Rules_EvaluateWith R stmt ec).2 = [].
Proof.
  intros Hr%newRules_ready. unfold Rules_EvaluateWith.
  pose proof (rules_loop_verdict (rsScanner R) (rsFailOpen R) stmt (rsRules R) ∅ Hr) as Hv.
  destruct (rules_loop _ _ _ _ _) as [d v]. cbn [snd] in *.
  destruct Hv as [[_ ->]|(? & ? & ? & ? & _ & _ & _ & ->)]; done.
Qed.

(** First denial wins: an accepted rule set denies a statement exactly
    when some rule denies it while every rule before it passes or defers, and
    then the verdict carries that rule's name and message; otherwise the
    statement is allowed. *)
Theorem first_denial_wins rs s R stmt ec :
  NewRulesWithScanner rs s = inr R ->
  (vDenied (Rules_EvaluateWith R stmt ec).2 = true <->
     exists pre r post msg, rsRules R = pre ++ r :: post /\
       Forall (goes_on (rsScanner R) stmt) pre /\
       rule_outcome (rsScanner R) stmt r = Denies msg /\
       (Rules_EvaluateWith R stmt ec).2 = Deny (rlName r) msg) /\
  (vDenied (Rules_EvaluateWith R stmt ec).2 = false ->
     (Rules_EvaluateWith R stmt ec).2 = Allow).
Proof.
  intros Hr%newRules_ready. unfold Rules_EvaluateWith.
  pose proof (rules_loop_verdict (rsScanner R) (rsFailOpen R) stmt (rsRules R) ∅ Hr) as Hv.
  destruct (rules_loop _ _ _ _ _) as [d v]. cbn [snd] in *.
  destruct Hv as [[Hall ->]|(pre & r & post & msg & Hrs & Hp & Ho & ->)].
  - split; [|done]. split; [done|].
    intros (pre & r & post & msg & Hrs & _ & Ho & _). rewrite Hrs in Hall.
    apply Forall_app in Hall as [_ Hall]. apply Forall_cons in Hall as [Hg _].
    unfold goes_on in Hg. by rewrite Ho in Hg.
  - split; [|done]. split; [|done]. intros _. by exists pre, r, post, msg.
Qed.

(** What a deferring rule found is reported whatever happens later: if a
    rule defers and every rule before it passes or defers, the finding of its
    type is in the context afterwards and names the rule, even when a later
    rule denies the statement. *)
Theorem deferred_match_is_reported R stmt ec pre r post vals :
  rsRules R = pre ++ r :: post -> Forall (goes_on (rsScanner R) stmt) pre ->
  rule_outcome (rsScanner R) stmt r = Defers vals -> ecFindings ec = ∅ ->
  exists f, ec_Finding (Rules_EvaluateWith R stmt ec).1 (rlType r) = Some f /\
    rlName r ∈ names_of f.
Proof.
  intros Hrs Hp Ho He. unfold Rules_EvaluateWith, ec_Finding. rewrite Hrs.
  destruct (rules_loop_skip (rsScanner R) (rsFailOpen R) stmt pre (r :: post) ∅ Hp)
    as (d' & Hk' & ->); [done|]. rewrite rules_loop_cons, Ho.
  destruct (recordMatch_reports d' r vals (outcome_values _ _ _ _ Ho) Hk') as (H1 & H2 & _).
  destruct (rules_loop_reports (rsScanner R) (rsFailOpen R) stmt post _ H1) as [H3 H4].
  specialize (H4 _ _ H2). destruct (rules_loop _ _ _ post _) as [d v]. cbn [fst] in *.
  destruct H4 as (f & Hf & Hn). exists f. split; [|done]. by rewrite flush_reports.
Qed.

(** A table rule restricted to writes fires exactly on written
    relations: given the relations of a statement, it matches if and only if
    some relation with write access has one of the rule's names, bare or
    schema-qualified; reading a protected table never trips it. *)
Theorem write_rule_fires_on_writes r stmt :
  rlType r = MatchTable -> rlAccess r = AccessWrite -> stRelations stmt <> [] ->
  rule_matches r stmt = inr true <->
  exists rel want, rel ∈ stRelations stmt /\ relAccess rel = AccessWrite /\
    want ∈ rlTables r /\ name_matches (relName rel) (ToLower want) = true.
Proof.
  intros Ht Ha Hr. rewrite (table_rule_matches r stmt Ht Hr).
  split; intros (rel & want & H1 & H2 & H3); exists rel, want;
    by rewrite (accessMatches_write r _ Ha) in *.
Qed.
End RuleSets.

(** ** Findings *)

(** Merging findings keeps the more degraded status and never loses an
    answer: the rank of the merged status is the larger of the two, and if
    either side was answered the merged values and rule are those of an
    answered side. *)
Theorem finding_merge_keeps_answers f g :
  FindingRank (fStatus (Merge f g)) = Z.max (FindingRank (fStatus f)) (FindingRank (fStatus g)) /\
  (Answered f || Answered g = true ->
     exists h, (h = f \/ h = g) /\ Answered h = true /\
       fValues (Merge f g) = fValues h /\ fRule (Merge f g) = fRule h).
Proof.
  assert (forall h, Answered h = true -> FindingRank (fStatus h) = 1%Z) as Hrank.
  { intros h. unfold Answered. intros [E|E]%orb_true_iff; apply seqb_eq in E; by rewrite E. }
  assert (forall h, Answered h = false -> FindingRank (fStatus h) <> 1%Z) as Hrank'.
  { intros h. unfold Answered, FindingRank. intros [E1 E2]%orb_false_iff.
    rewrite E1, E2. repeat case_match; done. }
  unfold Merge. destruct (FindingRank (fStatus f) <? FindingRank (fStatus g))%Z eqn:E; bool_hyps.
  - destruct (Answered g) eqn:Eg, (Answered f) eqn:Ef; cbn [negb andb orb];
      (split; [simpl; lia|]); intros; try done.
    + exists g. auto.
    + exists g. auto.
    + exists f. auto.
  - destruct (Answered g) eqn:Eg, (Answered f) eqn:Ef; cbn [negb andb orb];
      (split; [simpl; lia|]); intros; try done.
    + exists f. auto.
    + exists g. auto.
    + exists f. auto.
Qed.

(** ** Annotations *)

(** The risk level and the action recorded beside it. *)
Definition risk_pair (m : gmap bytes bytes) : option bytes * option bytes :=
  (m !! AnnotationRiskLevel, m !! AnnotationRiskAction).

Definition level_rank (m : gmap bytes bytes) : Z :=
  riskRank (default [] (m !! AnnotationRiskLevel)).

Lemma level_ne_action : AnnotationRiskLevel <> AnnotationRiskAction.
Proof. done. Qed.

(** The risk entries of the base the pair is folded into are the incumbent's. *)
Lemma merge_base_risk (dst src : gmap bytes bytes) k :
  k = AnnotationRiskLevel \/ k = AnnotationRiskAction ->
  (delete AnnotationRiskLevel (delete AnnotationRiskAction src) ∪ dst) !! k = dst !! k.
Proof.
  intros Hk. apply lookup_union_r. destruct Hk as [->| ->].
  - apply lookup_delete_eq.
  - rewrite lookup_delete_ne by done. apply lookup_delete_eq.
Qed.

(** Risk merges highest-wins and as a pair: when the incoming annotations
    carry a risk level, the merged level has the larger of the two ranks and
    level and action come together from one side, the incumbent on a tie; any
    other key takes the incoming value where there is one. *)
Theorem risk_merges_as_pair dst src level :
  src !! AnnotationRiskLevel = Some level ->
  level_rank (mergeAnnotations dst src) = Z.max (level_rank dst) (riskRank level) /\
  risk_pair (mergeAnnotations dst src) =
    (if (riskRank level <=? level_rank dst)%Z then risk_pair dst else risk_pair src) /\
  (forall k, k <> AnnotationRiskLevel -> k <> AnnotationRiskAction ->
     mergeAnnotations dst src !! k = union (src !! k) (dst !! k)).
Proof.
  intros Hl. unfold mergeAnnotations. rewrite bool_decide_false.
  2: { intros ->. by rewrite lookup_empty in Hl. }
  rewrite Hl. set (base := delete AnnotationRiskLevel _ ∪ dst).
  assert (base !! AnnotationRiskLevel = dst !! AnnotationRiskLevel) as Hb1
    by (apply merge_base_risk; by left).
  assert (base !! AnnotationRiskAction = dst !! AnnotationRiskAction) as Hb2
    by (apply merge_base_risk; by right).
  assert (forall k, k <> AnnotationRiskLevel -> k <> AnnotationRiskAction ->
    base !! k = union (src !! k) (dst !! k)) as Hb3.
  { intros k H1 H2. unfold base. rewrite lookup_union, !lookup_delete_ne by done. done. }
  rewrite Hb1. fold (level_rank dst).
  destruct (riskRank level <=? level_rank dst)%Z eqn:E; bool_hyps.
  - unfold level_rank, risk_pair in *. rewrite Hb1, Hb2. split; [lia|]. done.
  - unfold risk_pair. rewrite Hl.
    destruct (src !! AnnotationRiskAction) as [action|] eqn:Ea; unfold level_rank in *.
    + rewrite (lookup_insert_ne _ AnnotationRiskAction AnnotationRiskLevel), !lookup_insert_eq by done.
      split; [simpl; lia|]. split; [done|]. intros k H1 H2. rewrite !lookup_insert_ne by done.
      by apply Hb3.
    + rewrite (lookup_delete_ne _ AnnotationRiskAction AnnotationRiskLevel) by done.
      rewrite lookup_insert_eq, lookup_delete_eq.
      split; [simpl; lia|]. split; [done|]. intros k H1 H2.
      rewrite lookup_delete_ne, lookup_insert_ne by done. by apply Hb3.
Qed.

(** ** Chains *)

Lemma chain_loop_app c1 c2 stmt ec errs :
  chain_loop (c1 ++ c2) stmt ec errs =
  let '(ec1, v1) := chain_loop c1 stmt ec errs in
  if vDenied v1 then (ec1, v1) else chain_loop c2 stmt ec1 (vErr v1).
Proof.
  revert ec errs. induction c1 as [|e c1 IH]; intros ec errs; [done|].
  cbn [app chain_loop]. destruct (run_evaluator e stmt ec) as [ec' v].
  destruct (vDenied v) eqn:E; [done|]. apply IH.
Qed.

Lemma chain_loop_denied c stmt ec errs :
  vDenied (chain_loop c stmt ec errs).2 = true ->
  exists pre e post ec' v, c = pre ++ e :: post /\
    vDenied (chain_loop pre stmt ec errs).2 = false /\
    run_evaluator e stmt (chain_loop pre stmt ec errs).1 = (ec', v) /\ vDenied v = true.
Proof.
  revert ec errs. induction c as [|e c IH]; intros ec errs; [done|]. cbn [chain_loop].
  destruct (run_evaluator e stmt ec) as [ec1 v1] eqn:Er. destruct (vDenied v1) eqn:Ev.
  - intros _. by exists [], e, c, ec1, v1.
  - intros (pre & e' & post & ec' & v & -> & H1 & H2 & H3)%IH.
    exists (e :: pre), e', post, ec', v. split; [done|]. cbn [chain_loop]. by rewrite Er, Ev.
Qed.

(** Only a denial stops a chain: the chain denies exactly when one of its
    evaluators denies in the context left by the evaluators before it, none of
    which denied; errors of fail-open evaluators before it neither stop nor
    hide the denial, and the verdict carries the denier's rule and message and
    every error collected on the way. *)
Theorem chain_denies_at_first_denial c stmt ec :
  vDenied (Chain_EvaluateWith c stmt ec).2 = true <->
  exists pre e post ec' v, c = pre ++ e :: post /\
    vDenied (Chain_EvaluateWith pre stmt ec).2 = false /\
    run_evaluator e stmt (Chain_EvaluateWith pre stmt ec).1 = (ec', v) /\ vDenied v = true /\
    vRule (Chain_EvaluateWith c stmt ec).2 = vRule v /\
    vMessage (Chain_EvaluateWith c stmt ec).2 = vMessage v /\
    vErr (Chain_EvaluateWith c stmt ec).2 = vErr (Chain_EvaluateWith pre stmt ec).2 ++ vErr v.
Proof.
  unfold Chain_EvaluateWith. split.
  - intros (pre & e & post & ec' & v & -> & H1 & H2 & H3)%chain_loop_denied.
    exists pre, e, post, ec', v. rewrite chain_loop_app.
    destruct (chain_loop pre stmt ec []) as [ec1 v1]. cbn [fst snd] in *. rewrite H1.
    cbn [chain_loop]. rewrite H2, H3. done.
  - intros (pre & e & post & ec' & v & -> & H1 & H2 & H3 & _). rewrite chain_loop_app.
    destruct (chain_loop pre stmt ec []) as [ec1 v1]. cbn [fst snd] in *. rewrite H1.
    cbn [chain_loop]. by rewrite H2, H3.
Qed.

(** ** Witnesses *)

#[local] Existing Instance ascii_only.
#[local] Existing Instance plain_lib.

(** A deferring word rule and a denying write rule. *)
Definition defer_words : Rule :=
  {| rlName := B "words"; rlType := MatchDenyWords; rlWords := [B "drop"]; rlPattern := [];
     rlOperations := []; rlTables := []; rlRequireTableMatch := false; rlAccess := [];
     rlMessage := []; rlAction := ActionDefer; rlEntities := []; rlTrigger := None;
     rlHighRisk := []; rlMediumRisk := []; rlLowRisk := []; rlPrompt := []; rlResources := [];
     rlMethods := []; rlStatuses := []; rlCompiled := None |}.
Definition no_writes : Rule :=
  {| rlName := B "ro"; rlType := MatchTable; rlWords := []; rlPattern := [];
     rlOperations := []; rlTables := [B "Customers"]; rlRequireTableMatch := false;
     rlAccess := AccessWrite; rlMessage := B "read only"; rlAction := []; rlEntities := [];
     rlTrigger := None; rlHighRisk := []; rlMediumRisk := []; rlLowRisk := []; rlPrompt := [];
     rlResources := []; rlMethods := []; rlStatuses := []; rlCompiled := None |}.

Definition drop_customers : Statement :=
  {| stProtocol := Protocol.Postgres; stDirection := FromClient;
     stText := B "DROP TABLE public.customers"; stOperation := OpDrop; stEffects := [OpDrop];
     stRelations := [{| relName := B "public.customers"; relAccess := AccessWrite |}];
     stTables := [B "public.customers"]; stDatabase := []; stHTTP := None; stResult := None;
     stMetadata := ∅ |}.

Definition example_rules : Rules :=
  {| rsRules := [defer_words; no_writes]; rsScanner := None; rsFailOpen := false |}.

Lemma accepted_rules_never_fail_witness :
  vErr (Rules_EvaluateWith example_rules drop_customers empty_context).2 = [].
Proof.
  apply (accepted_rules_never_fail [defer_words; no_writes] None). vm_compute. reflexivity.
Defined.

Lemma first_denial_wins_witness :
  exists pre r post msg, rsRules example_rules = pre ++ r :: post /\
    Forall (goes_on None drop_customers) pre /\
    rule_outcome None drop_customers r = Denies msg /\
    (Rules_EvaluateWith example_rules drop_customers empty_context).2 = Deny (rlName r) msg.
Proof.
  refine (proj1 (proj1 (first_denial_wins [defer_words; no_writes] None example_rules
    drop_customers empty_context _)) _); vm_compute; reflexivity.
Defined.

Lemma deferred_match_is_reported_witness :
  vDenied (Rules_EvaluateWith example_rules drop_customers empty_context).2 = true /\
  exists f, ec_Finding (Rules_EvaluateWith example_rules drop_customers empty_context).1
    MatchDenyWords = Some f /\ B "words" ∈ names_of f.
Proof.
  split; [vm_compute; reflexivity|].
  apply (deferred_match_is_reported example_rules drop_customers empty_context [] defer_words
    [no_writes] {[ B "words" := VStrings [B "drop"] ]}).
  - reflexivity.
  - constructor.
  - vm_compute. reflexivity.
  - reflexivity.
Defined.

Lemma write_rule_fires_on_writes_witness :
  rule_matches no_writes drop_customers = inr true.
Proof.
  apply write_rule_fires_on_writes; [reflexivity|reflexivity|discriminate|].
  exists {| relName := B "public.customers"; relAccess := AccessWrite |}, (B "Customers").
  split; [left|]. split; [reflexivity|]. split; [left|]. vm_compute. reflexivity.
Defined.

Lemma finding_merge_keeps_answers_witness :
  let f := {| fSource := B "pii"; fRule := B "r"; fStatus := FindingOK; fReason := [];
              fValues := ∅ |} in
  let g := {| fSource := B "pii"; fRule := []; fStatus := FindingError; fReason := [];
              fValues := ∅ |} in
  exists h, (h = f \/ h = g) /\ Answered h = true /\
    fValues (Merge f g) = fValues h /\ fRule (Merge f g) = fRule h.
Proof. intros f g. apply (proj2 (finding_merge_keeps_answers f g)). reflexivity. Defined.

Lemma risk_merges_as_pair_witness :
  let high : gmap bytes bytes := {[ AnnotationRiskLevel := B "high" ]} in
  let low : gmap bytes bytes := {[ AnnotationRiskLevel := B "low" ]} in
  level_rank (mergeAnnotations high low) = Z.max (level_rank high) (riskRank (B "low")).
Proof.
  intros high low. refine (proj1 (risk_merges_as_pair high low (B "low") _)).
  vm_compute. reflexivity.
Defined.
