(* ===== verification/Json.v ===== *)
(** * JSON as encoding/json reads and writes it

    A document as a tree.  Rendering and reading its text is the standard
    library's; what matters here is which trees a Go value becomes and which
    Go values a tree decodes to: names match exactly or up to case, a name
    given twice is decoded twice into the same place, null clears a pointer or
    a map and leaves a string alone, and any value of another type is an
    error. *)

From S2P Require Import Prelude GoStrings GoText.

Inductive JSON :=
  | JNull
  | JBool (b : bool)
  | JNumber (n : Z)
  | JString (s : bytes)
  | JArray (l : list JSON)
  | JObject (l : list (bytes * JSON)).

(** ** Writing *)

Definition json_strings (l : list bytes) : JSON := JArray (map JString l).

(** A Go map: the keys in sorted order. *)
Definition json_map {A} (f : A -> JSON) (m : gmap bytes A) : JSON :=
  JObject (omap (fun k => (fun v => (k, f v)) <$> m !! k) (sort_Strings (map fst (map_to_list m)))).

(** A field with [omitempty]. *)
Definition unless (empty : bool) (name : bytes) (v : JSON) : list (bytes * JSON) :=
  if empty then [] else [(name, v)].

(** ** Reading *)

Section Reading.
Context `{GoUnicode}.

(** Whether the name of a member selects the field [field]: exactly, or up to
    case when no field has the exact name, which no two names here differ in. *)
Definition names_field (field name : bytes) : bool := (name =s field) || EqualFold field name.

Definition decode_bool (v : JSON) : option bool :=
  match v with JBool b => Some b | _ => None end.

Definition decode_bool_ptr (v : JSON) : option (option bool) :=
  match v with JNull => Some None | JBool b => Some (Some b) | _ => None end.

Definition decode_string (old : bytes) (v : JSON) : option bytes :=
  match v with JNull => Some old | JString s => Some s | _ => None end.

(** [map[string]bool]; a null element is the zero value. *)
Definition decode_entry (m : option (gmap bytes bool)) (e : bytes * JSON) : option (gmap bytes bool) :=
  match m, e.2 with
  | Some m, JBool b => Some (<[e.1 := b]> m)
  | Some m, JNull => Some (<[e.1 := false]> m)
  | _, _ => None
  end.

Definition decode_bool_map (old : gmap bytes bool) (v : JSON) : option (gmap bytes bool) :=
  match v with
  | JNull => Some ∅
  | JObject l => fold_left decode_entry l (Some old)
  | _ => None
  end.
End Reading.
