(* ===== verification/Opa.v ===== *)
(** * The OPA evaluator: src/hoopinspect/policy/opa.go

    A statement is rendered as the [input] document of an Open Policy Agent,
    posted, and the reply read as a verdict.  The agent and the network are the
    class [OpaServer]; an error keeps the source's prefix and drops the text it
    wraps.  A lane may consult the agent twice: the gate phase says which
    producers to run, the decide phase sees what they found. *)

From S2P Require Import Prelude GoStrings GoText Types Json Policy PolicyProps.

(** What posting a body to a URL within a timeout gives. *)
Inductive Reply := NotBuilt | NotSent | Replied (status : Z) (body : bytes).

Class OpaServer := {
  json_Marshal : JSON -> option bytes;
  json_Decode : bytes -> option JSON;        (* the first value of the body *)
  client_Do : Z -> bytes -> bytes -> Reply;
}.

Definition PhaseGate : bytes := B "gate".
Definition PhaseDecide : bytes := B "decide".

Record OPAClient := {
  oaURL : bytes;
  oaTimeout : Z;                             (* nanoseconds *)
  oaPhase : bytes;
  oaFailOpen : bool;
  oaContext : gmap bytes bytes;
}.

Record opaInput := {
  oiProtocol : bytes;
  oiDirection : bytes;
  oiStatement : bytes;
  oiOperation : bytes;
  oiTables : list bytes;
  oiEffects : list Operation;
  oiRelations : list StmtRelation;
  oiDatabase : bytes;
  oiHTTP : option HTTPDetail;
  oiMetadata : gmap bytes bytes;
  oiContext : gmap bytes bytes;
  oiPhase : bytes;
  oiFindings : gmap bytes Finding;
}.

Record opaResultObject := {
  orAllow : option bool;
  orDenied : option bool;
  orMessage : bytes;
  orRule : bytes;
  orRequest : gmap bytes bool;
}.

(** ** The document *)

Definition is_empty (s : bytes) : bool := s =s [].
Definition none_of {A} (m : gmap bytes A) : bool := (size m =? 0)%nat.

Definition relation_json (r : StmtRelation) : JSON :=
  JObject [(B "name", JString (relName r)); (B "access", JString (relAccess r))].

Definition http_json (d : HTTPDetail) : JSON :=
  JObject (unless (is_empty (htMethod d)) (B "method") (JString (htMethod d))
    ++ unless (is_empty (htPath d)) (B "path") (JString (htPath d))
    ++ unless (none_of (htQuery d)) (B "query") (json_map json_strings (htQuery d))
    ++ unless (is_empty (htHost d)) (B "host") (JString (htHost d))
    ++ unless (is_empty (htResource d)) (B "resource") (JString (htResource d))
    ++ unless (htStatusCode d =? 0)%Z (B "status_code") (JNumber (htStatusCode d))
    ++ unless (is_empty (htContentType d)) (B "content_type") (JString (htContentType d))
    ++ unless (none_of (htHeaders d)) (B "headers") (json_map JString (htHeaders d))
    ++ unless (is_empty (htBody d)) (B "body") (JString (htBody d))
    ++ unless (negb (htBodyTruncated d)) (B "body_truncated") (JBool (htBodyTruncated d))).

Definition value_json (v : AnyValue) : JSON :=
  match v with VStrings l => json_strings l | VString s => JString s end.

Definition finding_json (f : Finding) : JSON :=
  JObject (unless (is_empty (fRule f)) (B "rule") (JString (fRule f))
    ++ [(B "status", JString (fStatus f)); (B "reason", JString (fReason f))]
    ++ unless (none_of (fValues f)) (B "values") (json_map value_json (fValues f))).

Definition input_json (i : opaInput) : JSON :=
  JObject ([(B "protocol", JString (oiProtocol i)); (B "direction", JString (oiDirection i));
            (B "statement", JString (oiStatement i)); (B "operation", JString (oiOperation i))]
    ++ unless (length (oiTables i) =? 0)%nat (B "tables") (json_strings (oiTables i))
    ++ unless (length (oiEffects i) =? 0)%nat (B "effects") (json_strings (oiEffects i))
    ++ unless (length (oiRelations i) =? 0)%nat (B "relations") (JArray (map relation_json (oiRelations i)))
    ++ unless (is_empty (oiDatabase i)) (B "database") (JString (oiDatabase i))
    ++ match oiHTTP i with Some d => [(B "http", http_json d)] | None => [] end
    ++ unless (none_of (oiMetadata i)) (B "metadata") (json_map JString (oiMetadata i))
    ++ unless (none_of (oiContext i)) (B "context") (json_map JString (oiContext i))
    ++ unless (is_empty (oiPhase i)) (B "phase") (JString (oiPhase i))
    ++ unless (none_of (oiFindings i)) (B "findings") (json_map finding_json (oiFindings i))).

(** [findingsFor] and [contextFor]; a nil context is [None]. *)
Definition findingsFor (c : OPAClient) (ec : option EvalContext) : gmap bytes Finding :=
  match ec with
  | None => ∅
  | Some ec =>
      if negb (oaPhase c =s PhaseDecide) || none_of (ecFindings ec) then ∅ else ecFindings ec
  end.

Definition contextFor (c : OPAClient) (ec : option EvalContext) : gmap bytes bytes :=
  match ec with
  | None => oaContext c
  | Some ec =>
      if none_of (ecContext ec) then oaContext c
      else if none_of (oaContext c) then ecContext ec
      else ecContext ec ∪ oaContext c
  end.

Definition opa_input (c : OPAClient) (stmt : Statement) (ec : option EvalContext) : opaInput :=
  {| oiProtocol := stProtocol stmt; oiDirection := Direction_text (stDirection stmt);
     oiStatement := stText stmt; oiOperation := stOperation stmt; oiTables := stTables stmt;
     oiEffects := stEffects stmt; oiRelations := stRelations stmt; oiDatabase := stDatabase stmt;
     oiHTTP := stHTTP stmt; oiMetadata := stMetadata stmt; oiContext := contextFor c ec;
     oiPhase := oaPhase c; oiFindings := findingsFor c ec |}.

Definition opa_body (c : OPAClient) (stmt : Statement) (ec : option EvalContext) : JSON :=
  JObject [(B "input", input_json (opa_input c stmt ec))].

(** ** The reply *)

Section Opa.
Context `{GoUnicode} `{OpaServer}.

(** [opaResponse.Result]: the last member of that name, [None] when there is
    none; the outer [None] is a body that is no object. *)
Definition response_result (v : JSON) : option (option JSON) :=
  match v with
  | JNull => Some None
  | JObject l => Some (fold_left (fun r e => if names_field (B "result") e.1 then Some e.2 else r) l None)
  | _ => None
  end.

Definition decode_member (o : option opaResultObject) (e : bytes * JSON) : option opaResultObject :=
  match o with
  | None => None
  | Some o =>
      let '(name, v) := e in
      if names_field (B "allow") name then
        (fun a => {| orAllow := a; orDenied := orDenied o; orMessage := orMessage o; orRule := orRule o;
                     orRequest := orRequest o |}) <$> decode_bool_ptr v
      else if names_field (B "denied") name then
        (fun d => {| orAllow := orAllow o; orDenied := d; orMessage := orMessage o; orRule := orRule o;
                     orRequest := orRequest o |}) <$> decode_bool_ptr v
      else if names_field (B "message") name then
        (fun m => {| orAllow := orAllow o; orDenied := orDenied o; orMessage := m; orRule := orRule o;
                     orRequest := orRequest o |}) <$> decode_string (orMessage o) v
      else if names_field (B "rule") name then
        (fun r => {| orAllow := orAllow o; orDenied := orDenied o; orMessage := orMessage o; orRule := r;
                     orRequest := orRequest o |}) <$> decode_string (orRule o) v
      else if names_field (B "request") name then
        (fun q => {| orAllow := orAllow o; orDenied := orDenied o; orMessage := orMessage o;
                     orRule := orRule o; orRequest := q |}) <$> decode_bool_map (orRequest o) v
      else Some o
  end.

Definition no_result : opaResultObject :=
  {| orAllow := None; orDenied := None; orMessage := []; orRule := []; orRequest := ∅ |}.

Definition decode_result (v : JSON) : option opaResultObject :=
  match v with
  | JNull => Some no_result
  | JObject l => fold_left decode_member l (Some no_result)
  | _ => None
  end.

(** ** Evaluation *)

Definition opa_failure (c : OPAClient) (msg : bytes) : Verdict :=
  if oaFailOpen c then
    {| vDenied := false; vMessage := []; vRule := []; vErr := [EvaluatorError msg]; vAnnotations := ∅ |}
  else
    {| vDenied := true; vMessage := B "policy engine unavailable; denying"; vRule := B "opa";
       vErr := [EvaluatorError msg]; vAnnotations := ∅ |}.

Definition opa_messageOr (msg fallback : bytes) : bytes := if negb (msg =s []) then msg else fallback.
Definition ruleOr (rule : bytes) : bytes := if negb (rule =s []) then rule else B "opa".

Definition opa_denied (o : opaResultObject) : Verdict :=
  {| vDenied := true; vMessage := opa_messageOr (orMessage o) (B "denied by policy");
     vRule := ruleOr (orRule o); vErr := []; vAnnotations := ∅ |}.

(** What the gate phase asked for, on the shared context. *)
Definition set_requested (ec : EvalContext) (m : gmap bytes bool) : EvalContext :=
  {| ecAnnotations := ecAnnotations ec; ecFindings := ecFindings ec; ecRequested := m;
     ecContext := ecContext ec |}.

Definition record_request (c : OPAClient) (ec : option EvalContext) (o : opaResultObject)
    : option EvalContext :=
  match ec with
  | Some ec' =>
      if (oaPhase c =s PhaseGate) && negb (none_of (orRequest o))
      then Some (set_requested ec' (orRequest o ∪ ecRequested ec')) else ec
  | None => None
  end.

Definition opa_verdict (c : OPAClient) (o : opaResultObject) : Verdict :=
  match orDenied o, orAllow o with
  | Some true, _ => opa_denied o
  | Some false, _ => Allow
  | None, Some true => Allow
  | None, Some false => opa_denied o
  | None, None => opa_failure c (B "policy/opa: result carried neither allow nor denied")
  end.

Definition default_timeout : Z := 2 * 10 ^ 9.

Definition opa_timeout (c : OPAClient) : Z :=
  if (oaTimeout c <=? 0)%Z then default_timeout else oaTimeout c.

(** The verdict on the body of a reply with status 200. *)
Definition opa_answer (c : OPAClient) (ec : option EvalContext) (body : bytes)
    : option EvalContext * Verdict :=
  match json_Decode body ≫= response_result with
  | None => (ec, opa_failure c (B "policy/opa: decoding response"))
  | Some None | Some (Some JNull) =>
      (ec, if oaFailOpen c || (oaPhase c =s PhaseGate) then Allow
           else Deny (B "opa") (B "no policy decision matched this statement"))
  | Some (Some r) =>
      match decode_bool r with
      | Some true => (ec, Allow)
      | Some false => (ec, Deny (B "opa") (B "denied by policy"))
      | None =>
          match decode_result r with
          | None => (ec, opa_failure c (B "policy/opa: unrecognized result shape"))
          | Some o => (record_request c ec o, opa_verdict c o)
          end
      end
  end.

Definition opa_evaluate (c : OPAClient) (stmt : Statement) (ec : option EvalContext)
    : option EvalContext * Verdict :=
  match json_Marshal (opa_body c stmt ec) with
  | None => (ec, opa_failure c (B "policy/opa: encoding input"))
  | Some body =>
      match client_Do (opa_timeout c) (oaURL c) body with
      | NotBuilt => (ec, opa_failure c (B "policy/opa: building request"))
      | NotSent => (ec, opa_failure c (B "policy/opa: request failed"))
      | Replied status reply =>
          if negb (status =? 200)%Z
          then (ec, opa_failure c (B "policy/opa: unexpected status " ++ itoa status))
          else opa_answer c ec reply
      end
  end.

Definition OPA_Evaluate (c : OPAClient) (stmt : Statement) : Verdict := (opa_evaluate c stmt None).2.

Definition OPA_EvaluateWith (c : OPAClient) (stmt : Statement) (ec : EvalContext) : EvalContext * Verdict :=
  let '(ec', v) := opa_evaluate c stmt (Some ec) in (default ec ec', v).
End Opa.

(** ** What the OPA evaluator promises

    It fails closed on everything that is not a decision, it asks for producers
    only on the gate phase and shows their findings only on the decide phase. *)
Section Opa.
Context `{GoUnicode} `{OpaServer}.

(** What a result says: yes, under the reading in which a denial wins over an
    approval and nothing at all is a yes on the gate phase only. *)
Definition consents (c : OPAClient) (r : option JSON) : Prop :=
  match r with
  | None | Some JNull => oaPhase c = PhaseGate
  | Some (JBool b) => b = true
  | Some r => exists o, decode_result r = Some o
      /\ match orDenied o with Some d => d = false | None => orAllow o = Some true end
  end.

(** The agent's answer to the document of a statement. *)
Definition agent_result (c : OPAClient) (doc : JSON) (r : option JSON) : Prop :=
  exists body reply, json_Marshal doc = Some body
    /\ client_Do (opa_timeout c) (oaURL c) body = Replied 200 reply
    /\ json_Decode reply ≫= response_result = Some r.

Lemma opa_failure_denies c msg : oaFailOpen c = false -> vDenied (opa_failure c msg) = true.
Proof. intros Hf. unfold opa_failure. by rewrite Hf. Qed.

Lemma opa_verdict_allows c o :
  oaFailOpen c = false ->
  vDenied (opa_verdict c o) = false
  <-> match orDenied o with Some d => d = false | None => orAllow o = Some true end.
Proof.
  intros Hf. unfold opa_verdict. destruct (orDenied o) as [[]|]; [done|done|].
  destruct (orAllow o) as [[]|]; [done|done|]. by rewrite opa_failure_denies.
Qed.

Lemma opa_answer_allows c ec body :
  oaFailOpen c = false ->
  vDenied (opa_answer c ec body).2 = false
  <-> exists r, json_Decode body ≫= response_result = Some r /\ consents c r.
Proof.
  intros Hf. unfold opa_answer. destruct (_ ≫= _) as [r|].
  2:{ cbn [snd]. rewrite opa_failure_denies by done. split; [done|]. by intros (? & ? & ?). }
  transitivity (consents c r); [|split; [by exists r|intros (? & [= <-] & ?); done]].
  assert (vDenied (if oaFailOpen c || (oaPhase c =s PhaseGate) then Allow
    else Deny (B "opa") (B "no policy decision matched this statement")) = false
    <-> oaPhase c = PhaseGate) as Hun.
  { rewrite Hf. cbn [orb]. destruct (oaPhase c =s PhaseGate) eqn:E; bool_hyps; done. }
  assert (forall v, decode_bool v = None -> vDenied (match decode_result v with
      | None => (ec, opa_failure c (B "policy/opa: unrecognized result shape"))
      | Some o => (record_request c ec o, opa_verdict c o) end).2 = false
    <-> exists o, decode_result v = Some o
      /\ match orDenied o with Some d => d = false | None => orAllow o = Some true end) as Hob.
  { intros v _. destruct (decode_result v) as [o|]; cbn [snd].
    - rewrite opa_verdict_allows by done. split; [by exists o|by intros (? & [= <-] & ?)].
    - rewrite opa_failure_denies by done. split; [done|by intros (? & ? & ?)]. }
  destruct r as [[|[]|n|s|l|l]|]; cbn [consents decode_bool]; try done; by apply Hob.
Qed.

Lemma opa_evaluate_allows c stmt ec :
  oaFailOpen c = false ->
  vDenied (opa_evaluate c stmt ec).2 = false
  <-> exists r, agent_result c (opa_body c stmt ec) r /\ consents c r.
Proof.
  intros Hf. unfold opa_evaluate, agent_result.
  assert (forall (P : Prop) msg, (P -> False) -> vDenied (ec, opa_failure c msg).2 = false <-> P) as Hno.
  { intros P msg Hn. cbn [snd]. rewrite opa_failure_denies by done. split; [done|]. by intros ?%Hn. }
  destruct (json_Marshal _) as [body|]; [|apply Hno; intros (? & (? & ? & ? & ? & ?) & ?); congruence].
  destruct (client_Do _ _ body) as [| |status reply] eqn:Ed;
    [apply Hno; intros (? & (? & ? & ? & ? & ?) & ?); congruence..|].
  destruct (status =? 200)%Z eqn:Es; cbn [negb]; bool_hyps; [subst|apply Hno; intros (? & (? & ? & ? & ? & ?) & ?); congruence].
  rewrite opa_answer_allows by done. split.
  - intros (r & Hr & Hc). exists r. split; [|done]. by exists body, reply.
  - intros (r & (? & reply' & [= <-] & Hd & Hr) & Hc). exists r. split; [|done].
    rewrite Hd in Ed. by injection Ed as ->.
Qed.

Lemma opa_fails_closed_aux c stmt ec :
  oaFailOpen c = false ->
  vDenied (OPA_EvaluateWith c stmt ec).2 = false
  <-> exists r, agent_result c (opa_body c stmt (Some ec)) r /\ consents c r.
Proof.
  intros Hf. rewrite <- opa_evaluate_allows by done. unfold OPA_EvaluateWith.
  by destruct (opa_evaluate c stmt (Some ec)).
Qed.

(** C26 OPA fails closed: a client that does not fail open lets a statement pass
    exactly when the agent was reached with the statement's document, answered
    with status 200 and a readable result, and that result says yes: the bare
    value true, an object that carries [denied: false], or one without [denied]
    that carries [allow: true].  No result at all is a yes only to the gate
    phase.  Every failure on the way refuses the statement. *)
Theorem opa_fails_closed c stmt ec :
  oaFailOpen c = false ->
  vDenied (OPA_EvaluateWith c stmt ec).2 = false
  <-> exists r, agent_result c (opa_body c stmt (Some ec)) r /\ consents c r.
Proof. apply opa_fails_closed_aux. Qed.

(** What an evaluation does to the context it shares: it adds the agent's
    requests on the gate phase and nothing else. *)
Lemma opa_context c stmt ec :
  exists m, (OPA_EvaluateWith c stmt ec).1 = set_requested ec m
    /\ (oaPhase c <> PhaseGate -> m = ecRequested ec).
Proof.
  assert (exists m, default ec (opa_evaluate c stmt (Some ec)).1 = set_requested ec m
    /\ (oaPhase c <> PhaseGate -> m = ecRequested ec)) as Hm.
  { assert (exists m, default ec (Some ec) = set_requested ec m
      /\ (oaPhase c <> PhaseGate -> m = ecRequested ec)) as Hsame
      by (exists (ecRequested ec); split; [by destruct ec|done]).
    unfold opa_evaluate. destruct (json_Marshal _); [|done]. destruct (client_Do _ _ _); [done|done|].
    destruct (negb _); [done|]. unfold opa_answer.
    destruct (_ ≫= _) as [[r|]|]; [|done|done].
    assert (forall v, exists m, default ec (match decode_result v with
      | None => (Some ec, opa_failure c (B "policy/opa: unrecognized result shape"))
      | Some o => (record_request c (Some ec) o, opa_verdict c o) end).1 = set_requested ec m
      /\ (oaPhase c <> PhaseGate -> m = ecRequested ec)) as Hv.
    { intros v. destruct (decode_result v) as [o|]; [|done]. unfold record_request. cbn [fst].
      destruct (oaPhase c =s PhaseGate) eqn:E; cbn [andb]; [|done]. bool_hyps.
      destruct (negb _); [|done]. by eexists. }
    destruct r as [|[]| | | |]; done || apply Hv. }
  unfold OPA_EvaluateWith. by destruct (opa_evaluate c stmt (Some ec)).
Qed.

(** What a result asks for. *)
Definition asked_for (r : option JSON) : gmap bytes bool :=
  match r with
  | Some v => match decode_result v with Some o => orRequest o | None => ∅ end
  | None => ∅
  end.

(** On the gate phase the agent's requests are on the context, over those that
    were there. *)
Lemma gate_requests c stmt ec r :
  oaPhase c = PhaseGate -> agent_result c (opa_body c stmt (Some ec)) r ->
  (OPA_EvaluateWith c stmt ec).1 = set_requested ec (asked_for r ∪ ecRequested ec).
Proof.
  intros Hp (body & reply & Hm & Hd & Hr). unfold OPA_EvaluateWith, opa_evaluate. rewrite Hm, Hd. cbn [negb Z.eqb].
  assert (set_requested ec (∅ ∪ ecRequested ec) = ec) as Hsame by (rewrite (left_id_L ∅ (∪)); by destruct ec).
  assert ((oaPhase c =s PhaseGate) = true) as Hg by (by apply bool_decide_eq_true).
  unfold opa_answer. rewrite Hr.
  assert (forall v, (let '(ec', verdict) := match decode_result v with
      | None => (Some ec, opa_failure c (B "policy/opa: unrecognized result shape"))
      | Some o => (record_request c (Some ec) o, opa_verdict c o) end in (default ec ec', verdict)).1
    = set_requested ec (asked_for (Some v) ∪ ecRequested ec)) as Hv.
  { intros v. cbn [asked_for]. destruct (decode_result v) as [o|]; [|done]. unfold record_request. rewrite Hg. cbn [andb].
    unfold none_of. destruct (size (orRequest o) =? 0)%nat eqn:E; cbn [negb]; [|done].
    apply Nat.eqb_eq, map_size_empty_iff in E. by rewrite E. }
  destruct r as [[|[]|n|s|l|l]|]; cbn [decode_bool]; try (by cbn; rewrite Hsame); apply Hv.
Qed.

(** The findings reach the agent on the decide phase. *)
Lemma findings_shown c ec :
  oaPhase c = PhaseDecide -> findingsFor c (Some ec) = ecFindings ec.
Proof.
  intros Hp. unfold findingsFor. assert ((oaPhase c =s PhaseDecide) = true) as -> by (by apply bool_decide_eq_true).
  unfold none_of. destruct (size (ecFindings ec) =? 0)%nat eqn:E; bool_hyps; cbn; [|done].
  symmetry. by apply map_size_empty_iff.
Qed.
End Opa.
