(* ===== verification/AiCache.v ===== *)
(** * The verdict cache: src/hoopinspect/analyzer/cache.go

    A map from keys to elements of a doubly linked list whose values are
    mutable entries: [ca_heap] is what the element pointers point at,
    [ca_order] the list, front first.  The clock is an argument.  Its contract
    is the least-recently-used list of [Lru]: the pointers never show. *)

From S2P Require Import Prelude GoText.

Abbreviation RiskLevel := bytes.

Record Result := {
  reRiskLevel : RiskLevel;
  reTitle : bytes;
  reExplanation : bytes;
}.

#[global] Instance Result_eq_dec : EqDecision Result.
Proof. solve_decision. Defined.

Record cacheEntry := {
  ceKey : bytes;
  ceResult : Result;
  ceExpireAt : Z;
}.

Record cache := {
  ca_entries : gmap bytes nat;
  ca_order : list nat;
  ca_heap : gmap nat cacheEntry;
  ca_next : nat;                        (* the next element allocated *)
  ca_size : Z;
  ca_ttl : Z;
  ca_hits : Z;
  ca_misses : Z;
}.

Definition uint64 (z : Z) : Z := z `mod` 2 ^ 64.

Definition newCache (size ttl : Z) : cache :=
  {| ca_entries := ∅; ca_order := []; ca_heap := ∅; ca_next := 0; ca_size := size; ca_ttl := ttl;
     ca_hits := 0; ca_misses := 0 |}.

Definition enabled (c : cache) : bool := (0 <? ca_size c)%Z && (0 <? ca_ttl c)%Z.

Definition cache_with (c : cache) (entries : gmap bytes nat) (order : list nat) (heap : gmap nat cacheEntry)
    (next : nat) (hits misses : Z) : cache :=
  {| ca_entries := entries; ca_order := order; ca_heap := heap; ca_next := next; ca_size := ca_size c;
     ca_ttl := ca_ttl c; ca_hits := hits; ca_misses := misses |}.

(** [order.Remove(el)] and [order.MoveToFront(el)]. *)
Definition list_remove (el : nat) (order : list nat) : list nat := filter (fun x => x <> el) order.
Definition move_to_front (el : nat) (order : list nat) : list nat := el :: list_remove el order.

Definition miss (c : cache) : cache :=
  cache_with c (ca_entries c) (ca_order c) (ca_heap c) (ca_next c) (ca_hits c) (uint64 (ca_misses c + 1)).

Definition cache_get (c : cache) (key : bytes) (now : Z) : cache * option Result :=
  if negb (enabled c) then (c, None)
  else
    match ca_entries c !! key with
    | None => (miss c, None)
    | Some el =>
        match ca_heap c !! el with
        | None => (c, None)             (* no element of the map is unallocated *)
        | Some ent =>
            if (ceExpireAt ent <? now)%Z then
              (miss (cache_with c (delete key (ca_entries c)) (list_remove el (ca_order c)) (ca_heap c)
                       (ca_next c) (ca_hits c) (ca_misses c)), None)
            else
              (cache_with c (ca_entries c) (move_to_front el (ca_order c)) (ca_heap c) (ca_next c)
                 (uint64 (ca_hits c + 1)) (ca_misses c), Some (ceResult ent))
        end
    end.

(** The loop that evicts from the back. *)
Fixpoint evict (fuel : nat) (c : cache) : cache :=
  match fuel with
  | O => c
  | S fuel =>
      if (ca_size c <? Z.of_nat (length (ca_order c)))%Z then
        match last (ca_order c) with
        | None => c
        | Some oldest =>
            let entries := match ca_heap c !! oldest with
                           | Some ent => delete (ceKey ent) (ca_entries c)
                           | None => ca_entries c
                           end in
            evict fuel (cache_with c entries (list_remove oldest (ca_order c)) (ca_heap c) (ca_next c)
                          (ca_hits c) (ca_misses c))
        end
      else c
  end.

Definition cache_put (c : cache) (key : bytes) (res : Result) (now : Z) : cache :=
  if negb (enabled c) then c
  else
    let ent := {| ceKey := key; ceResult := res; ceExpireAt := now + ca_ttl c |} in
    match ca_entries c !! key with
    | Some el =>
        cache_with c (ca_entries c) (move_to_front el (ca_order c)) (<[el := ent]> (ca_heap c)) (ca_next c)
          (ca_hits c) (ca_misses c)
    | None =>
        let el := ca_next c in
        evict (S (length (ca_order c)))
          (cache_with c (<[key := el]> (ca_entries c)) (el :: ca_order c) (<[el := ent]> (ca_heap c)) (S el)
             (ca_hits c) (ca_misses c))
    end.

Definition cache_stats (c : cache) : Z * Z := (ca_hits c, ca_misses c).

(** ** Operations in sequence; the mutex makes each of them one step *)

Inductive cache_op := CGet (key : bytes) (now : Z) | CPut (key : bytes) (res : Result) (now : Z).

Definition cache_do (c : cache) (o : cache_op) : cache * option Result :=
  match o with
  | CGet key now => cache_get c key now
  | CPut key res now => (cache_put c key res now, None)
  end.

Fixpoint cache_run (c : cache) (os : list cache_op) : cache * list (option Result) :=
  match os with
  | [] => (c, [])
  | o :: os =>
      let '(c, r) := cache_do c o in
      let '(c, rs) := cache_run c os in
      (c, r :: rs)
  end.

(** ** The contract *)

Module Lru.
(** Key, result and expiry, the most recently used first. *)
Abbreviation t := (list (bytes * (Result * Z))).

Definition forget (key : bytes) (l : t) : t := filter (fun x => x.1 <> key) l.

Fixpoint find (key : bytes) (l : t) : option (Result * Z) :=
  match l with
  | [] => None
  | (k, v) :: l => if k =s key then Some v else find key l
  end.

Definition get (l : t) (key : bytes) (now : Z) : t * option Result :=
  match find key l with
  | None => (l, None)
  | Some (r, expire) =>
      if (expire <? now)%Z then (forget key l, None) else ((key, (r, expire)) :: forget key l, Some r)
  end.

Definition put (size : nat) (ttl : Z) (l : t) (key : bytes) (r : Result) (now : Z) : t :=
  take size ((key, (r, (now + ttl)%Z)) :: forget key l).

Definition step (size : nat) (ttl : Z) (l : t) (o : cache_op) : t * option Result :=
  match o with
  | CGet key now => get l key now
  | CPut key r now => (put size ttl l key r now, None)
  end.

Fixpoint run (size : nat) (ttl : Z) (l : t) (os : list cache_op) : t * list (option Result) :=
  match os with
  | [] => (l, [])
  | o :: os =>
      let '(l, r) := step size ttl l o in
      let '(l, rs) := run size ttl l os in
      (l, r :: rs)
  end.
End Lru.

(** ** The verdict cache is a least-recently-used list

    The invariant of the two structures, the simulation of [Lru], and what a
    hit therefore is: the last verdict stored for the key, not yet expired. *)
(** ** The list a cache stands for *)

Definition view_el (heap : gmap nat cacheEntry) (el : nat) : option (bytes * (Result * Z)) :=
  (fun e => (ceKey e, (ceResult e, ceExpireAt e))) <$> heap !! el.

Definition view (c : cache) : Lru.t := omap (view_el (ca_heap c)) (ca_order c).

(** An element of the list is the one its key leads to. *)
Definition linked (entries : gmap bytes nat) (heap : gmap nat cacheEntry) (el : nat) : Prop :=
  exists ent, heap !! el = Some ent /\ entries !! ceKey ent = Some el.

Record cache_inv (c : cache) : Prop := {
  inv_order : NoDup (ca_order c);
  inv_linked : Forall (linked (ca_entries c) (ca_heap c)) (ca_order c);
  inv_entries : forall k el, ca_entries c !! k = Some el ->
    el ∈ ca_order c /\ exists ent, ca_heap c !! el = Some ent /\ ceKey ent = k;
  inv_fresh : Forall (fun el => el < ca_next c) (ca_order c);
  inv_size : (Z.of_nat (length (ca_order c)) <= Z.max 0 (ca_size c))%Z;
}.

Lemma view_cons heap x e l :
  heap !! x = Some e ->
  omap (view_el heap) (x :: l) = (ceKey e, (ceResult e, ceExpireAt e)) :: omap (view_el heap) l.
Proof. intros Hx. cbn [omap list_omap]. unfold view_el at 1. by rewrite Hx. Qed.

Section Views.
Context (entries : gmap bytes nat) (heap : gmap nat cacheEntry).

Lemma view_remove el ent l :
  heap !! el = Some ent -> entries !! ceKey ent = Some el -> Forall (linked entries heap) l ->
  omap (view_el heap) (list_remove el l) = Lru.forget (ceKey ent) (omap (view_el heap) l).
Proof.
  intros He Hk Hl. unfold list_remove, Lru.forget.
  induction Hl as [|x l (e & Hx & Hxk) Hl IH]; [done|].
  rewrite filter_cons, (view_cons _ _ _ l Hx), filter_cons. cbn [fst].
  destruct (decide (x = el)) as [->|Hn].
  - rewrite decide_False by auto. assert (e = ent) as -> by congruence. by rewrite decide_False by auto.
  - rewrite decide_True by done. rewrite (view_cons _ _ _ _ Hx), IH. rewrite decide_True; [done|].
    intros E. rewrite E in Hxk. congruence.
Qed.

Lemma view_find_None k l :
  entries !! k = None -> Forall (linked entries heap) l -> Lru.find k (omap (view_el heap) l) = None.
Proof.
  intros Hk Hl. induction Hl as [|x l (e & Hx & Hxk) Hl IH]; [done|].
  rewrite (view_cons _ _ _ l Hx). cbn [Lru.find].
  destruct (ceKey e =s k) eqn:E; bool_hyps; [|done]. rewrite E in Hxk. congruence.
Qed.

Lemma view_find el ent l :
  heap !! el = Some ent -> entries !! ceKey ent = Some el -> el ∈ l -> Forall (linked entries heap) l ->
  Lru.find (ceKey ent) (omap (view_el heap) l) = Some (ceResult ent, ceExpireAt ent).
Proof.
  intros He Hk Hin Hl. induction Hl as [|x l (e & Hx & Hxk) Hl IH]; [by apply elem_of_nil in Hin|].
  rewrite (view_cons _ _ _ l Hx). cbn [Lru.find]. destruct (ceKey e =s ceKey ent) eqn:E; bool_hyps.
  - rewrite E in Hxk. assert (x = el) as -> by congruence. assert (e = ent) as -> by congruence. done.
  - apply IH. apply elem_of_cons in Hin as [->|]; [|done]. congruence.
Qed.

Lemma view_length l : Forall (linked entries heap) l -> length (omap (view_el heap) l) = length l.
Proof.
  intros Hl. induction Hl as [|x l (e & Hx & _) Hl IH]; [done|].
  rewrite (view_cons _ _ _ l Hx). cbn [length]. by f_equal.
Qed.

Lemma view_take n l :
  Forall (linked entries heap) l -> omap (view_el heap) (take n l) = take n (omap (view_el heap) l).
Proof.
  intros Hl. revert n. induction Hl as [|x l (e & Hx & _) Hl IH]; intros [|n]; [done..|].
  cbn [take]. rewrite !(view_cons _ _ _ _ Hx). cbn [take]. by f_equal.
Qed.
End Views.

Lemma view_update heap el ent (l : list nat) :
  el ∉ l -> omap (view_el (<[el := ent]> heap)) l = omap (view_el heap) l.
Proof.
  intros Hn. apply list_omap_ext, Forall_Forall2_diag, Forall_forall. intros x Hx.
  unfold view_el. rewrite lookup_insert_ne; [done|]. by intros ->.
Qed.

Lemma elem_list_remove x el l : x ∈ list_remove el l <-> x <> el /\ x ∈ l.
Proof. unfold list_remove. by rewrite list_elem_of_filter. Qed.

(** In a list without duplicates, the last element is removed by cutting. *)
Lemma list_remove_last l x : NoDup (l ++ [x]) -> list_remove x (l ++ [x]) = l.
Proof.
  intros (Hl & Hd & _)%NoDup_app. unfold list_remove. rewrite filter_app, filter_cons, decide_False by auto.
  rewrite app_nil_r. clear Hl. induction l as [|y l IH]; [done|]. rewrite filter_cons.
  rewrite decide_True; [f_equal; apply IH; intros z Hz; apply Hd; by right|].
  intros ->. apply (Hd x); by left.
Qed.

(** ** The invariant is kept and the list simulated *)

Lemma cache_inv_new size ttl : cache_inv (newCache size ttl).
Proof. split; cbn; [apply NoDup_nil_2|done|done|done|lia]. Qed.

(** Moving an element to the front. *)
Lemma front_perm el l : NoDup l -> el ∈ l -> move_to_front el l ≡ₚ l.
Proof.
  intros Hn Hin. apply NoDup_Permutation; [|done|].
  - constructor; [by intros [? _]%elem_list_remove|]. by apply NoDup_filter.
  - intros x. unfold move_to_front. rewrite elem_of_cons, elem_list_remove.
    destruct (decide (x = el)) as [->|]; naive_solver.
Qed.

Lemma remove_length el l : length (list_remove el l) <= length l.
Proof. apply length_filter. Qed.

(** Dropping the element of a key from both structures. *)
Lemma inv_drop c el ent hits misses :
  cache_inv c -> ca_heap c !! el = Some ent -> ca_entries c !! ceKey ent = Some el ->
  cache_inv (cache_with c (delete (ceKey ent) (ca_entries c)) (list_remove el (ca_order c)) (ca_heap c)
    (ca_next c) hits misses).
Proof.
  intros [I1 I2 I3 I4 I5] Hh He. split; cbn [cache_with ca_order ca_entries ca_heap ca_next ca_size].
  - by apply NoDup_filter.
  - apply Forall_forall. intros x (Hne & Hx)%elem_list_remove.
    destruct (proj1 (Forall_forall _ _) I2 x Hx) as (e & Hxe & Hk). exists e. split; [done|].
    rewrite lookup_delete_ne; [done|]. intros E. rewrite <- E in Hk. congruence.
  - intros k el' (Hk & He')%lookup_delete_Some. destruct (I3 k el' He') as (Hin & e & Hx & <-).
    split; [|by exists e]. apply elem_list_remove. split; [|done]. intros ->. congruence.
  - apply Forall_forall. intros x (_ & Hx)%elem_list_remove. by apply (proj1 (Forall_forall _ _) I4).
  - pose proof (remove_length el (ca_order c)). lia.
Qed.

(** Using the element of a key again, with its entry [ent']. *)
Lemma inv_touch c el ent ent' hits misses :
  cache_inv c -> ca_heap c !! el = Some ent -> ca_entries c !! ceKey ent = Some el -> ceKey ent' = ceKey ent ->
  cache_inv (cache_with c (ca_entries c) (move_to_front el (ca_order c)) (<[el := ent']> (ca_heap c))
    (ca_next c) hits misses).
Proof.
  intros [I1 I2 I3 I4 I5] Hh He Hkey. destruct (I3 _ _ He) as [Hin _].
  pose proof (front_perm el (ca_order c) I1 Hin) as Hp.
  split; cbn [cache_with ca_order ca_entries ca_heap ca_next ca_size]; rewrite ?Hp; try done.
  - eapply Forall_impl; [exact I2|]. intros x (e & Hx & Hk). destruct (decide (x = el)) as [->|Hn].
    + exists ent'. rewrite lookup_insert_eq, Hkey. by assert (e = ent) as -> by congruence.
    + exists e. by rewrite lookup_insert_ne by done.
  - intros k x Hx. rewrite Hp. destruct (I3 k x Hx) as (Hi & e & Hxe & <-). split; [done|].
    destruct (decide (x = el)) as [->|Hn].
    + exists ent'. rewrite lookup_insert_eq, Hkey. by assert (e = ent) as -> by congruence.
    + exists e. by rewrite lookup_insert_ne by done.
Qed.

(** A get. *)
Lemma get_sim c key now :
  cache_inv c -> enabled c = true ->
  cache_inv (cache_get c key now).1
  /\ Lru.get (view c) key now = (view (cache_get c key now).1, (cache_get c key now).2).
Proof.
  intros Hc Hen. unfold cache_get, Lru.get. rewrite Hen. cbn [negb]. unfold view.
  destruct (ca_entries c !! key) as [el|] eqn:He.
  - destruct (inv_entries c Hc _ _ He) as (Hin & ent & Hh & <-). rewrite Hh.
    rewrite (view_find (ca_entries c) _ el ent) by (done || by destruct Hc).
    destruct (ceExpireAt ent <? now)%Z eqn:Ex; cbn [fst snd].
    + split; [by apply (inv_drop c el ent)|]. f_equal. symmetry.
      apply (view_remove (ca_entries c)); [done..|by destruct Hc].
    + split; [rewrite <- (insert_id (ca_heap c) el ent Hh) at 1; by apply (inv_touch c el ent)|].
      f_equal. cbn [cache_with ca_order ca_heap]. unfold move_to_front. rewrite (view_cons _ _ _ _ Hh).
      f_equal. symmetry. apply (view_remove (ca_entries c)); [done..|by destruct Hc].
  - rewrite (view_find_None (ca_entries c)) by (done || by destruct Hc). split; [|done].
    by destruct Hc.
Qed.

(** The eviction loop, run on a cache that is one over at most. *)
Definition resize (c : cache) (size : Z) : cache :=
  {| ca_entries := ca_entries c; ca_order := ca_order c; ca_heap := ca_heap c; ca_next := ca_next c;
     ca_size := size; ca_ttl := ca_ttl c; ca_hits := ca_hits c; ca_misses := ca_misses c |}.

Lemma inv_resize c size :
  cache_inv c -> (Z.of_nat (length (ca_order c)) <= Z.max 0 size)%Z -> cache_inv (resize c size).
Proof. intros [] ?. by split. Qed.

Lemma evict_stop fuel c :
  (Z.of_nat (length (ca_order c)) <= ca_size c)%Z -> evict fuel c = c.
Proof. intros Hs. destruct fuel; [done|]. cbn [evict]. by destruct (_ <? _)%Z eqn:E; bool_hyps; [lia|]. Qed.

Lemma evict_config fuel c : ca_size (evict fuel c) = ca_size c /\ ca_ttl (evict fuel c) = ca_ttl c.
Proof.
  revert c. induction fuel as [|fuel IH]; intros c; [done|]. cbn [evict].
  destruct (_ <? _)%Z; [|done]. destruct (last _); [|done]. by destruct (IH (cache_with c
    match ca_heap c !! n with Some ent => delete (ceKey ent) (ca_entries c) | None => ca_entries c end
    (list_remove n (ca_order c)) (ca_heap c) (ca_next c) (ca_hits c) (ca_misses c))) as [-> ->].
Qed.

Lemma evict_spec c fuel :
  cache_inv (resize c (ca_size c + 1)) -> (0 < ca_size c)%Z -> length (ca_order c) <= fuel ->
  cache_inv (evict fuel c) /\ view (evict fuel c) = take (Z.to_nat (ca_size c)) (view c)
  /\ ca_size (evict fuel c) = ca_size c /\ ca_ttl (evict fuel c) = ca_ttl c.
Proof.
  intros Hc Hs Hf. pose proof (inv_size _ Hc) as Hl. cbn [resize ca_order ca_size] in Hl.
  assert (Forall (linked (ca_entries c) (ca_heap c)) (ca_order c)) as Hlk by (by destruct Hc).
  destruct (decide (Z.of_nat (length (ca_order c)) <= ca_size c)%Z) as [Hle|Hgt].
  { rewrite evict_stop by done. split; [|split; [|done]].
    - apply (inv_resize _ (ca_size c)) in Hc; [by destruct c|]. cbn. lia.
    - symmetry. apply take_ge. unfold view. rewrite (view_length (ca_entries c)) by done. lia. }
  destruct fuel as [|fuel]; [lia|]. cbn [evict]. destruct (_ <? _)%Z eqn:E; bool_hyps; [|lia].
  destruct (ca_order c) as [|y l' _] eqn:Eo using rev_ind; [simpl in *; lia|].
  assert (length l' = Z.to_nat (ca_size c)) as Hl' by (rewrite length_app in *; simpl in *; lia).
  rewrite last_snoc. rewrite Forall_app, Forall_singleton in Hlk.
  destruct Hlk as [Hlk (ent & Hh & He)]. rewrite Hh.
  pose proof (inv_drop _ y ent (ca_hits c) (ca_misses c) Hc Hh He) as Hd.
  cbn [resize cache_with ca_order] in Hd. rewrite Eo, list_remove_last in *
    by (pose proof (inv_order _ Hc) as Ho; cbn [resize ca_order] in Ho; by rewrite Eo in Ho).
  rewrite evict_stop by (cbn; lia). split; [|split; [|done]].
  - apply (inv_resize _ (ca_size c)) in Hd; [done|]. cbn. lia.
  - unfold view. cbn [cache_with ca_order ca_heap]. rewrite Eo.
    rewrite omap_app, take_app_length'; [done|]. by rewrite (view_length (ca_entries c)).
Qed.

(** A put of a new key, before eviction. *)
Lemma inv_push c key ent :
  cache_inv c -> ca_entries c !! key = None -> ceKey ent = key -> (0 < ca_size c)%Z ->
  cache_inv (resize (cache_with c (<[key := ca_next c]> (ca_entries c)) (ca_next c :: ca_order c)
    (<[ca_next c := ent]> (ca_heap c)) (S (ca_next c)) (ca_hits c) (ca_misses c)) (ca_size c + 1)).
Proof.
  intros [I1 I2 I3 I4 I5] Hk Hent Hs.
  assert (ca_next c ∉ ca_order c) as Hfr.
  { intros Hin. pose proof (proj1 (Forall_forall _ _) I4 _ Hin). simpl in *. lia. }
  split; cbn [resize cache_with ca_order ca_entries ca_heap ca_next ca_size].
  - by constructor.
  - constructor; [exists ent; rewrite Hent, !lookup_insert_eq; done|].
    apply Forall_forall. intros x Hx. destruct (proj1 (Forall_forall _ _) I2 x Hx) as (e & He & Hke).
    exists e. rewrite !lookup_insert_ne; [done|congruence|intros E; apply Hfr; by rewrite E].
  - intros k el [[<- <-]|[Hne He]]%lookup_insert_Some.
    + split; [by left|]. exists ent. by rewrite lookup_insert_eq.
    + destruct (I3 k el He) as (Hi & e & Hx & <-). split; [by right|]. exists e.
      rewrite lookup_insert_ne; [done|]. intros E. apply Hfr. by rewrite E.
  - constructor; [lia|]. eapply Forall_impl; [exact I4|]. simpl. lia.
  - cbn [length]. lia.
Qed.

Lemma put_sim c key res now :
  cache_inv c -> enabled c = true ->
  cache_inv (cache_put c key res now)
  /\ view (cache_put c key res now) = Lru.put (Z.to_nat (ca_size c)) (ca_ttl c) (view c) key res now
  /\ ca_size (cache_put c key res now) = ca_size c /\ ca_ttl (cache_put c key res now) = ca_ttl c.
Proof.
  intros Hc Hen. pose proof Hen as [Hs _]%andb_prop. apply Z.ltb_lt in Hs.
  unfold cache_put, Lru.put. rewrite Hen. cbn [negb].
  set (ent := {| ceKey := key; ceResult := res; ceExpireAt := now + ca_ttl c |}).
  destruct (ca_entries c !! key) as [el|] eqn:He.
  - destruct (inv_entries c Hc _ _ He) as (Hin & old & Hh & Hk).
    split; [apply (inv_touch c el old); [done|done|by rewrite Hk|done]|]. split; [|done].
    assert (view (cache_with c (ca_entries c) (move_to_front el (ca_order c)) (<[el := ent]> (ca_heap c))
      (ca_next c) (ca_hits c) (ca_misses c)) = (key, (res, now + ca_ttl c)%Z) :: Lru.forget key (view c)) as Hv.
    { unfold view, move_to_front. cbn [cache_with ca_order ca_heap].
      rewrite (view_cons _ el ent) by apply lookup_insert_eq. cbn [ceKey ceResult ceExpireAt ent]. f_equal.
      rewrite view_update by (by intros [? _]%elem_list_remove). rewrite <- Hk.
      apply (view_remove (ca_entries c)); [done|by rewrite Hk|by destruct Hc]. }
    rewrite Hv. symmetry. apply take_ge.
    assert (length (view (cache_with c (ca_entries c) (move_to_front el (ca_order c)) (<[el := ent]> (ca_heap c))
      (ca_next c) (ca_hits c) (ca_misses c))) <= Z.to_nat (ca_size c)) as Hl; [|by rewrite Hv in Hl].
    pose proof (inv_touch c el old ent (ca_hits c) (ca_misses c) Hc Hh ltac:(by rewrite Hk) ltac:(by rewrite Hk)) as Hi.
    unfold view. rewrite (view_length (ca_entries c)) by (by destruct Hi).
    pose proof (inv_size _ Hi). cbn [cache_with ca_order ca_size] in *. lia.
  - pose proof (inv_push c key ent Hc He eq_refl Hs) as Hp.
    destruct (evict_spec _ (S (length (ca_order c))) Hp) as (H1 & H2 & H3 & H4); [done|done|].
    split; [done|]. split; [|done]. etrans; [exact H2|]. cbn [cache_with ca_size]. f_equal. unfold view at 1.
    cbn [cache_with ca_order ca_heap]. rewrite (view_cons _ _ ent) by apply lookup_insert_eq.
    cbn [ceKey ceResult ceExpireAt ent]. f_equal. rewrite view_update.
    + unfold view, Lru.forget.
      assert (Lru.find key (view c) = None) as Hf by (apply (view_find_None (ca_entries c)); [done|by destruct Hc]).
      unfold view in Hf. clear -Hf. induction (omap _ _) as [|[k v] l IH]; [done|]. cbn [Lru.find] in Hf.
      destruct (k =s key) eqn:E; bool_hyps; [done|]. rewrite filter_cons, decide_True by done. by rewrite <- IH.
    + intros Hin. pose proof (inv_fresh c Hc) as Hf. apply (proj1 (Forall_forall _ _) Hf) in Hin. simpl in Hin. lia.
Qed.

Lemma get_config c key now :
  ca_size (cache_get c key now).1 = ca_size c /\ ca_ttl (cache_get c key now).1 = ca_ttl c.
Proof. unfold cache_get. destruct (negb _); [done|]. by repeat case_match. Qed.

Lemma run_sim c os :
  cache_inv c -> enabled c = true ->
  cache_inv (cache_run c os).1
  /\ Lru.run (Z.to_nat (ca_size c)) (ca_ttl c) (view c) os = (view (cache_run c os).1, (cache_run c os).2).
Proof.
  revert c. induction os as [|o os IH]; intros c Hc Hen; [done|]. cbn [cache_run Lru.run].
  assert (cache_inv (cache_do c o).1 /\ enabled (cache_do c o).1 = true
    /\ ca_size (cache_do c o).1 = ca_size c /\ ca_ttl (cache_do c o).1 = ca_ttl c
    /\ Lru.step (Z.to_nat (ca_size c)) (ca_ttl c) (view c) o = (view (cache_do c o).1, (cache_do c o).2))
    as (H1 & H2 & H3 & H4 & H5).
  { destruct o as [key now|key res now]; cbn [cache_do Lru.step fst snd].
    - destruct (get_sim c key now Hc Hen) as [Hi Hg]. destruct (get_config c key now) as [E1 E2].
      unfold enabled. rewrite E1, E2. done.
    - destruct (put_sim c key res now Hc Hen) as (Hi & Hv & E1 & E2). unfold enabled. rewrite E1, E2, Hv. done. }
  rewrite H5. destruct (cache_do c o) as [c' r]. cbn [fst snd] in *. destruct (IH c' H1 H2) as [I1 I2].
  rewrite H3, H4 in I2. rewrite I2. by destruct (cache_run c' os).
Qed.

Lemma run_config c os :
  ca_size (cache_run c os).1 = ca_size c /\ ca_ttl (cache_run c os).1 = ca_ttl c.
Proof.
  revert c. induction os as [|o os IH]; intros c; [done|]. cbn [cache_run].
  assert (ca_size (cache_do c o).1 = ca_size c /\ ca_ttl (cache_do c o).1 = ca_ttl c) as [<- <-].
  { destruct o; [apply get_config|]. cbn [cache_do fst]. unfold cache_put. destruct (negb _); [done|].
    destruct (_ !! _); [done|]. split; [etrans; [apply evict_config|done]|etrans; [apply evict_config|done]]. }
  destruct (cache_do c o) as [c' r]. specialize (IH c'). by destruct (cache_run c' os).
Qed.

(** The map has no more keys than the list has elements. *)
Lemma entries_size c : cache_inv c -> size (ca_entries c) <= length (ca_order c).
Proof.
  intros Hc. rewrite <- length_map_to_list. rewrite <- (length_fmap snd).
  apply submseteq_length, NoDup_submseteq.
  - apply NoDup_fmap_2_strong; [|apply NoDup_map_to_list].
    intros [k1 e1] [k2 e2] H1%elem_of_map_to_list H2%elem_of_map_to_list. cbn [snd]. intros <-.
    destruct (inv_entries c Hc _ _ H1) as (_ & ? & Hh1 & <-).
    destruct (inv_entries c Hc _ _ H2) as (_ & ? & Hh2 & <-). congruence.
  - intros el ([k e] & -> & Hin%elem_of_map_to_list)%list_elem_of_fmap. by apply (inv_entries c Hc k).
Qed.

(** ** What a hit is *)

(** The last verdict stored for a key, and when. *)
Definition stored (key : bytes) (o : cache_op) (old : option (Result * Z)) : option (Result * Z) :=
  match o with CPut k r now => if k =s key then Some (r, now) else old | CGet _ _ => old end.

Definition last_put (key : bytes) (os : list cache_op) : option (Result * Z) :=
  fold_left (fun old o => stored key o old) os None.

Lemma last_put_snoc key os o : last_put key (os ++ [o]) = stored key o (last_put key os).
Proof. unfold last_put. by rewrite fold_left_app. Qed.

Lemma find_Some key l v : Lru.find key l = Some v -> (key, v) ∈ l.
Proof.
  induction l as [|[k w] l IH]; [done|]. cbn [Lru.find]. destruct (k =s key) eqn:E; bool_hyps.
  - subst. intros [= ->]. left.
  - intros ?%IH. by right.
Qed.

Lemma forget_elem key x l : x ∈ Lru.forget key l <-> x.1 <> key /\ x ∈ l.
Proof. unfold Lru.forget. by rewrite list_elem_of_filter. Qed.

(** Every entry is the last one stored for its key. *)
Definition current (ttl : Z) (os : list cache_op) (l : Lru.t) : Prop :=
  forall k r e, (k, (r, e)) ∈ l -> exists t0, last_put k os = Some (r, t0) /\ e = (t0 + ttl)%Z.

Lemma current_step size ttl os l o :
  current ttl os l -> current ttl (os ++ [o]) (Lru.step size ttl l o).1.
Proof.
  intros Hl. unfold current. destruct o as [key now|key res now]; cbn [Lru.step fst].
  - setoid_rewrite last_put_snoc. cbn [stored]. unfold Lru.get.
    destruct (Lru.find key l) as [[r e]|] eqn:Ef; [|exact Hl].
    destruct (e <? now)%Z; cbn [fst].
    + intros k r' e' [_ Hin]%forget_elem. by apply Hl.
    + intros k r' e' [[= -> -> ->]|[_ Hin]%forget_elem]%elem_of_cons; [|by apply Hl].
      apply Hl. by apply find_Some.
  - setoid_rewrite last_put_snoc. cbn [stored]. unfold Lru.put. intros k r e Hin.
    apply (subseteq_take size) in Hin.
    apply elem_of_cons in Hin as [[= -> -> ->]|[Hne Hin]%forget_elem].
    + exists now. by rewrite (bool_decide_eq_true_2 _ eq_refl : (key =s key) = true).
    + simpl in Hne. assert ((key =s k) = false) as -> by (apply bool_decide_eq_false; congruence).
      by apply Hl.
Qed.

Lemma lru_current size ttl os pre l :
  current ttl pre l -> current ttl (pre ++ os) (Lru.run size ttl l os).1.
Proof.
  revert pre l. induction os as [|o os IH]; intros pre l Hl; [by rewrite app_nil_r|].
  cbn [Lru.run]. pose proof (current_step size ttl pre l o Hl) as Hs.
  destruct (Lru.step size ttl l o) as [l' r]. cbn [fst] in Hs. specialize (IH _ _ Hs). rewrite <- app_assoc in IH. cbn [app] in IH.
  by destruct (Lru.run size ttl l' os).
Qed.

Lemma lru_hit ttl os l key now r :
  current ttl os l -> (Lru.get l key now).2 = Some r ->
  exists t0, last_put key os = Some (r, t0) /\ (now <= t0 + ttl)%Z.
Proof.
  intros Hc. unfold Lru.get. destruct (Lru.find key l) as [[r' e]|] eqn:Ef; [|done].
  destruct (e <? now)%Z eqn:E; [done|]. bool_hyps. intros [= ->].
  destruct (Hc _ _ _ (find_Some _ _ _ Ef)) as (t0 & Hp & ->). by exists t0.
Qed.

(** C30 The cache is a least-recently-used list: whatever the sequence of lookups
    and stores, it answers as [Lru] answers, it never holds more entries than
    its size, and a lookup that hits returns the verdict stored last for that
    key, which has not expired. *)
Theorem cache_is_lru size ttl os key now :
  (0 < size)%Z -> (0 < ttl)%Z ->
  let c := (cache_run (newCache size ttl) os).1 in
  (cache_run (newCache size ttl) os).2 = (Lru.run (Z.to_nat size) ttl [] os).2
  /\ (cache_get c key now).2 = (Lru.get (Lru.run (Z.to_nat size) ttl [] os).1 key now).2
  /\ (Z.of_nat (base.size (ca_entries c)) <= size)%Z
  /\ forall r, (cache_get c key now).2 = Some r ->
       exists t0, last_put key os = Some (r, t0) /\ (now <= t0 + ttl)%Z.
Proof.
  intros Hs Ht c.
  assert (enabled (newCache size ttl) = true) as Hen.
  { unfold enabled. cbn. apply andb_true_intro. split; by apply Z.ltb_lt. }
  destruct (run_sim _ os (cache_inv_new size ttl) Hen) as [Hi Hr]. fold c in Hi, Hr.
  cbn [newCache ca_size ca_ttl] in Hr. change (view (newCache size ttl)) with ([] : Lru.t) in Hr.
  rewrite Hr. cbn [fst snd].
  assert (ca_size c = size /\ ca_ttl c = ttl) as [Es Et] by apply run_config.
  assert (enabled c = true) as Hen' by (unfold enabled in *; by rewrite Es, Et).
  destruct (get_sim c key now Hi Hen') as [_ Hg].
  assert ((cache_get c key now).2 = (Lru.get (view c) key now).2) as Hget by (by rewrite Hg).
  split; [done|]. split; [done|]. split.
  - pose proof (inv_size c Hi). rewrite Es in *. pose proof (entries_size c Hi). lia.
  - intros r Hhit. rewrite Hget in Hhit. apply (lru_hit ttl os (view c) key now r); [|done].
    pose proof (lru_current (Z.to_nat size) ttl os [] []) as Hc. rewrite Hr in Hc. apply Hc.
    by intros ? ? ? ?%elem_of_nil.
Qed.

(** ** What the cache holds *)

(** Every verdict the cache could return satisfies [P]. *)
Definition cache_holds (P : Result -> Prop) (c : cache) : Prop := Forall (fun x => P x.2.1) (view c).

Lemma holds_new P size ttl : cache_holds P (newCache size ttl).
Proof. constructor. Qed.

Lemma forget_holds (P : Result -> Prop) key (l : Lru.t) :
  Forall (fun x => P x.2.1) l -> Forall (fun x => P x.2.1) (Lru.forget key l).
Proof. rewrite !Forall_forall. intros Hl x [_ Hx]%forget_elem. by apply Hl. Qed.

Lemma holds_get P c key now :
  cache_inv c -> cache_holds P c ->
  cache_inv (cache_get c key now).1 /\ cache_holds P (cache_get c key now).1
  /\ forall r, (cache_get c key now).2 = Some r -> P r.
Proof.
  intros Hc Hp. destruct (enabled c) eqn:Hen.
  2:{ unfold cache_get. rewrite Hen. by split. }
  destruct (get_sim c key now Hc Hen) as [Hi Hg]. split; [done|]. unfold cache_holds in *. revert Hg.
  unfold Lru.get. destruct (Lru.find key (view c)) as [[r e]|] eqn:Ef; [|by intros [= <- <-]].
  assert (P r) as Hr.
  { apply find_Some in Ef. by apply (proj1 (Forall_forall _ _) Hp) in Ef. }
  destruct (e <? now)%Z; intros [= <- <-]; (split; [|naive_solver]).
  - by apply forget_holds.
  - constructor; [done|by apply forget_holds].
Qed.

Lemma holds_put (P : Result -> Prop) c key res now :
  cache_inv c -> cache_holds P c -> P res ->
  cache_inv (cache_put c key res now) /\ cache_holds P (cache_put c key res now).
Proof.
  intros Hc Hp Hr. destruct (enabled c) eqn:Hen.
  2:{ unfold cache_put. by rewrite Hen. }
  destruct (put_sim c key res now Hc Hen) as (Hi & Hv & _). split; [done|]. unfold cache_holds in *.
  rewrite Hv. apply Forall_take. constructor; [done|by apply forget_holds].
Qed.

(** ** A concrete run *)

Definition low_risk : Result := {| reRiskLevel := B "low"; reTitle := []; reExplanation := [] |}.
Definition high_risk : Result := {| reRiskLevel := B "high"; reTitle := []; reExplanation := [] |}.

Definition cache_session : list cache_op :=
  [CPut (B "a") low_risk 0; CPut (B "b") low_risk 1; CGet (B "a") 2; CPut (B "c") high_risk 3; CGet (B "b") 4].

Lemma cache_is_lru_witness :
  let c := (cache_run (newCache 2 10) cache_session).1 in
  (cache_run (newCache 2 10) cache_session).2 = [None; None; Some low_risk; None; None]
  /\ (cache_get c (B "a") 10).2 = Some low_risk /\ (cache_get c (B "a") 11).2 = None
  /\ (Z.of_nat (size (ca_entries c)) <= 2)%Z.
Proof.
  destruct (cache_is_lru 2 10 cache_session (B "a") 10) as (H1 & _ & H3 & _); [done|done|].
  intros c. rewrite H1. split; [vm_compute; reflexivity|]. split; [vm_compute; reflexivity|].
  split; [vm_compute; reflexivity|exact H3].
Defined.
