(* ===== verification/AiContent.v ===== *)
(** * What the analyzer sends: src/hoopinspect/analyzer/analyzer.go, content.go, prompt.go, registry.go

    Risk levels, actions and statuses; the text a statement is rendered into
    and the cache key of its shape; the system prompt; the registries of
    providers and content builders.  The hash is the class [Sha256]. *)

From S2P Require Import Prelude GoStrings GoText Utf Types Policy AiCache.

(** ** Levels, actions, statuses (analyzer.go) *)

Definition RiskLow : RiskLevel := B "low".
Definition RiskMedium : RiskLevel := B "medium".
Definition RiskHigh : RiskLevel := B "high".

Definition level_Valid (r : RiskLevel) : bool := (r =s RiskLow) || (r =s RiskMedium) || (r =s RiskHigh).

Definition rank (r : RiskLevel) : Z :=
  if r =s RiskHigh then 3 else if r =s RiskMedium then 2 else if r =s RiskLow then 1 else 0.

Definition MetadataRiskLevel : bytes := AnnotationRiskLevel.
Definition MetadataAction : bytes := AnnotationRiskAction.
Definition MetadataAIRule : bytes := B "ai_rule".
Definition MetadataAIStatus : bytes := B "ai_status".
Definition Source : bytes := MatchAIAnalysis.

Definition StatusOK : bytes := FindingOK.
Definition StatusCached : bytes := FindingCached.
Definition StatusSkipped : bytes := FindingSkipped.
Definition StatusError : bytes := FindingError.
Definition StatusBudget : bytes := B "budget_exhausted".
Definition StatusRefused : bytes := B "refused".

Definition findingStatus (status : bytes) : bytes :=
  if (status =s StatusBudget) || (status =s StatusRefused) then FindingUnavailable else status.

Definition statusReason (status : bytes) : bytes :=
  if (status =s StatusBudget) || (status =s StatusRefused) then status else [].

Abbreviation Action := bytes.
Definition ActionAllow : Action := B "allow".
Definition ActionWarn : Action := B "warn".
Definition ActionBlock : Action := B "block".
Definition AiActionDefer : Action := B "defer".
Definition ActionRequireReview : Action := B "require_review".

Definition action_Valid (a : Action) : bool :=
  (a =s ActionAllow) || (a =s ActionWarn) || (a =s ActionBlock) || (a =s AiActionDefer)
  || (a =s ActionRequireReview).

Record Content := { coText : bytes; coCacheKey : bytes }.

Definition truncation_marker : bytes := x0a :: B "...[truncated]".

(** Back off to the start of a rune: the largest cut, not above [cut], where
    [s] has one, or 0. *)
Fixpoint back_off (s : bytes) (cut : nat) : nat :=
  match cut with
  | O => O
  | S n => match s !! cut with
           | Some b => if negb (RuneStart b) then back_off s n else cut
           | None => cut
           end
  end.

Definition Truncate (s : bytes) (maxBytes : Z) : bytes :=
  if (maxBytes <=? 0)%Z || (Z.of_nat (length s) <=? maxBytes)%Z then s
  else take (back_off s (Z.to_nat maxBytes)) s ++ truncation_marker.

Definition put_field (cur : bytes) (rest : list bytes) : list bytes :=
  match cur with [] => rest | _ => rev cur :: rest end.

(** [strings.Fields]; [cur] is the field being read, reversed. *)
Fixpoint fields (l cur : bytes) : list bytes :=
  match l with
  | [] => put_field cur []
  | c :: r =>
      if ascii_space c then put_field cur (fields r [])
      else match r with
           | [] => put_field (c :: cur) []
           | c2 :: r2 =>
               if space2 c c2 then put_field cur (fields r2 [])
               else match r2 with
                    | c3 :: r3 => if space3 c c2 c3 then put_field cur (fields r3 []) else fields r (c :: cur)
                    | [] => fields r (c :: cur)
                    end
           end
  end.

Definition Fields (s : bytes) : list bytes := fields s [].

Definition normalizeSpace (s : bytes) : bytes := Join (Fields s) (B " ").

Definition describeProviders (names : list bytes) : bytes :=
  match names with
  | [] => B "none are linked into this binary"
  | _ => B "linked: " ++ Join names (B ", ")
  end.

Definition RefuseSentinel : bytes := [x00] ++ B "hoopinspect:refuse" ++ [x00].

Definition hex_digit (n : Z) : byte := if (n <? 10)%Z then to_byte (48 + n) else to_byte (87 + n).

Definition EncodeToString (b : bytes) : bytes :=
  concat (map (fun c => [hex_digit (bval c / 16); hex_digit (bval c `mod` 16)]) b).

(** ** Prompts (prompt.go) *)

Definition PromptGuidance : bytes := B "You are a security classifier for a proxy that sits in
front of databases and HTTP APIs.

You receive ONE statement that a user is attempting to run: either a SQL
statement, or an HTTP request with its body. Classify the risk it presents to
the system it targets.

Judge the statement itself. You have no information about who sent it or what
authorization they hold; another layer already decided they may reach this
system. Do not speculate about intent.

Risk levels:

- low: reads, bounded queries, ordinary application traffic. A SELECT with a
  WHERE clause. A GET, or a POST carrying an ordinary application payload.
- medium: writes with a clear scope, schema reads, bulk reads of sensitive
  tables, or requests that return more data than a normal operation needs.
  An UPDATE or INSERT naming specific rows. A write to a single resource.
- high, on SQL: destructive or unbounded statements (DELETE or UPDATE with no
  WHERE, DROP, TRUNCATE, ALTER on a production table), privilege changes
  (GRANT, REVOKE, role edits), attempts to disable auditing or security
  controls, statements that appear designed to exfiltrate data in bulk, and
  injection-shaped input.
- high, on HTTP: payloads that delete or overwrite in bulk, that widen who can
  access something (permission, role or ACL edits), that disable logging,
  auditing or a security control, that reach for an administrative operation,
  that carry an injection payload (SQL, command, template or path traversal),
  or that ask for an unbounded export of records.".

Definition promptContract : bytes := B "

Report your verdict by calling exactly one of the provided tools. Do not
answer in prose.

Two rules about what you write in that call:

1. Keep the title under 80 characters. It is shown to the user in a database
   error frame when the statement is blocked, so it must read as an
   explanation rather than a label.
2. Never quote a literal value from the statement in the title or the
   explanation. The verdict is written to an audit log; a title that repeats
   an identifier has published that identifier. Describe the shape instead:
   say " ++ [x22] ++ B "a taxpayer id in the WHERE clause" ++ [x22] ++ B ", not the number.".

Definition SystemPrompt : bytes := PromptGuidance ++ promptContract.

Definition BuildSystemPrompt (guidance : bytes) : bytes :=
  let guidance := TrimSpace guidance in
  (if guidance =s [] then PromptGuidance else guidance) ++ promptContract.

Definition toolLow : bytes := B "report_low_risk".
Definition toolMedium : bytes := B "report_medium_risk".
Definition toolHigh : bytes := B "report_high_risk".

Definition RiskForTool (name : bytes) : option RiskLevel :=
  if name =s toolLow then Some RiskLow
  else if name =s toolMedium then Some RiskMedium
  else if name =s toolHigh then Some RiskHigh
  else None.

Definition ToolSpecs : list (bytes * bytes) :=
  [(toolLow, B "Report that the statement is low risk.");
   (toolMedium, B "Report that the statement is medium risk.");
   (toolHigh, B "Report that the statement is high risk.")].

(** ** Shapes (content.go) *)

(** Past the end of a literal opened with [quote]. *)
Fixpoint skip_literal (quote : byte) (l : bytes) : bytes :=
  match l with
  | [] => []
  | c :: r =>
      if c =b quote then
        match r with
        | c2 :: r2 => if c2 =b quote then skip_literal quote r2 else r
        | [] => []
        end
      else skip_literal quote r
  end.

Fixpoint skip_number (l : bytes) : bytes :=
  match l with
  | c :: r => if is_digit c || (c =b ".") then skip_number r else l
  | [] => []
  end.

Fixpoint strip_loop (fuel : nat) (l : bytes) : bytes :=
  match fuel, l with
  | O, _ | _, [] => []
  | S fuel, c :: r =>
      if (c =b "'") || (c =b x22) then "?"%byte :: strip_loop fuel (skip_literal c r)
      else if is_digit c then "?"%byte :: strip_loop fuel (skip_number r)
      else c :: strip_loop fuel r
  end.

Definition stripSQLLiterals (s : bytes) : bytes := strip_loop (length s) s.

Section Content.
Context `{GoUnicode} `{Sha256}.

Definition fingerprint (s : bytes) : bytes := EncodeToString (take 6 (Sum256 s)).

Definition sql_shape (stmt : Statement) : bytes := stripSQLLiterals (ToLower (normalizeSpace (stText stmt))).

Definition sqlCacheKey (stmt : Statement) : bytes :=
  EncodeToString (take 16 (Sum256 (stProtocol stmt ++ [x00] ++ stOperation stmt ++ [x00] ++ sql_shape stmt))).

Definition sql_Build (stmt : Statement) (maxBytes : Z) : option Content :=
  let text := TrimSpace (stText stmt) in
  if text =s [] then None
  else Some {| coText := B "Protocol: " ++ stProtocol stmt ++ [x0a] ++ B "Operation: " ++ stOperation stmt
                 ++ (match stTables stmt with
                     | [] => []
                     | ts => [x0a] ++ B "Tables: " ++ Join ts (B ", ")
                     end)
                 ++ (if negb (stDatabase stmt =s []) then [x0a] ++ B "Database: " ++ stDatabase stmt else [])
                 ++ [x0a; x0a] ++ Truncate text maxBytes;
               coCacheKey := sqlCacheKey stmt |}.

Definition http_target (d : HTTPDetail) : bytes := if htResource d =s [] then htPath d else htResource d.

Definition httpCacheKey (d : HTTPDetail) (body : bytes) : bytes :=
  EncodeToString (take 16 (Sum256 (B "http" ++ [x00] ++ htMethod d ++ [x00] ++ http_target d ++ [x00]
    ++ normalizeSpace body))).

Definition http_Build (stmt : Statement) (maxBytes : Z) : option Content :=
  match stHTTP stmt with
  | None => None
  | Some d =>
      let body := TrimSpace (htBody d) in
      if body =s [] then None
      else Some {| coText := htMethod d ++ B " " ++ http_target d
                     ++ (if negb (htContentType d =s []) then [x0a] ++ B "Content-Type: " ++ htContentType d else [])
                     ++ (if htBodyTruncated d then [x0a] ++ B "(body truncated by the proxy)" else [])
                     ++ [x0a; x0a] ++ Truncate body maxBytes;
                   coCacheKey := httpCacheKey d body |}
  end.

(** ** Registries (registry.go)

    [None] where the source panics. *)

Inductive Builder := SQLBuilder (p : Protocol) | HTTPBuilder.

Definition builder_Protocol (b : Builder) : Protocol :=
  match b with SQLBuilder p => p | HTTPBuilder => Protocol.HTTP end.

Definition builder_Build (b : Builder) (stmt : Statement) (maxBytes : Z) : option Content :=
  match b with SQLBuilder _ => sql_Build stmt maxBytes | HTTPBuilder => http_Build stmt maxBytes end.

Definition RegisterBuilder (m : gmap bytes Builder) (b : Builder) : option (gmap bytes Builder) :=
  match m !! builder_Protocol b with
  | Some _ => None
  | None => Some (<[builder_Protocol b := b]> m)
  end.

(** The registrations of content.go's [init]. *)
Definition builders : gmap bytes Builder :=
  default ∅ (m ← RegisterBuilder ∅ (SQLBuilder Protocol.Postgres);
             m ← RegisterBuilder m (SQLBuilder Protocol.MSSQL);
             RegisterBuilder m HTTPBuilder).

Definition BuilderFor (p : Protocol) : option Builder := builders !! p.
End Content.

Section Providers.
Context {O P : Type}.                      (* provider options and providers *)

Inductive ProviderError := UnknownProvider (name : bytes) (linked : bytes) | BuildFailed (msg : bytes).

Definition Providers : Type := gmap bytes (O -> bytes + P).

Definition Register (m : Providers) (name : bytes) (build : option (O -> bytes + P)) : option Providers :=
  if name =s [] then None
  else match build with
       | None => None
       | Some build => match m !! name with Some _ => None | None => Some (<[name := build]> m) end
       end.

Definition RegisteredProviders (m : Providers) : list bytes := sort_Strings (map fst (map_to_list m)).

Definition NewProvider (m : Providers) (name : bytes) (opts : O) : ProviderError + P :=
  match m !! name with
  | None => inl (UnknownProvider name (describeProviders (RegisteredProviders m)))
  | Some build => match build opts with inl msg => inl (BuildFailed msg) | inr p => inr p end
  end.
End Providers.
