(* ===== verification/AiEvaluator.v ===== *)
(** * The risk analyzer: src/hoopinspect/analyzer/evaluator.go

    The trigger, the cache, the budget and the provider of one analysis rule.
    What the provider does with one call is the argument [ask] (a timeout, a
    prompt and a text; an error, or a result that may be nil), the clock is read
    twice.  [ae_calls] and its fellows are atomic counters: every definition
    below touches one of them, or the cache under its lock, at most once, so
    that the pieces are the steps of concurrent evaluations (AiBudget.v). *)

From S2P Require Import Prelude GoStrings GoText Types Policy AiCache AiContent.

Definition AiDefaultTimeout : Z := 10 * 10 ^ 9.
Definition DefaultMaxInputBytes : Z := Z.shiftl 8 10.

Definition ActionMap : Type := gmap bytes Action.

Definition actionFor (m : ActionMap) (level : RiskLevel) : Action :=
  match m !! level with
  | Some a => if negb (a =s []) then a else ActionAllow
  | None => ActionAllow
  end.

Record AiConfig := {
  acRule : bytes;
  acProvider : bool;                    (* a provider is set *)
  acActions : ActionMap;
  acTrigger : AITrigger;
  acMessage : bytes;
  acGuidance : bytes;
  acTimeout : Z;
  acFailOpen : bool;
  acMaxInputBytes : Z;
  acCacheSize : Z;
  acCacheTTL : Z;
  acMaxCalls : Z;
  acRedact : option (bytes -> bytes);
}.

Record AiEvaluator := {
  ae_cfg : AiConfig;
  ae_cache : cache;
  ae_prompt : bytes;
  ae_promptKey : bytes;
  ae_calls : Z;
  ae_denied : Z;
  ae_errs : Z;
  ae_budgetLogged : bool;
}.

(** ** Construction *)

Inductive AiNewError :=
  | AiNoProvider
  | UnknownLevel (level : bytes)
  | UnknownAiAction (action level : bytes)
  | ReviewUnsupported.

Definition check_action (la : bytes * Action) : option AiNewError :=
  if negb (level_Valid la.1) then Some (UnknownLevel la.1)
  else if negb (action_Valid la.2) then Some (UnknownAiAction la.2 la.1)
  else if la.2 =s ActionRequireReview then Some ReviewUnsupported
  else None.

(** The first complaint; a Go map has no order, this one has stdpp's. *)
Definition check_actions (m : ActionMap) : option AiNewError :=
  head (omap check_action (map_to_list m)).

Section Evaluator.
Context `{GoUnicode} `{Sha256}.

Definition with_defaults (cfg : AiConfig) : AiConfig :=
  {| acRule := if acRule cfg =s [] then B "ai_analysis" else acRule cfg;
     acProvider := acProvider cfg; acActions := acActions cfg; acTrigger := acTrigger cfg;
     acMessage := acMessage cfg; acGuidance := acGuidance cfg;
     acTimeout := if (acTimeout cfg <=? 0)%Z then AiDefaultTimeout else acTimeout cfg;
     acFailOpen := acFailOpen cfg;
     acMaxInputBytes := if (acMaxInputBytes cfg <=? 0)%Z then DefaultMaxInputBytes else acMaxInputBytes cfg;
     acCacheSize := acCacheSize cfg; acCacheTTL := acCacheTTL cfg; acMaxCalls := acMaxCalls cfg;
     acRedact := acRedact cfg |}.

Definition ai_New (cfg : AiConfig) : AiNewError + AiEvaluator :=
  if negb (acProvider cfg) then inl AiNoProvider
  else
    match check_actions (acActions cfg) with
    | Some e => inl e
    | None =>
        let prompt := BuildSystemPrompt (acGuidance cfg) in
        inr {| ae_cfg := with_defaults cfg; ae_cache := newCache (acCacheSize cfg) (acCacheTTL cfg);
               ae_prompt := prompt; ae_promptKey := fingerprint prompt; ae_calls := 0; ae_denied := 0;
               ae_errs := 0; ae_budgetLogged := false |}
    end.

(** ** State *)

Definition set_cache (e : AiEvaluator) (c : cache) : AiEvaluator :=
  {| ae_cfg := ae_cfg e; ae_cache := c; ae_prompt := ae_prompt e; ae_promptKey := ae_promptKey e;
     ae_calls := ae_calls e; ae_denied := ae_denied e; ae_errs := ae_errs e;
     ae_budgetLogged := ae_budgetLogged e |}.

Definition add_counts (e : AiEvaluator) (calls denied errs : Z) : AiEvaluator :=
  {| ae_cfg := ae_cfg e; ae_cache := ae_cache e; ae_prompt := ae_prompt e; ae_promptKey := ae_promptKey e;
     ae_calls := ae_calls e + calls; ae_denied := ae_denied e + denied; ae_errs := ae_errs e + errs;
     ae_budgetLogged := ae_budgetLogged e |}.

Definition log_budget (e : AiEvaluator) : AiEvaluator :=
  {| ae_cfg := ae_cfg e; ae_cache := ae_cache e; ae_prompt := ae_prompt e; ae_promptKey := ae_promptKey e;
     ae_calls := ae_calls e; ae_denied := ae_denied e; ae_errs := ae_errs e; ae_budgetLogged := true |}.

(** ** The trigger *)

Definition Trigger_matches (t : AITrigger) (stmt : Statement) : bool :=
  existsb (fun op => stOperation stmt =s op) (atOperations t)
  || existsb (fun want => existsb (fun got => EqualFold want got) (stTables stmt)) (atTables t)
  || match stHTTP stmt with
     | Some d => existsb (fun pattern => MatchResource pattern (http_target d)) (atResources t)
     | None => false
     end.

Definition wanted (e : AiEvaluator) (stmt : Statement) (ec : option EvalContext) : bool :=
  match ec with
  | Some ec => let '(want, stated) := WantsRun ec Source in
               if stated then want else Trigger_matches (acTrigger (ae_cfg e)) stmt
  | None => Trigger_matches (acTrigger (ae_cfg e)) stmt
  end.

(** ** Classification *)

(** What [classify] returns: the result, the status, the error. *)
Record Outcome := { ouResult : Result; ouStatus : bytes; ouErr : option bytes }.

Definition no_Result : Result := {| reRiskLevel := []; reTitle := []; reExplanation := [] |}.
Definition outcome (status : bytes) : Outcome := {| ouResult := no_Result; ouStatus := status; ouErr := None |}.

(** Up to the reservation: settled, or a text to send under a key. *)
Inductive Looked := Settled (o : Outcome) | ToSend (key text : bytes).

Definition lookup_step (e : AiEvaluator) (stmt : Statement) (ec : option EvalContext) (now : Z)
    : AiEvaluator * Looked :=
  if bool_decide (stDirection stmt <> FromClient) then (e, Settled (outcome []))
  else
    match BuilderFor (stProtocol stmt) with
    | None => (e, Settled (outcome []))
    | Some builder =>
        if negb (wanted e stmt ec) then (e, Settled (outcome StatusSkipped))
        else
          match builder_Build builder stmt (acMaxInputBytes (ae_cfg e)) with
          | None => (e, Settled (outcome StatusSkipped))
          | Some content =>
              let key := ae_promptKey e ++ B ":" ++ coCacheKey content in
              let '(c, hit) := cache_get (ae_cache e) key now in
              let e := set_cache e c in
              match hit with
              | Some r => (e, Settled {| ouResult := r; ouStatus := StatusCached; ouErr := None |})
              | None =>
                  match acRedact (ae_cfg e) with
                  | Some redact =>
                      let text := redact (coText content) in
                      if text =s RefuseSentinel then (e, Settled (outcome StatusRefused))
                      else (e, ToSend key text)
                  | None => (e, ToSend key (coText content))
                  end
              end
          end
    end.

(** [e.cfg.MaxCalls > 0 && n > int64(e.cfg.MaxCalls)] *)
Definition over_budget (cfg : AiConfig) (n : Z) : bool :=
  (0 <? acMaxCalls cfg)%Z && (acMaxCalls cfg <? n)%Z.

(** The provider's answer. *)
Definition finish_step (e : AiEvaluator) (key : bytes) (reply : bytes + option Result) (now : Z)
    : AiEvaluator * Outcome :=
  match reply with
  | inl err => (add_counts e 0 0 1, {| ouResult := no_Result; ouStatus := StatusError; ouErr := Some err |})
  | inr None =>
      (add_counts e 0 0 1, {| ouResult := no_Result; ouStatus := StatusError;
                              ouErr := Some (B "provider returned no usable risk level") |})
  | inr (Some r) =>
      if negb (level_Valid (reRiskLevel r)) then
        (add_counts e 0 0 1, {| ouResult := no_Result; ouStatus := StatusError;
                                ouErr := Some (B "provider returned no usable risk level") |})
      else (set_cache e (cache_put (ae_cache e) key r now),
            {| ouResult := r; ouStatus := StatusOK; ouErr := None |})
  end.

Definition classify (e : AiEvaluator) (stmt : Statement) (ec : option EvalContext)
    (ask : Z -> bytes -> bytes -> bytes + option Result) (now now' : Z) : AiEvaluator * Outcome :=
  let '(e, l) := lookup_step e stmt ec now in
  match l with
  | Settled o => (e, o)
  | ToSend key text =>
      let e := add_counts e 1 0 0 in
      let n := ae_calls e in
      if over_budget (ae_cfg e) n
      then (log_budget (add_counts e (-1) 0 0), outcome StatusBudget)
      else finish_step e key (ask (acTimeout (ae_cfg e)) (ae_prompt e) text) now'
  end.

(** ** The verdict *)

Definition ai_failure (cfg : AiConfig) (err : bytes) : Verdict :=
  if acFailOpen cfg then
    {| vDenied := false; vMessage := []; vRule := []; vErr := [EvaluatorError err]; vAnnotations := ∅ |}
  else
    {| vDenied := true; vMessage := B "risk analysis unavailable; denying"; vRule := acRule cfg;
       vErr := [EvaluatorError err]; vAnnotations := ∅ |}.

Definition with_notes (v : Verdict) (notes : gmap bytes bytes) : Verdict :=
  {| vDenied := vDenied v; vMessage := vMessage v; vRule := vRule v; vErr := vErr v; vAnnotations := notes |}.

Definition ai_notes (cfg : AiConfig) (status level action : bytes) : gmap bytes bytes :=
  let notes := {[ MetadataAIStatus := status; MetadataAIRule := acRule cfg ]} in
  let notes := if negb (level =s []) then <[MetadataRiskLevel := level]> notes else notes in
  if negb (action =s []) then <[MetadataAction := action]> notes else notes.

Definition prevLevel (f : Finding) : RiskLevel :=
  match fValues f !! B "risk_level" with Some (VString s) => s | _ => [] end.

Definition set_finding (ec : EvalContext) (f : Finding) : EvalContext :=
  {| ecAnnotations := ecAnnotations ec; ecFindings := <[Source := f]> (ecFindings ec);
     ecRequested := ecRequested ec; ecContext := ecContext ec |}.

Definition without_values (f : Finding) : Finding :=
  {| fSource := fSource f; fRule := fRule f; fStatus := fStatus f; fReason := fReason f; fValues := ∅ |}.

(** The finding of one outcome, folded onto the previous one. *)
Definition ai_finding (cfg : AiConfig) (status : bytes) (level : RiskLevel) : Finding :=
  {| fSource := Source; fRule := acRule cfg; fStatus := findingStatus status; fReason := statusReason status;
     fValues := if negb (level =s []) then {[ B "risk_level" := VString level ]} else ∅ |}.

Definition fold_finding (prev f : Finding) (level : RiskLevel) : Finding :=
  let f' :=
    if (FindingRank (fStatus f) <? FindingRank (fStatus prev))%Z then prev
    else if (FindingRank (fStatus prev) =? FindingRank (fStatus f))%Z
              && (rank level <=? rank (prevLevel prev))%Z then prev
    else f in
  if negb (Answered f') then without_values f' else f'.

Definition report (cfg : AiConfig) (ec : option EvalContext) (status : bytes) (level : RiskLevel)
    : option EvalContext :=
  (fun ec =>
     let f := ai_finding cfg status level in
     set_finding ec (match ec_Finding ec Source with Some prev => fold_finding prev f level | None => f end))
  <$> ec.

Definition message_or (msg fallback : bytes) : bytes := if msg =s [] then fallback else msg.

(** [EvaluateWith] behind [classify]. *)
Definition conclude (e : AiEvaluator) (ec : option EvalContext) (o : Outcome)
    : AiEvaluator * (option EvalContext * Verdict) :=
  let cfg := ae_cfg e in
  let status := ouStatus o in
  if status =s [] then (e, (ec, Allow))
  else
    let answered := (status =s StatusOK) || (status =s StatusCached) in
    let level := if answered then reRiskLevel (ouResult o) else [] in
    let action := if answered then actionFor (acActions cfg) level else [] in
    let ec := report cfg ec status level in
    if status =s StatusRefused then
      (add_counts e 0 1 0,
       (ec, with_notes (Deny (acRule cfg)
              (message_or (acMessage cfg) (B "statement contains sensitive data and cannot be risk-analyzed")))
              (ai_notes cfg status [] ActionBlock)))
    else if status =s StatusError then
      (e, (ec, with_notes (ai_failure cfg (default [] (ouErr o))) (ai_notes cfg status [] [])))
    else if (status =s StatusSkipped) || (status =s StatusBudget) then
      (e, (ec, with_notes Allow (ai_notes cfg status [] [])))
    else
      let notes := ai_notes cfg status level action in
      if negb (action =s ActionBlock) then (e, (ec, with_notes Allow notes))
      else
        (add_counts e 0 1 0,
         (ec, with_notes (Deny (acRule cfg)
                (message_or (message_or (acMessage cfg) (reTitle (ouResult o))) (B "refused by risk analysis")))
                notes)).

Definition ai_EvaluateWith (e : AiEvaluator) (stmt : Statement) (ec : option EvalContext)
    (ask : Z -> bytes -> bytes -> bytes + option Result) (now now' : Z)
    : AiEvaluator * (option EvalContext * Verdict) :=
  let '(e, o) := classify e stmt ec ask now now' in conclude e ec o.

Definition ai_Evaluate (e : AiEvaluator) (stmt : Statement)
    (ask : Z -> bytes -> bytes -> bytes + option Result) (now now' : Z) : AiEvaluator * Verdict :=
  let '(e, (_, v)) := ai_EvaluateWith e stmt None ask now now' in (e, v).

(** ** Reporting *)

Record AiStats := { asCalls : Z; asDenied : Z; asErrors : Z; asCacheHits : Z; asCacheMisses : Z }.

Definition ai_Stats (e : AiEvaluator) : AiStats :=
  {| asCalls := ae_calls e; asDenied := ae_denied e; asErrors := ae_errs e;
     asCacheHits := (cache_stats (ae_cache e)).1; asCacheMisses := (cache_stats (ae_cache e)).2 |}.
End Evaluator.
