(* ===== verification/AiBudget.v ===== *)
(** * Concurrent evaluations of one analyzer

    An analyzer is shared by every connection of a lane.  Each evaluation in
    flight is a thread; a step of the system is one access to the shared state:
    a cache lookup, one atomic addition, one call to the provider, one store.
    [w_made] counts the calls to the provider; nothing reads it. *)

From S2P Require Import Prelude GoStrings GoText Types Policy AiCache AiContent AiEvaluator.

Section Budget.
Context `{GoUnicode} `{Sha256}.

(** Where an evaluation stands in [classify]. *)
Inductive pc :=
  | AtStart (stmt : Statement) (ec : option EvalContext)
  | AtReserve (key text : bytes)         (* before [calls.Add(1)] *)
  | AtReturn                             (* over budget, before [calls.Add(-1)] *)
  | AtLog                                (* before [budgetLogged.Do] *)
  | AtCall (key text : bytes)            (* with a slot, before the provider *)
  | AtAnswer (key : bytes)               (* waiting for the provider *)
  | AtEnd (o : Outcome).

Record world := { w_ev : AiEvaluator; w_made : Z; w_threads : list pc }.

(** What a thread does alone: on the shared state, in calls made, to itself. *)
Inductive thread_step : AiEvaluator -> pc -> AiEvaluator -> Z -> pc -> Prop :=
  | step_settled e stmt ec now e' o :
      lookup_step e stmt ec now = (e', Settled o) -> thread_step e (AtStart stmt ec) e' 0 (AtEnd o)
  | step_miss e stmt ec now e' key text :
      lookup_step e stmt ec now = (e', ToSend key text) ->
      thread_step e (AtStart stmt ec) e' 0 (AtReserve key text)
  | step_over e key text :
      over_budget (ae_cfg e) (ae_calls e + 1) = true ->
      thread_step e (AtReserve key text) (add_counts e 1 0 0) 0 AtReturn
  | step_slot e key text :
      over_budget (ae_cfg e) (ae_calls e + 1) = false ->
      thread_step e (AtReserve key text) (add_counts e 1 0 0) 0 (AtCall key text)
  | step_return e : thread_step e AtReturn (add_counts e (-1) 0 0) 0 AtLog
  | step_log e : thread_step e AtLog (log_budget e) 0 (AtEnd (outcome StatusBudget))
  | step_call e key text : thread_step e (AtCall key text) e 1 (AtAnswer key)
  | step_answer e key reply now e' o :
      finish_step e key reply now = (e', o) -> thread_step e (AtAnswer key) e' 0 (AtEnd o).

Inductive wstep (w : world) : world -> Prop :=
  | wstep_arrive stmt ec :
      wstep w {| w_ev := w_ev w; w_made := w_made w; w_threads := w_threads w ++ [AtStart stmt ec] |}
  | wstep_thread i p e' n p' :
      w_threads w !! i = Some p -> thread_step (w_ev w) p e' n p' ->
      wstep w {| w_ev := e'; w_made := w_made w + n; w_threads := <[i := p']> (w_threads w) |}
  | wstep_conclude i o ec :
      (* the rest of [EvaluateWith], whose only shared access is [denied.Add] *)
      w_threads w !! i = Some (AtEnd o) ->
      wstep w {| w_ev := (conclude (w_ev w) ec o).1; w_made := w_made w; w_threads := w_threads w |}.

Inductive reachable (cfg : AiConfig) : world -> Prop :=
  | reach_new e : ai_New cfg = inr e -> reachable cfg {| w_ev := e; w_made := 0; w_threads := [] |}
  | reach_step w w' : reachable cfg w -> wstep w w' -> reachable cfg w'.

(** ** Counting threads *)

Definition holds_slot (p : pc) : bool := match p with AtCall _ _ => true | _ => false end.
Definition returns_slot (p : pc) : bool := match p with AtReturn => true | _ => false end.

Definition count (f : pc -> bool) (l : list pc) : Z := Z.of_nat (length (List.filter f l)).

Lemma count_app f l k : count f (l ++ k) = (count f l + count f k)%Z.
Proof. unfold count. rewrite List.filter_app, length_app. lia. Qed.

Lemma count_update f l i p p' :
  l !! i = Some p -> count f (<[i := p']> l) = (count f l - Z.b2z (f p) + Z.b2z (f p'))%Z.
Proof.
  intros Hi. rewrite insert_take_drop by (by eapply lookup_lt_Some).
  assert (count f l = count f (take i l ++ p :: drop (S i) l)) as -> by (by rewrite take_drop_middle).
  rewrite !count_app. unfold count. cbn [List.filter]. destruct (f p), (f p'); cbn [length Z.b2z]; lia.
Qed.

Lemma count_nonneg f l : (0 <= count f l)%Z.
Proof. unfold count. lia. Qed.

(** ** The invariant *)

Record budget_inv (cfg : AiConfig) (w : world) : Prop := {
  bi_cfg : ae_cfg (w_ev w) = with_defaults cfg;
  bi_calls : ae_calls (w_ev w)
    = (w_made w + count holds_slot (w_threads w) + count returns_slot (w_threads w))%Z;
  bi_budget : (0 < acMaxCalls cfg)%Z -> (w_made w + count holds_slot (w_threads w) <= acMaxCalls cfg)%Z;
  bi_made : (0 <= w_made w)%Z;
}.

Lemma lookup_step_calls e stmt ec now e' l :
  lookup_step e stmt ec now = (e', l) -> ae_cfg e' = ae_cfg e /\ ae_calls e' = ae_calls e.
Proof.
  unfold lookup_step. intros Hl. repeat (case_match; simplify_eq/=; try done).
Qed.

Lemma finish_step_calls e key reply now e' o :
  finish_step e key reply now = (e', o) -> ae_cfg e' = ae_cfg e /\ ae_calls e' = ae_calls e.
Proof.
  unfold finish_step. intros Hf. repeat (case_match; simplify_eq/=); (split; [done|lia]).
Qed.

Lemma conclude_calls e ec o :
  ae_cfg (conclude e ec o).1 = ae_cfg e /\ ae_calls (conclude e ec o).1 = ae_calls e
  /\ ae_cache (conclude e ec o).1 = ae_cache e.
Proof.
  unfold conclude. repeat case_match; cbn [fst add_counts ae_cfg ae_calls ae_cache]; repeat split; lia.
Qed.

(** What one step does to the counter, as the threads see it. *)
Lemma thread_step_calls e p e' n p' :
  thread_step e p e' n p' ->
  ae_cfg e' = ae_cfg e
  /\ ae_calls e' = (ae_calls e + n + Z.b2z (holds_slot p') + Z.b2z (returns_slot p')
       - Z.b2z (holds_slot p) - Z.b2z (returns_slot p))%Z
  /\ (0 <= n)%Z
  /\ ((n + Z.b2z (holds_slot p') - Z.b2z (holds_slot p) <= 0)%Z
      \/ over_budget (ae_cfg e) (ae_calls e + 1) = false
         /\ (n + Z.b2z (holds_slot p') - Z.b2z (holds_slot p) = 1)%Z).
Proof.
  destruct 1 as [? ? ? ? ? ? Hl|? ? ? ? ? ? ? Hl|? ? ? Ho|? ? ? Ho|?|?|? ? ?|? ? ? ? ? ? Hf];
    cbn [holds_slot returns_slot Z.b2z].
  - destruct (lookup_step_calls _ _ _ _ _ _ Hl) as [-> ->]. repeat split; lia.
  - destruct (lookup_step_calls _ _ _ _ _ _ Hl) as [-> ->]. repeat split; lia.
  - cbn. repeat split; lia.
  - cbn. repeat split; [lia|lia|by right].
  - cbn. repeat split; lia.
  - cbn. repeat split; lia.
  - repeat split; lia.
  - destruct (finish_step_calls _ _ _ _ _ _ Hf) as [-> ->]. repeat split; lia.
Qed.

Lemma budget_inv_step cfg w w' : budget_inv cfg w -> wstep w w' -> budget_inv cfg w'.
Proof.
  intros [I1 I2 I3 I4] Hs. destruct Hs as [stmt ec|i p e' n p' Hi Ht|i o ec Hi].
  - split; cbn [w_ev w_made w_threads]; rewrite ?count_app; try done; unfold count in *; simpl; lia.
  - destruct (thread_step_calls _ _ _ _ _ Ht) as (C1 & C2 & C3 & C4).
    split; cbn [w_ev w_made w_threads]; rewrite ?(count_update _ _ _ _ _ Hi).
    + congruence.
    + lia.
    + intros Hm. specialize (I3 Hm). destruct C4 as [C4|[Ho C4]]; [lia|].
      unfold over_budget in Ho. rewrite I1 in Ho. cbn [with_defaults acMaxCalls] in Ho.
      assert ((0 <? acMaxCalls cfg)%Z = true) as Hm' by (by apply Z.ltb_lt). rewrite Hm' in Ho.
      cbn [andb] in Ho. apply Z.ltb_ge in Ho. pose proof (count_nonneg returns_slot (w_threads w)). lia.
    + lia.
  - destruct (conclude_calls (w_ev w) ec o) as (C1 & C2 & _).
    split; cbn [w_ev w_made w_threads]; rewrite ?C1, ?C2; done.
Qed.

Lemma budget_inv_reachable cfg w : reachable cfg w -> budget_inv cfg w.
Proof.
  induction 1 as [e He|w w' _ IH Hs]; [|by eapply budget_inv_step].
  unfold ai_New in He. destruct (negb _); [done|]. destruct (check_actions _); [done|].
  injection He as <-. split; cbn [w_ev w_made w_threads ae_cfg ae_calls]; unfold count; cbn [List.filter length]; lia || done.
Qed.

(** C13 The budget holds under every interleaving: however many evaluations are in
    flight, an analyzer with a budget never makes more calls to the provider
    than the budget.  Whenever no reservation is pending the counter shown to
    the operator is the number of calls made; at any time it exceeds that
    number by no more than the evaluations in flight, so it does not
    overflow. *)
Theorem calls_within_budget cfg w :
  reachable cfg w ->
  ((0 < acMaxCalls cfg)%Z -> (w_made w <= acMaxCalls cfg)%Z)
  /\ (count holds_slot (w_threads w) = 0%Z -> count returns_slot (w_threads w) = 0%Z ->
      asCalls (ai_Stats (w_ev w)) = w_made w)
  /\ (w_made w <= ae_calls (w_ev w) <= w_made w + Z.of_nat (length (w_threads w)))%Z.
Proof.
  intros [I1 I2 I3 I4]%budget_inv_reachable. pose proof (count_nonneg holds_slot (w_threads w)).
  pose proof (count_nonneg returns_slot (w_threads w)). split; [intros ?%I3; lia|].
  split; [intros; cbn [ai_Stats asCalls]; lia|].
  assert (count holds_slot (w_threads w) + count returns_slot (w_threads w)
    <= Z.of_nat (length (w_threads w)))%Z; [|lia].
  clear. unfold count. induction (w_threads w) as [|p l IH]; [done|]. cbn [List.filter length].
  destruct p; cbn [holds_slot returns_slot length]; lia.
Qed.
End Budget.
