(* ===== verification/AiProps.v ===== *)
(** * What the analyzer says and does

    The vocabulary of its annotations, when it denies, how its findings fold,
    and that a single evaluation is a run of the concurrent system. *)

From S2P Require Import Prelude GoStrings GoText Types Policy AiCache AiContent AiEvaluator AiBudget.

Section Ai.
Context `{GoUnicode} `{Sha256}.

(** ** A single evaluation is a run of the system *)

Definition with_thread (w : world) (i : nat) (e : AiEvaluator) (n : Z) (p : pc) : world :=
  {| w_ev := e; w_made := w_made w + n; w_threads := <[i := p]> (w_threads w) |}.

Lemma then_step w i e n p e' m p' :
  i < length (w_threads w) -> rtc wstep w (with_thread w i e n p) -> thread_step e p e' m p' ->
  rtc wstep w (with_thread w i e' (n + m) p').
Proof.
  intros Hi Hr Ht. eapply rtc_r; [exact Hr|].
  replace (with_thread w i e' (n + m) p')
    with {| w_ev := e'; w_made := w_made (with_thread w i e n p) + m;
            w_threads := <[i := p']> (w_threads (with_thread w i e n p)) |}.
  - apply (wstep_thread _ i p); [by apply list_lookup_insert_eq|done].
  - unfold with_thread. cbn. f_equal; [lia|]. apply list_insert_insert_eq.
Qed.

Lemma classify_is_run w i stmt ec ask now now' e' o :
  w_threads w !! i = Some (AtStart stmt ec) ->
  classify (w_ev w) stmt ec ask now now' = (e', o) ->
  exists n, rtc wstep w (with_thread w i e' n (AtEnd o)) /\ (0 <= n <= 1)%Z.
Proof.
  intros Hi. pose proof (lookup_lt_Some _ _ _ Hi) as Hlt.
  assert (rtc wstep w (with_thread w i (w_ev w) 0 (AtStart stmt ec))) as H0'.
  { replace (with_thread w i (w_ev w) 0 (AtStart stmt ec)) with w; [done|]. unfold with_thread.
    rewrite list_insert_id by done. rewrite Z.add_0_r. by destruct w. }
  unfold classify. destruct (lookup_step _ _ _ _) as [e [o'|key text]] eqn:El.
  { intros [= <- <-]. exists 0%Z. split; [|lia].
    eapply then_step in H0'; [exact H0'|done|]. by eapply step_settled. }
  pose proof (then_step _ _ _ _ _ _ _ _ Hlt H0' (step_miss _ _ _ _ _ _ _ El)) as H1.
  cbv zeta. cbn [add_counts ae_cfg ae_calls ae_prompt].
  destruct (over_budget _ _) eqn:Eo.
  - intros [= <- <-]. exists 0%Z. split; [|lia].
    pose proof (then_step _ _ _ _ _ _ _ _ Hlt H1 (step_over _ _ _ Eo)) as H2.
    pose proof (then_step _ _ _ _ _ _ _ _ Hlt H2 (step_return _)) as H3.
    exact (then_step _ _ _ _ _ _ _ _ Hlt H3 (step_log _)).
  - intros Hf. exists 1%Z. split; [|lia].
    pose proof (then_step _ _ _ _ _ _ _ _ Hlt H1 (step_slot _ _ _ Eo)) as H2.
    pose proof (then_step _ _ _ _ _ _ _ _ Hlt H2 (step_call _ _ _)) as H3.
    exact (then_step _ _ _ _ _ _ _ _ Hlt H3 (step_answer _ _ _ _ _ _ Hf)).
Qed.

Lemma reachable_rtc cfg w w' : reachable cfg w -> rtc wstep w w' -> reachable cfg w'.
Proof. intros Hw Hr. induction Hr; [done|]. apply IHHr. by eapply reach_step. Qed.

Lemma classify_cfg e stmt ec ask now now' e' o :
  classify e stmt ec ask now now' = (e', o) -> ae_cfg e' = ae_cfg e.
Proof.
  unfold classify. destruct (lookup_step _ _ _ _) as [e1 [o1|key text]] eqn:El;
    apply lookup_step_calls in El as [<- _]; [by intros [= <- _]|].
  cbv zeta. destruct (over_budget _ _); [by intros [= <- _]|]. intros [-> _]%finish_step_calls. done.
Qed.

(** ** Outcomes *)

Definition degraded : list bytes := [StatusSkipped; StatusBudget; StatusRefused; StatusError].

(** A status the analyzer reports, with a level exactly where it answered. *)
Definition reports (status : bytes) (level : RiskLevel) : Prop :=
  (status ∈ [StatusOK; StatusCached] /\ level_Valid level = true) \/ (status ∈ degraded /\ level = []).

Definition outcome_ok (o : Outcome) : Prop :=
  ouStatus o = [] \/ reports (ouStatus o) (reRiskLevel (ouResult o)).

Definition valid_result (r : Result) : Prop := level_Valid (reRiskLevel r) = true.

Record ai_inv (w : world) : Prop := {
  ai_cache : cache_inv (ae_cache (w_ev w));
  ai_valid : cache_holds valid_result (ae_cache (w_ev w));
  ai_ends : Forall (fun p => match p with AtEnd o => outcome_ok o | _ => True end) (w_threads w);
}.

Lemma outcome_degraded s : s ∈ degraded -> outcome_ok (outcome s).
Proof. intros Hs. right. right. done. Qed.

Lemma lookup_step_ok e stmt ec now e' l :
  cache_inv (ae_cache e) -> cache_holds valid_result (ae_cache e) ->
  lookup_step e stmt ec now = (e', l) ->
  cache_inv (ae_cache e') /\ cache_holds valid_result (ae_cache e')
  /\ match l with Settled o => outcome_ok o | ToSend _ _ => True end.
Proof.
  intros Hi Hv. unfold lookup_step. case_bool_decide; [intros [= <- <-]; split; [done|split; [done|by left]]|].
  destruct (BuilderFor _) as [b|]; [|intros [= <- <-]; split; [done|split; [done|by left]]].
  destruct (negb _).
  { intros [= <- <-]. split; [done|split; [done|]]. apply outcome_degraded. left. }
  destruct (builder_Build _ _ _) as [content|].
  2:{ intros [= <- <-]. split; [done|split; [done|]]. apply outcome_degraded. left. }
  destruct (holds_get valid_result (ae_cache e) (ae_promptKey e ++ B ":" ++ coCacheKey content) now Hi Hv)
    as (Hi' & Hv' & Hr).
  destruct (cache_get _ _ _) as [c hit]. cbn [fst snd] in *. destruct hit as [r|].
  { intros [= <- <-]. split; [done|split; [done|]]. right. left. split; [right; left|by apply Hr]. }
  destruct (acRedact _) as [redact|]; [|by intros [= <- <-]].
  destruct (_ =s RefuseSentinel); intros [= <- <-]; (split; [done|split; [done|]]); [|done].
  apply outcome_degraded. do 2 right. left.
Qed.

Lemma finish_step_ok e key reply now e' o :
  cache_inv (ae_cache e) -> cache_holds valid_result (ae_cache e) ->
  finish_step e key reply now = (e', o) ->
  cache_inv (ae_cache e') /\ cache_holds valid_result (ae_cache e') /\ outcome_ok o.
Proof.
  intros Hi Hv. unfold finish_step.
  assert (forall err, outcome_ok {| ouResult := no_Result; ouStatus := StatusError; ouErr := err |}) as Her.
  { intros err. right. right. split; [|done]. do 3 right. left. }
  destruct reply as [err|[r|]]; [by intros [= <- <-]| |by intros [= <- <-]].
  destruct (level_Valid (reRiskLevel r)) eqn:Er; cbn [negb]; [|by intros [= <- <-]].
  intros [= <- <-]. destruct (holds_put valid_result (ae_cache e) key r now Hi Hv Er).
  split; [done|split; [done|]]. right. left. split; [left|done].
Qed.

Lemma ai_inv_step w w' : ai_inv w -> wstep w w' -> ai_inv w'.
Proof.
  intros [I1 I2 I3] Hs. destruct Hs as [stmt ec|i p e' n p' Hi Ht|i o ec Hi].
  - split; cbn; [done|done|]. apply Forall_app. by split; [|constructor].
  - assert (cache_inv (ae_cache e') /\ cache_holds valid_result (ae_cache e')
      /\ match p' with AtEnd o => outcome_ok o | _ => True end) as (H1 & H2 & H3).
    { destruct Ht as [? ? ? ? ? ? Hl|? ? ? ? ? ? ? Hl| | | | | |? ? ? ? ? ? Hf]; try done.
      - by apply (lookup_step_ok _ _ _ _ _ _ I1 I2 Hl).
      - by apply (lookup_step_ok _ _ _ _ _ _ I1 I2 Hl).
      - split; [done|split; [done|]]. apply outcome_degraded. right. left.
      - by apply (finish_step_ok _ _ _ _ _ _ I1 I2 Hf). }
    split; cbn; [done|done|]. by apply Forall_insert.
  - destruct (conclude_calls (w_ev w) ec o) as (_ & _ & C). split; cbn; by rewrite ?C.
Qed.

Lemma ai_inv_reachable cfg w : reachable cfg w -> ai_inv w.
Proof.
  induction 1 as [e He|w w' _ IH Hs]; [|by eapply ai_inv_step].
  unfold ai_New in He. destruct (negb _); [done|]. destruct (check_actions _); [done|].
  injection He as <-. split; cbn; [apply cache_inv_new|apply holds_new|constructor].
Qed.

(** ** The vocabulary *)

Definition enforced : list Action := [ActionAllow; ActionWarn; ActionBlock; AiActionDefer].

Lemma head_None {A} (l : list A) : head l = None -> l = [].
Proof. by destruct l. Qed.

Lemma checked_actions m level a :
  check_actions m = None -> m !! level = Some a -> a ∈ enforced.
Proof.
  unfold check_actions. intros Hn%head_None Ha%elem_of_map_to_list.
  assert (check_action (level, a) = None) as Hc.
  { destruct (check_action (level, a)) as [x|] eqn:E; [|done]. exfalso.
    assert (x ∈ omap check_action (map_to_list m)) as Hx.
    { apply list_elem_of_omap. by exists (level, a). }
    rewrite Hn in Hx. by apply elem_of_nil in Hx. }
  unfold check_action in Hc. cbn [fst snd] in Hc.
  destruct (negb (level_Valid level)); [done|]. destruct (action_Valid a) eqn:Ev; [|done]. cbn [negb] in Hc.
  destruct (a =s ActionRequireReview) eqn:Er; [done|]. unfold action_Valid in Ev. rewrite Er in Ev.
  rewrite orb_false_r in Ev. unfold enforced.
  repeat (apply orb_true_iff in Ev as [Ev|Ev]); bool_hyps; subst; set_solver.
Qed.

Lemma actionFor_enforced m level : check_actions m = None -> actionFor m level ∈ enforced.
Proof.
  intros Hc. unfold actionFor. destruct (m !! level) as [a|] eqn:E; [|left].
  destruct (negb _); [by apply (checked_actions m level)|left].
Qed.

Lemma lookup_insert_if (b : bool) (k0 v : bytes) (m : gmap bytes bytes) (k x : bytes) :
  (if b then <[k0 := v]> m else m) !! k = Some x -> (b = true /\ k = k0 /\ x = v) \/ m !! k = Some x.
Proof. destruct b; [|by right]. intros [[<- <-]|[_ Hx]]%lookup_insert_Some; [by left|by right]. Qed.

Lemma notes_lookup cfg status level action k x :
  ai_notes cfg status level action !! k = Some x ->
  (k = MetadataAIStatus /\ x = status) \/ (k = MetadataAIRule /\ x = acRule cfg)
  \/ (k = MetadataRiskLevel /\ x = level /\ level <> []) \/ (k = MetadataAction /\ x = action /\ action <> []).
Proof.
  unfold ai_notes. intros [(Ha & -> & ->)|[(Hl & -> & ->)|Hx]%lookup_insert_if]%lookup_insert_if.
  - do 3 right. by bool_hyps.
  - do 2 right. left. by bool_hyps.
  - apply lookup_insert_Some in Hx as [[<- <-]|[_ Hx]]; [by left|].
    apply lookup_singleton_Some in Hx as [<- <-]. right. by left.
Qed.

Lemma reachable_checked cfg w : reachable cfg w -> check_actions (acActions cfg) = None.
Proof.
  induction 1 as [e He|]; [|done]. unfold ai_New in He. destruct (negb _); [done|].
  by destruct (check_actions _).
Qed.

(** What the four keys may carry. *)
Definition in_vocabulary (cfg : AiConfig) (k x : bytes) : Prop :=
  (k = MetadataAIStatus /\ x ∈ StatusOK :: StatusCached :: degraded)
  \/ (k = MetadataAIRule /\ x = acRule (with_defaults cfg))
  \/ (k = MetadataRiskLevel /\ level_Valid x = true)
  \/ (k = MetadataAction /\ x ∈ enforced).

Lemma conclude_notes e ec o :
  exists level action, (ouStatus o <> [] /\ vAnnotations (conclude e ec o).2.2 = ai_notes (ae_cfg e) (ouStatus o) level action
      \/ vAnnotations (conclude e ec o).2.2 = ∅)
  /\ (level = [] \/ level = reRiskLevel (ouResult o) /\ ouStatus o ∈ [StatusOK; StatusCached])
  /\ (action = [] \/ action = ActionBlock \/ exists l, action = actionFor (acActions (ae_cfg e)) l).
Proof.
  unfold conclude. destruct (ouStatus o =s []) eqn:E0; bool_hyps.
  { exists [], []. split; [by right|]. by split; left. }
  destruct (_ =s StatusRefused); [exists [], ActionBlock; split; [by left|]; split; [by left|]; by (left + (right; left))|].
  destruct (_ =s StatusError); [exists [], []; split; [by left|]; split; [by left|]; by (left + (right; left))|].
  destruct ((ouStatus o =s StatusSkipped) || _); [exists [], []; split; [by left|]; split; [by left|]; by (left + (right; left))|].
  set (an := (ouStatus o =s StatusOK) || (ouStatus o =s StatusCached)).
  set (level := if an then reRiskLevel (ouResult o) else []).
  exists level, (if an then actionFor (acActions (ae_cfg e)) level else []). split; [|split].
  - left. split; [done|]. by destruct (negb _).
  - unfold level. destruct an eqn:E; [right|by left]. split; [done|]. unfold an in E.
    apply orb_true_iff in E as [E|E]; bool_hyps; rewrite E; set_solver.
  - destruct an; [|by left]. right. right. by exists level.
Qed.

(** C38 Annotations are classifications: whatever the provider answers and however
    evaluations interleave, the annotations an analyzer puts on a verdict, which
    reach the audit trail unredacted, have one of four keys, and under each a
    word of a fixed set: one of six statuses, one of three levels, one of four
    actions, and the configured name of the rule.  No text of the statement and
    no prose of the model can be among them. *)
Theorem annotations_vocabulary cfg w i o ec k x :
  reachable cfg w -> w_threads w !! i = Some (AtEnd o) ->
  vAnnotations (conclude (w_ev w) ec o).2.2 !! k = Some x -> in_vocabulary cfg k x.
Proof.
  intros Hr Hi. pose proof (ai_inv_reachable _ _ Hr) as [_ _ He].
  pose proof (proj1 (Forall_lookup _ _) He i _ Hi) as Ho. cbn in Ho.
  pose proof (bi_cfg _ _ (budget_inv_reachable _ _ Hr)) as Hcfg.
  pose proof (reachable_checked _ _ Hr) as Hact.
  destruct (conclude_notes (w_ev w) ec o) as (level & action & [[Hs0 ->]| ->] & Hl & Ha); [|done].
  rewrite Hcfg in *. intros [[-> ->]|[[-> ->]|[(-> & -> & Hne)|(-> & -> & Hne)]]]%notes_lookup.
  - left. split; [done|]. unfold outcome_ok, reports in Ho. destruct Ho as [Ho|[[Ho _]|[Ho _]]]; [done|set_solver..].
  - right. by left.
  - do 2 right. left. split; [done|]. destruct Hl as [->|[-> Hs]]; [done|].
    destruct Ho as [Ho|[[_ Ho]|[_ Ho]]]; [rewrite Ho in Hs; set_solver|done|by rewrite Ho in Hne].
  - do 3 right. split; [done|]. destruct Ha as [->|[->|[l ->]]]; [done|set_solver|].
    by apply actionFor_enforced.
Qed.

(** ** How findings fold *)

Definition answered (status : bytes) : bool := (status =s StatusOK) || (status =s StatusCached).

Lemma reports_cases status level :
  reports status level ->
  (findingStatus status = status /\ FindingRank status = 1%Z /\ (1 <= rank level)%Z /\ level_Valid level = true
   /\ Answered {| fSource := Source; fRule := []; fStatus := status; fReason := []; fValues := ∅ |} = true)
  \/ ((2 <= FindingRank (findingStatus status))%Z /\ level = [] /\
      Answered {| fSource := Source; fRule := []; fStatus := findingStatus status; fReason := []; fValues := ∅ |} = false).
Proof.
  intros [[Hs Hl]|[Hs ->]].
  - left. assert (1 <= rank level)%Z as Hr.
    { unfold level_Valid in Hl. repeat (apply orb_true_iff in Hl as [Hl|Hl]); bool_hyps; subst; by vm_compute. }
    repeat (apply elem_of_cons in Hs as [->|Hs]); [by repeat split..|by apply elem_of_nil in Hs].
  - right. unfold degraded in Hs.
    repeat (apply elem_of_cons in Hs as [->|Hs]); [by vm_compute..|by apply elem_of_nil in Hs].
Qed.

(** The level of a rank. *)
Definition level_of (r : Z) : RiskLevel :=
  if (r =? 3)%Z then RiskHigh else if (r =? 2)%Z then RiskMedium else if (r =? 1)%Z then RiskLow else [].

Lemma level_of_rank level : level_Valid level = true -> level_of (rank level) = level.
Proof.
  unfold level_Valid. intros Hl. repeat (apply orb_true_iff in Hl as [Hl|Hl]); bool_hyps; subst; done.
Qed.

(** The worst status and the highest level of several reports. *)
Definition worst (l : list (AiConfig * bytes * RiskLevel)) : Z :=
  fold_right Z.max 0%Z (map (fun x => FindingRank (findingStatus x.1.2)) l).
Definition highest (l : list (AiConfig * bytes * RiskLevel)) : Z :=
  fold_right Z.max 0%Z (map (fun x => rank x.2) l).

Definition report_one (ec : option EvalContext) (x : AiConfig * bytes * RiskLevel) : option EvalContext :=
  report x.1.1 ec x.1.2 x.2.

(** The finding of the reports [l] is in place. *)
Definition folded (l : list (AiConfig * bytes * RiskLevel)) (f : Finding) : Prop :=
  FindingRank (fStatus f) = worst l
  /\ fValues f = (if (worst l =? 1)%Z then {[ B "risk_level" := VString (level_of (highest l)) ]} else ∅)
  /\ ((worst l = 1)%Z <-> Answered f = true) /\ (1 <= worst l)%Z
  /\ ((worst l = 1)%Z -> prevLevel f = level_of (highest l) /\ rank (prevLevel f) = highest l).

Lemma max_snoc l z : fold_right Z.max 0%Z (l ++ [z]) = Z.max (fold_right Z.max 0%Z l) (Z.max z 0).
Proof. induction l as [|y l IH]; cbn [app fold_right]; [lia|]. rewrite IH. lia. Qed.

Lemma max_nonneg l : (0 <= fold_right Z.max 0 l)%Z.
Proof. induction l as [|y l IH]; cbn [fold_right]; lia. Qed.

Lemma rank_nonneg level : (0 <= rank level)%Z.
Proof. unfold rank. repeat case_match; lia. Qed.

Lemma worst_snoc l cfg status level :
  (0 <= FindingRank (findingStatus status))%Z ->
  worst (l ++ [(cfg, status, level)]) = Z.max (worst l) (FindingRank (findingStatus status)).
Proof. intros Hs. unfold worst. rewrite map_app. cbn [map fst snd]. rewrite max_snoc. lia. Qed.

Lemma highest_snoc l cfg status level :
  highest (l ++ [(cfg, status, level)]) = Z.max (highest l) (rank level).
Proof. unfold highest. rewrite map_app. cbn [map snd]. rewrite max_snoc. pose proof (rank_nonneg level). lia. Qed.

(** One report. *)
Lemma folded_one cfg status level :
  reports status level -> folded [(cfg, status, level)] (ai_finding cfg status level).
Proof.
  intros [(E1 & E2 & E3 & E4 & E5)|(E1 & -> & E3)]%reports_cases; unfold folded.
  - assert (worst [(cfg, status, level)] = 1%Z) as -> by (unfold worst; cbn; rewrite E1, E2; lia).
    assert (highest [(cfg, status, level)] = rank level) as -> by (unfold highest; cbn; lia).
    unfold ai_finding, prevLevel. cbn [fStatus fValues]. rewrite E1, E2.
    destruct (level =s []) eqn:El; bool_hyps; [by subst|]. cbn [negb]. rewrite level_of_rank by done.
    change (1 =? 1)%Z with true. rewrite lookup_singleton_eq. split; [done|]. split; [done|].
    split; [split; [intros _; exact E5|done]|]. split; [lia|done].
  - assert (worst [(cfg, status, [])] = FindingRank (findingStatus status)) as Hw by (unfold worst; cbn; lia).
    rewrite Hw. cbn [ai_finding fStatus fValues]. change ([] =s []) with true. cbn [negb].
    destruct (_ =? 1)%Z eqn:E; bool_hyps; [lia|]. split; [done|]. split; [done|].
    split; [split; [lia|]|split; lia]. unfold Answered in *. cbn [fStatus ai_finding] in *. by rewrite E3.
Qed.

Lemma folded_degraded l f :
  folded l f -> (2 <= worst l)%Z -> Answered f = false /\ fValues f = ∅ /\ prevLevel f = [].
Proof.
  intros (F1 & F2 & F3 & _ & _) Hw. assert ((worst l =? 1)%Z = false) as E by (apply Z.eqb_neq; lia).
  rewrite E in F2. split; [|split; [done|unfold prevLevel; by rewrite F2]].
  destruct (Answered f) eqn:Ea; [|done]. destruct F3 as [_ F3]. specialize (F3 eq_refl). lia.
Qed.

(** A finding that is degraded, in whatever way it came to be. *)
Lemma folded_stripped l f :
  FindingRank (fStatus f) = worst l -> (2 <= worst l)%Z -> Answered f = false -> folded l (without_values f).
Proof.
  intros Hr Hw Ha. unfold folded. assert ((worst l =? 1)%Z = false) as -> by (apply Z.eqb_neq; lia).
  split; [done|]. split; [done|]. split; [|split; lia]. unfold Answered in *. cbn [without_values fStatus].
  rewrite Ha. split; [lia|done].
Qed.

Lemma folded_snoc l f cfg status level :
  folded l f -> reports status level ->
  folded (l ++ [(cfg, status, level)]) (fold_finding f (ai_finding cfg status level) level).
Proof.
  intros Hf Hr. pose proof Hf as (F1 & F2 & F3 & F4 & F5).
  pose proof (folded_one cfg status level Hr) as (N1 & N2 & N3 & N4 & N5).
  assert (worst [(cfg, status, level)] = FindingRank (findingStatus status)) as Hw.
  { unfold worst. cbn. destruct (reports_cases _ _ Hr) as [(-> & -> & _)|(? & _)]; lia. }
  assert (highest [(cfg, status, level)] = rank level) as Hh.
  { unfold highest. cbn. pose proof (rank_nonneg level). lia. }
  rewrite Hw in N1, N2, N3, N4, N5.
  assert (worst (l ++ [(cfg, status, level)]) = Z.max (worst l) (FindingRank (findingStatus status))) as Hws
    by (apply worst_snoc; lia).
  unfold fold_finding. rewrite F1, N1.
  destruct (FindingRank (findingStatus status) <? worst l)%Z eqn:E1; bool_hyps.
  { destruct (folded_degraded l f Hf) as (-> & _); [lia|]. cbn [negb].
    apply folded_stripped; [lia|lia|]. by apply (folded_degraded l f Hf); lia. }
  destruct (worst l =? FindingRank (findingStatus status))%Z eqn:E2; bool_hyps; cbn [andb].
  2:{ assert (Answered (ai_finding cfg status level) = false) as Ha.
      { apply not_true_iff_false. intros Ea%N3. lia. }
      rewrite Ha. cbn [negb]. apply folded_stripped; [rewrite N1; lia|lia|done]. }
  destruct (decide (2 <= worst l)%Z) as [Hd|Hd].
  - destruct (folded_degraded l f Hf Hd) as (Ha & _ & Hp). rewrite Hp.
    destruct (reports_cases _ _ Hr) as [(Hx & Hy & _)|(_ & -> & _)]; [rewrite Hx, Hy in E2; lia|].
    change (rank [] <=? rank [])%Z with true. cbv iota. rewrite Ha. cbn [negb].
    apply folded_stripped; [lia|lia|done].
  - assert (worst l = 1%Z) as Hw1 by lia. rewrite Hw1 in *. specialize (F5 eq_refl) as [F5 F6].
    rewrite <- E2 in *. specialize (N5 eq_refl) as [N5 N6]. rewrite F6.
    assert (highest (l ++ [(cfg, status, level)]) = Z.max (highest l) (rank level)) as Hhs by apply highest_snoc.
    destruct (rank level <=? highest l)%Z eqn:E3; bool_hyps; cbv iota.
    + rewrite (proj1 F3 eq_refl). cbn [negb]. unfold folded. rewrite Hws, Hhs.
      replace (Z.max 1 1) with 1%Z by lia. replace (Z.max (highest l) (rank level)) with (highest l) by lia.
      by split; [|split; [|split; [|split]]].
    + rewrite (proj1 N3 eq_refl). cbn [negb]. unfold folded. rewrite Hws, Hhs.
      replace (Z.max 1 1) with 1%Z by lia. replace (Z.max (highest l) (rank level)) with (rank level) by lia.
      rewrite Hh in *. by split; [|split; [|split; [|split]]].
Qed.

(** Findings fold to the worst: when several rules of a lane report, whatever
    the order, the finding a policy reads has the most degraded status of them
    all; it carries a risk level only when every rule answered, and then the
    highest one; nothing else in the context changes. *)
Theorem findings_fold_to_worst ec l :
  Forall (fun x => reports x.1.2 x.2) l -> l <> [] -> ecFindings ec !! Source = None ->
  exists f, fold_left report_one l (Some ec) = Some (set_finding ec f)
  /\ FindingRank (fStatus f) = worst l
  /\ fValues f = (if (worst l =? 1)%Z then {[ B "risk_level" := VString (level_of (highest l)) ]} else ∅).
Proof.
  intros Hl Hne Hec.
  enough (exists f, fold_left report_one l (Some ec) = Some (set_finding ec f) /\ folded l f)
    as (f & ? & ? & ? & _) by (by exists f).
  destruct l as [|x l]; [done|]. clear Hne. induction l as [|[[cfg status] level] l IH] using rev_ind.
  { destruct x as [[cfg status] level]. inversion_clear Hl. eexists. split; [|by apply folded_one].
    cbn [fold_left]. unfold report_one, report. cbn [fst snd fmap option_fmap option_map]. unfold ec_Finding.
    by rewrite Hec. }
  rewrite app_comm_cons in *. apply Forall_app in Hl as [Hl Hx]. inversion_clear Hx as [|? ? Hx1 _].
  destruct (IH Hl) as (f & Hfold & Hf). eexists. split; [|by apply folded_snoc].
  rewrite fold_left_app, Hfold. cbn [fold_left]. unfold report_one, report.
  cbn [fst snd fmap option_fmap option_map]. unfold ec_Finding, set_finding. cbn [ecFindings ecAnnotations ecRequested ecContext].
  rewrite lookup_insert_eq. do 2 f_equal. by rewrite insert_insert_eq.
Qed.
End Ai.
