(* ===== verification/TwoPhase.v ===== *)
(** * A lane that consults OPA twice

    Local evaluators, OPA's gate phase, the analyzer and OPA's decide phase in
    one chain, as the sidecar assembles them: what the gate asks for is what the
    analyzer does, and what the analyzer found is what the agent decides on. *)

From S2P Require Import Prelude GoStrings GoText Types Json Policy PolicyProps Opa AiCache AiContent.
From S2P Require Import AiEvaluator AiBudget AiProps Utf.

Section TwoPhase.
Context `{GoUnicode} `{Sha256} `{OpaServer}.

(** The analyzer as it stands, on one statement. *)
Definition ai_evaluator (e : AiEvaluator) (ask : Z -> bytes -> bytes -> bytes + option Result) (now now' : Z)
    : Evaluator :=
  Contextual (fun stmt ec =>
    let '(_, (ec', v)) := ai_EvaluateWith e stmt (Some ec) ask now now' in (default ec ec', v)).

Definition opa_evaluator (c : OPAClient) : Evaluator := Contextual (OPA_EvaluateWith c).

(** What an outcome reports, and whether it denies. *)
Definition outcome_level (o : Outcome) : RiskLevel :=
  if answered (ouStatus o) then reRiskLevel (ouResult o) else [].

Definition outcome_denies (cfg : AiConfig) (o : Outcome) : bool :=
  (ouStatus o =s StatusRefused)
  || ((ouStatus o =s StatusError) && negb (acFailOpen cfg))
  || (answered (ouStatus o) && (actionFor (acActions cfg) (outcome_level o) =s ActionBlock)).

(** The finding in place behind the analyzer. *)
Definition finding_after (cfg : AiConfig) (prev : option Finding) (o : Outcome) : option Finding :=
  if ouStatus o =s [] then prev
  else
    let f := ai_finding cfg (ouStatus o) (outcome_level o) in
    Some (match prev with Some prev => fold_finding prev f (outcome_level o) | None => f end).

Lemma conclude_denies e ec o : vDenied (conclude e ec o).2.2 = outcome_denies (ae_cfg e) o.
Proof.
  unfold conclude, outcome_denies, outcome_level, answered, ai_failure.
  destruct (decide (ouStatus o = [])) as [->|N1]; [done|].
  destruct (decide (ouStatus o = StatusRefused)) as [->|N2]; [done|].
  destruct (decide (ouStatus o = StatusError)) as [->|N3].
  { cbn. by destruct (acFailOpen _). }
  destruct (decide (ouStatus o = StatusSkipped)) as [->|N4]; [done|].
  destruct (decide (ouStatus o = StatusBudget)) as [->|N5]; [done|].
  assert (forall s, ouStatus o <> s -> (ouStatus o =s s) = false) as Hs by (intros s ?; by apply bool_decide_eq_false).
  rewrite !Hs by done. cbn [orb andb].
  destruct ((ouStatus o =s StatusOK) || _); cbn [andb]; [|done].
  destruct (_ =s ActionBlock); done.
Qed.

Lemma conclude_context e ec o :
  exists ec', (conclude e (Some ec) o).2.1 = Some ec'
    /\ ecFindings ec' !! Source = finding_after (ae_cfg e) (ecFindings ec !! Source) o
    /\ (forall k, k <> Source -> ecFindings ec' !! k = ecFindings ec !! k).
Proof.
  unfold conclude, finding_after. destruct (ouStatus o =s []); [by exists ec|].
  exists (set_finding ec (let f := ai_finding (ae_cfg e) (ouStatus o) (outcome_level o) in
    match ecFindings ec !! Source with Some prev => fold_finding prev f (outcome_level o) | None => f end)).
  split; [|split].
  - transitivity (report (ae_cfg e) (Some ec) (ouStatus o) (outcome_level o)); [|reflexivity].
    unfold outcome_level, answered. destruct ((ouStatus o =s StatusOK) || _); repeat case_match; reflexivity.
  - cbn [set_finding ecFindings]. rewrite lookup_insert_eq. reflexivity.
  - intros k Hk. cbn [set_finding ecFindings]. by rewrite lookup_insert_ne by done.
Qed.

(** Without a wish for it, no provider call is made: the evaluator is left as
    it was, and its outcome is the same whatever the provider would answer. *)
Lemma unwanted_not_asked e stmt ec ask now now' :
  wanted e stmt ec = false ->
  (classify e stmt ec ask now now').1 = e
  /\ ouStatus (classify e stmt ec ask now now').2 ∈ [[]; StatusSkipped]
  /\ forall ask', classify e stmt ec ask' now now' = classify e stmt ec ask now now'.
Proof.
  intros Hw. unfold classify, lookup_step. case_bool_decide; [split; [done|split; [left|done]]|].
  destruct (BuilderFor _); [|split; [done|split; [left|done]]]. rewrite Hw. split; [done|]. split; [right; left|done].
Qed.

(** One more evaluator of a chain that allows. *)
Lemma chain_allows_cons e c stmt ec errs :
  vDenied (chain_loop (e :: c) stmt ec errs).2 = false ->
  vDenied (run_evaluator e stmt ec).2 = false
  /\ exists m errs', vDenied (chain_loop c stmt (set_annotations (run_evaluator e stmt ec).1 m) errs').2 = false.
Proof.
  cbn [chain_loop]. destruct (run_evaluator e stmt ec) as [ec' v]. cbn [fst snd].
  destruct (vDenied v); [done|]. intros Hc. split; [done|]. by eexists _, _.
Qed.

(** C6 OPA decides on what the analyzer found: in a lane of local evaluators, a
    gate call, the analyzer and a decide call, neither of the two agents failing
    open, a statement passes only when the evaluators before the gate let it
    pass, the gate's agent consented to it, the analyzer's outcome is not one
    that denies, and the decide agent consented to a document whose findings
    carry that outcome: the status, and the level where the model answered,
    folded with what an earlier rule reported.  What the gate's agent asked for
    is on the context the analyzer sees, over what was asked before; where it
    named the analyzer, its answer replaces the trigger, and after a no the
    model is not asked: the analyzer is left as it was and its outcome does not
    depend on what the model would say. *)
Theorem two_phase_decides pre g d e ask now now' stmt ec :
  oaPhase g = PhaseGate -> oaPhase d = PhaseDecide -> oaFailOpen g = false -> oaFailOpen d = false ->
  let lane := pre ++ [opa_evaluator g; ai_evaluator e ask now now'; opa_evaluator d] in
  vDenied (Chain_EvaluateWith lane stmt ec).2 = false ->
  exists ec0 ec1 ec2 r1 r2,
    let o := (classify e stmt (Some ec1) ask now now').2 in
    vDenied (Chain_EvaluateWith pre stmt ec).2 = false /\ ec0 = (Chain_EvaluateWith pre stmt ec).1
    /\ agent_result g (opa_body g stmt (Some ec0)) r1 /\ consents g r1
    /\ ecFindings ec1 = ecFindings ec0
    /\ ecRequested ec1 = asked_for r1 ∪ ecRequested ec0
    /\ (forall want, asked_for r1 !! Source = Some want -> wanted e stmt (Some ec1) = want)
    /\ (asked_for r1 !! Source = Some false ->
        ouStatus o ∈ [[]; StatusSkipped]
        /\ forall ask', classify e stmt (Some ec1) ask' now now' = (e, o))
    /\ outcome_denies (ae_cfg e) o = false
    /\ agent_result d (opa_body d stmt (Some ec2)) r2 /\ consents d r2
    /\ oiFindings (opa_input d stmt (Some ec2)) !! Source
       = finding_after (ae_cfg e) (ecFindings ec0 !! Source) o.
Proof.
  intros Hg Hd Fg Fd lane. unfold lane, Chain_EvaluateWith. rewrite chain_loop_app.
  destruct (chain_loop pre stmt ec []) as [ec0 v0]. cbn [fst snd]. destruct (vDenied v0) eqn:Hv0; [cbn [snd]; congruence|].
  cbn [fst snd]. intros (Ag & m1 & errs1 & L1)%chain_allows_cons.
  apply chain_allows_cons in L1 as (Aa & m2 & errs2 & L2). apply chain_allows_cons in L2 as (Ad & _).
  cbn [run_evaluator opa_evaluator ai_evaluator] in *.
  apply opa_fails_closed_aux in Ag as (r1 & R1 & C1); [|done].
  apply opa_fails_closed_aux in Ad as (r2 & R2 & C2); [|done].
  rewrite (gate_requests g stmt ec0 r1) in * by done.
  set (ec1 := set_annotations (set_requested ec0 (asked_for r1 ∪ ecRequested ec0)) m1) in *.
  assert (forall want, asked_for r1 !! Source = Some want -> wanted e stmt (Some ec1) = want) as Hwant.
  { intros want Hq. unfold wanted, WantsRun. cbn [ec1 set_annotations set_requested ecRequested].
    by rewrite (lookup_union_Some_l _ _ _ _ Hq). }
  assert (asked_for r1 !! Source = Some false ->
    ouStatus (classify e stmt (Some ec1) ask now now').2 ∈ [[]; StatusSkipped]
    /\ forall ask', classify e stmt (Some ec1) ask' now now' = (e, (classify e stmt (Some ec1) ask now now').2)) as Hno.
  { intros Hq. destruct (unwanted_not_asked e stmt (Some ec1) ask now now' (Hwant _ Hq)) as (U1 & U2 & U3).
    split; [done|]. intros ask'. rewrite U3. destruct (classify e stmt (Some ec1) ask now now') as [e1 o1].
    cbn [fst snd] in *. by rewrite U1. }
  unfold ai_EvaluateWith in *. destruct (classify e stmt (Some ec1) ask now now') as [e' o] eqn:Ec.
  assert (ae_cfg e' = ae_cfg e) as Hcfg by (by eapply classify_cfg).
  pose proof (conclude_denies e' (Some ec1) o) as Hden. destruct (conclude_context e' ec1 o) as (ec' & E1 & E2 & _).
  destruct (conclude e' (Some ec1) o) as [e'' [eco v]]. cbn [fst snd] in *. subst eco. cbn [default from_option id] in *.
  exists ec0, ec1, (set_annotations ec' m2), r1, r2. rewrite Ec. cbn [snd].
  do 8 (split; [done|]). split; [by rewrite <- Hcfg, <- Hden|]. split; [done|]. split; [done|].
  unfold opa_input. cbn [oiFindings]. rewrite findings_shown by done. cbn [set_annotations ecFindings].
  by rewrite E2, Hcfg.
Qed.
End TwoPhase.

(** ** A concrete lane *)

#[local] Existing Instance ascii_only.
#[local] Instance plain_sha : Sha256 := {| Sum256 s := s |}.

Fixpoint render (j : JSON) : bytes :=
  match j with
  | JNull => B "null"
  | JBool b => if b then B "true" else B "false"
  | JNumber n => itoa n
  | JString s => [x22] ++ s ++ [x22]
  | JArray l => B "[" ++ Join (map render l) (B ",") ++ B "]"
  | JObject l => B "{" ++ Join (map (fun '(k, v) => [x22] ++ k ++ [x22] ++ B ":" ++ render v) l) (B ",") ++ B "}"
  end.

(** An agent whose gate asks for the analysis of everything and whose decision
    refuses what was found to be of high risk, or not rated at all; its replies
    are abbreviated on the wire. *)
#[local] Instance toy_agent : OpaServer := {
  json_Marshal doc := Some (render doc);
  json_Decode reply :=
    if reply =s B "ask" then
      Some (JObject [(B "result", JObject [(B "allow", JBool true);
        (B "request", JObject [(Source, JBool true)])])])
    else if reply =s B "skip" then
      Some (JObject [(B "result", JObject [(B "allow", JBool true);
        (B "request", JObject [(Source, JBool false)])])])
    else if reply =s B "yes" then Some (JObject [(B "result", JBool true)])
    else if reply =s B "no" then Some (JObject [(B "Result", JBool false)])
    else None;
  client_Do _ url doc :=
    if Contains doc ([x22] ++ B "gate" ++ [x22]) then Replied 200 url
    else if Contains doc (B "low") || Contains doc (B "skipped") then Replied 200 (B "yes")
    else Replied 200 (B "no");
}.

Definition toy_opa (phase url : bytes) : OPAClient :=
  {| oaURL := url; oaTimeout := 0; oaPhase := phase; oaFailOpen := false; oaContext := ∅ |}.

(** A rule that leaves every level to the policy and has no trigger. *)
Definition defer_all : AiConfig :=
  {| acRule := B "risk"; acProvider := true;
     acActions := {[ RiskLow := AiActionDefer; RiskMedium := AiActionDefer; RiskHigh := AiActionDefer ]};
     acTrigger := {| atOperations := []; atTables := []; atResources := [] |};
     acMessage := []; acGuidance := []; acTimeout := 0; acFailOpen := false; acMaxInputBytes := 0;
     acCacheSize := 2; acCacheTTL := 10; acMaxCalls := 1; acRedact := None |}.

Definition fresh (cfg : AiConfig) : AiEvaluator :=
  match ai_New cfg with
  | inr e => e
  | inl _ => {| ae_cfg := cfg; ae_cache := newCache 0 0; ae_prompt := []; ae_promptKey := []; ae_calls := 0;
                ae_denied := 0; ae_errs := 0; ae_budgetLogged := false |}
  end.

Definition rated (level : RiskLevel) : Z -> bytes -> bytes -> bytes + option Result :=
  fun _ _ _ => inr (Some {| reRiskLevel := level; reTitle := B "drops a table"; reExplanation := [] |}).

Definition toy_lane (gate_reply : bytes) (level : RiskLevel) : list Evaluator :=
  [] ++ [opa_evaluator (toy_opa PhaseGate gate_reply); ai_evaluator (fresh defer_all) (rated level) 0 1;
         opa_evaluator (toy_opa PhaseDecide (B "http://opa"))].

(** The same statement, rated low and rated high, and with the gate's veto. *)
Lemma toy_lane_runs :
  vDenied (Chain_EvaluateWith (toy_lane (B "ask") RiskLow) drop_customers empty_context).2 = false
  /\ vDenied (Chain_EvaluateWith (toy_lane (B "ask") RiskHigh) drop_customers empty_context).2 = true
  /\ vDenied (Chain_EvaluateWith (toy_lane (B "skip") RiskHigh) drop_customers empty_context).2 = false.
Proof. vm_compute. repeat split; reflexivity. Qed.

Lemma two_phase_decides_witness :
  exists ec2 r2, agent_result (toy_opa PhaseDecide (B "http://opa"))
      (opa_body (toy_opa PhaseDecide (B "http://opa")) drop_customers (Some ec2)) r2
    /\ consents (toy_opa PhaseDecide (B "http://opa")) r2.
Proof.
  destruct (two_phase_decides [] (toy_opa PhaseGate (B "ask")) (toy_opa PhaseDecide (B "http://opa"))
    (fresh defer_all) (rated RiskLow) 0 1 drop_customers empty_context)
    as (ec0 & ec1 & ec2 & r1 & r2 & _ & _ & _ & _ & _ & _ & _ & _ & _ & R2 & C2 & _).
  - reflexivity.
  - reflexivity.
  - reflexivity.
  - reflexivity.
  - vm_compute. reflexivity.
  - by exists ec2, r2.
Defined.

Lemma opa_fails_closed_witness :
  exists r, agent_result (toy_opa PhaseGate (B "ask"))
      (opa_body (toy_opa PhaseGate (B "ask")) drop_customers (Some empty_context)) r
    /\ consents (toy_opa PhaseGate (B "ask")) r.
Proof.
  apply (proj1 (opa_fails_closed (toy_opa PhaseGate (B "ask")) drop_customers empty_context eq_refl)).
  vm_compute. reflexivity.
Defined.

(** ** One evaluation through the system of AiBudget.v *)

Definition block_high : AiConfig :=
  {| acRule := B "risk"; acProvider := true; acActions := {[ RiskHigh := ActionBlock ]};
     acTrigger := {| atOperations := [OpDrop]; atTables := []; atResources := [] |};
     acMessage := []; acGuidance := []; acTimeout := 0; acFailOpen := false; acMaxInputBytes := 0;
     acCacheSize := 2; acCacheTTL := 10; acMaxCalls := 1; acRedact := None |}.

Lemma block_high_new : ai_New block_high = inr (fresh block_high).
Proof.
  unfold fresh. destruct (ai_New block_high) as [err|e] eqn:E; [|done].
  apply (f_equal (fun r => match r with inl _ => true | inr _ => false end)) in E. vm_compute in E. done.
Qed.

Definition one_thread : world :=
  {| w_ev := fresh block_high; w_made := 0; w_threads := [AtStart drop_customers None] |}.

Lemma one_thread_reachable : reachable block_high one_thread.
Proof.
  eapply reach_step; [apply reach_new, block_high_new|].
  exact (wstep_arrive {| w_ev := fresh block_high; w_made := 0; w_threads := [] |} drop_customers None).
Qed.

(** The evaluation of a statement rated high. *)
Lemma one_thread_ends :
  exists e o n, classify (fresh block_high) drop_customers None (rated RiskHigh) 0 1 = (e, o)
    /\ reachable block_high (with_thread one_thread 0 e n (AtEnd o)).
Proof.
  destruct (classify (fresh block_high) drop_customers None (rated RiskHigh) 0 1) as [e o] eqn:E.
  destruct (classify_is_run one_thread 0 drop_customers None (rated RiskHigh) 0 1 e o eq_refl E) as (n & Hr & _).
  exists e, o, n. split; [done|]. by apply (reachable_rtc _ one_thread), Hr; apply one_thread_reachable.
Qed.

Lemma calls_within_budget_witness :
  exists w, reachable block_high w /\ w_made w = 1%Z /\ (w_made w <= acMaxCalls block_high)%Z.
Proof.
  destruct one_thread_ends as (e & o & n & Ec & Hr). eexists. split; [exact Hr|].
  destruct (calls_within_budget block_high _ Hr) as (B1 & B2 & _). split; [|by apply B1].
  rewrite <- B2 by reflexivity. cbn [with_thread w_ev ai_Stats asCalls].
  apply (f_equal (fun p => ae_calls p.1)) in Ec. cbn [fst] in Ec. rewrite <- Ec. vm_compute. reflexivity.
Defined.

Lemma annotations_vocabulary_witness :
  exists e o n, reachable block_high (with_thread one_thread 0 e n (AtEnd o))
    /\ vAnnotations (conclude e None o).2.2 !! MetadataRiskLevel = Some RiskHigh
    /\ in_vocabulary block_high MetadataRiskLevel RiskHigh.
Proof.
  destruct one_thread_ends as (e & o & n & Ec & Hr). exists e, o, n. split; [exact Hr|].
  assert (vAnnotations (conclude e None o).2.2 !! MetadataRiskLevel = Some RiskHigh) as Ha.
  { apply (f_equal (fun p => vAnnotations (conclude p.1 None p.2).2.2 !! MetadataRiskLevel)) in Ec.
    cbn [fst snd] in Ec. rewrite <- Ec. vm_compute. reflexivity. }
  split; [exact Ha|].
  exact (annotations_vocabulary block_high _ 0 o None MetadataRiskLevel RiskHigh Hr eq_refl Ha).
Defined.

(** Three rules report: one rated the statement low, one high, one was out of
    budget. *)
Definition three_reports : list (AiConfig * bytes * RiskLevel) :=
  [(block_high, StatusOK, RiskLow); (defer_all, StatusCached, RiskHigh); (block_high, StatusBudget, [])].

Lemma three_reports_ok : Forall (fun x => reports x.1.2 x.2) three_reports.
Proof.
  repeat constructor; unfold reports; cbn [fst snd];
    (left; split; [apply (bool_decide_unpack _); vm_compute; exact I|reflexivity])
    || (right; split; [apply (bool_decide_unpack _); vm_compute; exact I|reflexivity]).
Qed.

Lemma findings_fold_to_worst_witness :
  exists f, fold_left report_one three_reports (Some empty_context) = Some (set_finding empty_context f)
    /\ FindingRank (fStatus f) = 3%Z /\ fValues f = ∅.
Proof.
  destruct (findings_fold_to_worst empty_context three_reports) as (f & H1 & H2 & H3).
  - exact three_reports_ok.
  - discriminate.
  - reflexivity.
  - exists f. split; [exact H1|]. rewrite H2, H3. split; vm_compute; reflexivity.
Defined.

(** ** Shapes and their limits

    The cache key ignores literals and the text sent is bounded; what the shape
    also merges, and what that does to verdicts. *)
(** ** The bound on what is sent *)

Lemma back_off_le s cut : back_off s cut <= cut.
Proof. induction cut as [|n IH]; cbn [back_off]; [lia|]. repeat case_match; lia. Qed.

Lemma back_off_start s cut :
  back_off s cut = 0 \/ s !! back_off s cut = None
  \/ exists b, s !! back_off s cut = Some b /\ RuneStart b = true.
Proof.
  induction cut as [|n IH]; cbn [back_off]; [by left|]. destruct (s !! S n) as [b|] eqn:E; [|by right; left].
  destruct (RuneStart b) eqn:Eb; cbn [negb]; [|done]. right. right. by exists b.
Qed.

(** A text is cut on a rune boundary, to the limit and the marker at most. *)
Lemma Truncate_bounded s m :
  (0 < m)%Z ->
  Truncate s m = s \/ exists n b, Truncate s m = take n s ++ truncation_marker /\ (Z.of_nat n <= m)%Z
    /\ (n = 0 \/ (s !! n = Some b /\ RuneStart b = true)).
Proof.
  intros Hm. unfold Truncate. destruct (_ || _) eqn:E; [by left|]. bool_hyps. right.
  pose proof (back_off_le s (Z.to_nat m)) as Hl.
  destruct (back_off_start s (Z.to_nat m)) as [Hz|[Hn|(b & Hb & Hs)]].
  - exists (back_off s (Z.to_nat m)), x00. split; [done|]. split; [lia|by left].
  - apply lookup_ge_None in Hn. lia.
  - exists (back_off s (Z.to_nat m)), b. split; [done|]. split; [lia|by right].
Qed.

(** ** Literals *)

Lemma skip_literal_le q l : length (skip_literal q l) <= length l.
Proof.
  revert l. fix IH 1. intros [|c r]; [done|]. cbn [skip_literal]. destruct (c =b q).
  - destruct r as [|c2 r2]; [cbn; lia|]. destruct (c2 =b q); [|cbn; lia]. specialize (IH r2). cbn. lia.
  - specialize (IH r). cbn. lia.
Qed.

Lemma skip_number_le l : length (skip_number l) <= length l.
Proof. induction l as [|c l IH]; cbn [skip_number]; [done|]. destruct (_ || _); cbn [length]; lia. Qed.

Lemma strip_fuel fuel fuel' l :
  length l <= fuel -> length l <= fuel' -> strip_loop fuel l = strip_loop fuel' l.
Proof.
  revert fuel' l. induction fuel as [|fuel IH]; intros fuel' l H1 H2.
  { destruct l; [by destruct fuel'|simpl in H1; lia]. }
  destruct l as [|c r]; [by destruct fuel'|]. destruct fuel' as [|fuel']; [simpl in H2; lia|].
  cbn [length] in *. cbn [strip_loop].
  destruct (_ || _); [f_equal; pose proof (skip_literal_le c r); apply IH; lia|].
  destruct (is_digit c); [f_equal; pose proof (skip_number_le r); apply IH; lia|].
  f_equal. apply IH; lia.
Qed.

Lemma strip_loop_eq fuel l : length l <= fuel -> strip_loop fuel l = stripSQLLiterals l.
Proof. intros Hf. by apply strip_fuel. Qed.

Definition plain (c : byte) : bool := negb ((c =b "'") || (c =b x22) || is_digit c).

Lemma strip_plain pre s : forallb plain pre = true -> stripSQLLiterals (pre ++ s) = pre ++ stripSQLLiterals s.
Proof.
  induction pre as [|c pre IH]; [done|]. cbn [forallb]. intros [Hc Hp]%andb_prop. unfold plain in Hc. bool_hyps.
  unfold stripSQLLiterals. cbn [app length strip_loop].
  assert ((c =b "'") || (c =b x22) = false) as ->.
  { apply orb_false_iff. split; by apply byte_eqb_ne. }
  assert (is_digit c = false) as -> by done. f_equal. by apply IH.
Qed.

Lemma skip_literal_app lit post :
  forallb (fun c => negb (c =b "'")) lit = true -> head post <> Some "'"%byte ->
  skip_literal "'" (lit ++ "'"%byte :: post) = post.
Proof.
  intros Hl Hp. induction lit as [|c lit IH]; cbn [app skip_literal].
  - rewrite byte_eqb_refl. destruct post as [|c2 r2]; [done|].
    assert ((c2 =b "'") = false) as -> by (apply byte_eqb_ne; intros ->; by apply Hp). done.
  - cbn [forallb] in Hl. apply andb_prop in Hl as [Hc Hl]. apply negb_true_iff in Hc. rewrite Hc. by apply IH.
Qed.

Lemma strip_literal lit post :
  forallb (fun c => negb (c =b "'")) lit = true -> head post <> Some "'"%byte ->
  stripSQLLiterals ("'"%byte :: lit ++ "'"%byte :: post) = "?"%byte :: stripSQLLiterals post.
Proof.
  intros Hl Hp. unfold stripSQLLiterals at 1. cbn [length strip_loop]. rewrite byte_eqb_refl. cbn [orb].
  f_equal. rewrite skip_literal_app by done. apply strip_loop_eq. rewrite length_app. cbn [length]. lia.
Qed.

(** Literals do not count: two texts that differ only in the content of a
    quoted string have the same shape. *)
Theorem shape_ignores_literals pre post a b :
  forallb plain pre = true -> head post <> Some "'"%byte ->
  forallb (fun c => negb (c =b "'")) a = true -> forallb (fun c => negb (c =b "'")) b = true ->
  stripSQLLiterals (pre ++ "'"%byte :: a ++ "'"%byte :: post)
  = stripSQLLiterals (pre ++ "'"%byte :: b ++ "'"%byte :: post).
Proof. intros Hpre Hpost Ha Hb. by rewrite !strip_plain, !strip_literal by done. Qed.

(** ** What else is merged *)

Section Merged.
Context `{GoUnicode} `{Sha256}.

Definition pg_statement (op : Operation) (text : bytes) : Statement :=
  {| stProtocol := Protocol.Postgres; stDirection := FromClient; stText := text; stOperation := op;
     stEffects := [op]; stRelations := []; stTables := []; stDatabase := []; stHTTP := None; stResult := None;
     stMetadata := ∅ |}.

Definition quoted (s : bytes) : bytes := [x22] ++ s ++ [x22].

(** A quoted identifier is taken for a literal: emptying the log and emptying
    the customers are one shape under every hash. *)
Lemma quoted_identifiers_share_key :
  sqlCacheKey (pg_statement OpDelete (B "delete from " ++ quoted (B "logs")))
  = sqlCacheKey (pg_statement OpDelete (B "delete from " ++ quoted (B "customers"))).
Proof.
  unfold sqlCacheKey.
  assert (sql_shape (pg_statement OpDelete (B "delete from " ++ quoted (B "logs")))
    = sql_shape (pg_statement OpDelete (B "delete from " ++ quoted (B "customers")))) as ->
    by (vm_compute; reflexivity).
  reflexivity.
Qed.
End Merged.

#[local] Existing Instance ascii_only.
#[local] Existing Instance plain_sha.

(** A model that objects to the customers only. *)
Definition careful : Z -> bytes -> bytes -> bytes + option Result :=
  fun _ _ text =>
    inr (Some {| reRiskLevel := if Contains text (B "customers") then RiskHigh else RiskLow;
                 reTitle := []; reExplanation := [] |}).

Definition block_deletes : AiConfig :=
  {| acRule := B "risk"; acProvider := true; acActions := {[ RiskHigh := ActionBlock ]};
     acTrigger := {| atOperations := [OpDelete; OpSelect]; atTables := []; atResources := [] |};
     acMessage := []; acGuidance := []; acTimeout := 0; acFailOpen := false; acMaxInputBytes := 0;
     acCacheSize := 8; acCacheTTL := 100; acMaxCalls := 0;
     acRedact := Some (fun text => if Contains text (B "123-45-6789") then RefuseSentinel else text) |}.

Definition delete_from (t : bytes) : Statement := pg_statement OpDelete (B "delete from " ++ quoted t).

(** The cache turns a block into an allow: asked alone, the analyzer blocks the
    deletion of the customers; asked after the deletion of the logs, it does
    not, and the model never sees it. *)
Lemma cache_turns_block_into_allow :
  let after := (ai_EvaluateWith (fresh block_deletes) (delete_from (B "logs")) None careful 0 1).1 in
  vDenied (ai_EvaluateWith (fresh block_deletes) (delete_from (B "customers")) None careful 0 1).2.2 = true
  /\ vDenied (ai_EvaluateWith after (delete_from (B "customers")) None careful 2 3).2.2 = false
  /\ ae_calls (ai_EvaluateWith after (delete_from (B "customers")) None careful 2 3).1 = 1%Z.
Proof. vm_compute. repeat split; reflexivity. Qed.

(** So does it with a refusal: a statement that carries an entity which must not
    be sent is denied, unless its shape was rated before. *)
Definition by_ssn (v : bytes) : Statement := pg_statement OpSelect (B "select * from t where ssn = '" ++ v ++ B "'").

Lemma refusal_depends_on_cache :
  let after := (ai_EvaluateWith (fresh block_deletes) (by_ssn (B "none")) None careful 0 1).1 in
  vDenied (ai_EvaluateWith (fresh block_deletes) (by_ssn (B "123-45-6789")) None careful 0 1).2.2 = true
  /\ vDenied (ai_EvaluateWith after (by_ssn (B "123-45-6789")) None careful 2 3).2.2 = false.
Proof. vm_compute. repeat split; reflexivity. Qed.

Lemma shape_ignores_literals_witness :
  stripSQLLiterals (B "select * from t where ssn = 'a'") = stripSQLLiterals (B "select * from t where ssn = 'b c'").
Proof.
  apply (shape_ignores_literals (B "select * from t where ssn = ") [] (B "a") (B "b c")).
  - reflexivity.
  - discriminate.
  - reflexivity.
  - reflexivity.
Defined.
