(* ===== verification/Session.v ===== *)
(** * Sessions and audit events: src/hoopinspect/session/session.go and
      src/hoopinspect/audit/event.go

    The clock and the random source are arguments: [now] is the reading of
    [time.Now()] during the call, in nanoseconds, and a fresh id is passed in.
    Go's zero [time.Time] is [None]. *)

From S2P Require Import Prelude GoStrings GoText Types.

(** ** Identity *)

Record Identity := {
  idSubject : bytes;
  idEmail : bytes;
  idGroups : list bytes;
  idPeerAddr : bytes;
  idAttributes : gmap bytes bytes;
}.

Definition IsAnonymous (i : Identity) : bool := (idSubject i =s []) && (idEmail i =s []).

Definition AnonymousPrincipal : bytes := B "anonymous".

Definition Principal (i : Identity) : bytes :=
  if negb (idSubject i =s []) then idSubject i
  else if negb (idEmail i =s []) then idEmail i
  else AnonymousPrincipal.

(** ** Sessions *)

Record Session := {
  seID : bytes;
  seIdentity : Identity;
  seProtocol : Protocol;
  seConnection : bytes;
  seUpstream : bytes;
  seCorrelationID : bytes;
  seStartedAt : Z;
  seEndedAt : option Z;
  seMetadata : gmap bytes bytes;
}.

(** [session.New]; [fresh] is the id [NewID] drew. *)
Definition session_New (proto : Protocol) (id : Identity) (fresh : bytes) (now : Z) : Session :=
  {| seID := fresh; seIdentity := id; seProtocol := proto; seConnection := [];
     seUpstream := []; seCorrelationID := []; seStartedAt := now; seEndedAt := None;
     seMetadata := ∅ |}.

Definition set_endedAt (s : Session) (t : option Z) : Session :=
  {| seID := seID s; seIdentity := seIdentity s; seProtocol := seProtocol s;
     seConnection := seConnection s; seUpstream := seUpstream s;
     seCorrelationID := seCorrelationID s; seStartedAt := seStartedAt s; seEndedAt := t;
     seMetadata := seMetadata s |}.

Definition set_protocol (s : Session) (p : Protocol) : Session :=
  {| seID := seID s; seIdentity := seIdentity s; seProtocol := p;
     seConnection := seConnection s; seUpstream := seUpstream s;
     seCorrelationID := seCorrelationID s; seStartedAt := seStartedAt s;
     seEndedAt := seEndedAt s; seMetadata := seMetadata s |}.

(** [Session.End]: a second call does not move [EndedAt]. *)
Definition session_End (s : Session) (now : Z) : Session :=
  match seEndedAt s with
  | None => set_endedAt s (Some now)
  | Some _ => s
  end.

Definition session_Duration (s : Session) (now : Z) : Z :=
  match seEndedAt s with
  | None => now - seStartedAt s
  | Some t => t - seStartedAt s
  end.

Definition session_IsOpen (s : Session) : bool :=
  match seEndedAt s with None => true | Some _ => false end.

Definition joinComma (items : list bytes) : bytes := Join items (B ",").

(** [if v != "" { ctx[k] = v }] *)
Definition put_nonempty (k v : bytes) (ctx : gmap bytes bytes) : gmap bytes bytes :=
  if v =s [] then ctx else <[ k := v ]> ctx.

(** The two final loops overwrite: metadata over attributes over the rest. *)
Definition PolicyContext (s : Session) : gmap bytes bytes :=
  let i := seIdentity s in
  let ctx : gmap bytes bytes :=
    <[ B "principal" := Principal i ]> {[ B "session_id" := seID s ]} in
  let ctx := put_nonempty (B "subject") (idSubject i) ctx in
  let ctx := put_nonempty (B "email") (idEmail i) ctx in
  let ctx := put_nonempty (B "peer_addr") (idPeerAddr i) ctx in
  let ctx := put_nonempty (B "connection") (seConnection s) ctx in
  let ctx := put_nonempty (B "upstream") (seUpstream s) ctx in
  let ctx := put_nonempty (B "correlation_id") (seCorrelationID s) ctx in
  let ctx := match idGroups i with
             | [] => ctx
             | gs => <[ B "groups" := joinComma gs ]> ctx
             end in
  seMetadata s ∪ (idAttributes i ∪ ctx).

(** ** Audit events *)

Inductive EventKind :=
  | KindSessionStart | KindSessionEnd | KindStatement | KindViolation | KindMasked | KindError.

#[global] Instance EventKind_eq_dec : EqDecision EventKind.
Proof. solve_decision. Defined.

(** The text a [Kind] is. *)
Definition kind_text (k : EventKind) : bytes :=
  match k with
  | KindSessionStart => B "session_start"
  | KindSessionEnd => B "session_end"
  | KindStatement => B "statement"
  | KindViolation => B "violation"
  | KindMasked => B "masked"
  | KindError => B "error"
  end.

Record Event := {
  evKind : EventKind;
  evTimestamp : Z;
  evSessionID : bytes;
  evPrincipal : bytes;
  evProtocol : Protocol;
  evConnection : bytes;
  evOperation : Operation;
  evStatement : bytes;
  evTables : list bytes;
  evAllowed : bool;
  evRule : bytes;
  evMessage : bytes;
  evDirection : option Direction;
  evMaskedEntities : list bytes;
  evMaskedCount : Z;
  evError : bytes;
  evDuration : Z;
  evStatementCount : Z;
  evDeniedCount : Z;
  evHTTP : option HTTPDetail;
  evMetadata : gmap bytes bytes;
}.

(** An event with the fields every record of a session carries. *)
Definition session_event (s : Session) (k : EventKind) (at_ : Z) : Event :=
  {| evKind := k; evTimestamp := at_; evSessionID := seID s;
     evPrincipal := Principal (seIdentity s); evProtocol := seProtocol s;
     evConnection := seConnection s; evOperation := []; evStatement := []; evTables := [];
     evAllowed := false; evRule := []; evMessage := []; evDirection := None;
     evMaskedEntities := []; evMaskedCount := 0; evError := []; evDuration := 0;
     evStatementCount := 0; evDeniedCount := 0; evHTTP := None; evMetadata := ∅ |}.

(** Codec keys win over the session's. *)
Definition statementMetadata (s : Session) (stmt : Statement) : gmap bytes bytes :=
  stMetadata stmt ∪ seMetadata s.

Definition StatementEvent (s : Session) (stmt : Statement) (allowed : bool)
    (rule message : bytes) (now : Z) : Event :=
  {| evKind := if allowed then KindStatement else KindViolation; evTimestamp := now;
     evSessionID := seID s; evPrincipal := Principal (seIdentity s);
     evProtocol := stProtocol stmt; evConnection := seConnection s;
     evOperation := stOperation stmt; evStatement := stText stmt; evTables := stTables stmt;
     evAllowed := allowed; evRule := rule; evMessage := message;
     evDirection := Some (stDirection stmt); evMaskedEntities := []; evMaskedCount := 0;
     evError := []; evDuration := 0; evStatementCount := 0; evDeniedCount := 0;
     evHTTP := stHTTP stmt; evMetadata := statementMetadata s stmt |}.

Definition with_metadata (ev : Event) (md : gmap bytes bytes) : Event :=
  {| evKind := evKind ev; evTimestamp := evTimestamp ev; evSessionID := evSessionID ev;
     evPrincipal := evPrincipal ev; evProtocol := evProtocol ev;
     evConnection := evConnection ev; evOperation := evOperation ev;
     evStatement := evStatement ev; evTables := evTables ev; evAllowed := evAllowed ev;
     evRule := evRule ev; evMessage := evMessage ev; evDirection := evDirection ev;
     evMaskedEntities := evMaskedEntities ev; evMaskedCount := evMaskedCount ev;
     evError := evError ev; evDuration := evDuration ev;
     evStatementCount := evStatementCount ev; evDeniedCount := evDeniedCount ev;
     evHTTP := evHTTP ev; evMetadata := md |}.

Definition SessionStartEvent (s : Session) : Event :=
  with_metadata (session_event s KindSessionStart (seStartedAt s)) (seMetadata s).

Definition SessionEndEvent (s : Session) (statements denied now : Z) : Event :=
  let e := session_event s KindSessionEnd now in
  {| evKind := evKind e; evTimestamp := evTimestamp e; evSessionID := evSessionID e;
     evPrincipal := evPrincipal e; evProtocol := evProtocol e; evConnection := evConnection e;
     evOperation := []; evStatement := []; evTables := []; evAllowed := false; evRule := [];
     evMessage := []; evDirection := None; evMaskedEntities := []; evMaskedCount := 0;
     evError := []; evDuration := session_Duration s now; evStatementCount := statements;
     evDeniedCount := denied; evHTTP := None; evMetadata := ∅ |}.

(** [msg] is [err.Error()]. *)
Definition ErrorEvent (s : Session) (msg : bytes) (now : Z) : Event :=
  let e := session_event s KindError now in
  {| evKind := evKind e; evTimestamp := evTimestamp e; evSessionID := evSessionID e;
     evPrincipal := evPrincipal e; evProtocol := evProtocol e; evConnection := evConnection e;
     evOperation := []; evStatement := []; evTables := []; evAllowed := false; evRule := [];
     evMessage := []; evDirection := None; evMaskedEntities := []; evMaskedCount := 0;
     evError := msg; evDuration := 0; evStatementCount := 0; evDeniedCount := 0;
     evHTTP := None; evMetadata := ∅ |}.

Definition MaskedEvent (s : Session) (entities : list bytes) (count now : Z) : Event :=
  let e := session_event s KindMasked now in
  {| evKind := evKind e; evTimestamp := evTimestamp e; evSessionID := evSessionID e;
     evPrincipal := evPrincipal e; evProtocol := evProtocol e; evConnection := evConnection e;
     evOperation := []; evStatement := []; evTables := []; evAllowed := false; evRule := [];
     evMessage := []; evDirection := Some FromServer; evMaskedEntities := entities;
     evMaskedCount := count; evError := []; evDuration := 0; evStatementCount := 0;
     evDeniedCount := 0; evHTTP := None; evMetadata := ∅ |}.

(** ** Facts *)

Lemma Principal_ne i : Principal i <> [].
Proof. unfold Principal. repeat case_match; bool_hyps; done. Qed.
