(* ===== verification/Sinks.v ===== *)
(** * Audit sinks: src/hoopinspect/audit/sink.go

    The class [Sink] is the Go interface.  An error is its text; [errors.Join]
    is [errors_Join].  Mutexes make every method of MemorySink, MultiSink and
    JSONLSink atomic, so each is a function on the sink's state.  AsyncSink has
    a goroutine of its own and is a transition system: [exec] gives the effect
    of one scheduled action, [None] when the action is blocked. *)

From S2P Require Import Prelude GoStrings GoText Utf Types Session.

Definition DefaultMaxStatementBytes : Z := 8192.
Definition DefaultMemoryCapacity : nat := 1024.
Definition truncationMarker : bytes := B "...[truncated]".
Definition ErrSinkClosed : bytes := B "audit: sink is closed".
Definition ErrQueueFull : bytes := B "audit: sink queue is full".

(** [errors.Join]: nil for no errors, else the texts on a line each. *)
Definition errors_Join (errs : list bytes) : option bytes :=
  match errs with
  | [] => None
  | _ => Some (Join errs [x0a])
  end.

(** The [Sink] interface. *)
Class Sink (K : Type) := {
  sink_Write : K -> Event -> K * option bytes;
  sink_Close : K -> K * option bytes;
}.

(** ** SinkOptions *)

Record SinkOptions := {
  RedactStatements : bool;
  MaxStatementBytes : Z;
}.

Definition maxStatementBytes (o : SinkOptions) : Z :=
  if (MaxStatementBytes o <=? 0)%Z then DefaultMaxStatementBytes else MaxStatementBytes o.

(** [for max > 0 && !utf8.RuneStart(s[max]) { max-- }] *)
Fixpoint back_off (s : bytes) (max : nat) : nat :=
  match max with
  | O => O
  | S m => if RuneStart (byte_at s max) then max else back_off s m
  end.

Definition truncate (s : bytes) (max : Z) : bytes :=
  if (Z.of_nat (length s) <=? max)%Z then s
  else take (back_off s (Z.to_nat max)) s ++ truncationMarker.

(** Go's zero [time.Time], January 1 of year 1, in nanoseconds since 1970. *)
Definition zeroTime : Z := (-62135596800 * 1000000000)%Z.
Definition time_IsZero (t : Z) : bool := (t =? zeroTime)%Z.

Definition hex_digit (n : Z) : byte := to_byte (if (n <? 10)%Z then 48 + n else 87 + n)%Z.
Definition hex_EncodeToString (s : bytes) : bytes :=
  concat (map (fun b => [hex_digit (bval b / 16); hex_digit (bval b mod 16)]) s).

Definition with_body (h : HTTPDetail) (body : bytes) : HTTPDetail :=
  {| htMethod := htMethod h; htPath := htPath h; htQuery := htQuery h; htHost := htHost h;
     htResource := htResource h; htStatusCode := htStatusCode h;
     htContentType := htContentType h; htHeaders := htHeaders h; htBody := body;
     htBodyTruncated := htBodyTruncated h |}.

(** The three fields [apply] may change. *)
Definition with_applied (ev : Event) (ts : Z) (stmt : bytes) (http : option HTTPDetail) : Event :=
  {| evKind := evKind ev; evTimestamp := ts; evSessionID := evSessionID ev;
     evPrincipal := evPrincipal ev; evProtocol := evProtocol ev;
     evConnection := evConnection ev; evOperation := evOperation ev;
     evStatement := stmt; evTables := evTables ev; evAllowed := evAllowed ev;
     evRule := evRule ev; evMessage := evMessage ev; evDirection := evDirection ev;
     evMaskedEntities := evMaskedEntities ev; evMaskedCount := evMaskedCount ev;
     evError := evError ev; evDuration := evDuration ev;
     evStatementCount := evStatementCount ev; evDeniedCount := evDeniedCount ev;
     evHTTP := http; evMetadata := evMetadata ev |}.

Section Apply.
(** crypto/sha256: 32 bytes of digest. *)
Context (sha256_Sum256 : bytes -> bytes).

Definition fingerprint (s : bytes) : bytes :=
  B "sha256:" ++ hex_EncodeToString (take 8 (sha256_Sum256 s)).

Definition redact_text (s : bytes) : bytes := if s =s [] then s else fingerprint s.

(** [SinkOptions.apply]; [now] is the reading of the options' clock.  [UTC]
    changes the location of a time and not its instant. *)
Definition apply (o : SinkOptions) (ev : Event) (now : Z) : Event :=
  let ts := if time_IsZero (evTimestamp ev) then now else evTimestamp ev in
  if RedactStatements o then
    with_applied ev ts (redact_text (evStatement ev))
      match evHTTP ev with
      | None => None
      | Some h => if htBody h =s [] then Some h else Some (with_body h (fingerprint (htBody h)))
      end
  else with_applied ev ts (truncate (evStatement ev) (maxStatementBytes o)) (evHTTP ev).

End Apply.

(** ** JSONLSink

    [w] is the io.Writer's state.  [Flush] and [Sync] are [None] for a writer
    without the method.  [marshal] is encoding/json's rendering of an event.
    A json.Encoder keeps the first write error and returns it from then on.
    [j_calls] counts the writes: [clock n] is what the options' clock reads
    during the [n]th one. *)

Record Writer (W : Type) := {
  w_Write : W -> bytes -> W * option bytes;
  w_Flush : option (W -> W * option bytes);
  w_Sync : option (W -> W * option bytes);
}.

Record JSONLSink (W : Type) := {
  j_w : W;
  j_encErr : option bytes;
  j_closed : bool;
  j_calls : nat;
}.

Arguments j_w {W}.
Arguments j_encErr {W}.
Arguments j_closed {W}.
Arguments j_calls {W}.
Arguments w_Write {W}.
Arguments w_Flush {W}.
Arguments w_Sync {W}.

Section JSONL.
Context (sha256_Sum256 : bytes -> bytes).
Context {W : Type} (wr : Writer W) (marshal : Event -> bytes + bytes).
Context (o : SinkOptions) (clock : nat -> Z).

Definition NewJSONLSink (w : W) : JSONLSink W :=
  {| j_w := w; j_encErr := None; j_closed := false; j_calls := 0 |}.

(** [json.Encoder.Encode] *)
Definition Encode (s : JSONLSink W) (ev : Event) : JSONLSink W * option bytes :=
  match j_encErr s with
  | Some e => (s, Some e)
  | None =>
      match marshal ev with
      | inr e => (s, Some e)
      | inl line =>
          let '(w, err) := w_Write wr (j_w s) (line ++ [x0a]) in
          ({| j_w := w; j_encErr := err; j_closed := j_closed s; j_calls := j_calls s |}, err)
      end
  end.

Definition jsonl_Write (s : JSONLSink W) (ev0 : Event) : JSONLSink W * option bytes :=
  let ev := apply sha256_Sum256 o ev0 (clock (j_calls s)) in
  let s := {| j_w := j_w s; j_encErr := j_encErr s; j_closed := j_closed s;
              j_calls := S (j_calls s) |} in
  if j_closed s then (s, Some ErrSinkClosed)
  else
    let '(s, err) := Encode s ev in
    (s, match err with
        | Some e => Some (B "audit: encoding event: " ++ e)
        | None => None
        end).

(** One optional call of [Close], prefixing its error. *)
Definition finish (call : option (W -> W * option bytes)) (prefix : bytes) (w : W)
  : W * list bytes :=
  match call with
  | None => (w, [])
  | Some f =>
      let '(w, err) := f w in
      (w, match err with Some e => [prefix ++ e] | None => [] end)
  end.

Definition jsonl_Close (s : JSONLSink W) : JSONLSink W * option bytes :=
  if j_closed s then (s, None)
  else
    let '(w, e1) := finish (w_Flush wr) (B "audit: flushing sink: ") (j_w s) in
    let '(w, e2) := finish (w_Sync wr) (B "audit: syncing sink: ") w in
    ({| j_w := w; j_encErr := j_encErr s; j_closed := true; j_calls := j_calls s |},
     errors_Join (e1 ++ e2)).

#[global] Instance JSONLSink_Sink : Sink (JSONLSink W) :=
  {| sink_Write := jsonl_Write; sink_Close := jsonl_Close |}.

End JSONL.

(** ** MultiSink *)

(** A value of either sink type is a sink: the Go slice holds interfaces. *)
#[global] Instance sum_Sink {A B} `{Sink A, Sink B} : Sink (A + B) := {|
  sink_Write k ev :=
    match k with
    | inl a => let '(a, e) := sink_Write a ev in (inl a, e)
    | inr b => let '(b, e) := sink_Write b ev in (inr b, e)
    end;
  sink_Close k :=
    match k with
    | inl a => let '(a, e) := sink_Close a in (inl a, e)
    | inr b => let '(b, e) := sink_Close b in (inr b, e)
    end;
|}.

Record MultiSink (K : Type) := { mu_sinks : list K; mu_closed : bool }.
Arguments mu_sinks {K}.
Arguments mu_closed {K}.

Section Multi.
Context {K : Type} `{Sink K}.

Definition NewMultiSink (sinks : list K) : MultiSink K :=
  {| mu_sinks := sinks; mu_closed := false |}.

(** [for _, s := range m.sinks { if err := op(s); err != nil { errs = append(errs, err) } }] *)
Fixpoint each_sink (op : K -> K * option bytes) (sinks : list K) : list K * list bytes :=
  match sinks with
  | [] => ([], [])
  | k :: rest =>
      let '(k, err) := op k in
      let '(rest, errs) := each_sink op rest in
      (k :: rest, match err with Some e => e :: errs | None => errs end)
  end.

Definition multi_Write (m : MultiSink K) (ev : Event) : MultiSink K * option bytes :=
  if mu_closed m then (m, Some ErrSinkClosed)
  else
    let '(sinks, errs) := each_sink (fun k => sink_Write k ev) (mu_sinks m) in
    ({| mu_sinks := sinks; mu_closed := false |}, errors_Join errs).

Definition multi_Close (m : MultiSink K) : MultiSink K * option bytes :=
  if mu_closed m then (m, None)
  else
    let '(sinks, errs) := each_sink sink_Close (mu_sinks m) in
    ({| mu_sinks := sinks; mu_closed := true |}, errors_Join errs).

#[global] Instance MultiSink_Sink : Sink (MultiSink K) :=
  {| sink_Write := multi_Write; sink_Close := multi_Close |}.
End Multi.

(** ** MemorySink *)

Record MemorySink := {
  m_buf : list Event;
  m_start : nat;
  m_n : nat;
  m_dropped : nat;
  m_closed : bool;
}.

(** The zero [Event] a fresh slice is filled with. *)
Definition zeroEvent : Event :=
  {| evKind := KindSessionStart; evTimestamp := zeroTime; evSessionID := [];
     evPrincipal := []; evProtocol := []; evConnection := []; evOperation := [];
     evStatement := []; evTables := []; evAllowed := false; evRule := []; evMessage := [];
     evDirection := None; evMaskedEntities := []; evMaskedCount := 0; evError := [];
     evDuration := 0; evStatementCount := 0; evDeniedCount := 0; evHTTP := None;
     evMetadata := ∅ |}.

Definition NewMemorySink (capacity : Z) : MemorySink :=
  let cap := if (capacity <=? 0)%Z then DefaultMemoryCapacity else Z.to_nat capacity in
  {| m_buf := replicate cap zeroEvent; m_start := 0; m_n := 0; m_dropped := 0;
     m_closed := false |}.

Definition memory_Write (m : MemorySink) (ev : Event) : MemorySink * option bytes :=
  if m_closed m then (m, Some ErrSinkClosed)
  else if (m_n m =? length (m_buf m))%nat then
    ({| m_buf := <[m_start m := ev]> (m_buf m);
        m_start := (m_start m + 1) mod length (m_buf m);
        m_n := m_n m; m_dropped := S (m_dropped m); m_closed := false |}, None)
  else
    ({| m_buf := <[(m_start m + m_n m) mod length (m_buf m) := ev]> (m_buf m);
        m_start := m_start m; m_n := S (m_n m); m_dropped := m_dropped m;
        m_closed := false |}, None).

Definition Events (m : MemorySink) : list Event :=
  map (fun i => default zeroEvent (m_buf m !! ((m_start m + i) mod length (m_buf m))))
    (seq 0 (m_n m)).

Definition Len (m : MemorySink) : nat := m_n m.
Definition Dropped (m : MemorySink) : nat := m_dropped m.

Definition memory_Close (m : MemorySink) : MemorySink * option bytes :=
  ({| m_buf := m_buf m; m_start := m_start m; m_n := m_n m; m_dropped := m_dropped m;
      m_closed := true |}, None).

#[global] Instance MemorySink_Sink : Sink MemorySink :=
  {| sink_Write := memory_Write; sink_Close := memory_Close |}.

(** ** AsyncSink

    The drain goroutine is between two receives ([DNext]), parked on the empty
    queue ([DParked]), inside [inner.Write] ([DWriting]) or finished ([DDone],
    when [done] is closed).  The first [Close] has not been called, waits for
    [done], or has returned.  Sending to a channel with a parked receiver hands
    the value over, otherwise it needs room in the buffer. *)

Inductive drain_pc := DNext | DParked | DWriting (ev : Event) | DDone.
Inductive close_pc := CNot | CWaiting | CReturned.

Record AsyncSink (K : Type) := {
  a_inner : K;
  a_cap : nat;
  a_queue : list Event;
  a_closed : bool;
  a_drain : drain_pc;
  a_firstErr : option bytes;
  a_failures : nat;
  a_closing : close_pc;
  a_closeErr : option bytes;
}.
Arguments a_inner {K}.
Arguments a_cap {K}.
Arguments a_queue {K}.
Arguments a_closed {K}.
Arguments a_drain {K}.
Arguments a_firstErr {K}.
Arguments a_failures {K}.
Arguments a_closing {K}.
Arguments a_closeErr {K}.

(** What an action shows: the result of a [Write] or [Close] call on the sink,
    and the calls the sink makes on [inner]. *)
Inductive obs :=
  | OWrite (ev : Event) (err : option bytes)
  | OClose (err : option bytes)
  | OInnerWrite (ev : Event) (err : option bytes)
  | OInnerClose (err : option bytes).

Inductive action := LWrite (ev : Event) | LDrain | LClose.

Section Async.
Context {K : Type} `{Sink K}.
Implicit Type a : AsyncSink K.

Definition NewAsyncSink (inner : K) (queueSize : Z) : AsyncSink K :=
  {| a_inner := inner;
     a_cap := if (queueSize <? 0)%Z then 0 else Z.to_nat queueSize;
     a_queue := []; a_closed := false; a_drain := DNext; a_firstErr := None;
     a_failures := 0; a_closing := CNot; a_closeErr := None |}.

Definition set_queue a (q : list Event) (d : drain_pc) : AsyncSink K :=
  {| a_inner := a_inner a; a_cap := a_cap a; a_queue := q; a_closed := a_closed a;
     a_drain := d; a_firstErr := a_firstErr a; a_failures := a_failures a;
     a_closing := a_closing a; a_closeErr := a_closeErr a |}.

(** [AsyncSink.Write]: the lock makes the test and the send one action. *)
Definition async_Write a (ev : Event) : AsyncSink K * option bytes :=
  if a_closed a then (a, Some ErrSinkClosed)
  else
    match a_drain a with
    | DParked => (set_queue a (a_queue a) (DWriting ev), None)
    | d =>
        if (length (a_queue a) <? a_cap a)%nat
        then (set_queue a (a_queue a ++ [ev]) d, None)
        else (a, Some ErrQueueFull)
    end.

(** One step of [drain]. *)
Definition drain_step a : option (AsyncSink K * list obs) :=
  match a_drain a with
  | DNext =>
      match a_queue a with
      | ev :: q => Some (set_queue a q (DWriting ev), [])
      | [] => Some (set_queue a [] (if a_closed a then DDone else DParked), [])
      end
  | DWriting ev =>
      let '(k, err) := sink_Write (a_inner a) ev in
      Some
        ({| a_inner := k; a_cap := a_cap a; a_queue := a_queue a; a_closed := a_closed a;
            a_drain := DNext;
            a_firstErr := match err with
                          | Some _ => match a_firstErr a with None => err | e => e end
                          | None => a_firstErr a
                          end;
            a_failures := match err with Some _ => S (a_failures a) | None => a_failures a end;
            a_closing := a_closing a; a_closeErr := a_closeErr a |},
         [OInnerWrite ev err])
  | DParked | DDone => None
  end.

(** The errors [Close] collects once the drain is done. *)
Definition async_errs a : list bytes :=
  match a_firstErr a with
  | Some e =>
      [B "audit: " ++ itoa (Z.of_nat (a_failures a)) ++ B " async write(s) failed: " ++ e]
  | None => []
  end.

(** One step of a [Close] call: the first call closes the queue (which wakes a
    parked receiver), waits, and closes [inner]; later calls wait for it. *)
Definition close_step a : option (AsyncSink K * list obs) :=
  match a_closing a with
  | CNot =>
      Some
        ({| a_inner := a_inner a; a_cap := a_cap a; a_queue := a_queue a; a_closed := true;
            a_drain := match a_drain a with DParked => DNext | d => d end;
            a_firstErr := a_firstErr a; a_failures := a_failures a;
            a_closing := CWaiting; a_closeErr := a_closeErr a |}, [])
  | CWaiting =>
      match a_drain a with
      | DDone =>
          let '(k, err) := sink_Close (a_inner a) in
          let result := errors_Join (async_errs a ++ match err with Some e => [e] | None => [] end) in
          Some
            ({| a_inner := k; a_cap := a_cap a; a_queue := a_queue a; a_closed := true;
                a_drain := DDone; a_firstErr := a_firstErr a; a_failures := a_failures a;
                a_closing := CReturned; a_closeErr := result |},
             [OInnerClose err; OClose result])
      | _ => None
      end
  | CReturned => Some (a, [OClose (a_closeErr a)])
  end.

Definition exec (l : action) a : option (AsyncSink K * list obs) :=
  match l with
  | LWrite ev => let '(a', err) := async_Write a ev in Some (a', [OWrite ev err])
  | LDrain => drain_step a
  | LClose => close_step a
  end.

(** A schedule runs its actions in order, passing over the blocked ones. *)
Definition sched_step (l : action) (s : AsyncSink K * list obs) : AsyncSink K * list obs :=
  match exec l s.1 with
  | Some (a, tr) => (a, s.2 ++ tr)
  | None => s
  end.

Definition run (a : AsyncSink K) (ls : list action) : AsyncSink K * list obs :=
  fold_left (fun s l => sched_step l s) ls (a, []).

(** The events [Write] accepted, and the ones passed to [inner], in order. *)
Definition accepted (tr : list obs) : list Event :=
  omap (fun o => match o with OWrite ev None => Some ev | _ => None end) tr.
Definition delivered (tr : list obs) : list Event :=
  omap (fun o => match o with OInnerWrite ev _ => Some ev | _ => None end) tr.
End Async.
