(* ===== verification/SinkProps.v ===== *)
(** * Properties of the audit sinks

    The ring buffer refines an unbounded trail that shows its last events; the
    JSONL file is the sequence of accepted records; a MultiSink reaches every
    sink; an AsyncSink delivers every accepted event, in order, before it
    closes the sink behind it. *)

From S2P Require Import Prelude GoStrings GoText Utf Types Session Sinks.

(** ** MemorySink refines the last events of the whole trail *)

Inductive mem_op := MWrite (ev : Event) | MClose | MEvents | MLen | MDropped.
Inductive mem_out := RErr (e : option bytes) | REvents (l : list Event) | RCount (n : nat).

Definition memory_machine (capacity : Z) : machine mem_op mem_out :=
  Machine MemorySink (NewMemorySink capacity)
    (fun op m =>
       match op with
       | MWrite ev => let '(m', e) := memory_Write m ev in (m', RErr e)
       | MClose => let '(m', e) := memory_Close m in (m', RErr e)
       | MEvents => (m, REvents (Events m))
       | MLen => (m, RCount (Len m))
       | MDropped => (m, RCount (Dropped m))
       end).

(** The specification keeps everything. *)
Record trail := { t_all : list Event; t_closed : bool }.

Definition capacity_of (capacity : Z) : nat :=
  if (capacity <=? 0)%Z then DefaultMemoryCapacity else Z.to_nat capacity.

Definition last_events (cap : nat) (l : list Event) : list Event := drop (length l - cap) l.

Definition trail_machine (capacity : Z) : machine mem_op mem_out :=
  let cap := capacity_of capacity in
  Machine trail {| t_all := []; t_closed := false |}
    (fun op t =>
       match op with
       | MWrite ev =>
           if t_closed t then (t, RErr (Some ErrSinkClosed))
           else ({| t_all := t_all t ++ [ev]; t_closed := false |}, RErr None)
       | MClose => ({| t_all := t_all t; t_closed := true |}, RErr None)
       | MEvents => (t, REvents (last_events cap (t_all t)))
       | MLen => (t, RCount (length (t_all t) `min` cap))
       | MDropped => (t, RCount (length (t_all t) - cap))
       end).

(** The ring holds the trail's event [dropped + i] at offset [i] from its start. *)
Record ring_rel (cap : nat) (m : MemorySink) (t : trail) : Prop := {
  rr_cap : length (m_buf m) = cap;
  rr_pos : 0 < cap;
  rr_n : m_n m = length (t_all t) `min` cap;
  rr_dropped : m_dropped m = length (t_all t) - cap;
  rr_start : m_start m < cap;
  rr_zero : m_dropped m = 0 -> m_start m = 0;
  rr_closed : m_closed m = t_closed t;
  rr_get : forall i, i < m_n m ->
    m_buf m !! ((m_start m + i) mod cap) = t_all t !! (m_dropped m + i);
}.

Lemma ring_events cap m t : ring_rel cap m t -> Events m = last_events cap (t_all t).
Proof.
  intros []. unfold Events, last_events. apply list_eq. intros i.
  rewrite lookup_drop, <- rr_dropped0, list_lookup_fmap, rr_cap0.
  destruct (decide (i < m_n m)) as [Hi|Hi].
  - rewrite lookup_seq_lt by lia. simpl. rewrite rr_get0 by done.
    destruct (lookup_lt_is_Some_2 (t_all t) (m_dropped m + i)) as [e ->]; [lia|done].
  - rewrite lookup_seq_ge, lookup_ge_None_2 by lia. done.
Qed.

Lemma ring_write cap m t ev :
  ring_rel cap m t -> m_closed m = false ->
  ring_rel cap (memory_Write m ev).1 {| t_all := t_all t ++ [ev]; t_closed := false |}.
Proof.
  intros [] Hcl. unfold memory_Write. rewrite Hcl, rr_cap0.
  assert (m_dropped m = length (t_all t) - m_n m) as Hd by lia. rewrite Hd in rr_get0.
  destruct (m_n m =? cap)%nat eqn:E; bool_hyps.
  - split; simpl; rewrite ?length_insert, ?length_app; simpl; try done; try lia.
    { apply Nat.mod_upper_bound. lia. }
    intros i Hi. rewrite (ring_put_full cap (m_buf m) (m_start m) (t_all t)); try done; try lia.
    + rewrite length_app. f_equal. simpl. lia.
    + intros k Hk. rewrite rr_get0 by lia. f_equal. lia.
  - split; simpl; rewrite ?length_insert, ?length_app; simpl; try done; try lia.
    intros i Hi. rewrite (ring_put_room cap (m_buf m) (m_start m) (m_n m) (t_all t)); try done; try lia.
    rewrite length_app. f_equal. simpl. lia.
Qed.

(** The in-memory ring is indistinguishable from a sink that keeps the whole
    trail and shows its last [capacity] events, with the number evicted: for any
    sequence of writes, closes and reads every answer is the same. *)
Theorem memory_sink_refines capacity :
  refines (memory_machine capacity) (trail_machine capacity).
Proof.
  apply (simulation_refines (memory_machine capacity) (trail_machine capacity)
    (ring_rel (capacity_of capacity))).
  - split; simpl; rewrite ?length_replicate; try done; try lia.
    all: unfold capacity_of, DefaultMemoryCapacity;
      destruct (capacity <=? 0)%Z eqn:E; bool_hyps; lia.
  - intros [ev| | | |] m t HR; pose proof (ring_events _ _ _ HR) as HE; simpl.
    + destruct (m_closed m) eqn:Hcl.
      * unfold memory_Write. rewrite <- (rr_closed _ _ _ HR), Hcl. done.
      * pose proof (ring_write _ _ _ ev HR Hcl) as HW. rewrite <- (rr_closed _ _ _ HR), Hcl.
        revert HW. unfold memory_Write. rewrite Hcl. by destruct (m_n m =? _)%nat.
    + split; [|done]. by destruct HR.
    + by rewrite HE.
    + by rewrite <- (rr_n _ _ _ HR).
    + by rewrite <- (rr_dropped _ _ _ HR).
Qed.

(** ** Statement truncation *)

Lemma utf8_String_start rs :
  utf8_String rs <> [] -> RuneStart (byte_at (utf8_String rs) 0) = true.
Proof.
  destruct rs as [|r rs]; [done|]. intros _. unfold utf8_String. cbn [map concat].
  destruct (EncodeRune_shape r) as (b & k & -> & Hb & _). done.
Qed.

Lemma back_off_inside b k s m :
  Forall (fun c => RuneStart c = false) k -> m <= length k ->
  back_off ((b :: k) ++ s) m = 0.
Proof.
  intros Hk. induction m as [|m IH]; intros Hm; [done|]. cbn [back_off].
  replace (RuneStart (byte_at ((b :: k) ++ s) (S m))) with false; [apply IH; lia|].
  symmetry. unfold byte_at. simpl. destruct (lookup_lt_is_Some_2 k m) as [c Hc]; [lia|].
  rewrite lookup_app_l, Hc by lia. simpl. by eapply Forall_lookup_1 in Hk.
Qed.

Lemma back_off_beyond e s j :
  0 < length e -> RuneStart (byte_at s 0) = true ->
  back_off (e ++ s) (length e + j) = length e + back_off s j.
Proof.
  intros He Hs.
  assert (Hat : forall i, byte_at (e ++ s) (length e + i) = byte_at s i).
  { intros i. unfold byte_at. rewrite lookup_app_r by lia. do 2 f_equal. lia. }
  induction j as [|j IH].
  - rewrite Nat.add_0_r. destruct (length e) as [|n] eqn:E; [lia|]. cbn [back_off].
    specialize (Hat 0). rewrite Nat.add_0_r in Hat. rewrite Hat, Hs. lia.
  - rewrite Nat.add_succ_r. cbn [back_off]. rewrite <- Nat.add_succ_r, Hat.
    by destruct (RuneStart (byte_at s (S j))); [|apply IH].
Qed.

Lemma back_off_utf8 rs m :
  m < length (utf8_String rs) ->
  exists k, back_off (utf8_String rs) m = length (utf8_String (take k rs))
    /\ length (utf8_String (take k rs)) <= m < length (utf8_String (take (S k) rs)).
Proof.
  revert m. induction rs as [|r rs IH]; intros m Hm; [simpl in Hm; lia|].
  unfold utf8_String in Hm |- *. cbn [map concat] in Hm |- *.
  destruct (EncodeRune_shape r) as (b & k & Hr & Hb & Hk & _).
  destruct (decide (m <= length k)) as [Hin|Hout].
  - exists 0. rewrite Hr. simpl take. rewrite firstn_O. cbn [map concat].
    rewrite Hr, back_off_inside by done. rewrite length_app. simpl. lia.
  - rewrite length_app in Hm. fold (utf8_String rs) in Hm |- *.
    assert (Hl : length (EncodeRune r) = S (length k)) by (by rewrite Hr).
    destruct (IH (m - length (EncodeRune r))) as (i & Hi & Hlo & Hhi); [lia|].
    exists (S i). cbn [take map concat]. fold (utf8_String (take i rs)).
    replace m with (length (EncodeRune r) + (m - length (EncodeRune r))) at 1 by lia.
    rewrite back_off_beyond, Hi, !length_app by
      (lia || (apply utf8_String_start; intros E; rewrite E in Hm; simpl in Hm; lia)).
    fold (utf8_String (take (S i) rs)). lia.
Qed.

(** Truncation cuts text between characters: of UTF-8 text longer than the
    limit it keeps the longest prefix of whole runes that fits and appends the
    marker; shorter text is kept. *)
Theorem truncate_whole_runes rs max :
  let s := utf8_String rs in
  (0 <= max)%Z ->
  if (Z.of_nat (length s) <=? max)%Z then truncate s max = s
  else exists k, truncate s max = utf8_String (take k rs) ++ truncationMarker
    /\ (Z.of_nat (length (utf8_String (take k rs))) <= max)%Z
    /\ (max < Z.of_nat (length (utf8_String (take (S k) rs))))%Z.
Proof.
  intros s Hmax. unfold truncate. destruct (_ <=? max)%Z eqn:E; [done|]. bool_hyps.
  destruct (back_off_utf8 rs (Z.to_nat max)) as (k & Hk & Hlo & Hhi); [subst s; lia|].
  exists k. subst s. rewrite Hk. split; [|lia]. f_equal.
  unfold utf8_String. rewrite <- (take_drop k rs) at 2.
  rewrite map_app, concat_app. apply take_app_length.
Qed.

Lemma truncate_whole_runes_witness :
  truncate (utf8_String [97; 233; 8364]%Z) 5 = utf8_String [97; 233]%Z ++ truncationMarker.
Proof.
  destruct (truncate_whole_runes [97; 233; 8364]%Z 5 ltac:(lia)) as (k & -> & H1 & H2).
  destruct k as [|[|[|k]]]; [discriminate H2..|done|].
  rewrite take_ge in H1 by (simpl; lia). by destruct H1.
Defined.

(** ** MultiSink *)

Section MultiProps.
Context {K : Type} `{Sink K}.

Lemma each_sink_spec (op : K -> K * option bytes) ks :
  each_sink op ks = (map (fun k => (op k).1) ks, omap (fun k => (op k).2) ks).
Proof.
  induction ks as [|k ks IH]; [done|]. simpl. rewrite IH.
  destruct (op k) as [k' [e|]]; done.
Qed.

Lemma errors_Join_None errs : errors_Join errs = None <-> errs = [].
Proof. by destruct errs. Qed.

(** An open MultiSink gives the event to every sink, whatever the others
    answer, and reports success only when every one of them accepted it. *)
Theorem multi_sink_reaches_all (m : MultiSink K) ev m' err :
  multi_Write m ev = (m', err) -> mu_closed m = false ->
  mu_sinks m' = map (fun k => (sink_Write k ev).1) (mu_sinks m)
  /\ mu_closed m' = false
  /\ (err = None <-> Forall (fun k => (sink_Write k ev).2 = None) (mu_sinks m)).
Proof.
  unfold multi_Write. intros HW Hc. rewrite Hc, each_sink_spec in HW.
  injection HW as <- <-. split; [done|]. split; [done|].
  rewrite errors_Join_None. induction (mu_sinks m) as [|k ks IH]; simpl.
  - split; constructor.
  - rewrite Forall_cons, <- IH. destruct (sink_Write k ev).2; naive_solver.
Qed.
End MultiProps.

Lemma multi_sink_reaches_all_witness :
  let ok := NewMemorySink 2 in
  let full := (memory_Close ok).1 in
  let r := multi_Write (NewMultiSink [full; ok]) zeroEvent in
  mu_sinks r.1 = [full; (memory_Write ok zeroEvent).1] /\ r.2 <> None.
Proof.
  intros ok full r.
  destruct (multi_sink_reaches_all (NewMultiSink [full; ok]) zeroEvent r.1 r.2) as (H1 & _ & H2);
    [apply surjective_pairing|done|].
  split; [exact H1|]. intros HN. apply H2, Forall_inv in HN. discriminate HN.
Defined.

(** ** JSONLSink *)

Section JSONLProps.
Context (sha : bytes -> bytes) {W : Type} (wr : Writer W) (marshal : Event -> bytes + bytes).
Context (o : SinkOptions) (clock : nat -> Z).

(** io.Writer: a write without error appended everything, a failed one a
    prefix; encoding/json writes no raw newline. *)
Context (contents : W -> bytes).
Hypothesis write_ok : forall w b w', w_Write wr w b = (w', None) -> contents w' = contents w ++ b.
Hypothesis write_err : forall w b w' e, w_Write wr w b = (w', Some e) ->
  exists p, p `prefix_of` b /\ p <> b /\ contents w' = contents w ++ p.
Hypothesis marshal_line : forall ev line, marshal ev = inl line -> x0a ∉ line.

#[local] Abbreviation jsonl_Write := (jsonl_Write sha wr marshal o clock).

(** The writes of a list of events, with the records of the accepted ones. *)
Fixpoint jsonl_run (s : JSONLSink W) (evs : list Event) : JSONLSink W * list bytes :=
  match evs with
  | [] => (s, [])
  | ev :: rest =>
      let line := match marshal (apply sha o ev (clock (j_calls s))) with
                  | inl l => l | inr _ => [] end in
      let '(s1, err) := jsonl_Write s ev in
      let '(s2, lines) := jsonl_run s1 rest in
      (s2, match err with None => line :: lines | Some _ => lines end)
  end.

(** What the file holds beyond [base]: whole records, then what a failed write
    left, which is the end of it. *)
Definition file_shape (base : bytes) (s : JSONLSink W) (lines : list bytes) : Prop :=
  exists torn, contents (j_w s) = base ++ concat (map (fun l => l ++ [x0a]) lines) ++ torn
    /\ (j_encErr s = None -> torn = []) /\ (x0a ∉ torn) /\ Forall (fun l => x0a ∉ l) lines.

Lemma prefix_line (p line : bytes) :
  x0a ∉ line -> p `prefix_of` line ++ [x0a] -> p <> line ++ [x0a] -> x0a ∉ p.
Proof.
  intros Hl [k Hk] Hne Hin. destruct k as [|c k _] using rev_ind.
  - rewrite app_nil_r in Hk. congruence.
  - rewrite app_assoc in Hk. apply app_inj_tail in Hk as [-> _].
    apply Hl, elem_of_app. by left.
Qed.

Lemma jsonl_Write_shape base s lines ev s' err :
  file_shape base s lines -> jsonl_Write s ev = (s', err) ->
  match err with
  | None => exists l, marshal (apply sha o ev (clock (j_calls s))) = inl l
      /\ file_shape base s' (lines ++ [l])
  | Some _ => file_shape base s' lines
  end.
Proof.
  intros (torn & Hc & Ht & Hnl & Hls). unfold Sinks.jsonl_Write, Encode. simpl.
  destruct (j_closed s); [intros [= <- <-]; by exists torn|].
  destruct (j_encErr s) as [e|] eqn:Ee; [intros [= <- <-]; exists torn; naive_solver|].
  rewrite (Ht eq_refl), app_nil_r in Hc.
  destruct (marshal _) as [l|e] eqn:El; [|intros [= <- <-]; exists []; simpl; rewrite app_nil_r].
  2:{ repeat split; try done. apply not_elem_of_nil. }
  destruct (w_Write wr (j_w s) (l ++ [x0a])) as [w [e|]] eqn:Ew; intros [= <- <-].
  - destruct (write_err _ _ _ _ Ew) as (p & Hp & Hne & Hw). exists p. simpl.
    rewrite Hw, Hc, <- app_assoc. repeat split; [done| |done].
    by eapply (prefix_line p l); eauto.
  - exists l. split; [done|]. exists []. simpl. rewrite (write_ok _ _ _ Ew), Hc.
    rewrite map_app, concat_app. simpl. rewrite !app_nil_r, !app_assoc.
    repeat split; [apply not_elem_of_nil|]. apply Forall_app. eauto.
Qed.

Lemma jsonl_run_shape base s lines evs s' new :
  file_shape base s lines -> jsonl_run s evs = (s', new) ->
  file_shape base s' (lines ++ new).
Proof.
  revert s lines s' new. induction evs as [|ev evs IH]; intros s lines s' new Hs.
  { intros [= <- <-]. by rewrite app_nil_r. }
  cbn [jsonl_run]. destruct (jsonl_Write s ev) as [s1 err] eqn:EW.
  destruct (jsonl_run s1 evs) as [s2 ls] eqn:ER. intros [= <- <-].
  pose proof (jsonl_Write_shape _ _ _ _ _ _ Hs EW) as Hs1. destruct err.
  - by eapply IH.
  - destruct Hs1 as (l & -> & Hs1). rewrite cons_middle, app_assoc. by eapply IH.
Qed.

Lemma Split1_line l r : x0a ∉ l -> Split1 (l ++ x0a :: r) x0a = l :: Split1 r x0a.
Proof.
  intros Hl. induction l as [|c l IH]; [done|].
  apply not_elem_of_cons in Hl as [Hc Hl]. cbn [app Split1].
  rewrite IH by done. by rewrite (proj2 (byte_eqb_ne _ _)) by done.
Qed.

Lemma Split1_none l : x0a ∉ l -> Split1 l x0a = [l].
Proof.
  induction l as [|c l IH]; intros Hl; [done|].
  apply not_elem_of_cons in Hl as [Hc Hl]. cbn [Split1].
  rewrite IH by done. by rewrite (proj2 (byte_eqb_ne _ _)) by done.
Qed.

(** The audit file reads back as the accepted records: cutting it at the
    newlines gives exactly the records whose Write succeeded, in order, and a
    last piece that is empty unless a write failed half way; nothing is ever
    appended to a torn line. *)
Theorem jsonl_reads_back w evs s' lines :
  contents w = [] -> jsonl_run (NewJSONLSink w) evs = (s', lines) ->
  exists torn, Split1 (contents (j_w s')) x0a = lines ++ [torn]
    /\ (j_encErr s' = None -> torn = []).
Proof.
  intros Hw HR. assert (H0 : file_shape [] (NewJSONLSink w) []).
  { exists []. simpl. rewrite Hw. repeat split; [apply not_elem_of_nil|constructor]. }
  destruct (jsonl_run_shape _ _ _ _ _ _ H0 HR) as (torn & Hc & Ht & Hnl & Hls).
  exists torn. split; [|done]. rewrite Hc. cbn [app]. clear - Hnl Hls.
  induction lines as [|l ls IH]; cbn [app map concat]; [by apply Split1_none|].
  apply Forall_cons in Hls as [Hl Hls]. rewrite <- !app_assoc. cbn [app].
  rewrite Split1_line by done. f_equal. by apply IH.
Qed.
End JSONLProps.

(** A disk with room for [n] bytes. *)
Definition small_disk (n : nat) : Writer bytes := {|
  w_Write w b :=
    if (length b <=? n - length w)%nat then (w ++ b, None)
    else (w ++ take (n - length w) b, Some (B "disk full"));
  w_Flush := None;
  w_Sync := None;
|}.

Definition text_marshal (ev : Event) : bytes + bytes :=
  inl (List.filter (fun c => negb (c =b x0a)) (evStatement ev)).

Definition text_event (s : bytes) : Event := with_applied zeroEvent 1 s None.

Lemma jsonl_reads_back_witness :
  let r := jsonl_run (fun s => s) (small_disk 12) text_marshal
             {| RedactStatements := false; MaxStatementBytes := 0 |} (fun _ => 1%Z)
             (NewJSONLSink []) (map text_event [B "one"; B "two"; B "three"; B "4"]) in
  exists torn, Split1 (j_w r.1) x0a = [B "one"; B "two"] ++ [torn] /\ torn = B "thre".
Proof.
  intros r.
  destruct (jsonl_reads_back (fun s => s) (small_disk 12) text_marshal
    {| RedactStatements := false; MaxStatementBytes := 0 |} (fun _ => 1%Z) (fun w => w))
    with (w := @nil byte) (evs := map text_event [B "one"; B "two"; B "three"; B "4"])
         (s' := r.1) (lines := r.2) as (torn & H1 & _).
  - intros w b w'. simpl. by destruct (_ <=? _)%nat; intros [= <-].
  - intros w b w' e. simpl. destruct (_ <=? _)%nat eqn:E; [done|]. intros [= <- _]. bool_hyps.
    exists (take (12 - length w) b). split; [apply prefix_take|]. split; [|done].
    intros Heq%(f_equal length). rewrite length_take in Heq. lia.
  - intros ev l [= <-]. rewrite list_elem_of_In, filter_In. by intros [_ ?].
  - done.
  - by vm_compute.
  - exists torn. vm_compute in H1 |- *. split; [exact H1|congruence].
Defined.

(** ** AsyncSink *)

Section AsyncProps.
Context {K : Type} `{Sink K}.
Implicit Type a : AsyncSink K.

Definition in_flight a : list Event :=
  match a_drain a with DWriting ev => [ev] | _ => [] end.

Definition inner_failures (tr : list obs) : nat :=
  length (omap (fun o => match o with OInnerWrite _ (Some e) => Some e | _ => None end) tr).

Definition closed_inner (tr : list obs) : list (option bytes) :=
  omap (fun o => match o with OInnerClose e => Some e | _ => None end) tr.

(** What holds at every moment of a run: nothing is lost, repeated or
    reordered; the queue keeps to its bound; [inner] is closed once, when all is
    delivered; failures are counted. *)
Record async_inv (s : AsyncSink K * list obs) : Prop := {
  ai_fifo : accepted s.2 = delivered s.2 ++ in_flight s.1 ++ a_queue s.1;
  ai_bound : length (a_queue s.1) <= a_cap s.1;
  ai_parked : a_drain s.1 = DParked -> a_queue s.1 = [] /\ a_closed s.1 = false;
  ai_done : a_drain s.1 = DDone -> a_queue s.1 = [] /\ a_closed s.1 = true;
  ai_closed : a_closed s.1 = true <-> a_closing s.1 <> CNot;
  ai_returned : a_closing s.1 = CReturned -> a_drain s.1 = DDone;
  ai_inner : length (closed_inner s.2)
             = match a_closing s.1 with CReturned => 1 | _ => 0 end;
  ai_failures : a_failures s.1 = inner_failures s.2;
  ai_firstErr : a_firstErr s.1 = None <-> a_failures s.1 = 0;
}.

Lemma async_init inner n : async_inv (NewAsyncSink inner n, []).
Proof. split; simpl; try done; try lia; by split. Qed.

Lemma accepted_app t1 t2 : accepted (t1 ++ t2) = accepted t1 ++ accepted t2.
Proof. apply omap_app. Qed.
Lemma delivered_app t1 t2 : delivered (t1 ++ t2) = delivered t1 ++ delivered t2.
Proof. apply omap_app. Qed.
Lemma closed_inner_app t1 t2 : closed_inner (t1 ++ t2) = closed_inner t1 ++ closed_inner t2.
Proof. apply omap_app. Qed.
Lemma inner_failures_app t1 t2 :
  inner_failures (t1 ++ t2) = inner_failures t1 + inner_failures t2.
Proof. unfold inner_failures. by rewrite omap_app, length_app. Qed.
Create Rewrite HintDb trace.
#[local] Hint Rewrite accepted_app delivered_app closed_inner_app inner_failures_app
  @app_nil_r Nat.add_0_r @length_app : trace.

(** Reduce each clause of the invariant after one action, by the drain's state. *)
Ltac inv_clauses Ed :=
  split; simpl; unfold in_flight in *; simpl in *; rewrite ?Ed in *; autorewrite with trace;
  simpl; autorewrite with trace in *; simpl in *; try done.

Lemma async_Write_inv a tr ev :
  async_inv (a, tr) ->
  async_inv ((async_Write a ev).1, tr ++ [OWrite ev (async_Write a ev).2]).
Proof.
  intros []; simpl in *. unfold async_Write.
  destruct (a_closed a) eqn:Ec; [|assert (a_closing a = CNot) as Hcl
    by (destruct (a_closing a); naive_solver)].
  { inv_clauses Ec; intuition congruence. }
  destruct (a_drain a) eqn:Ed; [destruct (_ <? _)%nat eqn:El; bool_hyps| |
    destruct (_ <? _)%nat eqn:El; bool_hyps|destruct (_ <? _)%nat eqn:El; bool_hyps];
    inv_clauses Ed.
  all: rewrite ?Ec, ?Hcl; try (intuition (congruence || lia)).
  all: rewrite ai_fifo0, <- ?app_assoc; try done.
  by destruct (ai_parked0 eq_refl) as [-> _].
Qed.

Lemma drain_step_inv a tr a' t :
  async_inv (a, tr) -> drain_step a = Some (a', t) -> async_inv (a', tr ++ t).
Proof.
  intros [] HD; simpl in *. unfold drain_step in HD. destruct (a_drain a) eqn:Ed; try done.
  - destruct (a_queue a) as [|ev q] eqn:Eq; injection HD as <- <-.
    + destruct (a_closed a) eqn:Ec; inv_clauses Ed; rewrite ?Ec; intuition congruence.
    + inv_clauses Ed; intuition (congruence || lia).
  - destruct (sink_Write (a_inner a) ev) as [k err]. injection HD as <- <-.
    destruct err as [e|]; inv_clauses Ed; try (intuition (congruence || lia)).
    + by rewrite <- app_assoc.
    + rewrite ai_failures0. unfold inner_failures at 3. simpl. lia.
    + destruct (a_firstErr a); split; done.
    + by rewrite <- app_assoc.
Qed.

Lemma close_step_inv a tr a' t :
  async_inv (a, tr) -> close_step a = Some (a', t) -> async_inv (a', tr ++ t).
Proof.
  intros [] HC; simpl in *. unfold close_step in HC. destruct (a_closing a) eqn:Eg.
  - injection HC as <- <-.
    destruct (a_drain a) eqn:Ed; inv_clauses Ed; intuition (congruence || lia).
  - destruct (a_drain a) eqn:Ed; try done.
    destruct (sink_Close (a_inner a)) as [k err]. injection HC as <- <-.
    inv_clauses Ed; intuition (congruence || lia).
  - injection HC as <- <-. rewrite (ai_returned0 eq_refl) in *.
    inv_clauses Eg; rewrite ?(ai_returned0 eq_refl), ?Eg; intuition (congruence || lia).
Qed.

Lemma sched_step_inv l s : async_inv s -> async_inv (sched_step l s).
Proof.
  destruct s as [a tr]. intros HI. unfold sched_step, exec. simpl.
  destruct l as [ev| |].
  - pose proof (async_Write_inv a tr ev HI) as HW. by destruct (async_Write a ev).
  - destruct (drain_step a) as [[a' t]|] eqn:E; [|done]. by eapply drain_step_inv.
  - destruct (close_step a) as [[a' t]|] eqn:E; [|done]. by eapply close_step_inv.
Qed.

Lemma run_inv inner n ls : async_inv (run (NewAsyncSink inner n) ls).
Proof.
  unfold run. generalize (async_init inner n). generalize (NewAsyncSink inner n, @nil obs).
  induction ls as [|l ls IH]; intros s Hs; [done|]. apply IH. by apply sched_step_inv.
Qed.

(** C28 Whatever the interleaving of writers, the drain goroutine and Close,
    the events an AsyncSink accepted are the ones it passed on, then the one in
    hand, then the queue, in the order of acceptance; the queue keeps to its
    size; and once Close has returned everything accepted has been passed on
    and the sink behind has been closed exactly once. *)
Theorem async_fifo inner size ls a tr :
  run (NewAsyncSink inner size) ls = (a, tr) ->
  accepted tr = delivered tr ++ in_flight a ++ a_queue a
  /\ length (a_queue a) <= a_cap a
  /\ (a_closing a = CReturned -> accepted tr = delivered tr /\ length (closed_inner tr) = 1).
Proof.
  intros HR. destruct (run_inv inner size ls) as []. rewrite HR in *. simpl in *.
  split; [done|]. split; [done|]. intros Hc. split; [|by rewrite ai_inner0, Hc].
  rewrite ai_fifo0. unfold in_flight. pose proof (ai_returned0 Hc) as Hd.
  destruct (ai_done0 Hd) as [-> _]. rewrite Hd. by rewrite app_nil_r.
Qed.

(** *** Close returns *)

(** The turns of the drain goroutine in a schedule, and how many it needs to end
    once the queue is closed: two for each event in the queue, one more for one
    in hand, and one to see the queue empty. *)
Definition drains (ls : list action) : nat :=
  length (List.filter (fun l => match l with LDrain => true | _ => false end) ls).

Definition drain_turns a : nat :=
  2 * length (a_queue a)
  + match a_drain a with DNext => 1 | DWriting _ => 2 | DParked => 1 | DDone => 0 end.

(** While Close waits, only the drain changes the sink, and it makes progress. *)
Lemma waiting_step l s :
  async_inv s -> a_closing s.1 = CWaiting -> a_drain s.1 <> DDone ->
  let s' := sched_step l s in
  a_closing s'.1 = CWaiting
  /\ (match l with LDrain => drain_turns s'.1 < drain_turns s.1 | _ => s'.1 = s.1 end).
Proof.
  destruct s as [a tr]. intros [] Hw Hd. simpl in *.
  assert (a_closed a = true) as Hc by (apply ai_closed0; congruence).
  unfold sched_step, exec, drain_turns. simpl. destruct l as [ev| |].
  - unfold async_Write. by rewrite Hc.
  - unfold drain_step. destruct (a_drain a) as [| |ev|] eqn:Ed; [| |destruct (sink_Write _ _)|].
    + destruct (a_queue a) eqn:Eq; simpl; rewrite ?Hc; simpl; (split; [done|lia]).
    + destruct ai_parked0; congruence.
    + simpl. split; [done|lia].
    + done.
  - unfold close_step. rewrite Hw. by destruct (a_drain a).
Qed.

#[local] Instance drain_done_dec (d : drain_pc) : Decision (d = DDone).
Proof. by destruct d; (left; done) || (right; done). Defined.

(** Once the drain is done, it stays so. *)
Lemma drained_step l (s : AsyncSink K * list obs) :
  async_inv s -> a_closing s.1 <> CNot -> a_drain s.1 = DDone ->
  let s' := sched_step l s in
  a_drain s'.1 = DDone /\ a_closing s'.1 <> CNot
  /\ match l with LClose => a_closing s'.1 = CReturned | _ => True end.
Proof.
  destruct s as [a tr]. intros [] Hw Hd. simpl in *.
  destruct (ai_done0 Hd) as [_ Hc]. unfold sched_step, exec. simpl. destruct l as [ev| |].
  - unfold async_Write. by rewrite Hc.
  - unfold drain_step. by rewrite Hd.
  - unfold close_step. rewrite Hd. destruct (a_closing a) eqn:E; [done| |simpl; by rewrite E].
    by destruct (sink_Close (a_inner a)).
Qed.

(** A call of Close closes the queue and leaves it as it is. *)
Lemma close_begins (s : AsyncSink K * list obs) :
  async_inv s ->
  a_closing (sched_step LClose s).1 <> CNot
  /\ drain_turns (sched_step LClose s).1 <= 2 * length (a_queue s.1) + 2.
Proof.
  destruct s as [a tr]. intros _. unfold sched_step, exec, close_step, drain_turns. cbn [fst snd].
  destruct (a_closing a) eqn:E; cbn.
  - split; [done|]. destruct (a_drain a); lia.
  - destruct (a_drain a) eqn:Ed; cbn [fst]; rewrite ?E, ?Ed; try (split; [done|lia]).
    destruct (sink_Close (a_inner a)); cbn. split; [done|lia].
  - rewrite E. split; [done|]. destruct (a_drain a); lia.
Qed.

(** Enough turns of the drain end it, whatever else runs in between. *)
Lemma drains_end ls : forall s,
  async_inv s -> a_closing s.1 <> CNot -> drain_turns s.1 <= drains ls ->
  let s' := fold_left (fun s l => sched_step l s) ls s in
  a_drain s'.1 = DDone /\ a_closing s'.1 <> CNot.
Proof.
  induction ls as [|l ls IH]; intros s HI Hc Hn; cbn [fold_left].
  { cbn in Hn. unfold drain_turns in Hn. split; [|done]. revert Hn. destruct (a_drain s.1); intros; done || lia. }
  destruct (decide (a_drain s.1 = DDone)) as [Hd|Hd].
  - destruct (drained_step l s HI Hc Hd) as (Hd' & Hc' & _).
    apply IH; [by apply sched_step_inv|done|]. unfold drain_turns. rewrite Hd'.
    pose proof (sched_step_inv l s HI) as HI'. destruct (sched_step l s) as [a' tr']. destruct HI'.
    cbn [fst] in *. destruct (ai_done0 Hd') as [-> _]. cbn. lia.
  - assert (a_closing s.1 = CWaiting) as Hw.
    { destruct (a_closing s.1) eqn:E; [done|done|]. destruct s as [a tr], HI. cbn [fst] in *. exfalso. auto. }
    destruct (waiting_step l s HI Hw Hd) as [Hw' Hp].
    apply IH; [by apply sched_step_inv|by rewrite Hw'|].
    destruct l; [by rewrite Hp| |by rewrite Hp].
    change (drains (LDrain :: ls)) with (S (drains ls)) in Hn. lia.
Qed.

(** C27 Close returns within a bounded number of turns, and nothing accepted is
    lost: whatever ran before Close was called, once the drain goroutine has
    had two turns for every event in the queue and two more, however writers
    and other calls of Close interleave with them, the next turn of Close
    returns, the queue is empty and every event Write ever accepted has been
    passed to the sink behind.  The queue holds no more than its size. *)
Theorem async_close_returns inner size before between :
  let a0 := (run (NewAsyncSink inner size) before).1 in
  2 * length (a_queue a0) + 2 <= drains between ->
  length (a_queue a0) <= a_cap a0 /\
  let '(a, tr) := run (NewAsyncSink inner size) (before ++ LClose :: between ++ [LClose]) in
  a_closing a = CReturned /\ accepted tr = delivered tr /\ a_queue a = [].
Proof.
  intros a0 Hn. pose proof (run_inv inner size before) as HI0. split; [by destruct HI0|].
  pose proof (run_inv inner size (before ++ LClose :: between ++ [LClose])) as HI.
  assert (a_closing (run (NewAsyncSink inner size) (before ++ LClose :: between ++ [LClose])).1 = CReturned) as Hr.
  { unfold run in *. rewrite fold_left_app. cbn [fold_left]. rewrite fold_left_app. cbn [fold_left].
    unfold a0 in Hn. clear a0. set (s0 := fold_left _ before _) in *.
    destruct (close_begins s0 HI0) as (Hc & Hq).
    destruct (drains_end between (sched_step LClose s0)) as [Hd Hc'].
    - by apply sched_step_inv.
    - done.
    - etrans; [exact Hq|exact Hn].
    - apply (drained_step LClose); [|done|done]. generalize (sched_step_inv LClose s0 HI0).
      clear. generalize (sched_step LClose s0). induction between as [|l ls IH]; intros s Hs; [done|].
      cbn [fold_left]. by apply IH, sched_step_inv. }
  clear Hn HI0 a0. destruct (run _ _) as [a tr]. destruct HI. cbn [fst snd] in *.
  pose proof (ai_returned0 Hr) as Hd. destruct (ai_done0 Hd) as [Hq _].
  rewrite ai_fifo0. unfold in_flight. rewrite Hd, Hq, !app_nil_r. done.
Qed.
End AsyncProps.

(** Two writers over a queue of one, the drain and the closer in turns. *)
Definition demo_sched (n : nat) : action :=
  match n mod 5 with
  | 0 => LWrite (text_event (B "a"))
  | 1 => LWrite (text_event (B "b"))
  | 2 | 3 => LDrain
  | _ => if (n <? 20)%nat then LDrain else LClose
  end.

Lemma async_fifo_witness :
  let r := run (NewAsyncSink (NewMemorySink 8) 1) (map demo_sched (seq 0 60)) in
  accepted r.2 = delivered r.2 /\ length (delivered r.2) = 7.
Proof.
  intros r. split; [|by vm_compute].
  destruct (async_fifo (NewMemorySink 8) 1 (map demo_sched (seq 0 60)) r.1 r.2)
    as (_ & _ & Hd); [apply surjective_pairing|].
  apply Hd. by vm_compute.
Defined.

Lemma async_close_returns_witness :
  let before := map demo_sched (seq 0 12) in
  let between := map demo_sched (seq 0 19) in
  let a0 := (run (NewAsyncSink (NewMemorySink 8) 1) before).1 in
  2 * length (a_queue a0) + 2 <= drains between /\
  let '(a, tr) := run (NewAsyncSink (NewMemorySink 8) 1) (before ++ LClose :: between ++ [LClose]) in
  a_closing a = CReturned /\ accepted tr = delivered tr /\ a_queue a = [].
Proof.
  intros before between a0. assert (2 * length (a_queue a0) + 2 <= drains between) as Hn by (vm_compute; lia).
  split; [exact Hn|]. apply (async_close_returns (NewMemorySink 8) 1 before between Hn).
Defined.
