(* ===== verification/Store.v ===== *)
(** * Session store: src/hoopinspect/store/store.go and memory.go

    [MemoryStore] is the read side of the audit trail: a sink that keeps the
    most recent sessions with their events and answers queries.  Each method
    holds the store's lock, so it is a function on the state.  Go's nil map is
    the empty one.  A Go map is iterated in an unspecified order; the source
    sorts what it collects, so the model sorts the map's bindings.

    The paging token's rendering (JSON in base64) is encoding/json's and
    encoding/base64's: [CursorText]. *)

From S2P Require Import Prelude GoStrings GoText Types Session Sinks.

#[local] Open Scope Z_scope.

(** ** The query contract *)

Definition VerdictClean : bytes := B "clean".
Definition VerdictDenied : bytes := B "denied".
Definition VerdictError : bytes := B "error".

Definition ClassifyVerdict (denied errors : Z) : bytes :=
  if 0 <? denied then VerdictDenied
  else if 0 <? errors then VerdictError
  else VerdictClean.

Record SessionRecord := {
  srID : bytes;
  srPrincipal : bytes;
  srProtocol : Protocol;
  srConnection : bytes;
  srUpstream : bytes;
  srStartedAt : Z;
  srEndedAt : Z;
  srDurationMS : Z;
  srStatementCount : Z;
  srDeniedCount : Z;
  srMaskedCount : Z;
  srErrorCount : Z;
  srVerdict : bytes;
  srRiskLevel : bytes;
  srMetadata : gmap bytes bytes;
}.

Definition sr_IsOpen (r : SessionRecord) : bool := time_IsZero (srEndedAt r).

Record EventRecord := { erSeq : Z; erEvent : Event }.

Record SessionFilter := {
  sfPrincipal : bytes;
  sfConnection : bytes;
  sfProtocol : Protocol;
  sfSince : Z;
  sfUntil : Z;
  sfDeniedOnly : bool;
  sfOpenOnly : bool;
  sfSearch : bytes;
  sfLimit : Z;
  sfCursor : bytes;
}.

Record EventFilter := {
  efSessionID : bytes;
  (** [[]audit.Kind], the strings a caller gave *)
  efKinds : list bytes;
  efPrincipal : bytes;
  efConnection : bytes;
  efProtocol : Protocol;
  efDeniedOnly : bool;
  efSince : Z;
  efUntil : Z;
  efSearch : bytes;
  efLimit : Z;
  efCursor : bytes;
}.

Definition DefaultLimit : Z := 100.
Definition MaxLimit : Z := 1000.
Definition TopN : nat := 20.

(** The clamping both [Normalize] methods do. *)
Definition clamp_limit (limit : Z) : Z :=
  let limit := if limit <=? 0 then DefaultLimit else limit in
  if MaxLimit <? limit then MaxLimit else limit.

Definition sf_Normalize (f : SessionFilter) : SessionFilter :=
  {| sfPrincipal := sfPrincipal f; sfConnection := sfConnection f;
     sfProtocol := sfProtocol f; sfSince := sfSince f; sfUntil := sfUntil f;
     sfDeniedOnly := sfDeniedOnly f; sfOpenOnly := sfOpenOnly f; sfSearch := sfSearch f;
     sfLimit := clamp_limit (sfLimit f); sfCursor := sfCursor f |}.

Definition ef_Normalize (f : EventFilter) : EventFilter :=
  {| efSessionID := efSessionID f; efKinds := efKinds f; efPrincipal := efPrincipal f;
     efConnection := efConnection f; efProtocol := efProtocol f;
     efDeniedOnly := efDeniedOnly f; efSince := efSince f; efUntil := efUntil f;
     efSearch := efSearch f; efLimit := clamp_limit (efLimit f); efCursor := efCursor f |}.

Record SessionPage := {
  spSessions : list SessionRecord;
  spNextCursor : bytes;
  spTotal : Z;
}.

Record EventPage := {
  epEvents : list EventRecord;
  epNextCursor : bytes;
  epTotal : Z;
}.

Record LabelCount := { lcLabel : bytes; lcCount : Z }.

Record Stats := {
  stSince : Z;
  stUntil : Z;
  stSessions : Z;
  stStatements : Z;
  stDenied : Z;
  stMasked : Z;
  stErrors : Z;
  stByPrincipal : list LabelCount;
  stByConnection : list LabelCount;
  stByOperation : list LabelCount;
  stByRule : list LabelCount;
  stByRisk : list LabelCount;
}.

(** ** Paging tokens *)

Record cursor := { cuID : bytes; cuSeq : Z }.

Class CursorText := {
  encodeCursor : cursor -> bytes;
  (** [None] for what base64 or JSON refuses *)
  decode_token : bytes -> option cursor;
}.

Definition ErrMalformedCursor : bytes := B "hoopinspect/store: malformed cursor".

Definition decodeCursor `{CursorText} (s : bytes) : bytes + cursor :=
  match decode_token s with
  | Some c => inr c
  | None => inl ErrMalformedCursor
  end.

(** ** The store's state *)

Record MemoryStore := {
  ms_maxSessions : nat;
  ms_sessions : gmap bytes SessionRecord;
  ms_order : list bytes;
  ms_events : list EventRecord;
  ms_nextSeq : Z;
  ms_dropped : Z;
  ms_closed : bool;
}.

Definition DefaultMemorySessions : nat := 1000.

Definition NewMemoryStore (maxSessions : Z) : MemoryStore :=
  {| ms_maxSessions := if maxSessions <=? 0 then DefaultMemorySessions
                       else Z.to_nat maxSessions;
     ms_sessions := ∅; ms_order := []; ms_events := []; ms_nextSeq := 0; ms_dropped := 0;
     ms_closed := false |}.

(** ** Writing *)

Section Store.
Context `{GoUnicode}.

Definition riskRank (level : bytes) : Z :=
  let l := ToLower level in
  if l =s B "high" then 3
  else if l =s B "medium" then 2
  else if l =s B "low" then 1
  else 0.

(** The counters and times after the switch on the event's kind.  A nil and an
    empty metadata map are one value here, as they are in the stored JSON. *)
Definition apply_kind (rec : SessionRecord) (ev : Event) : SessionRecord :=
  let upd started ended dur stmts denied masked errs md :=
    {| srID := srID rec; srPrincipal := srPrincipal rec; srProtocol := srProtocol rec;
       srConnection := srConnection rec; srUpstream := srUpstream rec; srStartedAt := started;
       srEndedAt := ended; srDurationMS := dur; srStatementCount := stmts;
       srDeniedCount := denied; srMaskedCount := masked; srErrorCount := errs;
       srVerdict := srVerdict rec; srRiskLevel := srRiskLevel rec; srMetadata := md |} in
  let st := srStatementCount rec in
  let dn := srDeniedCount rec in
  let mk := srMaskedCount rec in
  let er := srErrorCount rec in
  match evKind ev with
  | KindSessionStart =>
      upd (evTimestamp ev) (srEndedAt rec) (srDurationMS rec) st dn mk er
        (if decide (evMetadata ev = ∅) then srMetadata rec else evMetadata ev)
  | KindSessionEnd =>
      upd (srStartedAt rec) (evTimestamp ev) (Z.quot (evDuration ev) 1000000)
        (if 0 <? evStatementCount ev then evStatementCount ev else st)
        (if 0 <? evDeniedCount ev then evDeniedCount ev else dn) mk er (srMetadata rec)
  | KindStatement =>
      upd (srStartedAt rec) (srEndedAt rec) (srDurationMS rec) (st + 1) dn mk er (srMetadata rec)
  | KindViolation =>
      upd (srStartedAt rec) (srEndedAt rec) (srDurationMS rec) (st + 1) (dn + 1) mk er
        (srMetadata rec)
  | KindMasked =>
      upd (srStartedAt rec) (srEndedAt rec) (srDurationMS rec) st dn (mk + evMaskedCount ev) er
        (srMetadata rec)
  | KindError =>
      upd (srStartedAt rec) (srEndedAt rec) (srDurationMS rec) st dn mk (er + 1) (srMetadata rec)
  end.

(** [applyEvent] *)
Definition applyEvent (rec0 : SessionRecord) (ev : Event) : SessionRecord :=
  let rec := apply_kind rec0 ev in
  let risk := default [] (evMetadata ev !! B "risk_level") in
  {| srID := srID rec;
     srPrincipal := if (srPrincipal rec =s []) || (srPrincipal rec =s AnonymousPrincipal)
                    then evPrincipal ev else srPrincipal rec;
     srProtocol := if srProtocol rec =s [] then evProtocol ev else srProtocol rec;
     srConnection := if srConnection rec =s [] then evConnection ev else srConnection rec;
     srUpstream := srUpstream rec; srStartedAt := srStartedAt rec; srEndedAt := srEndedAt rec;
     srDurationMS := srDurationMS rec; srStatementCount := srStatementCount rec;
     srDeniedCount := srDeniedCount rec; srMaskedCount := srMaskedCount rec;
     srErrorCount := srErrorCount rec;
     srVerdict := ClassifyVerdict (srDeniedCount rec) (srErrorCount rec);
     srRiskLevel := if negb (risk =s []) && (riskRank (srRiskLevel rec) <? riskRank risk)
                    then risk else srRiskLevel rec;
     srMetadata := srMetadata rec |}.

(** The row built from the first event of a session. *)
Definition new_record (ev : Event) : SessionRecord :=
  {| srID := evSessionID ev; srPrincipal := evPrincipal ev; srProtocol := evProtocol ev;
     srConnection := evConnection ev; srUpstream := []; srStartedAt := evTimestamp ev;
     srEndedAt := zeroTime; srDurationMS := 0; srStatementCount := 0; srDeniedCount := 0;
     srMaskedCount := 0; srErrorCount := 0; srVerdict := []; srRiskLevel := [];
     srMetadata := evMetadata ev |}.

(** [evictLocked]; each round shortens [order], so its length is fuel enough. *)
Fixpoint evict (fuel : nat) (m : MemoryStore) : MemoryStore :=
  match fuel with
  | O => m
  | S fuel =>
      if (length (ms_order m) <=? ms_maxSessions m)%nat then m
      else
        match ms_order m with
        | [] => m
        | victim :: order =>
            evict fuel
              {| ms_maxSessions := ms_maxSessions m;
                 ms_sessions := delete victim (ms_sessions m);
                 ms_order := order;
                 ms_events := List.filter
                   (fun e => negb (evSessionID (erEvent e) =s victim)) (ms_events m);
                 ms_nextSeq := ms_nextSeq m; ms_dropped := ms_dropped m + 1;
                 ms_closed := ms_closed m |}
        end
  end.

Definition evictLocked (m : MemoryStore) : MemoryStore := evict (length (ms_order m)) m.

Definition ErrStoreClosed : bytes := B "hoopinspect/store: memory store closed".

Definition with_timestamp (ev : Event) (now : Z) : Event :=
  if time_IsZero (evTimestamp ev) then with_applied ev now (evStatement ev) (evHTTP ev) else ev.

(** [MemoryStore.Write]; [now] is the reading of [time.Now()].  The record is
    a pointer: it is updated in the map after the eviction. *)
Definition store_Write (m : MemoryStore) (ev0 : Event) (now : Z) : MemoryStore * option bytes :=
  if ms_closed m then (m, Some ErrStoreClosed)
  else
    let ev := with_timestamp ev0 now in
    let id := evSessionID ev in
    let '(m, rec) :=
      match ms_sessions m !! id with
      | Some rec => (m, rec)
      | None =>
          (evictLocked
             {| ms_maxSessions := ms_maxSessions m;
                ms_sessions := <[id := new_record ev]> (ms_sessions m);
                ms_order := ms_order m ++ [id]; ms_events := ms_events m;
                ms_nextSeq := ms_nextSeq m; ms_dropped := ms_dropped m;
                ms_closed := ms_closed m |}, new_record ev)
      end in
    let rec' := applyEvent rec ev in
    ({| ms_maxSessions := ms_maxSessions m;
        (** the pointer is in the map unless it was evicted just now *)
        ms_sessions := match ms_sessions m !! id with
                       | Some _ => <[id := rec']> (ms_sessions m)
                       | None => ms_sessions m
                       end;
        ms_order := ms_order m;
        ms_events := ms_events m ++ [{| erSeq := ms_nextSeq m + 1; erEvent := ev |}];
        ms_nextSeq := ms_nextSeq m + 1; ms_dropped := ms_dropped m;
        ms_closed := ms_closed m |}, None).

Definition store_Close (m : MemoryStore) : MemoryStore * option bytes :=
  ({| ms_maxSessions := ms_maxSessions m; ms_sessions := ms_sessions m;
      ms_order := ms_order m; ms_events := ms_events m; ms_nextSeq := ms_nextSeq m;
      ms_dropped := ms_dropped m; ms_closed := true |}, None).

Definition store_Dropped (m : MemoryStore) : Z := ms_dropped m.

(** ** Queries *)

Section Queries.
Context `{GoLib, CursorText}.

Definition ErrNotFound (id : bytes) : bytes :=
  B "hoopinspect/store: not found: session " ++ fmt_q id.

Definition store_Session (m : MemoryStore) (id : bytes) : bytes + SessionRecord :=
  match ms_sessions m !! id with
  | Some rec => inr rec
  | None => inl (ErrNotFound id)
  end.

Definition Before (a b : Z) : bool := a <? b.

(** [want != "" && have != want] *)
Definition misses (want have : bytes) : bool := negb (want =s []) && negb (have =s want).

Definition outside (since until at_ : Z) : bool :=
  (negb (time_IsZero since) && Before at_ since)
  || (negb (time_IsZero until) && negb (Before at_ until)).

Definition matchSession (rec : SessionRecord) (f : SessionFilter) : bool :=
  if misses (sfPrincipal f) (srPrincipal rec) then false
  else if misses (sfConnection f) (srConnection rec) then false
  else if misses (sfProtocol f) (srProtocol rec) then false
  else if sfDeniedOnly f && (srDeniedCount rec =? 0) then false
  else if sfOpenOnly f && negb (sr_IsOpen rec) then false
  else if outside (sfSince f) (sfUntil f) (srStartedAt rec) then false
  else if negb (sfSearch f =s []) &&
          negb (Contains
            (ToLower (srPrincipal rec ++ B " " ++ srConnection rec ++ B " " ++ srProtocol rec))
            (ToLower (sfSearch f))) then false
  else true.

Definition matchEvent (e : EventRecord) (f : EventFilter) : bool :=
  let ev := erEvent e in
  if misses (efSessionID f) (evSessionID ev) then false
  else if misses (efPrincipal f) (evPrincipal ev) then false
  else if misses (efConnection f) (evConnection ev) then false
  else if misses (efProtocol f) (evProtocol ev) then false
  else if efDeniedOnly f && negb (bool_decide (evKind ev = KindViolation)) then false
  else if match efKinds f with
          | [] => false
          | ks => negb (existsb (fun k => kind_text (evKind ev) =s k) ks)
          end then false
  else if outside (efSince f) (efUntil f) (evTimestamp ev) then false
  else if negb (efSearch f =s []) &&
          negb (Contains (ToLower (evStatement ev)) (ToLower (efSearch f))) then false
  else true.

(** [sort.Slice] with a strict order: insertion sort. *)
Fixpoint insert_by {A} (less : A -> A -> bool) (x : A) (l : list A) : list A :=
  match l with
  | [] => [x]
  | y :: r => if less x y then x :: l else y :: insert_by less x r
  end.
Definition sort_Slice {A} (less : A -> A -> bool) (l : list A) : list A :=
  fold_right (insert_by less) [] l.

(** [a > b] on strings *)
Definition bytes_gt (a b : bytes) : bool := negb (bytes_leb a b).

Definition newer (a b : SessionRecord) : bool :=
  if negb (srStartedAt a =? srStartedAt b) then srStartedAt b <? srStartedAt a
  else bytes_gt (srID a) (srID b).

(** The sessions of [recs] a listing shows, in its order. *)
Definition listing (f : SessionFilter) (recs : list SessionRecord) : list SessionRecord :=
  sort_Slice newer (List.filter (fun rec => matchSession rec f) recs).

(** [for i, rec := range matched { if rec.ID == id { start = i + 1; break } }] *)
Fixpoint resume_after (id : bytes) (matched : list SessionRecord) (i : nat) : nat :=
  match matched with
  | [] => 0
  | rec :: rest => if srID rec =s id then i + 1 else resume_after id rest (S i)
  end%nat.

(** The page of a sorted listing [f] asks for. *)
Definition session_page (f : SessionFilter) (matched : list SessionRecord)
  : bytes + SessionPage :=
  match (if sfCursor f =s [] then inr 0%nat
         else match decodeCursor (sfCursor f) with
              | inl e => inl e
              | inr c => inr (resume_after (cuID c) matched 0)
              end) with
  | inl e => inl e
  | inr start =>
      let end_ := (start + Z.to_nat (sfLimit f)) `min` length matched in
      let start := start `min` length matched in
      inr {| spSessions := take (end_ - start) (drop start matched);
             spNextCursor :=
               if (end_ <? length matched)%nat && (start <? end_)%nat
               then match matched !! (end_ - 1)%nat with
                    | Some r => encodeCursor {| cuID := srID r; cuSeq := 0 |}
                    | None => []
                    end
               else [];
             spTotal := Z.of_nat (length matched) |}
  end%nat.

Definition store_Sessions (m : MemoryStore) (ctxErr : option bytes) (f0 : SessionFilter)
  : bytes + SessionPage :=
  match ctxErr with
  | Some e => inl e
  | None =>
      let f := sf_Normalize f0 in
      session_page f (listing f (map_to_list (ms_sessions m)).*2)
  end.

(** The page of the event log [f] asks for. *)
Definition event_page (f : EventFilter) (events : list EventRecord) : bytes + EventPage :=
  match (if efCursor f =s [] then inr 0
         else match decodeCursor (efCursor f) with
              | inl e => inl e
              | inr c => inr (cuSeq c)
              end) with
  | inl e => inl e
  | inr after =>
      let all := List.filter (fun e => matchEvent e f) events in
      let limit := Z.to_nat (efLimit f) in
      let matched := take limit (List.filter (fun e => negb (erSeq e <=? after)) all) in
      inr {| epEvents := matched;
             epNextCursor :=
               if (length matched =? limit)%nat && (length matched <? length all)%nat
               then match last matched with
                    | Some e => encodeCursor {| cuID := []; cuSeq := erSeq e |}
                    | None => []
                    end
               else [];
             epTotal := Z.of_nat (length all) |}
  end.

Definition store_Events (m : MemoryStore) (ctxErr : option bytes) (f0 : EventFilter)
  : bytes + EventPage :=
  match ctxErr with
  | Some e => inl e
  | None => event_page (ef_Normalize f0) (ms_events m)
  end.

(** ** Aggregates *)

(** [counts[label]++], skipped for an empty label. *)
Definition count_label (counts : gmap bytes Z) (label : bytes) : gmap bytes Z :=
  if label =s [] then counts else <[label := default 0 (counts !! label) + 1]> counts.

Definition count_labels (labels : list bytes) : gmap bytes Z := fold_left count_label labels ∅.

Definition bigger (a b : LabelCount) : bool :=
  if negb (lcCount a =? lcCount b) then lcCount b <? lcCount a
  else negb (bytes_leb (lcLabel b) (lcLabel a)).

Definition topN (counts : gmap bytes Z) : list LabelCount :=
  take TopN (sort_Slice bigger
    (map (fun kv => {| lcLabel := kv.1; lcCount := kv.2 |}) (map_to_list counts))).

Definition sum_of (g : SessionRecord -> Z) (l : list SessionRecord) : Z :=
  fold_left (fun acc r => acc + g r) l 0.

(** The aggregate over the rows [recs0] and the event log. *)
Definition stats_of (f : SessionFilter) (recs0 : list SessionRecord) (events : list EventRecord)
  : Stats :=
  let recs := List.filter (fun rec => matchSession rec f) recs0 in
  let live : gset bytes := list_to_set (map srID recs) in
  let evs := List.filter (fun e => bool_decide (evSessionID e ∈ live)) (map erEvent events) in
  {| stSince := sfSince f; stUntil := sfUntil f;
     stSessions := Z.of_nat (length recs);
     stStatements := sum_of srStatementCount recs;
     stDenied := sum_of srDeniedCount recs;
     stMasked := sum_of srMaskedCount recs;
     stErrors := sum_of srErrorCount recs;
     stByPrincipal := topN (count_labels (map srPrincipal recs));
     stByConnection := topN (count_labels (map srConnection recs));
     stByOperation := topN (count_labels (map evOperation evs));
     stByRule := topN (count_labels (map evRule evs));
     stByRisk := topN (count_labels (map srRiskLevel recs)) |}.

Definition store_Stats (m : MemoryStore) (ctxErr : option bytes) (f : SessionFilter)
  : bytes + Stats :=
  match ctxErr with
  | Some e => inl e
  | None => inr (stats_of f (map_to_list (ms_sessions m)).*2 (ms_events m))
  end.
End Queries.
End Store.
