(* ===== verification/StoreFacts.v ===== *)
(** * Lemmas on the session store

    Sorting by a strict total order is independent of the order sorted from;
    eviction removes the oldest session; the aggregates do not depend on the
    order a Go map is read in. *)

From stdpp Require Import sorting.
From S2P Require Import Prelude GoStrings GoText Types Session Sinks Store.

(** ** String order *)

Lemma bytes_leb_total a b : bytes_leb a b = true \/ bytes_leb b a = true.
Proof.
  revert b. induction a as [|x a IH]; intros [|y b]; simpl; auto.
  destruct (bval x <? bval y)%Z eqn:E1, (bval y <? bval x)%Z eqn:E2; auto.
Qed.

Lemma bytes_leb_antisym a b : bytes_leb a b = true -> bytes_leb b a = true -> a = b.
Proof.
  revert b. induction a as [|x a IH]; intros [|y b]; simpl; try done.
  destruct (bval x <? bval y)%Z eqn:E1, (bval y <? bval x)%Z eqn:E2; bool_hyps; try done; try lia.
  intros. f_equal; [apply bval_inj; lia|auto].
Qed.

Lemma bytes_leb_trans a b c : bytes_leb a b = true -> bytes_leb b c = true -> bytes_leb a c = true.
Proof.
  revert b c. induction a as [|x a IH]; intros [|y b] [|z c]; simpl; try done.
  destruct (bval x <? bval y)%Z eqn:E1, (bval y <? bval x)%Z eqn:E2,
    (bval y <? bval z)%Z eqn:E3, (bval z <? bval y)%Z eqn:E4,
    (bval x <? bval z)%Z eqn:E5, (bval z <? bval x)%Z eqn:E6; bool_hyps; try done; try lia.
  apply IH.
Qed.

(** ** [sort.Slice] *)

Section Sorting.
Context {A : Type} (less : A -> A -> bool).
Context (less_trans : forall x y z, less x y = true -> less y z = true -> less x z = true).

Definition ordered (l : list A) : Prop := StronglySorted (fun x y => less x y = true) l.

Lemma insert_by_perm x l : insert_by less x l ≡ₚ x :: l.
Proof.
  induction l as [|y l IH]; [done|]. simpl. destruct (less x y); [done|].
  rewrite IH. apply Permutation_swap.
Qed.

Lemma sort_Slice_perm l : sort_Slice less l ≡ₚ l.
Proof. induction l as [|x l IH]; [done|]. simpl. by rewrite insert_by_perm, IH. Qed.

(** The comparison decides any two different elements. *)
Definition decides (l : list A) : Prop :=
  forall x y, x ∈ l -> y ∈ l -> x <> y -> less x y = true \/ less y x = true.

Lemma insert_by_ordered x l :
  (forall y, y ∈ l -> less x y = true \/ less y x = true) -> ordered l ->
  ordered (insert_by less x l).
Proof.
  intros Hd Hl. induction Hl as [|y l Hl IH Hy]; [by repeat constructor|]. simpl.
  destruct (less x y) eqn:E.
  - constructor; [by constructor|]. constructor; [done|].
    eapply Forall_impl; [exact Hy|]. eauto.
  - constructor; [apply IH; intros; apply Hd; by right|].
    rewrite insert_by_perm. constructor; [|done].
    destruct (Hd y ltac:(left)); congruence.
Qed.

Lemma sort_Slice_ordered l : NoDup l -> decides l -> ordered (sort_Slice less l).
Proof.
  induction 1 as [|x l Hx Hl IH]; intros Hd; [constructor|]. simpl.
  apply insert_by_ordered.
  - intros y Hy. rewrite sort_Slice_perm in Hy. apply Hd; [left|by right|]. by intros ->.
  - apply IH. intros a b Ha Hb. apply Hd; by right.
Qed.

Context (less_asym : forall x y, less x y = true -> less y x = true -> False).

(** Whatever order the elements are collected in, the result is the same. *)
Lemma sort_Slice_unique l1 l2 :
  NoDup l1 -> decides l1 -> l1 ≡ₚ l2 -> sort_Slice less l1 = sort_Slice less l2.
Proof.
  intros Hn Hd Hp.
  apply (StronglySorted_unique_strong (fun x y => less x y = true)).
  - intros x y _ _ H1 H2. by destruct (less_asym x y).
  - by apply sort_Slice_ordered.
  - apply sort_Slice_ordered; [by rewrite <- Hp|]. intros x y. rewrite <- Hp. apply Hd.
  - by rewrite !sort_Slice_perm.
Qed.
End Sorting.

Lemma bytes_gt_trans a b c : bytes_gt a b = true -> bytes_gt b c = true -> bytes_gt a c = true.
Proof.
  unfold bytes_gt. rewrite !negb_true_iff. intros H1 H2.
  destruct (bytes_leb a c) eqn:E; [|done].
  destruct (bytes_leb_total b c) as [Hbc|Hcb]; [congruence|].
  by rewrite (bytes_leb_trans _ _ _ E Hcb) in H1.
Qed.

Lemma bytes_gt_asym a b : bytes_gt a b = true -> bytes_gt b a = true -> False.
Proof. unfold bytes_gt. destruct (bytes_leb_total a b) as [->| ->]; done. Qed.

Lemma bytes_gt_total a b : a <> b -> bytes_gt a b = true \/ bytes_gt b a = true.
Proof.
  intros Hne. unfold bytes_gt. destruct (bytes_leb a b) eqn:E1; [|by left].
  destruct (bytes_leb b a) eqn:E2; [|by right]. by destruct Hne; apply bytes_leb_antisym.
Qed.

Lemma newer_trans a b c : newer a b = true -> newer b c = true -> newer a c = true.
Proof.
  unfold newer. destruct (srStartedAt a =? srStartedAt b)%Z eqn:E1,
    (srStartedAt b =? srStartedAt c)%Z eqn:E2, (srStartedAt a =? srStartedAt c)%Z eqn:E3;
    simpl; intros; bool_hyps; try apply Z.ltb_lt; try lia. by eapply bytes_gt_trans.
Qed.

Lemma newer_asym a b : newer a b = true -> newer b a = true -> False.
Proof.
  unfold newer. rewrite (Z.eqb_sym (srStartedAt b)).
  destruct (srStartedAt a =? srStartedAt b)%Z; simpl; [apply bytes_gt_asym|lia].
Qed.

Lemma newer_decides l : NoDup (map srID l) -> decides newer l.
Proof.
  intros Hn x y Hx Hy Hne.
  assert (Hid : srID x <> srID y).
  { intros E. apply Hne. apply list_elem_of_lookup in Hx as [i Hi], Hy as [j Hj].
    assert (i = j) as ->; [|congruence]. eapply (NoDup_lookup (map srID l)); [done| |].
    - by rewrite list_lookup_fmap, Hi.
    - rewrite list_lookup_fmap, Hj. simpl. by rewrite E. }
  unfold newer. rewrite (Z.eqb_sym (srStartedAt y)).
  destruct (srStartedAt x =? srStartedAt y)%Z eqn:E; simpl; [by apply bytes_gt_total|lia].
Qed.

Lemma filter_perm {A} (p : A -> bool) l1 l2 :
  l1 ≡ₚ l2 -> List.filter p l1 ≡ₚ List.filter p l2.
Proof.
  induction 1; simpl; repeat case_go; eauto using Permutation, perm_swap.
Qed.

Lemma filter_sublist {A} (p : A -> bool) l : List.filter p l `sublist_of` l.
Proof. induction l as [|x l IH]; simpl; [done|]. destruct (p x); by constructor. Qed.

Lemma filter_filter {A} (p q : A -> bool) l :
  List.filter p (List.filter q l) = List.filter (fun x => q x && p x) l.
Proof.
  induction l as [|x l IH]; [done|]. simpl. destruct (q x); simpl; [|done].
  by destruct (p x); rewrite IH.
Qed.

(** A listing does not depend on the order the map was read in. *)
Lemma listing_perm `{GoUnicode} f l1 l2 :
  NoDup (map srID l1) -> l1 ≡ₚ l2 -> listing f l1 = listing f l2.
Proof.
  intros Hn Hp. unfold listing.
  assert (Hn' : NoDup (map srID (List.filter (fun r => matchSession r f) l1))).
  { eapply sublist_NoDup; [exact Hn|apply (fmap_sublist srID), filter_sublist]. }
  apply sort_Slice_unique; eauto using newer_trans, newer_asym, newer_decides.
  - by apply NoDup_fmap_1 in Hn'.
  - by apply filter_perm.
Qed.

(** ** Aggregates *)

Lemma sum_of_app g acc l : fold_left (fun a r => a + g r)%Z l acc = (acc + sum_of g l)%Z.
Proof.
  unfold sum_of. revert acc. induction l as [|r l IH]; intros acc; simpl; [lia|].
  rewrite (IH (acc + g r)%Z), (IH (0 + g r)%Z). lia.
Qed.

Lemma sum_of_cons g r l : sum_of g (r :: l) = (g r + sum_of g l)%Z.
Proof. unfold sum_of. simpl. by rewrite sum_of_app. Qed.

Lemma sum_of_perm g l1 l2 : l1 ≡ₚ l2 -> sum_of g l1 = sum_of g l2.
Proof. induction 1; rewrite ?sum_of_cons; lia. Qed.

(** How often a label occurs. *)
Definition occurrences (k : bytes) (labels : list bytes) : Z :=
  Z.of_nat (length (List.filter (fun l => l =s k) labels)).

Lemma count_labels_lookup labels k :
  default 0%Z (count_labels labels !! k) = (if k =s [] then 0 else occurrences k labels)%Z.
Proof.
  unfold count_labels, occurrences.
  assert (Hgen : forall m : gmap bytes Z, default 0%Z (fold_left count_label labels m !! k)
    = (default 0 (m !! k) + if k =s [] then 0
       else Z.of_nat (length (List.filter (fun l => l =s k) labels)))%Z).
  { induction labels as [|l ls IH]; intros m; simpl; [destruct (k =s []); lia|].
    rewrite IH. unfold count_label. destruct (l =s []) eqn:El; bool_hyps.
    - subst. destruct (k =s []) eqn:Ek; [done|]. destruct ([] =s k) eqn:E2; [|done].
      bool_hyps. congruence.
    - destruct (l =s k) eqn:Elk; bool_hyps.
      + subst l. rewrite lookup_insert_eq. destruct (k =s []) eqn:Ek; bool_hyps; [done|].
        simpl. lia.
      + by rewrite lookup_insert_ne. }
  by rewrite Hgen, lookup_empty.
Qed.

Lemma count_label_positive labels k n :
  count_labels labels !! k = Some n -> (0 < n)%Z.
Proof.
  unfold count_labels.
  assert (Hgen : forall m : gmap bytes Z, (forall k n, m !! k = Some n -> (0 < n)%Z) ->
    forall k n, fold_left count_label labels m !! k = Some n -> (0 < n)%Z).
  { induction labels as [|l ls IH]; intros m Hm; [done|]. simpl. apply IH.
    intros k' n'. unfold count_label. destruct (l =s []); [apply Hm|].
    rewrite lookup_insert_Some. intros [[<- <-]|[_ Hk]]; [|by eapply Hm].
    destruct (m !! l) eqn:E; simpl; [|lia]. apply Hm in E. lia. }
  apply Hgen. intros ? ?. by rewrite lookup_empty.
Qed.

Lemma count_labels_ext l1 l2 :
  (forall k, occurrences k l1 = occurrences k l2) -> count_labels l1 = count_labels l2.
Proof.
  intros Ho. apply map_eq. intros k.
  pose proof (count_labels_lookup l1 k) as H1. pose proof (count_labels_lookup l2 k) as H2.
  rewrite Ho, <- H2 in H1. destruct (count_labels l1 !! k) eqn:E1, (count_labels l2 !! k) eqn:E2;
    simpl in H1; try congruence.
  - apply count_label_positive in E1. lia.
  - apply count_label_positive in E2. lia.
Qed.

Lemma count_labels_perm l1 l2 : l1 ≡ₚ l2 -> count_labels l1 = count_labels l2.
Proof.
  intros Hp. apply count_labels_ext. intros k. unfold occurrences.
  by rewrite (filter_perm _ _ _ Hp).
Qed.

Lemma stats_of_perm `{GoUnicode} f l1 l2 evs : l1 ≡ₚ l2 -> stats_of f l1 evs = stats_of f l2 evs.
Proof.
  intros Hp. unfold stats_of. apply (filter_perm (fun r => matchSession r f)) in Hp.
  set (r1 := List.filter _ l1) in *. set (r2 := List.filter _ l2) in *.
  assert (HL : (list_to_set (map srID r1) : gset bytes) = list_to_set (map srID r2)).
  { apply leibniz_equiv. by rewrite (fmap_Permutation srID _ _ Hp). }
  rewrite HL, (Permutation_length Hp).
  rewrite !(sum_of_perm _ r1 r2 Hp).
  rewrite (count_labels_perm (map srPrincipal r1) (map srPrincipal r2)) by (by apply Permutation_map).
  rewrite (count_labels_perm (map srConnection r1) (map srConnection r2))
    by (by apply Permutation_map).
  by rewrite (count_labels_perm (map srRiskLevel r1) (map srRiskLevel r2))
    by (by apply Permutation_map).
Qed.

(** ** Eviction *)

(** One round: the oldest session and its events go. *)
Definition evict_one (m : MemoryStore) (victim : bytes) (order : list bytes) : MemoryStore :=
  {| ms_maxSessions := ms_maxSessions m; ms_sessions := delete victim (ms_sessions m);
     ms_order := order;
     ms_events := List.filter (fun e => negb (evSessionID (erEvent e) =s victim)) (ms_events m);
     ms_nextSeq := ms_nextSeq m; ms_dropped := ms_dropped m + 1; ms_closed := ms_closed m |}.

Lemma evict_within fuel m : length (ms_order m) <= ms_maxSessions m -> evict fuel m = m.
Proof.
  intros Hl. destruct fuel; [done|]. simpl.
  destruct (_ <=? _)%nat eqn:E; [done|]. bool_hyps. lia.
Qed.

Lemma evictLocked_within m : length (ms_order m) <= ms_maxSessions m -> evictLocked m = m.
Proof. apply evict_within. Qed.

Lemma evictLocked_full m victim order :
  ms_order m = victim :: order -> length order = ms_maxSessions m ->
  evictLocked m = evict_one m victim order.
Proof.
  intros Ho Hl. unfold evictLocked. rewrite Ho. cbn [length evict].
  rewrite Ho. cbn [length]. destruct (_ <=? _)%nat eqn:E; [bool_hyps; lia|].
  apply evict_within. simpl. lia.
Qed.
