(* ===== verification/StoreProps.v ===== *)
(** * Properties of the session store

    The specification of the store is a history: the log of every event ever
    accepted and a window saying which sessions are shown and from which point
    of the log.  A session's row is the fold of its events, an event's number
    is its place in the log.  [memory_store_refines] shows that the maps,
    counters and evictions of the implementation answer every query as the
    history does. *)

From stdpp Require Import sorting.
From S2P Require Import Prelude GoStrings GoText Types Session Sinks Store StoreFacts.

(** ** The history *)

Record history := {
  h_log : list Event;
  h_window : list (bytes * nat);
  h_evicted : nat;
  h_closed : bool;
}.

Section Spec.
Context `{GoUnicode, GoLib, CursorText}.

Definition numbered (log : list Event) : list EventRecord :=
  imap (fun i ev => {| erSeq := Z.of_nat (S i); erEvent := ev |}) log.

(** Where the window starts to show the session [id]. *)
Definition shown_from (w : list (bytes * nat)) (id : bytes) : option nat :=
  (list_to_map w : gmap bytes nat) !! id.

Definition shown (w : list (bytes * nat)) (e : EventRecord) : bool :=
  match shown_from w (evSessionID (erEvent e)) with
  | Some first => (Z.of_nat first <? erSeq e)%Z
  | None => false
  end.

Definition shown_events (h : history) : list EventRecord :=
  List.filter (shown (h_window h)) (numbered (h_log h)).

(** The events of a session from a point of the log on. *)
Definition span (log : list Event) (id : bytes) (first : nat) : list Event :=
  List.filter (fun ev => evSessionID ev =s id) (drop first log).

(** A session's row is its first event's, with all its events folded in. *)
Definition summary (evs : list Event) : SessionRecord :=
  fold_left applyEvent evs (new_record (default zeroEvent (head evs))).

Definition row (log : list Event) (p : bytes * nat) : SessionRecord :=
  summary (span log p.1 p.2).

Definition rows (h : history) : list SessionRecord := map (row (h_log h)) (h_window h).

(** A new session enters the window at the end; beyond [max] the oldest leave. *)
Definition admit_window (max : nat) (w : list (bytes * nat)) (p : bytes * nat)
  : list (bytes * nat) := drop (length (w ++ [p]) - max) (w ++ [p]).

Definition history_write (max : nat) (h : history) (ev : Event) : history :=
  let id := evSessionID ev in
  let n := length (h_log h) in
  match shown_from (h_window h) id with
  | Some _ =>
      {| h_log := h_log h ++ [ev]; h_window := h_window h; h_evicted := h_evicted h;
         h_closed := h_closed h |}
  | None =>
      {| h_log := h_log h ++ [ev];
         h_window := admit_window max (h_window h) (id, n);
         h_evicted := h_evicted h + (S (length (h_window h)) - max);
         h_closed := h_closed h |}
  end.

Inductive store_op :=
  | SWrite (ev : Event) (now : Z) | SClose | SDropped | SSession (id : bytes)
  | SSessions (ctxErr : option bytes) (f : SessionFilter)
  | SEvents (ctxErr : option bytes) (f : EventFilter)
  | SStats (ctxErr : option bytes) (f : SessionFilter).

Inductive store_out :=
  | QErr (e : option bytes) | QCount (n : Z) | QSession (r : bytes + SessionRecord)
  | QSessions (p : bytes + SessionPage) | QEvents (p : bytes + EventPage)
  | QStats (s : bytes + Stats).

Definition store_machine (maxSessions : Z) : machine store_op store_out :=
  Machine MemoryStore (NewMemoryStore maxSessions)
    (fun op m =>
       match op with
       | SWrite ev now => let '(m', e) := store_Write m ev now in (m', QErr e)
       | SClose => let '(m', e) := store_Close m in (m', QErr e)
       | SDropped => (m, QCount (store_Dropped m))
       | SSession id => (m, QSession (store_Session m id))
       | SSessions c f => (m, QSessions (store_Sessions m c f))
       | SEvents c f => (m, QEvents (store_Events m c f))
       | SStats c f => (m, QStats (store_Stats m c f))
       end).

Definition on_ctx {A} (ctxErr : option bytes) (r : bytes + A) : bytes + A :=
  match ctxErr with Some e => inl e | None => r end.

Definition history_machine (maxSessions : Z) : machine store_op store_out :=
  let max := if (maxSessions <=? 0)%Z then DefaultMemorySessions else Z.to_nat maxSessions in
  Machine history {| h_log := []; h_window := []; h_evicted := 0; h_closed := false |}
    (fun op h =>
       match op with
       | SWrite ev now =>
           if h_closed h then (h, QErr (Some ErrStoreClosed))
           else (history_write max h (with_timestamp ev now), QErr None)
       | SClose =>
           ({| h_log := h_log h; h_window := h_window h; h_evicted := h_evicted h;
               h_closed := true |}, QErr None)
       | SDropped => (h, QCount (Z.of_nat (h_evicted h)))
       | SSession id =>
           (h, QSession (match shown_from (h_window h) id with
                         | Some first => inr (row (h_log h) (id, first))
                         | None => inl (ErrNotFound id)
                         end))
       | SSessions c f =>
           (h, QSessions (on_ctx c (let f := sf_Normalize f in session_page f (listing f (rows h)))))
       | SEvents c f => (h, QEvents (on_ctx c (event_page (ef_Normalize f) (shown_events h))))
       | SStats c f => (h, QStats (on_ctx c (inr (stats_of f (rows h) (shown_events h)))))
       end).

(** ** The simulation *)

Record store_rel (max : nat) (m : MemoryStore) (h : history) : Prop := {
  sr_max : ms_maxSessions m = max;
  sr_pos : 0 < max;
  sr_order : ms_order m = (h_window h).*1;
  sr_nodup : NoDup (h_window h).*1;
  sr_len : length (h_window h) <= max;
  sr_first : forall id first, shown_from (h_window h) id = Some first ->
    exists ev, h_log h !! first = Some ev /\ evSessionID ev = id;
  sr_seq : ms_nextSeq m = Z.of_nat (length (h_log h));
  sr_events : ms_events m = shown_events h;
  sr_sessions : forall id, ms_sessions m !! id
    = (fun first => row (h_log h) (id, first)) <$> shown_from (h_window h) id;
  sr_dropped : ms_dropped m = Z.of_nat (h_evicted h);
  sr_closed : ms_closed m = h_closed h;
}.

Lemma numbered_snoc log ev :
  numbered (log ++ [ev])
  = numbered log ++ [{| erSeq := Z.of_nat (S (length log)); erEvent := ev |}].
Proof. unfold numbered. rewrite imap_app. simpl. by rewrite Nat.add_0_r. Qed.

Lemma numbered_seq log e : e ∈ numbered log -> (erSeq e <= Z.of_nat (length log))%Z.
Proof.
  unfold numbered. rewrite list_elem_of_lookup. intros [i Hi].
  rewrite list_lookup_imap in Hi. destruct (log !! i) eqn:E; [|done].
  apply lookup_lt_Some in E. injection Hi as <-. simpl. lia.
Qed.

Lemma span_snoc log ev id first :
  first <= length log ->
  span (log ++ [ev]) id first
  = span log id first ++ (if evSessionID ev =s id then [ev] else []).
Proof.
  intros Hf. unfold span. rewrite drop_app_le, List.filter_app by done. simpl.
  by destruct (evSessionID ev =s id).
Qed.

Lemma span_head log id first ev :
  log !! first = Some ev -> evSessionID ev = id -> exists r, span log id first = ev :: r.
Proof.
  intros Hl Hid. unfold span. rewrite (drop_S _ _ _ Hl). simpl.
  rewrite (proj2 (seqb_eq _ _) Hid). eauto.
Qed.

Lemma summary_snoc e evs ev : summary ((e :: evs) ++ [ev]) = applyEvent (summary (e :: evs)) ev.
Proof. unfold summary. by rewrite fold_left_app. Qed.

Lemma shown_from_snoc w id n k :
  id ∉ w.*1 ->
  shown_from (w ++ [(id, n)]) k = if decide (k = id) then Some n else shown_from w k.
Proof.
  intros Hid. unfold shown_from. rewrite list_to_map_app, lookup_union.
  simpl. destruct (decide (k = id)) as [->|Hk].
  - rewrite lookup_insert_eq. rewrite not_elem_of_list_to_map_1 by done. done.
  - rewrite lookup_insert_ne, lookup_empty by done. by destruct (_ !! k).
Qed.

Lemma shown_from_cons v f w k :
  shown_from ((v, f) :: w) k = if decide (k = v) then Some f else shown_from w k.
Proof.
  unfold shown_from. simpl. destruct (decide (k = v)) as [->|Hk].
  - by rewrite lookup_insert_eq.
  - by rewrite lookup_insert_ne.
Qed.

Lemma shown_from_None w k : shown_from w k = None <-> k ∉ w.*1.
Proof. unfold shown_from. symmetry. apply not_elem_of_list_to_map. Qed.

(** The tail of [store_Write]: the row is updated and the event appended. *)
Definition record_event (m : MemoryStore) (rec : SessionRecord) (ev : Event) : MemoryStore :=
  {| ms_maxSessions := ms_maxSessions m;
     ms_sessions := match ms_sessions m !! evSessionID ev with
                    | Some _ => <[evSessionID ev := applyEvent rec ev]> (ms_sessions m)
                    | None => ms_sessions m
                    end;
     ms_order := ms_order m;
     ms_events := ms_events m ++ [{| erSeq := ms_nextSeq m + 1; erEvent := ev |}];
     ms_nextSeq := ms_nextSeq m + 1; ms_dropped := ms_dropped m; ms_closed := ms_closed m |}.

Lemma row_snoc_other log ev k first :
  first <= length log -> evSessionID ev <> k -> row (log ++ [ev]) (k, first) = row log (k, first).
Proof.
  intros Hf Hk. unfold row. simpl. rewrite span_snoc by done.
  destruct (_ =s k) eqn:E; [by bool_hyps|]. by rewrite app_nil_r.
Qed.

Lemma row_snoc_same log ev first e0 :
  log !! first = Some e0 -> evSessionID e0 = evSessionID ev ->
  row (log ++ [ev]) (evSessionID ev, first) = applyEvent (row log (evSessionID ev, first)) ev.
Proof.
  intros Hl Hid. pose proof (lookup_lt_Some _ _ _ Hl). unfold row. simpl.
  rewrite span_snoc, seqb_refl by lia.
  destruct (span_head _ _ _ _ Hl Hid) as [r ->]. apply summary_snoc.
Qed.

Lemma first_bound m h max id first :
  store_rel max m h -> shown_from (h_window h) id = Some first -> first < length (h_log h).
Proof. intros HR Hs. destruct (sr_first _ _ _ HR _ _ Hs) as (ev & Hl & _). by eapply lookup_lt_Some. Qed.

(** An event of a session in the window. *)
Lemma write_known max m h ev first :
  store_rel max m h -> shown_from (h_window h) (evSessionID ev) = Some first ->
  store_rel max (record_event m (row (h_log h) (evSessionID ev, first)) ev)
    {| h_log := h_log h ++ [ev]; h_window := h_window h; h_evicted := h_evicted h;
       h_closed := h_closed h |}.
Proof.
  intros HR Hs. pose proof (first_bound _ _ _ _ _ HR Hs) as Hb.
  destruct (sr_first _ _ _ HR _ _ Hs) as (e0 & Hl & Hid).
  pose proof HR as []. split; simpl; try done.
  - intros k f Hk. destruct (sr_first0 _ _ Hk) as (e & He & ?). exists e.
    by rewrite lookup_app_l by (by eapply lookup_lt_Some).
  - rewrite length_app, sr_seq0. simpl. lia.
  - unfold shown_events. simpl. rewrite numbered_snoc, List.filter_app. simpl.
    rewrite sr_events0, sr_seq0. f_equal. unfold shown. simpl. rewrite Hs.
    destruct (_ <? _)%Z eqn:E; bool_hyps; [do 2 f_equal; lia|lia].
  - intros k. rewrite (sr_sessions0 (evSessionID ev)), Hs. simpl.
    destruct (decide (k = evSessionID ev)) as [->|Hk].
    + rewrite lookup_insert_eq, Hs. simpl. by erewrite row_snoc_same.
    + rewrite lookup_insert_ne, sr_sessions0 by done.
      destruct (shown_from (h_window h) k) as [f|] eqn:E; [|done]. simpl. f_equal.
      symmetry. apply row_snoc_other; [|done]. pose proof (first_bound _ _ _ _ _ HR E). lia.
Qed.

(** A new session, once the window has made room. *)
Lemma write_admitted max m h ev w :
  let id := evSessionID ev in
  ms_maxSessions m = max -> 0 < max -> length w < max ->
  NoDup w.*1 -> id ∉ w.*1 ->
  (forall k f, shown_from w k = Some f -> exists e, h_log h !! f = Some e /\ evSessionID e = k) ->
  ms_order m = w.*1 ++ [id] -> ms_nextSeq m = Z.of_nat (length (h_log h)) ->
  ms_events m = List.filter (shown w) (numbered (h_log h)) ->
  (forall k, ms_sessions m !! k = if decide (k = id) then Some (new_record ev)
     else (fun f => row (h_log h) (k, f)) <$> shown_from w k) ->
  ms_dropped m = Z.of_nat (h_evicted h) -> ms_closed m = h_closed h ->
  store_rel max (record_event m (new_record ev) ev)
    {| h_log := h_log h ++ [ev]; h_window := w ++ [(id, length (h_log h))];
       h_evicted := h_evicted h; h_closed := h_closed h |}.
Proof.
  intros id Hmax Hpos Hlen Hnd Hid Hfirst Hord Hseq Hev Hses Hdr Hcl.
  assert (Hfb : forall k f, shown_from w k = Some f -> f < length (h_log h)).
  { intros k f (e & He & _)%Hfirst. by eapply lookup_lt_Some. }
  split; simpl; try done.
  - by rewrite fmap_app.
  - rewrite fmap_app. apply NoDup_app. simpl. repeat split; [done| |apply NoDup_singleton].
    intros k Hk ->%list_elem_of_singleton. done.
  - rewrite length_app. simpl. lia.
  - intros k f. rewrite shown_from_snoc by done. case_decide as Hk.
    + intros [= <-]. exists ev. by rewrite list_lookup_middle.
    + intros (e & He & ?)%Hfirst. exists e. by rewrite lookup_app_l by (by eapply lookup_lt_Some).
  - rewrite length_app, Hseq. simpl. lia.
  - unfold shown_events. simpl. rewrite numbered_snoc, List.filter_app, Hev, Hseq. f_equal.
    + apply List.filter_ext_in. intros e He. unfold shown. rewrite shown_from_snoc by done.
      case_decide as Hk; [|done]. rewrite Hk, (proj2 (shown_from_None _ _) Hid).
      symmetry. apply Z.ltb_ge, numbered_seq. by apply list_elem_of_In.
    + simpl. unfold shown. simpl. rewrite shown_from_snoc, decide_True by done.
      destruct (_ <? _)%Z eqn:E; bool_hyps; [do 2 f_equal; lia|lia].
  - intros k. fold id. rewrite (Hses id), decide_True by done. rewrite shown_from_snoc by done.
    destruct (decide (k = id)) as [->|Hk]; simpl.
    + rewrite lookup_insert_eq. f_equal. unfold row, span. simpl.
      rewrite drop_app_length. simpl. unfold id. by rewrite seqb_refl.
    + rewrite lookup_insert_ne, Hses, decide_False by done.
      destruct (shown_from w k) as [f|] eqn:E; [|done]. simpl. f_equal.
      symmetry. apply row_snoc_other; [|fold id; congruence]. apply Hfb in E. lia.
Qed.

Lemma store_Write_record m ev0 now :
  ms_closed m = false ->
  let ev := with_timestamp ev0 now in
  (store_Write m ev0 now).1 =
    match ms_sessions m !! evSessionID ev with
    | Some rec => record_event m rec ev
    | None =>
        record_event
          (evictLocked
             {| ms_maxSessions := ms_maxSessions m;
                ms_sessions := <[evSessionID ev := new_record ev]> (ms_sessions m);
                ms_order := ms_order m ++ [evSessionID ev]; ms_events := ms_events m;
                ms_nextSeq := ms_nextSeq m; ms_dropped := ms_dropped m;
                ms_closed := ms_closed m |}) (new_record ev) ev
    end
  /\ (store_Write m ev0 now).2 = None.
Proof.
  intros Hc ev. unfold store_Write. rewrite Hc. fold ev. cbv zeta.
  by destruct (ms_sessions m !! evSessionID ev) as [rec|].
Qed.

(** The store with a row for the new session, before the eviction. *)
Definition with_session (m : MemoryStore) (ev : Event) : MemoryStore :=
  {| ms_maxSessions := ms_maxSessions m;
     ms_sessions := <[evSessionID ev := new_record ev]> (ms_sessions m);
     ms_order := ms_order m ++ [evSessionID ev]; ms_events := ms_events m;
     ms_nextSeq := ms_nextSeq m; ms_dropped := ms_dropped m; ms_closed := ms_closed m |}.

Lemma with_session_lookup max m h ev k :
  store_rel max m h ->
  ms_sessions (with_session m ev) !! k
  = if decide (k = evSessionID ev) then Some (new_record ev)
    else (fun f => row (h_log h) (k, f)) <$> shown_from (h_window h) k.
Proof.
  intros []. simpl. case_decide as Hk; [subst; apply lookup_insert_eq|].
  by rewrite lookup_insert_ne, sr_sessions0.
Qed.

(** Dropping the oldest session's events leaves what the shorter window shows. *)
Lemma evicted_events v f w log :
  v ∉ w.*1 ->
  List.filter (fun e => negb (evSessionID (erEvent e) =s v))
    (List.filter (shown ((v, f) :: w)) log) = List.filter (shown w) log.
Proof.
  intros Hv. rewrite filter_filter. apply List.filter_ext. intros e. unfold shown.
  rewrite shown_from_cons. case_decide as E.
  - by rewrite E, (proj2 (shown_from_None _ _) Hv), seqb_refl, andb_false_r.
  - destruct (_ =s v) eqn:E2; [by bool_hyps|]. apply andb_true_r.
Qed.

Lemma write_new_full max m h ev v f w :
  store_rel max m h -> h_window h = (v, f) :: w -> length w + 1 = max ->
  evSessionID ev ∉ (h_window h).*1 ->
  store_rel max (record_event (evictLocked (with_session m ev)) (new_record ev) ev)
    {| h_log := h_log h ++ [ev]; h_window := w ++ [(evSessionID ev, length (h_log h))];
       h_evicted := h_evicted h + 1; h_closed := h_closed h |}.
Proof.
  intros HR Ew Hlw Hid. pose proof HR as []. rewrite Ew in *.
  cbn [fmap list_fmap fst] in sr_nodup0, Hid, sr_order0.
  apply NoDup_cons in sr_nodup0 as [Hv Hw]. apply not_elem_of_cons in Hid as [Hiv Hiw].
  rewrite (evictLocked_full _ v (w.*1 ++ [evSessionID ev])).
  2:{ simpl. by rewrite sr_order0. }
  2:{ simpl. rewrite length_app, length_fmap. simpl. lia. }
  eapply (write_admitted max _ {| h_log := h_log h; h_window := h_window h;
    h_evicted := h_evicted h + 1; h_closed := h_closed h |}); simpl; try done; try lia.
  - intros k f' Hk. apply (sr_first0 k f'). rewrite shown_from_cons.
    case_decide as E; [|done]. subst k. by rewrite (proj2 (shown_from_None _ _) Hv) in Hk.
  - rewrite <- (evicted_events v f) by done. rewrite sr_events0.
    unfold shown_events. by rewrite Ew.
  - intros k. pose proof (with_session_lookup _ _ _ ev k HR) as Hses. simpl in Hses.
    destruct (decide (k = v)) as [->|Hkv].
    + rewrite lookup_delete_eq, decide_False by done.
      by rewrite (proj2 (shown_from_None _ _) Hv).
    + rewrite lookup_delete_ne, Hses, Ew by done.
      rewrite shown_from_cons, (decide_False (P := k = v)) by done. done.
Qed.

(** A session not in the window, whatever room there is. *)
Lemma write_new max m h ev :
  store_rel max m h -> shown_from (h_window h) (evSessionID ev) = None ->
  store_rel max (record_event (evictLocked (with_session m ev)) (new_record ev) ev)
    {| h_log := h_log h ++ [ev];
       h_window := admit_window max (h_window h) (evSessionID ev, length (h_log h));
       h_evicted := h_evicted h + (S (length (h_window h)) - max);
       h_closed := h_closed h |}.
Proof.
  intros HR Hs. pose proof (proj1 (shown_from_None _ _) Hs) as Hid. unfold admit_window.
  pose proof HR as []. rewrite length_app, Nat.add_comm. simpl length.
  destruct (decide (length (h_window h) < max)) as [Hlt|Hge].
  - rewrite evictLocked_within
      by (simpl; rewrite sr_order0, length_app, length_fmap; simpl; lia).
    replace (1 + length (h_window h) - max) with 0 by lia.
    replace (S (length (h_window h)) - max) with 0 by lia.
    rewrite drop_0, Nat.add_0_r.
    eapply (write_admitted max _ h); simpl; try done.
    + by rewrite sr_order0.
    + intros k. by apply (with_session_lookup max m h ev k).
  - assert (length (h_window h) = max) as Hl by lia.
    replace (1 + length (h_window h) - max) with 1 by lia.
    replace (S (length (h_window h)) - max) with 1 by lia.
    destruct (h_window h) as [|[v f] w] eqn:Ew; [simpl in *; lia|].
    cbn [app drop]. rewrite drop_0. eapply write_new_full; [done..|simpl in *; lia|by rewrite Ew].
Qed.

Lemma store_rows_perm max m h :
  store_rel max m h -> (map_to_list (ms_sessions m)).*2 ≡ₚ rows h.
Proof.
  intros []. unfold rows.
  set (L := map (fun p => (p.1, row (h_log h) p)) (h_window h)).
  assert (HL : L.*1 = (h_window h).*1).
  { subst L. rewrite <- list_fmap_compose. apply list_fmap_ext. by intros ? [] ?. }
  assert (ms_sessions m = list_to_map L) as ->.
  { apply map_eq. intros k. rewrite sr_sessions0. unfold shown_from. subst L. clear.
    induction (h_window h) as [|[v f] w IH]; simpl; [by rewrite !lookup_empty|].
    destruct (decide (k = v)) as [->|Hk]; [by rewrite !lookup_insert_eq|].
    by rewrite !lookup_insert_ne. }
  rewrite map_to_list_to_map by (by rewrite HL).
  subst L. rewrite <- list_fmap_compose. done.
Qed.

Lemma apply_kind_id rec ev : srID (apply_kind rec ev) = srID rec.
Proof. unfold apply_kind. by destruct (evKind ev). Qed.

Lemma summary_id evs rec : srID (fold_left applyEvent evs rec) = srID rec.
Proof.
  revert rec. induction evs as [|ev evs IH]; intros rec; [done|]. simpl.
  rewrite IH. apply apply_kind_id.
Qed.

Lemma rows_ids max m h : store_rel max m h -> map srID (rows h) = (h_window h).*1.
Proof.
  intros []. unfold rows. rewrite map_map. apply map_ext_in. intros [k f] Hin. simpl.
  assert (Hs : shown_from (h_window h) k = Some f).
  { apply elem_of_list_to_map; [done|]. by apply list_elem_of_In. }
  destruct (sr_first0 _ _ Hs) as (e & He & Hid).
  unfold row, summary. rewrite summary_id. simpl.
  destruct (span_head _ _ _ _ He Hid) as [r ->]. simpl. done.
Qed.

Lemma store_write_rel max m h ev now :
  store_rel max m h -> ms_closed m = false ->
  store_rel max (store_Write m ev now).1 (history_write max h (with_timestamp ev now))
  /\ (store_Write m ev now).2 = None.
Proof.
  intros HR Hc. destruct (store_Write_record m ev now Hc) as [-> ->]. split; [|done].
  rewrite (sr_sessions _ _ _ HR). unfold history_write.
  destruct (shown_from (h_window h) _) as [f|] eqn:E; simpl.
  - by apply write_known.
  - by apply write_new.
Qed.

(** The relation holds at the start, and every operation keeps it and answers
    alike. *)
Definition max_sessions (maxSessions : Z) : nat :=
  if (maxSessions <=? 0)%Z then DefaultMemorySessions else Z.to_nat maxSessions.

Lemma store_rel_init n :
  store_rel (max_sessions n) (minit (store_machine n)) (minit (history_machine n)).
Proof.
  split; simpl; try done; try constructor; try lia.
  unfold max_sessions, DefaultMemorySessions. destruct (_ <=? 0)%Z eqn:E; bool_hyps; lia.
Qed.

Lemma store_rel_step n op m h :
  store_rel (max_sessions n) m h ->
  store_rel (max_sessions n) (mexec (store_machine n) op m).1 (mexec (history_machine n) op h).1
  /\ (mexec (store_machine n) op m).2 = (mexec (history_machine n) op h).2.
Proof.
  intros HR. pose proof (store_rows_perm _ _ _ HR) as Hp.
  pose proof (rows_ids _ _ _ HR) as Hids.
  destruct op as [ev now| | |id|c f|c f|c f]; simpl.
  - destruct (h_closed h) eqn:Hc.
    + unfold store_Write. by rewrite (sr_closed _ _ _ HR), Hc.
    + rewrite <- (sr_closed _ _ _ HR) in Hc.
      destruct (store_write_rel _ _ _ ev now HR Hc) as [HR' HN].
      destruct (store_Write m ev now) as [m' e]. simpl in *. by subst.
  - split; [|done]. by destruct HR.
  - split; [done|]. unfold store_Dropped. by rewrite (sr_dropped _ _ _ HR).
  - split; [done|]. unfold store_Session. rewrite (sr_sessions _ _ _ HR).
    by destruct (shown_from (h_window h) id).
  - split; [done|]. destruct c; [done|]. simpl. do 2 f_equal.
    apply listing_perm; [|done].
    assert (map srID (map_to_list (ms_sessions m)).*2 ≡ₚ (h_window h).*1) as ->
      by (rewrite <- Hids; by apply Permutation_map).
    apply HR.
  - split; [done|]. destruct c; [done|]. simpl. by rewrite (sr_events _ _ _ HR).
  - split; [done|]. destruct c; [done|]. simpl. do 2 f_equal.
    rewrite (sr_events _ _ _ HR). by apply stats_of_perm.
Qed.

Lemma store_rel_run n ops :
  store_rel (max_sessions n) (mrun (store_machine n) (minit (store_machine n)) ops)
    (mrun (history_machine n) (minit (history_machine n)) ops).
Proof.
  apply (simulation_run (store_machine n) (history_machine n) (store_rel (max_sessions n)));
    [|apply store_rel_init].
  intros op m h HR. by apply store_rel_step.
Qed.

(** C11 The memory store implements the history: whatever is written, evicted
    and asked, every answer (a session's row and counters, a listing page, an
    event page, an aggregate, the number of evicted sessions, an error) is the
    one computed from the full log of accepted events restricted to the last
    [maxSessions] sessions opened. *)
Theorem memory_store_refines maxSessions :
  refines (store_machine maxSessions) (history_machine maxSessions).
Proof.
  apply (simulation_refines (store_machine maxSessions) (history_machine maxSessions)
    (store_rel (max_sessions maxSessions))).
  - apply store_rel_init.
  - intros op m h HR. by apply store_rel_step.
Qed.
End Spec.
