(* ===== verification/StorePaging.v ===== *)
(** * Paging over the session store

    Following the cursors of an unchanged store visits every matching session
    and every matching event exactly once, in order.  The hypotheses on the
    token rendering are for the tokens of the rows at hand. *)

From stdpp Require Import sorting.
From S2P Require Import Prelude GoStrings GoText Types Session Sinks Store StoreFacts StoreProps.

Section Paging.
Context `{GoUnicode, GoLib, CursorText}.

Lemma clamp_limit_range n : (1 <= clamp_limit n <= MaxLimit)%Z.
Proof.
  unfold clamp_limit, MaxLimit, DefaultLimit. destruct (n <=? 0)%Z eqn:E1; bool_hyps.
  - simpl. lia.
  - destruct (1000 <? n)%Z eqn:E2; bool_hyps; lia.
Qed.

(** ** Sessions *)

Definition sf_with_cursor (f : SessionFilter) (c : bytes) : SessionFilter :=
  {| sfPrincipal := sfPrincipal f; sfConnection := sfConnection f;
     sfProtocol := sfProtocol f; sfSince := sfSince f; sfUntil := sfUntil f;
     sfDeniedOnly := sfDeniedOnly f; sfOpenOnly := sfOpenOnly f; sfSearch := sfSearch f;
     sfLimit := sfLimit f; sfCursor := c |}.

(** A client that asks for page after page until there is no cursor. *)
Fixpoint walk_sessions (fuel : nat) (m : MemoryStore) (f : SessionFilter) : list SessionRecord :=
  match fuel with
  | O => []
  | S fuel =>
      match store_Sessions m None f with
      | inl _ => []
      | inr p => spSessions p ++
          if spNextCursor p =s [] then []
          else walk_sessions fuel m (sf_with_cursor f (spNextCursor p))
      end
  end.

Definition session_token (r : SessionRecord) : bytes :=
  encodeCursor {| cuID := srID r; cuSeq := 0 |}.

(** The token of a row is not empty and reads back. *)
Definition token_ok (c : cursor) : Prop :=
  encodeCursor c <> [] /\ decode_token (encodeCursor c) = Some c.

Lemma resume_after_spec l i r j :
  NoDup (map srID l) -> l !! i = Some r -> resume_after (srID r) l j = i + j + 1.
Proof.
  revert i j. induction l as [|x l IH]; intros i j Hn Hi; [done|]. simpl.
  apply NoDup_cons in Hn as [Hx Hn]. destruct i as [|i].
  - injection Hi as ->. by rewrite seqb_refl.
  - destruct (srID x =s srID r) eqn:E; bool_hyps.
    + destruct Hx. rewrite E. apply list_elem_of_fmap_2, list_elem_of_lookup. by exists i.
    + rewrite IH with (i := i) by done. lia.
Qed.

(** The position a filter's cursor stands for. *)
Definition cursor_at (l : list SessionRecord) (c : bytes) (start : nat) : Prop :=
  start <= length l /\
  match start with
  | O => c = []
  | S i => exists r, l !! i = Some r /\ c = session_token r
  end.

Lemma session_page_at f l start :
  NoDup (map srID l) -> Forall (fun r => token_ok {| cuID := srID r; cuSeq := 0 |}) l ->
  (1 <= sfLimit f)%Z -> cursor_at l (sfCursor f) start ->
  exists p, session_page f l = inr p
    /\ (if spNextCursor p =s [] then spSessions p = drop start l
        else exists start', start < start' /\ cursor_at l (spNextCursor p) start'
          /\ spSessions p ++ drop start' l = drop start l).
Proof.
  intros Hn Htok Hlim [Hle Hc]. unfold session_page.
  assert ((if sfCursor f =s [] then inr 0
    else match decodeCursor (sfCursor f) with
         | inl e => inl e | inr c => inr (resume_after (cuID c) l 0) end)
    = @inr bytes nat start) as ->.
  { destruct start as [|i]; [by rewrite Hc|]. destruct Hc as (r & Hr & ->).
    pose proof (Forall_lookup_1 _ _ _ _ Htok Hr) as [Hne Hd]. unfold session_token, decodeCursor.
    destruct (_ =s []) eqn:E; [by bool_hyps|]. rewrite Hd. f_equal. simpl.
    rewrite (resume_after_spec l i r 0) by done. lia. }
  eexists. split; [reflexivity|]. cbn [spSessions spNextCursor].
  rewrite (Nat.min_l start) by done. set (e := (start + Z.to_nat (sfLimit f)) `min` length l).
  destruct (e <? length l)%nat eqn:E1; bool_hyps; cbn [andb].
  - replace (start <? e)%nat with true by (symmetry; apply Nat.ltb_lt; lia).
    destruct (lookup_lt_is_Some_2 l (e - 1)) as [r Hr]; [lia|]. rewrite Hr.
    pose proof (Forall_lookup_1 _ _ _ _ Htok Hr) as [Hne _].
    destruct (_ =s []) eqn:E2; [by bool_hyps|]. exists e. split; [lia|]. split.
    + split; [lia|]. destruct e as [|i] eqn:Ee; [lia|].
      exists r. replace (S i - 1) with i in Hr by lia. done.
    + replace (drop e l) with (drop (e - start) (drop start l))
        by (rewrite drop_drop; f_equal; lia). apply take_drop.
  - simpl. apply take_ge. rewrite length_drop. lia.
Qed.

Lemma walk_sessions_from fuel m f start :
  let l := listing (sf_Normalize f) (map_to_list (ms_sessions m)).*2 in
  NoDup (map srID l) -> Forall (fun r => token_ok {| cuID := srID r; cuSeq := 0 |}) l ->
  cursor_at l (sfCursor f) start -> length l - start < fuel ->
  walk_sessions fuel m f = drop start l.
Proof.
  intros l Hn Htok. revert f start l Hn Htok.
  induction fuel as [|fuel IH]; intros f start l Hn Htok Hc Hf; [lia|].
  cbn [walk_sessions store_Sessions]. fold l.
  destruct (session_page_at (sf_Normalize f) l start) as (p & -> & Hp); [done..| |done|].
  { pose proof (clamp_limit_range (sfLimit f)). simpl. lia. }
  destruct (spNextCursor p =s []); [by rewrite app_nil_r|].
  destruct Hp as (start' & Hlt & Hc' & <-). f_equal.
  apply (IH (sf_with_cursor f (spNextCursor p)) start'); try done.
  destruct Hc as [? _], Hc' as [? _]. change (length l - start' < fuel). lia.
Qed.

Lemma run_listing_ids n ops f :
  NoDup (map srID (listing f
    (map_to_list (ms_sessions (mrun (store_machine n) (minit (store_machine n)) ops))).*2)).
Proof.
  pose proof (store_rel_run n ops) as HR. set (m := mrun (store_machine n) _ ops) in *.
  set (h := mrun (history_machine n) _ ops) in *. unfold listing.
  rewrite (Permutation_map srID (sort_Slice_perm newer _)).
  eapply sublist_NoDup; [|apply (fmap_sublist srID), filter_sublist].
  assert (srID <$> (map_to_list (ms_sessions m)).*2 ≡ₚ (h_window h).*1) as ->.
  { rewrite <- (rows_ids _ _ _ HR). by apply Permutation_map, (store_rows_perm _ _ _ HR). }
  apply HR.
Qed.

(** Paging through the sessions loses and repeats nothing: on any store the
    operations can produce, following the cursors from the first page visits
    the whole listing, newest first, each session once. *)
Theorem session_paging_complete n ops f :
  let m := mrun (store_machine n) (minit (store_machine n)) ops in
  let l := listing (sf_Normalize f) (map_to_list (ms_sessions m)).*2 in
  sfCursor f = [] -> Forall (fun r => token_ok {| cuID := srID r; cuSeq := 0 |}) l ->
  walk_sessions (S (length l)) m f = l /\ NoDup (map srID l) /\ ordered newer l.
Proof.
  intros m l Hc Htok. pose proof (run_listing_ids n ops (sf_Normalize f)) as Hn. fold m l in Hn.
  split; [|split; [done|]].
  - rewrite (walk_sessions_from _ _ _ 0); [apply drop_0|done|done| |].
    + split; [lia|]. by simpl.
    + fold l. lia.
  - unfold l, listing in Hn |- *.
    rewrite (Permutation_map srID (sort_Slice_perm newer _)) in Hn.
    apply sort_Slice_ordered; [apply newer_trans| |by apply newer_decides].
    by apply (NoDup_fmap_1 srID) in Hn.
Qed.

(** ** Events *)

Definition ef_with_cursor (f : EventFilter) (c : bytes) : EventFilter :=
  {| efSessionID := efSessionID f; efKinds := efKinds f; efPrincipal := efPrincipal f;
     efConnection := efConnection f; efProtocol := efProtocol f;
     efDeniedOnly := efDeniedOnly f; efSince := efSince f; efUntil := efUntil f;
     efSearch := efSearch f; efLimit := efLimit f; efCursor := c |}.

Fixpoint walk_events (fuel : nat) (m : MemoryStore) (f : EventFilter) : list EventRecord :=
  match fuel with
  | O => []
  | S fuel =>
      match store_Events m None f with
      | inl _ => []
      | inr p => epEvents p ++
          if epNextCursor p =s [] then []
          else walk_events fuel m (ef_with_cursor f (epNextCursor p))
      end
  end.

Definition increasing (l : list EventRecord) : Prop :=
  StronglySorted (fun a b => (erSeq a < erSeq b)%Z) l.

Definition beyond (after : Z) (l : list EventRecord) : list EventRecord :=
  List.filter (fun e => negb (erSeq e <=? after)%Z) l.

Lemma increasing_filter p l : increasing l -> increasing (List.filter p l).
Proof.
  induction 1 as [|x l Hl IH Hx]; simpl; [constructor|]. destruct (p x); [|done].
  constructor; [done|]. rewrite List.Forall_forall in *. intros y Hy.
  apply List.filter_In in Hy as [? _]. auto.
Qed.

Lemma beyond_all after l : Forall (fun e => (after < erSeq e)%Z) l -> beyond after l = l.
Proof.
  induction 1 as [|e l He _ IH]; [done|]. unfold beyond. simpl.
  replace (erSeq e <=? after)%Z with false by (symmetry; apply Z.leb_gt; lia).
  simpl. f_equal. apply IH.
Qed.

(** Beyond an element of an increasing list is what follows it. *)
Lemma beyond_drop l i e : increasing l -> l !! i = Some e -> beyond (erSeq e) l = drop (S i) l.
Proof.
  intros Hi. revert i. induction Hi as [|x l Hl IH Hx]; intros i Hli; [done|].
  unfold beyond. simpl. destruct i as [|i].
  - injection Hli as ->. rewrite Z.leb_refl. simpl. rewrite drop_0. by apply beyond_all.
  - simpl in Hli. replace (erSeq x <=? erSeq e)%Z with true; [by apply IH|].
    symmetry. apply Z.leb_le. apply (Forall_lookup_1 _ _ _ _ Hx) in Hli. lia.
Qed.

Definition event_token (e : EventRecord) : cursor := {| cuID := []; cuSeq := erSeq e |}.

Definition ev_cursor_at (l : list EventRecord) (c : bytes) (start : nat) : Prop :=
  start <= length l /\
  match start with
  | O => c = []
  | S i => exists e, l !! i = Some e /\ c = encodeCursor (event_token e)
  end.

Lemma event_page_at f evs start :
  let l := List.filter (fun e => matchEvent e f) evs in
  increasing l -> Forall (fun e => (0 < erSeq e)%Z) l ->
  Forall (fun e => token_ok (event_token e)) l ->
  (1 <= efLimit f)%Z -> ev_cursor_at l (efCursor f) start ->
  exists p, event_page f evs = inr p
    /\ (if epNextCursor p =s [] then epEvents p = drop start l
        else exists start', start < start' /\ ev_cursor_at l (epNextCursor p) start'
          /\ epEvents p ++ drop start' l = drop start l).
Proof.
  intros l Hi Hpos Htok Hlim [Hle Hc]. unfold event_page.
  assert (exists after, (if efCursor f =s [] then inr 0%Z
    else match decodeCursor (efCursor f) with inl e => inl e | inr c => inr (cuSeq c) end)
    = @inr bytes Z after /\ beyond after l = drop start l) as (after & -> & Hb).
  { destruct start as [|i].
    - exists 0%Z. rewrite Hc, drop_0. split; [done|]. by apply beyond_all.
    - destruct Hc as (e & He & ->). exists (erSeq e). split; [|by apply beyond_drop].
      pose proof (Forall_lookup_1 _ _ _ _ Htok He) as [Hne Hd]. unfold decodeCursor.
      destruct (_ =s []) eqn:E; [by bool_hyps|]. by rewrite Hd. }
  eexists. split; [reflexivity|]. cbn [epEvents epNextCursor]. fold l.
  unfold beyond in Hb. rewrite Hb. set (lim := Z.to_nat (efLimit f)). set (q := take lim _).
  destruct (length q =? lim)%nat eqn:E1; bool_hyps; simpl.
  - destruct (length q <? length l)%nat eqn:E2; bool_hyps; simpl.
    + unfold q in *. rewrite length_take, length_drop in *.
      rewrite last_lookup, length_take, length_drop.
      destruct (lookup_lt_is_Some_2 l (start + lim - 1)) as [e He]; [lia|].
      rewrite lookup_take_lt, lookup_drop by lia.
      replace (start + _) with (start + lim - 1) by lia. rewrite He.
      pose proof (Forall_lookup_1 _ _ _ _ Htok He) as [Hne _].
      destruct (_ =s []) eqn:E3; [by bool_hyps|]. exists (start + lim). split; [lia|]. split.
      * split; [lia|]. destruct (start + lim) as [|i] eqn:Ei; [lia|].
        exists e. replace (S i - 1) with i in He by lia. done.
      * rewrite <- drop_drop. apply take_drop.
    + unfold q in *. rewrite length_take, length_drop in *. apply take_ge. rewrite length_drop. lia.
  - unfold q in *. rewrite length_take, length_drop in *. apply take_ge. rewrite length_drop. lia.
Qed.

Lemma walk_events_from fuel m f start :
  let l := List.filter (fun e => matchEvent e (ef_Normalize f)) (ms_events m) in
  increasing l -> Forall (fun e => (0 < erSeq e)%Z) l ->
  Forall (fun e => token_ok (event_token e)) l ->
  ev_cursor_at l (efCursor f) start -> length l - start < fuel ->
  walk_events fuel m f = drop start l.
Proof.
  intros l Hi Hpos Htok. revert f start l Hi Hpos Htok.
  induction fuel as [|fuel IH]; intros f start l Hi Hpos Htok Hc Hf; [lia|].
  cbn [walk_events store_Events].
  destruct (event_page_at (ef_Normalize f) (ms_events m) start) as (p & -> & Hp);
    [done..| |done|].
  { pose proof (clamp_limit_range (efLimit f)). simpl. lia. }
  fold l in Hp. destruct (epNextCursor p =s []); [by rewrite app_nil_r|].
  destruct Hp as (start' & Hlt & Hc' & <-). f_equal.
  apply (IH (ef_with_cursor f (epNextCursor p)) start'); try done.
  destruct Hc as [? _], Hc' as [? _]. change (length l - start' < fuel). lia.
Qed.

Lemma numbered_increasing log : increasing (numbered log).
Proof.
  induction log as [|ev log IH] using rev_ind; [constructor|]. rewrite numbered_snoc.
  apply StronglySorted_app. split; [|split; [done|repeat constructor]].
  intros a b Ha%numbered_seq ->%list_elem_of_singleton. simpl. lia.
Qed.

Lemma numbered_positive log : Forall (fun e => (0 < erSeq e)%Z) (numbered log).
Proof.
  induction log as [|ev log IH] using rev_ind; [constructor|]. rewrite numbered_snoc.
  apply Forall_app. split; [done|]. constructor; [simpl; lia|constructor].
Qed.

Lemma Forall_filter {A} (P : A -> Prop) p l : Forall P l -> Forall P (List.filter p l).
Proof. induction 1; simpl; [constructor|]. case_go; [by constructor|done]. Qed.

(** Paging through the events of a store loses and repeats nothing: the
    pages put together are the matching events in the order they were written,
    whatever was evicted before. *)
Theorem event_paging_complete n ops f :
  let m := mrun (store_machine n) (minit (store_machine n)) ops in
  let l := List.filter (fun e => matchEvent e (ef_Normalize f)) (ms_events m) in
  efCursor f = [] -> Forall (fun e => token_ok (event_token e)) l ->
  walk_events (S (length l)) m f = l /\ increasing l.
Proof.
  intros m l Hc Htok. pose proof (store_rel_run n ops) as HR. fold m in HR.
  assert (Hi : increasing l).
  { apply increasing_filter. rewrite (sr_events _ _ _ HR).
    apply increasing_filter, numbered_increasing. }
  split; [|done]. rewrite (walk_events_from _ _ _ 0); [apply drop_0|done| |done| |].
  - apply Forall_filter. rewrite (sr_events _ _ _ HR). apply Forall_filter, numbered_positive.
  - split; [lia|]. by simpl.
  - fold l. lia.
Qed.
End Paging.

(** ** Evaluation *)

(** A token rendering for evaluation: the number, a colon, the id. *)
Definition plain_cursor : CursorText := {|
  encodeCursor c := itoa (cuSeq c) ++ x3a :: cuID c;
  decode_token s :=
    match IndexByte s x3a with
    | Some i => match Atoi (take i s) with
                | Some n => Some {| cuID := drop (S i) s; cuSeq := n |}
                | None => None
                end
    | None => None
    end;
|}.

Definition demo_event (id : bytes) (k : EventKind) (at_ : Z) : Event :=
  {| evKind := k; evTimestamp := at_; evSessionID := id; evPrincipal := B "alice";
     evProtocol := Protocol.Postgres; evConnection := B "db"; evOperation := B "select";
     evStatement := B "select 1"; evTables := []; evAllowed := true; evRule := [];
     evMessage := []; evDirection := None; evMaskedEntities := []; evMaskedCount := 0;
     evError := []; evDuration := 0; evStatementCount := 0; evDeniedCount := 0;
     evHTTP := None; evMetadata := ∅ |}.

Definition demo_ops : list store_op :=
  map (fun '(id, k, t) => SWrite (demo_event id k t) 0%Z)
    [(B "a", KindSessionStart, 1%Z); (B "b", KindSessionStart, 2%Z);
     (B "a", KindStatement, 3%Z); (B "c", KindSessionStart, 4%Z);
     (B "c", KindViolation, 5%Z); (B "b", KindError, 6%Z)].

Definition any_session (limit : Z) : SessionFilter :=
  {| sfPrincipal := []; sfConnection := []; sfProtocol := []; sfSince := zeroTime;
     sfUntil := zeroTime; sfDeniedOnly := false; sfOpenOnly := false; sfSearch := [];
     sfLimit := limit; sfCursor := [] |}.

Definition any_event (limit : Z) : EventFilter :=
  {| efSessionID := []; efKinds := []; efPrincipal := []; efConnection := [];
     efProtocol := []; efDeniedOnly := false; efSince := zeroTime; efUntil := zeroTime;
     efSearch := []; efLimit := limit; efCursor := [] |}.

Lemma session_paging_complete_witness :
  let m := mrun (@store_machine ascii_only plain_lib plain_cursor 2)
             (NewMemoryStore 2) demo_ops in
  map srID (@walk_sessions ascii_only plain_cursor 3 m (any_session 1)) = [B "c"; B "b"].
Proof.
  intros m.
  destruct (@session_paging_complete ascii_only plain_lib plain_cursor 2 demo_ops
    (any_session 1)) as (HW & _).
  - done.
  - vm_compute. repeat constructor; discriminate.
  - apply (f_equal (map srID)) in HW. vm_compute in HW |- *. exact HW.
Defined.

Lemma event_paging_complete_witness :
  let m := mrun (@store_machine ascii_only plain_lib plain_cursor 2)
             (NewMemoryStore 2) demo_ops in
  map erSeq (@walk_events ascii_only plain_cursor 5 m (any_event 2)) = [2; 4; 5; 6]%Z.
Proof.
  intros m.
  destruct (@event_paging_complete ascii_only plain_lib plain_cursor 2 demo_ops
    (any_event 2)) as (HW & _).
  - done.
  - match goal with |- Forall ?P ?l =>
      let v := eval vm_compute in l in change (Forall P v) end.
    repeat apply List.Forall_cons; try apply List.Forall_nil; by split.
  - apply (f_equal (map erSeq)) in HW. vm_compute in HW |- *. exact HW.
Defined.

(** ** Where the store departs from its comments *)

Section Departures.
#[local] Existing Instances ascii_only plain_lib plain_cursor.

(** An event of an evicted session opens it again with what comes after only:
    the row and the timeline then show part of a session as a whole one. *)
Lemma evicted_session_returns_in_part :
  let m := mrun (store_machine 1) (NewMemoryStore 1)
    (map (fun '(id, k, t) => SWrite (demo_event id k t) 0%Z)
       [(B "a", KindSessionStart, 1%Z); (B "a", KindViolation, 2%Z);
        (B "b", KindSessionStart, 3%Z); (B "a", KindStatement, 4%Z)]) in
  match store_Session m (B "a") with
  | inr r => srVerdict r = VerdictClean /\ srStatementCount r = 1%Z /\ srStartedAt r = 4%Z
  | inl _ => False
  end.
Proof. by vm_compute. Qed.

(** When the session a cursor names has left the listing, the next page is the
    first one again. *)
Lemma lost_cursor_restarts :
  let open := {| sfPrincipal := []; sfConnection := []; sfProtocol := []; sfSince := zeroTime;
     sfUntil := zeroTime; sfDeniedOnly := false; sfOpenOnly := true; sfSearch := [];
     sfLimit := 1; sfCursor := [] |} in
  let m := mrun (store_machine 8) (NewMemoryStore 8)
    (map (fun '(id, k, t) => SWrite (demo_event id k t) 0%Z)
       [(B "a", KindSessionStart, 1%Z); (B "b", KindSessionStart, 2%Z);
        (B "c", KindSessionStart, 3%Z); (B "d", KindSessionStart, 4%Z)]) in
  let m' := (store_Write m (demo_event (B "c") KindSessionEnd 5) 0).1 in
  let ids p := match p with inr p => map srID (spSessions p) | inl _ => [] end in
  let next p := match p with inr p => spNextCursor p | inl _ => [] end in
  let p1 := store_Sessions m None open in
  let p2 := store_Sessions m None (sf_with_cursor open (next p1)) in
  ids p1 = [B "d"] /\ ids p2 = [B "c"]
  /\ ids (store_Sessions m' None (sf_with_cursor open (next p2))) = [B "d"].
Proof. by vm_compute. Qed.

(** The last page of events can carry a cursor, to an empty page. *)
Lemma last_event_page_has_cursor :
  let m := mrun (store_machine 2) (NewMemoryStore 2) demo_ops in
  match store_Events m None (any_event 2) with
  | inr p1 =>
      match store_Events m None (ef_with_cursor (any_event 2) (epNextCursor p1)) with
      | inr p2 => map erSeq (epEvents p2) = [5; 6]%Z /\ epNextCursor p2 <> []
      | inl _ => False
      end
  | inl _ => False
  end.
Proof. by vm_compute. Qed.

(** A search for a statement's text finds no session. *)
Lemma session_search_ignores_statements :
  let m := mrun (store_machine 2) (NewMemoryStore 2) demo_ops in
  let f := {| sfPrincipal := []; sfConnection := []; sfProtocol := []; sfSince := zeroTime;
     sfUntil := zeroTime; sfDeniedOnly := false; sfOpenOnly := false;
     sfSearch := B "select 1"; sfLimit := 1; sfCursor := [] |} in
  match store_Sessions m None f with inr p => spTotal p = 0%Z | inl _ => False end.
Proof. by vm_compute. Qed.
End Departures.

(** ** What a row counts *)

Section Counters.
Context `{GoUnicode}.

Definition count_kind (k : EventKind) (evs : list Event) : Z :=
  Z.of_nat (length (List.filter (fun e => bool_decide (evKind e = k)) evs)).

(** An end event's totals agree with what was counted before it, or are absent
    (zero) when nothing was. *)
Fixpoint ends_agree (st dn : Z) (evs : list Event) : Prop :=
  match evs with
  | [] => True
  | e :: r =>
      match evKind e with
      | KindStatement => ends_agree (st + 1) dn r
      | KindViolation => ends_agree (st + 1) (dn + 1) r
      | KindSessionEnd => evStatementCount e = st /\ evDeniedCount e = dn /\ ends_agree st dn r
      | _ => ends_agree st dn r
      end
  end.

Definition is_kind (k : EventKind) (e : Event) : Z := if bool_decide (evKind e = k) then 1 else 0.

Lemma count_kind_cons k e evs : count_kind k (e :: evs) = (is_kind k e + count_kind k evs)%Z.
Proof. unfold count_kind, is_kind. simpl. case_bool_decide; simpl; lia. Qed.

(** One event moves the counters by its kind. *)
Lemma applyEvent_counts rec e evs :
  ends_agree (srStatementCount rec) (srDeniedCount rec) (e :: evs) ->
  let r := applyEvent rec e in
  srStatementCount r = (srStatementCount rec + is_kind KindStatement e + is_kind KindViolation e)%Z
  /\ srDeniedCount r = (srDeniedCount rec + is_kind KindViolation e)%Z
  /\ srErrorCount r = (srErrorCount rec + is_kind KindError e)%Z
  /\ ends_agree (srStatementCount r) (srDeniedCount r) evs.
Proof.
  unfold applyEvent, apply_kind, is_kind. simpl. destruct (evKind e); simpl; intros Ha.
  2:{ destruct Ha as (H1 & H2 & Ha). rewrite H1, H2.
      destruct (0 <? srStatementCount rec)%Z, (0 <? srDeniedCount rec)%Z; repeat split; try lia; done. }
  all: repeat split; try lia; done.
Qed.

Lemma fold_counts evs rec :
  ends_agree (srStatementCount rec) (srDeniedCount rec) evs ->
  let r := fold_left applyEvent evs rec in
  srStatementCount r
    = (srStatementCount rec + count_kind KindStatement evs + count_kind KindViolation evs)%Z
  /\ srDeniedCount r = (srDeniedCount rec + count_kind KindViolation evs)%Z
  /\ srErrorCount r = (srErrorCount rec + count_kind KindError evs)%Z.
Proof.
  revert rec. induction evs as [|e evs IH]; intros rec Ha.
  { unfold count_kind. simpl. repeat split; lia. }
  destruct (applyEvent_counts _ _ _ Ha) as (H1 & H2 & H3 & Ha').
  destruct (IH _ Ha') as (I1 & I2 & I3). cbn [fold_left]. rewrite !count_kind_cons.
  repeat split; lia.
Qed.

Lemma fold_verdict evs rec :
  srVerdict rec = ClassifyVerdict (srDeniedCount rec) (srErrorCount rec) \/ evs <> [] ->
  let r := fold_left applyEvent evs rec in
  srVerdict r = ClassifyVerdict (srDeniedCount r) (srErrorCount r).
Proof.
  revert rec. induction evs as [|e evs IH]; intros rec [Hr|Hr]; try done; apply IH; by left.
Qed.

(** A session's row tells the truth about its timeline: when the end events
    carry the totals the gate counted, the row's counters are the numbers of
    statements, denials and errors among the session's events, and its verdict
    is "denied" exactly when a statement was refused, "error" exactly when none
    was and the transport failed. *)
Theorem row_counts_timeline evs :
  evs <> [] -> ends_agree 0 0 evs ->
  let r := summary evs in
  srStatementCount r = (count_kind KindStatement evs + count_kind KindViolation evs)%Z
  /\ srDeniedCount r = count_kind KindViolation evs
  /\ (srVerdict r = VerdictDenied <-> (0 < count_kind KindViolation evs)%Z)
  /\ (srVerdict r = VerdictError
      <-> count_kind KindViolation evs = 0%Z /\ (0 < count_kind KindError evs)%Z).
Proof.
  intros Hne Ha. unfold summary.
  set (rec := new_record _). destruct (fold_counts evs rec Ha) as (H1 & H2 & H3).
  pose proof (fold_verdict evs rec (or_intror Hne)) as Hv. cbv zeta in *.
  rewrite H2, H3 in Hv. simpl in *. rewrite Hv, H1, H2.
  assert (0 <= count_kind KindViolation evs)%Z by (unfold count_kind; lia).
  unfold ClassifyVerdict. split; [lia|]. split; [lia|].
  destruct (0 <? _)%Z eqn:E1; bool_hyps; [|destruct (0 <? _)%Z eqn:E2; bool_hyps];
    (split; split; intros; try done; try lia).
Qed.
End Counters.

Lemma row_counts_timeline_witness :
  let evs := [demo_event (B "a") KindSessionStart 1; demo_event (B "a") KindStatement 2;
              demo_event (B "a") KindViolation 3; demo_event (B "a") KindError 4] in
  srStatementCount (@summary ascii_only evs) = 2%Z
  /\ srVerdict (@summary ascii_only evs) = VerdictDenied.
Proof.
  intros evs.
  destruct (@row_counts_timeline ascii_only evs) as (H1 & _ & H3 & _); [done|by simpl|].
  split; [by rewrite H1|]. apply H3. by vm_compute.
Defined.
