(* ===== verification/StoreApi.v ===== *)
(** * The query API: src/hoopinspect/store/api.go

    [API] serves a [Store] over HTTP as JSON.  The source's [Store] is an
    interface; here it is the class [StoreOps], and what a client of it relies
    on is [StoreLaws]: a page holds only what its filter matches, within the
    filter's limit.  The handlers are proved against the class and
    [MemoryStore] discharges it through its refinement of the history.

    net/http matches the request with a pattern of [Routes]; a request is the
    matched [Endpoint] with its query, [url.Values].  The body is the value
    [writeJSON] encodes. *)

From S2P Require Import Prelude GoStrings GoText GoTime Types Session Sinks Store.
From S2P Require Import StoreFacts StoreProps StorePaging.

#[local] Open Scope Z_scope.

(** ** Requests and responses *)

Definition Values := gmap bytes (list bytes).

(** [Values.Get]: the first value, or the empty string. *)
Definition Get (q : Values) (key : bytes) : bytes :=
  match q !! key with
  | Some (v :: _) => v
  | _ => []
  end.

Definition StatusOK : Z := 200.
Definition StatusBadRequest : Z := 400.
Definition StatusNotFound : Z := 404.
Definition StatusInternalServerError : Z := 500.

(** The patterns of [Routes]; [id] is [PathValue("id")]. *)
Inductive Endpoint :=
  | ListSessions | GetSession (id : bytes) | ListSessionEvents (id : bytes)
  | ListEvents | GetStats.

Inductive Body :=
  | BSessions (p : SessionPage) | BSession (r : SessionRecord) | BEvents (p : EventPage)
  | BStats (s : Stats) | BError (msg : bytes).

Record Response := { rpStatus : Z; rpBody : Body }.

Definition writeJSON (code : Z) (v : Body) : Response := {| rpStatus := code; rpBody := v |}.
Definition writeError (code : Z) (err : bytes) : Response := writeJSON code (BError err).

(** ** Reading values *)

Definition parseTime (s : bytes) : bytes + Z :=
  if s =s [] then inr zeroTime
  else match time_Parse_RFC3339 s with
       | Some t => inr t
       | None =>
           match time_Parse_date s with
           | Some t => inr t
           | None => inl (B "want RFC3339 or YYYY-MM-DD")
           end
       end.

(** [strconv.ParseBool] *)
Definition ParseBool (s : bytes) : option bool :=
  if bool_decide (s ∈ [B "1"; B "t"; B "T"; B "true"; B "TRUE"; B "True"]) then Some true
  else if bool_decide (s ∈ [B "0"; B "f"; B "F"; B "false"; B "FALSE"; B "False"])
  then Some false
  else None.

Definition parseBool (s : bytes) : bytes + bool :=
  if s =s [] then inr false
  else match ParseBool s with
       | Some v => inr v
       | None => inl (B "want true or false")
       end.

Definition parseLimit (s : bytes) : bytes + Z :=
  if s =s [] then inr 0
  else match Atoi s with
       | None => inl (B "invalid 'limit': want an integer")
       | Some n => if n <? 0 then inl (B "invalid 'limit': must not be negative") else inr n
       end.

(** [return f, errors.New(what + err.Error())] on an error *)
Definition or_invalid {A B} (what : bytes) (r : bytes + A) (k : A -> bytes + B) : bytes + B :=
  match r with
  | inl e => inl (what ++ e)
  | inr a => k a
  end.

Definition parseSessionFilter (q : Values) : bytes + SessionFilter :=
  or_invalid (B "invalid 'since': ") (parseTime (Get q (B "since"))) (fun since =>
  or_invalid (B "invalid 'until': ") (parseTime (Get q (B "until"))) (fun until =>
  or_invalid (B "invalid 'denied': ") (parseBool (Get q (B "denied"))) (fun denied =>
  or_invalid (B "invalid 'open': ") (parseBool (Get q (B "open"))) (fun open_ =>
  or_invalid [] (parseLimit (Get q (B "limit"))) (fun limit =>
  inr (sf_Normalize
    {| sfPrincipal := Get q (B "principal"); sfConnection := Get q (B "connection");
       sfProtocol := Get q (B "protocol"); sfSince := since; sfUntil := until;
       sfDeniedOnly := denied; sfOpenOnly := open_; sfSearch := Get q (B "q");
       sfLimit := limit; sfCursor := Get q (B "cursor") |})))))).

Definition parseEventFilter (q : Values) : bytes + EventFilter :=
  let kinds := List.filter (fun k => negb (k =s [])) (default [] (q !! B "kind")) in
  or_invalid (B "invalid 'since': ") (parseTime (Get q (B "since"))) (fun since =>
  or_invalid (B "invalid 'until': ") (parseTime (Get q (B "until"))) (fun until =>
  or_invalid (B "invalid 'denied': ") (parseBool (Get q (B "denied"))) (fun denied =>
  or_invalid [] (parseLimit (Get q (B "limit"))) (fun limit =>
  inr (ef_Normalize
    {| efSessionID := Get q (B "session_id"); efKinds := kinds;
       efPrincipal := Get q (B "principal"); efConnection := Get q (B "connection");
       efProtocol := Get q (B "protocol"); efDeniedOnly := denied; efSince := since;
       efUntil := until; efSearch := Get q (B "q"); efLimit := limit;
       efCursor := Get q (B "cursor") |}))))).

(** [f.SessionID = id] *)
Definition with_session (f : EventFilter) (id : bytes) : EventFilter :=
  {| efSessionID := id; efKinds := efKinds f; efPrincipal := efPrincipal f;
     efConnection := efConnection f; efProtocol := efProtocol f;
     efDeniedOnly := efDeniedOnly f; efSince := efSince f; efUntil := efUntil f;
     efSearch := efSearch f; efLimit := efLimit f; efCursor := efCursor f |}.

(** ** The interface of a store *)

(** An error a caller can recognise with [errors.Is(err, ErrNotFound)], or
    another one. *)
Inductive StoreError := SENotFound (msg : bytes) | SEOther (msg : bytes).

Definition store_error_text (e : StoreError) : bytes :=
  match e with SENotFound m => m | SEOther m => m end.

Class StoreOps (St : Type) := {
  st_Sessions : St -> option bytes -> SessionFilter -> bytes + SessionPage;
  st_Session : St -> option bytes -> bytes -> StoreError + SessionRecord;
  st_Events : St -> option bytes -> EventFilter -> bytes + EventPage;
  st_Stats : St -> option bytes -> SessionFilter -> bytes + Stats;
}.

(** What a client of a store relies on, in the states [st_valid] allows. *)
Class StoreLaws (St : Type) `{GoUnicode, StoreOps St} := {
  st_valid : St -> Prop;
  st_sessions_match s c f p : st_valid s -> st_Sessions s c f = inr p ->
    Forall (fun r => matchSession r f = true) (spSessions p)
    /\ Z.of_nat (length (spSessions p)) <= clamp_limit (sfLimit f);
  st_events_match s c f p : st_valid s -> st_Events s c f = inr p ->
    Forall (fun e => matchEvent e f = true) (epEvents p)
    /\ Z.of_nat (length (epEvents p)) <= clamp_limit (efLimit f);
  st_session_id s c id r : st_valid s -> st_Session s c id = inr r -> srID r = id;
}.

(** ** The handlers *)

Section API.
Context {St : Type} `{StoreOps St}.
Variable store : St.
(** [r.Context().Err()] *)
Variable ctxErr : option bytes.

Definition listSessions (q : Values) : Response :=
  match parseSessionFilter q with
  | inl err => writeError StatusBadRequest err
  | inr f =>
      match st_Sessions store ctxErr f with
      | inl err => writeError StatusInternalServerError err
      | inr page => writeJSON StatusOK (BSessions page)
      end
  end.

Definition getSession (id : bytes) : Response :=
  match st_Session store ctxErr id with
  | inl (SENotFound err) => writeError StatusNotFound err
  | inl err => writeError StatusInternalServerError (store_error_text err)
  | inr rec => writeJSON StatusOK (BSession rec)
  end.

Definition listSessionEvents (id : bytes) (q : Values) : Response :=
  match parseEventFilter q with
  | inl err => writeError StatusBadRequest err
  | inr f =>
      match st_Events store ctxErr (with_session f id) with
      | inl err => writeError StatusInternalServerError err
      | inr page => writeJSON StatusOK (BEvents page)
      end
  end.

Definition listEvents (q : Values) : Response :=
  match parseEventFilter q with
  | inl err => writeError StatusBadRequest err
  | inr f =>
      match st_Events store ctxErr f with
      | inl err => writeError StatusInternalServerError err
      | inr page => writeJSON StatusOK (BEvents page)
      end
  end.

Definition getStats (q : Values) : Response :=
  match parseSessionFilter q with
  | inl err => writeError StatusBadRequest err
  | inr f =>
      match st_Stats store ctxErr f with
      | inl err => writeError StatusInternalServerError err
      | inr stats => writeJSON StatusOK (BStats stats)
      end
  end.

(** [Routes] *)
Definition Routes (e : Endpoint) (q : Values) : Response :=
  match e with
  | ListSessions => listSessions q
  | GetSession id => getSession id
  | ListSessionEvents id => listSessionEvents id q
  | ListEvents => listEvents q
  | GetStats => getStats q
  end.
End API.

(** ** MemoryStore is a store *)

#[global] Instance MemoryStore_ops `{GoUnicode, GoLib, CursorText} : StoreOps MemoryStore := {|
  st_Sessions := store_Sessions;
  st_Session m _ id :=
    match store_Session m id with
    | inl err => inl (SENotFound err)
    | inr r => inr r
    end;
  st_Events := store_Events;
  st_Stats := store_Stats;
|}.

Section MemoryLaws.
Context `{GoUnicode, GoLib, CursorText}.

Lemma store_Sessions_match m c f p : store_Sessions m c f = inr p ->
  Forall (fun r => matchSession r f = true) (spSessions p)
  /\ Z.of_nat (length (spSessions p)) <= clamp_limit (sfLimit f).
Proof.
  unfold store_Sessions, session_page. intros Hp. destruct c; [done|].
  destruct (if _ =s _ then _ else _) as [?|start]; [done|].
  injection Hp as <-. cbn [spSessions sf_Normalize sfLimit]. split.
  - apply Forall_take, Forall_drop. unfold listing. rewrite sort_Slice_perm.
    apply Forall_forall. intros r [_ Hr]%list_elem_of_In%filter_In. exact Hr.
  - pose proof (clamp_limit_range (sfLimit f)). rewrite length_take, length_drop. lia.
Qed.

Lemma store_Events_match m c f p : store_Events m c f = inr p ->
  Forall (fun e => matchEvent e f = true) (epEvents p)
  /\ Z.of_nat (length (epEvents p)) <= clamp_limit (efLimit f).
Proof.
  unfold store_Events, event_page. intros Hp. destruct c; [done|].
  destruct (if _ =s _ then _ else _) as [?|after]; [done|].
  injection Hp as <-. cbn [epEvents ef_Normalize efLimit]. split.
  - apply Forall_take, Forall_filter, Forall_forall.
    intros e [_ He]%list_elem_of_In%filter_In. exact He.
  - pose proof (clamp_limit_range (efLimit f)). rewrite length_take. lia.
Qed.

Lemma store_Session_id max m h id r :
  store_rel max m h -> store_Session m id = inr r -> srID r = id.
Proof.
  intros R. unfold store_Session. destruct (ms_sessions m !! id) as [rec|] eqn:E; [|done].
  intros [= <-]. rewrite (sr_sessions _ _ _ R) in E.
  destruct (shown_from (h_window h) id) as [first|] eqn:Ef; [|done].
  injection E as <-. destruct (sr_first _ _ _ R id first Ef) as (ev & Hev & Hid).
  unfold row, summary. rewrite summary_id. cbn [fst snd].
  destruct (span_head _ _ _ _ Hev Hid) as [rest ->]. exact Hid.
Qed.

(** A memory store is valid in the states its refinement relates to a
    history: the ones a run reaches. *)
#[export] Instance MemoryStore_laws : StoreLaws MemoryStore.
Proof.
  refine {| st_valid := fun m => exists max h, store_rel max m h |}.
  - intros m c f p _. apply store_Sessions_match.
  - intros m c f p _. apply store_Events_match.
  - intros m c id r (max & h & R). cbn [st_Session MemoryStore_ops].
    destruct (store_Session m id) eqn:E; [done|]. intros [= <-]. by eapply store_Session_id.
Defined.
End MemoryLaws.

(** ** What a query asks for *)

Section Asked.
Variable q : Values.

(** The values of [q] an endpoint reads strictly. *)
Definition reads (e : Endpoint) : list bytes :=
  match e with
  | ListSessions | GetStats => [B "since"; B "until"; B "denied"; B "open"; B "limit"]
  | ListSessionEvents _ | ListEvents => [B "since"; B "until"; B "denied"; B "limit"]
  | GetSession _ => []
  end.

Inductive unreadable : bytes -> Prop :=
  | bad_time k : k ∈ [B "since"; B "until"] -> Get q k <> [] ->
      time_Parse_RFC3339 (Get q k) = None -> time_Parse_date (Get q k) = None -> unreadable k
  | bad_bool k : k ∈ [B "denied"; B "open"] -> Get q k <> [] ->
      ParseBool (Get q k) = None -> unreadable k
  | bad_limit : Get q (B "limit") <> [] ->
      (forall n, Atoi (Get q (B "limit")) = Some n -> n < 0) -> unreadable (B "limit").

Definition wanted (key have : bytes) : Prop := Get q key = [] \/ have = Get q key.

(** [t] is in [since <= t < until], a bound left out being no bound. *)
Definition in_window (t : Z) : Prop :=
  (forall b, parseTime (Get q (B "since")) = inr b -> b <> zeroTime -> b <= t)
  /\ (forall b, parseTime (Get q (B "until")) = inr b -> b <> zeroTime -> t < b).

Definition session_asked (r : SessionRecord) : Prop :=
  wanted (B "principal") (srPrincipal r) /\ wanted (B "connection") (srConnection r)
  /\ wanted (B "protocol") (srProtocol r) /\ in_window (srStartedAt r)
  /\ (parseBool (Get q (B "denied")) = inr true -> srDeniedCount r <> 0)
  /\ (parseBool (Get q (B "open")) = inr true -> srEndedAt r = zeroTime).

Definition event_asked (e : EventRecord) : Prop :=
  let ev := erEvent e in
  wanted (B "principal") (evPrincipal ev) /\ wanted (B "connection") (evConnection ev)
  /\ wanted (B "protocol") (evProtocol ev) /\ in_window (evTimestamp ev)
  /\ (parseBool (Get q (B "denied")) = inr true -> evKind ev = KindViolation)
  /\ (forall k ks, List.filter (fun k => negb (k =s [])) (default [] (q !! B "kind")) = k :: ks ->
        kind_text (evKind ev) ∈ k :: ks).

Lemma parseTime_bad k e : k ∈ [B "since"; B "until"] ->
  parseTime (Get q k) = inl e -> unreadable k.
Proof.
  unfold parseTime. intros Hk. destruct (Get q k =s []) eqn:E0; [done|].
  destruct (time_Parse_RFC3339 _) eqn:E1; [done|]. destruct (time_Parse_date _) eqn:E2; [done|].
  intros _. apply bool_decide_eq_false in E0. by apply bad_time.
Qed.

Lemma parseBool_bad k e : k ∈ [B "denied"; B "open"] ->
  parseBool (Get q k) = inl e -> unreadable k.
Proof.
  unfold parseBool. intros Hk. destruct (Get q k =s []) eqn:E0; [done|].
  destruct (ParseBool _) eqn:E1; [done|]. intros _. apply bool_decide_eq_false in E0.
  by apply bad_bool.
Qed.

Lemma parseLimit_bad e : parseLimit (Get q (B "limit")) = inl e -> unreadable (B "limit").
Proof.
  unfold parseLimit. destruct (Get q (B "limit") =s []) eqn:E0; [done|].
  apply bool_decide_eq_false in E0. intros Hl. apply bad_limit; [done|].
  intros n Hn. rewrite Hn in Hl. by destruct (Z.ltb_spec n 0).
Qed.

(** A value that reads well is not unreadable. *)
Lemma readable_ok k : unreadable k ->
  (k ∈ [B "since"; B "until"] /\ exists e, parseTime (Get q k) = inl e)
  \/ (k ∈ [B "denied"; B "open"] /\ exists e, parseBool (Get q k) = inl e)
  \/ (k = B "limit" /\ exists e, parseLimit (Get q k) = inl e).
Proof.
  intros [k' Hk Hne H1 H2|k' Hk Hne H1|Hne Hl]; [left|right; left|right; right]; split; try done.
  - unfold parseTime. rewrite H1, H2. unfold seqb. rewrite bool_decide_false by done. eauto.
  - unfold parseBool. rewrite H1. unfold seqb. rewrite bool_decide_false by done. eauto.
  - unfold parseLimit, seqb. rewrite bool_decide_false by done.
    destruct (Atoi _) as [n|]; [|eauto]. specialize (Hl n eq_refl).
    destruct (Z.ltb_spec n 0); [eauto|lia].
Qed.
End Asked.

(** A match step that let a row through says what the filter wanted of it. *)
Lemma misses_wanted q key have rest :
  (if misses (Get q key) have then false else rest) = true -> wanted q key have /\ rest = true.
Proof.
  unfold misses, wanted. destruct (Get q key =s []) eqn:E1; cbn; [bool_hyps; auto|].
  destruct (have =s Get q key) eqn:E2; cbn; [bool_hyps; auto|done].
Qed.

Lemma outside_window since until at_ rest :
  (if outside since until at_ then false else rest) = true ->
  (since <> zeroTime -> since <= at_) /\ (until <> zeroTime -> at_ < until) /\ rest = true.
Proof.
  unfold outside, Before, time_IsZero.
  destruct (Z.eqb_spec since zeroTime), (Z.eqb_spec until zeroTime),
    (Z.ltb_spec at_ since), (Z.ltb_spec at_ until); cbn; intros; try done; repeat split; try done; lia.
Qed.

Lemma guard_false (b rest : bool) : (if b then false else rest) = true -> b = false /\ rest = true.
Proof. by destruct b. Qed.

Lemma elem_of_two {A} (x a b : A) : x ∈ [a; b] -> x = a \/ x = b.
Proof. set_solver. Qed.

Section Answers.
Context `{GoUnicode}.

Lemma parseSessionFilter_ok q f : parseSessionFilter q = inr f ->
  (forall k, k ∈ reads ListSessions -> ~ unreadable q k)
  /\ (forall r, matchSession r f = true -> session_asked q r).
Proof.
  unfold parseSessionFilter, or_invalid. intros Hf.
  destruct (parseTime (Get q (B "since"))) as [?|since] eqn:E1; [done|].
  destruct (parseTime (Get q (B "until"))) as [?|until] eqn:E2; [done|].
  destruct (parseBool (Get q (B "denied"))) as [?|denied] eqn:E3; [done|].
  destruct (parseBool (Get q (B "open"))) as [?|open_] eqn:E4; [done|].
  destruct (parseLimit _) as [?|limit] eqn:E5; [done|]. injection Hf as <-. split.
  - intros k _ Hk. destruct (readable_ok q k Hk) as [[Hin [e He]]|[[Hin [e He]]|[-> [e He]]]];
      [..|congruence]; apply elem_of_two in Hin as [->| ->]; congruence.
  - intros r Hr. unfold matchSession in Hr.
    cbn [sf_Normalize sfPrincipal sfConnection sfProtocol sfDeniedOnly sfOpenOnly sfSince
         sfUntil] in Hr.
    apply misses_wanted in Hr as [? Hr]. apply misses_wanted in Hr as [? Hr].
    apply misses_wanted in Hr as [? Hr]. apply guard_false in Hr as [Hd Hr].
    apply guard_false in Hr as [Ho Hr]. apply outside_window in Hr as (Hs & Hu & _).
    unfold session_asked, in_window. rewrite E1, E2, E3, E4. repeat split; try done.
    + intros b [= ->]. exact Hs.
    + intros b [= ->]. exact Hu.
    + intros [= ->]. by apply Z.eqb_neq.
    + intros [= ->]. apply Z.eqb_eq. unfold sr_IsOpen, time_IsZero in Ho.
      by destruct (srEndedAt r =? zeroTime).
Qed.

Lemma parseSessionFilter_bad q err : parseSessionFilter q = inl err ->
  exists k, k ∈ reads ListSessions /\ unreadable q k.
Proof.
  unfold parseSessionFilter, or_invalid. intros Hf.
  destruct (parseTime (Get q (B "since"))) eqn:E1;
    [exists (B "since"); split; [set_solver|by eapply parseTime_bad; [set_solver|]]|].
  destruct (parseTime (Get q (B "until"))) eqn:E2;
    [exists (B "until"); split; [set_solver|by eapply parseTime_bad; [set_solver|]]|].
  destruct (parseBool (Get q (B "denied"))) eqn:E3;
    [exists (B "denied"); split; [set_solver|by eapply parseBool_bad; [set_solver|]]|].
  destruct (parseBool (Get q (B "open"))) eqn:E4;
    [exists (B "open"); split; [set_solver|by eapply parseBool_bad; [set_solver|]]|].
  destruct (parseLimit _) eqn:E5;
    [exists (B "limit"); split; [set_solver|by eapply parseLimit_bad]|done].
Qed.

(** What the kinds guard lets through. *)
Lemma kinds_kept k ks rest : (if match ks with
                                 | [] => false
                                 | k1 :: ks1 => negb (existsb (fun k' => k =s k') (k1 :: ks1))
                                 end then false else rest) = true ->
  (forall k0 ks0, ks = k0 :: ks0 -> k ∈ k0 :: ks0) /\ rest = true.
Proof.
  destruct ks as [|k0 ks0]; [by split|].
  destruct (existsb _ _) eqn:E; cbn [negb]; [|done]. intros ->. split; [|done].
  intros ? ? [= <- <-]. apply existsb_exists in E as (k' & Hin & Hk).
  apply seqb_eq in Hk as ->. by apply list_elem_of_In.
Qed.

Lemma parseEventFilter_ok q f : parseEventFilter q = inr f ->
  (forall k, k ∈ reads ListEvents -> ~ unreadable q k)
  /\ efSessionID f = Get q (B "session_id")
  /\ (forall e id, matchEvent e (with_session f id) = true ->
        event_asked q e /\ (id = [] \/ evSessionID (erEvent e) = id)).
Proof.
  unfold parseEventFilter, or_invalid. intros Hf.
  destruct (parseTime (Get q (B "since"))) as [?|since] eqn:E1; [done|].
  destruct (parseTime (Get q (B "until"))) as [?|until] eqn:E2; [done|].
  destruct (parseBool (Get q (B "denied"))) as [?|denied] eqn:E3; [done|].
  destruct (parseLimit _) as [?|limit] eqn:E5; [done|]. injection Hf as <-.
  split; [|split; [done|]].
  - intros k Hr Hk. destruct (readable_ok q k Hk) as [[Hin [e He]]|[[Hin [e He]]|[-> [e He]]]];
      [..|congruence]; apply elem_of_two in Hin as [->| ->]; try congruence.
    by apply (bool_decide_eq_true_2 _) in Hr.
  - intros e id Hm. unfold matchEvent in Hm.
    cbn [with_session ef_Normalize efSessionID efKinds efPrincipal efConnection efProtocol
         efDeniedOnly efSince efUntil] in Hm.
    assert (misses id (evSessionID (erEvent e)) = false) as Hid by (by destruct (misses _ _)).
    rewrite Hid in Hm. apply misses_wanted in Hm as [? Hm]. apply misses_wanted in Hm as [? Hm].
    apply misses_wanted in Hm as [? Hm]. apply guard_false in Hm as [Hd Hm].
    apply kinds_kept in Hm as [Hk Hm]. apply outside_window in Hm as (Hs & Hu & _).
    unfold event_asked, in_window. rewrite E1, E2, E3. repeat split; try done.
    + intros b [= ->]. exact Hs.
    + intros b [= ->]. exact Hu.
    + intros [= ->]. by case_bool_decide.
    + unfold misses in Hid. destruct (id =s []) eqn:Ei; [bool_hyps; auto|].
      destruct (evSessionID (erEvent e) =s id) eqn:Ee; [bool_hyps; auto|done].
Qed.

Lemma parseEventFilter_bad q err : parseEventFilter q = inl err ->
  exists k, k ∈ reads ListEvents /\ unreadable q k.
Proof.
  unfold parseEventFilter, or_invalid. intros Hf.
  destruct (parseTime (Get q (B "since"))) eqn:E1;
    [exists (B "since"); split; [set_solver|by eapply parseTime_bad; [set_solver|]]|].
  destruct (parseTime (Get q (B "until"))) eqn:E2;
    [exists (B "until"); split; [set_solver|by eapply parseTime_bad; [set_solver|]]|].
  destruct (parseBool (Get q (B "denied"))) eqn:E3;
    [exists (B "denied"); split; [set_solver|by eapply parseBool_bad; [set_solver|]]|].
  destruct (parseLimit _) eqn:E5;
    [exists (B "limit"); split; [set_solver|by eapply parseLimit_bad]|done].
Qed.
End Answers.

Section Routed.
Context {St : Type} `{StoreLaws St}.

(** What a handler that reads a filter answers, by how the reading went. *)
Lemma refused_iff (bad : Prop) code body :
  code <> StatusBadRequest -> ~ bad ->
  rpStatus (writeJSON code body) = StatusBadRequest <-> bad.
Proof. intros Hc Hb. cbn. tauto. Qed.

Lemma sessions_answered s ctx q :
  st_valid s ->
  (rpStatus (listSessions s ctx q) = StatusBadRequest
   <-> exists k, k ∈ reads ListSessions /\ unreadable q k)
  /\ forall p, rpBody (listSessions s ctx q) = BSessions p ->
     Forall (session_asked q) (spSessions p) /\ Z.of_nat (length (spSessions p)) <= MaxLimit.
Proof.
  intros Hv. unfold listSessions. destruct (parseSessionFilter q) as [err|f] eqn:E.
  { split; [|done]. split; [by eauto using parseSessionFilter_bad|done]. }
  destruct (parseSessionFilter_ok q f E) as [Hk Hm].
  destruct (st_Sessions s ctx f) as [err|p] eqn:Es; (split; [apply refused_iff; [done|by intros (k & ? & ?); eapply Hk]|]);
    [done|]. intros ? [= <-]. destruct (st_sessions_match s ctx f p Hv Es) as [Hall Hlen].
  split; [by eapply Forall_impl|]. pose proof (clamp_limit_range (sfLimit f)). lia.
Qed.

Lemma stats_answered s ctx q :
  rpStatus (getStats s ctx q) = StatusBadRequest
  <-> exists k, k ∈ reads ListSessions /\ unreadable q k.
Proof.
  unfold getStats. destruct (parseSessionFilter q) as [err|f] eqn:E.
  { split; [by eauto using parseSessionFilter_bad|done]. }
  destruct (parseSessionFilter_ok q f E) as [Hk _].
  destruct (st_Stats s ctx f); (apply refused_iff; [done|by intros (k & ? & ?); eapply Hk]).
Qed.

(** Both event listings: the filter's session is [id]. *)
Lemma events_answered s ctx q (sid : EventFilter -> bytes) r :
  st_valid s ->
  r = match parseEventFilter q with
      | inl err => writeError StatusBadRequest err
      | inr f =>
          match st_Events s ctx (with_session f (sid f)) with
          | inl err => writeError StatusInternalServerError err
          | inr page => writeJSON StatusOK (BEvents page)
          end
      end ->
  (rpStatus r = StatusBadRequest <-> exists k, k ∈ reads ListEvents /\ unreadable q k)
  /\ forall p, rpBody r = BEvents p ->
     Forall (event_asked q) (epEvents p) /\ Z.of_nat (length (epEvents p)) <= MaxLimit
     /\ exists f, parseEventFilter q = inr f
        /\ Forall (fun e => sid f = [] \/ evSessionID (erEvent e) = sid f) (epEvents p).
Proof.
  intros Hv ->. destruct (parseEventFilter q) as [err|f] eqn:E.
  { split; [|done]. split; [by eauto using parseEventFilter_bad|done]. }
  destruct (parseEventFilter_ok q f E) as (Hk & _ & Hm).
  destruct (st_Events s ctx _) as [err|p] eqn:Es; (split; [apply refused_iff; [done|by intros (k & ? & ?); eapply Hk]|]);
    [done|]. intros ? [= <-]. destruct (st_events_match s ctx _ p Hv Es) as [Hall Hlen].
  split; [eapply Forall_impl; [exact Hall|intros e He; apply (Hm e _ He)]|]. split.
  - pose proof (clamp_limit_range (efLimit f)). cbn [with_session efLimit] in Hlen. lia.
  - exists f. split; [done|]. eapply Forall_impl; [exact Hall|intros e He; apply (Hm e _ He)].
Qed.

Lemma with_own_session f : with_session f (efSessionID f) = f.
Proof. by destruct f. Qed.

(** The query API answers what was asked or refuses, over any store that keeps
    its laws: a response is 400 exactly when a value the endpoint reads is
    given and cannot be read, never a silent default; every row of a page
    satisfies what the query names and a page holds at most [MaxLimit] rows; a
    session's timeline holds that session's events alone, whatever
    [session_id] the query carries; a session is the one the path names. *)
Theorem api_answers_query s ctx e q :
  st_valid s ->
  (rpStatus (Routes s ctx e q) = StatusBadRequest
   <-> exists k, k ∈ reads e /\ unreadable q k)
  /\ match rpBody (Routes s ctx e q) with
     | BSessions p =>
         Forall (session_asked q) (spSessions p)
         /\ Z.of_nat (length (spSessions p)) <= MaxLimit
     | BEvents p =>
         Forall (event_asked q) (epEvents p)
         /\ Z.of_nat (length (epEvents p)) <= MaxLimit
         /\ (forall id, e = ListSessionEvents id -> id <> [] ->
               Forall (fun r => evSessionID (erEvent r) = id) (epEvents p))
         /\ (e = ListEvents ->
               Forall (fun r => wanted q (B "session_id") (evSessionID (erEvent r))) (epEvents p))
     | BSession r => e = GetSession (srID r)
     | BStats _ | BError _ => True
     end.
Proof.
  intros Hv. destruct e as [|id|id| |]; cbn [Routes].
  - destruct (sessions_answered s ctx q Hv) as [Hs Hb]. split; [exact Hs|].
    destruct (rpBody _) eqn:Eb; try done; [by apply Hb|..];
      unfold listSessions in Eb; repeat case_match; discriminate.
  - unfold getSession. destruct (st_Session s ctx id) as [[err|err]|r] eqn:E;
      (split; [apply refused_iff; [done|set_solver]|]); try done.
    cbn. by rewrite (st_session_id s ctx id r Hv E).
  - destruct (events_answered s ctx q (fun _ => id) (listSessionEvents s ctx id q) Hv eq_refl)
      as [Hs Hb].
    split; [exact Hs|]. destruct (rpBody _) eqn:Eb; try done;
      try (unfold listSessionEvents in Eb; repeat case_match; discriminate).
    destruct (Hb _ eq_refl) as (Ha & Hl & f & _ & Hi). split_and!; [done..| |done].
    intros ? [= <-] Hne. eapply Forall_impl; [exact Hi|]. by intros e [?|?].
  - destruct (events_answered s ctx q efSessionID (listEvents s ctx q) Hv) as [Hs Hb].
    { unfold listEvents. destruct (parseEventFilter q); [done|]. by rewrite with_own_session. }
    split; [exact Hs|]. destruct (rpBody _) eqn:Eb; try done;
      try (unfold listEvents in Eb; repeat case_match; discriminate).
    destruct (Hb _ eq_refl) as (Ha & Hl & f & Hf & Hi). split_and!; [done..|].
    intros _. destruct (parseEventFilter_ok q f Hf) as (_ & Hid & _).
    eapply Forall_impl; [exact Hi|]. rewrite Hid. by intros e [?|?]; [left|right].
  - split; [apply stats_answered|]. unfold getStats. repeat case_match; done.
Qed.
End Routed.

(** ** Evaluation *)

Definition query (l : list (bytes * list bytes)) : Values := list_to_map l.

#[local] Existing Instances ascii_only plain_lib plain_cursor.

Definition demo_store : MemoryStore :=
  mrun (store_machine 8) (NewMemoryStore 8) demo_ops.

Lemma demo_store_valid : st_valid demo_store.
Proof. eexists _, _. exact (store_rel_run 8 demo_ops). Qed.

(** The timeline of [a], asked with the id of another session in the query:
    two events, both of [a]. *)
Lemma api_answers_query_witness :
  match rpBody (Routes demo_store None (ListSessionEvents (B "a"))
                  (query [(B "session_id", [B "b"]); (B "since", [B "1970-01-01"])])) with
  | BEvents p => map erSeq (epEvents p) = [1; 3]
                 /\ Forall (fun r => evSessionID (erEvent r) = B "a") (epEvents p)
  | _ => False
  end.
Proof.
  pose proof (api_answers_query demo_store None (ListSessionEvents (B "a"))
    (query [(B "session_id", [B "b"]); (B "since", [B "1970-01-01"])]) demo_store_valid) as [_ HA].
  assert (match rpBody (Routes demo_store None (ListSessionEvents (B "a"))
            (query [(B "session_id", [B "b"]); (B "since", [B "1970-01-01"])])) with
          | BEvents p => map erSeq (epEvents p) = [1; 3] | _ => False end) as HE by (by vm_compute).
  destruct (rpBody _) as [| |p| |]; try done. split; [exact HE|].
  destruct HA as (_ & _ & HA & _). by apply HA.
Defined.

(** ** Where the API departs from its comments *)

(** A mistyped kind is no error: the answer is an empty page. *)
Lemma mistyped_kind_answers_nothing :
  let r := Routes demo_store None ListEvents (query [(B "kind", [B "violations"])]) in
  rpStatus r = StatusOK
  /\ match rpBody r with BEvents p => epTotal p = 0 | _ => False end.
Proof. by vm_compute. Qed.

(** A mistyped cursor is answered as a failure of the server. *)
Lemma mistyped_cursor_is_server_error :
  let r := Routes demo_store None ListSessions (query [(B "cursor", [B "page2"])]) in
  rpStatus r = StatusInternalServerError /\ rpBody r = BError ErrMalformedCursor.
Proof. by vm_compute. Qed.

(** The first day of year 1 is read and then taken as no bound. *)
Lemma year_one_is_no_bound :
  let r := Routes demo_store None ListSessions (query [(B "until", [B "0001-01-01"])]) in
  match rpBody r with BSessions p => spTotal p = 3 | _ => False end.
Proof. by vm_compute. Qed.
