(* ===== verification/ContentLength.v ===== *)
(** * Correcting Content-Length after masking:
      src/hoopinspect/gate/contentlength.go *)

From S2P Require Import Prelude GoStrings GoText.

Definition crlf : bytes := [x0d; x0a].
Definition crlfcrlf : bytes := [x0d; x0a; x0d; x0a].

(** ASCII case-insensitive comparison with a lowercase literal. *)
Fixpoint equalFold (got want : bytes) : bool :=
  match got, want with
  | [], [] => true
  | c :: got', w :: want' =>
      ((if byte_in "A" "Z" c then to_byte (bval c + 32) else c) =b w) && equalFold got' want'
  | _, _ => false
  end.

(** The last value found and how many there were, from offset [off] on;
    [rest] is [head[off:]]. *)
Fixpoint findContentLength_loop (fuel : nat) (off : nat) (rest : bytes) (acc : nat * nat * nat)
    : nat * nat * nat :=
  match fuel, rest with
  | O, _ | _, [] => acc
  | S fuel', _ :: _ =>
      let lineEnd := match Index rest crlf with Some i => i | None => length rest end in
      let line := take lineEnd rest in
      let acc :=
        match IndexByte line ":" with
        | Some (S c) =>
            let colon := S c in
            if equalFold (TrimSpace (take colon line)) (B "content-length")
            then let '(_, _, count) := acc in (off + colon + 1, off + lineEnd, S count)
            else acc
        | _ => acc
        end in
      findContentLength_loop fuel' (off + (lineEnd + 2)) (drop (lineEnd + 2) rest) acc
  end.

Definition findContentLength (head : bytes) : nat * nat * nat :=
  findContentLength_loop (length head) 0 head (0, 0, 0).

(** [None] is [(payload, false)]: the caller forwards the original bytes. *)
Definition retagContentLength (payload : bytes) (delta : Z) : option bytes :=
  if (delta =? 0)%Z then Some payload
  else
    match Index payload crlfcrlf with
    | None => None
    | Some headerEnd =>
        let head := take headerEnd payload in
        if negb (HasPrefix head (B "HTTP/")) then None
        else
          let '(valueStart, valueEnd, n) := findContentLength head in
          if negb (n =? 1)%nat then None
          else
            match Atoi (TrimSpace (take (valueEnd - valueStart) (drop valueStart payload))) with
            | None => None
            | Some declared =>
                if (declared <? 0)%Z then None
                else
                  let bodyLen := (Z.of_nat (length payload) - (Z.of_nat headerEnd + 4))%Z in
                  if negb (bodyLen =? declared + delta)%Z then None
                  else
                    let updated := (declared + delta)%Z in
                    if (updated <? 0)%Z then None
                    else Some (take valueStart payload ++ itoa updated ++ drop valueEnd payload)
            end
    end.

(** ** Facts *)

Lemma findContentLength_loop_bound fuel off rest vs ve n vs' ve' n' :
  findContentLength_loop fuel off rest (vs, ve, n) = (vs', ve', n') ->
  vs <= ve -> ve <= off ->
  vs' <= ve' /\ (ve' <= off + length rest) /\ n <= n'.
Proof.
  revert off rest vs ve n. induction fuel as [|fuel IH]; intros off rest vs ve n.
  { simpl. intros [= <- <- <-] H1 H2. lia. }
  destruct rest as [|b rest]; [simpl; intros [= <- <- <-]; lia|].
  cbn [findContentLength_loop]. set (r := b :: rest).
  set (le := match Index r crlf with Some i => i | None => length r end).
  assert (le <= length r) as Hle.
  { unfold le. destruct (Index r crlf) eqn:E; [|lia]. apply Index_bound in E. lia. }
  assert (0 < length r) by (simpl; lia).
  assert (forall acc, findContentLength_loop fuel (off + (le + 2)) (drop (le + 2) r) acc = (vs', ve', n') ->
    acc.1.1 <= acc.1.2 -> acc.1.2 <= off + (le + 2) -> acc.1.2 <= off + length r -> n <= acc.2 ->
    vs' <= ve' /\ ve' <= off + length r /\ n <= n') as Hk.
  { intros [[v1 v2] m] E H1 H2 H3 H4. simpl in *.
    destruct (decide (le + 2 <= length r)).
    - destruct (IH _ _ _ _ _ E) as (A & B' & C); [lia|lia|]. rewrite length_drop in B'. simpl in *. lia.
    - rewrite drop_ge in E by (simpl in *; lia).
      assert ((v1, v2, m) = (vs', ve', n')) as [= <- <- <-] by (by destruct fuel). simpl in *. lia. }
  intros E H1 H2. eapply Hk; [exact E|..]; destruct (IndexByte (take le r) ":") as [[|c]|] eqn:Ei;
    simpl; try lia; destruct (equalFold _ _); simpl; try lia.
  all: assert (S c < length (take le r)) as Hc
    by (clear -Ei; revert Ei; generalize (take le r); generalize (S c); intros k l; revert k;
        induction l as [|d l IHl]; intros k; simpl; [done|];
        destruct (d =b ":"); [intros [= <-]; lia|];
        intros (j & Hj & ->)%fmap_Some; specialize (IHl j Hj); lia).
  all: rewrite length_take in Hc; simpl in *; lia.
Qed.

Lemma findContentLength_bound head vs ve n :
  findContentLength head = (vs, ve, n) -> vs <= ve <= length head.
Proof. intros E. apply findContentLength_loop_bound in E; lia. Qed.

(** ** A corrected Content-Length describes the body

    Replacing the value of the one Content-Length header moves neither the end
    of the header block nor any other line, so a reader of the rebuilt
    response finds one Content-Length and it is the length of the body. *)
(** ** Searching across a replaced segment *)

(** No byte of [D] occurs in [sub]. *)
Definition foreign (D sub : bytes) : Prop := forall b, b ∈ D -> b ∉ sub.

Lemma Index_skip x s sub :
  (forall j, Index (x ++ s) sub = Some j -> length x <= j) ->
  Index (x ++ s) sub = (fun j => length x + j) <$> Index s sub.
Proof.
  induction x as [|b x IH]; intros Hx.
  { cbn [app length]. destruct (Index s sub); done. }
  cbn [app Index] in *. destruct (HasPrefix (b :: x ++ s) sub).
  { specialize (Hx 0 eq_refl). simpl in Hx. lia. }
  rewrite IH; [by destruct (Index s sub)|]. intros j Hj. rewrite Hj in Hx.
  specialize (Hx (S j) eq_refl). simpl in Hx. lia.
Qed.

Lemma Index_foreign D T sub :
  sub <> [] -> foreign D sub -> Index (D ++ T) sub = (fun j => length D + j) <$> Index T sub.
Proof.
  intros Hs. induction D as [|b D IH]; intros Hf; [cbn [app length]; by destruct (Index T sub)|].
  cbn [app Index]. assert (HasPrefix (b :: D ++ T) sub = false) as ->.
  { destruct sub as [|a sub]; [done|]. cbn [HasPrefix]. apply andb_false_iff. left.
    apply byte_eqb_ne. intros ->. apply (Hf a); left. }
  rewrite IH; [by destruct (Index T sub)|]. intros c Hc. apply Hf. by right.
Qed.

(** Where [sub] is first found behind a segment [O], it is first found behind
    what replaces it. *)
Lemma Index_replace P O D T sub :
  sub <> [] -> D <> [] -> foreign D sub ->
  (forall j, Index (P ++ O ++ T) sub = Some j -> length P + length O <= j) ->
  Index (P ++ D ++ T) sub = (fun j => length P + length D + j) <$> Index T sub.
Proof.
  intros Hs HD Hf. induction P as [|b P IH]; intros Hx.
  { cbn [app length]. by rewrite Index_foreign. }
  cbn [app Index] in *. assert (HasPrefix (b :: P ++ D ++ T) sub = false) as ->.
  { destruct (HasPrefix (b :: P ++ D ++ T) sub) eqn:E; [|done]. exfalso.
    destruct (decide (length sub <= length (b :: P))) as [Hl|Hl].
    - change (b :: P ++ D ++ T) with ((b :: P) ++ D ++ T) in E. rewrite HasPrefix_app_l in E by done.
      change (b :: P ++ O ++ T) with ((b :: P) ++ O ++ T) in Hx. rewrite HasPrefix_app_l, E in Hx by done.
      specialize (Hx 0 eq_refl). simpl in Hx. lia.
    - apply HasPrefix_spec in E as [r E]. destruct D as [|x D]; [done|].
      apply (Hf x); [left|].
      assert ((b :: P ++ (x :: D) ++ T) !! length (b :: P) = Some x) as Hi.
      { change (b :: P ++ (x :: D) ++ T) with ((b :: P) ++ x :: D ++ T). by apply list_lookup_middle. }
      rewrite E, lookup_app_l in Hi by lia. by apply list_elem_of_lookup_2 in Hi. }
  destruct (HasPrefix (b :: P ++ O ++ T) sub); [specialize (Hx 0 eq_refl); simpl in Hx; lia|].
  rewrite IH; [by destruct (Index T sub)|]. intros j Hj. rewrite Hj in Hx.
  specialize (Hx (S j) eq_refl). simpl in Hx. lia.
Qed.

(** ** Lines *)

Definition line_end (rest : bytes) : nat :=
  match Index rest crlf with Some i => i | None => length rest end.

(** The colon of a Content-Length line. *)
Definition line_hit (line : bytes) : option nat :=
  match IndexByte line ":" with
  | Some (S c) =>
      if equalFold (TrimSpace (take (S c) line)) (B "content-length") then Some (S c) else None
  | _ => None
  end.

Lemma loop_line fuel off rest a b n :
  rest <> [] ->
  findContentLength_loop (S fuel) off rest (a, b, n) =
  findContentLength_loop fuel (off + (line_end rest + 2)) (drop (line_end rest + 2) rest)
    (match line_hit (take (line_end rest) rest) with
     | Some colon => (off + colon + 1, off + line_end rest, S n)
     | None => (a, b, n)
     end).
Proof.
  intros Hr. destruct rest as [|x rest]; [done|]. cbn [findContentLength_loop].
  fold (line_end (x :: rest)). unfold line_hit.
  destruct (IndexByte (take (line_end (x :: rest)) (x :: rest)) ":") as [[|c]|]; [done| |done].
  by destruct (equalFold _ _).
Qed.

Lemma loop_nil fuel off acc : findContentLength_loop fuel off [] acc = acc.
Proof. by destruct fuel. Qed.

Lemma line_end_le rest : line_end rest <= length rest.
Proof. unfold line_end. destruct (Index rest crlf) eqn:E; [|lia]. apply Index_bound in E. lia. Qed.

Lemma loop_count fuel off rest a b n vs ve m :
  findContentLength_loop fuel off rest (a, b, n) = (vs, ve, m) -> n <= m.
Proof.
  revert off rest a b n. induction fuel as [|fuel IH]; intros off rest a b n; [intros [= <- <- <-]; lia|].
  destruct rest as [|x rest]; [intros [= <- <- <-]; lia|]. rewrite loop_line by done.
  destruct (line_hit _); intros E%IH; lia.
Qed.

(** Lines that hold no Content-Length change nothing, wherever they stand. *)
Lemma loop_no_hit fuel off rest a b n vs ve :
  length rest <= fuel -> findContentLength_loop fuel off rest (a, b, n) = (vs, ve, n) ->
  forall fuel' off' acc, length rest <= fuel' -> findContentLength_loop fuel' off' rest acc = acc.
Proof.
  revert off rest a b n. induction fuel as [|fuel IH]; intros off rest a b n Hl E fuel' off' [[a' b'] n'] Hl'.
  { destruct rest; [by rewrite loop_nil|simpl in Hl; lia]. }
  destruct rest as [|x rest]; [by rewrite loop_nil|]. destruct fuel' as [|fuel']; [simpl in Hl'; lia|].
  rewrite loop_line in * by done. destruct (line_hit _); [apply loop_count in E; lia|].
  pose proof (line_end_le (x :: rest)). eapply IH; [|exact E|]; rewrite length_drop; simpl in *; lia.
Qed.

Lemma IndexByte_take l c i X :
  IndexByte l c = Some i -> i < length l /\ IndexByte (take (i + 1) l ++ X) c = Some i.
Proof.
  revert i. induction l as [|d l IH]; intros i; [done|]. cbn [IndexByte]. destruct (d =b c) eqn:E.
  - intros [= <-]. simpl. rewrite E. split; [lia|done].
  - intros (j & Hj & ->)%fmap_Some. destruct (IH j Hj) as [H1 H2]. cbn. rewrite E, H2.
    split; [lia|done].
Qed.

(** Whether a line is a Content-Length line is settled before its value. *)
Lemma line_hit_value line colon X :
  line_hit line = Some colon ->
  0 < colon < length line /\ line_hit (take (colon + 1) line ++ X) = Some colon.
Proof.
  unfold line_hit. destruct (IndexByte line ":") as [[|c]|] eqn:E; [done| |done].
  destruct (equalFold _ _) eqn:Ef; [|done]. intros [= <-].
  destruct (IndexByte_take _ _ _ X E) as [Hl ->]. split; [lia|].
  rewrite take_app_le by (rewrite length_take; lia). rewrite take_take, Nat.min_l by lia. by rewrite Ef.
Qed.

Lemma Index_app_r s k sub i : Index s sub = Some i -> Index (s ++ k) sub = Some i.
Proof.
  revert i. induction s as [|c s IH]; intros i Hi.
  - cbn [Index] in Hi. destruct sub; [|done]. injection Hi as <-. by destruct k.
  - cbn [app Index] in *. destruct (HasPrefix (c :: s) sub) eqn:E.
    + injection Hi as <-. apply HasPrefix_spec in E as [r Hr].
      change (c :: s ++ k) with ((c :: s) ++ k). by rewrite Hr, <- app_assoc, HasPrefix_app.
    + apply fmap_Some in Hi as (j & Hj & ->). destruct (HasPrefix (c :: s ++ k) sub) eqn:E'.
      * pose proof (Index_bound _ _ _ Hj). change (c :: s ++ k) with ((c :: s) ++ k) in E'.
        rewrite HasPrefix_app_l in E' by (simpl; lia). congruence.
      * by rewrite (IH j Hj).
Qed.

(** A line ends where it ended once its value is replaced. *)
Lemma line_end_replace rest p D :
  p <= line_end rest -> D <> [] -> foreign D crlf ->
  line_end (take p rest ++ D ++ drop (line_end rest) rest) = p + length D.
Proof.
  intros Hp HD Hf. pose proof (line_end_le rest) as Hle.
  assert (rest = take p rest ++ take (line_end rest - p) (drop p rest) ++ drop (line_end rest) rest) as Hr.
  { rewrite <- (take_drop p rest) at 1. f_equal.
    rewrite <- (take_drop (line_end rest - p) (drop p rest)) at 1. f_equal.
    rewrite drop_drop. f_equal. lia. }
  unfold line_end at 1. rewrite (Index_replace _ (take (line_end rest - p) (drop p rest))); [|done|done|done|].
  - unfold line_end in *. destruct (Index rest crlf) as [i|] eqn:E.
    + destruct (Index_Some _ _ _ E) as (pre & post & -> & <-). rewrite drop_app_length.
      rewrite Index_here. cbn. rewrite length_take, length_app. lia.
    + rewrite drop_all. cbn. rewrite !length_app, length_take. cbn. lia.
  - rewrite <- Hr. intros j Hj. rewrite length_take, length_take, length_drop.
    unfold line_end in *. rewrite Hj in *. lia.
Qed.

(** A line before the replaced value ends where it ended. *)
Lemma line_end_before rest X :
  line_end rest + 2 < length rest -> line_end (take (line_end rest + 2) rest ++ X) = line_end rest.
Proof.
  intros Hl. unfold line_end in *. destruct (Index rest crlf) as [i|] eqn:E; [|lia].
  rewrite (Index_app_r _ _ _ i); [done|].
  apply (Index_app_l _ (drop (i + 2) rest)); [by rewrite take_drop|].
  rewrite length_take. simpl. lia.
Qed.

(** The loop at the replaced line. *)
Lemma loop_here off rest a b n colon D fuel :
  let le := line_end rest in
  let rest' := take (colon + 1) rest ++ D ++ drop le rest in
  D <> [] -> foreign D crlf -> line_hit (take le rest) = Some colon ->
  (forall f o acc, length (drop (le + 2) rest) <= f ->
     findContentLength_loop f o (drop (le + 2) rest) acc = acc) ->
  length rest' <= fuel ->
  findContentLength_loop fuel off rest' (a, b, n) = (off + colon + 1, off + colon + 1 + length D, S n).
Proof.
  intros le rest' HD Hf Eh Hno Hfu. destruct (line_hit_value _ _ D Eh) as [Hc Hh].
  rewrite length_take in Hc. rewrite take_take, Nat.min_l in Hh by lia.
  assert (line_end rest' = colon + 1 + length D) as Hle' by (apply line_end_replace; fold le; [lia|done|done]).
  assert (length rest' = colon + 1 + length D + length (drop le rest)) as Hlen.
  { unfold rest'. rewrite !length_app, length_take. lia. }
  assert (0 < length D) by (by destruct D; [|simpl; lia]).
  destruct fuel as [|fuel]; [lia|].
  rewrite loop_line, Hle' by (intros E; rewrite E in Hlen; simpl in Hlen; lia).
  assert (take (colon + 1 + length D) rest' = take (colon + 1) rest ++ D) as ->.
  { unfold rest'. rewrite app_assoc. apply take_app_length'. rewrite length_app, length_take. lia. }
  assert (drop (colon + 1 + length D + 2) rest' = drop (le + 2) rest) as ->.
  { unfold rest'. rewrite app_assoc, <- drop_drop, drop_app_length', drop_drop; [done|].
    rewrite length_app, length_take. lia. }
  rewrite Hh, Hno; [f_equal; f_equal; lia|]. rewrite length_drop in *. lia.
Qed.

(** The loop at a line before it. *)
Lemma loop_before off rest rest2 acc fuel :
  let le := line_end rest in
  le + 2 < length rest -> line_hit (take le rest) = None ->
  findContentLength_loop (S fuel) off (take (le + 2) rest ++ rest2) acc =
  findContentLength_loop fuel (off + (le + 2)) rest2 acc.
Proof.
  intros le Hlt Eh. destruct acc as [[a b] n].
  rewrite loop_line by (intros E; apply (f_equal length) in E;
    rewrite length_app, length_take in E; simpl in E; lia).
  unfold le in *. rewrite line_end_before by done.
  rewrite take_app_le, take_take, Nat.min_l, Eh by (rewrite ?length_take; lia).
  by rewrite drop_app_length' by (rewrite length_take; lia).
Qed.

(** A segment behind the first [k] bytes is replaced behind them. *)
Lemma splice_shift (rest D : bytes) k p q :
  k <= p -> k <= q -> k <= length rest ->
  take p rest ++ D ++ drop q rest =
  take k rest ++ take (p - k) (drop k rest) ++ D ++ drop (q - k) (drop k rest).
Proof.
  intros Hp Hq Hk. rewrite drop_drop. replace (k + (q - k)) with q by lia.
  assert (take p rest = take k rest ++ take (p - k) (drop k rest)) as ->; [|by rewrite <- app_assoc].
  rewrite <- (take_drop k rest) at 1. rewrite take_app_ge by (rewrite length_take; lia).
  by rewrite length_take, Nat.min_l by lia.
Qed.

(** Replacing the value of the only Content-Length line. *)
Lemma loop_replace fuel off rest a b n vs ve D :
  length rest <= fuel -> D <> [] -> foreign D crlf ->
  findContentLength_loop fuel off rest (a, b, n) = (vs, ve, S n) ->
  off < vs <= ve /\ ve <= off + length rest /\
  let rest' := take (vs - off) rest ++ D ++ drop (ve - off) rest in
  forall fuel', length rest' <= fuel' ->
    findContentLength_loop fuel' off rest' (a, b, n) = (vs, vs + length D, S n).
Proof.
  intros Hl HD Hf. revert off rest a b Hl. induction fuel as [|fuel IH]; intros off rest a b Hl.
  { simpl. intros [= _ _ ?]. lia. }
  destruct (decide (rest = [])) as [->|Hne]; [rewrite loop_nil; intros [= _ _ ?]; lia|].
  assert (0 < length rest) by (by destruct rest; [|simpl; lia]).
  rewrite loop_line by done. pose proof (line_end_le rest) as Hle. set (le := line_end rest) in *.
  assert (length (drop (le + 2) rest) <= fuel) as Hl2 by (rewrite length_drop; lia).
  destruct (line_hit (take le rest)) as [colon|] eqn:Eh; intros E.
  - destruct (line_hit_value _ _ D Eh) as [Hc _]. rewrite length_take in Hc.
    pose proof (loop_no_hit _ _ _ _ _ _ _ _ Hl2 E) as Hno.
    rewrite Hno in E by done. injection E as <- <-.
    split; [lia|]. split; [lia|]. replace (off + colon + 1 - off) with (colon + 1) by lia.
    replace (off + le - off) with le by lia. intros rest' fuel' Hfu. by apply loop_here.
  - assert (le + 2 < length rest) as Hlt.
    { destruct (decide (le + 2 < length rest)) as [|Hge]; [done|].
      rewrite drop_ge, loop_nil in E by lia. injection E as _ _ ?. lia. }
    destruct (IH _ _ _ _ Hl2 E) as (Hv & Hve & Hk).
    rewrite length_drop in Hve. split; [lia|]. split; [lia|].
    rewrite (splice_shift rest D (le + 2)) by lia.
    replace (vs - off - (le + 2)) with (vs - (off + (le + 2))) by lia.
    replace (ve - off - (le + 2)) with (ve - (off + (le + 2))) by lia.
    intros rest' fuel'. unfold rest'. rewrite length_app, length_take. intros Hfu.
    destruct fuel' as [|fuel']; [lia|]. unfold le. rewrite loop_before by done. apply Hk. fold le. lia.
Qed.

(** ** Decimal numbers *)

Lemma digit_not_space c : is_digit c = true -> ascii_space c = false /\ is_ascii c = true.
Proof. by destruct c. Qed.

Lemma digits_foreign D : forallb is_digit D = true -> foreign D crlfcrlf /\ foreign D crlf.
Proof.
  rewrite forallb_forall. intros Hd. split; intros b Hb%list_elem_of_In Hin; apply Hd in Hb;
    apply list_elem_of_In in Hin; simpl in Hin; intuition subst; done.
Qed.

Lemma TrimSpace_digits D : forallb is_digit D = true -> TrimSpace D = D.
Proof.
  intros Hd. rewrite forallb_forall in Hd.
  assert (all_ascii D = true) as Ha.
  { apply forallb_forall. intros c Hc. by apply digit_not_space, Hd. }
  destruct (TrimSpace_ascii D Ha) as (w1 & w2 & HD & H1 & H2).
  assert (forall w, (forall c, List.In c w -> List.In c D) -> forallb ascii_space w = true -> w = []) as Hw.
  { intros [|c w] Hin Hs; [done|]. cbn [forallb] in Hs. apply andb_true_iff in Hs as [Hs _].
    assert (List.In c D) as Hc by (apply Hin; by left).
    apply Hd, digit_not_space in Hc as [Hc _]. congruence. }
  rewrite (Hw w1), (Hw w2), app_nil_r in HD; [done|..]; try done;
    intros c Hc; rewrite HD, !in_app_iff; auto.
Qed.

Lemma itoa_digits n : (0 <= n)%Z -> forallb is_digit (itoa n) = true /\ itoa n <> [].
Proof.
  intros Hn. unfold itoa. assert ((n <? 0)%Z = false) as -> by (apply Z.ltb_ge; lia).
  split; [by apply itoa_loop_digits|]. destruct (itoa_loop_ne 20 n [] ltac:(lia)) as (c & r & ->). done.
Qed.

(** ** The rebuilt response *)

(** What a reader of a response takes from it: the end of the header block,
    the one Content-Length value and the body. *)
Definition declares (p : bytes) (headerEnd valueStart valueEnd : nat) (len : Z) : Prop :=
  Index p crlfcrlf = Some headerEnd /\
  findContentLength (take headerEnd p) = (valueStart, valueEnd, 1) /\
  valueStart <= valueEnd <= headerEnd /\
  Atoi (TrimSpace (take (valueEnd - valueStart) (drop valueStart p))) = Some len.

Lemma retag_inv payload delta out :
  retagContentLength payload delta = Some out -> delta <> 0%Z ->
  exists headerEnd vs ve declared, declares payload headerEnd vs ve declared /\
    (declared + delta = Z.of_nat (length (drop (headerEnd + 4) payload)))%Z /\
    out = take vs payload ++ itoa (declared + delta) ++ drop ve payload.
Proof.
  unfold retagContentLength. intros E Hd. rewrite (proj2 (Z.eqb_neq _ _) Hd) in E.
  destruct (Index payload crlfcrlf) as [he|] eqn:Ei; [|done].
  destruct (negb (HasPrefix _ _)); [done|].
  destruct (findContentLength (take he payload)) as [[vs ve] n] eqn:Ef.
  destruct (n =? 1)%nat eqn:En; [|done]. apply Nat.eqb_eq in En as ->. cbn [negb] in E.
  destruct (Atoi _) as [declared|] eqn:Ea; [|done]. destruct (declared <? 0)%Z; [done|].
  destruct (_ =? declared + delta)%Z eqn:Eb; [|done]. cbn [negb] in E.
  destruct (declared + delta <? 0)%Z; [done|]. injection E as <-.
  pose proof (Index_bound _ _ _ Ei) as Hb. cbn in Hb. pose proof (findContentLength_bound _ _ _ _ Ef) as Hf.
  rewrite length_take in Hf. exists he, vs, ve, declared.
  split; [repeat split; try done; lia|]. split; [|done].
  apply Z.eqb_eq in Eb. rewrite length_drop. lia.
Qed.

(** Replacing the declared value by other text that reads as a number. *)
Lemma declares_splice p he vs ve d D n :
  declares p he vs ve d -> foreign D crlfcrlf -> foreign D crlf -> D <> [] ->
  Atoi (TrimSpace D) = Some n ->
  let p' := take vs p ++ D ++ drop ve p in
  let he' := vs + length D + (he - ve) in
  declares p' he' vs (vs + length D) n /\ drop (he' + 4) p' = drop (he + 4) p.
Proof.
  intros (Hi & Hfc & Hv & _) Hf4 Hf2 Hne HA.
  pose proof (Index_bound _ _ _ Hi) as Hb. cbn in Hb. intros p' he'.
  assert (take vs p ++ take (ve - vs) (drop vs p) ++ drop ve p = p) as Hp.
  { rewrite <- (take_drop vs p) at 4. f_equal. rewrite <- (take_drop (ve - vs) (drop vs p)) at 2.
    f_equal. rewrite drop_drop. f_equal. lia. }
  assert (Index (drop ve p) crlfcrlf = Some (he - ve)) as His.
  { pose proof (Index_skip (take ve p) (drop ve p) crlfcrlf) as Hs. rewrite take_drop, Hi in Hs.
    rewrite length_take in Hs. specialize (Hs ltac:(intros j [= <-]; lia)).
    destruct (Index (drop ve p) crlfcrlf) as [j|]; [|done]. injection Hs as Hs. f_equal. lia. }
  assert (length (take vs p) = vs) as Hlv by (rewrite length_take; lia).
  assert (Index p' crlfcrlf = Some he') as Hi'.
  { unfold p'. rewrite (Index_replace _ (take (ve - vs) (drop vs p))); [|done|done|done|].
    - rewrite His, Hlv. done.
    - rewrite Hp, Hi, Hlv, length_take, length_drop. intros j [= <-]. lia. }
  assert (drop ve p = drop ve (take he p) ++ drop he p) as Hdv.
  { rewrite <- (take_drop he p) at 1. by rewrite drop_app_le by (rewrite length_take; lia). }
  assert (take he' p' = take vs (take he p) ++ D ++ drop ve (take he p)) as Ht.
  { unfold p'. rewrite Hdv, take_take, Nat.min_l, !app_assoc by lia. apply take_app_length'.
    rewrite !length_app, Hlv, length_drop, length_take. lia. }
  split; [split; [done|]|].
  - split; [|split; [lia|]].
    + unfold findContentLength in *. rewrite Ht.
      destruct (loop_replace (length (take he p)) 0 (take he p) 0 0 0 vs ve D) as (_ & _ & Hk); [done..|].
      rewrite !Nat.sub_0_r in Hk. by rewrite Hk.
    + replace (vs + length D - vs) with (length D) by lia. unfold p'.
      by rewrite drop_app_length', take_app_length by done.
  - unfold p', he'. rewrite app_assoc.
    replace (vs + length D + (he - ve) + 4) with (length (take vs p ++ D) + (he + 4 - ve))
      by (rewrite length_app, Hlv; lia).
    rewrite <- drop_drop, drop_app_length, drop_drop. f_equal. lia.
Qed.

Lemma declares_replace p he vs ve d n :
  declares p he vs ve d -> (0 <= n < 2 ^ 63)%Z ->
  let p' := take vs p ++ itoa n ++ drop ve p in
  let he' := vs + length (itoa n) + (he - ve) in
  declares p' he' vs (vs + length (itoa n)) n /\ drop (he' + 4) p' = drop (he + 4) p.
Proof.
  intros HD Hn. destruct (itoa_digits n ltac:(lia)) as [Hdig Hne].
  destruct (digits_foreign _ Hdig) as [Hf4 Hf2]. apply (declares_splice _ _ _ _ d); [done..|].
  rewrite TrimSpace_digits by done. by apply Atoi_itoa.
Qed.

(** A corrected Content-Length is right: when a response whose body was
    masked is rebuilt, a reader of the result finds a complete header block
    with exactly one Content-Length, whose value is the length of the body
    that follows; the body is the masked one, the length declared before
    masking was that of the unmasked body, and all other bytes of the header
    block are unchanged. *)
Theorem corrected_length_describes_body payload delta out :
  retagContentLength payload delta = Some out -> delta <> 0%Z ->
  (Z.of_nat (length payload) < 2 ^ 63)%Z ->
  exists headerEnd vs ve headerEnd' ve' body declared,
    declares payload headerEnd vs ve declared /\ drop (headerEnd + 4) payload = body /\
    (declared + delta = Z.of_nat (length body))%Z /\
    declares out headerEnd' vs ve' (Z.of_nat (length body)) /\ drop (headerEnd' + 4) out = body /\
    take vs out = take vs payload /\ drop ve' out = drop ve payload.
Proof.
  intros E Hd Hlen. destruct (retag_inv _ _ _ E Hd) as (he & vs & ve & d & Hdec & Hn & ->).
  rewrite Hn. pose proof Hdec as (Hi & _ & Hv & _). pose proof (Index_bound _ _ _ Hi) as Hb. cbn in Hb.
  set (n := Z.of_nat (length (drop (he + 4) payload))) in *.
  assert (0 <= n < 2 ^ 63)%Z as Hr by (unfold n; rewrite length_drop; lia).
  destruct (declares_replace _ _ _ _ _ n Hdec Hr) as [H1 H2].
  eexists he, vs, ve, _, _, (drop (he + 4) payload), d.
  split; [exact Hdec|]. split; [done|]. split; [done|]. split; [exact H1|]. split; [exact H2|].
  assert (length (take vs payload) = vs) as Hlv by (rewrite length_take; lia).
  split; [by apply take_app_length'|]. rewrite app_assoc. apply drop_app_length'.
  rewrite length_app. lia.
Qed.

(** A response masked from nine to eleven bytes, so that the number grows. *)
Definition masked_response : bytes :=
  B "HTTP/1.1 200 OK" ++ crlf ++ B "Content-Length: 9" ++ crlfcrlf ++ B "[REDACTED]!".

Lemma corrected_length_describes_body_witness :
  exists out body he vs ve, retagContentLength masked_response 2 = Some out /\
    declares out he vs ve (Z.of_nat (length body)) /\ drop (he + 4) out = body.
Proof.
  destruct (corrected_length_describes_body masked_response 2
    (B "HTTP/1.1 200 OK" ++ crlf ++ B "Content-Length:11" ++ crlfcrlf ++ B "[REDACTED]!"))
    as (_ & vs & _ & he & ve & body & _ & _ & _ & _ & H1 & H2 & _).
  - vm_compute. reflexivity.
  - discriminate.
  - vm_compute. reflexivity.
  - exists (B "HTTP/1.1 200 OK" ++ crlf ++ B "Content-Length:11" ++ crlfcrlf ++ B "[REDACTED]!").
    exists body, he, vs, ve. split; [vm_compute; reflexivity|]. split; assumption.
Defined.
