(* ===== verification/HttpProps.v ===== *)
(** * What the HTTP codec reports

    A policy sees the headers and the part of the body the operator asked for
    and no more; a stream of requests is recovered as long as the reader holds
    all of it. *)

From S2P Require Import Prelude GoStrings GoText Types HttpPath Inspect HttpCodec ContentLength.

Section Http.
Context `{GoUnicode} `{NetHTTP}.

(** ** What is exposed *)

Lemma pickHeaders_spec i h name v :
  pickHeaders i h !! name = Some v ->
  name ∈ hi_headers i /\ exists key vals, h !! key = Some vals /\ ToLower key = name /\ vals <> []
    /\ v = Join vals (B ", ").
Proof.
  unfold pickHeaders. case_bool_decide; [done|].
  revert name v. apply (map_fold_weak_ind (fun out m => forall name v, out !! name = Some v ->
    name ∈ hi_headers i /\ exists key vals, m !! key = Some vals /\ ToLower key = name /\ vals <> []
      /\ v = Join vals (B ", "))); [done|].
  intros key vals m out Hk IH name v. unfold pick_header.
  assert (forall name v, out !! name = Some v -> name ∈ hi_headers i /\ exists key' vals',
    <[key := vals]> m !! key' = Some vals' /\ ToLower key' = name /\ vals' <> [] /\ v = Join vals' (B ", "))
    as Hold.
  { intros nm w (Hn & k' & vs' & Hl & Hx)%IH. split; [done|]. exists k', vs'. split; [|done].
    rewrite lookup_insert_ne; [done|congruence]. }
  destruct (negb _ || _) eqn:E; [apply Hold|]. apply orb_false_iff in E as [E1 E2].
  apply negb_false_iff, bool_decide_eq_true in E1. apply Nat.eqb_neq in E2.
  intros [[<- <-]|[_ Hl]]%lookup_insert_Some; [|by apply Hold]. split; [done|].
  exists key, vals. split; [by rewrite lookup_insert_eq|]. split; [done|]. split; [by destruct vals|done].
Qed.

(** The body a statement carries, of the body [b] of a message. *)
Lemma captured_body i b d :
  drainBody (WholeBody b) (Z.to_nat (opMaxBodyBytes (hi_opts i))) = Some d ->
  (0 < opMaxBodyBytes (hi_opts i))%Z ->
  attachBody i d = if opCaptureBody (hi_opts i)
                   then (take (Z.to_nat (opMaxBodyBytes (hi_opts i))) b,
                         bool_decide (opMaxBodyBytes (hi_opts i) < Z.of_nat (length b))%Z)
                   else ([], false).
Proof.
  cbn [drainBody]. intros [= <-] Hm. unfold attachBody. cbn [dr_data dr_truncated].
  destruct (opCaptureBody (hi_opts i)); cbn [negb orb]; [|done]. rewrite length_take.
  destruct (_ =? 0)%nat eqn:E; bool_hyps.
  - assert (b = []) as -> by (destruct b; [done|simpl in E; lia]). rewrite take_nil. simpl.
    rewrite bool_decide_false by lia. done.
  - destruct (_ <? Z.of_nat _)%Z eqn:E2; bool_hyps; [lia|]. f_equal.
    case_bool_decide; destruct (_ <? length b)%nat eqn:E3; bool_hyps; lia || done.
Qed.

(** Nothing is exposed that was not asked for: in the statement of a request
    whose body was read completely, every header is one of the configured
    names, with the values the request sent for it, and the body is absent, or
    the prefix of the request's body of the configured size, marked as a prefix
    exactly when it is one; with the default options there is neither. *)
Theorem only_configured_exposed opts r b d name v :
  let i := http_New opts in
  drainBody (WholeBody b) (Z.to_nat (opMaxBodyBytes (hi_opts i))) = Some d ->
  exists ht, stHTTP (inspectRequest i r d) = Some ht
  /\ (htHeaders ht !! name = Some v -> name ∈ map ToLower (opHeaders opts)
      /\ exists key vals, rq_Header r !! key = Some vals /\ ToLower key = name /\ v = Join vals (B ", "))
  /\ (htBody ht, htBodyTruncated ht)
     = (if opCaptureBody opts
        then (take (Z.to_nat (opMaxBodyBytes (hi_opts i))) b,
              bool_decide (opMaxBodyBytes (hi_opts i) < Z.of_nat (length b))%Z)
        else ([], false)).
Proof.
  intros i Hd. unfold inspectRequest. destruct (attachBody i d) as [body cut] eqn:Ea.
  eexists. split; [reflexivity|]. cbn [htHeaders htBody htBodyTruncated]. split.
  - intros (Hin & key & vals & Hk & Hl & _ & Hv)%pickHeaders_spec. split.
    + apply elem_of_list_to_set in Hin. exact Hin.
    + by exists key, vals.
  - assert (0 < opMaxBodyBytes (hi_opts i))%Z as Hm.
    { unfold i, http_New. cbn. destruct (_ <=? 0)%Z eqn:E; bool_hyps; [done|lia]. }
    rewrite (captured_body i b d Hd Hm) in Ea. unfold i in *. cbn [hi_opts http_New opCaptureBody] in *. by rewrite Ea.
Qed.

(** ** The stream *)

(** The buffer of [bufio.NewReader]. *)
Definition bufio_size : nat := 4096.

(** [w] is a request on the wire, with its body: whatever follows it, the
    parser reads it and leaves in its buffer a part of what follows, and all of
    that when the buffer held everything. *)
Definition request_wire (w : bytes) (r : Request) (b : Body) : Prop :=
  headEndIndex w <> None /\
  forall k, exists n, ReadRequest (w ++ k) = Some (Build_Reading r b n) /\ n <= length k /\ n <= bufio_size
    /\ (length (w ++ k) <= bufio_size -> n = length k).

Lemma headEnd_app w k : headEndIndex w <> None -> headEndIndex (w ++ k) <> None.
Proof.
  unfold headEndIndex. destruct (Index w [x0d; x0a; x0d; x0a]) as [i|] eqn:E.
  - by rewrite (Index_app_r _ k _ _ E).
  - destruct (Index w [x0a; x0a]) as [i|] eqn:E2; [|done].
    intros _. rewrite (Index_app_r _ k _ _ E2). by destruct (Index (w ++ k) _).
Qed.

Lemma wire_turn i w r b k d :
  request_wire w r b -> drainBody b (Z.to_nat (opMaxBodyBytes (hi_opts i))) = Some d ->
  exists n, http_turn i FromClient (w ++ k) = Message (inspectRequest i r d) (length (w ++ k) - n)
    /\ n <= length k /\ n <= bufio_size /\ (length (w ++ k) <= bufio_size -> n = length k).
Proof.
  intros [Hh Hr] Hd. destruct (Hr k) as (n & Hn & H1 & H2 & H3). exists n. split; [|done].
  unfold http_turn. apply (headEnd_app _ k) in Hh. destruct (headEndIndex (w ++ k)); [|done].
  unfold message_turn. rewrite Hn. cbn [rd_body]. by rewrite Hd.
Qed.

(** A message on the wire, as the codec is to report it. *)
Definition wire_item (i : HttpInspector) (x : bytes * Request * drained) : Prop :=
  exists b, request_wire x.1.1 x.1.2 b /\ drainBody b (Z.to_nat (opMaxBodyBytes (hi_opts i))) = Some x.2.

Lemma http_loop_items i xs fuel pos stmts :
  Forall (wire_item i) xs ->
  let data := concat (map (fun x => x.1.1) xs) in
  length data <= fuel -> length data <= bufio_size \/ length xs <= 1 ->
  http_loop fuel i FromClient data pos stmts
  = {| dStmts := stmts ++ map (fun x => inspectRequest i x.1.2 x.2) xs; dConsumed := pos + length data;
       dErr := None |}.
Proof.
  intros Hxs. revert fuel pos stmts. induction Hxs as [|[[w r] d] xs Hx Hxs IH]; intros fuel pos stmts data Hf Hs.
  { unfold data. cbn [map concat length]. rewrite app_nil_r, Nat.add_0_r. by destruct fuel. }
  destruct Hx as (b & Hw & Hd). unfold data in *. cbn [map concat fst snd] in *.
  set (k := concat (map (fun x => x.1.1) xs)) in *.
  assert (w <> []) as Hwne by (intros ->; by destruct Hw as [Hh _]).
  destruct (wire_turn i w r b k d Hw Hd) as (n & Ht & H1 & H2 & H3).
  assert (n = length k) as ->.
  { destruct Hs as [Hs|Hs]; [by apply H3|]. cbn [length] in Hs. destruct xs; [|simpl in Hs; lia].
    unfold k in *. simpl in *. lia. }
  destruct fuel as [|fuel]; [destruct w; [done|simpl in Hf; lia]|].
  destruct (w ++ k) as [|c rest] eqn:Ec; [by destruct w|]. cbn [http_loop]. rewrite Ht. rewrite <- Ec in *.
  rewrite length_app. replace (length w + length k - length k) with (length w) by lia.
  rewrite drop_app_length, IH.
  - rewrite <- app_assoc. cbn [app]. f_equal. lia.
  - rewrite length_app in Hf. assert (0 < length w) by (destruct w; [done|simpl; lia]). lia.
  - destruct Hs as [Hs|Hs]; [left; rewrite length_app in Hs; lia|right; simpl in Hs; lia].
Qed.

Lemma decode_requests i xs :
  Forall (wire_item i) xs ->
  let data := concat (map (fun x => x.1.1) xs) in
  length data <= bufio_size \/ length xs <= 1 ->
  Decode i FromClient data
  = (i, {| dStmts := map (fun x => inspectRequest i x.1.2 x.2) xs; dConsumed := length data; dErr := None |}).
Proof. intros Hx data Hs. cbn [Decode http_codec]. f_equal. by apply (http_loop_items i xs _ 0 []). Qed.

(** C34 Requests are recovered: any sequence of requests on the wire that fits the
    reader's buffer, or one request of any size, decodes to the statements of
    those requests in order, with their bodies, and is consumed completely. *)
Theorem http_requests_recovered i xs :
  Forall (wire_item i) xs ->
  let data := concat (map (fun x => x.1.1) xs) in
  length data <= bufio_size \/ length xs <= 1 ->
  Decode i FromClient data
  = (i, {| dStmts := map (fun x => inspectRequest i x.1.2 x.2) xs; dConsumed := length data; dErr := None |}).
Proof. apply decode_requests. Qed.

(** Behind that the codec loses its place: it counts as consumed everything the
    reader has not buffered, so when more than a buffer follows a request, the
    bytes in between are passed over without a look. *)
Lemma pipelined_bytes_skipped i w r b k d :
  request_wire w r b -> drainBody b (Z.to_nat (opMaxBodyBytes (hi_opts i))) = Some d ->
  bufio_size < length k ->
  exists n, http_turn i FromClient (w ++ k) = Message (inspectRequest i r d) n
    /\ length w + (length k - bufio_size) <= n.
Proof.
  intros Hw Hd Hk. destruct (wire_turn i w r b k d Hw Hd) as (n & Ht & H1 & H2 & _).
  eexists. split; [exact Ht|]. rewrite length_app. lia.
Qed.
End Http.
