(* ===== verification/Deny.v ===== *)
(** * Denials in the client's protocol: src/hoopinspect/proxy/deny.go

    A refused statement is explained to the client in an error frame of its own
    protocol, after which the connection closes. *)

From S2P Require Import Prelude GoStrings GoText Utf Types TdsCodec TdsRewrite Scan SqlMeta Inspect.
From S2P Require Import PgCodec ContentLength TdsFacts TdsProps TdsRewriteFacts Handshake.
From S2P Require Import HandshakeProps.

Definition tdsTokenError : byte := xaa.
Definition tdsTokenDone : byte := xfd.
Definition tdsDoneError : Z := 2.
Definition tdsErrorNumber : Z := 50000.
Definition tdsErrorClass : byte := x10.
Definition maxTDSMessageChars : nat := 2000.

(** [truncateChars]: at most [max] runes, cut between runes. *)
Fixpoint truncateChars (s : bytes) (max : nat) : bytes :=
  match max with
  | O => []
  | S max =>
      match s with
      | [] => []
      | _ => let w := (DecodeRune s).2 in take w s ++ truncateChars (drop w s) max
      end
  end.

(** The ERROR token's body: number, state, class, message, no server or
    procedure name, line 1. *)
Definition error_body (msg : bytes) : bytes :=
  let text := toUCS2 (truncateChars msg maxTDSMessageChars) in
  put_le_u32 tdsErrorNumber ++ [x01; tdsErrorClass]
  ++ put_le_u16 (Z.of_nat (length text) / 2) ++ text ++ [x00; x00] ++ put_le_u32 1.

Definition error_stream (msg : bytes) : bytes :=
  let body := error_body msg in
  tdsTokenError :: put_le_u16 (Z.of_nat (length body)) ++ body
  ++ [tdsTokenDone] ++ put_le_u16 tdsDoneError ++ put_le_u16 0 ++ put_le_u64 0.

Definition MSSQLError (msg : bytes) : bytes :=
  let stream := error_stream msg in
  [x04; x01] ++ put_be_u16 (Z.of_nat (headerLen + length stream)) ++ [x00; x00; x01; x00] ++ stream.

Definition pg_field (code : byte) (val : bytes) : bytes := code :: val ++ [x00].

Definition PostgresError (msg : bytes) : bytes :=
  let body := pg_field "S" (B "FATAL") ++ pg_field "V" (B "FATAL") ++ pg_field "C" (B "42501")
              ++ pg_field "M" msg ++ [x00] in
  "E"%byte :: put_be_u32 (Z.of_nat (length body) + 4) ++ body.

Definition CRLF : bytes := [x0d; x0a].

Definition HTTPForbidden (msg : bytes) : bytes :=
  let body := msg ++ [x0a] in
  B "HTTP/1.1 403 Forbidden" ++ CRLF
  ++ B "Content-Type: text/plain; charset=utf-8" ++ CRLF
  ++ B "Content-Length: " ++ itoa (Z.of_nat (length body)) ++ CRLF
  ++ B "X-Hoop-Denied: policy" ++ CRLF
  ++ B "Connection: close" ++ CRLF ++ CRLF ++ body.

(** [ProtocolDenyWriter.Deny]; the empty frame is nil. *)
Definition Deny_frame (proto : Protocol) (msg : bytes) : bytes :=
  let msg := if msg =s [] then B "denied by policy" else msg in
  if proto =s Protocol.Postgres then PostgresError msg
  else if proto =s Protocol.MSSQL then MSSQLError msg
  else if proto =s Protocol.HTTP then HTTPForbidden msg
  else [].

(** ** A denial is a frame the client can read

    Each error frame parses with the reader of its protocol, ends where its
    length says, and carries the operator's message. *)
(** ** Postgres *)

(** The fields of an ErrorResponse body, as a client reads them. *)
Fixpoint error_fields (fuel : nat) (b : bytes) : option (list (byte * bytes)) :=
  match fuel, b with
  | S fuel, c :: rest =>
      if c =b x00 then if (length rest =? 0)%nat then Some [] else None
      else
        '(v, rest) ← cut_nul rest;
        fs ← error_fields fuel rest;
        Some ((c, v) :: fs)
  | _, _ => None
  end.

Lemma error_fields_cons fuel code v rest fs :
  code <> x00 -> nul_free v -> error_fields fuel rest = Some fs ->
  error_fields (S fuel) (pg_field code v ++ rest) = Some ((code, v) :: fs).
Proof.
  intros Hc Hv HF. unfold pg_field. cbn [app error_fields].
  destruct (code =b x00) eqn:E; bool_hyps; [done|]. rewrite <- app_assoc, cut_nul_app by done.
  cbn. by rewrite HF.
Qed.

(** ** SQL Server *)

(** The text of an ERROR token. *)
Definition error_text_of (tok : bytes) : bytes :=
  let n := Z.to_nat (le_u16 (drop 9 tok)) in ucs2ToString (take (2 * n) (drop 11 tok)).

Lemma truncateChars_text rs max :
  valid_text rs -> truncateChars (utf8_String rs) max = utf8_String (take max rs).
Proof.
  revert rs. induction max as [|max IH]; intros rs Hv; [done|].
  destruct rs as [|r rs]; [done|]. inversion_clear Hv as [|? ? Hr Hrs].
  unfold utf8_String. cbn [map concat take truncateChars].
  rewrite DecodeRune_rune by done. cbn [snd].
  destruct (EncodeRune r ++ concat (map EncodeRune rs)) as [|b s] eqn:E.
  { destruct (EncodeRune_shape r) as (b & k & HE & _). by rewrite HE in E. }
  rewrite <- E, take_app_length, drop_app_length. f_equal. by apply IH.
Qed.

Lemma utf16_Encode_length rs : length (utf16_Encode rs) <= 2 * length rs.
Proof.
  induction rs as [|r rs IH]; [done|]. unfold utf16_Encode in *. cbn [map concat].
  rewrite length_app. unfold utf16_rune at 1. cbn [length]. case_go; cbn [length]; lia.
Qed.

(** The message as it is sent: whole characters, at most 2000 of them. *)
Lemma sent_text rs :
  valid_text rs ->
  let text := toUCS2 (truncateChars (utf8_String rs) maxTDSMessageChars) in
  text = utf16le (utf16_Encode (take maxTDSMessageChars rs)) /\ (Z.of_nat (length text) <= 8000)%Z
  /\ (Z.of_nat (length text) / 2)%Z = Z.of_nat (length (utf16_Encode (take maxTDSMessageChars rs))).
Proof.
  intros Hv. cbv zeta. rewrite truncateChars_text by done.
  assert (valid_text (take maxTDSMessageChars rs)) as Hv' by (by apply Forall_take).
  unfold toUCS2. rewrite utf8_roundtrip by done. fold (utf16le (utf16_Encode (take maxTDSMessageChars rs))).
  pose proof (utf16_Encode_length (take maxTDSMessageChars rs)) as Hl. rewrite length_take in Hl.
  unfold maxTDSMessageChars in *. rewrite utf16le_length. split; [done|]. split; [lia|].
  rewrite Nat2Z.inj_mul. by apply Z.div_mul.
Qed.

Lemma mssql_denial rs k :
  valid_text rs ->
  let s := error_stream (utf8_String rs) in
  packets (MSSQLError (utf8_String rs) ++ k) = ((true, s) :: (packets k).1, (packets k).2)
  /\ exists n, skipToken s = parseOK n /\ error_text_of s = utf8_String (take maxTDSMessageChars rs)
     /\ skipToken (drop n s) = parseOK 13 /\ length s = n + 13.
Proof.
  intros Hv. destruct (sent_text rs Hv) as (HT & HL & HN). cbv zeta in HT, HL, HN.
  set (text := toUCS2 _) in *. cbv zeta.
  assert (error_body (utf8_String rs) = put_le_u32 tdsErrorNumber ++ [x01; tdsErrorClass]
    ++ put_le_u16 (Z.of_nat (length text) / 2) ++ text ++ [x00; x00] ++ put_le_u32 1) as HB by done.
  assert (length (error_body (utf8_String rs)) = 14 + length text) as HBl.
  { rewrite HB, !length_app. change (length (put_le_u32 ?z)) with 4.
    change (length (put_le_u16 ?z)) with 2. cbn [length]. lia. }
  set (s := error_stream (utf8_String rs)).
  assert (Hsl : length s = 3 + length (error_body (utf8_String rs)) + 13).
  { unfold s, error_stream. cbn [length]. rewrite !length_app. change (length (put_le_u64 ?z)) with 8.
    change (length (put_le_u16 ?z)) with 2. cbn [length]. lia. }
  clearbody text. split.
  { pose proof (packets_cons x04 true {| t_spid1 := x00; t_spid2 := x00; t_id := x01; t_window := x00 |} s k) as HP.
    unfold tds_packet, tail_bytes in HP. cbn [t_spid1 t_spid2 t_id t_window] in HP.
    unfold MSSQLError. fold s. apply HP. unfold packet_ok. lia. }
  exists (3 + length (error_body (utf8_String rs))).
  assert (le_u16 (drop 1 s) = Z.of_nat (length (error_body (utf8_String rs)))) as Hlen.
  { unfold s, error_stream. change (drop 1 (tdsTokenError :: ?x)) with x. apply le_u16_put. lia. }
  split; [|split; [|split; [|lia]]].
  - unfold skipToken. destruct (length s <? 1)%nat eqn:E; bool_hyps; [lia|].
    change (token_length (byte_at s 0) s) with (counted s 3 le_u16). unfold counted. rewrite Hlen.
    destruct (length s <? 3)%nat eqn:E3; bool_hyps; [lia|].
    destruct (_ <? _)%Z eqn:E4; bool_hyps; [lia|]. by rewrite Nat2Z.id.
  - unfold error_text_of, s, error_stream. rewrite HB, <- !app_assoc.
    set (N := put_le_u16 (Z.of_nat (length (put_le_u32 tdsErrorNumber ++ _)))). change (drop 9 (tdsTokenError :: N ++ put_le_u32 ?a ++ [x01; tdsErrorClass] ++ ?x)) with x.
    change (drop 11 (tdsTokenError :: N ++ put_le_u32 ?a ++ [x01; tdsErrorClass] ++ put_le_u16 ?c ++ ?x)) with x.
    rewrite le_u16_put by (Z.div_mod_to_equations; lia). rewrite HN, Nat2Z.id, HT.
    rewrite (Nat.mul_comm 2), <- utf16le_length, take_app_length. apply ucs2_text. by apply Forall_take.
  - assert (drop (3 + length (error_body (utf8_String rs))) s
      = [tdsTokenDone] ++ put_le_u16 tdsDoneError ++ put_le_u16 0 ++ put_le_u64 0) as ->; [|done].
    unfold s, error_stream. rewrite <- drop_drop. change (drop 3 (tdsTokenError :: put_le_u16 ?a ++ ?x)) with x.
    apply drop_app_length.
Qed.

Lemma pg_field_length code v : length (pg_field code v) = 2 + length v.
Proof. unfold pg_field. cbn [length]. rewrite length_app. simpl. lia. Qed.

Lemma postgres_denial msg k :
  nul_free msg -> (Z.of_nat (length msg) < 2 ^ 20)%Z ->
  exists body, read_message (PostgresError msg ++ k)
    = HMessage "E" body (length (PostgresError msg))
    /\ error_fields (length body) body
       = Some [("S"%byte, B "FATAL"); ("V"%byte, B "FATAL"); ("C"%byte, B "42501"); ("M"%byte, msg)].
Proof.
  intros Hm Hl. unfold PostgresError.
  set (body := pg_field "S" _ ++ _). exists body.
  assert (Hb : length body = 7 + 7 + 7 + (2 + length msg) + 1).
  { unfold body. rewrite !length_app, !pg_field_length. change (length (B ?z)) with 5.
    cbn [length]. lia. }
  split.
  - unfold read_message. cbn [app]. change (drop 1 ("E"%byte :: ?x)) with x. rewrite <- app_assoc.
    rewrite be_u32_put by lia. set (data := "E"%byte :: _).
    assert (length data = 5 + length body + length k) as Hd.
    { unfold data. cbn [length]. rewrite !length_app. cbn. lia. }
    unfold PgCodec.maxMessageLen, zlen. destruct (length data <? 5)%nat eqn:E0; bool_hyps; [lia|].
    destruct ((_ <? 4)%Z || _) eqn:E1.
    { apply orb_true_iff in E1 as [E1|E1]; bool_hyps; [lia|].
      change (Z.shiftl 64 20) with 67108864%Z in E1. lia. }
    destruct (Z.of_nat (length data) <? _)%Z eqn:E2; bool_hyps; [lia|].
    replace (Z.to_nat (1 + (Z.of_nat (length body) + 4))) with (5 + length body) by lia.
    f_equal.
    unfold slice, data. change (drop 5 ("E"%byte :: put_be_u32 ?a ++ ?x)) with x.
    replace (5 + length body - 5) with (length body) by lia. apply take_app_length.
  - rewrite Hb. unfold body. cbn [Nat.add].
    repeat (apply error_fields_cons; [done|first [done|unfold nul_free; vm_compute; set_solver]|]).
    done.
Qed.

(** The response HTTPForbidden builds before its length is filled in. *)
Definition forbidden_head : bytes :=
  B "HTTP/1.1 403 Forbidden" ++ CRLF ++ B "Content-Type: text/plain; charset=utf-8" ++ CRLF
  ++ B "Content-Length:".
Definition forbidden_rest : bytes :=
  CRLF ++ B "X-Hoop-Denied: policy" ++ CRLF ++ B "Connection: close".

Lemma foreign_space D s : ~ x20 ∈ s -> foreign D s -> foreign (x20 :: D) s.
Proof. intros Hs HD b [->|Hb]%elem_of_cons; [done|by apply HD]. Qed.

Lemma http_denial msg :
  (Z.of_nat (length msg) < 2 ^ 62)%Z ->
  exists he vs ve, declares (HTTPForbidden msg) he vs ve (Z.of_nat (length (msg ++ [x0a])))
    /\ drop (he + 4) (HTTPForbidden msg) = msg ++ [x0a].
Proof.
  intros Hl. set (body := msg ++ [x0a]). set (n := Z.of_nat (length body)).
  pose (p := forbidden_head ++ B " 0" ++ forbidden_rest ++ crlfcrlf ++ body).
  set (vs := length forbidden_head). set (he := length (forbidden_head ++ B " 0" ++ forbidden_rest)).
  assert (declares p he vs (vs + 2) 0) as HD.
  { assert (p = (forbidden_head ++ B " 0" ++ forbidden_rest ++ crlfcrlf) ++ body) as Hp
      by (unfold p; by rewrite <- !app_assoc).
    split; [rewrite Hp; apply Index_app_r; by vm_compute|].
    assert (take he p = forbidden_head ++ B " 0" ++ forbidden_rest) as ->.
    { unfold he, p. rewrite !app_assoc. rewrite <- (app_assoc _ crlfcrlf). by apply take_app_length'. }
    split; [by vm_compute|]. split; [by vm_compute; lia|]. by vm_compute. }
  assert (0 <= n < 2 ^ 63)%Z as Hn by (unfold n, body; rewrite length_app; simpl; lia).
  destruct (itoa_digits n ltac:(lia)) as [Hdig _]. destruct (digits_foreign _ Hdig) as [Hf4 Hf2].
  destruct (declares_splice p he vs (vs + 2) 0 (x20 :: itoa n) n HD) as [H1 H2].
  { apply foreign_space; [unfold crlfcrlf, crlf; set_solver|done]. }
  { apply foreign_space; [unfold crlfcrlf, crlf; set_solver|done]. }
  { done. }
  { change (TrimSpace (x20 :: itoa n)) with (TrimSpace (itoa n)).
    rewrite TrimSpace_digits by done. by apply Atoi_itoa. }
  assert (take vs p ++ (x20 :: itoa n) ++ drop (vs + 2) p = HTTPForbidden msg) as HE.
  { unfold vs, p. rewrite take_app_length. rewrite <- drop_drop, drop_app_length.
    reflexivity. }
  rewrite HE in H1, H2. eexists _, vs, _. split; [exact H1|]. rewrite H2.
  unfold he, p. rewrite !app_assoc. apply drop_app_length'. rewrite !length_app. simpl. lia.
Qed.

(** A denial is readable in the client's own protocol, whatever the operator
    wrote: for any message of valid UTF-8 text without a NUL, a Postgres client
    reads one complete ErrorResponse whose fields are FATAL, 42501 and the
    message; a SQL Server client reads one complete packet whose stream is an
    ERROR token with the first 2000 characters of the message and a DONE token,
    with nothing left over; an HTTP client reads a response whose
    Content-Length is the length of the body it carries.  An empty message is
    replaced first, and a protocol without a codec gets no frame. *)
Theorem denial_explained rs k :
  valid_text rs -> let msg := utf8_String rs in
  nul_free msg -> msg <> [] -> (Z.of_nat (length msg) < 2 ^ 20)%Z ->
  (exists body, read_message (Deny_frame Protocol.Postgres msg ++ k)
      = HMessage "E" body (length (Deny_frame Protocol.Postgres msg))
    /\ error_fields (length body) body
       = Some [("S"%byte, B "FATAL"); ("V"%byte, B "FATAL"); ("C"%byte, B "42501"); ("M"%byte, msg)])
  /\ (exists s n, packets (Deny_frame Protocol.MSSQL msg ++ k) = ((true, s) :: (packets k).1, (packets k).2)
    /\ skipToken s = parseOK n /\ error_text_of s = utf8_String (take maxTDSMessageChars rs)
    /\ skipToken (drop n s) = parseOK 13 /\ length s = n + 13)
  /\ (exists he vs ve, declares (Deny_frame Protocol.HTTP msg) he vs ve (Z.of_nat (length (msg ++ [x0a])))
    /\ drop (he + 4) (Deny_frame Protocol.HTTP msg) = msg ++ [x0a])
  /\ (forall p, Deny_frame p [] = Deny_frame p (B "denied by policy")).
Proof.
  intros Hv msg Hn Hne Hl. unfold Deny_frame at 1 2 3 4 5.
  destruct (msg =s []) eqn:E; bool_hyps; [done|]. cbn [Protocol.Postgres Protocol.MSSQL Protocol.HTTP].
  split; [by apply postgres_denial|]. split; [|split; [apply http_denial; lia|done]].
  destruct (mssql_denial rs k Hv) as (HP & n & H1 & H2 & H3 & H4). by eexists _, n.
Qed.

Definition denial_text : list Z := map bval (B "dropping tables requires a ticket").

Lemma denial_explained_witness :
  exists body, read_message (Deny_frame Protocol.Postgres (utf8_String denial_text) ++ [])
      = HMessage "E" body (length (Deny_frame Protocol.Postgres (utf8_String denial_text)))
    /\ error_fields (length body) body
       = Some [("S"%byte, B "FATAL"); ("V"%byte, B "FATAL"); ("C"%byte, B "42501");
               ("M"%byte, utf8_String denial_text)].
Proof.
  refine (proj1 (denial_explained denial_text [] _ _ _ _)).
  - apply (bool_decide_unpack _). by vm_compute.
  - unfold nul_free. apply (bool_decide_unpack _). by vm_compute.
  - by vm_compute.
  - by vm_compute.
Defined.
