(* ===== verification/Gate.v ===== *)
(** * The gate: src/hoopinspect/gate/gate.go

    The gate wires a connection's two Inspectors, the policy, the audit sink
    and the masker into one decision per chunk of bytes.  The policy, the sink
    and the masker are supplied by the deployment: they are fields or
    arguments here.  The sink is a state [K] with a [Write]; besides it the
    gate's state carries [g_log], the sequence of writes made with their
    results, which no operation reads.  [now] is the clock during a call;
    [error_text] renders a codec error. *)

From S2P Require Import Prelude GoStrings GoText Types Inspect Policy Session ContentLength.

(** ** What the deployment supplies *)

Record Masker := {
  mk_Mask : bytes -> bytes * list bytes * Z;
  mk_MaskCell : bytes -> bytes -> bytes * list bytes * Z;
}.

(** A codec that can rebuild its frames.  [rf_calls] are the cells the masker
    was called on, in order: the Go closure records entity names as a side
    effect of those calls. *)
Record Reframed := {
  rf_out : bytes;
  rf_res : ReframeResult;
  rf_err : option InspectError;
  rf_calls : list (bytes * bytes);
}.

Record Reframer (C : Type) := {
  rf_Rewrite : C -> bytes -> (bytes -> bytes -> option bytes) -> C * Reframed;
  rf_Flush : C -> option (bytes -> bytes -> option bytes) -> C * bytes;
}.
Arguments rf_Rewrite {C}.
Arguments rf_Flush {C}.

Inductive GateError :=
  | InspectFailed (e : InspectError)
  | AuditFailed (msg : bytes)
  | PolicyFailed (e : PolicyError)
  | ReframeFailed (e : InspectError).

Record Decision := {
  dcAllowed : bool;
  dcMessage : bytes;
  dcRule : bytes;
  dcStatements : list Statement;
  dcPayload : bytes;
  dcMasked : list bytes;
  dcMaskedCount : Z;
  dcErr : list GateError;
}.

Record GateConfig (C : Type) := {
  gcProtocol : Protocol;
  gcPolicy : option Evaluator;
  gcAudit : bool;                        (* an audit sink is configured *)
  gcMasker : option Masker;
  gcFailOnAuditError : bool;
  gcMaxBuffer : Z;
  gcCodecFactory : option (unit -> option C);
}.
Arguments gcProtocol {C}.
Arguments gcPolicy {C}.
Arguments gcAudit {C}.
Arguments gcMasker {C}.
Arguments gcFailOnAuditError {C}.
Arguments gcMaxBuffer {C}.
Arguments gcCodecFactory {C}.

(** ** State *)

Record Gate (C K : Type) := {
  g_cfg : GateConfig C;
  g_sess : Session;
  g_client : Inspector C;
  g_server : Inspector C;
  g_polCtx : gmap bytes bytes;
  g_reframer : option (Reframer C);
  g_started : bool;
  g_statements : Z;
  g_denied : Z;
  g_closed : bool;
  g_sink : K;
  g_log : list (Event * option bytes);
}.
Arguments Build_Gate {C K}.
Arguments g_cfg {C K}.
Arguments g_sess {C K}.
Arguments g_client {C K}.
Arguments g_server {C K}.
Arguments g_polCtx {C K}.
Arguments g_reframer {C K}.
Arguments g_started {C K}.
Arguments g_statements {C K}.
Arguments g_denied {C K}.
Arguments g_closed {C K}.
Arguments g_sink {C K}.
Arguments g_log {C K}.

Section Gate.
Context {C K : Type} `{Codec C}.
Context (sink_Write : K -> Event -> K * option bytes).
Context (error_text : InspectError -> bytes).

Definition set_inspector (g : Gate C K) (dir : Direction) (i : Inspector C) : Gate C K :=
  Build_Gate (g_cfg g) (g_sess g)
    (match dir with FromClient => i | FromServer => g_client g end)
    (match dir with FromServer => i | FromClient => g_server g end)
    (g_polCtx g) (g_reframer g) (g_started g) (g_statements g) (g_denied g) (g_closed g)
    (g_sink g) (g_log g).
Definition set_counters (g : Gate C K) (statements denied : Z) : Gate C K :=
  Build_Gate (g_cfg g) (g_sess g) (g_client g) (g_server g) (g_polCtx g) (g_reframer g)
    (g_started g) statements denied (g_closed g) (g_sink g) (g_log g).
Definition set_started (g : Gate C K) : Gate C K :=
  Build_Gate (g_cfg g) (g_sess g) (g_client g) (g_server g) (g_polCtx g) (g_reframer g)
    true (g_statements g) (g_denied g) (g_closed g) (g_sink g) (g_log g).
Definition set_closed (g : Gate C K) (s : Session) : Gate C K :=
  Build_Gate (g_cfg g) s (g_client g) (g_server g) (g_polCtx g) (g_reframer g)
    (g_started g) (g_statements g) (g_denied g) true (g_sink g) (g_log g).
Definition set_sink (g : Gate C K) (k : K) (l : list (Event * option bytes)) : Gate C K :=
  Build_Gate (g_cfg g) (g_sess g) (g_client g) (g_server g) (g_polCtx g) (g_reframer g)
    (g_started g) (g_statements g) (g_denied g) (g_closed g) k l.

(** ** Construction *)

Inductive NewError := NoProtocol | CodecUnavailable (e : InspectError) | FactoryNil
  | FactoryMismatch (got : Protocol).

Definition newInspector (reg : Registry C) (proto : Protocol) (f : option (unit -> option C))
    : NewError + Inspector C :=
  match f with
  | None => match New reg proto with
            | inl e => inl (CodecUnavailable e)
            | inr i => inr i
            end
  | Some f =>
      match f tt with
      | None => inl FactoryNil
      | Some c =>
          if codec_Protocol c =s proto then inr (NewWithCodec c)
          else inl (FactoryMismatch (codec_Protocol c))
      end
  end.

(** [gate.New]; [as_reframer] is the type assertion on the server codec. *)
Definition gate_New (reg : Registry C) (as_reframer : C -> option (Reframer C))
    (sess : Session) (cfg : GateConfig C) (sink : K) : NewError + Gate C K :=
  let proto := if gcProtocol cfg =s [] then seProtocol sess else gcProtocol cfg in
  if proto =s [] then inl NoProtocol
  else
    match newInspector reg proto (gcCodecFactory cfg) with
    | inl e => inl e
    | inr client =>
        match newInspector reg proto (gcCodecFactory cfg) with
        | inl e => inl e
        | inr server =>
            let limit i := if (0 <? gcMaxBuffer cfg)%Z then SetMaxBuffer i (gcMaxBuffer cfg) else i in
            let sess := set_protocol sess proto in
            let cfg := {| gcProtocol := proto; gcPolicy := gcPolicy cfg; gcAudit := gcAudit cfg;
                          gcMasker := gcMasker cfg; gcFailOnAuditError := gcFailOnAuditError cfg;
                          gcMaxBuffer := gcMaxBuffer cfg; gcCodecFactory := gcCodecFactory cfg |} in
            inr (Build_Gate cfg sess (limit client) (limit server) (PolicyContext sess)
                   (as_reframer (i_codec server)) false 0 0 false sink [])
        end
    end.

(** ** Auditing and evaluation *)

Definition writeAudit (g : Gate C K) (ev : Event) : Gate C K * option bytes :=
  if gcAudit (g_cfg g) then
    let '(k, err) := sink_Write (g_sink g) ev in
    (set_sink g k (g_log g ++ [(ev, err)]), err)
  else (g, None).

Definition evaluate (g : Gate C K) (stmt : Statement) : Verdict :=
  match gcPolicy (g_cfg g) with
  | None => Allow
  | Some (Contextual f) =>
      (f stmt {| ecAnnotations := ∅; ecFindings := ∅; ecRequested := ∅;
                 ecContext := g_polCtx g |}).2
  | Some (Plain f) => f stmt
  end.

(** The event of a verdict, with the evaluator's annotations on it. *)
Definition verdict_event (g : Gate C K) (stmt : Statement) (v : Verdict) (now : Z) : Event :=
  let ev := StatementEvent (g_sess g) stmt (negb (vDenied v)) (vRule v) (vMessage v) now in
  if bool_decide (vAnnotations v = ∅) then ev
  else with_metadata ev (vAnnotations v ∪ evMetadata ev).

Definition Start (g : Gate C K) : Gate C K * option bytes :=
  if g_started g then (g, None)
  else writeAudit (set_started g) (SessionStartEvent (g_sess g)).

(** ** The statement loop *)

Definition add_err (d : Decision) (errs : list GateError) : Decision :=
  {| dcAllowed := dcAllowed d; dcMessage := dcMessage d; dcRule := dcRule d;
     dcStatements := dcStatements d; dcPayload := dcPayload d; dcMasked := dcMasked d;
     dcMaskedCount := dcMaskedCount d; dcErr := dcErr d ++ errs |}.

Definition denied_by (d : Decision) (rule msg payload : bytes) (errs : list GateError) : Decision :=
  {| dcAllowed := false; dcMessage := msg; dcRule := rule;
     dcStatements := dcStatements d; dcPayload := payload; dcMasked := dcMasked d;
     dcMaskedCount := dcMaskedCount d; dcErr := dcErr d ++ errs |}.

Definition policy_errs (v : Verdict) : list GateError := map PolicyFailed (vErr v).

(** The loop over the statements of a chunk; the flag says whether it ran to
    the end, so that masking follows. *)
Fixpoint inspect_loop (g : Gate C K) (stmts : list Statement) (d : Decision) (now : Z)
    : Gate C K * (Decision * bool) :=
  match stmts with
  | [] => (g, (d, true))
  | stmt :: rest =>
      let verdict := evaluate g stmt in
      let g := set_counters g (g_statements g + 1)
                 (if vDenied verdict then g_denied g + 1 else g_denied g) in
      let '(g, auditErr) := writeAudit g (verdict_event g stmt verdict now) in
      match auditErr with
      | Some msg =>
          if gcFailOnAuditError (g_cfg g) then
            (g, ({| dcAllowed := false;
                    dcMessage := B "audit trail unavailable; statement refused";
                    dcRule := B "audit"; dcStatements := dcStatements d; dcPayload := [];
                    dcMasked := []; dcMaskedCount := 0; dcErr := [AuditFailed msg] |}, false))
          else
            let d := add_err d [AuditFailed msg] in
            if vDenied verdict
            then (g, (denied_by d (vRule verdict) (vMessage verdict) [] (policy_errs verdict), false))
            else inspect_loop g rest (add_err d (policy_errs verdict)) now
      | None =>
          if vDenied verdict
          then (g, (denied_by d (vRule verdict) (vMessage verdict) [] (policy_errs verdict), false))
          else inspect_loop g rest (add_err d (policy_errs verdict)) now
      end
  end.

(** ** Masking *)

Definition substitutionSafe (p : Protocol) : bool := p =s Protocol.HTTP.

Definition errMaskSkippedStaleLength : bytes :=
  B "hoopinspect/gate: response body forwarded unmasked: its header block is not in this buffer, so Content-Length cannot be corrected and a masked body would be truncated by the client".

Definition set_masked (d : Decision) (payload : bytes) (entities : list bytes) (count : Z) : Decision :=
  {| dcAllowed := dcAllowed d; dcMessage := dcMessage d; dcRule := dcRule d;
     dcStatements := dcStatements d; dcPayload := payload; dcMasked := entities;
     dcMaskedCount := count; dcErr := dcErr d |}.

Definition maskBySubstitution (g : Gate C K) (m : Masker) (d : Decision) (data : bytes) (now : Z)
    : Gate C K * Decision :=
  let '(out, entities, count) := mk_Mask m data in
  if (count =? 0)%Z then (g, d)
  else
    match retagContentLength out (Z.of_nat (length out) - Z.of_nat (length data)) with
    | None => ((writeAudit g (ErrorEvent (g_sess g) errMaskSkippedStaleLength now)).1, d)
    | Some out =>
        ((writeAudit g (MaskedEvent (g_sess g) entities count now)).1,
         set_masked d out entities count)
    end.

(** The cell function handed to the codec. *)
Definition cell_mask (m : Masker) (column value : bytes) : option bytes :=
  let '(out, _, n) := mk_MaskCell m column value in
  if (n =? 0)%Z then Some value else Some out.

(** The entity names the closure collects, first occurrence first. *)
Definition collect_entities (m : Masker) (calls : list (bytes * bytes)) : list bytes :=
  fold_left (fun acc '(col, val) =>
    let '(_, names, n) := mk_MaskCell m col val in
    if (n =? 0)%Z then acc else appendUnique acc names) calls [].

Definition maskByReframing (g : Gate C K) (rf : Reframer C) (m : Masker) (d : Decision)
    (data : bytes) (now : Z) : Gate C K * Decision :=
  let '(c, r) := rf_Rewrite rf (i_codec (g_server g)) data (cell_mask m) in
  let g := set_inspector g FromServer (set_codec (g_server g) c) in
  let entities := collect_entities m (rf_calls r) in
  let '(g, d) :=
    match rf_err r with
    | Some e => ((writeAudit g (ErrorEvent (g_sess g) (error_text e) now)).1,
                 add_err d [ReframeFailed e])
    | None => (g, d)
    end in
  if (0 <? rfCells (rf_res r))%Z then
    let entities := sort_Strings entities in
    ((writeAudit g (MaskedEvent (g_sess g) entities (rfCells (rf_res r)) now)).1,
     set_masked d (rf_out r) entities (rfCells (rf_res r)))
  else (g, set_masked d (rf_out r) (dcMasked d) (dcMaskedCount d)).

Definition FlushResponse (g : Gate C K) : Gate C K * bytes :=
  match g_reframer g with
  | None => (g, [])
  | Some rf =>
      let mask := match gcMasker (g_cfg g) with Some m => Some (cell_mask m) | None => None end in
      let '(c, out) := rf_Flush rf (i_codec (g_server g)) mask in
      (set_inspector g FromServer (set_codec (g_server g) c), out)
  end.

(** ** One chunk of bytes *)

Definition inspect (g : Gate C K) (dir : Direction) (data : bytes) (now : Z)
    : Gate C K * Decision :=
  let insp := match dir with FromServer => g_server g | FromClient => g_client g end in
  let '(insp, (stmts, err)) := Inspect insp dir data in
  let g := set_inspector g dir insp in
  let d := {| dcAllowed := true; dcMessage := []; dcRule := []; dcStatements := stmts;
              dcPayload := data; dcMasked := []; dcMaskedCount := 0; dcErr := [] |} in
  let '(g, d) :=
    match err with
    | Some e =>
        ((writeAudit g (ErrorEvent (g_sess g) (B "inspect: " ++ error_text e) now)).1,
         add_err d [InspectFailed e])
    | None => (g, d)
    end in
  if bool_decide (err = Some ErrStreamUnsafe) then
    (set_counters g (g_statements g) (g_denied g + 1),
     denied_by d (B "stream-unsafe") (error_text ErrStreamUnsafe) (dcPayload d) [])
  else
    let '(g, (d, finished)) := inspect_loop g stmts d now in
    if negb finished then (g, d)
    else
      match dir, gcMasker (g_cfg g) with
      | FromServer, Some m =>
          if (0 <? length data)%nat then
            match g_reframer g with
            | Some rf => maskByReframing g rf m d data now
            | None =>
                if substitutionSafe (gcProtocol (g_cfg g))
                then maskBySubstitution g m d data now else (g, d)
            end
          else (g, d)
      | _, _ => (g, d)
      end.

Definition Request (g : Gate C K) (data : bytes) (now : Z) : Gate C K * Decision :=
  inspect g FromClient data now.
Definition Response (g : Gate C K) (data : bytes) (now : Z) : Gate C K * Decision :=
  inspect g FromServer data now.

(** ** Closing *)

Definition Close (g : Gate C K) (now : Z) : Gate C K * option bytes :=
  if g_closed g then (g, None)
  else
    let g := set_closed g (session_End (g_sess g) now) in
    writeAudit g (SessionEndEvent (g_sess g) (g_statements g) (g_denied g) now).

Definition Stats (g : Gate C K) : Z * Z := (g_statements g, g_denied g).

(** [MaskSupported] *)
Definition MaskSupported (reg : Registry C) (as_reframer : C -> option (Reframer C))
    (p : Protocol) : bool :=
  if p =s Protocol.HTTP then true
  else match New reg p with
       | inl _ => false
       | inr i => match as_reframer (i_codec i) with Some _ => true | None => false end
       end.
End Gate.
