(* ===== verification/GateProps.v ===== *)
(** * What the gate promises

    The audit trail is written before a decision is returned; nothing that a
    rule denies, that the trail could not record where recording is mandatory,
    or that would take the stream out of sight is let through; the session's
    opening and closing records are written once and their totals agree with
    the trail. *)

From S2P Require Import Prelude GoStrings GoText Scan Types SqlMeta Inspect Policy Session ContentLength Gate.
From S2P Require Import PgCodec PgFacts PgProps.

Section Gate.
Context {C K : Type} `{Codec C}.
Context (sink_Write : K -> Event -> K * option bytes).
Context (error_text : InspectError -> bytes).

#[local] Abbreviation gate := (Gate C K).
#[local] Abbreviation writeAudit := (writeAudit sink_Write).
#[local] Abbreviation inspect_loop := (inspect_loop sink_Write).
#[local] Abbreviation inspect := (inspect sink_Write error_text).
#[local] Abbreviation Start := (Start sink_Write).
#[local] Abbreviation Close := (Close sink_Write).

(** What a call leaves alone: all but inspectors, counters and the trail. *)
Definition same_setup (g g' : gate) : Prop :=
  g_cfg g' = g_cfg g /\ g_sess g' = g_sess g /\ g_polCtx g' = g_polCtx g /\
  g_reframer g' = g_reframer g /\ g_started g' = g_started g /\ g_closed g' = g_closed g.

#[global] Instance same_setup_preorder : PreOrder same_setup.
Proof.
  split; [done|]. intros a b c (?&?&?&?&?&?) (?&?&?&?&?&?).
  unfold same_setup. repeat split; congruence.
Qed.

Lemma same_setup_evaluate g g' stmt : same_setup g g' -> evaluate g' stmt = evaluate g stmt.
Proof. intros (H1 & _ & H3 & _). unfold evaluate. by rewrite H1, H3. Qed.

Lemma same_setup_event g g' stmt v now :
  same_setup g g' -> verdict_event g' stmt v now = verdict_event g stmt v now.
Proof. intros (_ & H2 & _). unfold verdict_event. by rewrite H2. Qed.

(** The events [evs] were written, in order, with the results [rs]. *)
Definition logged (g g' : gate) (evs : list Event) (rs : list (option bytes)) : Prop :=
  if gcAudit (g_cfg g)
  then length rs = length evs /\ g_log g' = g_log g ++ zip evs rs
  else g_log g' = g_log g.

Lemma logged_nil g : logged g g [] [].
Proof. unfold logged. case_match; [|done]. by rewrite app_nil_r. Qed.

Lemma logged_app g g1 g2 evs1 rs1 evs2 rs2 :
  same_setup g g1 -> logged g g1 evs1 rs1 -> logged g1 g2 evs2 rs2 ->
  logged g g2 (evs1 ++ evs2) (rs1 ++ rs2).
Proof.
  intros (Hc & _). unfold logged. rewrite Hc. case_match; [|congruence].
  intros [L1 ->] [L2 ->]. rewrite !length_app. split; [lia|].
  rewrite zip_with_app by done. by rewrite app_assoc.
Qed.

Lemma writeAudit_spec g ev g' err :
  writeAudit g ev = (g', err) ->
  same_setup g g' /\ g_statements g' = g_statements g /\ g_denied g' = g_denied g /\
  g_client g' = g_client g /\ g_server g' = g_server g /\
  logged g g' [ev] [err] /\ (gcAudit (g_cfg g) = false -> err = None).
Proof.
  unfold Gate.writeAudit, logged. destruct (gcAudit (g_cfg g)).
  - destruct (sink_Write (g_sink g) ev) as [k e]. by intros [= <- <-].
  - by intros [= <- <-].
Qed.

Definition stmt_events (g : gate) (stmts : list Statement) (now : Z) : list Event :=
  map (fun s => verdict_event g s (evaluate g s) now) stmts.

Definition allowed_all (g : gate) (stmts : list Statement) : Prop :=
  Forall (fun s => vDenied (evaluate g s) = false) stmts.

Definition count_denied (g : gate) (stmts : list Statement) : Z :=
  Z.of_nat (length (List.filter (fun s => vDenied (evaluate g s)) stmts)).

(** The decision refuses the statement [s], whose record was written with
    the result [r], by a rule or for want of a record. *)
Definition refused (g : gate) (s : Statement) (r : option bytes) (d d' : Decision) : Prop :=
  dcAllowed d' = false /\ dcPayload d' = [] /\ dcStatements d' = dcStatements d /\
  ((vDenied (evaluate g s) = true /\ dcRule d' = vRule (evaluate g s) /\
    dcMessage d' = vMessage (evaluate g s)) \/
   (gcFailOnAuditError (g_cfg g) = true /\ r <> None /\ dcRule d' = B "audit")).

(** The decision still lets the chunk through. *)
Definition unchanged (d d' : Decision) : Prop :=
  dcAllowed d' = dcAllowed d /\ dcPayload d' = dcPayload d /\
  dcStatements d' = dcStatements d /\ dcMasked d' = dcMasked d.

(** What the statement loop does: the statements judged, [seen], are recorded
    in order and counted; it runs to the end only over allowed statements,
    and otherwise refuses the last one it saw. *)
Definition judged (g : gate) (stmts : list Statement) (d : Decision) (now : Z)
    (g' : gate) (d' : Decision) (fin : bool) : Prop :=
  exists seen rest rs, stmts = seen ++ rest /\ same_setup g g' /\
    logged g g' (stmt_events g seen now) rs /\
    g_statements g' = (g_statements g + Z.of_nat (length seen))%Z /\
    g_denied g' = (g_denied g + count_denied g seen)%Z /\
    if fin
    then rest = [] /\ allowed_all g stmts /\ unchanged d d' /\
         (gcFailOnAuditError (g_cfg g) = true -> gcAudit (g_cfg g) = true ->
            Forall (fun r => r = None) rs)
    else exists pre s rs0 r, seen = pre ++ [s] /\ rs = rs0 ++ [r] /\ allowed_all g pre /\
           refused g s r d d'.

Lemma judged_nil g d now : judged g [] d now g d true.
Proof.
  exists [], [], []. split; [done|]. split; [done|]. split; [apply logged_nil|].
  unfold count_denied, allowed_all. simpl. repeat split; try done; lia.
Qed.

Lemma count_denied_cons g s l : count_denied g (s :: l) = (count_denied g [s] + count_denied g l)%Z.
Proof. unfold count_denied. simpl. case_match; simpl; lia. Qed.

Section Step.
Context (g g2 : gate) (s : Statement) (now : Z) (err : option bytes).
Context (Hw : writeAudit (set_counters g (g_statements g + 1)
  (if vDenied (evaluate g s) then g_denied g + 1 else g_denied g))
  (verdict_event g s (evaluate g s) now) = (g2, err)).

Lemma step_setup : same_setup g g2.
Proof. by destruct (writeAudit_spec _ _ _ _ Hw). Qed.

Lemma step_logged : logged g g2 [verdict_event g s (evaluate g s) now] [err].
Proof. by destruct (writeAudit_spec _ _ _ _ Hw) as (_ & _ & _ & _ & _ & Hl & _). Qed.

Lemma step_counters :
  g_statements g2 = (g_statements g + 1)%Z /\ g_denied g2 = (g_denied g + count_denied g [s])%Z.
Proof.
  destruct (writeAudit_spec _ _ _ _ Hw) as (_ & -> & -> & _). split; [done|].
  unfold count_denied. simpl. destruct (vDenied (evaluate g s)); simpl; lia.
Qed.

Lemma step_stmt_events stmts : stmt_events g2 stmts now = stmt_events g stmts now.
Proof.
  apply map_ext. intros q.
  by rewrite (same_setup_evaluate _ _ _ step_setup), (same_setup_event _ _ _ _ _ step_setup).
Qed.

Lemma step_count_denied stmts : count_denied g2 stmts = count_denied g stmts.
Proof.
  unfold count_denied. do 2 f_equal. apply filter_ext. intros q.
  by rewrite (same_setup_evaluate _ _ _ step_setup).
Qed.

Lemma step_allowed_all stmts : allowed_all g2 stmts <-> allowed_all g stmts.
Proof.
  apply Forall_iff. intros q. by rewrite (same_setup_evaluate _ _ _ step_setup).
Qed.

(** The loop stops at [s]. *)
Lemma judged_stop stmts d d' : refused g s err d d' -> judged g (s :: stmts) d now g2 d' false.
Proof.
  intros Hr. exists [s], stmts, [err]. destruct step_counters as [-> ->].
  split; [done|]. split; [apply step_setup|]. split; [apply step_logged|].
  split; [simpl; lia|]. split; [done|].
  exists [], s, [], err. split; [done|]. split; [done|]. split; [constructor|done].
Qed.

(** The loop goes on behind [s]. *)
Lemma judged_go stmts d d0 g' d' fin :
  vDenied (evaluate g s) = false -> unchanged d d0 ->
  (gcFailOnAuditError (g_cfg g) = true -> gcAudit (g_cfg g) = true -> err = None) ->
  judged g2 stmts d0 now g' d' fin -> judged g (s :: stmts) d now g' d' fin.
Proof.
  intros Hd (Ha & Hp & Hds & Hm) He (seen & rest & rs & -> & Hs' & Hl' & Hn & Hdn & Hfin).
  rewrite step_stmt_events in Hl'. pose proof step_setup as Hs2.
  exists (s :: seen), rest, (err :: rs). split; [done|]. split; [by etrans|].
  split; [apply (logged_app _ _ _ [_] [err] _ _ Hs2 step_logged Hl')|].
  rewrite step_count_denied in Hdn. destruct step_counters as [C1 C2].
  rewrite count_denied_cons, length_cons. split; [lia|]. split; [lia|].
  pose proof Hs2 as (Hc & _). rewrite Hc in Hfin. destruct fin.
  - destruct Hfin as (-> & Hall & (H1 & H2 & H3 & H4) & H5). split; [done|].
    split; [constructor; [done|by apply step_allowed_all]|].
    split; [unfold unchanged; repeat split; congruence|].
    intros Hf Hau. constructor; [by apply He|by apply H5].
  - destruct Hfin as (pre & q & rs0 & r & -> & -> & Hall & H1 & H2 & H3 & H4).
    exists (s :: pre), q, (err :: rs0), r. split; [done|]. split; [done|].
    split; [constructor; [done|by apply step_allowed_all]|].
    rewrite !(same_setup_evaluate g g2), Hc in H4 by done.
    unfold refused. repeat split; [done|done|congruence|done].
Qed.
End Step.

Lemma inspect_loop_spec g stmts d now g' d' fin :
  inspect_loop g stmts d now = (g', (d', fin)) -> judged g stmts d now g' d' fin.
Proof.
  revert g d. induction stmts as [|s stmts IH]; intros g d; cbn [Gate.inspect_loop].
  { intros [= <- <- <-]. apply judged_nil. }
  set (g1 := set_counters g _ _).
  rewrite (same_setup_event g g1) by done.
  destruct (writeAudit g1 (verdict_event g s (evaluate g s) now)) as [g2 err] eqn:Ew.
  pose proof (step_setup _ _ _ _ _ Ew) as (Hc & _). rewrite Hc.
  pose proof (judged_stop _ _ _ _ _ Ew) as Hstop. pose proof (judged_go _ _ _ _ _ Ew) as Hgo.
  assert (forall d0, unchanged d d0 ->
    (gcFailOnAuditError (g_cfg g) = true -> gcAudit (g_cfg g) = true -> err = None) ->
    (if vDenied (evaluate g s)
     then (g2, (denied_by d0 (vRule (evaluate g s)) (vMessage (evaluate g s)) []
                  (policy_errs (evaluate g s)), false))
     else inspect_loop g2 stmts (add_err d0 (policy_errs (evaluate g s))) now) = (g', (d', fin)) ->
    judged g (s :: stmts) d now g' d' fin) as Hrest.
  { intros d0 Hu He. destruct (vDenied (evaluate g s)) eqn:Ed.
    - intros [= <- <- <-]. apply Hstop. destruct Hu as (_ & _ & Hs & _).
      repeat split; [done|]. left. done.
    - intros E. eapply (Hgo _ _ (add_err d0 _)); [done|done|done|by apply IH]. }
  destruct err as [msg|]; [|by apply Hrest].
  destruct (gcFailOnAuditError (g_cfg g)) eqn:Ef; [|by apply Hrest].
  intros [= <- <- <-]. apply Hstop. repeat split. by right.
Qed.

(** ** Masking leaves the judgement alone *)

(** Events that record neither a statement nor the ends of the session. *)
Definition side_event (ev : Event) : Prop := evKind ev = KindMasked \/ evKind ev = KindError.

(** A call that only writes side events. *)
Definition side_effects (g g' : gate) : Prop :=
  same_setup g g' /\ g_statements g' = g_statements g /\ g_denied g' = g_denied g /\
  exists evs rs, logged g g' evs rs /\ Forall side_event evs.

Lemma side_effects_refl g : side_effects g g.
Proof. repeat split. exists [], []. split; [apply logged_nil|done]. Qed.

Lemma side_effects_trans g1 g2 g3 :
  side_effects g1 g2 -> side_effects g2 g3 -> side_effects g1 g3.
Proof.
  intros (S1 & N1 & D1 & evs1 & rs1 & L1 & F1) (S2 & N2 & D2 & evs2 & rs2 & L2 & F2).
  split; [by etrans|]. split; [congruence|]. split; [congruence|].
  exists (evs1 ++ evs2), (rs1 ++ rs2). split; [by eapply logged_app|by apply Forall_app].
Qed.

Lemma side_write g ev : side_event ev -> side_effects g (writeAudit g ev).1.
Proof.
  intros Hev. destruct (writeAudit g ev) as [g' err] eqn:E.
  destruct (writeAudit_spec _ _ _ _ E) as (H1 & H2 & H3 & _ & _ & H4 & _).
  split; [done|]. split; [done|]. split; [done|]. exists [ev], [err]. split; [done|by constructor].
Qed.

Lemma side_inspector g dir i : side_effects g (set_inspector g dir i).
Proof. repeat split. exists [], []. split; [|done]. unfold logged. case_match; simpl; by rewrite ?app_nil_r. Qed.

(** What a masked decision keeps. *)
Definition same_judgement (d d' : Decision) : Prop :=
  dcAllowed d' = dcAllowed d /\ dcStatements d' = dcStatements d.

Lemma maskBySubstitution_spec g m d data now g' d' :
  maskBySubstitution sink_Write g m d data now = (g', d') ->
  side_effects g g' /\ same_judgement d d'.
Proof.
  unfold maskBySubstitution. destruct (mk_Mask m data) as [[out ents] n].
  destruct (n =? 0)%Z; [intros [= <- <-]; split; [apply side_effects_refl|done]|].
  destruct (retagContentLength _ _); intros [= <- <-]; (split; [|done]);
    apply side_write; [by left|by right].
Qed.

Lemma maskByReframing_spec g rf m d data now g' d' :
  maskByReframing sink_Write error_text g rf m d data now = (g', d') ->
  side_effects g g' /\ same_judgement d d'.
Proof.
  unfold maskByReframing. destruct (rf_Rewrite rf _ data _) as [c r].
  set (g0 := set_inspector g FromServer _).
  set (p := match rf_err r with Some e => _ | None => _ end).
  assert (side_effects g p.1 /\ same_judgement d p.2) as [Hs Hj].
  { unfold p. destruct (rf_err r); (split; [|done]); cbn [fst]; [|apply side_inspector].
    eapply side_effects_trans; [apply (side_inspector g)|]. apply side_write. by right. }
  destruct p as [g1 d1]. cbn [fst snd] in *. destruct (0 <? _)%Z; intros [= <- <-].
  - split; [|done]. eapply side_effects_trans; [exact Hs|]. apply side_write. by left.
  - done.
Qed.

(** ** One chunk *)

Definition side_of (g : gate) (dir : Direction) : Inspector C :=
  match dir with FromServer => g_server g | FromClient => g_client g end.

(** The events of a call: side events around the statements judged. *)
Definition recorded (g g' : gate) (seen : list Statement) (rs : list (option bytes)) (now : Z) : Prop :=
  exists evs0 rs0 evs1 rs1, Forall side_event evs0 /\ Forall side_event evs1 /\
    (gcAudit (g_cfg g) = true ->
       length rs0 = length evs0 /\ length rs = length seen /\ length rs1 = length evs1) /\
    logged g g' (evs0 ++ stmt_events g seen now ++ evs1) (rs0 ++ rs ++ rs1).

Lemma recorded_intro g g0 g1 g2 seen rs now :
  side_effects g g0 -> same_setup g0 g1 -> logged g0 g1 (stmt_events g0 seen now) rs ->
  side_effects g1 g2 -> recorded g g2 seen rs now.
Proof.
  intros (S0 & _ & _ & evs0 & rs0 & L0 & F0) S1 L1 (S2 & _ & _ & evs1 & rs1 & L2 & F2).
  assert (stmt_events g0 seen now = stmt_events g seen now) as Hse.
  { apply map_ext. intros q. by rewrite (same_setup_evaluate _ _ _ S0), (same_setup_event _ _ _ _ _ S0). }
  rewrite Hse in L1. exists evs0, rs0, evs1, rs1. split; [done|]. split; [done|]. split.
  - intros Ha. unfold logged in *. destruct S0 as (C0 & _). destruct S1 as (C1 & _).
    rewrite C1, C0, Ha in L2. rewrite C0, Ha in L1. rewrite Ha in L0.
    destruct L0 as [L0 _], L1 as [L1 _], L2 as [L2 _]. unfold stmt_events in L1.
    by rewrite length_map in L1.
  - eapply logged_app; [exact S0|exact L0|]. eapply logged_app; [exact S1|exact L1|exact L2].
Qed.

(** The masking stage of [inspect]. *)
Lemma mask_stage_spec g dir d data now g' d' :
  match dir, gcMasker (g_cfg g) with
  | FromServer, Some m =>
      if (0 <? length data)%nat then
        match g_reframer g with
        | Some rf => maskByReframing sink_Write error_text g rf m d data now
        | None => if substitutionSafe (gcProtocol (g_cfg g))
                  then maskBySubstitution sink_Write g m d data now else (g, d)
        end
      else (g, d)
  | _, _ => (g, d)
  end = (g', d') ->
  side_effects g g' /\ same_judgement d d' /\ (dir = FromClient -> d' = d).
Proof.
  destruct dir; [intros [= <- <-]; split; [apply side_effects_refl|done]|].
  destruct (gcMasker (g_cfg g)); [|intros [= <- <-]; split; [apply side_effects_refl|done]].
  destruct (0 <? _)%nat; [|intros [= <- <-]; split; [apply side_effects_refl|done]].
  destruct (g_reframer g).
  - intros E. by apply maskByReframing_spec in E as [? ?].
  - destruct (substitutionSafe _).
    + intros E. by apply maskBySubstitution_spec in E as [? ?].
    + intros [= <- <-]. split; [apply side_effects_refl|done].
Qed.

(** What one call of [Request] or [Response] does. *)
Lemma inspect_spec g dir data now g' d insp stmts err :
  Inspect (side_of g dir) dir data = (insp, (stmts, err)) ->
  inspect g dir data now = (g', d) ->
  same_setup g g' /\ dcStatements d = stmts /\
  if bool_decide (err = Some ErrStreamUnsafe)
  then dcAllowed d = false /\ dcRule d = B "stream-unsafe" /\ recorded g g' [] [] now /\
       g_statements g' = g_statements g /\ g_denied g' = (g_denied g + 1)%Z
  else exists seen rest rs, stmts = seen ++ rest /\ recorded g g' seen rs now /\
       g_statements g' = (g_statements g + Z.of_nat (length seen))%Z /\
       g_denied g' = (g_denied g + count_denied g seen)%Z /\
       if dcAllowed d
       then rest = [] /\ allowed_all g stmts /\ (dir = FromClient -> dcPayload d = data) /\
            (gcFailOnAuditError (g_cfg g) = true -> gcAudit (g_cfg g) = true ->
               Forall (fun r => r = None) rs)
       else exists pre s rs0 r, seen = pre ++ [s] /\ rs = rs0 ++ [r] /\ allowed_all g pre /\
              refused g s r d d.
Proof.
  intros Ei. unfold Gate.inspect. fold (side_of g dir). rewrite Ei.
  set (d0 := Build_Decision true [] [] stmts data [] 0 []). set (g0 := set_inspector g dir insp).
  set (p := match err with Some e => _ | None => _ end).
  assert (side_effects g p.1 /\ unchanged d0 p.2) as [Hs0 Hu0].
  { unfold p. destruct err; (split; [|done]); cbn [fst]; [|apply side_inspector].
    eapply side_effects_trans; [apply (side_inspector g)|]. apply side_write. by right. }
  clearbody p. destruct p as [g1 d1]. cbn [fst snd] in *.
  pose proof Hs0 as (S0 & N0 & D0 & _). destruct Hu0 as (U1 & U2 & U3 & U4).
  case_bool_decide as Hun.
  { intros [= <- <-]. split; [done|]. split; [done|]. split; [done|]. split; [done|].
    split; [|simpl; split; [done|lia]].
    apply (recorded_intro g g1 (set_counters g1 (g_statements g1) (g_denied g1 + 1)) _ [] [] now Hs0);
      [done| |apply side_effects_refl].
    unfold logged. case_match; simpl; by rewrite ?app_nil_r. }
  destruct (inspect_loop g1 stmts d1 now) as [g2 [d2 fin]] eqn:El.
  apply inspect_loop_spec in El as (seen & rest & rs & Hst & S1 & L1 & N1 & D1 & Hfin).
  assert (forall l, allowed_all g1 l -> allowed_all g l) as Hal.
  { intros l Hl. eapply Forall_impl; [exact Hl|]. intros q. simpl.
    by rewrite (same_setup_evaluate _ _ _ S0). }
  assert (count_denied g1 seen = count_denied g seen) as Hcd.
  { unfold count_denied. do 2 f_equal. apply filter_ext. intros q.
    by rewrite (same_setup_evaluate _ _ _ S0). }
  rewrite Hcd, D0 in D1. rewrite N0 in N1. pose proof S0 as (C0 & _).
  destruct fin; cbn [negb].
  - destruct Hfin as (-> & Hall & (V1 & V2 & V3 & V4) & Hf). intros Em.
    apply mask_stage_spec in Em as (Hs2 & (J1 & J2) & Hcl). pose proof Hs2 as (S2 & N2 & D2 & _).
    split; [etrans; [done|]; by etrans|]. split; [by rewrite J2, V3, U3|].
    exists seen, [], rs. split; [done|]. split; [by eapply recorded_intro|].
    rewrite N2, D2. split; [done|]. split; [done|]. rewrite J1, V1, U1. cbn [dcAllowed d0].
    split; [done|]. split; [by apply Hal|]. rewrite C0 in Hf. split; [|done].
    intros Hd. rewrite (Hcl Hd), V2, U2. done.
  - destruct Hfin as (pre & q & rs0 & r & Hseen & Hrs & Hall & R1 & R2 & R3 & R4). intros [= <- <-].
    split; [by etrans|]. split; [by rewrite R3, U3|]. exists seen, rest, rs.
    split; [done|]. split; [eapply recorded_intro; [done..|apply side_effects_refl]|].
    split; [done|]. split; [done|]. rewrite R1. exists pre, q, rs0, r.
    split; [done|]. split; [done|]. split; [by apply Hal|].
    rewrite !(same_setup_evaluate g g1), C0 in R4 by done. done.
Qed.

(** ** The life of a session *)

Inductive gate_op := DoStart | DoRequest (data : bytes) | DoResponse (data : bytes)
  | DoFlush | DoClose.

(** One operation at its time. *)
Definition gate_step (g : gate) (op : gate_op * Z) : gate :=
  match op.1 with
  | DoStart => (Start g).1
  | DoRequest data => (Request sink_Write error_text g data op.2).1
  | DoResponse data => (Response sink_Write error_text g data op.2).1
  | DoFlush => (FlushResponse g).1
  | DoClose => (Close g op.2).1
  end.

Definition gate_run (g : gate) (ops : list (gate_op * Z)) : gate := fold_left gate_step ops g.

(** How many records of a kind a trail holds. *)
Definition count_kind (k : EventKind) (log : list (Event * option bytes)) : Z :=
  Z.of_nat (length (List.filter (fun p => bool_decide (evKind p.1 = k)) log)).

Definition count_statements (log : list (Event * option bytes)) : Z :=
  (count_kind KindStatement log + count_kind KindViolation log)%Z.

Lemma count_kind_app k l1 l2 : count_kind k (l1 ++ l2) = (count_kind k l1 + count_kind k l2)%Z.
Proof. unfold count_kind. rewrite List.filter_app, length_app. lia. Qed.

Lemma count_kind_zip k evs (rs : list (option bytes)) :
  length rs = length evs ->
  count_kind k (zip evs rs) =
    Z.of_nat (length (List.filter (fun ev => bool_decide (evKind ev = k)) evs)).
Proof.
  revert rs. induction evs as [|ev evs IH]; intros [|r rs] Hl; simplify_eq/=; [done|].
  unfold count_kind in *. cbn [List.filter fst]. specialize (IH rs Hl).
  case_bool_decide; cbn [length]; lia.
Qed.

Lemma count_side k evs :
  Forall side_event evs -> k <> KindMasked -> k <> KindError ->
  length (List.filter (fun ev => bool_decide (evKind ev = k)) evs) = 0.
Proof.
  intros Hs H1 H2. induction Hs as [|ev evs Hev Hs IH]; [done|]. cbn [List.filter].
  rewrite bool_decide_false; [done|]. destruct Hev; congruence.
Qed.

Lemma verdict_event_kind (g : gate) s now :
  evKind (verdict_event g s (evaluate g s) now) =
    if vDenied (evaluate g s) then KindViolation else KindStatement.
Proof. unfold verdict_event. case_bool_decide; simpl; by destruct (vDenied _). Qed.

Lemma count_stmt_events (g : gate) seen now k :
  Z.of_nat (length (List.filter (fun ev => bool_decide (evKind ev = k)) (stmt_events g seen now))) =
  match k with
  | KindViolation => count_denied g seen
  | KindStatement => (Z.of_nat (length seen) - count_denied g seen)%Z
  | _ => 0%Z
  end.
Proof.
  unfold count_denied. induction seen as [|s seen IH]; [by destruct k|].
  cbn [stmt_events map List.filter length]. rewrite verdict_event_kind.
  destruct (vDenied (evaluate g s)), k; case_bool_decide; try done; cbn [length] in *;
    unfold stmt_events in IH; lia.
Qed.

(** What a call adds to the trail. *)
Lemma recorded_log g g' seen rs now :
  gcAudit (g_cfg g) = true -> recorded g g' seen rs now ->
  exists new, g_log g' = g_log g ++ new /\
    count_kind KindSessionStart new = 0%Z /\ count_kind KindSessionEnd new = 0%Z /\
    count_statements new = Z.of_nat (length seen) /\
    count_kind KindViolation new = count_denied g seen.
Proof.
  intros Ha (evs0 & rs0 & evs1 & rs1 & F0 & F1 & Hl & L). destruct (Hl Ha) as (L0 & Ls & L1).
  unfold logged in L. rewrite Ha in L. destruct L as [Hlen ->].
  eexists. split; [done|].
  assert (forall k, k <> KindMasked -> k <> KindError ->
    count_kind k (zip (evs0 ++ stmt_events g seen now ++ evs1) (rs0 ++ rs ++ rs1)) =
    match k with
    | KindViolation => count_denied g seen
    | KindStatement => (Z.of_nat (length seen) - count_denied g seen)%Z
    | _ => 0%Z
    end) as Hk.
  { intros k H1 H2. rewrite count_kind_zip by done. rewrite !List.filter_app, !length_app.
    rewrite (count_side k evs0), (count_side k evs1) by done.
    rewrite <- (count_stmt_events g seen now k). lia. }
  unfold count_statements. rewrite !Hk by done. repeat split; lia.
Qed.

(** The chunks whose decoding reports an unsafe stream: they are refused without
    a statement to record. *)
Definition stream_unsafe (g : gate) (op : gate_op * Z) : bool :=
  match op.1 with
  | DoRequest data => bool_decide ((Inspect (g_client g) FromClient data).2.2 = Some ErrStreamUnsafe)
  | DoResponse data => bool_decide ((Inspect (g_server g) FromServer data).2.2 = Some ErrStreamUnsafe)
  | _ => false
  end.

Fixpoint unsafe_chunks (g : gate) (ops : list (gate_op * Z)) : Z :=
  match ops with
  | [] => 0
  | op :: ops => (if stream_unsafe g op then 1 else 0) + unsafe_chunks (gate_step g op) ops
  end.

(** The operations up to the first [Close]. *)
Fixpoint before_close (ops : list (gate_op * Z)) : list (gate_op * Z) :=
  match ops with
  | [] => []
  | (DoClose, _) :: _ => []
  | op :: ops => op :: before_close ops
  end.

(** A closing record carries the totals of the trail [pre] before it; its
    refusals are the violations there and the [unsafe] chunks. *)
Definition totals_of (unsafe : Z) (pre : list (Event * option bytes)) (ev : Event) : Prop :=
  evStatementCount ev = count_statements pre /\
  evDeniedCount ev = (count_kind KindViolation pre + unsafe)%Z.

(** The trail of a session in which [unsafe] chunks were refused as unsafe,
    [at_close] of them when it was closed: one opening record once started, one
    closing record once closed, the counters agree with the records, and a
    closing record carries the totals of the trail before it. *)
Record trail_ok (g : gate) (unsafe at_close : Z) : Prop := {
  tr_start : count_kind KindSessionStart (g_log g) = if g_started g then 1%Z else 0%Z;
  tr_end : count_kind KindSessionEnd (g_log g) = if g_closed g then 1%Z else 0%Z;
  tr_statements : g_statements g = count_statements (g_log g);
  tr_denied : g_denied g = (count_kind KindViolation (g_log g) + unsafe)%Z;
  tr_totals : forall pre ev r post, g_log g = pre ++ (ev, r) :: post ->
    evKind ev = KindSessionEnd -> totals_of at_close pre ev;
}.

Lemma count_kind_none k log ev r :
  count_kind k log = 0%Z -> (ev, r) ∈ log -> evKind ev <> k.
Proof.
  unfold count_kind. intros Hc Hin Hk.
  assert (List.In (ev, r) (List.filter (fun p => bool_decide (evKind p.1 = k)) log)) as Hf.
  { apply filter_In. split; [by apply list_elem_of_In|]. by apply bool_decide_eq_true. }
  destruct (List.filter _ log); [done|]. simpl in Hc. lia.
Qed.

(** Appending records without a closing one keeps the totals right. *)
Lemma totals_app c (log new : list (Event * option bytes)) :
  (forall pre ev r post, log = pre ++ (ev, r) :: post ->
     evKind ev = KindSessionEnd -> totals_of c pre ev) ->
  count_kind KindSessionEnd new = 0%Z ->
  forall pre ev r post, log ++ new = pre ++ (ev, r) :: post ->
    evKind ev = KindSessionEnd -> totals_of c pre ev.
Proof.
  intros Hlog Hnew pre ev r post E Hk.
  apply app_eq_inv in E as [(q & Hpre & Hrest)|(q & Hpre & Hrest)].
  - destruct q as [|p q].
    + exfalso. eapply (count_kind_none KindSessionEnd new ev r); [done| |done].
      simpl in Hrest. rewrite <- Hrest. left.
    + injection Hrest as <- _. by eapply Hlog.
  - exfalso. eapply (count_kind_none KindSessionEnd new ev r); [done| |done].
    rewrite Hrest. apply elem_of_app. right. left.
Qed.

(** Before the closing record the second number says nothing. *)
Lemma trail_open g u c c' : g_closed g = false -> trail_ok g u c -> trail_ok g u c'.
Proof.
  intros Hc [T1 T2 T3 T4 T5]. split; try done. intros pre ev r post E Hk. exfalso. rewrite Hc in T2.
  eapply (count_kind_none KindSessionEnd (g_log g) ev r); [done| |done]. rewrite E. apply elem_of_app. right. left.
Qed.

Lemma trail_inspect g dir data now u c :
  gcAudit (g_cfg g) = true -> trail_ok g u c ->
  trail_ok (inspect g dir data now).1
    (u + if bool_decide ((Inspect (side_of g dir) dir data).2.2 = Some ErrStreamUnsafe) then 1 else 0) c.
Proof.
  intros Ha [T1 T2 T3 T4 T5]. destruct (inspect g dir data now) as [g' d] eqn:E. cbn [fst].
  destruct (Inspect (side_of g dir) dir data) as [insp [stmts err]] eqn:Ei.
  destruct (inspect_spec _ _ _ _ _ _ _ _ _ Ei E) as ((_ & _ & _ & _ & Hst & Hcl) & _ & Hc).
  assert (exists seen rs, recorded g g' seen rs now /\
    g_statements g' = (g_statements g + Z.of_nat (length seen))%Z /\
    g_denied g' = (g_denied g + count_denied g seen
      + if bool_decide ((insp, (stmts, err)).2.2 = Some ErrStreamUnsafe) then 1 else 0)%Z)
    as (seen & rs & Hr & Hn & Hd).
  { cbn [snd]. case_bool_decide.
    - destruct Hc as (_ & _ & Hr & -> & ->). exists [], []. split; [done|].
      unfold count_denied. simpl. lia.
    - destruct Hc as (seen & rest & rs & _ & Hr & -> & -> & _). exists seen, rs.
      split; [done|]. lia. }
  destruct (recorded_log _ _ _ _ _ Ha Hr) as (new & Hnew & N1 & N2 & N3 & N4).
  split; rewrite ?Hnew, ?count_kind_app, ?Hst, ?Hcl.
  - rewrite T1, N1. lia.
  - rewrite T2, N2. lia.
  - unfold count_statements in *. rewrite !count_kind_app. lia.
  - lia.
  - by apply totals_app.
Qed.

Lemma logged_one g g' ev err :
  gcAudit (g_cfg g) = true -> logged g g' [ev] [err] -> g_log g' = g_log g ++ [(ev, err)].
Proof. unfold logged. intros -> [_ ->]. done. Qed.

Lemma trail_start g u c : gcAudit (g_cfg g) = true -> trail_ok g u c -> trail_ok (Start g).1 u c.
Proof.
  intros Ha [T1 T2 T3 T4 T5]. unfold Gate.Start. destruct (g_started g) eqn:Es.
  { split; cbn [fst]; rewrite ?Es; assumption. }
  destruct (writeAudit (set_started g) (SessionStartEvent (g_sess g))) as [g' err] eqn:E. cbn [fst].
  destruct (writeAudit_spec _ _ _ _ E) as ((_ & _ & _ & _ & Hst & Hcl) & Hn & Hd & _ & _ & Hl & _).
  apply logged_one in Hl; [|done]. cbn [g_log set_started g_started g_closed g_statements g_denied] in *.
  unfold count_statements in *. split; rewrite ?Hl, ?count_kind_app, ?Hst, ?Hcl, ?Hn, ?Hd.
  - rewrite T1. done.
  - rewrite T2. unfold count_kind. simpl. lia.
  - unfold count_statements. rewrite !count_kind_app. unfold count_kind at 2 4. simpl. lia.
  - unfold count_kind at 2. simpl. lia.
  - by apply totals_app.
Qed.

Lemma trail_close g now u c : gcAudit (g_cfg g) = true -> trail_ok g u c ->
  trail_ok (Close g now).1 u (if g_closed g then c else u).
Proof.
  intros Ha [T1 T2 T3 T4 T5]. unfold Gate.Close. destruct (g_closed g) eqn:Ec.
  { split; cbn [fst]; rewrite ?Ec; assumption. }
  set (g1 := set_closed g _).
  destruct (writeAudit g1 _) as [g' err] eqn:E. cbn [fst].
  destruct (writeAudit_spec _ _ _ _ E) as ((_ & _ & _ & _ & Hst & Hcl) & Hn & Hd & _ & _ & Hl & _).
  apply logged_one in Hl; [|done]. unfold g1 in *.
  cbn [g_log set_closed g_started g_closed g_statements g_denied g_sess] in *.
  unfold count_statements in *. split; rewrite ?Hl, ?count_kind_app, ?Hst, ?Hcl, ?Hn, ?Hd.
  - rewrite T1. unfold count_kind. simpl. lia.
  - rewrite T2. done.
  - unfold count_statements. rewrite !count_kind_app. unfold count_kind at 2 4. simpl. lia.
  - unfold count_kind at 2. simpl. lia.
  - intros pre ev r post Hx Hk. symmetry in Hx.
    destruct post as [|q post _] using rev_ind.
    + apply app_inj_tail in Hx as [-> [= -> ->]].
      split; cbn [evStatementCount evDeniedCount SessionEndEvent]; unfold count_statements; lia.
    + rewrite app_comm_cons, app_assoc in Hx. apply app_inj_tail in Hx as [Hx _]. exfalso.
      eapply (count_kind_none KindSessionEnd (g_log g) ev r); [done| |done].
      rewrite <- Hx. apply elem_of_app. right. left.
Qed.

Lemma gate_step_audit g op : g_cfg (gate_step g op) = g_cfg g.
Proof.
  unfold gate_step. destruct op as [[|data|data| |] now]; cbn [fst snd].
  - unfold Gate.Start. destruct (g_started g); [done|].
    destruct (writeAudit _ _) eqn:E. apply writeAudit_spec in E as ((Hc & _) & _). done.
  - unfold Request. destruct (inspect g FromClient data now) as [g' d] eqn:E.
    destruct (Inspect (side_of g FromClient) FromClient data) as [i [st er]] eqn:Ei.
    by destruct (inspect_spec _ _ _ _ _ _ _ _ _ Ei E) as ((Hc & _) & _).
  - unfold Response. destruct (inspect g FromServer data now) as [g' d] eqn:E.
    destruct (Inspect (side_of g FromServer) FromServer data) as [i [st er]] eqn:Ei.
    by destruct (inspect_spec _ _ _ _ _ _ _ _ _ Ei E) as ((Hc & _) & _).
  - unfold FlushResponse. destruct (g_reframer g); [|done]. by destruct (rf_Flush _ _ _).
  - unfold Gate.Close. destruct (g_closed g); [done|].
    destruct (writeAudit _ _) eqn:E. apply writeAudit_spec in E as ((Hc & _) & _). done.
Qed.

Definition closes (op : gate_op) : bool := match op with DoClose => true | _ => false end.

Lemma gate_step_closed g op : g_closed (gate_step g op) = g_closed g || closes op.1.
Proof.
  assert (forall dir data now, g_closed (inspect g dir data now).1 = g_closed g) as Hi.
  { intros dir data now. destruct (inspect g dir data now) as [g' d] eqn:E.
    destruct (Inspect (side_of g dir) dir data) as [i [st er]] eqn:Ei.
    by destruct (inspect_spec _ _ _ _ _ _ _ _ _ Ei E) as ((_ & _ & _ & _ & _ & Hc) & _). }
  unfold gate_step. destruct op as [[|data|data| |] now]; cbn [fst snd closes]; rewrite ?orb_false_r; try apply Hi.
  - unfold Gate.Start. destruct (g_started g); [done|].
    destruct (writeAudit _ _) eqn:E. by apply writeAudit_spec in E as ((_ & _ & _ & _ & _ & Hc) & _).
  - unfold FlushResponse. destruct (g_reframer g); [|done]. by destruct (rf_Flush _ _ _).
  - unfold Gate.Close. destruct (g_closed g) eqn:Ec; [done|].
    destruct (writeAudit _ _) eqn:E. by apply writeAudit_spec in E as ((_ & _ & _ & _ & _ & Hc) & _).
Qed.

Lemma trail_step g op u c : gcAudit (g_cfg g) = true -> trail_ok g u c ->
  trail_ok (gate_step g op) (u + if stream_unsafe g op then 1 else 0)
    (if closes op.1 then if g_closed g then c else u else c).
Proof.
  intros Ha Ht. unfold gate_step, stream_unsafe.
  destruct op as [[|data|data| |] now]; cbn [fst snd closes]; rewrite ?Z.add_0_r.
  - by apply trail_start.
  - by apply (trail_inspect g FromClient).
  - by apply (trail_inspect g FromServer).
  - unfold FlushResponse. destruct (g_reframer g); [|done]. destruct (rf_Flush _ _ _).
    by destruct Ht.
  - by apply trail_close.
Qed.

Lemma trail_run ops : forall g u c, gcAudit (g_cfg g) = true -> trail_ok g u c ->
  trail_ok (gate_run g ops) (u + unsafe_chunks g ops)
    (if g_closed g then c else u + unsafe_chunks g (before_close ops)).
Proof.
  induction ops as [|op ops IH]; intros g u c Ha Ht.
  { cbn. rewrite Z.add_0_r. destruct (g_closed g) eqn:E; [done|]. by apply (trail_open g u c). }
  pose proof (trail_step g op u c Ha Ht) as Hs. pose proof (gate_step_closed g op) as Hc.
  change (gate_run g (op :: ops)) with (gate_run (gate_step g op) ops).
  assert (gcAudit (g_cfg (gate_step g op)) = true) as Ha' by (by rewrite gate_step_audit).
  specialize (IH _ _ _ Ha' Hs). cbn [unsafe_chunks]. rewrite Z.add_assoc. rewrite Hc in IH.
  destruct (g_closed g) eqn:Eg; cbn [orb] in IH.
  { by destruct (closes op.1). }
  destruct op as [op now]. cbn [fst] in *. destruct (closes op) eqn:Eo.
  - destruct op; try done. cbn [before_close unsafe_chunks]. rewrite !Z.add_0_r. cbn [stream_unsafe fst] in IH.
    by rewrite Z.add_0_r in IH.
  - assert (before_close ((op, now) :: ops) = (op, now) :: before_close ops) as -> by (by destruct op).
    cbn [unsafe_chunks]. by rewrite Z.add_assoc.
Qed.

Lemma unsafe_chunks_nonneg ops : forall g, (0 <= unsafe_chunks g ops)%Z.
Proof. induction ops as [|op ops IH]; intros g; cbn [unsafe_chunks]; [done|]. specialize (IH (gate_step g op)). case_match; lia. Qed.

Lemma trail_run_some g ops u c : gcAudit (g_cfg g) = true -> (0 <= u)%Z -> trail_ok g u c ->
  exists u' c', (0 <= u')%Z /\ trail_ok (gate_run g ops) u' c'.
Proof.
  intros Ha Hu Ht. eexists _, _. split; [|by apply (trail_run ops g u c)].
  pose proof (unsafe_chunks_nonneg ops g). lia.
Qed.

Lemma count_denied_allowed (g : gate) l : allowed_all g l -> count_denied g l = 0%Z.
Proof.
  intros Hl. unfold count_denied. induction Hl as [|s l Hs Hl IH]; [done|]. simpl. by rewrite Hs.
Qed.

(** A gate just built. *)
Lemma gate_New_fresh reg as_reframer sess cfg (sink : K) (g : gate) :
  gate_New reg as_reframer sess cfg sink = inr g ->
  gcAudit (g_cfg g) = gcAudit cfg /\ g_log g = [] /\ g_started g = false /\
  g_closed g = false /\ g_statements g = 0%Z /\ g_denied g = 0%Z.
Proof.
  unfold gate_New. repeat case_match; try done; intros [= <-]; done.
Qed.

(** ** What a decision means *)

(** C23 What is let through was judged and recorded: when [Request] or
    [Response] allows a chunk, decoding it did not report an unsafe stream,
    the policy allows every statement decoded from it, each of them was
    offered to the audit sink in order before the decision was returned,
    and where the gate must fail on an audit error every one of those writes
    succeeded; request bytes are forwarded as they came. *)
Theorem allowed_is_judged_and_recorded g dir data now g' d insp stmts err :
  Inspect (side_of g dir) dir data = (insp, (stmts, err)) ->
  inspect g dir data now = (g', d) -> dcAllowed d = true ->
  err <> Some ErrStreamUnsafe /\ dcStatements d = stmts /\ allowed_all g stmts /\
  (dir = FromClient -> dcPayload d = data) /\
  exists rs, recorded g g' stmts rs now /\
    (gcFailOnAuditError (g_cfg g) = true -> gcAudit (g_cfg g) = true ->
       Forall (fun r => r = None) rs) /\
    g_statements g' = (g_statements g + Z.of_nat (length stmts))%Z /\
    g_denied g' = g_denied g.
Proof.
  intros Ei E Ha. destruct (inspect_spec _ _ _ _ _ _ _ _ _ Ei E) as (_ & Hs & Hc).
  case_bool_decide as Hu; [destruct Hc; congruence|]. rewrite Ha in Hc.
  destruct Hc as (seen & rest & rs & -> & Hr & Hn & Hd & -> & Hall & Hp & Hf).
  rewrite app_nil_r in *. split; [done|]. split; [done|]. split; [done|]. split; [done|].
  exists rs. split; [done|]. split; [done|]. split; [done|].
  rewrite Hd, count_denied_allowed by done. lia.
Qed.

(** C24 A refusal is accounted for and forwards nothing: when a chunk is not
    allowed, either decoding it reported an unsafe stream (with the rule
    "stream-unsafe"), or the payload is empty and some statement of the
    chunk, every statement before it being allowed, is denied by the policy
    (rule and message are the verdict's) or could not be recorded although
    recording is mandatory (rule "audit"); that statement and those before
    it are on the trail, and no statement behind it is. *)
Theorem denied_is_not_forwarded g dir data now g' d insp stmts err :
  Inspect (side_of g dir) dir data = (insp, (stmts, err)) ->
  inspect g dir data now = (g', d) -> dcAllowed d = false ->
  (err = Some ErrStreamUnsafe /\ dcRule d = B "stream-unsafe") \/
  (err <> Some ErrStreamUnsafe /\ dcPayload d = [] /\
   exists pre s post rs r, stmts = pre ++ s :: post /\ allowed_all g pre /\
     recorded g g' (pre ++ [s]) (rs ++ [r]) now /\
     ((vDenied (evaluate g s) = true /\ dcRule d = vRule (evaluate g s) /\
       dcMessage d = vMessage (evaluate g s)) \/
      (gcFailOnAuditError (g_cfg g) = true /\ r <> None /\ dcRule d = B "audit"))).
Proof.
  intros Ei E Ha. destruct (inspect_spec _ _ _ _ _ _ _ _ _ Ei E) as (_ & _ & Hc).
  case_bool_decide as Hu; [left; split; [done|apply Hc]|]. rewrite Ha in Hc.
  destruct Hc as (seen & rest & rs & -> & Hr & _ & _ & pre & s & rs0 & r & -> & -> & Hall & _ & Hp & _ & Hw).
  right. split; [done|]. split; [done|]. exists pre, s, rest, rs0, r.
  split; [by rewrite <- app_assoc|]. done.
Qed.

(** An unsafe stream is refused whatever the policy says: with no
    policy at all, or one that allows everything, a chunk whose decoding
    reports [ErrStreamUnsafe] is not allowed, under the rule
    "stream-unsafe", with none of its statements put on the trail as
    judged. *)
Theorem unsafe_stream_always_refused g dir data now insp stmts :
  Inspect (side_of g dir) dir data = (insp, (stmts, Some ErrStreamUnsafe)) ->
  dcAllowed (inspect g dir data now).2 = false /\
  dcRule (inspect g dir data now).2 = B "stream-unsafe" /\
  g_statements (inspect g dir data now).1 = g_statements g /\
  g_denied (inspect g dir data now).1 = (g_denied g + 1)%Z.
Proof.
  intros Ei. destruct (inspect g dir data now) as [g' d] eqn:E. cbn [fst snd].
  destruct (inspect_spec _ _ _ _ _ _ _ _ _ Ei E) as (_ & _ & Hc).
  rewrite bool_decide_true in Hc by done. by destruct Hc as (? & ? & _ & ? & ?).
Qed.

(** C25 The trail of a session is consistent: however [Start], [Request],
    [Response], [FlushResponse] and [Close] are called on a gate that [New]
    built with an audit sink, in any order and any number of times, the
    sequence of writes holds one opening record once started and one closing
    record once closed, the gate's statement counter is the number of
    statement records, its refusals are the violation records and the chunks
    whose decoding reported an unsafe stream, and a closing record carries
    those totals as they were when it was written. *)
Theorem session_trail_consistent reg as_reframer sess cfg sink g ops :
  gate_New reg as_reframer sess cfg sink = inr g -> gcAudit cfg = true ->
  trail_ok (gate_run g ops) (unsafe_chunks g ops) (unsafe_chunks g (before_close ops)).
Proof.
  intros Hn Ha. destruct (gate_New_fresh _ _ _ _ _ _ Hn) as (Hc & Hl & Hs & Hcl & H1 & H2).
  pose proof (trail_run ops g 0 0) as Hr. rewrite Hcl in Hr. apply Hr; [by rewrite Hc|].
  split; rewrite ?Hl, ?Hs, ?Hcl, ?H1, ?H2; try done. by intros [].
Qed.
End Gate.
