(* ===== verification/Relay.v ===== *)
(** * The relay: the pumps of src/hoopinspect/proxy/proxy.go

    [Server.handle] runs two goroutines, one [pump] per direction, over one
    gate.  A step here is one turn of one of those loops: what [Read] returned
    and what the [Write] behind it did.  The gate's calls are the atomic
    actions of the interleaving: each direction has its own inspector, and the
    counters are behind the gate's mutex.

    Where the relay terminated the upstream's TLS, the server's pump holds its
    chunks back until the SASL offer is complete.  A denial writes the frame of
    the configuration's [DenyWriter] to the client. *)

From S2P Require Import Prelude GoStrings GoText Types Inspect Policy Session Gate Handshake.

(** The part of [Config] the pumps look at. *)
Record RelayConfig := {
  rc_Protocol : Protocol;
  rc_UpstreamTLS : bool;     (* [UpstreamTLS != nil] *)
  rc_DenyWriter : option (Protocol -> Direction -> bytes -> bytes);
}.

(** What one turn of a loop meets: [Read] returned [chunk] at time [now], and
    the [Write] of the turn, of the decision's payload or of the frame that
    explains a denial, succeeded or failed after [n] bytes; or [Read] failed
    with nothing read.  A [Read] that returns bytes and an error is the one
    followed by the other. *)
Inductive pump_event :=
  | Chunk (dir : Direction) (chunk : bytes) (now : Z) (write_failed : option nat)
  | ReadEnd (dir : Direction).

Record Relay (C K : Type) := {
  rl_gate : Gate C K;
  rl_up : bytes;            (* what reached the upstream *)
  rl_down : bytes;          (* what reached the client *)
  rl_up_done : bool;        (* the client's pump returned *)
  rl_down_done : bool;      (* the upstream's pump returned *)
  rl_sasl : option saslReassembler; (* the upstream's pump's; [None] is nil *)
  rl_denied : Z;            (* [Server.denied] *)
  rl_warned : list (Direction * GateError); (* the decision errors logged *)
}.
Arguments Build_Relay {C K}.
Arguments rl_gate {C K}.
Arguments rl_up {C K}.
Arguments rl_down {C K}.
Arguments rl_up_done {C K}.
Arguments rl_down_done {C K}.
Arguments rl_sasl {C K}.
Arguments rl_denied {C K}.
Arguments rl_warned {C K}.

Section Relay.
Context {C K : Type} `{Codec C}.
Context (sink_Write : K -> Event -> K * option bytes).
Context (error_text : InspectError -> bytes).
Context (cfg : RelayConfig).

Definition open_relay (g : Gate C K) : Relay C K :=
  Build_Relay g [] [] false false
    (if (rc_Protocol cfg =s Protocol.Postgres) && rc_UpstreamTLS cfg
     then Some {| sr_pending := []; sr_done := false |} else None) 0 [].

Definition pump_done (r : Relay C K) (dir : Direction) : bool :=
  match dir with FromClient => rl_up_done r | FromServer => rl_down_done r end.

(** Returning from [pump]: the server's direction flushes what its codec
    holds back, on a best-effort basis; [rl_down] counts that tail as
    delivered. *)
Definition pump_return (r : Relay C K) (dir : Direction) : Relay C K :=
  match dir with
  | FromClient => Build_Relay (rl_gate r) (rl_up r) (rl_down r) true (rl_down_done r)
                    (rl_sasl r) (rl_denied r) (rl_warned r)
  | FromServer =>
      let '(g, tail) := FlushResponse (rl_gate r) in
      Build_Relay g (rl_up r) (rl_down r ++ tail) (rl_up_done r) true
        (rl_sasl r) (rl_denied r) (rl_warned r)
  end.

Definition to_upstream (r : Relay C K) (payload : bytes) : Relay C K :=
  Build_Relay (rl_gate r) (rl_up r ++ payload) (rl_down r) (rl_up_done r)
    (rl_down_done r) (rl_sasl r) (rl_denied r) (rl_warned r).
Definition to_client (r : Relay C K) (payload : bytes) : Relay C K :=
  Build_Relay (rl_gate r) (rl_up r) (rl_down r ++ payload) (rl_up_done r)
    (rl_down_done r) (rl_sasl r) (rl_denied r) (rl_warned r).

Definition forward (r : Relay C K) (dir : Direction) (payload : bytes) : Relay C K :=
  match dir with FromClient => to_upstream r payload | FromServer => to_client r payload end.

(** What of a write arrives. *)
Definition written (write_failed : option nat) (payload : bytes) : bytes :=
  match write_failed with Some n => take n payload | None => payload end.

(** The frame that explains a denial goes to the client, whichever side the
    denied bytes came from; its errors are ignored. *)
Definition explain (r : Relay C K) (dir : Direction) (msg : bytes) (write_failed : option nat)
    : Relay C K :=
  match rc_DenyWriter cfg with
  | None => r
  | Some deny =>
      let frame := deny (rc_Protocol cfg) dir msg in
      if (0 <? length frame)%nat then to_client r (written write_failed frame) else r
  end.

(** The decision's effect on the relay's own state, before its outcome. *)
Definition after_gate (r : Relay C K) (dir : Direction) (g : Gate C K) (d : Decision) : Relay C K :=
  Build_Relay g (rl_up r) (rl_down r) (rl_up_done r) (rl_down_done r) (rl_sasl r)
    (if dcAllowed d then rl_denied r else rl_denied r + 1)%Z (rl_warned r ++ map (pair dir) (dcErr d)).

(** The reassembly of the SASL offer in front of the gate: the bytes to judge,
    none while a partial offer is held. *)
Definition reassemble (r : Relay C K) (dir : Direction) (chunk : bytes) : Relay C K * bytes :=
  match dir, rl_sasl r with
  | FromServer, Some s =>
      let '(s, (out, _)) := sasl_feed s chunk in
      (Build_Relay (rl_gate r) (rl_up r) (rl_down r) (rl_up_done r) (rl_down_done r) (Some s)
         (rl_denied r) (rl_warned r), out)
  | _, _ => (r, chunk)
  end.

(** One turn of a [pump] loop. *)
Definition pump_step (r : Relay C K) (e : pump_event) : Relay C K :=
  match e with
  | ReadEnd dir => if pump_done r dir then r else pump_return r dir
  | Chunk dir chunk now write_failed =>
      if pump_done r dir || (length chunk =? 0)%nat then r
      else
        let '(r, chunk) := reassemble r dir chunk in
        if (length chunk =? 0)%nat then r
        else
          let '(g, d) :=
            match dir with
            | FromClient => Request sink_Write error_text (rl_gate r) chunk now
            | FromServer => Response sink_Write error_text (rl_gate r) chunk now
            end in
          let r := after_gate r dir g d in
          if negb (dcAllowed d) then pump_return (explain r dir (dcMessage d) write_failed) dir
          else if (0 <? length (dcPayload d))%nat then
            let r := forward r dir (written write_failed (dcPayload d)) in
            match write_failed with Some _ => pump_return r dir | None => r end
          else r
  end.

Definition pump_run (r : Relay C K) (es : list pump_event) : Relay C K := fold_left pump_step es r.
End Relay.
