(* ===== verification/RelayProps.v ===== *)
(** * Nothing unjudged goes through the relay

    The gate sees the client's bytes in whatever pieces the network delivers
    them, and forwards a piece before the message it belongs to is complete.
    What makes that safe is proved here: at any time, under any interleaving
    of the two directions, every statement that can be decoded from the bytes
    the upstream has received was allowed by the policy. *)

From S2P Require Import Prelude GoStrings GoText Scan Types SqlMeta Inspect Policy PolicyProps.
From S2P Require Import Session Gate GateProps Handshake HandshakeProps Deny Relay PgCodec PgFacts PgProps.

Section Relay.
Context {C K : Type} `{Codec C}.
Context (sink_Write : K -> Event -> K * option bytes).
Context (error_text : InspectError -> bytes).
Context (cfg : RelayConfig).

#[local] Abbreviation gate := (Gate C K).
#[local] Abbreviation relay := (Relay C K).
#[local] Abbreviation inspect := (inspect sink_Write error_text).
#[local] Abbreviation pump_step := (pump_step sink_Write error_text cfg).
#[local] Abbreviation pump_run := (pump_run sink_Write error_text cfg).
#[local] Abbreviation open_relay := (open_relay cfg).
#[local] Abbreviation explain := (explain cfg).

(** ** The client's inspector and the errors of a decision *)

Definition errs_extend (d d' : Decision) : Prop := exists l, dcErr d' = dcErr d ++ l.

#[global] Instance errs_extend_preorder : PreOrder errs_extend.
Proof.
  split.
  - intros d. exists []. by rewrite app_nil_r.
  - intros d1 d2 d3 [l1 E1] [l2 E2]. exists (l1 ++ l2). by rewrite E2, E1, app_assoc.
Qed.

Lemma add_err_extend d l : errs_extend d (add_err d l).
Proof. by exists l. Qed.

Lemma writeAudit_client (g : gate) ev : g_client (writeAudit sink_Write g ev).1 = g_client g.
Proof.
  destruct (writeAudit sink_Write g ev) as [g' err] eqn:E.
  by destruct (writeAudit_spec sink_Write _ _ _ _ E) as (_ & _ & _ & Hc & _).
Qed.

Lemma inspect_loop_client (g : gate) stmts d now g' d' fin :
  inspect_loop sink_Write g stmts d now = (g', (d', fin)) ->
  g_client g' = g_client g /\ (fin = true -> errs_extend d d').
Proof.
  revert g d. induction stmts as [|s stmts IH]; intros g d; cbn [inspect_loop].
  { by intros [= <- <- <-]. }
  set (g1 := set_counters g _ _). set (ev := verdict_event g1 _ _ _).
  pose proof (writeAudit_client g1 ev) as Hw.
  destruct (writeAudit sink_Write g1 ev) as [g2 err]. cbn [fst] in Hw.
  assert (forall d0, errs_extend d d0 ->
    inspect_loop sink_Write g2 stmts (add_err d0 (policy_errs (evaluate g s))) now = (g', (d', fin)) ->
    g_client g' = g_client g /\ (fin = true -> errs_extend d d')) as Hgo.
  { intros d0 Hd0 E. destruct (IH _ _ E) as [-> Hx]. split; [done|]. intros Hf.
    etrans; [exact Hd0|]. etrans; [apply add_err_extend|by apply Hx]. }
  destruct err as [msg|].
  - destruct (gcFailOnAuditError _); [by intros [= <- <- <-]|].
    destruct (vDenied _); [by intros [= <- <- <-]|]. apply Hgo, add_err_extend.
  - destruct (vDenied _); [by intros [= <- <- <-]|]. by apply Hgo.
Qed.

Lemma mask_stage_client (g : gate) dir d data now g' d' :
  match dir, gcMasker (g_cfg g) with
  | FromServer, Some m =>
      if (0 <? length data)%nat then
        match g_reframer g with
        | Some rf => maskByReframing sink_Write error_text g rf m d data now
        | None => if substitutionSafe (gcProtocol (g_cfg g))
                  then maskBySubstitution sink_Write g m d data now else (g, d)
        end
      else (g, d)
  | _, _ => (g, d)
  end = (g', d') ->
  g_client g' = g_client g /\ errs_extend d d'.
Proof.
  destruct dir; [by intros [= <- <-]|]. destruct (gcMasker (g_cfg g)) as [m|]; [|by intros [= <- <-]].
  destruct (0 <? _)%nat; [|by intros [= <- <-]].
  destruct (g_reframer g) as [rf|].
  - unfold maskByReframing. destruct (rf_Rewrite rf _ data _) as [c r].
    destruct (rf_err r), (0 <? _)%Z; intros [= <- <-]; rewrite ?writeAudit_client;
      (split; [done|]);
      first [by eexists|by exists []; rewrite app_nil_r].
  - destruct (substitutionSafe _); [|by intros [= <- <-]].
    unfold maskBySubstitution. destruct (mk_Mask m data) as [[out ents] n].
    destruct (n =? 0)%Z; [by intros [= <- <-]|].
    destruct (ContentLength.retagContentLength _ _); intros [= <- <-]; rewrite writeAudit_client;
      (split; [done|]); exists []; by rewrite app_nil_r.
Qed.

(** A call advances the inspector of its own direction only, and an allowed
    decision carries the inspection error. *)
Lemma inspect_client (g : gate) dir data now g' d insp stmts err :
  Inspect (side_of g dir) dir data = (insp, (stmts, err)) ->
  inspect g dir data now = (g', d) ->
  g_client g' = match dir with FromClient => insp | FromServer => g_client g end /\
  (forall e, err = Some e -> dcAllowed d = true -> InspectFailed e ∈ dcErr d).
Proof.
  intros Ei. unfold Gate.inspect. fold (side_of g dir). rewrite Ei.
  set (d0 := Build_Decision true [] [] stmts data [] 0 []). set (g0 := set_inspector g dir insp).
  set (p := match err with Some e => _ | None => _ end).
  assert (g_client p.1 = match dir with FromClient => insp | FromServer => g_client g end /\
    (forall e, err = Some e -> InspectFailed e ∈ dcErr p.2)) as [Hc He].
  { unfold p. destruct err as [e|]; cbn [fst snd]; rewrite ?writeAudit_client; (split; [by destruct dir|]).
    - intros e' [= <-]. simpl. left.
    - done. }
  clearbody p. destruct p as [g1 d1]. cbn [fst snd] in *.
  case_bool_decide; [by intros [= <- <-]|].
  destruct (inspect_loop sink_Write g1 stmts d1 now) as [g2 [d2 fin]] eqn:El.
  pose proof (inspect_loop_spec sink_Write _ _ _ _ _ _ _ El) as
    (seen & rest & rs & _ & _ & _ & _ & _ & Hr).
  apply inspect_loop_client in El as [Hc2 Hx]. destruct fin; cbn [negb].
  - intros Em. apply mask_stage_client in Em as [Hc3 [l2 Hl2]]. rewrite Hc3, Hc2.
    split; [done|]. intros e Hee _. destruct (Hx eq_refl) as [l1 Hl1].
    rewrite Hl2, Hl1. do 2 (apply elem_of_app; left). by apply He.
  - intros [= <- <-]. rewrite Hc2. split; [done|]. destruct Hr as (pre & s & rs0 & r & _ & _ & _ & Hf & _). congruence.
Qed.

(** ** The invariant *)

(** No error was logged for the client's direction that decoding caused. *)
Definition client_decoded (warned : list (Direction * GateError)) : Prop :=
  forall e, (FromClient, InspectFailed e) ∉ warned.

Context `{!Framed C FromClient}.

(** What the upstream received holds allowed statements only; while the
    client's pump runs, its inspector has decoded exactly that. *)
Definition up_ok (g0 : gate) (r : relay) : Prop :=
  let '(c, d) := Decode (i_codec (g_client g0)) FromClient (rl_up r) in
  same_setup g0 (rl_gate r) /\ allowed_all g0 (dStmts d) /\
  (rl_up_done r = false ->
     dErr d = None /\ i_codec (g_client (rl_gate r)) = c /\
     i_buf (g_client (rl_gate r)) = drop (dConsumed d) (rl_up r)).

(** Statements of a prefix of a stream that decodes are statements of it. *)
Lemma decode_prefix_allowed (g : gate) c u k c' d :
  Decode c FromClient (u ++ k) = (c', d) -> dErr d = None -> allowed_all g (dStmts d) ->
  allowed_all g (dStmts (Decode c FromClient u).2).
Proof.
  intros E He Ha. pose proof (Decode_app (dir := FromClient) c u k) as Hd.
  destruct (Decode c FromClient u) as [c1 r1]. rewrite E in Hd. cbn [snd].
  destruct (dErr r1) eqn:E1; [congruence|]. destruct (Decode c1 FromClient _) as [c2 r2].
  injection Hd as -> ->. cbn [dStmts] in Ha. by apply Forall_app in Ha as [? _].
Qed.

Lemma up_ok_same_client g0 r r' :
  up_ok g0 r -> rl_up r' = rl_up r -> same_setup (rl_gate r) (rl_gate r') ->
  (rl_up_done r' = false -> rl_up_done r = false /\ g_client (rl_gate r') = g_client (rl_gate r)) ->
  up_ok g0 r'.
Proof.
  unfold up_ok. intros Hok -> Hs Hd. destruct (Decode _ _ (rl_up r)) as [c d].
  destruct Hok as (H1 & H2 & H3). split; [by etrans|]. split; [done|].
  intros Hf. destruct (Hd Hf) as [Hf' ->]. by apply H3.
Qed.

Lemma FlushResponse_setup (g : gate) :
  same_setup g (FlushResponse g).1 /\ g_client (FlushResponse g).1 = g_client g.
Proof.
  unfold FlushResponse. destruct (g_reframer g); [|done]. by destruct (rf_Flush _ _ _).
Qed.

Lemma up_ok_return g0 r dir : up_ok g0 r -> up_ok g0 (pump_return r dir).
Proof.
  intros Hok. eapply up_ok_same_client; [exact Hok|..]; destruct dir; try done; cbn [pump_return].
  - by destruct (FlushResponse (rl_gate r)).
  - pose proof (FlushResponse_setup (rl_gate r)) as [Hs _]. by destruct (FlushResponse (rl_gate r)).
  - pose proof (FlushResponse_setup (rl_gate r)) as [_ Hc]. by destruct (FlushResponse (rl_gate r)).
Qed.

(** A chunk of the client that the gate allows, and what of it arrived. *)
Lemma up_ok_forward g0 (r : relay) chunk now g d sent rest :
  up_ok g0 r -> rl_up_done r = false ->
  Request sink_Write error_text (rl_gate r) chunk now = (g, d) -> dcAllowed d = true ->
  client_decoded (map (pair FromClient) (dcErr d)) -> dcPayload d = sent ++ rest ->
  forall r', rl_gate r' = g -> rl_up r' = rl_up r ++ sent ->
    (rl_up_done r' = false -> rest = []) -> up_ok g0 r'.
Proof.
  unfold up_ok. intros Hok Hrun Eg Ha Hclean Hp r' Hg Hup Hdone.
  destruct (Decode (i_codec (g_client g0)) FromClient (rl_up r)) as [c1 r1] eqn:E1.
  destruct Hok as (Hs & Hall & Hrun'). destruct (Hrun' Hrun) as (He1 & Hc1 & Hb1). clear Hrun'.
  destruct (Inspect (side_of (rl_gate r) FromClient) FromClient chunk) as [insp [stmts err]] eqn:Ei.
  pose proof (inspect_client _ _ _ _ _ _ _ _ _ Ei Eg) as [Hcl Herr].
  pose proof (inspect_spec _ _ _ _ _ _ _ _ _ _ _ Ei Eg) as (Hs' & _ & Hspec).
  assert (err = None) as ->.
  { destruct err as [e|]; [|done]. exfalso. apply (Hclean e).
    apply list_elem_of_fmap. exists (InspectFailed e). split; [done|]. by apply Herr. }
  rewrite bool_decide_false in Hspec by done.
  destruct Hspec as (seen & rest' & rs & -> & _ & _ & _ & Hal). rewrite Ha in Hal.
  destruct Hal as (-> & Hal & Hpay & _). rewrite app_nil_r in *. specialize (Hpay eq_refl).
  cbn [side_of] in Ei. destruct (g_client (rl_gate r)) as [cc bb mm]. cbn [i_codec i_buf] in *. subst cc bb.
  pose proof (Decode_app (dir := FromClient) (i_codec (g_client g0)) (rl_up r) chunk) as Hda.
  rewrite E1, He1 in Hda.
  destruct (Decode c1 FromClient (drop (dConsumed r1) (rl_up r) ++ chunk)) as [c2 r2] eqn:E2.
  rewrite (Inspect_spec (dir := FromClient) (MkInspector c1 _ mm) _ _ _ E2) in Ei.
  destruct (dErr r2) as [e|] eqn:He2; [done|]. destruct (_ && _); [done|].
  cbn [i_maxBuffer i_buf] in Ei. injection Ei as Hi Hst.
  assert (allowed_all g0 (dStmts r1 ++ dStmts r2)) as Hboth.
  { apply Forall_app. split; [done|]. rewrite Hst. eapply Forall_impl; [exact Hal|].
    intros q. simpl. by rewrite (same_setup_evaluate _ _ _ Hs). }
  rewrite Hup, Hg. destruct rest as [|b rest].
  - rewrite app_nil_r in Hp. rewrite <- Hp, Hpay, Hda. cbn [dStmts dErr dConsumed].
    split; [by etrans|]. split; [done|]. intros _. rewrite Hcl, <- Hi. cbn [i_codec i_buf].
    split; [done|]. split; [done|].
    pose proof (Decode_consumed (dir := FromClient) (i_codec (g_client g0)) (rl_up r)) as Hle.
    rewrite E1 in Hle. cbn [snd] in Hle.
    by rewrite <- drop_drop, (drop_app_le (rl_up r)) by done.
  - rewrite Hpay in Hp. rewrite Hp, app_assoc in Hda.
    pose proof (decode_prefix_allowed g0 _ _ _ _ _ Hda eq_refl Hboth) as Hpre.
    destruct (Decode _ FromClient (rl_up r ++ sent)) as [c3 r3]. split; [by etrans|].
    split; [done|]. intros Hf. by specialize (Hdone Hf).
Qed.

Lemma client_decoded_app w1 w2 :
  client_decoded (w1 ++ w2) -> client_decoded w1 /\ client_decoded w2.
Proof.
  unfold client_decoded. intros Hc. split; intros e He; apply (Hc e), elem_of_app; auto.
Qed.

Lemma pump_return_warned (r : relay) dir : rl_warned (pump_return r dir) = rl_warned r.
Proof. destruct dir; [done|]. cbn [pump_return]. by destruct (FlushResponse (rl_gate r)). Qed.

(** The turn behind the reassembly. *)
Definition judge_turn (r : relay) (dir : Direction) (chunk : bytes) (now : Z) (wf : option nat) : relay :=
  let '(g, d) :=
    match dir with
    | FromClient => Request sink_Write error_text (rl_gate r) chunk now
    | FromServer => Response sink_Write error_text (rl_gate r) chunk now
    end in
  let r := after_gate r dir g d in
  if negb (dcAllowed d) then pump_return (explain r dir (dcMessage d) wf) dir
  else if (0 <? length (dcPayload d))%nat then
    let r := forward r dir (written wf (dcPayload d)) in
    match wf with Some _ => pump_return r dir | None => r end
  else r.

Lemma pump_step_turn r dir chunk now wf :
  pump_step r (Chunk dir chunk now wf) =
  if pump_done r dir || (length chunk =? 0)%nat then r
  else let '(r1, data) := reassemble r dir chunk in
       if (length data =? 0)%nat then r1 else judge_turn r1 dir data now wf.
Proof. reflexivity. Qed.

Lemma reassemble_keeps (r r1 : relay) dir chunk out :
  reassemble r dir chunk = (r1, out) ->
  rl_gate r1 = rl_gate r /\ rl_up r1 = rl_up r /\ rl_up_done r1 = rl_up_done r
  /\ rl_warned r1 = rl_warned r /\ rl_denied r1 = rl_denied r /\ rl_down r1 = rl_down r
  /\ rl_down_done r1 = rl_down_done r.
Proof.
  unfold reassemble. destruct dir, (rl_sasl r) as [s|]; try (by intros [= <- <-]).
  destruct (sasl_feed s chunk) as [s' [o c]]. by intros [= <- <-].
Qed.

Lemma explain_keeps (r : relay) dir msg wf :
  let r1 := explain r dir msg wf in
  rl_gate r1 = rl_gate r /\ rl_up r1 = rl_up r /\ rl_up_done r1 = rl_up_done r
  /\ rl_warned r1 = rl_warned r /\ rl_denied r1 = rl_denied r.
Proof.
  unfold Relay.explain. destruct (rc_DenyWriter cfg); [|done]. cbv zeta. by destruct (_ <? _)%nat.
Qed.

(** A turn logs errors behind those already logged. *)
Lemma pump_step_warned r e : exists w, rl_warned (pump_step r e) = rl_warned r ++ w.
Proof.
  destruct e as [dir chunk now wf|dir]; cbn [Relay.pump_step].
  - destruct (_ || _); [exists []; by rewrite app_nil_r|].
    destruct (reassemble r dir chunk) as [r1 data] eqn:Er.
    apply reassemble_keeps in Er as (_ & _ & _ & <- & _).
    destruct (length data =? 0)%nat; [exists []; by rewrite app_nil_r|].
    destruct (match dir with FromClient => _ | FromServer => _ end) as [g d].
    exists (map (pair dir) (dcErr d)).
    destruct (negb _).
    { rewrite pump_return_warned. apply (explain_keeps (after_gate r1 dir g d)). }
    destruct (0 <? _)%nat; [|done]. destruct wf; [rewrite pump_return_warned|]; by destruct dir.
  - exists []. rewrite app_nil_r. destruct (pump_done r dir); [done|apply pump_return_warned].
Qed.

Lemma up_ok_server g0 r chunk now g d :
  up_ok g0 r -> Response sink_Write error_text (rl_gate r) chunk now = (g, d) ->
  up_ok g0 (after_gate r FromServer g d).
Proof.
  intros Hok E.
  destruct (Inspect (side_of (rl_gate r) FromServer) FromServer chunk) as [i [st er]] eqn:Ei.
  destruct (inspect_spec _ _ _ _ _ _ _ _ _ _ _ Ei E) as (Hs & _).
  destruct (inspect_client _ _ _ _ _ _ _ _ _ Ei E) as [Hc _].
  by eapply up_ok_same_client.
Qed.

Lemma up_ok_denied g0 r chunk now g d wf :
  up_ok g0 r -> Request sink_Write error_text (rl_gate r) chunk now = (g, d) ->
  up_ok g0 (pump_return (explain (after_gate r FromClient g d) FromClient (dcMessage d) wf) FromClient).
Proof.
  intros Hok E.
  destruct (Inspect (side_of (rl_gate r) FromClient) FromClient chunk) as [i [st er]] eqn:Ei.
  destruct (inspect_spec _ _ _ _ _ _ _ _ _ _ _ Ei E) as (Hs & _).
  destruct (explain_keeps (after_gate r FromClient g d) FromClient (dcMessage d) wf) as (Hg & Hu & _).
  eapply up_ok_same_client; [exact Hok|..]; cbn [pump_return rl_up rl_gate rl_up_done]; [done| |done].
  by rewrite Hg.
Qed.

Lemma up_ok_client_turn g0 r chunk now wf :
  up_ok g0 r -> rl_up_done r = false ->
  client_decoded (rl_warned (judge_turn r FromClient chunk now wf)) ->
  up_ok g0 (judge_turn r FromClient chunk now wf).
Proof.
  intros Hok Hrun. unfold judge_turn.
  destruct (Request sink_Write error_text (rl_gate r) chunk now) as [g d] eqn:E.
  destruct (dcAllowed d) eqn:Ha; cbn [negb]; [|intros _; by eapply up_ok_denied].
  pose proof (up_ok_forward g0 r chunk now g d) as Hf.
  destruct (0 <? length (dcPayload d))%nat eqn:Ep.
  + destruct wf as [n|]; cbn [pump_return forward to_upstream written after_gate rl_warned];
      intros [_ Hc]%client_decoded_app.
    * eapply (Hf (take n (dcPayload d)) (drop n (dcPayload d))); try done. by rewrite take_drop.
    * eapply (Hf (dcPayload d) []); try done. by rewrite app_nil_r.
  + intros [_ Hc]%client_decoded_app. eapply (Hf [] []); try done.
    * by destruct (dcPayload d).
    * by rewrite app_nil_r.
Qed.

Lemma up_ok_server_turn g0 r chunk now wf :
  up_ok g0 r -> up_ok g0 (judge_turn r FromServer chunk now wf).
Proof.
  intros Hok. unfold judge_turn.
  destruct (Response sink_Write error_text (rl_gate r) chunk now) as [g d] eqn:E.
  pose proof (up_ok_server _ _ _ _ _ _ Hok E) as Hok'.
  destruct (negb _).
  { apply up_ok_return. destruct (explain_keeps (after_gate r FromServer g d) FromServer (dcMessage d) wf)
      as (Hg & Hu & Hd & _). eapply up_ok_same_client; [exact Hok'|..]; rewrite ?Hg, ?Hd; done. }
  destruct (0 <? _)%nat; [|done].
  destruct wf; [apply up_ok_return|]; eapply up_ok_same_client; try exact Hok'; done.
Qed.

Lemma up_ok_step g0 r e :
  up_ok g0 r -> client_decoded (rl_warned (pump_step r e)) -> up_ok g0 (pump_step r e).
Proof.
  intros Hok. destruct e as [dir chunk now wf|dir];
    [|intros _; cbn [Relay.pump_step]; destruct (pump_done r dir); [done|by apply up_ok_return]].
  rewrite pump_step_turn.
  destruct (pump_done r dir || (length chunk =? 0)%nat) eqn:Eb; [done|].
  apply orb_false_iff in Eb as [Hrun Hlen].
  destruct (reassemble r dir chunk) as [r1 data] eqn:Er.
  apply reassemble_keeps in Er as (Hg & Hu & Hd & _).
  assert (up_ok g0 r1) as Hok1.
  { eapply up_ok_same_client; [exact Hok|..]; rewrite ?Hg, ?Hd; done. }
  destruct (length data =? 0)%nat; [done|]. destruct dir.
  - apply up_ok_client_turn; [done|]. by rewrite Hd.
  - intros _. by apply up_ok_server_turn.
Qed.

Lemma up_ok_run g0 es :
  i_buf (g_client g0) = [] -> client_decoded (rl_warned (pump_run (open_relay g0) es)) ->
  up_ok g0 (pump_run (open_relay g0) es).
Proof.
  intros Hb. unfold Relay.pump_run. induction es as [|e es IH] using rev_ind.
  - intros _. unfold up_ok. cbn [fold_left open_relay rl_up rl_gate rl_up_done].
    rewrite Decode_nil. split; [done|]. split; [constructor|]. done.
  - rewrite fold_left_app. cbn [fold_left]. intros Hc. apply up_ok_step; [|done].
    apply IH. destruct (pump_step_warned (fold_left pump_step es (open_relay g0)) e) as [w Hw].
    rewrite Hw in Hc. by apply client_decoded_app in Hc as [? _].
Qed.

(** C1 Complete mediation for framed codecs.  Take a relay whose codec keeps
    the framing contract on the client's direction ([Framed]: the Postgres and
    the TDS codec do; the HTTP codec does not, and [HttpLane.burst_hides_deletion]
    shows the claim fails for it), over a gate whose client inspector starts
    empty, and let both pumps run under any interleaving, with any cutting of
    the two byte streams into reads and writes that may fail part-way.  Unless
    an inspection error of the client's direction was logged (after one the
    gate forwards bytes it did not decode), every statement that the codec
    finds in the bytes the upstream has received, at any time, is one the
    policy allows: a statement that is denied never reaches the upstream
    completely, even when earlier reads already forwarded its first bytes. *)
Theorem upstream_receives_only_allowed g0 es :
  i_buf (g_client g0) = [] -> client_decoded (rl_warned (pump_run (open_relay g0) es)) ->
  allowed_all g0
    (dStmts (Decode (i_codec (g_client g0)) FromClient (rl_up (pump_run (open_relay g0) es))).2).
Proof.
  intros Hb Hc. pose proof (up_ok_run g0 es Hb Hc) as Hok. unfold up_ok in Hok.
  destruct (Decode _ _ _) as [c d]. apply Hok.
Qed.
End Relay.
