(* ===== verification/RelayFlow.v ===== *)
(** * What the relay delivers

    Where nothing is refused and no masker is configured the relay is a wire,
    apart from the channel binding it removes from the server's offer; where a
    request is refused the client is told in its own protocol and nothing more
    goes upstream. *)

From S2P Require Import Prelude GoStrings GoText Types Inspect Policy Session Gate GateProps.
From S2P Require Import Handshake HandshakeProps Deny PgCodec PgFacts Relay RelayProps.

(** ** The server's stream behind the reassembler

    What the client may get of a stream whose first message can be an offer of
    SASL mechanisms, told from the stream alone. *)

(** The stream so far can still be the beginning of an authentication request
    of ordinary size. *)
Definition auth_partial (S : bytes) : Prop :=
  S = [] \/ byte_at S 0 = pgTagAuth
    /\ (length S < 5 \/ (8 <= be_u32 (drop 1 S) < maxSASLFrame /\ Z.of_nat (length S) < be_u32 (drop 1 S) + 1)%Z).

(** What is let through once it cannot: the stream as it is, or its offer
    without the mechanism and with the length corrected. *)
Inductive sasl_through (S : bytes) : bytes -> Prop :=
  | ThroughSame : ~ auth_partial S -> sasl_through S S
  | ThroughStripped n a b :
      S = pgTagAuth :: put_be_u32 n ++ put_be_u32 pgAuthSASL ++ a ++ (pgSCRAMChannelBinding ++ [x00]) ++ b ->
      (Z.of_nat (8 + length a + length (pgSCRAMChannelBinding ++ [x00])) <= n < maxSASLFrame)%Z ->
      sasl_through S (pgTagAuth :: put_be_u32 (n - Z.of_nat (length (pgSCRAMChannelBinding ++ [x00])))
                      ++ put_be_u32 pgAuthSASL ++ a ++ b).

Definition sasl_view (S D : bytes) : Prop := auth_partial S /\ D = [] \/ sasl_through S D.

Lemma auth_partial_app S k : auth_partial (S ++ k) -> auth_partial S.
Proof.
  destruct S as [|x S]; [by left|]. intros [H|[Ht H]]; [done|]. right.
  rewrite byte_at_app in Ht by (cbn; lia). split; [done|]. rewrite length_app in H.
  destruct (decide (length (x :: S) < 5)) as [Hl|Hl]; [by left|right].
  destruct H as [H|[H1 H2]]; [lia|]. rewrite be_u32_drop_app in H1, H2 by lia. split; [done|lia].
Qed.

Lemma sasl_through_app S D k : sasl_through S D -> sasl_through (S ++ k) (D ++ k).
Proof.
  destruct 1 as [Hp|n a b -> Hn].
  - apply ThroughSame. intros Hk. by apply Hp, (auth_partial_app _ k).
  - cbn [app]. rewrite <- !app_assoc. apply ThroughStripped; [|done]. cbn [app]. by rewrite <- !app_assoc.
Qed.

Lemma front_words data :
  9 <= length data -> byte_at data 0 = pgTagAuth ->
  data = pgTagAuth :: put_be_u32 (be_u32 (drop 1 data)) ++ put_be_u32 (be_u32 (drop 5 data)) ++ drop 9 data.
Proof.
  intros Hl Ht. destruct data as [|b data]; [cbn in Hl; lia|]. cbn in Ht. subst b.
  destruct data as [|b0 data]; [cbn in Hl; lia|]. destruct data as [|b1 data]; [cbn in Hl; lia|]. destruct data as [|b2 data]; [cbn in Hl; lia|]. destruct data as [|b3 data]; [cbn in Hl; lia|]. destruct data as [|b4 data]; [cbn in Hl; lia|]. destruct data as [|b5 data]; [cbn in Hl; lia|]. destruct data as [|b6 data]; [cbn in Hl; lia|]. destruct data as [|b7 data]; [cbn in Hl; lia|].
  change (drop 1 _) with ([b0; b1; b2; b3] ++ [b4; b5; b6; b7] ++ data).
  change (drop 5 _) with ([b4; b5; b6; b7] ++ data). by rewrite !be_u32_app, !put_be_u32_be_u32 by (cbn; lia).
Qed.

Lemma strip_through data :
  9 <= length data -> byte_at data 0 = pgTagAuth -> (8 <= be_u32 (drop 1 data) < maxSASLFrame)%Z ->
  (be_u32 (drop 1 data) + 1 <= Z.of_nat (length data))%Z ->
  sasl_through data (stripChannelBinding data).1.
Proof.
  intros H9 Ht Hn Hl. assert (~ auth_partial data) as Hp.
  { intros [->|[_ [?|[_ ?]]]]; [cbn in H9|..]; lia. }
  unfold stripChannelBinding. rewrite Ht, byte_eqb_refl.
  destruct ((length data <? 9)%nat || negb true); [by apply ThroughSame|].
  destruct (_ || _)%bool; [by apply ThroughSame|].
  destruct (be_u32 (drop 5 data) =? pgAuthSASL)%Z eqn:Ea; cbn [negb]; [|by apply ThroughSame]. bool_hyps.
  set (L := be_u32 (drop 1 data)) in *. set (want := pgSCRAMChannelBinding ++ [x00]).
  destruct (Index _ want) as [idx|] eqn:Ei; [|by apply ThroughSame]. cbn [fst].
  pose proof (Index_bound _ _ _ Ei) as Hb.
  set (body := slice 9 (Z.to_nat (L + 1)) data) in *.
  assert (length body = Z.to_nat (L + 1) - 9) as Hbl.
  { unfold body, slice. rewrite length_take, length_drop. lia. }
  pose proof (front_words data H9 Ht) as Hd. rewrite Ea in Hd. fold L in Hd.
  assert (drop 9 data = body ++ drop (Z.to_nat (L + 1)) data) as Htail.
  { unfold body, slice. rewrite <- (take_drop (Z.to_nat (L + 1) - 9) (drop 9 data)) at 1. f_equal.
    rewrite drop_drop. f_equal. lia. }
  assert (body = take idx body ++ want ++ drop (idx + length want) body) as Hbody.
  { destruct (Index_Some _ _ _ Ei) as (pre & post & -> & <-).
    by rewrite take_app_length, <- drop_drop, !drop_app_length. }
  assert (take 1 data = [pgTagAuth]) as ->.
  { rewrite Hd. done. }
  assert (slice 5 9 data = put_be_u32 pgAuthSASL) as ->.
  { rewrite Hd. done. }
  apply (ThroughStripped data L (take idx body) (drop (idx + length want) body ++ drop (Z.to_nat (L + 1)) data)).
  - rewrite Hd at 1. rewrite Htail at 1. rewrite Hbody at 1. by rewrite <- !app_assoc.
  - rewrite length_take. fold want. lia.
Qed.

(** One read: held while the stream can be a partial offer, then let through. *)
Lemma feed_view p d : auth_partial p -> d <> [] ->
  exists ch, (sasl_feed {| sr_pending := p; sr_done := false |} d = ({| sr_pending := p ++ d; sr_done := false |}, ([], ch))
              /\ auth_partial (p ++ d))
    \/ exists out, sasl_feed {| sr_pending := p; sr_done := false |} d = ({| sr_pending := []; sr_done := true |}, (out, ch))
              /\ sasl_through (p ++ d) out.
Proof.
  intros Hp Hd. unfold sasl_feed. cbn [sr_done sr_pending].
  destruct (length d =? 0)%nat eqn:E0; bool_hyps; [by apply nil_length_inv in E0|]. cbn [orb].
  set (data := p ++ d) in *. assert (0 < length data) as Hl by (unfold data; rewrite length_app; lia).
  assert (data <> []) as Hne by (by destruct data; [cbn in Hl; lia|]).
  set (q := if (0 <? length p)%nat then _ else _).
  assert (q = ({| sr_pending := if (0 <? length p)%nat then data else p; sr_done := false |}, data)) as ->
    by (unfold q, data; by destruct p).
  assert (sasl_hold {| sr_pending := if (0 <? length p)%nat then data else p; sr_done := false |} data
    = ({| sr_pending := data; sr_done := false |}, [])) as ->.
  { unfold sasl_hold. cbn [sr_pending sr_done]. destruct p as [|x p]; [done|]. cbn [length Nat.ltb Nat.leb].
    destruct (length data =? 0)%nat eqn:E1; bool_hyps; [lia|done]. }
  cbn [sasl_release]. destruct (byte_at data 0 =b pgTagAuth) eqn:Et; cbn [negb]; bool_hyps.
  2:{ exists false. right. exists data. split; [done|]. apply ThroughSame. intros [?|[? _]]; done. }
  destruct (length data <? 5)%nat eqn:E5; bool_hyps.
  { exists false. left. split; [done|]. right. auto. }
  set (L := be_u32 (drop 1 data)). destruct ((L <? 8)%Z || (maxSASLFrame <? L + 1)%Z) eqn:E7.
  { exists false. right. exists data. split; [done|]. apply ThroughSame. apply orb_true_iff in E7.
    intros [?|[_ [?|[? _]]]]; [done|lia|]. fold L in H. destruct E7; bool_hyps; lia. }
  apply orb_false_iff in E7 as [E7 E8]. bool_hyps.
  destruct (Z.of_nat (length data) <? L + 1)%Z eqn:E9; bool_hyps.
  { exists false. left. split; [done|]. right. split; [done|]. right. split; [lia|done]. }
  pose proof (strip_through data) as Hs. destruct (stripChannelBinding data) as [out ch].
  exists ch. right. exists out. split; [done|]. apply Hs; fold L; try done; lia.
Qed.

(** All reads. *)
Lemma sasl_run_view chunks : forall p, auth_partial p ->
  sasl_view (p ++ concat chunks) (sasl_run {| sr_pending := p; sr_done := false |} chunks).2.
Proof.
  induction chunks as [|d chunks IH]; intros p Hp; cbn [concat sasl_run]; [rewrite app_nil_r; by left|].
  destruct (decide (d = [])) as [->|Hd].
  { cbn [app]. change (sasl_feed _ []) with ({| sr_pending := p; sr_done := false |}, (@nil byte, false)).
    specialize (IH p Hp). cbv beta iota. destruct (sasl_run {| sr_pending := p; sr_done := false |} chunks). exact IH. }
  destruct (feed_view p d Hp Hd) as (ch & [[-> Hp']|(out & -> & Ht)]).
  - specialize (IH (p ++ d) Hp'). rewrite <- app_assoc in IH. cbv beta iota.
    destruct (sasl_run {| sr_pending := p ++ d; sr_done := false |} chunks). exact IH.
  - rewrite sasl_run_done. cbn [snd]. rewrite app_assoc. right. by apply sasl_through_app.
Qed.

Lemma sasl_run_nonempty r chunks : sasl_run r (List.filter (fun d => negb (length d =? 0)%nat) chunks) = sasl_run r chunks.
Proof.
  revert r. induction chunks as [|d chunks IH]; intros r; [done|]. cbn [List.filter sasl_run].
  destruct (length d =? 0)%nat eqn:E; cbn [negb].
  - bool_hyps. apply nil_length_inv in E. subst d.
    assert (sasl_feed r [] = (r, ([], false))) as -> by (unfold sasl_feed; by rewrite orb_true_r).
    rewrite IH. by destruct (sasl_run r chunks).
  - cbn [sasl_run]. destruct (sasl_feed r d) as [r' [out ch]]. by rewrite IH.
Qed.

Lemma concat_nonempty (chunks : list bytes) :
  concat (List.filter (fun d => negb (length d =? 0)%nat) chunks) = concat chunks.
Proof.
  induction chunks as [|d chunks IH]; [done|]. cbn [List.filter concat].
  destruct (length d =? 0)%nat eqn:E; cbn [negb concat]; [|by rewrite IH].
  bool_hyps. apply nil_length_inv in E. by subst d.
Qed.

(** An offer loses the mechanism. *)
Definition offers_stripped (S D : bytes) : Prop :=
  forall l1 l2 k, Forall mech_ok l1 ->
    (Z.of_nat (length (sasl_offer (l1 ++ pgSCRAMChannelBinding :: l2))) <= maxSASLFrame)%Z ->
    S = sasl_offer (l1 ++ pgSCRAMChannelBinding :: l2) ++ k -> D = sasl_offer (l1 ++ l2) ++ k.

Lemma sasl_run_strips chunks :
  offers_stripped (concat chunks) (sasl_run {| sr_pending := []; sr_done := false |} chunks).2.
Proof.
  intros l1 l2 k H1 Hmax Hs. rewrite <- sasl_run_nonempty, (sasl_offer_stripped l1 l2 k); try done.
  - apply Forall_forall. intros d Hd. apply list_elem_of_In, filter_In in Hd as [_ Hd].
    intros ->. done.
  - by rewrite concat_nonempty.
Qed.

Section Flow.
Context {C K : Type} `{Codec C}.
Context (sink_Write : K -> Event -> K * option bytes).
Context (error_text : InspectError -> bytes).
Context (cfg : RelayConfig).

#[local] Abbreviation gate := (Gate C K).
#[local] Abbreviation relay := (Relay C K).
#[local] Abbreviation pump_step := (pump_step sink_Write error_text cfg).
#[local] Abbreviation pump_run := (pump_run sink_Write error_text cfg).
#[local] Abbreviation judge_turn := (judge_turn sink_Write error_text cfg).

(** ** What a codec holds back

    A codec that re-frames answers may hold some of them back when it rewrites;
    decoding does not add to them, and with nothing held back a flush gives
    nothing. *)

Class HoldsBack (rf : Reframer C) := {
  holds_nothing : C -> Prop;
  decode_holds_nothing c buf : holds_nothing c -> holds_nothing (Decode c FromServer buf).1;
  flush_holds_nothing c : holds_nothing c ->
    holds_nothing (rf_Flush rf c None).1 /\ (rf_Flush rf c None).2 = [];
}.

(** The codec of the gate, where it re-frames, holds nothing back. *)
Definition empty_handed (g : gate) : Prop :=
  forall rf, g_reframer g = Some rf -> exists hb : HoldsBack rf, holds_nothing (i_codec (g_server g)).

Lemma Inspect_holds_nothing rf (hb : HoldsBack rf) (i : Inspector C) data :
  holds_nothing (i_codec i) -> holds_nothing (i_codec (Inspect i FromServer data).1).
Proof.
  intros Hi. unfold Inspect. destruct (_ && _); [done|].
  set (input := if (0 <? _)%nat then _ else _). pose proof (decode_holds_nothing (i_codec i) input Hi) as Hd.
  destruct (Decode (i_codec i) FromServer input) as [c q]. by repeat case_match.
Qed.

Lemma FlushResponse_empty (g : gate) : gcMasker (g_cfg g) = None -> empty_handed g ->
  empty_handed (FlushResponse g).1 /\ (FlushResponse g).2 = [].
Proof.
  intros Hm He. unfold FlushResponse. rewrite Hm. destruct (g_reframer g) as [rf|] eqn:E; [|done].
  destruct (He rf E) as [hb Hn]. pose proof (flush_holds_nothing _ Hn) as Hf.
  destruct (rf_Flush rf _ None) as [c out]. cbn in Hf. destruct Hf as [Hc ->]. split; [|done].
  intros rf' E'. cbn in E'. assert (rf' = rf) as -> by congruence. by exists hb.
Qed.

Lemma inspect_loop_server (g : gate) stmts d now g' d' fin :
  inspect_loop sink_Write g stmts d now = (g', (d', fin)) -> g_server g' = g_server g.
Proof.
  revert g d. induction stmts as [|s stmts IH]; intros g d; cbn [inspect_loop]; [by intros [= <- _ _]|].
  set (g1 := set_counters g _ _). destruct (writeAudit sink_Write g1 _) as [g2 err] eqn:Ew.
  destruct (writeAudit_spec sink_Write _ _ _ _ Ew) as (_ & _ & _ & _ & Hs & _).
  change (g_server g1) with (g_server g) in Hs. rewrite <- Hs.
  repeat (case_match; try (intros [= <- _ _]; done)); by intros ->%IH.
Qed.

(** ** The gate without a masker *)

Lemma writeAudit_setup (g : gate) ev : same_setup g (writeAudit sink_Write g ev).1.
Proof.
  unfold writeAudit. destruct (gcAudit _); [|done]. by destruct (sink_Write _ _).
Qed.

Lemma inspect_unmasked (g : gate) dir data now g' d :
  inspect sink_Write error_text g dir data now = (g', d) -> gcMasker (g_cfg g) = None ->
  same_setup g g' /\ (empty_handed g -> empty_handed g') /\ (dcAllowed d = true -> dcPayload d = data).
Proof.
  intros E Hm. destruct (Inspect (side_of g dir) dir data) as [insp [stmts err]] eqn:Ei.
  destruct (inspect_spec _ _ _ _ _ _ _ _ _ _ _ Ei E) as (Hs & _ & Hspec). split; [done|].
  assert (forall q : gate, g_reframer q = g_reframer g ->
    g_server q = match dir with FromServer => insp | FromClient => g_server g end -> empty_handed g -> empty_handed q)
    as Hkeep.
  { intros q Eq Es He rf Erf. rewrite Eq in Erf. destruct (He rf Erf) as [hb Hn]. exists hb. rewrite Es.
    destruct dir; [done|]. cbn [side_of] in Ei. change insp with (insp, (stmts, err)).1. rewrite <- Ei.
    by apply Inspect_holds_nothing. }
  revert E. unfold Gate.inspect. fold (side_of g dir). rewrite Ei.
  set (d0 := Build_Decision true [] [] stmts data [] 0 []). set (g0 := set_inspector g dir insp).
  set (p := match err with Some e => _ | None => _ end).
  assert (gcMasker (g_cfg p.1) = None /\ dcPayload p.2 = data
    /\ g_server p.1 = match dir with FromServer => insp | FromClient => g_server g end) as (Hm1 & Hp1 & Hs1).
  { unfold p. destruct err; [|by destruct dir]. cbn [fst snd]. destruct (writeAudit sink_Write g0 _) as [q e] eqn:Ew.
    destruct (writeAudit_spec sink_Write _ _ _ _ Ew) as ((Hc & _) & _ & _ & _ & Hq & _).
    cbn [fst]. rewrite Hc, Hq. by destruct dir. }
  clearbody p. destruct p as [g1 d1]. cbn [fst snd] in *.
  destruct Hs as (_ & _ & _ & Hrf & _).
  case_bool_decide; [intros [= <- <-]; split; [by apply Hkeep|done]|].
  destruct (inspect_loop sink_Write g1 stmts d1 now) as [g2 [d2 fin]] eqn:El.
  pose proof (inspect_loop_spec sink_Write _ _ _ _ _ _ _ El) as (? & ? & ? & _ & Hl & _ & _ & _ & Hr).
  apply inspect_loop_server in El. rewrite Hs1 in El. destruct fin; cbn [negb].
  - destruct Hr as (_ & _ & (_ & Hp & _) & _). destruct Hl as (Hc & _). rewrite Hc, Hm1.
    intros E. assert ((g', d) = (g2, d2)) as [= -> ->] by (by destruct dir). split; [by apply Hkeep|].
    by rewrite Hp, Hp1.
  - intros [= <- <-]. split; [by apply Hkeep|].
    destruct Hr as (pre & s & rs0 & r & _ & _ & _ & Hf & _). congruence.
Qed.

(** ** Transparency *)

(** What one side's reads return until its stream ends. *)
Fixpoint reads_of (dir : Direction) (es : list pump_event) : list bytes :=
  match es with
  | [] => []
  | Chunk d chunk _ _ :: es =>
      if bool_decide (d = dir) then chunk :: reads_of dir es else reads_of dir es
  | ReadEnd d :: es => if bool_decide (d = dir) then [] else reads_of dir es
  end.

(** No write of the schedule fails. *)
Definition writes_succeed (es : list pump_event) : Prop :=
  Forall (fun e => match e with Chunk _ _ _ wf => wf = None | ReadEnd _ => True end) es.

(** The server's bytes as the gate gets them. *)
Definition server_view (s : option saslReassembler) (chunks : list bytes) : bytes :=
  match s with None => concat chunks | Some s => (sasl_run s chunks).2 end.

Definition fed (s : option saslReassembler) (chunk : bytes) : option saslReassembler * bytes :=
  match s with
  | None => (None, chunk)
  | Some s => let '(s, (out, _)) := sasl_feed s chunk in (Some s, out)
  end.

Lemma server_view_cons s chunk chunks :
  server_view s (chunk :: chunks) = (fed s chunk).2 ++ server_view (fed s chunk).1 chunks.
Proof.
  destruct s as [s|]; [|done]. cbn [server_view sasl_run fed].
  destruct (sasl_feed s chunk) as [s' [out ch]]. cbn [fst snd server_view].
  by destruct (sasl_run s' chunks).
Qed.

(** What a turn leaves of the relay, where nothing is refused. *)
Definition moved (r r' : relay) (up down : bytes) (s : option saslReassembler) (ud dd : bool) : Prop :=
  rl_up r' = rl_up r ++ up /\ rl_down r' = rl_down r ++ down /\ rl_sasl r' = s
  /\ rl_up_done r' = ud /\ rl_down_done r' = dd /\ rl_denied r' = rl_denied r
  /\ same_setup (rl_gate r) (rl_gate r') /\ (empty_handed (rl_gate r) -> empty_handed (rl_gate r')).

Lemma judge_turn_moved (r : relay) dir chunk now :
  gcMasker (g_cfg (rl_gate r)) = None ->
  rl_denied (judge_turn r dir chunk now None) = (rl_denied r + 1)%Z \/
  moved r (judge_turn r dir chunk now None)
    (match dir with FromClient => chunk | FromServer => [] end)
    (match dir with FromClient => [] | FromServer => chunk end)
    (rl_sasl r) (rl_up_done r) (rl_down_done r).
Proof.
  intros Hm. unfold RelayProps.judge_turn.
  set (q := match dir with FromClient => _ | FromServer => _ end).
  assert (q = inspect sink_Write error_text (rl_gate r) dir chunk now) as -> by (by destruct dir).
  destruct (inspect _ _ _ _ _ _) as [g d] eqn:E. apply inspect_unmasked in E as (Hs & He & Hp); [|done].
  destruct (dcAllowed d) eqn:Ha; cbn [negb].
  - right. specialize (Hp eq_refl). rewrite Hp.
    destruct (0 <? length chunk)%nat eqn:E; bool_hyps.
    + unfold moved, forward. destruct dir; cbn [written to_upstream to_client after_gate
        rl_up rl_down rl_sasl rl_up_done rl_down_done rl_denied rl_gate]; rewrite Ha, ?app_nil_r; done.
    + destruct chunk; [|simpl in E; lia]. unfold moved. cbn [after_gate
        rl_up rl_down rl_sasl rl_up_done rl_down_done rl_denied rl_gate].
      rewrite Ha. destruct dir; rewrite ?app_nil_r; done.
  - left. destruct (explain_keeps cfg (after_gate r dir g d) dir (dcMessage d) None)
      as (_ & _ & _ & _ & Hd). cbn [after_gate rl_denied] in Hd. rewrite Ha in Hd.
    rewrite <- Hd. destruct dir; [done|]. cbn [pump_return]. by destruct (FlushResponse _).
Qed.

Lemma moved_refl (r : relay) : moved r r [] [] (rl_sasl r) (rl_up_done r) (rl_down_done r).
Proof. unfold moved. by rewrite !app_nil_r. Qed.

Lemma reassemble_fed (r : relay) chunk :
  exists r1, reassemble r FromServer chunk = (r1, (fed (rl_sasl r) chunk).2)
  /\ moved r r1 [] [] (fed (rl_sasl r) chunk).1 (rl_up_done r) (rl_down_done r).
Proof.
  unfold reassemble, fed. destruct (rl_sasl r) as [s|] eqn:Es.
  - destruct (sasl_feed s chunk) as [s' [out ch]]. eexists. split; [done|]. unfold moved. simpl.
    by rewrite !app_nil_r.
  - exists r. split; [done|]. rewrite <- Es. apply moved_refl.
Qed.

(** The turns of a schedule that refuses nothing. *)
Lemma client_turn_moved (r : relay) chunk now :
  gcMasker (g_cfg (rl_gate r)) = None -> rl_up_done r = false ->
  rl_denied (pump_step r (Chunk FromClient chunk now None)) = (rl_denied r + 1)%Z \/
  moved r (pump_step r (Chunk FromClient chunk now None)) chunk [] (rl_sasl r) false (rl_down_done r).
Proof.
  intros Hm Hd. rewrite pump_step_turn. cbn [pump_done reassemble]. rewrite Hd. cbn [orb].
  destruct (length chunk =? 0)%nat eqn:E; bool_hyps.
  { right. destruct chunk; [|done]. rewrite <- Hd. apply moved_refl. }
  rewrite <- Hd at 1. by apply (judge_turn_moved r FromClient).
Qed.

Lemma server_turn_moved (r : relay) chunk now :
  gcMasker (g_cfg (rl_gate r)) = None -> rl_down_done r = false ->
  rl_denied (pump_step r (Chunk FromServer chunk now None)) = (rl_denied r + 1)%Z \/
  moved r (pump_step r (Chunk FromServer chunk now None)) [] (fed (rl_sasl r) chunk).2
    (fed (rl_sasl r) chunk).1 (rl_up_done r) false.
Proof.
  intros Hm Hd. rewrite pump_step_turn. cbn [pump_done]. rewrite Hd. cbn [orb].
  destruct (length chunk =? 0)%nat eqn:E; bool_hyps.
  { right. destruct chunk; [|done]. rewrite <- Hd. unfold fed. destruct (rl_sasl r) as [s|] eqn:Es.
    - unfold sasl_feed. rewrite orb_true_r. rewrite <- Es. apply moved_refl.
    - rewrite <- Es. apply moved_refl. }
  destruct (reassemble_fed r chunk) as (r1 & -> & Hmv). set (out := (fed _ _).2) in *.
  destruct (length out =? 0)%nat eqn:Eo; bool_hyps.
  { right. destruct out; [|done]. by rewrite <- Hd. }
  destruct Hmv as (H1 & H2 & H3 & H4 & H5 & H6 & H7 & H8).
  destruct (judge_turn_moved r1 FromServer out now) as [->|Hj].
  { destruct H7 as (Hc & _). by rewrite Hc. }
  { left. by rewrite H6. }
  right. destruct Hj as (J1 & J2 & J3 & J4 & J5 & J6 & J7 & J8). unfold moved.
  rewrite J1, J2, J3, J4, J5, J6, H1, H2, H3, H4, H5, H6, !app_nil_r.
  do 6 (split; [done|]). split; [by etrans|auto].
Qed.

Lemma return_moved (r : relay) dir :
  gcMasker (g_cfg (rl_gate r)) = None -> empty_handed (rl_gate r) ->
  moved r (pump_return r dir) [] [] (rl_sasl r)
    (match dir with FromClient => true | FromServer => rl_up_done r end)
    (match dir with FromClient => rl_down_done r | FromServer => true end).
Proof.
  intros Hm He. destruct dir; cbn [pump_return].
  - unfold moved. simpl. by rewrite !app_nil_r.
  - pose proof (FlushResponse_setup (rl_gate r)) as [Hs _].
    destruct (FlushResponse_empty (rl_gate r) Hm He) as [He' Ht]. destruct (FlushResponse (rl_gate r)) as [g tail].
    cbn [fst snd] in *. subst tail. unfold moved. simpl. by rewrite !app_nil_r.
Qed.

Lemma pump_done_step (r : relay) dir chunk now wf :
  pump_done r dir = true -> pump_step r (Chunk dir chunk now wf) = r.
Proof. rewrite pump_step_turn. by intros ->. Qed.

(** Refusals are only ever counted up. *)
Lemma pump_step_denied (r : relay) e : (rl_denied r <= rl_denied (pump_step r e))%Z.
Proof.
  assert (forall (q : relay) dir, rl_denied (pump_return q dir) = rl_denied q) as Hret.
  { intros q []; [done|]. cbn [pump_return]. by destruct (FlushResponse _). }
  destruct e as [dir chunk now wf|dir]; [|cbn [Relay.pump_step]; destruct (pump_done r dir);
    rewrite ?Hret; lia].
  rewrite pump_step_turn. destruct (_ || _); [lia|].
  destruct (reassemble r dir chunk) as [r1 data] eqn:Er.
  apply reassemble_keeps in Er as (_ & _ & _ & _ & <- & _).
  destruct (length data =? 0)%nat; [lia|]. unfold RelayProps.judge_turn.
  destruct (match dir with FromClient => _ | FromServer => _ end) as [g d].
  destruct (dcAllowed d) eqn:Ha; cbn [negb].
  - destruct (0 <? _)%nat; [|cbn [after_gate rl_denied]; rewrite Ha; lia].
    destruct wf; rewrite ?Hret; destruct dir; cbn [forward to_upstream to_client after_gate rl_denied];
      rewrite Ha; lia.
  - rewrite Hret. destruct (explain_keeps cfg (after_gate r1 dir g d) dir (dcMessage d) wf)
      as (_ & _ & _ & _ & ->). cbn [after_gate rl_denied]. rewrite Ha. lia.
Qed.

Lemma pump_run_denied (r : relay) es : (rl_denied r <= rl_denied (pump_run r es))%Z.
Proof.
  revert r. induction es as [|e es IH]; intros r; [by simpl|].
  etrans; [apply (pump_step_denied r e)|apply IH].
Qed.

(** A pump that returned does not run again. *)
Lemma judge_turn_done (r : relay) dir chunk now wf :
  (rl_up_done r = true -> rl_up_done (judge_turn r dir chunk now wf) = true)
  /\ (rl_down_done r = true -> rl_down_done (judge_turn r dir chunk now wf) = true).
Proof.
  unfold RelayProps.judge_turn.
  destruct (match dir with FromClient => _ | FromServer => _ end) as [g d].
  assert (forall q : relay, (rl_up_done q = true -> rl_up_done (pump_return q dir) = true)
    /\ (rl_down_done q = true -> rl_down_done (pump_return q dir) = true)) as Hret.
  { intros q. destruct dir; [done|]. cbn [pump_return]. by destruct (FlushResponse _). }
  destruct (negb _).
  - destruct (Hret (explain cfg (after_gate r dir g d) dir (dcMessage d) wf)) as [Hu Hd].
    split; intros Hx; [apply Hu|apply Hd]; unfold explain; destruct (rc_DenyWriter cfg); try done;
      cbv zeta; by destruct (_ <? _)%nat.
  - destruct (0 <? _)%nat; [|done].
    destruct wf; [destruct (Hret (forward (after_gate r dir g d) dir (written (Some n) (dcPayload d)))) as [Hu Hd];
      split; intros Hx; [apply Hu|apply Hd]|]; by destruct dir.
Qed.

Lemma done_step (r : relay) e :
  (rl_up_done r = true -> rl_up_done (pump_step r e) = true)
  /\ (rl_down_done r = true -> rl_down_done (pump_step r e) = true).
Proof.
  destruct e as [dir chunk now wf|dir].
  - rewrite pump_step_turn. destruct (_ || _); [done|].
    destruct (reassemble r dir chunk) as [r1 data] eqn:Er.
    apply reassemble_keeps in Er as (_ & _ & <- & _ & _ & _ & <-).
    destruct (length data =? 0)%nat; [done|]. apply judge_turn_done.
  - cbn [Relay.pump_step]. destruct (pump_done r dir); [done|]. destruct dir; [done|].
    cbn [pump_return]. by destruct (FlushResponse _).
Qed.

Lemma transparent_run (r : relay) es :
  gcMasker (g_cfg (rl_gate r)) = None -> empty_handed (rl_gate r) -> writes_succeed es ->
  rl_denied (pump_run r es) = rl_denied r ->
  rl_up (pump_run r es) = rl_up r ++ (if rl_up_done r then [] else concat (reads_of FromClient es))
  /\ rl_down (pump_run r es)
     = rl_down r ++ (if rl_down_done r then [] else server_view (rl_sasl r) (reads_of FromServer es)).
Proof.
  revert r. induction es as [|e es IH]; intros r Hm Hh Hw Hd.
  { assert (server_view (rl_sasl r) (reads_of FromServer []) = []) as -> by (by destruct (rl_sasl r)).
    cbn [reads_of concat]. split; [by destruct (rl_up_done r); rewrite app_nil_r|].
    by destruct (rl_down_done r); rewrite !app_nil_r. }
  inversion_clear Hw as [|? ? He Hes]. change (pump_run r (e :: es)) with (pump_run (pump_step r e) es) in *.
  pose proof (pump_step_denied r e) as Hd1. pose proof (pump_run_denied (pump_step r e) es) as Hd2.
  assert (forall up down s ud dd, moved r (pump_step r e) up down s ud dd ->
    rl_up (pump_run (pump_step r e) es) = (rl_up r ++ up) ++ (if ud then [] else concat (reads_of FromClient es))
    /\ rl_down (pump_run (pump_step r e) es) = (rl_down r ++ down)
         ++ (if dd then [] else server_view s (reads_of FromServer es))) as Hgo.
  { intros up down s ud dd (<- & <- & <- & <- & <- & Hden & (Hc & _) & Hh'). apply IH; [by rewrite Hc|auto|done|lia]. }
  clear IH. destruct e as [dir chunk now wf|dir].
  - subst wf. destruct (pump_done r dir) eqn:Edone.
    { rewrite (pump_done_step r dir chunk now None Edone) in *. specialize (Hgo _ _ _ _ _ (moved_refl r)).
      rewrite !app_nil_r in Hgo. destruct dir; cbn [pump_done] in Edone; rewrite Edone in *; exact Hgo. }
    destruct dir; cbn [pump_done] in Edone; rewrite Edone; cbn [reads_of].
    + destruct (client_turn_moved r chunk now Hm Edone) as [Hx|Hx]; [lia|].
      specialize (Hgo _ _ _ _ _ Hx). rewrite !app_nil_r in Hgo.
      change (if bool_decide (FromClient = FromClient) then ?a else _) with a.
      change (if bool_decide (FromClient = FromServer) then _ else ?a) with a.
      cbn [concat]. by rewrite app_assoc.
    + destruct (server_turn_moved r chunk now Hm Edone) as [Hx|Hx]; [lia|].
      specialize (Hgo _ _ _ _ _ Hx). rewrite !app_nil_r in Hgo.
      change (if bool_decide (FromServer = FromServer) then ?a else _) with a.
      change (if bool_decide (FromServer = FromClient) then _ else ?a) with a. rewrite server_view_cons.
      by rewrite app_assoc.
  - cbn [Relay.pump_step] in *. destruct (pump_done r dir) eqn:Edone.
    { specialize (Hgo _ _ _ _ _ (moved_refl r)). rewrite !app_nil_r in Hgo.
      destruct dir; cbn [pump_done] in Edone; rewrite Edone in *; exact Hgo. }
    specialize (Hgo _ _ _ _ _ (return_moved r dir Hm Hh)). rewrite !app_nil_r in Hgo.
    assert (server_view (rl_sasl r) [] = []) as Hnil by (by destruct (rl_sasl r)).
    destruct dir; cbn [pump_done] in Edone; rewrite Edone in *; cbn [reads_of].
    + exact Hgo.
    + change (if bool_decide (FromServer = FromServer) then ?a else _) with a. rewrite Hnil. exact Hgo.
Qed.

(** What the client gets of the server's stream. *)
Definition delivered (S D : bytes) : Prop :=
  if (rc_Protocol cfg =s Protocol.Postgres) && rc_UpstreamTLS cfg
  then sasl_view S D /\ offers_stripped S D else D = S.

(** C21 A relay that refuses nothing is a wire: with any codec and policy and no
    masker, under any interleaving of the two pumps and with a codec that holds
    back bytes only when it rewrites them and holds none at the start, as long as no statement is refused
    and no write fails, the upstream receives exactly the bytes read from the
    client, in order, and the client exactly those read from the upstream, also
    when a pump has returned.  Only behind an upstream whose TLS the relay
    terminated does a Postgres client get less: nothing while the stream is a
    partial authentication request of at most 8 KiB, and of an offer of
    mechanisms all but SCRAM-SHA-256-PLUS, with the length corrected. *)
Theorem relay_transparent (g0 : gate) es :
  gcMasker (g_cfg g0) = None -> empty_handed g0 -> writes_succeed es ->
  let r := pump_run (open_relay cfg g0) es in
  rl_denied r = 0%Z ->
  rl_up r = concat (reads_of FromClient es) /\ delivered (concat (reads_of FromServer es)) (rl_down r).
Proof.
  intros Hm Hh Hw r Hd. destruct (transparent_run (open_relay cfg g0) es Hm Hh Hw Hd) as [Hu Hdn].
  split; [exact Hu|]. unfold r. rewrite Hdn. cbn [open_relay rl_down rl_down_done rl_sasl app]. unfold delivered.
  destruct (_ && _); [|done]. split; [|apply sasl_run_strips]. apply (sasl_run_view _ []). by left.
Qed.

(** ** A refused request *)

Lemma up_frozen (r : relay) es : rl_up_done r = true -> rl_up (pump_run r es) = rl_up r.
Proof.
  revert r. induction es as [|e es IH]; intros r Hr; [done|].
  change (pump_run r (e :: es)) with (pump_run (pump_step r e) es).
  rewrite IH by (by apply done_step). destruct e as [dir chunk now wf|dir].
  - rewrite pump_step_turn. destruct dir; cbn [pump_done]; [by rewrite Hr|].
    destruct (_ || _); [done|]. destruct (reassemble r FromServer chunk) as [r1 data] eqn:Er.
    apply reassemble_keeps in Er as (_ & <- & _). destruct (length data =? 0)%nat; [done|].
    unfold RelayProps.judge_turn. destruct (Response _ _ _ _ _) as [g d].
    destruct (negb _).
    + cbn [pump_return]. destruct (FlushResponse _). cbn [rl_up].
      by destruct (explain_keeps cfg (after_gate r1 FromServer g d) FromServer (dcMessage d) wf) as (_ & -> & _).
    + destruct (0 <? _)%nat; [|done]. destruct wf; [|done]. cbn [pump_return]. by destruct (FlushResponse _).
  - cbn [Relay.pump_step]. destruct (pump_done r dir); [done|]. destruct dir; [done|].
    cbn [pump_return]. by destruct (FlushResponse _).
Qed.

(** C22 A refused request ends the client's side and is explained: when the gate
    refuses a chunk of the client, the frame of the configured writer is what
    the client is sent next, the refusal is counted, and whatever either side
    sends afterwards, in any interleaving, the upstream receives nothing more
    than what it had. *)
Theorem refused_request_ends (r : relay) chunk now g d deny es :
  rl_up_done r = false -> chunk <> [] -> rc_DenyWriter cfg = Some deny ->
  Request sink_Write error_text (rl_gate r) chunk now = (g, d) -> dcAllowed d = false ->
  let r' := pump_step r (Chunk FromClient chunk now None) in
  rl_down r' = rl_down r ++ deny (rc_Protocol cfg) FromClient (dcMessage d)
  /\ rl_denied r' = (rl_denied r + 1)%Z /\ rl_up (pump_run r' es) = rl_up r.
Proof.
  intros Hrun Hne HD E Ha r'.
  assert (r' = pump_return (explain cfg (after_gate r FromClient g d) FromClient (dcMessage d) None) FromClient)
    as Hr'.
  { unfold r'. rewrite pump_step_turn. cbn [pump_done reassemble]. rewrite Hrun. cbn [orb].
    destruct (length chunk =? 0)%nat eqn:El; bool_hyps; [by destruct chunk|].
    unfold RelayProps.judge_turn. by rewrite E, Ha. }
  split; [|split].
  - rewrite Hr'. cbn [pump_return rl_down]. unfold explain. rewrite HD. cbv zeta.
    destruct (0 <? _)%nat eqn:El; bool_hyps; [done|].
    destruct (deny _ _ _); [|simpl in El; lia]. by rewrite app_nil_r.
  - rewrite Hr'. cbn [pump_return rl_denied].
    destruct (explain_keeps cfg (after_gate r FromClient g d) FromClient (dcMessage d) None)
      as (_ & _ & _ & _ & ->). cbn [after_gate rl_denied]. by rewrite Ha.
  - rewrite up_frozen by (by rewrite Hr'). rewrite Hr'. cbn [pump_return rl_up].
    by destruct (explain_keeps cfg (after_gate r FromClient g d) FromClient (dcMessage d) None) as (_ & -> & _).
Qed.
End Flow.
