(* ===== verification/Server.v ===== *)
(** * The relay server: src/hoopinspect/proxy/proxy.go

    [NewServer], the life of the listener and of its connections
    ([Serve], [track], [untrack], [Close]) as a transition system whose steps
    are the atomic actions of its goroutines, and [handle], which takes one
    connection from its accept to the record that closes its session.

    A network connection is an opaque [N]; the answers of the operating system
    (whether a file exists, a dial succeeds, what reads return) are arguments. *)

From S2P Require Import Prelude GoStrings GoText Types Inspect Policy Session Gate Handshake Relay.

Record ServerConfig (C N : Type) := {
  scListen : bytes;
  scNetwork : bytes;
  scUpstream : bytes;
  scUpstreamTLS : bool;                 (* [UpstreamTLS != nil] *)
  scDownstreamTLS : option (list bytes -> option (list bytes)); (* the TLS server, if set *)
  scProtocol : Protocol;
  scConnection : bytes;
  scPolicy : option Evaluator;
  scAudit : bool;
  scMasker : option Masker;
  scFailOnAuditError : bool;
  scDenyWriter : option (Protocol -> Direction -> bytes -> bytes);
  scIdentityFn : option (N -> Identity);
  scCodecFactory : option (unit -> option C);
  scDialTimeout : Z;
  scMaxConns : Z;
}.
Arguments Build_ServerConfig {C N}.
Arguments scListen {C N}.
Arguments scNetwork {C N}.
Arguments scUpstream {C N}.
Arguments scUpstreamTLS {C N}.
Arguments scDownstreamTLS {C N}.
Arguments scProtocol {C N}.
Arguments scConnection {C N}.
Arguments scPolicy {C N}.
Arguments scAudit {C N}.
Arguments scMasker {C N}.
Arguments scFailOnAuditError {C N}.
Arguments scDenyWriter {C N}.
Arguments scIdentityFn {C N}.
Arguments scCodecFactory {C N}.
Arguments scDialTimeout {C N}.
Arguments scMaxConns {C N}.

Inductive ServerError := NoListenAddress | NoUpstreamAddress | NoServerProtocol
  | UnsupportedProtocol (e : InspectError) | LiveSocket | StaleSocketStays.

(** [NewServer]: the configuration the server runs with. *)
Definition NewServer {C N} `{Codec C} (reg : Registry C) (cfg : ServerConfig C N)
    : ServerError + ServerConfig C N :=
  if scListen cfg =s [] then inl NoListenAddress
  else if scUpstream cfg =s [] then inl NoUpstreamAddress
  else if scProtocol cfg =s [] then inl NoServerProtocol
  else
    match New reg (scProtocol cfg) with
    | inl e => inl (UnsupportedProtocol e)
    | inr _ =>
        inr {| scListen := scListen cfg;
               scNetwork := if scNetwork cfg =s [] then B "tcp" else scNetwork cfg;
               scUpstream := scUpstream cfg; scUpstreamTLS := scUpstreamTLS cfg;
               scDownstreamTLS := scDownstreamTLS cfg; scProtocol := scProtocol cfg;
               scConnection := scConnection cfg; scPolicy := scPolicy cfg; scAudit := scAudit cfg;
               scMasker := scMasker cfg; scFailOnAuditError := scFailOnAuditError cfg;
               scDenyWriter := scDenyWriter cfg; scIdentityFn := scIdentityFn cfg;
               scCodecFactory := scCodecFactory cfg;
               scDialTimeout := if (scDialTimeout cfg <=? 0)%Z then 10 * 10 ^ 9 else scDialTimeout cfg;
               scMaxConns := scMaxConns cfg |}
    end.

(** [reclaimStaleSocket]: whether the socket file is removed, given that the
    file exists, that something answers on it and that it can be removed. *)
Definition reclaimStaleSocket {C N} (cfg : ServerConfig C N) (exists_ answers removable : bool)
    : ServerError + bool :=
  if negb (scNetwork cfg =s B "unix") then inr false
  else if negb exists_ then inr false
  else if answers then inl LiveSocket
  else if negb removable then inl StaleSocketStays
  else inr true.

(** ** One connection: [handle] *)

(** What the world does to one connection: its peer, the session id drawn, the
    clock, the outcome of the upstream dial (the error's text), the client's
    stream, the turns of the two pumps and the clock at the end. *)
Record Incoming (N : Type) := {
  in_conn : N;
  in_fresh : bytes;
  in_start : Z;
  in_dial : option bytes;
  in_dialed : Z;
  in_client : Conn;
  in_events : list pump_event;
  in_end : Z;
}.
Arguments in_conn {N}.
Arguments in_fresh {N}.
Arguments in_start {N}.
Arguments in_dial {N}.
Arguments in_dialed {N}.
Arguments in_client {N}.
Arguments in_events {N}.
Arguments in_end {N}.

Inductive HandleResult (C K : Type) :=
  | SetupFailed (e : NewError)
  | DialFailed (g : Gate C K)
  | NegotiationFailed (g : Gate C K) (e : NegError)
  | Relayed (g : Gate C K) (r : Relay C K).
Arguments SetupFailed {C K}.
Arguments DialFailed {C K}.
Arguments NegotiationFailed {C K}.
Arguments Relayed {C K}.

Section Handle.
Context {C K N : Type} `{Codec C}.
Context (sink_Write : K -> Event -> K * option bytes).
Context (error_text : InspectError -> bytes).
Context (RemoteAddr : N -> bytes).
Context (reg : Registry C) (as_reframer : C -> option (Reframer C)).

Definition set_sess (g : Gate C K) (s : Session) : Gate C K :=
  Build_Gate (g_cfg g) s (g_client g) (g_server g) (g_polCtx g) (g_reframer g)
    (g_started g) (g_statements g) (g_denied g) (g_closed g) (g_sink g) (g_log g).

Definition with_peer (i : Identity) (peer : bytes) : Identity :=
  {| idSubject := idSubject i; idEmail := idEmail i; idGroups := idGroups i;
     idPeerAddr := peer; idAttributes := idAttributes i |}.

Definition with_subject (i : Identity) (subject : bytes) : Identity :=
  {| idSubject := subject; idEmail := idEmail i; idGroups := idGroups i;
     idPeerAddr := idPeerAddr i; idAttributes := idAttributes i |}.

Definition with_identity (s : Session) (i : Identity) : Session :=
  {| seID := seID s; seIdentity := i; seProtocol := seProtocol s;
     seConnection := seConnection s; seUpstream := seUpstream s;
     seCorrelationID := seCorrelationID s; seStartedAt := seStartedAt s;
     seEndedAt := seEndedAt s; seMetadata := seMetadata s |}.

Definition identity_of (cfg : ServerConfig C N) (c : N) : Identity :=
  match scIdentityFn cfg with
  | None => {| idSubject := []; idEmail := []; idGroups := []; idPeerAddr := RemoteAddr c;
               idAttributes := ∅ |}
  | Some f =>
      let i := f c in if idPeerAddr i =s [] then with_peer i (RemoteAddr c) else i
  end.

Definition session_of (cfg : ServerConfig C N) (i : Incoming N) : Session :=
  let s := session_New (scProtocol cfg) (identity_of cfg (in_conn i)) (in_fresh i) (in_start i) in
  {| seID := seID s; seIdentity := seIdentity s; seProtocol := seProtocol s;
     seConnection := scConnection cfg; seUpstream := scUpstream cfg;
     seCorrelationID := seCorrelationID s; seStartedAt := seStartedAt s;
     seEndedAt := seEndedAt s; seMetadata := seMetadata s |}.

Definition gate_config (cfg : ServerConfig C N) : GateConfig C :=
  {| gcProtocol := scProtocol cfg; gcPolicy := scPolicy cfg; gcAudit := scAudit cfg;
     gcMasker := scMasker cfg; gcFailOnAuditError := scFailOnAuditError cfg; gcMaxBuffer := 0;
     gcCodecFactory := scCodecFactory cfg |}.

Definition relay_config (cfg : ServerConfig C N) : RelayConfig :=
  {| rc_Protocol := scProtocol cfg; rc_UpstreamTLS := scUpstreamTLS cfg;
     rc_DenyWriter := scDenyWriter cfg |}.

(** The user of the StartupMessage, where the identity names none: the gate
    shares the session. *)
Definition claim_user (g : Gate C K) (user : bytes) : Gate C K :=
  let id := seIdentity (g_sess g) in
  if negb (user =s []) && (idSubject id =s [])
  then set_sess g (with_identity (g_sess g) (with_subject id user)) else g.

Definition handle (cfg : ServerConfig C N) (sink : K) (i : Incoming N) : HandleResult C K :=
  match gate_New reg as_reframer (session_of cfg i) (gate_config cfg) sink with
  | inl e => SetupFailed e
  | inr g =>
      let g := (Start sink_Write g).1 in
      match in_dial i with
      | Some err =>
          let g := (writeAudit sink_Write g (ErrorEvent (g_sess g) err (in_dialed i))).1 in
          DialFailed (Close sink_Write g (in_end i)).1
      | None =>
          match (negotiateDownstream (scDownstreamTLS cfg) (in_client i) (scProtocol cfg)).2 with
          | inl e => NegotiationFailed (Close sink_Write g (in_end i)).1 e
          | inr user =>
              let g := claim_user g user in
              let r := pump_run sink_Write error_text (relay_config cfg)
                         (open_relay (relay_config cfg) g) (in_events i) in
              Relayed (Close sink_Write (rl_gate r) (in_end i)).1 r
          end
      end
  end.
End Handle.

(** ** The server's goroutines *)

(** Where the accept loop of [Serve] stands: it holds the accepted connection
    [c] from [Accept] through the capacity check and the steps of [track]. *)
Inductive accept_pc := Starting | Accepting | Got (c : nat) | Passed (c : nat)
  | Mapped (c : nat) | Counted (c : nat) | Returned.
(** A connection's goroutine: in [handle], then the steps of [untrack]. *)
Inductive handler_pc := Handling | Deleted | Uncounted.
Inductive listener := NoListener | Listening | ListenerClosed.
(** The first call of [Close]: with the listener and the connections it saw
    under the lock. *)
Inductive closer_pc := NotClosing | Closing (ln : listener) (cs : gset nat)
  | HangingUp (cs : gset nat) | Closed.

#[global] Instance handler_pc_eq_dec : EqDecision handler_pc.
Proof. solve_decision. Defined.

Record Server := {
  sv_listener : listener;
  sv_conns : gset nat;
  sv_closing : bool;
  sv_active : Z;
  sv_total : Z;
  sv_accept : accept_pc;
  sv_handlers : gmap nat handler_pc;
  sv_closer : closer_pc;
  sv_hung : gset nat;       (* the connections the server closed *)
  sv_next : nat;            (* the next connection to arrive *)
}.

Definition new_server : Server :=
  {| sv_listener := NoListener; sv_conns := ∅; sv_closing := false; sv_active := 0; sv_total := 0;
     sv_accept := Starting; sv_handlers := ∅; sv_closer := NotClosing; sv_hung := ∅; sv_next := 0 |}.

Inductive action :=
  | Listen | Accept | AcceptFails | CheckCapacity | TrackConn | TrackActive | TrackTotal
  | HandleReturns (c : nat) | UntrackActive (c : nat) | HangUp (c : nat)
  | CallClose | CloseListener | CloseConn (c : nat) | CloseReturns.

Section Machine.
Context (maxConns : Z).

Definition at_accept (s : Server) (pc : accept_pc) : Server :=
  {| sv_listener := sv_listener s; sv_conns := sv_conns s; sv_closing := sv_closing s;
     sv_active := sv_active s; sv_total := sv_total s; sv_accept := pc;
     sv_handlers := sv_handlers s; sv_closer := sv_closer s; sv_hung := sv_hung s;
     sv_next := sv_next s |}.
Definition with_listener (s : Server) (l : listener) : Server :=
  {| sv_listener := l; sv_conns := sv_conns s; sv_closing := sv_closing s;
     sv_active := sv_active s; sv_total := sv_total s; sv_accept := sv_accept s;
     sv_handlers := sv_handlers s; sv_closer := sv_closer s; sv_hung := sv_hung s;
     sv_next := sv_next s |}.
Definition with_conns (s : Server) (cs : gset nat) : Server :=
  {| sv_listener := sv_listener s; sv_conns := cs; sv_closing := sv_closing s;
     sv_active := sv_active s; sv_total := sv_total s; sv_accept := sv_accept s;
     sv_handlers := sv_handlers s; sv_closer := sv_closer s; sv_hung := sv_hung s;
     sv_next := sv_next s |}.
Definition with_counts (s : Server) (active total : Z) : Server :=
  {| sv_listener := sv_listener s; sv_conns := sv_conns s; sv_closing := sv_closing s;
     sv_active := active; sv_total := total; sv_accept := sv_accept s;
     sv_handlers := sv_handlers s; sv_closer := sv_closer s; sv_hung := sv_hung s;
     sv_next := sv_next s |}.
Definition with_handlers (s : Server) (h : gmap nat handler_pc) : Server :=
  {| sv_listener := sv_listener s; sv_conns := sv_conns s; sv_closing := sv_closing s;
     sv_active := sv_active s; sv_total := sv_total s; sv_accept := sv_accept s;
     sv_handlers := h; sv_closer := sv_closer s; sv_hung := sv_hung s; sv_next := sv_next s |}.
Definition with_closer (s : Server) (closing : bool) (pc : closer_pc) : Server :=
  {| sv_listener := sv_listener s; sv_conns := sv_conns s; sv_closing := closing;
     sv_active := sv_active s; sv_total := sv_total s; sv_accept := sv_accept s;
     sv_handlers := sv_handlers s; sv_closer := pc; sv_hung := sv_hung s; sv_next := sv_next s |}.
Definition hang_up (s : Server) (c : nat) : Server :=
  {| sv_listener := sv_listener s; sv_conns := sv_conns s; sv_closing := sv_closing s;
     sv_active := sv_active s; sv_total := sv_total s; sv_accept := sv_accept s;
     sv_handlers := sv_handlers s; sv_closer := sv_closer s; sv_hung := {[c]} ∪ sv_hung s;
     sv_next := sv_next s |}.
Definition arrived (s : Server) : Server :=
  {| sv_listener := sv_listener s; sv_conns := sv_conns s; sv_closing := sv_closing s;
     sv_active := sv_active s; sv_total := sv_total s; sv_accept := Got (sv_next s);
     sv_handlers := sv_handlers s; sv_closer := sv_closer s; sv_hung := sv_hung s;
     sv_next := S (sv_next s) |}.

(** The accept loop of [Serve], with [track]. *)
Definition serve_act (s : Server) (a : action) : option Server :=
  match a, sv_accept s with
  | Listen, Starting => Some (at_accept (with_listener s Listening) Accepting)
  | Accept, Accepting =>
      match sv_listener s with Listening => Some (arrived s) | _ => None end
  | AcceptFails, Accepting => Some (at_accept s Returned)
  | CheckCapacity, Got c =>
      if (0 <? maxConns)%Z && (maxConns <=? sv_active s)%Z
      then Some (at_accept (hang_up s c) Accepting) else Some (at_accept s (Passed c))
  | TrackConn, Passed c => Some (at_accept (with_conns s ({[c]} ∪ sv_conns s)) (Mapped c))
  | TrackActive, Mapped c => Some (at_accept (with_counts s (sv_active s + 1) (sv_total s)) (Counted c))
  | TrackTotal, Counted c =>
      Some (at_accept (with_handlers (with_counts s (sv_active s) (sv_total s + 1))
                         (<[c := Handling]> (sv_handlers s))) Accepting)
  | _, _ => None
  end.

(** A connection's goroutine behind [handle]: [untrack]. *)
Definition handler_act (s : Server) (a : action) : option Server :=
  match a with
  | HandleReturns c =>
      match sv_handlers s !! c with
      | Some Handling => Some (with_handlers (with_conns s (sv_conns s ∖ {[c]})) (<[c := Deleted]> (sv_handlers s)))
      | _ => None
      end
  | UntrackActive c =>
      match sv_handlers s !! c with
      | Some Deleted => Some (with_handlers (with_counts s (sv_active s - 1) (sv_total s)) (<[c := Uncounted]> (sv_handlers s)))
      | _ => None
      end
  | HangUp c =>
      match sv_handlers s !! c with
      | Some Uncounted => Some (with_handlers (hang_up s c) (delete c (sv_handlers s)))
      | _ => None
      end
  | _ => None
  end.

(** [Close]; a call that finds [closing] set returns at once. *)
Definition close_act (s : Server) (a : action) : option Server :=
  match a, sv_closer s with
  | CallClose, _ =>
      if sv_closing s then Some s
      else Some (with_closer s true (Closing (sv_listener s) (sv_conns s)))
  | CloseListener, Closing ln cs =>
      Some (with_closer (match ln with NoListener => s | _ => with_listener s ListenerClosed end)
              true (HangingUp cs))
  | CloseConn c, HangingUp cs =>
      if bool_decide (c ∈ cs) then Some (with_closer (hang_up s c) true (HangingUp (cs ∖ {[c]})))
      else None
  | CloseReturns, HangingUp cs => if bool_decide (cs = ∅) then Some (with_closer s true Closed) else None
  | _, _ => None
  end.

Definition server_act (s : Server) (a : action) : option Server :=
  match serve_act s a with
  | Some s => Some s
  | None => match handler_act s a with Some s => Some s | None => close_act s a end
  end.

Fixpoint server_run (s : Server) (acts : list action) : option Server :=
  match acts with
  | [] => Some s
  | a :: acts => match server_act s a with None => None | Some s => server_run s acts end
  end.

Inductive reachable : Server -> Prop :=
  | reach_new : reachable new_server
  | reach_step s a s' : reachable s -> server_act s a = Some s' -> reachable s'.
End Machine.
