(* ===== verification/ServerProps.v ===== *)
(** * The server's connections

    The counters describe the connections served, the limit holds under every
    interleaving, and [Close] hangs up on every connection it found. *)

From S2P Require Import Prelude GoStrings GoText Types Inspect Policy Session Gate GateProps.
From S2P Require Import Handshake HandshakeProps Relay RelayProps RelayFlow Server.

Section Machine.
Context (maxConns : Z).

#[local] Abbreviation server_act := (server_act maxConns).
#[local] Abbreviation reachable := (reachable maxConns).

Lemma reachable_run s acts s' : reachable s -> server_run maxConns s acts = Some s' -> reachable s'.
Proof.
  revert s. induction acts as [|a acts IH]; intros s Hr E; [by injection E as <-|].
  cbn [server_run] in E. destruct (server_act s a) eqn:Ea; [|done]. eapply IH; [|exact E]. by eapply reach_step.
Qed.

(** The connections that count as active. *)
Definition running (s : Server) : gmap nat handler_pc :=
  filter (fun kv => kv.2 <> Uncounted) (sv_handlers s).

(** The connection being tracked that is already counted. *)
Definition in_flight (s : Server) : Z := match sv_accept s with Counted _ => 1 | _ => 0 end.

(** The connection in the accept loop's hands. *)
Definition in_hand (s : Server) : option nat :=
  match sv_accept s with
  | Got c | Passed c | Mapped c | Counted c => Some c
  | _ => None
  end.

Record server_inv (s : Server) : Prop := {
  iv_active : sv_active s = (Z.of_nat (size (running s)) + in_flight s)%Z;
  iv_cap : (0 < maxConns)%Z ->
    (sv_active s + match sv_accept s with Passed _ | Mapped _ => 1 | _ => 0 end <= maxConns)%Z;
  iv_next : forall c, sv_next s <= c -> sv_handlers s !! c = None /\ c ∉ sv_conns s;
  iv_hand : forall c, in_hand s = Some c -> c < sv_next s /\ sv_handlers s !! c = None;
  iv_conns : forall c, c ∈ sv_conns s <->
    sv_handlers s !! c = Some Handling \/ sv_accept s = Mapped c \/ sv_accept s = Counted c;
}.

Lemma running_insert s c pc :
  sv_handlers s !! c = None -> pc <> Uncounted ->
  size (filter (fun kv : nat * handler_pc => kv.2 <> Uncounted) (<[c := pc]> (sv_handlers s))) = S (size (running s)).
Proof.
  intros Hc Hpc. rewrite map_filter_insert_True by done. apply map_size_insert_None.
  apply map_lookup_filter_None. by left.
Qed.

Lemma running_update s c pc pc' :
  sv_handlers s !! c = Some pc -> pc <> Uncounted -> pc' <> Uncounted ->
  size (filter (fun kv : nat * handler_pc => kv.2 <> Uncounted) (<[c := pc']> (sv_handlers s))) = size (running s).
Proof.
  intros Hc Hpc Hpc'. rewrite map_filter_insert_True by done. apply map_size_insert_Some.
  exists pc. apply map_lookup_filter_Some. done.
Qed.

Lemma running_leave s c pc :
  sv_handlers s !! c = Some pc -> pc <> Uncounted ->
  S (size (filter (fun kv : nat * handler_pc => kv.2 <> Uncounted) (<[c := Uncounted]> (sv_handlers s)))) = size (running s).
Proof.
  intros Hc Hpc. rewrite map_filter_insert_False by (simpl; tauto).
  rewrite map_filter_delete. unfold running.
  rewrite map_size_delete_Some.
  - assert (size (filter (fun kv : nat * handler_pc => kv.2 <> Uncounted) (sv_handlers s)) <> 0); [|lia].
    apply (map_size_ne_0_lookup_2 _ c). exists pc. apply map_lookup_filter_Some. done.
  - exists pc. apply map_lookup_filter_Some. done.
Qed.

Lemma running_delete s c :
  sv_handlers s !! c = Some Uncounted ->
  filter (fun kv : nat * handler_pc => kv.2 <> Uncounted) (delete c (sv_handlers s)) = running s.
Proof.
  intros Hc. rewrite map_filter_delete. apply delete_id. apply map_lookup_filter_None. right.
  intros x Hx. rewrite Hc in Hx. injection Hx as <-. simpl. tauto.
Qed.

Lemma inv_serve s a s' : server_inv s -> serve_act maxConns s a = Some s' -> server_inv s'.
Proof.
  intros [I1 I2 I3 I4 I5] E. unfold serve_act, in_hand, in_flight in *.
  destruct (sv_accept s) as [| |c|c|c|c|] eqn:Ea; destruct a; try done.
  - injection E as <-. split; cbn; try done. intros c. rewrite I5. intuition congruence.
  - destruct (sv_listener s); [done| |done]. injection E as <-.
    split; cbn; try done.
    + intros c Hc. apply I3. lia.
    + intros c [= <-]. split; [lia|]. by apply I3.
    + intros c. rewrite I5. intuition congruence.
  - injection E as <-. split; cbn; try done. intros c. rewrite I5. intuition congruence.
  - destruct ((0 <? maxConns)%Z && (maxConns <=? sv_active s)%Z) eqn:Ec; injection E as <-.
    + split; cbn; try done. intros c0. rewrite I5. intuition congruence.
    + split; cbn; try done.
      * intros Hm. apply andb_false_iff in Ec as [Ec|Ec]; bool_hyps; lia.
      * intros c0. rewrite I5. intuition congruence.
  - injection E as <-. destruct (I4 c eq_refl) as [Hlt Hn]. split; cbn; try done.
    + intros c0 Hc0. split; [by apply I3|]. destruct (I3 c0 Hc0). set_unfold. intros [->|?]; [lia|done].
    + intros c0. rewrite elem_of_union, elem_of_singleton, I5. intuition congruence.
  - injection E as <-. split; cbn; try done.
    + unfold running in *. cbn. lia.
    + intros Hm. specialize (I2 Hm). lia.
    + intros c0. rewrite I5. intuition congruence.
  - injection E as <-. destruct (I4 c eq_refl) as [Hlt Hn]. split; cbn; try done.
    + unfold running. cbn. rewrite running_insert by done. lia.
    + intros c0 Hc0. destruct (I3 c0 Hc0). split; [|done]. rewrite lookup_insert_ne; [done|lia].
    + intros c0. rewrite I5. destruct (decide (c = c0)) as [->|Hne].
      * rewrite lookup_insert. rewrite decide_True by done. intuition congruence.
      * rewrite lookup_insert_ne by done. intuition congruence.
Qed.

Lemma inv_handler s a s' : server_inv s -> handler_act s a = Some s' -> server_inv s'.
Proof.
  intros [I1 I2 I3 I4 I5] E. unfold handler_act in E. destruct a; try done;
    destruct (sv_handlers s !! c) as [pc|] eqn:Eh; try done; destruct pc; try done; injection E as <-;
    assert (forall c0, in_hand s = Some c0 -> c0 <> c) as Hne
      by (intros c0 Hc0 ->; destruct (I4 _ Hc0) as [_ Hx]; congruence);
    assert (c < sv_next s) as Hlt
      by (destruct (decide (c < sv_next s)) as [|Hge]; [done|]; destruct (I3 c) as [Hx _]; [lia|congruence]).
  - split; cbn; try done.
    + unfold running. cbn. by rewrite (running_update s c Handling).
    + intros c0 Hc0. destruct (I3 c0 Hc0). rewrite lookup_insert_ne by lia. set_solver.
    + intros c0 Hc0. destruct (I4 c0 Hc0). rewrite lookup_insert_ne by (by apply not_eq_sym, Hne). done.
    + intros c0. rewrite elem_of_difference, elem_of_singleton, I5. unfold in_hand in Hne.
      destruct (decide (c = c0)) as [->|Hd].
      * rewrite lookup_insert, decide_True by done. split; [intuition|].
        intros [?|[Hx|Hx]]; [done|..]; exfalso; rewrite Hx in Hne; by apply (Hne c0).
      * rewrite lookup_insert_ne by done. intuition congruence.
  - split; cbn; try done.
    + pose proof (running_leave s c Deleted Eh) as Hr. unfold running, in_flight in *. cbn. rewrite I1.
      rewrite <- Hr by done. lia.
    + intros Hm. specialize (I2 Hm). lia.
    + intros c0 Hc0. destruct (I3 c0 Hc0). by rewrite lookup_insert_ne by lia.
    + intros c0 Hc0. destruct (I4 c0 Hc0). by rewrite lookup_insert_ne by (by apply not_eq_sym, Hne).
    + intros c0. rewrite I5. destruct (decide (c = c0)) as [->|Hd].
      * rewrite lookup_insert, decide_True by done. rewrite Eh. intuition congruence.
      * by rewrite lookup_insert_ne by done.
  - split; cbn; try done.
    + unfold running. cbn. by rewrite running_delete.
    + intros c0 Hc0. destruct (I3 c0 Hc0). by rewrite lookup_delete_ne by lia.
    + intros c0 Hc0. destruct (I4 c0 Hc0). by rewrite lookup_delete_ne by (by apply not_eq_sym, Hne).
    + intros c0. rewrite I5. destruct (decide (c = c0)) as [->|Hd].
      * rewrite lookup_delete, decide_True by done. rewrite Eh. intuition congruence.
      * by rewrite lookup_delete_ne by done.
Qed.

Lemma inv_close s a s' : server_inv s -> close_act s a = Some s' -> server_inv s'.
Proof.
  intros [I1 I2 I3 I4 I5] E. unfold close_act in E.
  destruct a; try (by destruct (sv_closer s)).
  - destruct (sv_closing s); injection E as <-; by split.
  - destruct (sv_closer s) as [|ln cs|cs|]; try done. destruct ln; injection E as <-; by split.
  - destruct (sv_closer s) as [|ln cs|cs|]; try done. destruct (bool_decide _); [|done].
    injection E as <-; by split.
  - destruct (sv_closer s) as [|ln cs|cs|]; try done. destruct (bool_decide _); [|done].
    injection E as <-; by split.
Qed.

Lemma inv_reachable s : reachable s -> server_inv s.
Proof.
  induction 1 as [|s a s' _ IH E].
  - split; try done; cbn; [lia|set_solver].
  - unfold Server.server_act in E. destruct (serve_act maxConns s a) as [s1|] eqn:E1.
    { injection E as <-. by eapply inv_serve. }
    destruct (handler_act s a) as [s1|] eqn:E2.
    { injection E as <-. by eapply inv_handler. }
    by eapply inv_close.
Qed.

(** C29 The connection limit holds: in every state the server can reach, whatever
    the interleaving of the accept loop, the connections' goroutines and
    [Close], the active counter is exactly the number of connections being
    served and counted, plus the one the accept loop has counted and not yet
    handed over, and with a limit configured it never exceeds it; the map of
    connections holds exactly those being served and the one being tracked. *)
Theorem connections_bounded s :
  reachable s ->
  sv_active s = (Z.of_nat (size (running s)) + in_flight s)%Z
  /\ ((0 < maxConns)%Z -> (sv_active s <= maxConns)%Z)
  /\ forall c, c ∈ sv_conns s <->
       sv_handlers s !! c = Some Handling \/ sv_accept s = Mapped c \/ sv_accept s = Counted c.
Proof.
  intros [I1 I2 I3 I4 I5]%inv_reachable. split; [done|]. split; [|done].
  intros Hm. specialize (I2 Hm). destruct (sv_accept s); lia.
Qed.

(** ** [Close] *)

(** What a call of [Close] that found the connections [cs] and the listener
    [ln] has done so far. *)
Definition close_progress (ln : listener) (cs : gset nat) (s : Server) : Prop :=
  (ln = NoListener \/ sv_accept s <> Starting) /\
  match sv_closer s with
  | NotClosing => False
  | Closing ln' cs' => ln' = ln /\ cs' = cs
  | HangingUp cs' => cs ⊆ sv_hung s ∪ cs' /\ (ln <> NoListener -> sv_listener s = ListenerClosed)
  | Closed => cs ⊆ sv_hung s /\ (ln <> NoListener -> sv_listener s = ListenerClosed)
  end.

Lemma progress_serve ln cs s a s' :
  close_progress ln cs s -> serve_act maxConns s a = Some s' -> close_progress ln cs s'.
Proof.
  unfold close_progress, serve_act. intros [Hst Hc] E.
  destruct (sv_accept s) as [| |c|c|c|c|] eqn:Ea; destruct a; try done.
  - destruct Hst as [->|?]; [|done]. injection E as <-. cbn. split; [by left|].
    destruct (sv_closer s); intuition.
  - destruct (sv_listener s) eqn:El; try done. injection E as <-. cbn. rewrite El. split; [by right|done].
  - injection E as <-. cbn. split; [by right|done].
  - destruct (_ && _); injection E as <-; cbn; (split; [by right|]); [|done].
    destruct (sv_closer s); intuition; set_solver.
  - injection E as <-. cbn. split; [by right|done].
  - injection E as <-. cbn. split; [by right|done].
  - injection E as <-. cbn. split; [by right|done].
Qed.

Lemma progress_handler ln cs s a s' :
  close_progress ln cs s -> handler_act s a = Some s' -> close_progress ln cs s'.
Proof.
  unfold close_progress, handler_act. intros Hc E.
  destruct a; try done; destruct (sv_handlers s !! c) as [pc|]; try done; destruct pc; try done;
    injection E as <-; try exact Hc.
  cbn. destruct (sv_closer s); intuition; set_solver.
Qed.

Lemma progress_close ln cs s a s' :
  sv_closing s = true -> close_progress ln cs s -> close_act s a = Some s' -> close_progress ln cs s'.
Proof.
  unfold close_progress, close_act. intros Hcl [Hst Hc] E.
  destruct a; try (by destruct (sv_closer s)).
  - rewrite Hcl in E. by injection E as <-.
  - destruct (sv_closer s) as [|ln' cs'|cs'|]; try done. destruct Hc as [-> ->].
    destruct ln; injection E as <-; cbn; (split; [done|]); (split; [set_solver|done]).
  - destruct (sv_closer s) as [|ln' cs'|cs'|]; try done. case_bool_decide; [|done].
    injection E as <-. cbn. split; [done|]. destruct Hc as [Hc Hl]. split; [|done].
    intros x Hx. specialize (Hc x Hx). destruct (decide (x = c)); set_solver.
  - destruct (sv_closer s) as [|ln' cs'|cs'|]; try done. case_bool_decide as Hem; [|done].
    injection E as <-. cbn. split; [done|]. destruct Hc as [Hc Hl]. split; [set_solver|done].
Qed.

Lemma closing_stays s a s' : sv_closing s = true -> server_act s a = Some s' -> sv_closing s' = true.
Proof.
  unfold Server.server_act, serve_act, handler_act, close_act. intros Hc E.
  destruct a; destruct (sv_accept s); try done; repeat case_match; try done; simplify_eq; done.
Qed.

Lemma progress_run ln cs s acts s' :
  sv_closing s = true -> close_progress ln cs s -> server_run maxConns s acts = Some s' ->
  close_progress ln cs s'.
Proof.
  revert s. induction acts as [|a acts IH]; intros s Hcl Hp E; [by injection E as <-|].
  cbn [server_run] in E. destruct (server_act s a) as [s1|] eqn:E1; [|done].
  refine (IH s1 (closing_stays _ _ _ Hcl E1) _ E). unfold Server.server_act in E1.
  destruct (serve_act maxConns s a) eqn:Es; [injection E1 as <-; by eapply progress_serve|].
  destruct (handler_act s a) eqn:Eh; [injection E1 as <-; by eapply progress_handler|].
  by eapply progress_close.
Qed.

Lemma starting_reachable s :
  reachable s -> sv_accept s = Starting ->
  sv_listener s = NoListener /\ forall ln cs, sv_closer s = Closing ln cs -> ln = NoListener.
Proof.
  induction 1 as [|s a s' _ IH E]; [done|]. revert E.
  unfold Server.server_act, serve_act, handler_act, close_act.
  destruct a; destruct (sv_accept s) eqn:Ea; repeat case_match; intros E Hst; simplify_eq; cbn in *;
    try congruence; rewrite ?Ea in *; destruct (IH eq_refl) as [Hl Hc]; (split; [|naive_solver]);
    try done; by specialize (Hc _ _ eq_refl).
Qed.

(** [Close] finishes its work: whatever the other goroutines do meanwhile, when
    the call returns the listener it found is closed and every connection that
    was tracked at the call has been hung up on. *)
Theorem close_hangs_up s acts s' :
  reachable s -> sv_closing s = false ->
  server_run maxConns s (CallClose :: acts) = Some s' -> sv_closer s' = Closed ->
  sv_conns s ⊆ sv_hung s' /\ (sv_listener s <> NoListener -> sv_listener s' = ListenerClosed).
Proof.
  intros Hr Hcl E Hd. cbn [server_run] in E.
  assert (server_act s CallClose = Some (with_closer s true (Closing (sv_listener s) (sv_conns s)))) as E1.
  { unfold Server.server_act, serve_act, handler_act, close_act. rewrite Hcl. by destruct (sv_accept s). }
  rewrite E1 in E.
  assert (close_progress (sv_listener s) (sv_conns s) s') as [_ Hp].
  { refine (progress_run _ _ _ _ _ _ _ E); [done|]. split; [|by split]. cbn.
    destruct (sv_listener s) eqn:El; [by left|right..]; intros Ha;
      destruct (starting_reachable s Hr Ha); congruence. }
  by rewrite Hd in Hp.
Qed.
End Machine.

Lemma connections_bounded_witness :
  exists s, server_run 1 new_server [Listen; Accept; CheckCapacity; TrackConn; TrackActive; TrackTotal;
      Accept; CheckCapacity] = Some s
    /\ (sv_active s <= 1)%Z /\ sv_hung s = {[1]}.
Proof.
  eexists. split; [vm_compute; reflexivity|]. split; [|vm_compute; reflexivity].
  refine (proj1 (proj2 (connections_bounded 1 _ _)) _); [|reflexivity].
  refine (reachable_run 1 new_server [Listen; Accept; CheckCapacity; TrackConn; TrackActive; TrackTotal;
    Accept; CheckCapacity] _ (reach_new 1) _). vm_compute. reflexivity.
Defined.

Definition one_served : list action :=
  [Listen; Accept; CheckCapacity; TrackConn; TrackActive; TrackTotal].

Definition served_one : Server := default new_server (server_run 0 new_server one_served).
Definition served_none : Server :=
  default new_server (server_run 0 served_one [CallClose; CloseListener; CloseConn 0; CloseReturns]).

Lemma close_hangs_up_witness : sv_conns served_one ⊆ sv_hung served_none /\ sv_conns served_one = {[0]}.
Proof.
  split; [|vm_compute; reflexivity].
  refine (proj1 (close_hangs_up 0 served_one [CloseListener; CloseConn 0; CloseReturns] served_none _ _ _ _)).
  - refine (reachable_run 0 new_server one_served _ (reach_new 0) _). vm_compute. reflexivity.
  - vm_compute. reflexivity.
  - vm_compute. reflexivity.
  - vm_compute. reflexivity.
Defined.

(** ** Where the server departs from its comments *)

(** A connection that was accepted but not yet tracked when [Close] ran is
    served on after [Close] returned and the accept loop ended. *)
Lemma close_misses_accepted_connection :
  exists s, server_run 0 new_server
      [Listen; Accept; CallClose; CloseListener; CloseReturns; CheckCapacity; TrackConn; TrackActive;
       TrackTotal; AcceptFails] = Some s
    /\ sv_closer s = Closed /\ sv_accept s = Returned /\ sv_handlers s !! 0 = Some Handling /\ 0 ∉ sv_hung s.
Proof. eexists. split; [vm_compute; reflexivity|]. repeat (split; [reflexivity|]). by vm_compute. Qed.

(** A [Close] before [Serve] has its listener leaves a server that listens and
    that no later [Close] stops. *)
Lemma close_before_listen max s acts s' :
  server_run max new_server [CallClose; CloseListener; CloseReturns; Listen] = Some s ->
  server_run max s acts = Some s' -> sv_listener s' = Listening /\ sv_closing s' = true.
Proof.
  intros E. injection E as <-. revert acts.
  assert (forall acts q q', sv_listener q = Listening -> sv_closing q = true -> sv_closer q = Closed ->
    sv_accept q <> Starting -> server_run max q acts = Some q' ->
    sv_listener q' = Listening /\ sv_closing q' = true) as Hgen; [|intros acts; by apply Hgen].
  induction acts as [|a acts IH]; intros q q' Hl Hc Hd Ha E; [by injection E as <-|].
  cbn [server_run] in E. destruct (server_act max q a) as [q1|] eqn:E1; [|done].
  assert (sv_listener q1 = Listening /\ sv_closing q1 = true /\ sv_closer q1 = Closed /\ sv_accept q1 <> Starting)
    as (? & ? & ? & ?); [|by eapply IH].
  revert E1. unfold server_act, serve_act, handler_act, close_act. rewrite Hl, Hc, Hd.
  destruct a; destruct (sv_accept q) eqn:Eq; try done; repeat case_match; try done; intros; simplify_eq; cbn;
    rewrite ?Eq; done.
Qed.
