(* ===== verification/LaneProps.v ===== *)
(** * The Postgres lane, end to end

    Bytes on the wire, the codec, the lexer, a rule set, the gate and the relay
    put together: a statement that writes a protected table does not reach the
    database.  Then the concrete sessions on which the hypotheses of the gate's
    and the relay's properties hold. *)

From S2P Require Import Prelude GoStrings GoText Scan Types SqlMeta Inspect Policy PolicyProps.
From S2P Require Import Session Gate GateProps Handshake HandshakeProps Deny Relay RelayProps RelayFlow PgCodec PgFacts PgProps PgRewrite.

Section Lane.
Context `{GoUnicode} `{GoLib} {K : Type}.
Context (sink_Write : K -> Event -> K * option bytes).
Context (error_text : InspectError -> bytes).
Context (cfg : RelayConfig).

(** A denying table rule on writes denies a statement that writes one of its
    tables. *)
Lemma write_rule_denies R stmt ec rs sc r rel want :
  NewRulesWithScanner rs sc = inr R -> r ∈ rsRules R ->
  rlType r = MatchTable -> rlAccess r = AccessWrite -> rlAction r <> ActionDefer ->
  rel ∈ stRelations stmt -> relAccess rel = AccessWrite ->
  want ∈ rlTables r -> name_matches (relName rel) (ToLower want) = true ->
  vDenied (Rules_EvaluateWith R stmt ec).2 = true.
Proof.
  intros HR Hin Ht Ha Hact Hrel Hw Hwant Hn.
  apply (denying_rule_denies rs sc R stmt ec r (messageOr r stmt) HR Hin).
  assert (rule_matches r stmt = inr true) as Hm.
  { apply table_rule_matches; [done|by intros E; rewrite E in Hrel; apply elem_of_nil in Hrel|].
    exists rel, want. by rewrite (accessMatches_write r _ Ha). }
  unfold rule_outcome. rewrite Ht, Hm.
  assert ((rlAction r =s ActionDefer) = false) as -> by (by apply bool_decide_eq_false). done.
Qed.

(** C2 A write to a protected table never reaches the database: on a Postgres
    lane whose policy is an accepted rule set with a denying (not deferring)
    table rule on writes, and whose client inspector starts empty, let the
    client send, in any reads and against any interleaving with the server's
    bytes, a stream of well-formed messages of which one is a simple query
    with a piece that the lexer reports as writing one of the rule's tables.
    Unless an inspection error of the client's direction was logged, as an
    over-long message causes, the upstream never receives that stream of
    messages. *)
Theorem protected_write_never_reaches_upstream
    (g0 : Gate PgCodec K) es rs sc R r ms q s rel want :
  NewRulesWithScanner rs sc = inr R ->
  gcPolicy (g_cfg g0) = Some (Contextual (Rules_EvaluateWith R)) ->
  r ∈ rsRules R -> rlType r = MatchTable -> rlAccess r = AccessWrite ->
  rlAction r <> ActionDefer ->
  stream_ok ms -> MQuery q ∈ ms -> s ∈ Split q Postgres ->
  rel ∈ stRelations (newStatement s (B "Query") []) -> relAccess rel = AccessWrite ->
  want ∈ rlTables r -> name_matches (relName rel) (ToLower want) = true ->
  i_buf (g_client g0) = [] ->
  client_decoded (rl_warned (pump_run sink_Write error_text cfg (open_relay cfg g0) es)) ->
  ~ stream ms `prefix_of` rl_up (pump_run sink_Write error_text cfg (open_relay cfg g0) es).
Proof.
  intros HR Hpol Hin Ht Ha Hact Hok Hq Hs Hrel Hw Hwant Hn Hb Hc [k Hk].
  pose proof (up_ok_run sink_Write error_text cfg g0 es Hb Hc) as Hup. unfold up_ok in Hup.
  rewrite Hk, decode_stream_app in Hup by done.
  destruct (Decode (i_codec (g_client g0)) FromClient k) as [c d]. cbn [dStmts] in Hup.
  destruct Hup as (_ & Hall & _). apply Forall_app in Hall as [Hall _].
  rewrite Forall_forall in Hall.
  assert (vDenied (evaluate g0 (newStatement s (B "Query") [])) = false) as Hv.
  { apply Hall. apply list_elem_of_In in Hq, Hs. apply list_elem_of_In, in_concat.
    exists (client_msg_statements (MQuery q)). split; [by apply in_map|].
    by apply (in_map (fun s => newStatement s (B "Query") [])). }
  unfold evaluate in Hv. rewrite Hpol in Hv.
  by rewrite (write_rule_denies R _ _ rs sc r rel want) in Hv.
Qed.
End Lane.

(** ** Concrete sessions *)

#[local] Existing Instance ascii_only.
#[local] Existing Instance plain_lib.

(** A sink that records nothing further and never fails. *)
Definition good_sink (k : unit) (ev : Event) : unit * option bytes := (k, None).
Definition no_text (e : InspectError) : bytes := [].

Definition lane_session : Session :=
  session_New Protocol.Postgres
    {| idSubject := B "ada"; idEmail := []; idGroups := []; idPeerAddr := []; idAttributes := ∅ |}
    (B "s1") 0.

Definition lane_config : GateConfig PgCodec :=
  {| gcProtocol := Protocol.Postgres;
     gcPolicy := Some (Contextual (Rules_EvaluateWith example_rules));
     gcAudit := true; gcMasker := None; gcFailOnAuditError := true; gcMaxBuffer := 0;
     gcCodecFactory := Some (fun _ => Some new_pg) |}.

Definition lane_gate : Gate PgCodec unit :=
  Build_Gate lane_config lane_session (NewWithCodec new_pg) (NewWithCodec new_pg)
    (PolicyContext lane_session) None false 0 0 false tt [].

Lemma lane_gate_built :
  gate_New ∅ (fun _ => None) lane_session lane_config tt = inr lane_gate.
Proof. reflexivity. Qed.

Definition read_query : bytes := stream [MQuery (B "select 1")].
Definition drop_messages : list client_msg :=
  [MQuery (B "select 1"); MQuery (B "select 2; drop table public.customers")].

Lemma drop_messages_ok : stream_ok drop_messages.
Proof.
  repeat constructor; try (vm_compute; intros; congruence);
    unfold no_nul; apply (bool_decide_unpack _); vm_compute; exact I.
Defined.

Lemma allowed_is_judged_and_recorded_witness :
  length (dcStatements (inspect good_sink no_text lane_gate FromClient read_query 1).2) = 1 /\
  g_statements (inspect good_sink no_text lane_gate FromClient read_query 1).1 = 1%Z.
Proof.
  destruct (inspect good_sink no_text lane_gate FromClient read_query 1) as [g' d] eqn:E.
  destruct (Inspect (side_of lane_gate FromClient) FromClient read_query) as [i [st er]] eqn:Ei.
  cbn [fst snd]. destruct (allowed_is_judged_and_recorded good_sink no_text lane_gate FromClient read_query 1
    g' d i st er Ei E) as (_ & -> & _ & _ & rs & _ & _ & -> & _).
  - apply (f_equal (fun p => dcAllowed p.2)) in E. cbn [snd] in E. rewrite <- E. vm_compute. reflexivity.
  - apply (f_equal (fun p => length p.2.1)) in Ei. cbn [fst snd] in Ei. rewrite <- Ei.
    vm_compute. split; reflexivity.
Defined.

Lemma denied_is_not_forwarded_witness :
  dcPayload (inspect good_sink no_text lane_gate FromClient (stream drop_messages) 1).2 = [].
Proof.
  destruct (inspect good_sink no_text lane_gate FromClient (stream drop_messages) 1) as [g' d] eqn:E.
  destruct (Inspect (side_of lane_gate FromClient) FromClient (stream drop_messages)) as [i [st er]] eqn:Ei.
  destruct (denied_is_not_forwarded good_sink no_text lane_gate FromClient (stream drop_messages) 1
    g' d i st er Ei E) as [[He _]|(_ & Hp & _)].
  - apply (f_equal (fun p => dcAllowed p.2)) in E. cbn [snd] in E. rewrite <- E. vm_compute. reflexivity.
  - apply (f_equal (fun p => p.2.2)) in Ei. cbn [fst snd] in Ei. rewrite <- Ei in He.
    vm_compute in He. discriminate.
  - exact Hp.
Defined.

Lemma unsafe_stream_always_refused_witness :
  dcAllowed (inspect good_sink no_text lane_gate FromClient gss_request 1).2 = false.
Proof.
  refine (proj1 (unsafe_stream_always_refused good_sink no_text lane_gate FromClient gss_request 1
    (NewWithCodec new_pg) [] _)).
  vm_compute. reflexivity.
Defined.

(** Start twice, a query, a refused query, close twice. *)
Definition lane_ops : list (gate_op * Z) :=
  [(DoStart, 0); (DoStart, 1); (DoRequest read_query, 2);
   (DoRequest (stream drop_messages), 3); (DoClose, 4); (DoClose, 5)]%Z.

Lemma session_trail_consistent_witness :
  count_statements (g_log (gate_run good_sink no_text lane_gate lane_ops)) = 4%Z /\
  count_kind KindSessionEnd (g_log (gate_run good_sink no_text lane_gate lane_ops)) = 1%Z.
Proof.
  pose proof (session_trail_consistent good_sink no_text ∅ (fun _ => None) lane_session lane_config
    tt lane_gate lane_ops lane_gate_built eq_refl) as [_ He Hs _ _].
  rewrite <- Hs, He. split; vm_compute; reflexivity.
Defined.

(** Upstream TLS and denials in the client's protocol. *)
Definition lane_relay : RelayConfig :=
  {| rc_Protocol := Protocol.Postgres; rc_UpstreamTLS := true;
     rc_DenyWriter := Some (fun p _ msg => Deny_frame p msg) |}.

(** The client's bytes arrive in two reads, a server chunk in between. *)
Definition lane_events : list pump_event :=
  [Chunk FromClient (take 20 (stream drop_messages)) 1 None;
   Chunk FromServer (frame x5a [x49]) 2 None;
   Chunk FromClient (drop 20 (stream drop_messages)) 3 None;
   Chunk FromClient read_query 4 None].

Lemma lane_events_clean :
  client_decoded (rl_warned (pump_run good_sink no_text lane_relay (open_relay lane_relay lane_gate) lane_events)).
Proof. intros e. vm_compute. intros Hin. inversion Hin. Qed.

Lemma upstream_receives_only_allowed_witness :
  length (rl_up (pump_run good_sink no_text lane_relay (open_relay lane_relay lane_gate) lane_events)) = 20 /\
  allowed_all lane_gate (dStmts (Decode new_pg FromClient
    (rl_up (pump_run good_sink no_text lane_relay (open_relay lane_relay lane_gate) lane_events))).2).
Proof.
  split; [vm_compute; reflexivity|].
  refine (upstream_receives_only_allowed good_sink no_text lane_relay lane_gate lane_events _ lane_events_clean).
  reflexivity.
Defined.

Lemma protected_write_never_reaches_upstream_witness :
  ~ stream drop_messages `prefix_of`
    rl_up (pump_run good_sink no_text lane_relay (open_relay lane_relay lane_gate) lane_events).
Proof.
  apply (protected_write_never_reaches_upstream good_sink no_text lane_relay lane_gate lane_events
    [defer_words; no_writes] None example_rules no_writes drop_messages
    (B "select 2; drop table public.customers") (B "drop table public.customers")
    {| relName := B "public.customers"; relAccess := AccessWrite |} (B "Customers")).
  - vm_compute. reflexivity.
  - reflexivity.
  - right. left.
  - reflexivity.
  - reflexivity.
  - discriminate.
  - exact drop_messages_ok.
  - right. left.
  - apply (bool_decide_unpack _). vm_compute. exact I.
  - apply (bool_decide_unpack _). vm_compute. exact I.
  - reflexivity.
  - left.
  - vm_compute. reflexivity.
  - reflexivity.
  - exact lane_events_clean.
Defined.

(** The codec of a server's stream holds bytes back only in [Rewrite]. *)
Definition pg_holds_nothing (c : PgCodec) : Prop := pg_held c = [] /\ pg_pending c = [].

Lemma server_step_keeps c data :
  match server_step c data with
  | NeedMore c' | Frame _ c' _ | Refuse _ c' _ => pg_held c' = pg_held c /\ pg_pending c' = pg_pending c
  end.
Proof.
  unfold server_step, countRow, flushResult. destruct (read_message data) as [| |tag payload total]; try done.
  by repeat case_match; simplify_eq/=.
Qed.

Lemma server_frames_keep fuel : forall c data, pg_holds_nothing c -> pg_holds_nothing (frames server_step fuel c data).1.
Proof.
  induction fuel as [|fuel IH]; intros c [|x data] Hc; cbn [frames]; try done.
  destruct Hc as [H1 H2]. pose proof (server_step_keeps c (x :: data)) as Hk.
  destruct (server_step c (x :: data)) as [c'|n c' e|n c' stmts]; destruct Hk as [K1 K2];
    (assert (pg_holds_nothing c') as Hc' by (split; congruence)); try done.
  specialize (IH c' (drop n (x :: data)) Hc'). by destruct (frames server_step fuel c' _).
Qed.

Definition pg_holds_back (rf : Reframer PgCodec) (Hf : forall c, rf_Flush rf c None = Flush c None) : HoldsBack rf.
Proof.
  refine {| holds_nothing := pg_holds_nothing |}.
  - intros c buf. apply server_frames_keep.
  - intros c [H1 H2]. rewrite Hf. cbn. by rewrite H1, H2.
Defined.

(** A gate whose codec re-frames; without a masker it is never asked to. *)
Definition pg_reframer : Reframer PgCodec :=
  {| rf_Rewrite c data mask :=
       let '(c, w) := Rewrite c data (Some mask) in
       (c, {| rf_out := rwOut w; rf_res := rwResult w; rf_err := rwErr w; rf_calls := [] |});
     rf_Flush := Flush |}.

Definition wire_gate : Gate PgCodec unit :=
  Build_Gate lane_config lane_session (NewWithCodec new_pg) (NewWithCodec new_pg)
    (PolicyContext lane_session) (Some pg_reframer) false 0 0 false tt [].

(** A login whose SASL offer arrives in two reads, then a query; both sides
    hang up. *)
Definition offer : bytes := sasl_offer [pgSCRAMChannelBinding; B "SCRAM-SHA-256"].
Definition quiet_events : list pump_event :=
  [Chunk FromServer (take 7 offer) 1 None; Chunk FromClient (take 9 read_query) 2 None;
   Chunk FromServer (drop 7 offer) 3 None; Chunk FromClient (drop 9 read_query) 4 None;
   ReadEnd FromClient; ReadEnd FromServer].

Lemma relay_transparent_witness :
  rl_up (pump_run good_sink no_text lane_relay (open_relay lane_relay wire_gate) quiet_events) = read_query /\
  rl_down (pump_run good_sink no_text lane_relay (open_relay lane_relay wire_gate) quiet_events)
  = sasl_offer [B "SCRAM-SHA-256"].
Proof.
  destruct (relay_transparent good_sink no_text lane_relay wire_gate quiet_events) as [Hu [_ Hs]].
  - reflexivity.
  - intros rf [= <-]. exists (pg_holds_back pg_reframer (fun _ => eq_refl)). split; reflexivity.
  - repeat constructor.
  - vm_compute. reflexivity.
  - rewrite Hu. split; [vm_compute; reflexivity|].
    rewrite (Hs [] [B "SCRAM-SHA-256"] []); [vm_compute; reflexivity|constructor| |vm_compute; reflexivity].
    apply (bool_decide_unpack _). vm_compute. exact I.
Defined.

Lemma refused_request_ends_witness :
  rl_up (pump_run good_sink no_text lane_relay
    (pump_step good_sink no_text lane_relay (open_relay lane_relay lane_gate)
       (Chunk FromClient (stream drop_messages) 1 None)) lane_events) = [].
Proof.
  destruct (Request good_sink no_text lane_gate (stream drop_messages) 1) as [g d] eqn:E.
  refine (proj2 (proj2 (refused_request_ends good_sink no_text lane_relay (open_relay lane_relay lane_gate)
    (stream drop_messages) 1 g d (fun p _ msg => Deny_frame p msg) lane_events _ _ _ E _))).
  - reflexivity.
  - discriminate.
  - reflexivity.
  - apply (f_equal (fun p => dcAllowed p.2)) in E. cbn [snd] in E. rewrite <- E. vm_compute. reflexivity.
Defined.

(** The frame is written where the server's stream stands: when a request is
    refused while a response is half delivered, the explanation lands inside
    that message and the client cannot read it. *)
Lemma denial_lands_inside_message :
  let row := frame x44 (B "a row that spans two reads") in
  let es := [Chunk FromServer (take 12 row) 1 None; Chunk FromClient (stream drop_messages) 2 None] in
  let r := pump_run good_sink no_text lane_relay (open_relay lane_relay lane_gate) es in
  rl_denied r = 1%Z /\
  exists payload total, read_message (rl_down r) = HMessage x44 payload total
    /\ take 7 payload = B "a row t" /\ drop 7 payload `prefix_of` PostgresError (rlMessage no_writes).
Proof.
  cbv zeta. split; [vm_compute; reflexivity|]. eexists _, _. split; [vm_compute; reflexivity|].
  split; [reflexivity|]. apply (bool_decide_unpack _). vm_compute. exact I.
Qed.
