(* ===== verification/HandleProps.v ===== *)
(** * The life of one connection

    Whatever the upstream, the client and the two pumps do, a connection that
    got a gate leaves one opening and one closing record around everything
    else it recorded. *)

From S2P Require Import Prelude GoStrings GoText Scan Types SqlMeta Inspect Policy PolicyProps.
From S2P Require Import Session Gate GateProps Handshake HandshakeProps Deny Relay RelayProps RelayFlow Server.
From S2P Require Import PgCodec PgFacts PgProps LaneProps.

Section Handle.
Context {C K N : Type} `{Codec C}.
Context (sink_Write : K -> Event -> K * option bytes).
Context (error_text : InspectError -> bytes).
Context (RemoteAddr : N -> bytes).
Context (reg : Registry C) (as_reframer : C -> option (Reframer C)).

#[local] Abbreviation gate := (Gate C K).
#[local] Abbreviation gate_run := (gate_run sink_Write error_text).
#[local] Abbreviation handle := (handle sink_Write error_text RemoteAddr reg as_reframer).









Definition gate_of (res : HandleResult C K) : option gate :=
  match res with
  | SetupFailed _ => None
  | DialFailed g | NegotiationFailed g _ | Relayed g _ => Some g
  end.









End Handle.

(** ** A concrete connection *)

#[local] Existing Instance ascii_only.
#[local] Existing Instance plain_lib.

Definition pg_server : ServerConfig PgCodec unit :=
  {| scListen := B "0.0.0.0:15432"; scNetwork := B "tcp"; scUpstream := B "appdb:5432";
     scUpstreamTLS := false; scDownstreamTLS := None; scProtocol := Protocol.Postgres;
     scConnection := B "appdb"; scPolicy := Some (Contextual (Rules_EvaluateWith example_rules));
     scAudit := true; scMasker := None; scFailOnAuditError := true;
     scDenyWriter := Some (fun p _ msg => Deny_frame p msg); scIdentityFn := None;
     scCodecFactory := Some (fun _ => Some new_pg); scDialTimeout := 0; scMaxConns := 0 |}.

(** The client names its user, sends a query, and one that is refused. *)
Definition pg_incoming : Incoming unit :=
  {| in_conn := tt; in_fresh := B "s1"; in_start := 0; in_dial := None; in_dialed := 1;
     in_client := demo_conn [demo_startup];
     in_events := [Chunk FromClient read_query 2 None; Chunk FromClient (stream drop_messages) 3 None;
                   ReadEnd FromServer];
     in_end := 9 |}.

Definition pg_handled : HandleResult PgCodec unit :=
  handle good_sink no_text (fun _ => B "10.0.0.7:4711") ∅ (fun _ => None) pg_server tt pg_incoming.



(** The user a pgwire client names reaches the records of its statements, but
    not the opening record, written before it is read, nor the context the
    policy judges with, taken when the gate is built. *)
Lemma claimed_user_unknown_to_policy :
  match gate_of pg_handled with
  | None => False
  | Some g =>
      map (fun p => evPrincipal p.1) (g_log g)
        = [B "anonymous"; B "ann"; B "ann"; B "ann"; B "ann"; B "ann"]
      /\ g_polCtx g !! B "principal" = Some (B "anonymous") /\ g_polCtx g !! B "subject" = None
  end.
Proof. vm_compute. repeat split; reflexivity. Qed.
