(* ===== verification/TdsLane.v ===== *)
(** * The MSSQL lane, end to end

    TDS bytes on the wire, the codec, the lexer, a rule set, the gate and the
    relay put together, with an in-memory audit sink; concrete sessions for the
    codec's properties; and the places where the codec departs from its
    comments. *)

From S2P Require Import Prelude GoStrings GoText Utf Scan Types SqlMeta Inspect Policy PolicyProps.
From S2P Require Import Session Sinks Gate GateProps Relay RelayProps LaneProps.
From S2P Require Import TdsCodec TdsFacts TdsProps.

Section Lane.
Context `{GoUnicode} `{GoLib} {K : Type}.
Context (sink_Write : K -> Event -> K * option bytes).
Context (error_text : InspectError -> bytes).
Context (cfg : RelayConfig).

(** C3 A write to a protected table never reaches SQL Server: on an MSSQL lane
    whose policy is an accepted rule set with a denying (not deferring) table
    rule on writes, and whose client side starts outside TLS with nothing
    buffered or pending, let the client send, in any reads and against any
    interleaving with the server's bytes, a stream of batches with ALL_HEADERS,
    calls of sp_executesql by its number with the statement as a short
    NVARCHAR, and packets of other types, of which one batch or call has a
    text that the lexer reports as writing one of the rule's tables.  Unless
    an inspection error of the client's direction was logged, the upstream
    never receives that stream of messages.  TLS records, calls of other
    procedures or by name, and NVARCHAR(MAX) statements are not among the
    messages. *)
Theorem tds_protected_write_never_reaches_upstream
    (g0 : Gate TdsCodec K) es rs sc R r its it s rel want :
  NewRulesWithScanner rs sc = inr R ->
  gcPolicy (g_cfg g0) = Some (Contextual (Rules_EvaluateWith R)) ->
  r ∈ rsRules R -> rlType r = MatchTable -> rlAccess r = AccessWrite ->
  rlAction r <> ActionDefer ->
  Forall item_ok its -> it ∈ its ->
  s ∈ item_statements (td_loginEncrypted (i_codec (g_client g0))) it ->
  rel ∈ stRelations s -> relAccess rel = AccessWrite ->
  want ∈ rlTables r -> name_matches (relName rel) (ToLower want) = true ->
  i_buf (g_client g0) = [] -> td_inTLS (i_codec (g_client g0)) = false ->
  td_pending (i_codec (g_client g0)) = [] ->
  client_decoded (rl_warned (pump_run sink_Write error_text cfg (open_relay cfg g0) es)) ->
  ~ items_bytes its `prefix_of` rl_up (pump_run sink_Write error_text cfg (open_relay cfg g0) es).
Proof.
  intros HR Hpol Hin Ht Ha Hact Hok Hit Hs Hrel Hw Hwant Hn Hb Htls Hpend Hc [k Hk].
  pose proof (up_ok_run sink_Write error_text cfg g0 es Hb Hc) as Hup. unfold up_ok in Hup.
  rewrite Hk in Hup. set (c0 := i_codec (g_client g0)) in *.
  pose proof (items_run c0 its k Htls Hpend Hok) as Hrun. unfold iterate in Hrun.
  rewrite decode_frames in Hup. change (frames frame_step) with (frames tds_client_step) in Hup.
  rewrite Hrun in Hup.
  destruct Hup as (_ & Hall & _). cbn [dStmts after snd] in Hall.
  apply Forall_app in Hall as [Hall _]. rewrite Forall_forall in Hall.
  assert (vDenied (evaluate g0 s) = false) as Hv.
  { apply Hall. apply list_elem_of_In in Hit, Hs. apply list_elem_of_In, in_concat.
    exists (item_statements (td_loginEncrypted c0) it). split; [by apply in_map|done]. }
  unfold evaluate in Hv. rewrite Hpol in Hv.
  by rewrite (write_rule_denies R _ _ rs sc r rel want) in Hv.
Qed.
End Lane.

(** ** Concrete sessions *)

#[local] Existing Instance ascii_only.
#[local] Existing Instance plain_lib.

Definition runes (s : bytes) : list Z := map bval s.
Definition tail0 : tail4 := {| t_spid1 := x00; t_spid2 := x00; t_id := x01; t_window := x00 |}.

(** A batch in two packets, a call, and the login packets around them. *)
Definition demo_batch (sql : bytes) : tds_item :=
  let body := batch_body (repeat x00 18) (runes sql) in
  ItBatch (repeat x00 18) (runes sql) [(tail0, take 30 body); (tail0, drop 30 body)].

Definition demo_exec (sql : bytes) : tds_item :=
  let x := {| ex_hdr := repeat x00 18; ex_flags := [x00; x00]; ex_name := []; ex_status := x00;
              ex_info := [x40; x1f; x09; x04; xd0; x00; x34]; ex_more := [] |} in
  ItExec x (runes sql) [(tail0, exec_body x (runes sql))].

Definition demo_prelogin : tds_item := ItOther pktPrelogin true tail0 [xff].

Definition demo_items : list tds_item :=
  [demo_prelogin; demo_exec (B "select 1"); demo_batch (B "drop table public.customers")].

Lemma carries_check ps body :
  forallb (fun p : tail4 * bytes => (Z.of_nat (length p.2) <=? 65527)%Z) ps = true ->
  negb (length ps =? 0)%nat = true -> body_of ps = body ->
  (Z.of_nat (length body) <=? maxMessageLen)%Z = true -> carries ps body.
Proof.
  intros H1 H2 H3 H4. split; [by destruct ps|]. split; [|split; [done|lia]].
  rewrite List.forallb_forall in H1. apply List.Forall_forall. intros p Hp.
  specialize (H1 p Hp). unfold packet_ok. lia.
Qed.

Lemma demo_items_ok : Forall item_ok demo_items.
Proof.
  repeat apply List.Forall_cons; try apply List.Forall_nil.
  - split; [done|]. split; [done|]. unfold packet_ok. simpl. lia.
  - split; [apply carries_check; by vm_compute|]. split; [by repeat constructor|].
    split; [by vm_compute|]. split; [done|]. split; [exists 0; split; [lia|done]|].
    split; [done|]. by vm_compute.
  - split; [apply carries_check; by vm_compute|]. split; [by repeat constructor|]. by vm_compute.
Defined.

Lemma tds_statements_recovered_witness :
  map stText (dStmts (Decode new_tds FromClient (items_bytes demo_items)).2)
  = [B "select 1"; B "drop table public.customers"].
Proof.
  pose proof (tds_statements_recovered demo_items demo_items_ok) as HR.
  destruct (Decode new_tds FromClient (items_bytes demo_items)) as [c r].
  destruct HR as (HS & _). cbn [snd]. rewrite HS. by vm_compute.
Defined.

Definition demo_record : tls_rec :=
  {| tr_type := x17; tr_minor := x03; tr_payload := repeat xaa 40 |}.

Lemma tds_encrypted_login_witness :
  map (fun s => stMetadata s !! metaEncryptedLogin)
    (dStmts (Decode new_tds FromClient
       (tds_packet pktPrelogin true tail0 [xff] ++ recs_bytes [demo_record]
        ++ items_bytes [demo_batch (B "select 1")])).2) = [Some (B "true")].
Proof.
  pose proof (tds_encrypted_login tail0 [xff] [demo_record] [demo_batch (B "select 1")]) as HR.
  destruct (Decode new_tds FromClient _) as [c r]. cbn [snd]. destruct HR as [-> _].
  - unfold packet_ok. simpl. lia.
  - repeat apply List.Forall_cons; try apply List.Forall_nil.
    split; [tauto|]. split; by vm_compute.
  - done.
  - by vm_compute.
  - repeat apply List.Forall_cons; try apply List.Forall_nil.
    split; [apply carries_check; by vm_compute|]. split; [by repeat constructor|]. by vm_compute.
  - done.
  - by vm_compute.
Defined.

Lemma encrypted_window_bounded_witness :
  dErr (Decode (Decode new_tds FromClient
    (tds_packet pktPrelogin true tail0 [xff] ++ recs_bytes [demo_record]
     ++ items_bytes [demo_batch (B "select 1")])).1 FromClient (recs_bytes [demo_record])).2
  = Some ErrStreamUnsafe.
Proof.
  pose proof (encrypted_window_bounded
    (tds_packet pktPrelogin true tail0 [xff] ++ recs_bytes [demo_record]
     ++ items_bytes [demo_batch (B "select 1")])) as HR.
  destruct (Decode new_tds FromClient _) as [c r] eqn:E. vm_compute in E.
  injection E as <- <-. cbn [fst]. destruct HR as (_ & _ & HR & _); [done|].
  destruct HR as (_ & _ & HR); [done|]. apply HR; [vm_compute; lia|done].
Defined.

Definition demo_redirect : redirect :=
  {| rd_port := 1433; rd_server := runes (B "other"); rd_old := [x00; x00] |}.

Lemma routing_redirect_refused_witness :
  let body := [xaa; xe3; x01] ++ redirect_token demo_redirect ++ [xfd] in
  dErr (Decode new_tds FromServer
    (tds_message pktReply [(tail0, take 9 body); (tail0, drop 9 body)] ++ [x04])).2
  = Some ErrStreamUnsafe.
Proof.
  intros body.
  apply (routing_redirect_refused new_tds _ [xaa; xe3; x01] demo_redirect [xfd]); try done.
  - repeat apply List.Forall_cons; try apply List.Forall_nil; unfold packet_ok; simpl; lia.
Defined.

(** ** The lane *)

Definition mssql_session : Session :=
  session_New Protocol.MSSQL
    {| idSubject := B "ada"; idEmail := []; idGroups := []; idPeerAddr := []; idAttributes := ∅ |}
    (B "s1") 0.

Definition mssql_config : GateConfig TdsCodec :=
  {| gcProtocol := Protocol.MSSQL;
     gcPolicy := Some (Contextual (Rules_EvaluateWith example_rules));
     gcAudit := true; gcMasker := None; gcFailOnAuditError := true; gcMaxBuffer := 0;
     gcCodecFactory := Some (fun _ => Some new_tds) |}.

Definition mssql_gate : Gate TdsCodec MemorySink :=
  Build_Gate mssql_config mssql_session (NewWithCodec new_tds) (NewWithCodec new_tds)
    (PolicyContext mssql_session) None false 0 0 false (NewMemorySink 4) [].

Definition mssql_relay : RelayConfig :=
  {| rc_Protocol := Protocol.MSSQL; rc_UpstreamTLS := false; rc_DenyWriter := None |}.

Definition mssql_events : list pump_event :=
  [Chunk FromClient (take 60 (items_bytes demo_items)) 1 None;
   Chunk FromServer (tds_packet pktReply true tail0 [x01]) 2 None;
   Chunk FromClient (drop 60 (items_bytes demo_items)) 3 None].

Lemma mssql_events_clean :
  client_decoded (rl_warned (pump_run memory_Write no_text mssql_relay (open_relay mssql_relay mssql_gate) mssql_events)).
Proof. intros e. vm_compute. intros Hin. inversion Hin. Qed.

Lemma tds_protected_write_never_reaches_upstream_witness :
  ~ items_bytes demo_items `prefix_of`
    rl_up (pump_run memory_Write no_text mssql_relay (open_relay mssql_relay mssql_gate) mssql_events).
Proof.
  apply (tds_protected_write_never_reaches_upstream memory_Write no_text mssql_relay mssql_gate mssql_events
    [defer_words; no_writes] None example_rules no_writes demo_items
    (demo_batch (B "drop table public.customers"))
    (tds_statement false pktSQLBatch (B "drop table public.customers") [])
    {| relName := B "public.customers"; relAccess := AccessWrite |} (B "Customers")).
  - vm_compute. reflexivity.
  - reflexivity.
  - right. left.
  - reflexivity.
  - reflexivity.
  - discriminate.
  - exact demo_items_ok.
  - right. right. left.
  - change (tds_statement false pktSQLBatch (B "drop table public.customers") []
      ∈ [tds_statement false pktSQLBatch (B "drop table public.customers") []]). left.
  - apply (bool_decide_unpack _). vm_compute. exact I.
  - reflexivity.
  - left.
  - vm_compute. reflexivity.
  - reflexivity.
  - reflexivity.
  - reflexivity.
  - exact mssql_events_clean.
Defined.

(** ** Where the codec departs from its comments *)

(** A statement passed to sp_executesql as NVARCHAR(MAX) has an 8-byte total
    and chunk lengths before its text; they are read as text and the end of the
    statement is lost. *)
Definition max_statement_body (sql : bytes) : bytes :=
  let text := utf16le (utf16_Encode (runes sql)) in
  all_headers (repeat x00 18) ++ [xff; xff] ++ put_le_u16 10 ++ [x00; x00] ++ [x00] ++ [x00]
  ++ [typeNVarChar] ++ [xff; xff; x09; x04; xd0; x00; x34]
  ++ put_le_u32 (Z.of_nat (length text)) ++ put_le_u32 0
  ++ put_le_u32 (Z.of_nat (length text)) ++ text ++ put_le_u32 0.

Lemma max_statement_misread :
  let sql := B "update t set x=1; drop table customers" in
  let '(text, proc) := decodeRPCRequest (max_statement_body sql) in
  let a := AnalyzeSQL text Protocol.MSSQL in
  proc = B "sp_executesql" /\ text <> sql /\ sqComplete a = true
  /\ map relName (sqRelations a) = [B "t"; B "cust"]
  /\ map relName (sqRelations (AnalyzeSQL sql Protocol.MSSQL)) = [B "t"; B "customers"].
Proof. vm_compute. repeat split; congruence. Qed.

(** The window for an encrypted login opens at any later packet boundary: here
    after a statement was already decoded. *)
Lemma window_opens_after_statements :
  let data := items_bytes [demo_prelogin; demo_batch (B "select 1")] in
  let '(c, r) := Decode new_tds FromClient (data ++ tls_rec_bytes demo_record) in
  length (dStmts r) = 1 /\ dErr r = None /\ td_inTLS c = true
  /\ dConsumed r = length (data ++ tls_rec_bytes demo_record).
Proof. by vm_compute. Qed.

(** A LOGIN7 body with its language at offset 64 and its database at 68, the
    places MS-TDS gives them: the language is reported as the database. *)
Definition login7 (language database : bytes) : bytes :=
  let lang := utf16le (runes language) in
  let db := utf16le (runes database) in
  let body := repeat x00 64
    ++ put_le_u16 94 ++ put_le_u16 (Z.of_nat (length language))
    ++ put_le_u16 (Z.of_nat (94 + length lang)) ++ put_le_u16 (Z.of_nat (length database))
    ++ repeat x00 22 ++ lang ++ db in
  tds_packet pktLogin7 true tail0 body.

Lemma login_database_is_the_language :
  match DetectSSPI (login7 (B "us_english") (B "sales")) with
  | Some i => liDatabase i = B "us_english"
  | None => False
  end.
Proof. by vm_compute. Qed.
