(* ===== verification/HttpLane.v ===== *)
(** * The HTTP lane, end to end

    Requests on the wire, the codec, a rule on resources and the gate put
    together; and what gets past them when more than one buffer of requests
    arrives at once. *)

From S2P Require Import Prelude GoStrings GoText Types HttpPath Inspect HttpCodec HttpProps.
From S2P Require Import ContentLength Policy PolicyProps Session Gate GateProps.
From S2P Require Import Handshake Relay RelayProps LaneProps.

Section Lane.
Context `{GoUnicode} `{GoLib} `{NetHTTP} {K : Type}.
Context (sink_Write : K -> Event -> K * option bytes).
Context (error_text : InspectError -> bytes).

(** A denying rule on resources denies a request to one of them. *)
Lemma resource_rule_denies R stmt ec rs sc r d pattern :
  NewRulesWithScanner rs sc = inr R -> r ∈ rsRules R ->
  rlType r = MatchHTTPResource -> rlAction r <> ActionDefer ->
  stHTTP stmt = Some d -> methodAllowed r (htMethod d) = true ->
  pattern ∈ rlResources r -> matchResource pattern (htResource d) = true ->
  vDenied (Rules_EvaluateWith R stmt ec).2 = true.
Proof.
  intros HR Hin Ht Hact Hd Hm Hp Hres.
  apply (denying_rule_denies rs sc R stmt ec r (messageOr r stmt) HR Hin).
  assert (rule_matches r stmt = inr true) as Hmt.
  { unfold rule_matches, matchesHTTP. rewrite Ht, Hd. cbn [orb negb].
    change (MatchHTTPResource =s MatchHTTPResource) with true. rewrite Hm. cbn [negb orb].
    f_equal. f_equal. apply existsb_exists. exists pattern. split; [by apply list_elem_of_In|done]. }
  unfold rule_outcome. rewrite Ht, Hmt.
  assert ((rlAction r =s ActionDefer) = false) as -> by (by apply bool_decide_eq_false). done.
Qed.

Lemma Inspect_requests (insp : Inspector HttpInspector) xs :
  i_buf insp = [] -> Forall (wire_item (i_codec insp)) xs -> xs <> [] ->
  let data := concat (map (fun x => x.1.1) xs) in
  length data <= bufio_size \/ length xs <= 1 ->
  exists i', Inspect insp FromClient data
    = (i', (map (fun x => inspectRequest (i_codec insp) x.1.2 x.2) xs, None)).
Proof.
  intros Hb Hx Hne data Hs. assert (data <> []) as Hd.
  { unfold data. destruct xs as [|[[w r] d] xs]; [done|]. inversion_clear Hx as [|? ? (b & [Hh _] & _) _].
    cbn. intros [-> _]%app_eq_nil. by apply Hh. }
  unfold Inspect. rewrite Hb. destruct (length data =? 0)%nat eqn:E; bool_hyps; [by destruct data|].
  cbn [andb length Nat.ltb Nat.leb]. unfold data. rewrite decode_requests by done. cbv iota beta.
  cbn [dErr dStmts dConsumed]. fold data.
  destruct (_ <? _)%Z; [|by eexists]. destruct (length data =? 0)%nat eqn:E2; bool_hyps; [done|by eexists].
Qed.

Lemma request_detail (i : HttpInspector) r b :
  exists ht, stHTTP (inspectRequest i r b) = Some ht /\ htMethod ht = ToUpper (rq_Method r)
    /\ htResource ht = NormalizePath (or_root (u_Path (rq_URL r))).
Proof. unfold inspectRequest. destruct (attachBody i b). by eexists. Qed.

(** C4 A request for a protected resource is refused: with an accepted rule set
    that holds a denying rule on resources and methods, let a client whose
    stream was decoded so far send requests in one read that fits the reader's
    buffer, or a single request.  When one of them asks, with one of the rule's
    methods, for a path whose normal form matches one of its resources, the
    whole read is refused and no byte of it is forwarded. *)
Theorem denied_resource_refused (g : Gate HttpInspector K) rs sc R r pattern xs x now :
  NewRulesWithScanner rs sc = inr R ->
  gcPolicy (g_cfg g) = Some (Contextual (Rules_EvaluateWith R)) ->
  r ∈ rsRules R -> rlType r = MatchHTTPResource -> rlAction r <> ActionDefer ->
  methodAllowed r (ToUpper (rq_Method x.1.2)) = true ->
  pattern ∈ rlResources r ->
  matchResource pattern (NormalizePath (or_root (u_Path (rq_URL x.1.2)))) = true ->
  x ∈ xs -> Forall (wire_item (i_codec (g_client g))) xs -> i_buf (g_client g) = [] ->
  let data := concat (map (fun x => x.1.1) xs) in
  length data <= bufio_size \/ length xs <= 1 ->
  dcAllowed (Request sink_Write error_text g data now).2 = false
  /\ dcPayload (Request sink_Write error_text g data now).2 = [].
Proof.
  intros HR Hpol Hin Ht Hact Hm Hp Hres Hx Hxs Hb data Hs.
  assert (xs <> []) as Hne by (intros ->; by apply elem_of_nil in Hx).
  destruct (Inspect_requests (g_client g) xs Hb Hxs Hne Hs) as [i' Hi]. fold data in Hi.
  destruct (Request sink_Write error_text g data now) as [g' d] eqn:E. cbn [snd].
  destruct (inspect_spec sink_Write error_text g FromClient data now g' d _ _ _ Hi E)
    as (_ & _ & Hd). rewrite bool_decide_false in Hd by done.
  destruct Hd as (seen & rest & rs' & _ & _ & _ & _ & Hd). destruct (dcAllowed d) eqn:Ea.
  - destruct Hd as (_ & Hall & _ & _). exfalso.
    apply (Forall_forall _ _) with (x := inspectRequest (i_codec (g_client g)) x.1.2 x.2) in Hall.
    + unfold evaluate in Hall. rewrite Hpol in Hall.
      destruct (request_detail (i_codec (g_client g)) x.1.2 x.2) as (ht & E1 & E2 & E3).
      erewrite (resource_rule_denies R _ _ rs sc r ht pattern) in Hall; try done;
        [by rewrite E2|by rewrite E3].
    + apply list_elem_of_In, (in_map (fun x => inspectRequest _ x.1.2 x.2)). by apply list_elem_of_In.
  - destruct Hd as (pre & q & rs0 & r0 & _ & _ & _ & _ & Hpay & _). done.
Qed.
End Lane.

(** ** A concrete reader *)

#[local] Existing Instance ascii_only.
#[local] Existing Instance plain_lib.

(** Requests without headers or body, which is enough to run the codec: the
    request line gives the method and the target, and what of the following
    bytes is in the reader's buffer is what the first 4096 bytes hold. *)
Definition line_request (line : bytes) : HttpCodec.Request :=
  let target := Split1 line x20 in
  let path := nth 1 target [] in
  {| rq_Method := nth 0 target [];
     rq_URL := {| u_Path := path; u_Host := []; u_Query := ∅; u_RequestURI := path |};
     rq_Host := []; rq_Header := ∅; rq_Proto := nth 2 target [] |}.

#[local] Instance line_reader : NetHTTP := {
  ReadRequest data :=
    i ← Index data crlfcrlf;
    Some (Build_Reading (line_request (take i data)) NoBody (min (length data) bufio_size - (i + 4)));
  ReadResponse _ := None;
}.

Lemma line_wire l :
  Index (l ++ crlfcrlf) crlfcrlf = Some (length l) -> length (l ++ crlfcrlf) <= bufio_size ->
  request_wire (l ++ crlfcrlf) (line_request l) NoBody.
Proof.
  intros Hi Hs. split.
  { unfold headEndIndex. change [x0d; x0a; x0d; x0a] with crlfcrlf. by rewrite Hi. }
  intros k. exists (min (length ((l ++ crlfcrlf) ++ k)) bufio_size - (length l + 4)).
  rewrite !length_app in *. change (length crlfcrlf) with 4 in *. split; [|lia].
  cbn [ReadRequest line_reader]. rewrite (Index_app_r _ k _ _ Hi). cbn [mbind option_bind].
  rewrite <- !app_assoc, take_app_length, !length_app. change (length crlfcrlf) with 4.
  do 2 f_equal. lia.
Qed.

Definition no_capture : HttpInspector := http_New {| opCaptureBody := false; opMaxBodyBytes := 0; opHeaders := [] |}.

Definition line_item (l : bytes) : bytes * HttpCodec.Request * drained :=
  (l ++ crlfcrlf, line_request l, {| dr_data := []; dr_truncated := false |}).

Lemma line_items i ls :
  Forall (fun l => Index (l ++ crlfcrlf) crlfcrlf = Some (length l)
    /\ length (l ++ crlfcrlf) <= bufio_size) ls ->
  Forall (wire_item i) (map line_item ls).
Proof. intros Hls. apply Forall_map. eapply Forall_impl; [exact Hls|]. intros l [? ?]. exists NoBody. by split; [apply line_wire|]. Qed.

Definition two_lines : list bytes := [B "GET /healthz HTTP/1.1"; B "DELETE /v1/users/42 HTTP/1.1"].

Lemma http_requests_recovered_witness :
  (fun s => (stText s, htResource <$> stHTTP s)) <$> dStmts (Decode no_capture FromClient
     (concat (map (fun x => x.1.1) (map line_item two_lines)))).2
  = [(B "GET /healthz", Some (B "/healthz")); (B "DELETE /v1/users/42", Some (B "/v1/users/*"))].
Proof.
  rewrite (http_requests_recovered no_capture (map line_item two_lines)).
  - vm_compute. reflexivity.
  - apply line_items. repeat constructor; vm_compute; lia.
  - left. vm_compute. lia.
Defined.

Lemma only_configured_exposed_witness :
  let opts := {| opCaptureBody := true; opMaxBodyBytes := 4; opHeaders := [B "X-Team"] |} in
  let i := http_New opts in
  let r := {| rq_Method := B "POST";
              rq_URL := {| u_Path := B "/v1/pay"; u_Host := []; u_Query := ∅; u_RequestURI := B "/v1/pay" |};
              rq_Host := B "pay.example";
              rq_Header := {[ B "Authorization" := [B "secret"]; B "X-Team" := [B "a"; B "b"] ]};
              rq_Proto := B "HTTP/1.1" |} in
  let d := {| dr_data := take 4 (B "amount=10"); dr_truncated := true |} in
  exists ht, stHTTP (inspectRequest i r d) = Some ht
  /\ map_to_list (htHeaders ht) = [(B "x-team", B "a, b")]
  /\ (htBody ht, htBodyTruncated ht) = (B "amou", true).
Proof.
  intros opts i r d.
  destruct (only_configured_exposed opts r (B "amount=10") d (B "x-team") (B "a, b")) as (ht & H1 & H2 & H3).
  - vm_compute. reflexivity.
  - exists ht. split; [exact H1|]. rewrite H3. split; [|vm_compute; reflexivity].
    injection H1 as <-. vm_compute. reflexivity.
Defined.

(** A lane that protects the users. *)
Definition keep_users : Rule :=
  {| rlName := B "users"; rlType := MatchHTTPResource; rlWords := []; rlPattern := [];
     rlOperations := []; rlTables := []; rlRequireTableMatch := false;
     rlAccess := []; rlMessage := B "users stay"; rlAction := []; rlEntities := [];
     rlTrigger := None; rlHighRisk := []; rlMediumRisk := []; rlLowRisk := []; rlPrompt := [];
     rlResources := [B "/v1/users/**"]; rlMethods := [B "delete"]; rlStatuses := []; rlCompiled := None |}.

Definition user_rules : Rules := {| rsRules := [keep_users]; rsScanner := None; rsFailOpen := false |}.

Definition http_session : Session :=
  session_New Protocol.HTTP
    {| idSubject := B "ada"; idEmail := []; idGroups := []; idPeerAddr := []; idAttributes := ∅ |}
    (B "s1") 0.

Definition http_config : GateConfig HttpInspector :=
  {| gcProtocol := Protocol.HTTP;
     gcPolicy := Some (Contextual (Rules_EvaluateWith user_rules));
     gcAudit := true; gcMasker := None; gcFailOnAuditError := true; gcMaxBuffer := 0;
     gcCodecFactory := Some (fun _ => Some no_capture) |}.

Definition http_gate : Gate HttpInspector unit :=
  Build_Gate http_config http_session (NewWithCodec no_capture) (NewWithCodec no_capture)
    (PolicyContext http_session) None false 0 0 false tt [].

Lemma denied_resource_refused_witness :
  let data := concat (map (fun x => x.1.1) (map line_item two_lines)) in
  dcAllowed (Request good_sink no_text http_gate data 1).2 = false
  /\ dcPayload (Request good_sink no_text http_gate data 1).2 = [].
Proof.
  apply (denied_resource_refused good_sink no_text http_gate [keep_users] None user_rules keep_users
    (B "/v1/users/**") (map line_item two_lines) (line_item (B "DELETE /v1/users/42 HTTP/1.1"))).
  - vm_compute. reflexivity.
  - reflexivity.
  - left.
  - reflexivity.
  - discriminate.
  - vm_compute. reflexivity.
  - left.
  - vm_compute. reflexivity.
  - right. left.
  - apply line_items. repeat constructor; vm_compute; lia.
  - reflexivity.
  - left. vm_compute. lia.
Defined.

(** The same deletion goes to the service unseen when it is one request of a
    burst that exceeds the reader's buffer: twenty health checks in front of it
    and two hundred behind, in one read. *)
Definition burst : bytes :=
  let check := B "GET /healthz HTTP/1.1" ++ crlfcrlf in
  mjoin (replicate 20 check) ++ B "DELETE /v1/users/42 HTTP/1.1" ++ crlfcrlf ++ mjoin (replicate 200 check).

Lemma burst_hides_deletion :
  let d := (Request good_sink no_text http_gate burst 1).2 in
  dcAllowed d = true /\ (length (dcPayload d) =? length burst)%nat = true
  /\ existsb (fun s => stOperation s =s OpDelete) (dcStatements d) = false.
Proof. vm_compute. repeat split; reflexivity. Qed.
