(* ===== verification/SideConfig.v ===== *)
(** * The sidecar's configuration: src/hoopinspect/sidecar/config.go and analyzer.go

    The decoded configuration, the merge of a listener's overrides onto the
    defaults, and the validation of the result.  A JSON field that is a pointer
    is an [option], a raw section is its bytes (absent when empty).  Problems
    are values that name the lane and the rule; where the source ranges over a
    map of levels the model goes from high to low.  Files, certificates, URLs
    and the linked providers are the class [Host]. *)

From S2P Require Import Prelude GoStrings GoText Types Inspect HttpCodec Policy Opa AiCache AiContent AiEvaluator.
From S2P Require Import ContentLength Session Gate.

Record ParsedURL := { puScheme : bytes; puUser : bool; puRawQuery : bytes; puHost : bytes }.

Class Host := {
  os_ReadFile : bytes -> option bytes;
  os_Stat : bytes -> option (bool * Z);            (* a directory; the permission bits *)
  os_OpenAppend : bytes -> bool;
  AppendCertsFromPEM : bytes -> bool;
  LoadX509KeyPair : bytes -> bytes -> bool;
  url_Parse : bytes -> option ParsedURL;
  linked_providers : list bytes;
}.

(** ** Sections *)

Record HTTPCodecConfig := { hcCaptureBody : bool; hcMaxBodyBytes : Z; hcHeaders : list bytes }.

Abbreviation SendMode := bytes.
Definition SendRaw : SendMode := B "raw".
Definition SendRedacted : SendMode := B "redacted".
Definition SendRefuse : SendMode := B "refuse".

Record AnalyzerConfig := {
  anProvider : bytes;
  anModel : bytes;
  anEndpoint : bytes;
  anCredentialsFile : bytes;
  anExtra : gmap bytes bytes;
  anPrompt : bytes;
  anTimeoutSec : Z;
  anFailOpen : option bool;
  anSend : SendMode;
  anMaxInputBytes : Z;
  anCacheSize : Z;
  anCacheTTLSec : Z;
  anMaxCalls : Z;
  anMaxOutputTokens : Z;
}.

Record TLSConfig := {
  tlCAFile : bytes;
  tlCertFile : bytes;
  tlKeyFile : bytes;
  tlServerName : bytes;
  tlInsecureSkipVerify : bool;
}.

Record OPAConfig := { opURL : bytes; opTimeoutSec : Z; opFailOpen : bool; opGate : bool }.

Record PolicyConfig := { pcRules : list Rule; pcOPA : option OPAConfig; pcEnforce : option bool }.

Record MaskConfig := { mcEnabled : option bool; mcRules : bytes }.

Record AuditConfig := {
  auFile : bytes;
  auRedactStatements : bool;
  auMaxStatementBytes : Z;
  auAsyncQueueSize : Z;
  auMemoryBuffer : Z;
  auQuerySessions : Z;
  auFailClosed : bool;
}.

Record ListenerConfig := {
  lcName : bytes;
  lcProtocol : bytes;
  lcListen : bytes;
  lcNetwork : bytes;
  lcUpstream : bytes;
  lcConnection : bytes;
  lcUpstreamTLS : option TLSConfig;
  lcDownstreamTLS : option TLSConfig;
  lcIdentityHeader : bytes;
  lcIdleTimeoutSec : Z;
  lcMaxConns : Z;
  lcPolicy : option PolicyConfig;
  lcMask : option MaskConfig;
  lcHTTP : option HTTPCodecConfig;
}.

Record Config := {
  cfListeners : list ListenerConfig;
  cfPolicy : PolicyConfig;
  cfMask : MaskConfig;
  cfAudit : AuditConfig;
  cfAdminListen : bytes;
  cfPII : bytes;
  cfAnalyzer : option AnalyzerConfig;
  cfLogLevel : bytes;
}.

(** ** Problems *)

Inductive Problem :=
  | NoListeners
  | NoProtocolSet (lane : bytes)
  | UnsupportedProtocol (lane proto : bytes)
  | NoListenAddress (lane : bytes)
  | NoUpstream (lane : bytes)
  | BadNetwork (lane network : bytes)
  | DuplicateListen (lane addr : bytes)
  | DownstreamTLSUnsupported (lane proto : bytes)
  | DownstreamTLSBad (lane : bytes)
  | RulesRefused (lane : bytes) (ps : list RuleProblem)
  | DeferWithoutOPA (lane rule : bytes)
  | OPAWithoutURL (lane : bytes)
  | HTTPBlockMisplaced (lane proto : bytes)
  | HeaderForbidden (lane header : bytes)
  | NegativeBodyBytes (lane : bytes)
  | AIWithoutBody (lane : bytes)
  | AIWithoutBuilder (lane proto : bytes)
  | MaskWithoutRules (lane : bytes)
  | MaskUnsupported (lane proto : bytes)
  | GateWithoutAI (lane : bytes)
  | AIWithoutAnalyzer (lane : bytes)
  | AIWithoutTrigger (lane rule : bytes)
  | AIActionIgnored (lane rule action : bytes)
  | AIUnknownAction (lane rule action level : bytes)
  | AIDeferWithoutOPA (lane rule level : bytes)
  | AIReviewUnsupported (lane rule level : bytes)
  | AINoActions (lane rule : bytes)
  | AnalyzerNoProvider
  | AnalyzerNotLinked (provider : bytes)
  | AnalyzerNoModel
  | AnalyzerNeedsPII (mode : bytes)
  | AnalyzerBadSend (mode : bytes)
  | AnalyzerBadEndpoint
  | AnalyzerNegative (field : bytes).

Definition when (b : bool) (p : Problem) : list Problem := if b then [p] else [].

(** ** The OPA section *)

Definition nanoseconds (sec : Z) : Z := wrap_int64 (sec * 10 ^ 9).

Definition opa_client (o : OPAConfig) (phase : bytes) : OPAClient :=
  let timeout := nanoseconds (opTimeoutSec o) in
  {| oaURL := opURL o; oaTimeout := if (timeout <=? 0)%Z then 2 * 10 ^ 9 else timeout; oaPhase := phase;
     oaFailOpen := opFailOpen o; oaContext := ∅ |}.

Definition opa_enabled (o : option OPAConfig) : bool :=
  match o with Some o => negb (opURL o =s []) | None => false end.

Definition opa_gated (o : option OPAConfig) : bool :=
  match o with Some o => negb (opURL o =s []) && opGate o | None => false end.

(** ** The merge *)

Definition mask_on (m : MaskConfig) : bool := default false (mcEnabled m).

Definition resolve (c : Config) (lc : ListenerConfig) : PolicyConfig * MaskConfig :=
  let d := cfPolicy c in
  let pc :=
    match lcPolicy lc with
    | None => {| pcRules := pcRules d; pcOPA := pcOPA d; pcEnforce := pcEnforce d |}
    | Some o =>
        {| pcRules := match pcRules o with [] => pcRules d | _ => pcRules o ++ pcRules d end;
           pcOPA := match pcOPA o with Some x => Some x | None => pcOPA d end;
           pcEnforce := match pcEnforce o with Some x => Some x | None => pcEnforce d end |}
    end in
  let m := cfMask c in
  let mc :=
    match lcMask lc with
    | None => m
    | Some o =>
        {| mcEnabled := match mcEnabled o with Some x => Some x | None => mcEnabled m end;
           mcRules := match mcRules o with [] => mcRules m | _ => mcRules o end |}
    end in
  (pc, mc).

Definition enforcing (p : PolicyConfig) : bool := default false (pcEnforce p).

Definition displayName (l : ListenerConfig) (i : nat) : bytes :=
  if negb (lcName l =s []) then lcName l
  else if negb (lcConnection l =s []) then lcConnection l
  else B "listener[" ++ itoa (Z.of_nat i) ++ B "]".

(** ** Rules *)

Definition is_ai (r : Rule) : bool := rlType r =s MatchAIAnalysis.

Definition splitAnalyzerRules (rs : list Rule) : list Rule * list Rule :=
  (List.filter (fun r => negb (is_ai r)) rs, List.filter is_ai rs).

(** The actions a rule names, by level. *)
Definition level_actions (r : Rule) : list (RiskLevel * bytes) :=
  [(RiskHigh, rlHighRisk r); (RiskMedium, rlMediumRisk r); (RiskLow, rlLowRisk r)].

Definition anyDeferred (rs : list Rule) : bool :=
  existsb (fun r => (rlAction r =s ActionDefer)
    || existsb (fun raw => raw =s AiActionDefer) [rlHighRisk r; rlMediumRisk r; rlLowRisk r]) rs.

Section Validate.
Context `{GoUnicode} `{GoLib} `{Host} {C : Type} `{Codec C}.
Context (reg : Registry C) (as_reframer : C -> option (Reframer C)).

Definition forbiddenHeaders : list bytes :=
  [B "authorization"; B "cookie"; B "proxy-authorization"; B "set-cookie"].

Definition http_validate (h : HTTPCodecConfig) (lane : bytes) : list Problem :=
  concat (map (fun name =>
    let lower := ToLower (TrimSpace name) in
    map (fun _ => HeaderForbidden lane name) (List.filter (fun bad => lower =s bad) forbiddenHeaders))
    (hcHeaders h))
  ++ when (hcMaxBodyBytes h <? 0)%Z (NegativeBodyBytes lane).

Definition validateEndpoint (raw : bytes) : bool :=
  match url_Parse raw with
  | None => false
  | Some u => ((puScheme u =s B "http") || (puScheme u =s B "https"))
              && negb (puUser u) && (puRawQuery u =s [])
  end.

Definition providerLinked (name : bytes) : bool := bool_decide (name ∈ linked_providers).

Definition endpointHost (a : option AnalyzerConfig) : bytes :=
  match a with
  | Some a => if anEndpoint a =s [] then []
              else match url_Parse (anEndpoint a) with Some u => puHost u | None => [] end
  | None => []
  end.

Definition an_failOpen (a : option AnalyzerConfig) : bool :=
  match a with Some a => default true (anFailOpen a) | None => true end.

Definition analyzer_validate (a : option AnalyzerConfig) (hasScanner : bool) : list Problem :=
  match a with
  | None => []
  | Some a =>
      (if anProvider a =s [] then [AnalyzerNoProvider]
       else when (negb (providerLinked (anProvider a))) (AnalyzerNotLinked (anProvider a)))
      ++ when (anModel a =s []) AnalyzerNoModel
      ++ (if (anSend a =s []) || (anSend a =s SendRaw) then []
          else if (anSend a =s SendRedacted) || (anSend a =s SendRefuse)
          then when (negb hasScanner) (AnalyzerNeedsPII (anSend a))
          else [AnalyzerBadSend (anSend a)])
      ++ when (negb (anEndpoint a =s []) && negb (validateEndpoint (anEndpoint a))) AnalyzerBadEndpoint
      ++ when (anTimeoutSec a <? 0)%Z (AnalyzerNegative (B "timeout_sec"))
      ++ when (anMaxInputBytes a <? 0)%Z (AnalyzerNegative (B "max_input_bytes"))
      ++ when (anMaxCalls a <? 0)%Z (AnalyzerNegative (B "max_calls"))
      ++ when (anMaxOutputTokens a <? 0)%Z (AnalyzerNegative (B "max_output_tokens"))
      ++ when (anCacheSize a <? 0)%Z (AnalyzerNegative (B "cache.size"))
      ++ when (anCacheTTLSec a <? 0)%Z (AnalyzerNegative (B "cache.ttl_sec"))
  end.

Definition validate_level (pc : PolicyConfig) (lane : bytes) (r : Rule) (x : RiskLevel * bytes) : list Problem :=
  let '(level, raw) := x in
  if raw =s [] then []
  else if negb (action_Valid raw) then [AIUnknownAction lane (rlName r) raw level]
  else when ((raw =s AiActionDefer) && negb (opa_enabled (pcOPA pc))) (AIDeferWithoutOPA lane (rlName r) level)
       ++ when (raw =s ActionRequireReview) (AIReviewUnsupported lane (rlName r) level).

Definition validate_ai_rule (pc : PolicyConfig) (lane : bytes) (r : Rule) : list Problem :=
  when (AITrigger_IsZero (rlTrigger r) && negb (opa_gated (pcOPA pc))) (AIWithoutTrigger lane (rlName r))
  ++ when (negb (rlAction r =s [])) (AIActionIgnored lane (rlName r) (rlAction r))
  ++ concat (map (validate_level pc lane r) (level_actions r))
  ++ when (forallb (fun x => x.2 =s []) (level_actions r)) (AINoActions lane (rlName r)).

Definition validateAIRules (rules : list Rule) (cfg : option AnalyzerConfig) (pc : PolicyConfig) (lane : bytes)
    : list Problem :=
  match rules with
  | [] => when (opa_gated (pcOPA pc)) (GateWithoutAI lane)
  | _ => when (match cfg with Some _ => false | None => true end) (AIWithoutAnalyzer lane)
         ++ concat (map (validate_ai_rule pc lane) rules)
  end.

(** [BuildDownstreamTLS] and [BuildTLS]; [None] is an error. *)
Definition BuildDownstreamTLS (t : option TLSConfig) : option (option (bytes * bytes)) :=
  match t with
  | None => Some None
  | Some t =>
      if (tlCertFile t =s []) || (tlKeyFile t =s []) then None
      else if LoadX509KeyPair (tlCertFile t) (tlKeyFile t) then Some (Some (tlCertFile t, tlKeyFile t)) else None
  end.

Record ClientTLS := { ctServerName : bytes; ctInsecure : bool; ctRootCAs : option bytes;
                      ctCertificate : option (bytes * bytes) }.

Definition BuildTLS (t : option TLSConfig) : option (option ClientTLS) :=
  match t with
  | None => Some None
  | Some t =>
      roots ← (if tlCAFile t =s [] then Some None
               else match os_ReadFile (tlCAFile t) with
                    | None => None
                    | Some pem => if AppendCertsFromPEM pem then Some (Some pem) else None
                    end);
      cert ← (if (tlCertFile t =s []) && (tlKeyFile t =s []) then Some None
              else if (tlCertFile t =s []) || (tlKeyFile t =s []) then None
              else if LoadX509KeyPair (tlCertFile t) (tlKeyFile t)
              then Some (Some (tlCertFile t, tlKeyFile t)) else None);
      Some (Some {| ctServerName := tlServerName t; ctInsecure := tlInsecureSkipVerify t;
                    ctRootCAs := roots; ctCertificate := cert |})
  end.

Definition no_body_capture (lc : ListenerConfig) : bool :=
  match lcHTTP lc with Some h => negb (hcCaptureBody h) | None => true end.

Definition has_builder (p : Protocol) : bool := match BuilderFor p with Some _ => true | None => false end.

Definition nonempty {A} (l : list A) : bool := match l with [] => false | _ => true end.

Definition validateLane (c : Config) (lc : ListenerConfig) (name : bytes) : list Problem :=
  let '(pc, mc) := resolve c lc in
  let '(localRules, aiRules) := splitAnalyzerRules (pcRules pc) in
  (if nonempty localRules && negb (nonempty (cfPII c)) then
     match NewRules localRules with inl ps => [RulesRefused name ps] | inr _ => [] end
   else [])
  ++ validateAIRules aiRules (cfAnalyzer c) pc name
  ++ concat (map (fun r => when ((rlAction r =s ActionDefer) && negb (opa_enabled (pcOPA pc)))
                             (DeferWithoutOPA name (rlName r))) localRules)
  ++ when (match pcOPA pc with Some o => opURL o =s [] | None => false end) (OPAWithoutURL name)
  ++ match lcHTTP lc with
     | None => []
     | Some h => when (negb (lcProtocol lc =s Protocol.HTTP)) (HTTPBlockMisplaced name (lcProtocol lc))
                 ++ http_validate h name
     end
  ++ when (nonempty aiRules && (lcProtocol lc =s Protocol.HTTP) && no_body_capture lc) (AIWithoutBody name)
  ++ when (nonempty aiRules && negb (lcProtocol lc =s []) && negb (has_builder (lcProtocol lc)))
       (AIWithoutBuilder name (lcProtocol lc))
  ++ (if mask_on mc then
        when (negb (nonempty (mcRules mc))) (MaskWithoutRules name)
        ++ when (negb (lcProtocol lc =s []) && negb (MaskSupported reg as_reframer (lcProtocol lc)))
             (MaskUnsupported name (lcProtocol lc))
      else []).

Definition supported (p : Protocol) : bool := match New reg p with inr _ => true | inl _ => false end.

Definition listen_key (l : ListenerConfig) : bytes := lcNetwork l ++ B "|" ++ lcListen l.

(** One turn of the loop of [Validate]. *)
Definition validate_listener (c : Config) (seen : gset bytes) (i : nat) (l : ListenerConfig) : list Problem :=
  let name := displayName l i in
  (if lcProtocol l =s [] then [NoProtocolSet name]
   else when (negb (supported (lcProtocol l))) (UnsupportedProtocol name (lcProtocol l)))
  ++ when (lcListen l =s []) (NoListenAddress name)
  ++ when (lcUpstream l =s []) (NoUpstream name)
  ++ when (negb (lcNetwork l =s []) && negb (lcNetwork l =s B "tcp") && negb (lcNetwork l =s B "unix"))
       (BadNetwork name (lcNetwork l))
  ++ when (bool_decide (listen_key l ∈ seen)) (DuplicateListen name (lcListen l))
  ++ match lcDownstreamTLS l with
     | None => []
     | Some t => when (negb (lcProtocol l =s Protocol.Postgres)) (DownstreamTLSUnsupported name (lcProtocol l))
                 ++ when (match BuildDownstreamTLS (Some t) with None => true | Some _ => false end)
                      (DownstreamTLSBad name)
     end
  ++ validateLane c l name.

Fixpoint validate_listeners (c : Config) (seen : gset bytes) (i : nat) (ls : list ListenerConfig) : list Problem :=
  match ls with
  | [] => []
  | l :: ls => validate_listener c seen i l ++ validate_listeners c ({[listen_key l]} ∪ seen) (S i) ls
  end.

Definition Validate (c : Config) : list Problem :=
  when (negb (nonempty (cfListeners c))) NoListeners
  ++ analyzer_validate (cfAnalyzer c) (nonempty (cfPII c))
  ++ validate_listeners c ∅ 0 (cfListeners c).
End Validate.
