(* ===== verification/SideLanes.v ===== *)
(** * Lanes: src/hoopinspect/sidecar/config.go, analyzer.go, sidecar.go, httpcodec.go and analyzer/secret.go

    What a configuration is built into: a lane's chain of evaluators, its
    masker and codec, the audit sinks, the server.  A lane's evaluators are
    [Stage]s; [stage_evaluator] is the evaluator of a stage while one statement
    is judged (the analyzer's provider and clock are its arguments). *)

From S2P Require Import Prelude GoStrings GoText Types Inspect HttpPath HttpCodec Policy Json Opa.
From S2P Require Import AiCache AiContent AiEvaluator AiBudget AiProps TwoPhase.
From S2P Require Import ContentLength Session Sinks Gate Handshake Deny Relay Server SideConfig.

(** ** Credentials (secret.go) *)

Record Secret := { se_b : bytes }.

Definition Secret_String (s : Secret) : bytes :=
  match se_b s with [] => B "<unset>" | _ => B "[REDACTED]" end.
Definition Secret_GoString (s : Secret) : bytes := Secret_String s.
Definition Secret_MarshalJSON (s : Secret) : bytes := [x22] ++ Secret_String s ++ [x22].
Definition Secret_LogValue (s : Secret) : bytes := Secret_String s.
Definition Secret_IsZero (s : Secret) : bool := match se_b s with [] => true | _ => false end.

Inductive SecretError := EmptyPath | NoFile | IsDirectory | CredentialPerms (mode : Z) | Unreadable.

Definition ReadSecretFile `{Host} (path : bytes) : SecretError + Secret :=
  if path =s [] then inl EmptyPath
  else match os_Stat path with
       | None => inl NoFile
       | Some (dir, mode) =>
           if dir then inl IsDirectory
           else if negb (Z.land mode 63 =? 0)%Z then inl (CredentialPerms mode)
           else match os_ReadFile path with
                | None => inl Unreadable
                | Some b => inr {| se_b := TrimSpace b |}
                end
       end.

(** ** The detection plugin *)

Record Plugin := {
  plScanText : bytes -> list bytes;
  plEntities : list bytes;
  plBuildMasker : bytes -> bytes + option Masker;
}.

Definition withheld (entities : list bytes) : bytes :=
  [x0a; x0a] ++ B "[proxy: this statement contains " ++ Join entities (B ", ") ++ B "; the values were withheld]".

Definition redactorFor (mode : SendMode) (det : option Plugin) : option (bytes -> bytes) :=
  match det with
  | None => None
  | Some det =>
      if mode =s SendRedacted then
        Some (fun s => match plScanText det s with [] => s | es => s ++ withheld es end)
      else if mode =s SendRefuse then
        Some (fun s => match plScanText det s with [] => s | _ => RefuseSentinel end)
      else None
  end.

(** ** Evaluators *)

Inductive Stage := SRules (R : Rules) | SOPA (c : OPAClient) | SAi (e : AiEvaluator).

Inductive BuildError :=
  | BadRules (ps : list RuleProblem)
  | NeedsAnalyzer (rule : bytes)
  | UnknownRuleAction (rule raw level : bytes)
  | AnalyzerRefused (rule : bytes) (e : AiNewError).

Definition triggerFrom (t : option AITrigger) : AITrigger :=
  default {| atOperations := []; atTables := []; atResources := [] |} t.

Fixpoint action_loop (rule : bytes) (l : list (RiskLevel * bytes)) (m : ActionMap) : BuildError + ActionMap :=
  match l with
  | [] => inr m
  | (level, raw) :: l =>
      if raw =s [] then action_loop rule l m
      else if negb (action_Valid raw) then inl (UnknownRuleAction rule raw level)
      else action_loop rule l (<[level := raw]> m)
  end.

Definition actionMap (r : Rule) : BuildError + ActionMap := action_loop (rlName r) (level_actions r) ∅.

Record analyzerDeps := {
  adConfig : AnalyzerConfig;
  adProvider : bool;                     (* the provider that was built is not nil *)
  adRedact : option (bytes -> bytes);
}.

Section Build.
Context `{GoUnicode} `{GoLib} `{Sha256} `{Host}.

Definition ai_config (r : Rule) (actions : ActionMap) (cfg : AnalyzerConfig) (provider : bool)
    (redact : option (bytes -> bytes)) : AiConfig :=
  {| acRule := rlName r; acProvider := provider; acActions := actions; acTrigger := triggerFrom (rlTrigger r);
     acMessage := rlMessage r; acGuidance := if rlPrompt r =s [] then anPrompt cfg else rlPrompt r;
     acTimeout := nanoseconds (anTimeoutSec cfg); acFailOpen := an_failOpen (Some cfg);
     acMaxInputBytes := anMaxInputBytes cfg; acCacheSize := anCacheSize cfg;
     acCacheTTL := nanoseconds (anCacheTTLSec cfg); acMaxCalls := anMaxCalls cfg; acRedact := redact |}.

Fixpoint ai_loop (rules : list Rule) (cfg : AnalyzerConfig) (provider : bool) (redact : option (bytes -> bytes))
    : BuildError + list AiEvaluator :=
  match rules with
  | [] => inr []
  | r :: rules =>
      match actionMap r with
      | inl e => inl e
      | inr actions =>
          match ai_New (ai_config r actions cfg provider redact) with
          | inl e => inl (AnalyzerRefused (rlName r) e)
          | inr ev => match ai_loop rules cfg provider redact with inl e => inl e | inr evs => inr (ev :: evs) end
          end
      end
  end.

Definition buildAnalyzerEvaluators (rules : list Rule) (ac : option analyzerDeps)
    : BuildError + list AiEvaluator :=
  match rules with
  | [] => inr []
  | r :: _ =>
      match ac with
      | None => inl (NeedsAnalyzer (rlName r))
      | Some ac => if negb (adProvider ac) then inl (NeedsAnalyzer (rlName r))
                   else ai_loop rules (adConfig ac) (adProvider ac) (adRedact ac)
      end
  end.

Definition two_phase (pc : PolicyConfig) : bool :=
  match pcOPA pc with
  | Some o => opa_enabled (Some o) && (opGate o || anyDeferred (pcRules pc))
  | None => false
  end.

(** What is put in front of the analyzers, and behind them. *)
Definition opa_front (pc : PolicyConfig) : list Stage :=
  match pcOPA pc with
  | None => []
  | Some o =>
      if negb (opa_enabled (Some o)) then []
      else if negb (two_phase pc) then [SOPA (opa_client o [])]
      else if opGate o then [SOPA (opa_client o PhaseGate)] else []
  end.

Definition opa_back (pc : PolicyConfig) : list Stage :=
  match pcOPA pc with
  | Some o => if two_phase pc then [SOPA (opa_client o PhaseDecide)] else []
  | None => []
  end.

Definition local_rules (rules : list Rule) (det : option Plugin) : BuildError + list Stage :=
  match rules with
  | [] => inr []
  | _ =>
      match (match det with
             | Some d => NewRulesWithScanner rules (Some (plScanText d))
             | None => NewRules rules
             end) with
      | inl ps => inl (BadRules ps)
      | inr R => inr [SRules R]
      end
  end.

(** [buildPolicy]: [None] is the nil evaluator. *)
Definition buildPolicy (pc : PolicyConfig) (det : option Plugin) (ac : option analyzerDeps)
    : BuildError + option (list Stage) :=
  if negb (enforcing pc) then inr None
  else
    let '(localRules, aiRules) := splitAnalyzerRules (pcRules pc) in
    match local_rules localRules det with
    | inl e => inl e
    | inr rules =>
        match buildAnalyzerEvaluators aiRules ac with
        | inl e => inl e
        | inr evs =>
            match rules ++ opa_front pc ++ map SAi evs ++ opa_back pc with
            | [] => inr None
            | chain => inr (Some chain)
            end
        end
    end.

Definition stage_evaluator `{OpaServer} (ask : Z -> bytes -> bytes -> bytes + option Result) (now now' : Z)
    (s : Stage) : Evaluator :=
  match s with
  | SRules R => Contextual (Rules_EvaluateWith R)
  | SOPA c => opa_evaluator c
  | SAi e => ai_evaluator e ask now now'
  end.

(** ** Lanes (sidecar.go) *)

Definition checkPIIEntities (pc : PolicyConfig) (det : option Plugin) : list (bytes * bytes) :=
  match det with
  | None => []
  | Some det =>
      concat (map (fun r =>
        map (fun e => (rlName r, e)) (List.filter (fun e => negb (bool_decide (e ∈ plEntities det))) (rlEntities r)))
        (List.filter (fun r => rlType r =s MatchPII) (pcRules pc)))
  end.

Inductive LaneProblem :=
  | UnknownEntity (lane rule entity : bytes)
  | PolicyProblem (lane : bytes) (e : BuildError)
  | MaskProblem (lane msg : bytes).

Context {C : Type} `{Codec C}.
Context (reg : Registry C) (as_reframer : C -> option (Reframer C)).

Definition buildMasker (mc : MaskConfig) (det : option Plugin) (proto : Protocol) : bytes + option Masker :=
  if negb (mask_on mc) then inr None
  else match det with
       | None => inl (B "mask.enabled is true but this build has no detection plugin")
       | Some det =>
           if negb (MaskSupported reg as_reframer proto)
           then inl (B "mask.enabled is true but masking is not supported on " ++ proto)
           else plBuildMasker det (mcRules mc)
       end.

Definition codec_options (h : HTTPCodecConfig) : Options :=
  {| opCaptureBody := hcCaptureBody h; opMaxBodyBytes := hcMaxBodyBytes h; opHeaders := hcHeaders h |}.

Definition newHTTPCodec (h : HTTPCodecConfig) : unit -> HttpInspector := fun _ => http_New (codec_options h).

Definition httpCodecFactory (proto : Protocol) (h : option HTTPCodecConfig) : option (unit -> HttpInspector) :=
  match h with
  | Some h => if proto =s Protocol.HTTP then Some (newHTTPCodec h) else None
  | None => None
  end.

Record lane := {
  lnConfig : ListenerConfig;
  lnName : bytes;
  lnPolicy : option (list Stage);
  lnMasker : option Masker;
  lnCodec : option (unit -> HttpInspector);
  lnRules : list bytes;
  lnOPAURL : bytes;
  lnAnalyzed : list bytes;
  lnCaptureBody : bool;
}.

Definition build_lane (cfg : Config) (det : option Plugin) (ac : option analyzerDeps) (i : nat)
    (lc : ListenerConfig) : list LaneProblem + lane :=
  let name := displayName lc i in
  let '(pc, mc) := resolve cfg lc in
  match checkPIIEntities pc det with
  | (_ :: _) as errs => inl (map (fun e => UnknownEntity name e.1 e.2) errs)
  | [] =>
      match buildPolicy pc det ac with
      | inl e => inl [PolicyProblem name e]
      | inr pol =>
          match buildMasker mc det (lcProtocol lc) with
          | inl msg => inl [MaskProblem name msg]
          | inr masker =>
              let named := match pol with Some _ => pcRules pc | None => [] end in
              inr {| lnConfig := lc; lnName := name; lnPolicy := pol; lnMasker := masker;
                     lnCodec := httpCodecFactory (lcProtocol lc) (lcHTTP lc);
                     lnRules := map rlName (List.filter (fun r => negb (is_ai r)) named);
                     lnOPAURL := match pol, pcOPA pc with Some _, Some o => opURL o | _, _ => [] end;
                     lnAnalyzed := map rlName (List.filter is_ai named);
                     lnCaptureBody := negb (no_body_capture lc) |}
          end
      end
  end.

Fixpoint lane_loop (cfg : Config) (det : option Plugin) (ac : option analyzerDeps) (i : nat)
    (ls : list ListenerConfig) : list LaneProblem * list lane :=
  match ls with
  | [] => ([], [])
  | lc :: ls =>
      let '(ps, lanes) := lane_loop cfg det ac (S i) ls in
      match build_lane cfg det ac i lc with
      | inl p => (p ++ ps, lanes)
      | inr ln => (ps, ln :: lanes)
      end
  end.

Definition buildLanes (cfg : Config) (det : option Plugin) (ac : option analyzerDeps)
    : list LaneProblem + list lane :=
  match lane_loop cfg det ac 0 (cfListeners cfg) with
  | ([], lanes) => inr lanes
  | (ps, _) => inl ps
  end.

(** ** Reports *)

Record LaneInfo := {
  liName : bytes; liProtocol : bytes; liEnforcing : bool; liRules : Z; liOPA : bool; liMasking : bool;
  liAnalyzed : Z;
}.

Definition is_some {A} (o : option A) : bool := match o with Some _ => true | None => false end.

Definition lane_info (ln : lane) : LaneInfo :=
  {| liName := lnName ln; liProtocol := lcProtocol (lnConfig ln); liEnforcing := is_some (lnPolicy ln);
     liRules := Z.of_nat (length (lnRules ln)); liOPA := negb (lnOPAURL ln =s []);
     liMasking := is_some (lnMasker ln); liAnalyzed := Z.of_nat (length (lnAnalyzed ln)) |}.

Definition Summary (l : LaneInfo) : bytes :=
  (if liEnforcing l then B "enforcing " ++ itoa (liRules l) ++ B " rule(s)" else B "observe-only")
  ++ (if liOPA l then B " + opa" else [])
  ++ (if liMasking l then B " + masking" else [])
  ++ (if (0 <? liAnalyzed l)%Z then B " + " ++ itoa (liAnalyzed l) ++ B " ai rule(s)" else []).

Definition checkPIIPlugin (cfg : Config) (det : option Plugin) : bool :=
  negb (nonempty (cfPII cfg) && negb (is_some det)).

(** ** The analyzer, once per process *)

Inductive SetupError :=
  | PIIWithoutDetector
  | BadAnalyzer (ps : list Problem)
  | BadCredential (e : SecretError)
  | NoSuchProvider
  | VerifyFailed
  | BadLanes (ps : list LaneProblem).

(** [build] is what the named provider makes of its options and credential,
    [None] an error; [verify] is its check of the credential, where it has one. *)
Record ProviderImpl := {
  pi_build : AnalyzerConfig -> Secret -> option bool;
  pi_verify : AnalyzerConfig -> bool;
}.

Definition setupAnalyzer (cfg : Config) (det : option Plugin) (impl : ProviderImpl)
    : SetupError + option analyzerDeps :=
  match cfAnalyzer cfg with
  | None => inr None
  | Some a =>
      match analyzer_validate (Some a) (is_some det) with
      | (_ :: _) as ps => inl (BadAnalyzer ps)
      | [] =>
          match (if anCredentialsFile a =s [] then inr {| se_b := [] |} else ReadSecretFile (anCredentialsFile a)) with
          | inl e => inl (BadCredential e)
          | inr cred =>
              match pi_build impl a cred with
              | None => inl NoSuchProvider
              | Some p => inr (Some {| adConfig := a; adProvider := p; adRedact := redactorFor (anSend a) det |})
              end
          end
      end
  end.

Definition verifyAnalyzer (ac : option analyzerDeps) (impl : ProviderImpl) : bool :=
  match ac with
  | Some ac => if adProvider ac then pi_verify impl (adConfig ac) else true
  | None => true
  end.

(** [Validate] of sidecar.go. *)
Definition ValidateLanes (cfg : Config) (det : option Plugin) (impl : ProviderImpl)
    : SetupError + list LaneInfo :=
  if negb (checkPIIPlugin cfg det) then inl PIIWithoutDetector
  else match setupAnalyzer cfg det impl with
       | inl e => inl e
       | inr ac =>
           if negb (verifyAnalyzer ac impl) then inl VerifyFailed
           else match buildLanes cfg det ac with
                | inl ps => inl (BadLanes ps)
                | inr lanes => inr (map lane_info lanes)
                end
       end.

Definition sendModeOrDefault (m : SendMode) : SendMode := if m =s [] then SendRaw else m.
End Build.

(** ** Audit sinks *)

(** The chain [buildAudit] assembles, outermost first. *)
Inductive SinkSpec :=
  | JSONLTo (file : bytes) (opts : SinkOptions)
  | MemoryOf (n : Z)
  | QueryOf (sessions : Z)
  | Multi (l : list SinkSpec)
  | Async (inner : SinkSpec) (queue : Z).

Definition buildAudit `{Host} (cfg : AuditConfig) : option SinkSpec :=
  let opts := {| RedactStatements := auRedactStatements cfg; MaxStatementBytes := auMaxStatementBytes cfg |} in
  file ← (if (auFile cfg =s []) || (auFile cfg =s B "-") then Some (JSONLTo (B "-") opts)
          else if os_OpenAppend (auFile cfg) then Some (JSONLTo (auFile cfg) opts) else None);
  let sinks := [file]
    ++ (if (0 <? auMemoryBuffer cfg)%Z then [MemoryOf (auMemoryBuffer cfg)] else [])
    ++ (if (0 <? auQuerySessions cfg)%Z then [QueryOf (auQuerySessions cfg)] else []) in
  Some (if (0 <? auAsyncQueueSize cfg)%Z then Async (Multi sinks) (auAsyncQueueSize cfg) else Multi sinks).

(** ** Servers *)

(** [headerIdentity]: whatever the header, the peer address alone. *)
Definition headerIdentity {N : Type} (RemoteAddr : N -> bytes) (header : bytes) : N -> Identity :=
  fun c => {| idSubject := []; idEmail := []; idGroups := []; idPeerAddr := RemoteAddr c; idAttributes := ∅ |}.

Section Server.
Context `{Host} {N : Type} (RemoteAddr : N -> bytes).
Context (tls_server : bytes * bytes -> list bytes -> option (list bytes)).

(** [buildServer] up to [proxy.NewServer]; the policy is the lane's chain. *)
Definition server_config (ln : lane) (ac : AuditConfig) (policy : option Evaluator) (up : option ClientTLS)
    (down : option (bytes * bytes)) : ServerConfig HttpInspector N :=
  let lc := lnConfig ln in
  {| scListen := lcListen lc; scNetwork := lcNetwork lc; scUpstream := lcUpstream lc;
     scUpstreamTLS := is_some up; scDownstreamTLS := tls_server <$> down; scProtocol := lcProtocol lc;
     scConnection := lcConnection lc; scPolicy := policy; scAudit := true; scMasker := lnMasker ln;
     scFailOnAuditError := auFailClosed ac; scDenyWriter := Some (fun p _ msg => Deny_frame p msg);
     scIdentityFn := if lcIdentityHeader lc =s [] then None
                     else Some (headerIdentity RemoteAddr (lcIdentityHeader lc));
     scCodecFactory := (fun f u => Some (f u)) <$> lnCodec ln; scDialTimeout := 0;
     scMaxConns := lcMaxConns lc |}.

Definition buildServer (ln : lane) (ac : AuditConfig) (policy : option Evaluator)
    : option (ServerConfig HttpInspector N) :=
  up ← BuildTLS (lcUpstreamTLS (lnConfig ln));
  down ← BuildDownstreamTLS (lcDownstreamTLS (lnConfig ln));
  Some (server_config ln ac policy up down).
End Server.
