(* ===== verification/SideProps.v ===== *)
(** * What an accepted configuration means

    A configuration that validates builds, and what it builds enforces what it
    says: inherited rules still deny, a deferred match is decided by the policy
    agent, credentials in headers are not exposed. *)

From S2P Require Import Prelude GoStrings GoText Types Inspect HttpPath HttpCodec HttpProps Policy.
From S2P Require Import PolicyProps Json Opa AiCache AiContent AiEvaluator AiBudget AiProps TwoPhase.
From S2P Require Import ContentLength Session Gate Server SideConfig SideLanes HttpLane.

(** ** Problems *)

Lemma when_nil b p : when b p = [] <-> b = false.
Proof. by destruct b. Qed.

Lemma app_nil_both {A} (l k : list A) : l ++ k = [] <-> l = [] /\ k = [].
Proof. split; [apply app_eq_nil|by intros [-> ->]]. Qed.

Lemma concat_map_nil {A B} (f : A -> list B) l x : concat (map f l) = [] -> x ∈ l -> f x = [].
Proof.
  intros Hc Hx. induction l as [|y l IH]; [by apply elem_of_nil in Hx|]. cbn in Hc.
  apply app_eq_nil in Hc as [Hy Hc]. apply elem_of_cons in Hx as [->|Hx]; [done|by apply IH].
Qed.

Ltac no_problems H :=
  repeat match type of H with _ ++ _ = [] => apply app_eq_nil in H; destruct H as [? H] end.

Section Accepted.
Context `{GoUnicode} `{GoLib} `{Sha256} `{Host} {C : Type} `{Codec C}.
Context (reg : Registry C) (as_reframer : C -> option (Reframer C)).

(** What [Validate] says about each lane. *)
Lemma accepted_lanes c seen i ls :
  validate_listeners reg as_reframer c seen i ls = [] ->
  forall k lc, ls !! k = Some lc -> validateLane reg as_reframer c lc (displayName lc (i + k)) = [].
Proof.
  revert seen i. induction ls as [|l ls IH]; intros seen i Hv k lc Hk; [done|].
  cbn [validate_listeners] in Hv. apply app_eq_nil in Hv as [Hl Hv].
  destruct k as [|k]; cbn in Hk.
  - injection Hk as <-. rewrite Nat.add_0_r. unfold validate_listener in Hl. no_problems Hl. done.
  - replace (i + S k) with (S i + k) by lia. by apply (IH _ _ Hv).
Qed.

Lemma accepted_lane c k lc :
  Validate reg as_reframer c = [] -> cfListeners c !! k = Some lc ->
  validateLane reg as_reframer c lc (displayName lc k) = [].
Proof.
  intros Hv Hk. unfold Validate in Hv. no_problems Hv.
  exact (accepted_lanes c ∅ 0 (cfListeners c) Hv k lc Hk).
Qed.

(** ** Headers *)

Lemma forbidden_ascii n : n ∈ forbiddenHeaders -> all_ascii n = true /\ forallb (fun c => byte_in "a" "z" c || (c =b "-")) n = true.
Proof. unfold forbiddenHeaders. rewrite !elem_of_cons, elem_of_nil. intros [->|[->|[->|[->|[]]]]]; done. Qed.

Lemma lower_letter_not_space c :
  byte_in "a" "z" (lower_byte c) || (lower_byte c =b "-") = true -> ascii_space c = false.
Proof. destruct c; done. Qed.

Lemma TrimSpace_header name :
  all_ascii name = true -> ToLower name ∈ forbiddenHeaders -> TrimSpace name = name.
Proof.
  intros Ha Hf. destruct (forbidden_ascii _ Hf) as [_ Hl]. unfold ToLower in Hl. rewrite Ha in Hl.
  assert (forall c, c ∈ name -> ascii_space c = false) as Hns.
  { intros c Hc. apply lower_letter_not_space. rewrite forallb_forall in Hl. apply (Hl (lower_byte c)).
    apply in_map. by apply list_elem_of_In. }
  destruct (TrimSpace_ascii name Ha) as (w1 & w2 & Hn & H1' & H2').
  assert (forall w, forallb ascii_space w = true -> (forall c, c ∈ w -> c ∈ name) -> w = []) as Hw.
  { intros [|c w] Hs Hin; [done|]. cbn in Hs. apply andb_prop in Hs as [Hs _].
    rewrite (Hns c) in Hs; [done|]. apply Hin. left. }
  assert (w1 = []) as -> by (apply Hw; [done|]; intros c Hc; rewrite Hn; apply elem_of_app; by left).
  assert (w2 = []) as -> by (apply Hw; [done|]; intros c Hc; rewrite Hn, !elem_of_app; tauto).
  by rewrite app_nil_r in Hn.
Qed.

Lemma http_validate_headers h lane name :
  http_validate h lane = [] -> name ∈ hcHeaders h -> ToLower (TrimSpace name) ∉ forbiddenHeaders.
Proof.
  intros Hv Hn Hbad. unfold http_validate in Hv. apply app_eq_nil in Hv as [Hv _].
  pose proof (concat_map_nil _ _ _ Hv Hn) as Hf. cbv beta zeta in Hf. apply map_eq_nil in Hf.
  assert (ToLower (TrimSpace name) ∈ List.filter (fun bad => ToLower (TrimSpace name) =s bad) forbiddenHeaders) as Hin.
  { apply list_elem_of_In, filter_In. split; [by apply list_elem_of_In|by apply bool_decide_eq_true]. }
  rewrite Hf in Hin. by apply elem_of_nil in Hin.
Qed.

(** Credentials stay out: in an accepted configuration no lane's codec exposes
    an Authorization, Cookie, Proxy-Authorization or Set-Cookie header, whatever
    the request and however the configuration spells its allowlist. *)
Theorem forbidden_header_never_exposed c k lc h r b key :
  Validate reg as_reframer c = [] -> cfListeners c !! k = Some lc -> lcHTTP lc = Some h ->
  Forall (fun n => all_ascii n = true) (hcHeaders h) -> key ∈ forbiddenHeaders ->
  exists ht, stHTTP (inspectRequest (newHTTPCodec h tt) r b) = Some ht /\ htHeaders ht !! key = None.
Proof.
  intros Hv Hk Hh Ha Hf. pose proof (accepted_lane c k lc Hv Hk) as Hl.
  unfold validateLane in Hl. destruct (resolve c lc) as [pc mc]. destruct (splitAnalyzerRules _) as [lr ar].
  no_problems Hl. rewrite Hh in *.
  match goal with E : when _ _ ++ http_validate h _ = [] |- _ => apply app_eq_nil in E as [_ Hval] end.
  unfold inspectRequest. destruct (attachBody _ _) as [body cut]. eexists. split; [reflexivity|].
  cbn [htHeaders]. destruct (pickHeaders _ _ !! key) as [v|] eqn:E; [|done]. exfalso.
  apply pickHeaders_spec in E as [Hin _]. cbn [newHTTPCodec http_New hi_headers codec_options opHeaders] in Hin.
  apply elem_of_list_to_set, list_elem_of_fmap in Hin as (name & -> & Hname).
  apply (http_validate_headers _ _ name Hval Hname). rewrite TrimSpace_header; [done| |done].
  rewrite Forall_forall in Ha. by apply Ha.
Qed.

(** ** Inherited rules *)

(** A rule without its name, which the constructor may have made up from the
    rule's position. *)
Definition unnamed (r : Rule) : Rule :=
  rule_with r [] (rlMessage r) (rlResources r) (rlMethods r) (rlStatuses r) (rlCompiled r).

Definition rule_denies (s : option Scanner) (stmt : Statement) (r : Rule) : bool :=
  match rule_outcome s stmt r with Denies _ => true | _ => false end.

Lemma unnamed_denies s stmt r : rule_denies s stmt (unnamed r) = rule_denies s stmt r.
Proof.
  unfold rule_denies, rule_outcome. cbn [unnamed rule_with rlType rlAction].
  change (matchesPII (unnamed r) stmt s) with (matchesPII r stmt s).
  destruct (rlType r =s MatchPII).
  { destruct (matchesPII r stmt s) as [[] es]; cbn; [|done]. by destruct (rlAction r =s ActionDefer). }
  unfold rule_matches. change (matchesHTTP (unnamed r) stmt) with (matchesHTTP r stmt).
  destruct (matchesHTTP r stmt) as [[]|]; [by destruct (rlAction r =s ActionDefer)|done|].
  cbn [unnamed rule_with rlType rlWords rlCompiled rlOperations].
  change (table_matches (unnamed r) stmt) with (table_matches r stmt).
  destruct (rlType r =s MatchDenyWords); [by destruct (existsb _ _), (rlAction r =s ActionDefer)|].
  destruct (rlType r =s MatchPattern).
  { destruct (rlCompiled r) as [re|]; [|done]. by destruct (re _), (rlAction r =s ActionDefer). }
  destruct (rlType r =s MatchOperation); [by destruct (existsb _ _), (rlAction r =s ActionDefer)|].
  destruct (rlType r =s MatchTable); [|done]. by destruct (table_matches r stmt), (rlAction r =s ActionDefer).
Qed.

(** Apart from its name, what becomes of a rule does not depend on its place. *)
Lemma check_rule_place hs i j r : unnamed (check_rule hs i r).1 = unnamed (check_rule hs j r).1.
Proof.
  unfold check_rule. destruct (rlName r =s []); [|done].
  cbn [rule_with rlType rlAction rlWords rlPattern rlOperations rlTables rlAccess].
  destruct (rlType r =s MatchDenyWords); [done|].
  destruct (rlType r =s MatchPattern).
  { destruct (rlPattern r =s []); [done|]. by destruct (regexp_Compile _). }
  destruct (rlType r =s MatchOperation); [done|]. destruct (rlType r =s MatchTable); [done|].
  destruct (rlType r =s MatchPII); [done|]. destruct (rlType r =s MatchAIAnalysis); [done|].
  by destruct ((rlType r =s MatchHTTPResource) || _).
Qed.

Lemma check_rules_place hs i j rs :
  map unnamed (check_rules hs i rs).1 = map unnamed (check_rules hs j rs).1.
Proof.
  revert i j. induction rs as [|r rs IH]; intros i j; [done|]. cbn [check_rules].
  pose proof (check_rule_place hs i j r) as Hr. specialize (IH (i + 1) (j + 1)).
  destruct (check_rule hs i r) as [r1 p1], (check_rule hs j r) as [r2 p2].
  destruct (check_rules hs (i + 1) rs) as [o1 q1], (check_rules hs (j + 1) rs) as [o2 q2].
  cbn [fst map] in *. by f_equal.
Qed.

Lemma check_rules_app hs i l k :
  (check_rules hs i (l ++ k)).1 = (check_rules hs i l).1 ++ (check_rules hs (i + length l) k).1.
Proof.
  revert i. induction l as [|r l IH]; intros i; cbn [app check_rules length].
  - by rewrite Nat.add_0_r.
  - specialize (IH (i + 1)). replace (i + 1 + length l) with (i + S (length l)) in IH by lia.
    destruct (check_rule hs i r) as [r1 p1].
    destruct (check_rules hs (i + 1) (l ++ k)) as [o1 q1], (check_rules hs (i + 1) l) as [o2 q2].
    cbn [fst app] in *. by f_equal.
Qed.

Definition has_scanner (s : option Scanner) : bool := match s with Some _ => true | None => false end.

Lemma NewRules_rules rs s R :
  NewRulesWithScanner rs s = inr R ->
  rsRules R = (check_rules (has_scanner s) 0 rs).1 /\ rsScanner R = s.
Proof.
  unfold NewRulesWithScanner, newRules, has_scanner. destruct (check_rules _ 0 rs) as [out ps].
  destruct ps; [|done]. by intros [= <-].
Qed.

Lemma some_rule_denies rs s R stmt ec :
  NewRulesWithScanner rs s = inr R ->
  (vDenied (Rules_EvaluateWith R stmt ec).2 = true <-> existsb (rule_denies s stmt) (rsRules R) = true).
Proof.
  intros HR. pose proof (NewRules_rules _ _ _ HR) as [_ Hs]. split.
  - intros Hd. unfold Rules_EvaluateWith in Hd.
    pose proof (rules_loop_verdict (rsScanner R) (rsFailOpen R) stmt (rsRules R) ∅ (newRules_ready _ _ _ HR)) as Hv.
    destruct (rules_loop _ _ _ _ _) as [d v]. cbn [snd] in *. subst s.
    destruct Hv as [[_ ->]|(pre & r & post & msg & -> & _ & Ho & _)]; [done|].
    apply existsb_exists. exists r. split; [apply in_or_app; right; by left|]. unfold rule_denies. by rewrite Ho.
  - intros (r & Hin & Hr)%existsb_exists. unfold rule_denies in Hr. rewrite <- Hs in Hr.
    destruct (rule_outcome (rsScanner R) stmt r) as [| |msg|] eqn:Ho; try done.
    apply (denying_rule_denies rs s R stmt ec r msg HR); [by apply list_elem_of_In|done].
Qed.

Lemma existsb_unnamed s stmt l : existsb (rule_denies s stmt) l = existsb (rule_denies s stmt) (map unnamed l).
Proof. induction l as [|r l IH]; cbn [existsb map]; [done|]. by rewrite unnamed_denies, IH. Qed.

(** Inherited rules still deny: a listener's own rules are put in front of the
    defaults, and whatever they are, a statement that the default rules alone
    deny is denied by the rules of the lane; the lane's own rules deny what they
    deny alone as well. *)
Theorem inherited_rules_still_deny c lc o s R Rd Ro stmt ec :
  lcPolicy lc = Some o -> pcRules o <> [] ->
  NewRulesWithScanner (splitAnalyzerRules (pcRules (resolve c lc).1)).1 s = inr R ->
  NewRulesWithScanner (splitAnalyzerRules (pcRules (cfPolicy c))).1 s = inr Rd ->
  NewRulesWithScanner (splitAnalyzerRules (pcRules o)).1 s = inr Ro ->
  vDenied (Rules_EvaluateWith R stmt ec).2
  = vDenied (Rules_EvaluateWith Ro stmt ec).2 || vDenied (Rules_EvaluateWith Rd stmt ec).2.
Proof.
  intros Ho Hne HR HRd HRo.
  assert (pcRules (resolve c lc).1 = pcRules o ++ pcRules (cfPolicy c)) as Hmerge.
  { unfold resolve. rewrite Ho. cbn [fst pcRules]. by destruct (pcRules o). }
  rewrite Hmerge in HR. cbn [splitAnalyzerRules fst] in *. rewrite List.filter_app in HR.
  pose proof (NewRules_rules _ _ _ HR) as [E _]. pose proof (NewRules_rules _ _ _ HRd) as [Ed _].
  pose proof (NewRules_rules _ _ _ HRo) as [Eo _].
  apply eq_true_iff_eq. rewrite orb_true_iff, !some_rule_denies by done.
  rewrite <- orb_true_iff. rewrite E, check_rules_app, existsb_app, Eo, Ed. cbn [Nat.add].
  rewrite (existsb_unnamed s stmt (check_rules (has_scanner s) (length _) _).1).
  rewrite (check_rules_place _ _ 0), <- existsb_unnamed. done.
Qed.

(** ** What validation says of a lane *)

Record lane_accepted (c : Config) (lc : ListenerConfig) (name : bytes) : Prop := {
  la_rules : nonempty (splitAnalyzerRules (pcRules (resolve c lc).1)).1 = true -> cfPII c = [] ->
    exists R, NewRules (splitAnalyzerRules (pcRules (resolve c lc).1)).1 = inr R;
  la_ai : validateAIRules (splitAnalyzerRules (pcRules (resolve c lc).1)).2 (cfAnalyzer c) (resolve c lc).1 name = [];
  la_defer : forall r, r ∈ (splitAnalyzerRules (pcRules (resolve c lc).1)).1 -> rlAction r = ActionDefer ->
    opa_enabled (pcOPA (resolve c lc).1) = true;
}.

Lemma lane_accepted_of c k lc :
  Validate reg as_reframer c = [] -> cfListeners c !! k = Some lc -> lane_accepted c lc (displayName lc k).
Proof.
  intros Hv Hk. pose proof (accepted_lane c k lc Hv Hk) as Hl. unfold validateLane in Hl.
  destruct (resolve c lc) as [pc mc] eqn:Er. unfold splitAnalyzerRules in Hl.
  apply app_eq_nil in Hl as [L1 Hl]. apply app_eq_nil in Hl as [L2 Hl]. apply app_eq_nil in Hl as [L3 _].
  split; rewrite Er; cbn [fst snd splitAnalyzerRules].
  - intros Hn Hp. rewrite Hn, Hp in L1. cbn [nonempty negb andb] in L1.
    destruct (NewRules _) as [|R]; [done|]. by exists R.
  - done.
  - intros r Hr Hd. pose proof (concat_map_nil _ _ _ L3 Hr) as Hw. cbv beta in Hw. apply when_nil in Hw.
    rewrite Hd in Hw. change (ActionDefer =s ActionDefer) with true in Hw. cbn [andb] in Hw.
    by apply negb_false_iff in Hw.
Qed.

Definition names_level (r : Rule) (raw : bytes) : Prop := raw ∈ [rlHighRisk r; rlMediumRisk r; rlLowRisk r].

Lemma level_actions_elem r level raw :
  (level, raw) ∈ level_actions r -> level_Valid level = true /\ names_level r raw.
Proof.
  unfold level_actions, names_level. rewrite !elem_of_cons, elem_of_nil.
  intros [[= -> ->]|[[= -> ->]|[[= -> ->]|[]]]]; (split; [done|tauto]).
Qed.

Lemma ai_rule_levels pc name r level raw :
  validate_ai_rule pc name r = [] -> (level, raw) ∈ level_actions r ->
  raw = [] \/ (action_Valid raw = true /\ raw <> ActionRequireReview
    /\ (raw = AiActionDefer -> opa_enabled (pcOPA pc) = true)).
Proof.
  intros Hv Hin. unfold validate_ai_rule in Hv. apply app_eq_nil in Hv as [_ Hv].
  apply app_eq_nil in Hv as [_ Hv]. apply app_eq_nil in Hv as [Hv _].
  pose proof (concat_map_nil _ _ _ Hv Hin) as Hl. unfold validate_level in Hl.
  destruct (raw =s []) eqn:E0; bool_hyps; [by left|]. right.
  destruct (action_Valid raw); cbn [negb] in Hl; [|done]. split; [done|].
  apply app_eq_nil in Hl as [H1' H2']. apply when_nil in H1', H2'. split.
  - by apply bool_decide_eq_false in H2'.
  - intros ->. change (AiActionDefer =s AiActionDefer) with true in H1'. cbn [andb] in H1'.
    by apply negb_false_iff in H1'.
Qed.

(** ** Accepted lanes build *)

Definition good_action (level : bytes) (a : Action) : Prop :=
  level_Valid level = true /\ action_Valid a = true /\ a <> ActionRequireReview.

Lemma good_actions_checked m : map_Forall good_action m -> check_actions m = None.
Proof.
  intros Hm. unfold check_actions.
  assert (omap check_action (map_to_list m) = []) as ->; [|done].
  assert (Forall (fun x => check_action x = None) (map_to_list m)) as Hall.
  { apply Forall_forall. intros [l a] Hin%elem_of_map_to_list. destruct (Hm l a Hin) as (G1 & G2 & G3).
    unfold check_action. cbn [fst snd]. rewrite G1, G2. cbn [negb].
    assert ((a =s ActionRequireReview) = false) as -> by (by apply bool_decide_eq_false). done. }
  induction Hall as [|x l Hx Hl IH]; [done|]. cbn [omap list_omap]. rewrite Hx. exact IH.
Qed.

Lemma action_loop_good rule l m :
  map_Forall good_action m ->
  (forall level raw, (level, raw) ∈ l -> level_Valid level = true
     /\ (raw = [] \/ (action_Valid raw = true /\ raw <> ActionRequireReview))) ->
  exists m', action_loop rule l m = inr m' /\ map_Forall good_action m'.
Proof.
  revert m. induction l as [|[level raw] l IH]; intros m Hm Hl; cbn [action_loop]; [by exists m|].
  destruct (Hl level raw) as [G1 G2]; [left|].
  destruct (raw =s []) eqn:E; bool_hyps.
  { apply IH; [done|]. intros ? ? ?. apply Hl. by right. }
  destruct G2 as [|[G2 G3]]; [done|]. rewrite G2. cbn [negb]. apply IH.
  - by apply map_Forall_insert_2.
  - intros ? ? ?. apply Hl. by right.
Qed.

Lemma ai_loop_builds pc name rules cfg redact :
  (forall r, r ∈ rules -> validate_ai_rule pc name r = []) ->
  exists evs, ai_loop rules cfg true redact = inr evs /\ length evs = length rules.
Proof.
  induction rules as [|r rules IH]; intros Hv; cbn [ai_loop]; [by exists []|].
  destruct (action_loop_good (rlName r) (level_actions r) ∅) as (m & Hm & Hg).
  { apply map_Forall_empty. }
  { intros level raw Hin. destruct (level_actions_elem _ _ _ Hin) as [G1 _]. split; [done|].
    destruct (ai_rule_levels pc name r level raw) as [G|(G2 & G3 & _)]; [by apply Hv; left|done|by left|by right]. }
  unfold actionMap. rewrite Hm.
  assert (exists e, ai_New (ai_config r m cfg true redact) = inr e) as [e ->].
  { unfold ai_New. cbn [ai_config acProvider negb acActions]. rewrite good_actions_checked by done. by eexists. }
  destruct IH as (evs & -> & Hl); [intros; apply Hv; by right|]. exists (e :: evs). cbn. by rewrite Hl.
Qed.

Lemma validated_ai_rules rules cfg pc name r :
  validateAIRules rules cfg pc name = [] -> r ∈ rules ->
  cfg <> None /\ validate_ai_rule pc name r = [].
Proof.
  intros Hv Hr. destruct rules as [|r0 rules]; [by apply elem_of_nil in Hr|]. cbn [validateAIRules] in Hv.
  apply app_eq_nil in Hv as [Hc Hv]. apply when_nil in Hc. split; [by destruct cfg|].
  exact (concat_map_nil _ _ _ Hv Hr).
Qed.

(** The dependencies of a lane: the provider that was set up, if one is
    configured. *)
Definition deps_of (c : Config) (redact : option (bytes -> bytes)) : option analyzerDeps :=
  (fun a => {| adConfig := a; adProvider := true; adRedact := redact |}) <$> cfAnalyzer c.

(** What validates, builds: when a configuration without a detector section is
    accepted, the policy of every lane is built without an error, with one
    analyzer for each of its analysis rules. *)
Theorem accepted_policy_builds c k lc redact :
  Validate reg as_reframer c = [] -> cfListeners c !! k = Some lc -> cfPII c = [] ->
  exists pol, buildPolicy (resolve c lc).1 None (deps_of c redact) = inr pol
  /\ (enforcing (resolve c lc).1 = true ->
      length (List.filter (fun s => match s with SAi _ => true | _ => false end) (default [] pol))
      = length (List.filter is_ai (pcRules (resolve c lc).1))).
Proof.
  intros Hv Hk Hp. destruct (lane_accepted_of c k lc Hv Hk) as [L1 L2 _].
  set (pc := (resolve c lc).1) in *. unfold buildPolicy. destruct (enforcing pc) eqn:Ee; cbn [negb]; [|by exists None].
  unfold splitAnalyzerRules in *. cbn [fst snd] in *.
  set (lr := List.filter (fun r => negb (is_ai r)) (pcRules pc)) in *. set (ar := List.filter is_ai (pcRules pc)) in *.
  assert (exists rs, local_rules lr None = inr rs /\ Forall (fun s => match s with SRules _ => True | _ => False end) rs)
    as (rs & Hrs & Hrs2).
  { unfold local_rules. destruct lr as [|r lr'] eqn:El; [by exists []|]. destruct (L1 eq_refl Hp) as [R ->].
    exists [SRules R]. by repeat constructor. }
  assert (exists evs, buildAnalyzerEvaluators ar (deps_of c redact) = inr evs /\ length evs = length ar)
    as (evs & Hevs & Hlen).
  { unfold buildAnalyzerEvaluators. destruct ar as [|r ar'] eqn:Ea; [by exists []|].
    destruct (validated_ai_rules _ _ _ _ r L2) as [Hc _]; [left|]. unfold deps_of.
    destruct (cfAnalyzer c) as [a|] eqn:Ean; [|done]. cbn [fmap option_fmap option_map adProvider negb adConfig adRedact].
    apply (ai_loop_builds pc (displayName lc k)). intros r' Hr'. by apply (validated_ai_rules _ _ _ _ r' L2). }
  rewrite Hrs, Hevs.
  assert (length (List.filter (fun s => match s with SAi _ => true | _ => false end)
    (rs ++ opa_front pc ++ map SAi evs ++ opa_back pc)) = length ar) as Hcount.
  { rewrite !List.filter_app, !length_app.
    assert (List.filter (fun s => match s with SAi _ => true | _ => false end) rs = []) as ->.
    { clear -Hrs2. induction Hrs2 as [|[] l Hs Hl IH]; done. }
    assert (List.filter (fun s => match s with SAi _ => true | _ => false end) (map SAi evs) = map SAi evs) as ->.
    { clear. induction evs as [|e evs IH]; cbn; by f_equal. }
    rewrite length_map. unfold opa_front, opa_back. repeat case_match; cbn; lia. }
  destruct (rs ++ opa_front pc ++ map SAi evs ++ opa_back pc) as [|s0 chain] eqn:Ech.
  - exists None. split; [done|]. intros _. exact Hcount.
  - exists (Some (s0 :: chain)). split; [done|]. intros _. exact Hcount.
Qed.

(** ** Deferred matches are decided *)

(** Some rule of the lane leaves its match to the policy agent. *)
Definition deferring (rs : list Rule) : Prop :=
  exists r, r ∈ rs /\ ((is_ai r = false /\ rlAction r = ActionDefer) \/ (is_ai r = true /\ names_level r AiActionDefer)).

Lemma deferring_any rs : deferring rs -> anyDeferred rs = true.
Proof.
  intros (r & Hr & Hd). apply existsb_exists. exists r. split; [by apply list_elem_of_In|].
  apply orb_true_iff. destruct Hd as [[_ Hd]|[_ Hd]]; [left; by apply bool_decide_eq_true|right].
  apply existsb_exists. exists AiActionDefer. split; [by apply list_elem_of_In|by apply bool_decide_eq_true].
Qed.

Lemma deferring_enabled c lc name :
  lane_accepted c lc name -> deferring (pcRules (resolve c lc).1) -> opa_enabled (pcOPA (resolve c lc).1) = true.
Proof.
  intros [_ L2 L3] (r & Hr & [[Ha Hd]|[Ha Hd]]); cbn [splitAnalyzerRules fst snd] in *.
  - apply (L3 r); [|done]. apply list_elem_of_In, filter_In. split; [by apply list_elem_of_In|by rewrite Ha].
  - assert (r ∈ List.filter is_ai (pcRules (resolve c lc).1)) as Hin.
    { apply list_elem_of_In, filter_In. split; [by apply list_elem_of_In|done]. }
    destruct (validated_ai_rules _ _ _ _ r L2 Hin) as [_ Hv].
    assert (exists level, (level, AiActionDefer) ∈ level_actions r) as [level Hl].
    { unfold names_level in Hd. unfold level_actions. rewrite !elem_of_cons, elem_of_nil in Hd.
      destruct Hd as [->|[->|[->|[]]]]; eexists; rewrite !elem_of_cons; naive_solver. }
    destruct (ai_rule_levels _ _ r level AiActionDefer Hv Hl) as [|(_ & _ & Ho)]; [done|by apply Ho].
Qed.

(** A chain that ends with the decision. *)
Lemma chain_ends_decided pre d stmt ec `{OpaServer} :
  oaPhase d = PhaseDecide -> oaFailOpen d = false ->
  vDenied (Chain_EvaluateWith (pre ++ [opa_evaluator d]) stmt ec).2 = false ->
  let ec' := (Chain_EvaluateWith pre stmt ec).1 in
  exists r, agent_result d (opa_body d stmt (Some ec')) r /\ consents d r
    /\ oiFindings (opa_input d stmt (Some ec')) = ecFindings ec'.
Proof.
  intros Hp Hf. unfold Chain_EvaluateWith. rewrite chain_loop_app.
  destruct (chain_loop pre stmt ec []) as [ec1 v1]. cbn [fst snd].
  destruct (vDenied v1) eqn:Hv; [cbn [snd]; congruence|].
  intros (Ad & _)%chain_allows_cons. cbn [run_evaluator opa_evaluator] in Ad.
  apply opa_fails_closed_aux in Ad as (r & Hr & Hc); [|done]. exists r. split; [done|]. split; [done|].
  unfold opa_input. cbn [oiFindings]. by apply findings_shown.
Qed.

(** C5 What is deferred is decided: in an accepted configuration, when a lane has a
    rule that defers its match, or an analysis rule that defers a level, its
    evaluators end with a decide call to the policy agent and consult it before
    that on the gate phase at most.  Unless that call fails open, a statement
    passes the lane only with the agent's consent to a document that carries
    everything the evaluators before it found. *)
Theorem deferred_is_decided `{OpaServer} c k lc det ac chain :
  Validate reg as_reframer c = [] -> cfListeners c !! k = Some lc ->
  deferring (pcRules (resolve c lc).1) -> buildPolicy (resolve c lc).1 det ac = inr (Some chain) ->
  exists o pre, pcOPA (resolve c lc).1 = Some o /\ chain = pre ++ [SOPA (opa_client o PhaseDecide)]
  /\ Forall (fun s => match s with SOPA g => oaPhase g = PhaseGate | _ => True end) pre
  /\ forall ask now now' stmt ec,
       opFailOpen o = false ->
       vDenied (Chain_EvaluateWith (map (stage_evaluator ask now now') chain) stmt ec).2 = false ->
       let ec' := (Chain_EvaluateWith (map (stage_evaluator ask now now') pre) stmt ec).1 in
       exists r, agent_result (opa_client o PhaseDecide) (opa_body (opa_client o PhaseDecide) stmt (Some ec')) r
         /\ consents (opa_client o PhaseDecide) r
         /\ oiFindings (opa_input (opa_client o PhaseDecide) stmt (Some ec')) = ecFindings ec'.
Proof.
  intros Hv Hk Hd Hb. pose proof (lane_accepted_of c k lc Hv Hk) as La.
  pose proof (deferring_enabled _ _ _ La Hd) as Hen. apply deferring_any in Hd.
  set (pc := (resolve c lc).1) in *. unfold opa_enabled in Hen. destruct (pcOPA pc) as [o|] eqn:Eo; [|done].
  assert (two_phase pc = true) as Htp.
  { unfold two_phase. rewrite Eo. cbn [opa_enabled]. by rewrite Hen, Hd, orb_true_r. }
  unfold buildPolicy in Hb. destruct (negb (enforcing pc)); [done|].
  destruct (splitAnalyzerRules (pcRules pc)) as [lr ar]. destruct (local_rules lr det) as [|rs] eqn:Er; [done|].
  destruct (buildAnalyzerEvaluators ar ac) as [|evs]; [done|].
  assert (opa_back pc = [SOPA (opa_client o PhaseDecide)]) as Hback by (unfold opa_back; by rewrite Eo, Htp).
  assert (chain = (rs ++ opa_front pc ++ map SAi evs) ++ [SOPA (opa_client o PhaseDecide)]) as Hch.
  { rewrite Hback in Hb. rewrite <- !app_assoc. revert Hb. destruct (rs ++ _); [done|]. by intros [= <-]. }
  exists o, (rs ++ opa_front pc ++ map SAi evs). split; [done|]. split; [done|]. split.
  - rewrite !Forall_app. split; [|split].
    + unfold local_rules in Er. destruct lr; [by injection Er as <-|].
      destruct (match det with Some _ => _ | None => _ end); [done|]. injection Er as <-. by repeat constructor.
    + unfold opa_front. rewrite Eo, Htp. unfold opa_enabled. rewrite Hen. cbn [negb].
      destruct (opGate o); by repeat constructor.
    + apply Forall_map, Forall_forall. done.
  - intros ask now now' stmt ec Hf Hall. rewrite Hch, map_app in Hall.
    by apply (chain_ends_decided (map (stage_evaluator ask now now') (rs ++ opa_front pc ++ map SAi evs))
      (opa_client o PhaseDecide)).
Qed.
End Accepted.

(** ** A concrete configuration, and where the sidecar departs from its words *)
(** ** Departures *)

(** The mode that is to keep detected values in the process sends the statement
    as it is and adds a note that the values were withheld. *)
Lemma redacted_text_is_sent det f s :
  redactorFor SendRedacted (Some det) = Some f -> s `prefix_of` f s.
Proof.
  intros [= <-]. destruct (plScanText det s); [done|]. by apply prefix_app_r.
Qed.

(** The header that is to name the subject is never read. *)
Lemma identity_header_ignored {N : Type} (addr : N -> bytes) header header' c :
  headerIdentity addr header c = headerIdentity addr header' c /\ idSubject (headerIdentity addr header c) = [].
Proof. done. Qed.

(** ** Credentials *)

(** A credential is read only from a file nobody but its owner can read, and
    whatever renders it shows one of two placeholders. *)
Lemma secret_is_kept `{Host} path s :
  ReadSecretFile path = inr s ->
  (exists mode, os_Stat path = Some (false, mode) /\ Z.land mode 63 = 0%Z)
  /\ Secret_String s ∈ [B "<unset>"; B "[REDACTED]"] /\ Secret_GoString s = Secret_String s
  /\ Secret_LogValue s = Secret_String s.
Proof.
  unfold ReadSecretFile. destruct (path =s []); [done|]. destruct (os_Stat path) as [[[] mode]|]; [done| |done].
  destruct (Z.land mode 63 =? 0)%Z eqn:E; cbn [negb]; [|done]. bool_hyps.
  destruct (os_ReadFile path); [|done]. intros [= <-]. split; [by exists mode|].
  split; [|done]. unfold Secret_String. destruct (se_b _); set_solver.
Qed.

(** ** A configuration *)

#[local] Existing Instance ascii_only.
#[local] Existing Instance plain_lib.
#[local] Existing Instance plain_sha.
#[local] Existing Instance line_reader.
#[local] Existing Instance toy_agent.

#[local] Instance bare_host : Host := {
  os_ReadFile _ := None; os_Stat _ := None; os_OpenAppend _ := false; AppendCertsFromPEM _ := false; LoadX509KeyPair _ _ := false;
  url_Parse _ := None; linked_providers := [B "anthropic"];
}.

Definition http_registry : Registry HttpInspector := {[ Protocol.HTTP := (fun _ => no_capture) ]}.
Definition no_reframer : HttpInspector -> option (Reframer HttpInspector) := fun _ => None.

Definition deny_drop : Rule :=
  {| rlName := []; rlType := MatchDenyWords; rlWords := [B "drop"]; rlPattern := [];
     rlOperations := []; rlTables := []; rlRequireTableMatch := false; rlAccess := [];
     rlMessage := []; rlAction := []; rlEntities := []; rlTrigger := None;
     rlHighRisk := []; rlMediumRisk := []; rlLowRisk := []; rlPrompt := []; rlResources := [];
     rlMethods := []; rlStatuses := []; rlCompiled := None |}.

(** Analysis of what creates, the high level left to the agent. *)
Definition ai_rule : Rule :=
  {| rlName := B "risk"; rlType := MatchAIAnalysis; rlWords := []; rlPattern := [];
     rlOperations := []; rlTables := []; rlRequireTableMatch := false; rlAccess := [];
     rlMessage := []; rlAction := []; rlEntities := [];
     rlTrigger := Some {| atOperations := [OpPost]; atTables := []; atResources := [] |};
     rlHighRisk := AiActionDefer; rlMediumRisk := []; rlLowRisk := []; rlPrompt := []; rlResources := [];
     rlMethods := []; rlStatuses := []; rlCompiled := None |}.

Definition api_http : HTTPCodecConfig := {| hcCaptureBody := true; hcMaxBodyBytes := 0; hcHeaders := [B " X-Team"] |}.

Definition api_policy : PolicyConfig :=
  {| pcRules := [keep_users; ai_rule]; pcOPA := None; pcEnforce := Some true |}.

Definition api_listener : ListenerConfig :=
  {| lcName := B "api"; lcProtocol := Protocol.HTTP; lcListen := B "127.0.0.1:8080"; lcNetwork := [];
     lcUpstream := B "api:80"; lcConnection := []; lcUpstreamTLS := None; lcDownstreamTLS := None;
     lcIdentityHeader := []; lcIdleTimeoutSec := 0; lcMaxConns := 0; lcPolicy := Some api_policy; lcMask := None;
     lcHTTP := Some api_http |}.

Definition api_analyzer : AnalyzerConfig :=
  {| anProvider := B "anthropic"; anModel := B "m"; anEndpoint := []; anCredentialsFile := []; anExtra := ∅;
     anPrompt := []; anTimeoutSec := 5; anFailOpen := Some false; anSend := []; anMaxInputBytes := 0;
     anCacheSize := 16; anCacheTTLSec := 60; anMaxCalls := 100; anMaxOutputTokens := 0 |}.

Definition api_opa : OPAConfig :=
  {| opURL := B "http://opa"; opTimeoutSec := 1; opFailOpen := false; opGate := false |}.

Definition api_config : Config :=
  {| cfListeners := [api_listener];
     cfPolicy := {| pcRules := [deny_drop]; pcOPA := Some api_opa; pcEnforce := None |};
     cfMask := {| mcEnabled := None; mcRules := [] |};
     cfAudit := {| auFile := []; auRedactStatements := false; auMaxStatementBytes := 0; auAsyncQueueSize := 0;
                   auMemoryBuffer := 0; auQuerySessions := 0; auFailClosed := true |};
     cfAdminListen := []; cfPII := []; cfAnalyzer := Some api_analyzer; cfLogLevel := [] |}.

Lemma api_accepted : Validate http_registry no_reframer api_config = [].
Proof. vm_compute. reflexivity. Qed.

(** An empty network means tcp, and the check for a listen address that is used
    twice does not know it: of these two listeners one cannot bind. *)
Definition on_network (l : ListenerConfig) (network : bytes) : ListenerConfig :=
  {| lcName := lcName l; lcProtocol := lcProtocol l; lcListen := lcListen l; lcNetwork := network;
     lcUpstream := lcUpstream l; lcConnection := lcConnection l; lcUpstreamTLS := lcUpstreamTLS l;
     lcDownstreamTLS := lcDownstreamTLS l; lcIdentityHeader := lcIdentityHeader l;
     lcIdleTimeoutSec := lcIdleTimeoutSec l; lcMaxConns := lcMaxConns l; lcPolicy := lcPolicy l;
     lcMask := lcMask l; lcHTTP := lcHTTP l |}.

Definition with_listeners (c : Config) (ls : list ListenerConfig) : Config :=
  {| cfListeners := ls; cfPolicy := cfPolicy c; cfMask := cfMask c; cfAudit := cfAudit c;
     cfAdminListen := cfAdminListen c; cfPII := cfPII c; cfAnalyzer := cfAnalyzer c; cfLogLevel := cfLogLevel c |}.

Lemma default_network_hides_duplicate :
  Validate http_registry no_reframer
    (with_listeners api_config [on_network api_listener []; on_network api_listener (B "tcp")]) = []
  /\ Validate http_registry no_reframer
    (with_listeners api_config [on_network api_listener (B "tcp"); on_network api_listener (B "tcp")])
    = [DuplicateListen (B "api") (B "127.0.0.1:8080")].
Proof. vm_compute. split; reflexivity. Qed.

Lemma forbidden_header_never_exposed_witness :
  exists ht, stHTTP (inspectRequest (newHTTPCodec api_http tt) (line_request (B "GET / HTTP/1.1"))
      {| dr_data := []; dr_truncated := false |}) = Some ht /\ htHeaders ht !! B "cookie" = None.
Proof.
  apply (forbidden_header_never_exposed http_registry no_reframer api_config 0 api_listener api_http).
  - exact api_accepted.
  - reflexivity.
  - reflexivity.
  - repeat constructor.
  - right. left.
Defined.

Definition post_drop : Statement :=
  {| stProtocol := Protocol.HTTP; stDirection := FromClient; stText := B "POST /drop"; stOperation := OpPost;
     stEffects := []; stRelations := []; stTables := []; stDatabase := []; stHTTP := None; stResult := None;
     stMetadata := ∅ |}.

Definition the_rules (rs : list Rule) : Rules :=
  match NewRulesWithScanner rs None with
  | inr R => R
  | inl _ => {| rsRules := []; rsScanner := None; rsFailOpen := false |}
  end.

Lemma inherited_rules_still_deny_witness :
  vDenied (Rules_EvaluateWith (the_rules [keep_users; deny_drop]) post_drop empty_context).2 = true
  /\ vDenied (Rules_EvaluateWith (the_rules [keep_users]) post_drop empty_context).2 = false.
Proof.
  split; [|vm_compute; reflexivity].
  rewrite (inherited_rules_still_deny api_config api_listener api_policy None (the_rules [keep_users; deny_drop])
    (the_rules [deny_drop]) (the_rules [keep_users])).
  - vm_compute. reflexivity.
  - reflexivity.
  - discriminate.
  - vm_compute. reflexivity.
  - vm_compute. reflexivity.
  - vm_compute. reflexivity.
Defined.

Lemma accepted_policy_builds_witness :
  exists pol, buildPolicy (resolve api_config api_listener).1 None (deps_of api_config None) = inr pol
    /\ length (List.filter (fun s => match s with SAi _ => true | _ => false end) (default [] pol)) = 1.
Proof.
  destruct (accepted_policy_builds http_registry no_reframer api_config 0 api_listener None)
    as (pol & H1 & H2).
  - exact api_accepted.
  - reflexivity.
  - reflexivity.
  - exists pol. split; [exact H1|]. rewrite H2 by reflexivity. reflexivity.
Defined.

Definition api_chain : list Stage :=
  match buildPolicy (resolve api_config api_listener).1 None (deps_of api_config None) with
  | inr (Some chain) => chain
  | _ => []
  end.

Lemma api_chain_built :
  buildPolicy (resolve api_config api_listener).1 None (deps_of api_config None) = inr (Some api_chain).
Proof.
  unfold api_chain. destruct (buildPolicy _ _ _) as [e|[chain|]] eqn:E; [exfalso|done|exfalso];
    apply (f_equal (fun r => match r with inr (Some _) => true | _ => false end)) in E; vm_compute in E; done.
Qed.

Lemma deferred_is_decided_witness :
  exists o pre, pcOPA (resolve api_config api_listener).1 = Some o
    /\ api_chain = pre ++ [SOPA (opa_client o PhaseDecide)] /\ length pre = 2.
Proof.
  destruct (deferred_is_decided http_registry no_reframer api_config 0 api_listener None (deps_of api_config None)
    api_chain) as (o & pre & H1 & H2 & _).
  - exact api_accepted.
  - reflexivity.
  - exists ai_rule. split; [right; left|]. right. split; [reflexivity|left].
  - exact api_chain_built.
  - exists o, pre. split; [exact H1|]. split; [exact H2|].
    apply (f_equal length) in H2. rewrite length_app in H2. cbn [length] in H2.
    assert (length api_chain = 3) as E by (vm_compute; reflexivity). lia.
Defined.
