(* ===== verification/BrokerQueue.v ===== *)
(** * The relay queue of a broker session: src/gateway/broker/session.go

    A gateway session relays what an agent sends to a client.  Producers call
    [ForwardToTCP], which takes bytes of a budget and then a slot of a channel;
    receivers call [receiveData], which takes a message and gives its bytes
    back.  [closed], [queuedBytes] and the budget are behind the session's
    mutex; the channel and the wakeup [spaceFreed] are not.

    Each goroutine is a thread; a step is one critical section or one channel
    operation.  A [select] is resolved by a [choice] among its ready cases. *)

From S2P Require Import Prelude.

#[local] Open Scope Z_scope.

(** The part of [Session] the relay uses.  [sn_slots] is the capacity of
    [dataChannel], [sn_done] says that [ctx] is done: the session was closed,
    given up, or its access expired. *)
Record Session := {
  sn_queue : list bytes;
  sn_slots : nat;
  sn_queuedBytes : Z;
  sn_maxQueueBytes : Z;
  sn_spaceFreed : bool;
  sn_closed : bool;
  sn_done : bool;
}.

Definition maxQueuedBytes : Z := Z.shiftl 32 20.

(** The session [CreateRDPSession] builds. *)
Definition NewSession : Session :=
  {| sn_queue := []; sn_slots := 1024; sn_queuedBytes := 0; sn_maxQueueBytes := maxQueuedBytes;
     sn_spaceFreed := false; sn_closed := false; sn_done := false |}.

Definition set_queue (s : Session) (q : list bytes) : Session :=
  {| sn_queue := q; sn_slots := sn_slots s; sn_queuedBytes := sn_queuedBytes s;
     sn_maxQueueBytes := sn_maxQueueBytes s; sn_spaceFreed := sn_spaceFreed s;
     sn_closed := sn_closed s; sn_done := sn_done s |}.

Definition set_queued (s : Session) (n : Z) : Session :=
  {| sn_queue := sn_queue s; sn_slots := sn_slots s; sn_queuedBytes := n;
     sn_maxQueueBytes := sn_maxQueueBytes s; sn_spaceFreed := sn_spaceFreed s;
     sn_closed := sn_closed s; sn_done := sn_done s |}.

Definition set_space (s : Session) (b : bool) : Session :=
  {| sn_queue := sn_queue s; sn_slots := sn_slots s; sn_queuedBytes := sn_queuedBytes s;
     sn_maxQueueBytes := sn_maxQueueBytes s; sn_spaceFreed := b; sn_closed := sn_closed s;
     sn_done := sn_done s |}.

Definition set_closed (s : Session) (closed done_ : bool) : Session :=
  {| sn_queue := sn_queue s; sn_slots := sn_slots s; sn_queuedBytes := sn_queuedBytes s;
     sn_maxQueueBytes := sn_maxQueueBytes s; sn_spaceFreed := sn_spaceFreed s;
     sn_closed := closed; sn_done := done_ |}.

Definition len (d : bytes) : Z := Z.of_nat (length d).

(** [creditQueueBytes]: the critical section, with its clamp, and the wakeup,
    which is dropped when one is pending. *)
Definition credit (s : Session) (n : Z) : Session :=
  let q := sn_queuedBytes s - n in set_queued s (if q <? 0 then 0 else q).

Definition wake (s : Session) : Session := set_space s true.

(** The admission of [ForwardToTCP]. *)
Definition admits (s : Session) (d : bytes) : bool :=
  (sn_queuedBytes s =? 0) || (sn_queuedBytes s + len d <=? sn_maxQueueBytes s).

(** [Close], as the relay sees it. *)
Definition session_Close (s : Session) : Session :=
  if sn_closed s then s else set_closed s true true.

(** Where a goroutine stands.  A producer carries what it forwards and what it
    will forward after that. *)
Inductive pc :=
  | FwdNext (todo : list bytes)                 (* before a call of [ForwardToTCP] *)
  | FwdCheck (d : bytes) (todo : list bytes)    (* before the critical section *)
  | FwdWait (d : bytes) (todo : list bytes)     (* in the select on [spaceFreed] *)
  | FwdSend (d : bytes) (todo : list bytes)     (* with budget, in the select on the channel *)
  | FwdCredit (n : Z) (todo : list bytes)       (* giving the budget back *)
  | FwdWake (todo : list bytes)
  | RcvSelect                                   (* in the select of [receiveData] *)
  | RcvCredit (d : bytes)
  | RcvWake (d : bytes)
  | Closing                                     (* about to call [Close] *)
  | Expiring                                    (* the context's timer *)
  | Gone.

Inductive choice := Proceed | OnDone | OnDeadline.

(** The messages a step moves through the channel. *)
Inductive effect := Quiet | Sent (d : bytes) | Received (d : bytes).

Definition receive (s : Session) : option (Session * pc * effect) :=
  match sn_queue s with
  | d :: q => Some (set_queue s q, RcvCredit d, Received d)
  | [] => None
  end.

Definition thread_step (c : choice) (s : Session) (t : pc) : option (Session * pc * effect) :=
  match t, c with
  | FwdNext (d :: todo), Proceed =>
      Some (s, if (length d =? 0)%nat then FwdNext todo else FwdCheck d todo, Quiet)
  | FwdCheck d todo, Proceed =>
      if sn_closed s then Some (s, FwdNext todo, Quiet)
      else if admits s d
      then Some (set_queued s (sn_queuedBytes s + len d), FwdSend d todo, Quiet)
      else Some (s, FwdWait d todo, Quiet)
  | FwdWait d todo, Proceed =>
      if sn_spaceFreed s then Some (set_space s false, FwdCheck d todo, Quiet) else None
  | FwdWait d todo, OnDone => if sn_done s then Some (s, FwdNext todo, Quiet) else None
  | FwdSend d todo, Proceed =>
      if (length (sn_queue s) <? sn_slots s)%nat
      then Some (set_queue s (sn_queue s ++ [d]), FwdNext todo, Sent d) else None
  | FwdSend d todo, OnDone =>
      if sn_done s then Some (s, FwdCredit (len d) todo, Quiet) else None
  | FwdCredit n todo, Proceed => Some (credit s n, FwdWake todo, Quiet)
  | FwdWake todo, Proceed => Some (wake s, FwdNext todo, Quiet)
  | RcvSelect, Proceed => receive s
  | RcvSelect, OnDone =>
      if sn_done s then
        match receive s with
        | Some r => Some r
        | None => Some (s, Gone, Quiet)       (* io.EOF *)
        end
      else None
  | RcvSelect, OnDeadline => Some (s, Gone, Quiet)
  | RcvCredit d, Proceed => Some (credit s (len d), RcvWake d, Quiet)
  | RcvWake d, Proceed => Some (wake s, RcvSelect, Quiet)
  | Closing, Proceed => Some (session_Close s, Gone, Quiet)
  | Expiring, Proceed => Some (set_closed s (sn_closed s) true, Gone, Quiet)
  | _, _ => None
  end.

(** [w_sent] lists what entered the channel with the producer's index, [w_out]
    what left it; nothing reads them. *)
Record world := {
  w_s : Session;
  w_threads : list pc;
  w_sent : list (nat * bytes);
  w_out : list bytes;
}.

Definition wstep (c : choice) (i : nat) (w : world) : option world :=
  t ← w_threads w !! i;
  '(s', t', e) ← thread_step c (w_s w) t;
  Some {| w_s := s'; w_threads := <[i := t']> (w_threads w);
          w_sent := match e with Sent d => w_sent w ++ [(i, d)] | _ => w_sent w end;
          w_out := match e with Received d => w_out w ++ [d] | _ => w_out w end |}.

(** Any number of producers, receivers, closers and timers on a new session. *)
Definition fresh (t : pc) : Prop :=
  match t with FwdNext _ | RcvSelect | Closing | Expiring => True | _ => False end.

Definition start (s : Session) (threads : list pc) : world :=
  {| w_s := s; w_threads := threads; w_sent := []; w_out := [] |}.

Definition new_session (s : Session) : Prop :=
  sn_queue s = [] /\ sn_queuedBytes s = 0 /\ sn_spaceFreed s = false
  /\ (0 < sn_slots s)%nat /\ 0 <= sn_maxQueueBytes s.

Inductive reachable (s0 : Session) (ts0 : list pc) : world -> Prop :=
  | reach_start : new_session s0 -> Forall fresh ts0 -> reachable s0 ts0 (start s0 ts0)
  | reach_step w c i w' : reachable s0 ts0 w -> wstep c i w = Some w' -> reachable s0 ts0 w'.

(** ** Sums over threads *)

Definition sum_over (f : pc -> Z) (l : list pc) : Z := foldr (fun t a => f t + a) 0 l.

Lemma sum_over_app f l k : sum_over f (l ++ k) = sum_over f l + sum_over f k.
Proof. unfold sum_over. induction l as [|t l IH]; cbn; lia. Qed.

Lemma sum_over_update f l i t t' :
  l !! i = Some t -> sum_over f (<[i := t']> l) = sum_over f l - f t + f t'.
Proof.
  intros Hi. rewrite insert_take_drop by (by eapply lookup_lt_Some).
  assert (sum_over f l = sum_over f (take i l ++ t :: drop (S i) l)) as ->
    by (by rewrite take_drop_middle).
  rewrite !sum_over_app. cbn. lia.
Qed.

Lemma sum_over_zero f l : Forall (fun t => f t = 0) l -> sum_over f l = 0.
Proof. unfold sum_over. induction 1 as [|t l Ht _ IH]; cbn; lia. Qed.

Lemma sum_over_nonneg f l : (forall t, 0 <= f t) -> 0 <= sum_over f l.
Proof. unfold sum_over. intros Hf. induction l as [|t l IH]; cbn; [done|]. specialize (Hf t). lia. Qed.

Lemma sum_over_positive f l :
  (forall t, 0 <= f t) -> 0 < sum_over f l -> exists i t, l !! i = Some t /\ 0 < f t.
Proof.
  unfold sum_over. intros Hf. induction l as [|t l IH]; cbn; [lia|]. intros Hs.
  destruct (decide (0 < f t)); [by exists 0%nat, t|].
  destruct IH as (i & t' & Hi & Ht); [specialize (Hf t); lia|]. by exists (S i), t'.
Qed.

Definition total (q : list bytes) : Z := foldr (fun d a => len d + a) 0 q.

Lemma total_app q r : total (q ++ r) = total q + total r.
Proof. unfold total. induction q as [|d q IH]; cbn; lia. Qed.

Lemma total_cons d q : total (d :: q) = len d + total q.
Proof. done. Qed.

(** ** The invariant *)

(** The budget a thread holds outside the channel, and whether it holds any. *)
Definition held (t : pc) : Z :=
  match t with
  | FwdSend d _ => len d | FwdCredit n _ => n | RcvCredit d => len d | _ => 0
  end.
Definition holds (t : pc) : Z :=
  match t with FwdSend _ _ | FwdCredit _ _ | RcvCredit _ => 1 | _ => 0 end.

(** What a thread carries is not empty. *)
Definition carries (t : pc) : Prop :=
  match t with
  | FwdCheck d _ | FwdWait d _ | FwdSend d _ | RcvCredit d => d <> []
  | FwdCredit n _ => 0 < n
  | _ => True
  end.

(** A thread that will look at the budget, or is about to wake one that does. *)
Definition alert (t : pc) : Z :=
  match t with FwdCheck _ _ | FwdWake _ | RcvWake _ => 1 | _ => 0 end.
Definition waits (t : pc) : Z := match t with FwdWait _ _ => 1 | _ => 0 end.

Record queue_inv (w : world) : Prop := {
  qi_bytes : sn_queuedBytes (w_s w) = total (sn_queue (w_s w)) + sum_over held (w_threads w);
  qi_bound : sn_queuedBytes (w_s w) <= sn_maxQueueBytes (w_s w)
    \/ Z.of_nat (length (sn_queue (w_s w))) + sum_over holds (w_threads w) <= 1;
  qi_slots : (0 < sn_slots (w_s w))%nat /\ (length (sn_queue (w_s w)) <= sn_slots (w_s w))%nat;
  qi_queue : Forall (fun d => d <> []) (sn_queue (w_s w));
  qi_carries : Forall carries (w_threads w);
  qi_order : (w_sent w).*2 = w_out w ++ sn_queue (w_s w);
  qi_wake : sn_closed (w_s w) = false ->
    0 < sum_over waits (w_threads w) ->
    0 < sn_queuedBytes (w_s w) \/ sn_spaceFreed (w_s w) = true
    \/ 0 < sum_over alert (w_threads w);
}.

Lemma len_positive d : d <> [] -> 0 < len d.
Proof. destruct d; [done|]. unfold len. cbn. lia. Qed.

Lemma total_bound q : Forall (fun d => d <> []) q -> Z.of_nat (length q) <= total q.
Proof.
  induction 1 as [|d q Hd _ IH]; cbn [total foldr length]; [done|].
  pose proof (len_positive d Hd). unfold total in IH. lia.
Qed.

Lemma holds_bound l : Forall carries l ->
  0 <= sum_over holds l /\ sum_over holds l <= sum_over held l
  /\ 0 <= sum_over waits l /\ 0 <= sum_over alert l.
Proof.
  induction 1 as [|t l Ht _ IH]; cbn [sum_over foldr]; [lia|].
  assert (0 <= holds t /\ holds t <= held t /\ 0 <= waits t /\ 0 <= alert t)
    by (destruct t; cbn in *; try lia; pose proof (len_positive _ Ht); lia).
  unfold sum_over in IH. lia.
Qed.

(** A thread's share is part of the whole. *)
Lemma held_le l i t : Forall carries l -> l !! i = Some t -> held t <= sum_over held l.
Proof.
  intros Hc Hi. assert (sum_over held l = sum_over held (take i l ++ t :: drop (S i) l)) as ->
    by (by rewrite take_drop_middle).
  rewrite sum_over_app. cbn [sum_over foldr].
  pose proof (holds_bound _ (Forall_take _ i _ Hc)). pose proof (holds_bound _ (Forall_drop _ (S i) _ Hc)).
  unfold sum_over in *. lia.
Qed.

Lemma queue_inv_start s ts : new_session s -> Forall fresh ts -> queue_inv (start s ts).
Proof.
  intros (Hq & Hb & Hf & Hs & Hm) Ht.
  assert (forall f, (forall t, fresh t -> f t = 0) -> sum_over f ts = 0) as Hz.
  { intros f H. apply sum_over_zero. eapply Forall_impl; [exact Ht|exact H]. }
  split; cbn [start w_s w_threads w_sent w_out]; rewrite ?Hq, ?Hb; cbn [total foldr length].
  - by rewrite (Hz held) by (by intros []).
  - lia.
  - lia.
  - constructor.
  - eapply Forall_impl; [exact Ht|by intros []].
  - done.
  - rewrite (Hz waits) by (by intros []). lia.
Qed.

Lemma admits_true s d : admits s d = true ->
  sn_queuedBytes s = 0 \/ sn_queuedBytes s + len d <= sn_maxQueueBytes s.
Proof. unfold admits. intros [?%Z.eqb_eq|?%Z.leb_le]%orb_true_iff; auto. Qed.

Lemma admits_false s d : admits s d = false -> sn_queuedBytes s <> 0.
Proof. unfold admits. by intros [?%Z.eqb_neq _]%orb_false_iff. Qed.

Lemma credit_exact s n : n <= sn_queuedBytes s -> credit s n = set_queued s (sn_queuedBytes s - n).
Proof. intros Hn. unfold credit. by destruct (Z.ltb_spec (sn_queuedBytes s - n) 0); [lia|]. Qed.

(** The cases of a step. *)
Ltac step_cases Ht :=
  match type of Ht with
  | thread_step ?c ?s ?t = Some _ =>
      destruct t as [[|d todo]|d todo|d todo|d todo|n todo|todo| |d|d| | |], c;
      cbn [thread_step] in Ht; unfold receive in Ht; try discriminate Ht;
      repeat match type of Ht with
      | context [sn_closed ?x] => destruct (sn_closed x) eqn:?; try discriminate Ht
      | context [admits ?x ?y] => destruct (admits x y) eqn:?; try discriminate Ht
      | context [sn_spaceFreed ?x] => destruct (sn_spaceFreed x) eqn:?; try discriminate Ht
      | context [sn_done ?x] => destruct (sn_done x) eqn:?; try discriminate Ht
      | context [match sn_queue ?x with _ => _ end] =>
          destruct (sn_queue x) as [|d q] eqn:?; try discriminate Ht
      | context [(length (sn_queue ?x) <? ?y)%nat] =>
          destruct (Nat.ltb_spec (length (sn_queue x)) y); try discriminate Ht
      | context [(length ?x =? 0)%nat] => destruct (Nat.eqb_spec (length x) 0)
      end;
      injection Ht as <- <- <-
  end.

(** What a step does to the invariant's quantities, for the thread that takes
    it. *)
Lemma queue_inv_step c i w w' : queue_inv w -> wstep c i w = Some w' -> queue_inv w'.
Proof.
  intros [I1 I2 I3 I4 I5 I6 I7] Hs. unfold wstep in Hs.
  destruct (w_threads w !! i) as [t|] eqn:Hi; [|done]. cbn in Hs.
  destruct (thread_step c (w_s w) t) as [[[s' t'] e]|] eqn:Ht; [|done]. injection Hs as <-.
  pose proof (held_le _ _ _ I5 Hi) as Hle. pose proof (total_bound _ I4) as Htot.
  pose proof (holds_bound _ I5) as Hsum.
  pose proof (proj1 (Forall_lookup _ _) I5 i t Hi) as Hcar.
  assert (forall f, sum_over f (<[i := t']> (w_threads w))
    = sum_over f (w_threads w) - f t + f t') as Hup by (intros; by apply sum_over_update).
  step_cases Ht; unfold session_Close, wake in *;
    try match goal with |- context [if sn_closed ?x then _ else _] =>
          destruct (sn_closed x) eqn:Hcl end;
    rewrite ?credit_exact by (cbn [held] in Hle; lia);
    repeat match goal with H : sn_queue (w_s w) = _ |- _ => rewrite H in * end;
    repeat match goal with H : admits _ _ = true |- _ => apply admits_true in H end;
    repeat match goal with H : admits _ _ = false |- _ => apply admits_false in H end.
  all: cbn [held holds waits alert carries length] in *.
  all: try match goal with H : Forall _ (_ :: _) |- _ => inversion_clear H end.
  all: try match goal with H : ?d <> [] |- _ => pose proof (len_positive d H) end.
  all: split; cbn [w_s w_threads w_sent w_out sn_queue sn_slots sn_queuedBytes sn_maxQueueBytes
    sn_spaceFreed sn_closed sn_done set_queue set_queued set_space set_closed];
    repeat match goal with H : sn_queue (w_s _) = _ |- _ => rewrite H end;
    rewrite ?total_cons in *; rewrite ?Hup, ?total_app, ?total_cons, ?length_app;
    cbn [held holds waits alert length total foldr];
    try lia; try done; try (apply Forall_insert; [done|cbn [carries]; try done; try lia]);
    try (intros Hc Hw; pose proof (I7 ltac:(congruence) ltac:(lia)); intuition (congruence || lia)).
  all: try (rewrite ?fmap_app, I6; cbn; by rewrite <- !app_assoc).
  - by intros ->.
  - apply Forall_app. by repeat constructor.
  - cbn in I1. lia.
Qed.

Lemma reachable_inv s0 ts0 w : reachable s0 ts0 w -> queue_inv w.
Proof. induction 1; eauto using queue_inv_start, queue_inv_step. Qed.

(** ** The byte budget *)

Definition longest (q : list bytes) : Z := foldr (fun d a => Z.max (len d) a) 0 q.

(** C15 Heap stays bounded: in every reachable state the queue's byte count is what
    the channel and the calls in flight hold, so it never underflows; it is
    within the budget unless a single message larger than the budget is all
    there is; and the channel holds, in order, what was sent and not yet
    received. *)
Theorem relay_queue_bounded s0 ts0 w :
  reachable s0 ts0 w ->
  sn_queuedBytes (w_s w) = total (sn_queue (w_s w)) + sum_over held (w_threads w)
  /\ total (sn_queue (w_s w)) <= Z.max (sn_maxQueueBytes (w_s w)) (longest (sn_queue (w_s w)))
  /\ (sn_queuedBytes (w_s w) <= sn_maxQueueBytes (w_s w)
      \/ Z.of_nat (length (sn_queue (w_s w))) + sum_over holds (w_threads w) <= 1)
  /\ (w_sent w).*2 = w_out w ++ sn_queue (w_s w).
Proof.
  intros [I1 I2 _ I4 I5 I6 _]%reachable_inv. split_and!; [done| |done|done].
  pose proof (holds_bound _ I5). destruct I2 as [I2|I2]; [lia|].
  destruct (sn_queue (w_s w)) as [|d [|d' q]]; cbn in *; lia.
Qed.

(** ** Every call returns *)

(** The steps a thread, a queued message and a pending wakeup can still cause. *)
Definition weight (t : pc) : Z :=
  match t with
  | FwdNext todo => 8 * Z.of_nat (length todo)
  | FwdCheck _ todo => 7 + 8 * Z.of_nat (length todo)
  | FwdWait _ todo | FwdSend _ todo => 6 + 8 * Z.of_nat (length todo)
  | FwdCredit _ todo => 4 + 8 * Z.of_nat (length todo)
  | FwdWake todo => 3 + 8 * Z.of_nat (length todo)
  | RcvSelect | Closing | Expiring => 1
  | RcvCredit _ => 5
  | RcvWake _ => 4
  | Gone => 0
  end.

Definition work (w : world) : Z :=
  sum_over weight (w_threads w) + 5 * Z.of_nat (length (sn_queue (w_s w)))
  + 2 * Z.b2z (sn_spaceFreed (w_s w)).

Lemma work_nonneg w : 0 <= work w.
Proof.
  unfold work. assert (0 <= sum_over weight (w_threads w))
    by (apply sum_over_nonneg; intros []; cbn; lia).
  destruct (sn_spaceFreed (w_s w)); cbn [Z.b2z]; lia.
Qed.

Lemma work_decreases c i w w' : wstep c i w = Some w' -> work w' < work w.
Proof.
  unfold wstep, work. intros Hs. destruct (w_threads w !! i) as [t|] eqn:Hi; [|done]. cbn in Hs.
  destruct (thread_step c (w_s w) t) as [[[s' t'] e]|] eqn:Ht; [|done]. injection Hs as <-.
  cbn [w_threads w_s]. rewrite (sum_over_update _ _ _ _ _ Hi).
  step_cases Ht; unfold session_Close, credit, wake;
    try match goal with |- context [if sn_closed ?x then _ else _] => destruct (sn_closed x) end;
    repeat match goal with H : sn_queue (w_s _) = _ |- _ => rewrite H end;
    cbn [weight set_queue set_queued set_space set_closed sn_queue sn_spaceFreed length];
    repeat match goal with H : sn_spaceFreed (w_s _) = _ |- _ => rewrite H end;
    rewrite ?length_app; cbn [length]; destruct (sn_spaceFreed (w_s w)); cbn [Z.b2z]; lia.
Qed.

(** A schedule: which goroutine moves, and how it resolves its select. *)
Fixpoint run (sched : list (choice * nat)) (w : world) : option world :=
  match sched with
  | [] => Some w
  | (c, i) :: rest => w' ← wstep c i w; run rest w'
  end.

Lemma run_work sched w w' :
  run sched w = Some w' -> Z.of_nat (length sched) + work w' <= work w.
Proof.
  revert w. induction sched as [|[c i] rest IH]; intros w Hr.
  - injection Hr as <-. cbn. lia.
  - cbn in Hr. destruct (wstep c i w) as [w1|] eqn:E; [|done]. cbn in Hr.
    specialize (IH w1 Hr). pose proof (work_decreases c i w w1 E). cbn [length]. lia.
Qed.

Lemma run_reachable s0 ts0 sched w w' :
  reachable s0 ts0 w -> run sched w = Some w' -> reachable s0 ts0 w'.
Proof.
  revert w. induction sched as [|[c i] rest IH]; intros w Hw Hr.
  - by injection Hr as <-.
  - cbn in Hr. destruct (wstep c i w) as [w1|] eqn:E; [|done].
    apply (IH w1); [by eapply reach_step|done].
Qed.

(** ** Nothing is lost while the session is open *)

(** What a thread has still to bring into the channel. *)
Definition nonempty (todo : list bytes) : list bytes :=
  List.filter (fun d => negb (length d =? 0)%nat) todo.

Definition pending (t : pc) : list bytes :=
  match t with
  | FwdNext todo | FwdCredit _ todo | FwdWake todo => nonempty todo
  | FwdCheck d todo | FwdWait d todo | FwdSend d todo => d :: nonempty todo
  | _ => []
  end.

Definition sent_by (i : nat) (log : list (nat * bytes)) : list bytes :=
  (List.filter (fun x => (x.1 =? i)%nat) log).*2.

Definition receiver (t : pc) : bool :=
  match t with RcvSelect | RcvCredit _ | RcvWake _ => true | _ => false end.

Definition producer (t : pc) : bool :=
  match t with
  | FwdNext _ | FwdCheck _ _ | FwdWait _ _ | FwdSend _ _ | FwdCredit _ _ | FwdWake _ => true
  | _ => false
  end.

Definition ends_session (t : pc) : bool :=
  match t with Closing | Expiring => true | _ => false end.

(** The state of a session nobody ends, with [r] a goroutine that receives. *)
Record open_inv (ts0 : list pc) (r : nat) (w : world) : Prop := {
  oi_open : sn_closed (w_s w) = false /\ sn_done (w_s w) = false;
  oi_threads : Forall (fun t => ends_session t = false) (w_threads w);
  oi_receiver : exists t, w_threads w !! r = Some t /\ receiver t = true;
  oi_sent : forall i t0, ts0 !! i = Some t0 -> exists t, w_threads w !! i = Some t
    /\ sent_by i (w_sent w) ++ pending t = pending t0 /\ producer t = producer t0;
  oi_length : length (w_threads w) = length ts0;
}.

Lemma sent_by_app i log j d :
  sent_by i (log ++ [(j, d)]) = sent_by i log ++ (if (j =? i)%nat then [d] else []).
Proof.
  unfold sent_by. rewrite List.filter_app. cbn. rewrite fmap_app. by destruct (j =? i)%nat.
Qed.

(** What a step on an open session does to the thread that takes it. *)
Lemma thread_step_open c s t s' t' e :
  sn_closed s = false -> sn_done s = false -> ends_session t = false -> c <> OnDeadline ->
  thread_step c s t = Some (s', t', e) ->
  sn_closed s' = false /\ sn_done s' = false /\ ends_session t' = false
  /\ (receiver t = true -> receiver t' = true) /\ producer t' = producer t
  /\ pending t = (match e with Sent d => [d] | _ => [] end) ++ pending t'.
Proof.
  intros Hc Hd He Hn Ht. step_cases Ht; try discriminate; try done;
    try (by rewrite Hc in *); unfold nonempty; cbn [pending List.filter app negb nonempty];
    split_and!; try done.
  - cbn. rewrite e0. done.
  - cbn. destruct (length d =? 0)%nat eqn:E; [by apply Nat.eqb_eq in E|done].
Qed.

Lemma open_inv_step ts0 r c i w w' :
  open_inv ts0 r w -> c <> OnDeadline -> wstep c i w = Some w' -> open_inv ts0 r w'.
Proof.
  intros [[Hc Hd] Ht (tr & Hr & Hrt) Hsent Hlen] Hn Hs. unfold wstep in Hs.
  destruct (w_threads w !! i) as [t|] eqn:Hi; [|done]. cbn in Hs.
  destruct (thread_step c (w_s w) t) as [[[s' t'] e]|] eqn:Hts; [|done]. injection Hs as <-.
  destruct (thread_step_open c _ t s' t' e Hc Hd (proj1 (Forall_lookup _ _) Ht i t Hi) Hn Hts)
    as (Hc' & Hd' & He' & Hr' & Hpr & Hp).
  split; cbn [w_s w_threads w_sent].
  - done.
  - by apply Forall_insert.
  - destruct (decide (i = r)) as [->|Hir].
    + exists t'. rewrite list_lookup_insert_eq by (by eapply lookup_lt_Some). naive_solver.
    + exists tr. by rewrite list_lookup_insert_ne.
  - intros j t0 Hj. destruct (Hsent j t0 Hj) as (tj & Htj & Hpj & Hprj). destruct (decide (i = j)) as [->|Hij].
    + exists t'. rewrite list_lookup_insert_eq by (by eapply lookup_lt_Some). split; [done|].
      rewrite Hi in Htj. injection Htj as <-. split; [|congruence]. rewrite <- Hpj, Hp, app_assoc.
      destruct e; rewrite ?sent_by_app, ?Nat.eqb_refl; by rewrite ?app_nil_r.
    + exists tj. rewrite list_lookup_insert_ne by done. split; [done|]. split; [|done].
      destruct e; rewrite ?sent_by_app; try done.
      rewrite (proj2 (Nat.eqb_neq i j)) by done. by rewrite app_nil_r.
  - by rewrite length_insert.
Qed.

Lemma open_inv_run ts0 r sched w w' :
  open_inv ts0 r w -> Forall (fun x => x.1 <> OnDeadline) sched -> run sched w = Some w' ->
  open_inv ts0 r w'.
Proof.
  revert w. induction sched as [|[c i] rest IH]; intros w Hw Hn Hr.
  - by injection Hr as <-.
  - cbn in Hr. destruct (wstep c i w) as [w1|] eqn:E; [|done]. inversion Hn; subst.
    apply (IH w1); [by eapply open_inv_step|done|done].
Qed.

(** No goroutine can move. *)
Definition quiescent (w : world) : Prop := forall i, wstep Proceed i w = None.

Lemma quiescent_thread w i t :
  quiescent w -> w_threads w !! i = Some t -> thread_step Proceed (w_s w) t = None.
Proof.
  intros Hq Hi. specialize (Hq i). unfold wstep in Hq. rewrite Hi in Hq. cbn in Hq.
  by destruct (thread_step Proceed (w_s w) t) as [[[? ?] ?]|].
Qed.

(** A producer that waits in an open session is not forgotten: with nobody able
    to move and a receiver at its select, there is none. *)
Lemma quiescent_done ts0 r w :
  queue_inv w -> open_inv ts0 r w -> quiescent w ->
  sn_queue (w_s w) = [] /\ Forall (fun t => producer t = true -> t = FwdNext []) (w_threads w).
Proof.
  intros [I1 _ [I3 _] _ I5 _ I7] [[Hc _] Ht (tr & Hr & Hrt) _ _] Hq.
  assert (sn_queue (w_s w) = []) as Hempty.
  { pose proof (quiescent_thread w r tr Hq Hr) as H. destruct tr; try done. cbn in H.
    unfold receive in H. by destruct (sn_queue (w_s w)). }
  split; [done|].
  assert (forall i t, w_threads w !! i = Some t ->
    held t = 0 /\ alert t = 0 /\ ((producer t = true -> t = FwdNext [])
      \/ waits t = 1 /\ sn_spaceFreed (w_s w) = false)) as Hall.
  { intros i t Hi. pose proof (quiescent_thread w i t Hq Hi) as H.
    destruct t as [[|d todo]|d todo|d todo|d todo|n todo|todo| |d|d| | |]; cbn in H |- *; try done; auto.
    - rewrite Hc in H. by destruct (admits (w_s w) d).
    - destruct (sn_spaceFreed (w_s w)); [done|auto].
    - exfalso. rewrite Hempty in H. cbn in H. destruct (sn_slots (w_s w)); [lia|done].
    - split_and!; auto. by left.
    - split_and!; auto. by left. }
  assert (forall f, (forall i t, w_threads w !! i = Some t -> f t = 0) -> sum_over f (w_threads w) = 0)
    as Hzero by (intros f Hf; apply sum_over_zero, Forall_lookup, Hf).
  rewrite (Hzero held), Hempty in I1 by (intros i t Hi; apply (Hall i t Hi)). cbn in I1.
  apply Forall_lookup. intros i t Hi. destruct (Hall i t Hi) as (_ & _ & [Hp|[Hw Hs]]); [done|].
  exfalso. rewrite (Hzero alert) in I7 by (intros j t' Hj; apply (Hall j t' Hj)).
  pose proof (sum_over_update waits _ i t Gone Hi) as Hup.
  pose proof (holds_bound _ (Forall_insert _ _ i Gone I5 I)). cbn [waits] in Hup.
  destruct (I7 Hc); [lia|lia|]. destruct H0; [congruence|lia].
Qed.

(** C14 The relay delivers: whatever producers bring and however the goroutines are
    scheduled, no run is longer than eight steps a message and one a goroutine,
    so no call waits for ever by others' activity; and in a session that is not
    ended, with a goroutine that keeps receiving, when nothing more can move
    every producer has returned from every call and the client was handed every
    message, each producer's in its order.  No wakeup is lost. *)
Theorem relay_delivers s0 ts0 sched w :
  new_session s0 -> Forall fresh ts0 -> run sched (start s0 ts0) = Some w ->
  Z.of_nat (length sched) <= sum_over weight ts0
  /\ (forall r, ts0 !! r = Some RcvSelect -> sn_closed s0 = false -> sn_done s0 = false ->
      Forall (fun t => ends_session t = false) ts0 -> Forall (fun x => x.1 <> OnDeadline) sched ->
      quiescent w ->
      w_out w = (w_sent w).*2
      /\ forall i todo, ts0 !! i = Some (FwdNext todo) ->
           w_threads w !! i = Some (FwdNext []) /\ sent_by i (w_sent w) = nonempty todo).
Proof.
  intros Hs Hf Hrun. split.
  { pose proof (run_work _ _ _ Hrun). pose proof (work_nonneg w).
    destruct Hs as (Hq & _ & Hsp & _). unfold work in H at 2. cbn [start w_s w_threads] in H.
    rewrite Hq, Hsp in H. cbn in H. lia. }
  intros r Hr Hc Hd He Hsched Hquiet.
  assert (open_inv ts0 r w) as Ho.
  { eapply open_inv_run; [|exact Hsched|exact Hrun].
    split; cbn; [done|done|by exists RcvSelect| |done]. intros i t0 Hi. by exists t0. }
  pose proof (reachable_inv s0 ts0 w
    (run_reachable _ _ _ _ _ (reach_start s0 ts0 Hs Hf) Hrun)) as HI.
  destruct (quiescent_done ts0 r w HI Ho Hquiet) as [Hempty Hp].
  split; [rewrite (qi_order _ HI), Hempty; by rewrite app_nil_r|].
  intros i todo Hi. destruct (oi_sent _ _ _ Ho i _ Hi) as (t & Ht & Hsent & Hpr).
  pose proof (proj1 (Forall_lookup _ _) Hp i t Ht Hpr) as ->. split; [done|].
  by rewrite app_nil_r in Hsent.
Qed.

(** ** Reading a session as a connection *)

(** [sessionConnWrapper.Read] into a buffer of [n] bytes, with the message
    [receiveData] would return: what is read, the unread tail, and whether the
    message was taken. *)
Definition conn_Read (pend : bytes) (data : bytes) (n : nat) : bytes * bytes * bool :=
  match pend with
  | _ :: _ => (take n pend, drop n pend, false)
  | [] => (take n data, drop n data, true)
  end.

(** Reads of the given sizes on the messages [msgs]. *)
Fixpoint conn_reads (pend : bytes) (msgs : list bytes) (sizes : list nat)
  : list bytes * bytes * list bytes :=
  match sizes with
  | [] => ([], pend, msgs)
  | n :: sizes =>
      match pend, msgs with
      | [], [] => ([], pend, msgs)             (* the next read blocks *)
      | _, _ =>
          let '(out, pend', taken) := conn_Read pend (default [] (head msgs)) n in
          let '(outs, pend'', msgs') :=
            conn_reads pend' (if taken then tail msgs else msgs) sizes in
          (out :: outs, pend'', msgs')
      end
  end.

(** No byte is dropped or reordered between the messages and the reads,
    whatever the sizes of the reader's buffers. *)
Lemma conn_reads_conserve pend msgs sizes :
  let '(outs, pend', msgs') := conn_reads pend msgs sizes in
  concat outs ++ pend' ++ concat msgs' = pend ++ concat msgs.
Proof.
  revert pend msgs. induction sizes as [|n sizes IH]; intros pend msgs; cbn [conn_reads]; [done|].
  destruct pend as [|b pend].
  - destruct msgs as [|d msgs]; [done|]. cbn [conn_Read head tail default].
    specialize (IH (drop n d) msgs). destruct (conn_reads _ _ _) as [[outs pend'] msgs'].
    cbn [concat]. rewrite <- app_assoc, IH, app_assoc, take_drop. done.
  - cbn [conn_Read]. specialize (IH (drop n (b :: pend)) msgs).
    destruct (conn_reads _ _ _) as [[outs pend'] msgs'].
    cbn [concat]. rewrite <- app_assoc, IH, app_assoc, take_drop. done.
Qed.

(** ** Evaluation *)

(** Let the first goroutine that can move do so, as long as one can. *)
Definition first_enabled (w : world) : option (nat * world) :=
  head (omap (fun i => w' ← wstep Proceed i w; Some (i, w')) (seq 0 (length (w_threads w)))).

Fixpoint greedy (fuel : nat) (w : world) : list (choice * nat) :=
  match fuel with
  | O => []
  | S fuel =>
      match first_enabled w with
      | Some (i, w') => (Proceed, i) :: greedy fuel w'
      | None => []
      end
  end.

Lemma greedy_proceeds fuel w : Forall (fun x => x.1 <> OnDeadline) (greedy fuel w).
Proof.
  revert w. induction fuel as [|fuel IH]; intros w; cbn [greedy]; [constructor|].
  destruct (first_enabled w) as [[i w']|]; constructor; [done|apply IH].
Qed.

(** A budget of three bytes and one slot, two producers and a receiver; one
    message is larger than the budget. *)
Definition small_session : Session :=
  {| sn_queue := []; sn_slots := 1; sn_queuedBytes := 0; sn_maxQueueBytes := 3;
     sn_spaceFreed := false; sn_closed := false; sn_done := false |}.

Definition small_threads : list pc :=
  [FwdNext [B "ab"; B "cdefg"; []; B "h"]; FwdNext [B "xyz"; B "w"]; RcvSelect].

Definition small_schedule : list (choice * nat) := greedy 100 (start small_session small_threads).

Lemma small_fresh : new_session small_session /\ Forall fresh small_threads.
Proof. split; [vm_compute; repeat split; try lia; discriminate|by repeat constructor]. Qed.

Lemma relay_queue_bounded_witness :
  match run (take 7 small_schedule) (start small_session small_threads) with
  | Some w => sn_queuedBytes (w_s w) = total (sn_queue (w_s w)) + sum_over held (w_threads w)
  | None => False
  end.
Proof.
  destruct (run (take 7 small_schedule) (start small_session small_threads)) as [w|] eqn:E;
    [|by vm_compute in E].
  destruct small_fresh as [Hs Hf].
  apply (relay_queue_bounded small_session small_threads w).
  eapply run_reachable; [by apply reach_start|exact E].
Defined.

Lemma relay_delivers_witness :
  match run small_schedule (start small_session small_threads) with
  | Some w => quiescent w /\ w_out w = (w_sent w).*2
              /\ sent_by 0 (w_sent w) = [B "ab"; B "cdefg"; B "h"]
              /\ sent_by 1 (w_sent w) = [B "xyz"; B "w"]
  | None => False
  end.
Proof.
  destruct (run small_schedule (start small_session small_threads)) as [w|] eqn:E;
    [|by vm_compute in E].
  destruct small_fresh as [Hs Hf].
  assert (quiescent w) as Hq.
  { vm_compute in E. injection E as <-. intros [|[|[|i]]]; by vm_compute. }
  destruct (relay_delivers small_session small_threads small_schedule w Hs Hf E) as [_ HD].
  destruct (HD 2%nat eq_refl eq_refl eq_refl) as [Ho Hp];
    [by repeat constructor|apply greedy_proceeds|exact Hq|].
  destruct (Hp 0%nat _ eq_refl) as [_ H0], (Hp 1%nat _ eq_refl) as [_ H1].
  split; [exact Hq|]. split; [exact Ho|]. rewrite H0, H1. split; reflexivity.
Defined.
