(* ===== verification/BrokerWire.v ===== *)
(** * The gateway's broker: src/gateway/broker and src/gateway/transport/websocket.go

    An agent keeps one websocket to the gateway; every frame on it starts with
    a header naming a session.  The broker keeps the registered agents and the
    sessions, and [handleWebSocketMessage] decides what a frame does.  Agents
    are stored by name as pointers to entries: the entries are a heap indexed
    by the connection's instance id.

    encoding/json's reading and writing of a message is the class
    [MessageJSON]. *)

From S2P Require Import Prelude BrokerQueue.

#[local] Open Scope Z_scope.

(** ** Frames: headers.go *)

(** A UUID is its sixteen bytes. *)
Definition uuid_Nil : bytes := replicate 16 x00.
Definition is_uuid (u : bytes) : Prop := length u = 16%nat.

(** [uuid.Version]: the high half of byte six. *)
Definition uuid_Version (u : bytes) : Z := Z.shiftr (bval (default x00 (u !! 6%nat))) 4.

Record Header := { hdSID : bytes; hdLen : Z }.

Definition HeaderSize : nat := 20.

(** [Encode]; [None] is the panic on the nil UUID. *)
Definition Encode (h : Header) : option bytes :=
  if hdSID h =s uuid_Nil then None
  else Some (take 16 (hdSID h) ++ put_be_u32 (hdLen h)).

Inductive HeaderError := InsufficientData | NilUUID | VersionZero.

Definition DecodeHeader (data : bytes) : HeaderError + (Header * nat) :=
  if (length data <? HeaderSize)%nat then inl InsufficientData
  else
    let sid := take 16 data in
    if sid =s uuid_Nil then inl NilUUID
    else if uuid_Version sid =? 0 then inl VersionZero
    else inr ({| hdSID := sid; hdLen := be_u32 (drop 16 data) |}, HeaderSize).

Record WebSocketMessage := {
  wmType : bytes;
  wmMetadata : gmap bytes bytes;
  wmPayload : bytes;
}.

Class MessageJSON := {
  json_Marshal : WebSocketMessage -> bytes;
  json_Unmarshal : bytes -> option WebSocketMessage;
}.

Definition MessageTypeSessionStarted : bytes := B "session_started".
Definition MessageTypeData : bytes := B "data".
Definition MessageTypeGuardrailsViolation : bytes := B "guardrails_violation".
Definition MessageTypeCapabilities : bytes := B "capabilities".
Definition ProtocolRDP : bytes := B "rdp".

Definition ControlSentinelSID : bytes :=
  [x00; x00; x00; x00; x00; x00; x4c; x00; x80; x00; x00; x00; x00; x00; x00; x01].

Section Wire.
Context `{MessageJSON}.

Definition EncodeWebSocketMessage (sid : bytes) (msg : WebSocketMessage) : option bytes :=
  let jsonData := json_Marshal msg in
  head ← Encode {| hdSID := sid; hdLen := Z.of_nat (length jsonData) mod 2 ^ 32 |};
  Some (head ++ jsonData).

Definition DecodeWebSocketMessage (data : bytes) : option (bytes * WebSocketMessage) :=
  match DecodeHeader data with
  | inl _ => None
  | inr (h, n) => msg ← json_Unmarshal (drop n data); Some (hdSID h, msg)
  end.

(** [SendRawDataToAgent] *)
Definition raw_frame (sid data : bytes) : option bytes :=
  head ← Encode {| hdSID := sid; hdLen := Z.of_nat (length data) mod 2 ^ 32 |}; Some (head ++ data).

(** ** Agents and sessions: session.go *)

(** [ae_ready]: the capability frame arrived. *)
Record agentEntry := { ae_capabilities : gmap bytes bytes; ae_ready : bool }.

(** [bs_agent] is the instance whose websocket the session sends on. *)
Record BrokerSession := {
  bs_protocol : bytes;
  bs_agentName : bytes;
  bs_agent : bytes;
  bs_credentialID : bytes;
}.

(** [br_agents] maps a name to the registered instance; [br_entries] is the
    heap of entries; [br_open] the instances whose websocket is open. *)
Record Broker := {
  br_agents : gmap bytes bytes;
  br_entries : gmap bytes agentEntry;
  br_sessions : gmap bytes BrokerSession;
  br_open : gset bytes;
}.

Definition set_agents (b : Broker) (a : gmap bytes bytes) : Broker :=
  {| br_agents := a; br_entries := br_entries b; br_sessions := br_sessions b; br_open := br_open b |}.

Definition set_entries (b : Broker) (e : gmap bytes agentEntry) : Broker :=
  {| br_agents := br_agents b; br_entries := e; br_sessions := br_sessions b; br_open := br_open b |}.

(** [CreateAgent]: [instance] is the new connection's id. *)
Definition CreateAgent (b : Broker) (name instance : bytes) : Broker :=
  {| br_agents := <[name := instance]> (br_agents b);
     br_entries := <[instance := {| ae_capabilities := ∅; ae_ready := false |}]> (br_entries b);
     br_sessions := br_sessions b; br_open := {[instance]} ∪ br_open b |}.

(** [RemoveAgent] is a load and, when the entry is the caller's, a delete. *)
Definition remove_check (b : Broker) (name instance : bytes) : bool :=
  bool_decide (br_agents b !! name = Some instance).
Definition remove_delete (b : Broker) (name : bytes) : Broker :=
  set_agents b (delete name (br_agents b)).
Definition RemoveAgent (b : Broker) (name instance : bytes) : Broker :=
  if remove_check b name instance then remove_delete b name else b.

Definition SetAgentCapabilities (b : Broker) (name instance : bytes) (caps : gmap bytes bytes)
  : Broker :=
  if remove_check b name instance
  then set_entries b (<[instance := {| ae_capabilities := caps; ae_ready := true |}]> (br_entries b))
  else b.

(** [AgentCapability]: the value and whether it is known; [waited] is the state
    when the bounded wait ends. *)
Definition AgentCapability (b waited : Broker) (name key : bytes) : bool * bool :=
  match br_agents b !! name with
  | None => (false, false)
  | Some instance =>
      match br_entries waited !! instance with
      | Some e =>
          if ae_ready e then (bool_decide (ae_capabilities e !! key = Some (B "true")), true)
          else (false, false)
      | None => (false, false)
      end
  end.

(** [Session.Close] on a registered session: its agent's websocket is closed
    with it. *)
Definition close_session (b : Broker) (sid : bytes) : Broker :=
  match br_sessions b !! sid with
  | None => b
  | Some s =>
      {| br_agents := br_agents b; br_entries := br_entries b;
         br_sessions := delete sid (br_sessions b); br_open := br_open b ∖ {[bs_agent s]} |}
  end.

Definition RevokeByCredentialID (b : Broker) (credentialID : bytes) : Broker :=
  fold_left close_session
    (map fst (List.filter (fun p => bs_credentialID p.2 =s credentialID)
                (map_to_list (br_sessions b)))) b.

(** The end of [HandleConnection]: the registration goes, every session of the
    agent's name is closed, and the websocket is closed on return. *)
Definition agent_gone (b : Broker) (name instance : bytes) : Broker :=
  let b := RemoveAgent b name instance in
  let b := fold_left close_session
    (map fst (List.filter (fun p => bs_agentName p.2 =s name) (map_to_list (br_sessions b)))) b in
  {| br_agents := br_agents b; br_entries := br_entries b; br_sessions := br_sessions b;
     br_open := br_open b ∖ {[instance]} |}.

(** ** Dispatch: websocket.go *)

(** What [handleWebSocketMessage] does with a frame. *)
Inductive Action :=
  | Advertise (caps : gmap bytes bytes)         (* [SetAgentCapabilities] *)
  | Acknowledge (sid : bytes)                   (* [AcknowledgeCredentials] *)
  | Forward (sid payload : bytes)               (* [ForwardToTCP] *)
  | Persist (sid payload : bytes)               (* the violation report *)
  | Ignore.

(** The control half, for a session. *)
Definition control_action (b : Broker) (sid : bytes) (msg : WebSocketMessage) : Action :=
  match br_sessions b !! sid with
  | None => Ignore
  | Some s =>
      if negb (bs_protocol s =s ProtocolRDP) then Ignore      (* no handler *)
      else if wmType msg =s MessageTypeSessionStarted then Acknowledge sid
      else if wmType msg =s MessageTypeData then Forward sid (wmPayload msg)
      else if wmType msg =s MessageTypeGuardrailsViolation then Persist sid (wmPayload msg)
      else Ignore
  end.

(** With or without a handler for the protocol the payload is forwarded. *)
Definition frame_action (b : Broker) (data : bytes) : Action :=
  match DecodeHeader data with
  | inl _ => Ignore
  | inr (h, n) =>
      match br_sessions b !! hdSID h with
      | None => Ignore
      | Some _ => Forward (hdSID h) (drop n data)
      end
  end.

Definition handleWebSocketMessage (b : Broker) (data : bytes) : Action :=
  match DecodeWebSocketMessage data with
  | Some (sid, msg) =>
      if sid =s ControlSentinelSID
      then (if wmType msg =s MessageTypeCapabilities then Advertise (wmMetadata msg) else Ignore)
      else control_action b sid msg
  | None => frame_action b data
  end.

(** ** Frames reach their session *)

(** A session id as the wire accepts it. *)
Definition wire_id (u : bytes) : Prop :=
  is_uuid u /\ u <> uuid_Nil /\ uuid_Version u <> 0.

Lemma DecodeHeader_frame sid n data :
  wire_id sid -> 0 <= n < 2 ^ 32 ->
  DecodeHeader (sid ++ put_be_u32 n ++ data) = inr ({| hdSID := sid; hdLen := n |}, HeaderSize).
Proof.
  intros (Hl & Hn & Hv) Hb. unfold DecodeHeader, is_uuid in *.
  rewrite !length_app, Hl. cbn [put_be_u32 length Nat.add Nat.ltb Nat.leb HeaderSize].
  rewrite take_app_length' by done. rewrite drop_app_length' by done.
  unfold seqb. rewrite bool_decide_false by done. rewrite (proj2 (Z.eqb_neq _ _)) by done.
  by rewrite be_u32_put.
Qed.

Lemma Encode_wire sid n : wire_id sid ->
  Encode {| hdSID := sid; hdLen := n |} = Some (sid ++ put_be_u32 n).
Proof.
  intros (Hl & Hn & _). unfold Encode. cbn [hdSID hdLen]. unfold seqb.
  rewrite bool_decide_false by done. unfold is_uuid in Hl. by rewrite take_ge by lia.
Qed.

Lemma drop_header sid n data : is_uuid sid -> drop HeaderSize (sid ++ put_be_u32 n ++ data) = data.
Proof.
  intros Hl. unfold is_uuid in Hl. rewrite app_assoc. apply drop_app_length'.
  rewrite length_app, Hl. done.
Qed.

Lemma mod_u32 n : 0 <= Z.of_nat n mod 2 ^ 32 < 2 ^ 32.
Proof. apply Z.mod_pos_bound. lia. Qed.

(** Frames reach their session: a header with the id of a registered session
    and any payload that is not itself a message in JSON is forwarded to that
    session, whole; a message written for a session is read back with its id
    and does for it what its type says; the capability message of the control
    id is taken for the connection. *)
Theorem frames_reach_their_session b sid s payload msg :
  wire_id sid -> br_sessions b !! sid = Some s -> bs_protocol s = ProtocolRDP ->
  json_Unmarshal payload = None -> json_Unmarshal (json_Marshal msg) = Some msg ->
  (exists f, raw_frame sid payload = Some f
     /\ (sid <> ControlSentinelSID -> handleWebSocketMessage b f = Forward sid payload))
  /\ (exists f, EncodeWebSocketMessage sid msg = Some f
     /\ DecodeWebSocketMessage f = Some (sid, msg)
     /\ (sid <> ControlSentinelSID -> wmType msg = MessageTypeData ->
         handleWebSocketMessage b f = Forward sid (wmPayload msg))
     /\ (sid <> ControlSentinelSID -> wmType msg = MessageTypeSessionStarted ->
         handleWebSocketMessage b f = Acknowledge sid)
     /\ (sid <> ControlSentinelSID -> wmType msg = MessageTypeGuardrailsViolation ->
         handleWebSocketMessage b f = Persist sid (wmPayload msg))
     /\ (sid = ControlSentinelSID -> wmType msg = MessageTypeCapabilities ->
         handleWebSocketMessage b f = Advertise (wmMetadata msg))).
Proof.
  intros Hw Hs Hp Hj Hm. assert (is_uuid sid) as Hu by apply Hw. split.
  - unfold raw_frame. rewrite Encode_wire by done. eexists. split; [done|]. intros _.
    unfold handleWebSocketMessage, DecodeWebSocketMessage, frame_action.
    rewrite <- app_assoc, DecodeHeader_frame by (done || apply mod_u32). cbn [hdSID].
    by rewrite drop_header, Hj, Hs by done.
  - unfold EncodeWebSocketMessage. rewrite Encode_wire by done. eexists. split; [done|].
    assert (DecodeWebSocketMessage ((sid ++ put_be_u32 (Z.of_nat (length (json_Marshal msg)) mod 2 ^ 32))
      ++ json_Marshal msg) = Some (sid, msg)) as Hd.
    { unfold DecodeWebSocketMessage.
      rewrite <- app_assoc, DecodeHeader_frame by (done || apply mod_u32).
      by rewrite drop_header, Hm by done. }
    split; [exact Hd|]. unfold handleWebSocketMessage. rewrite Hd. unfold control_action. rewrite Hs, Hp.
    split_and!; intros Hc Ht; rewrite Ht, ?Hc; unfold seqb;
      rewrite ?(bool_decide_false (sid = ControlSentinelSID)) by done; done.
Qed.

(** ** Revocation *)

Lemma close_sessions_lookup ids b sid :
  br_sessions (fold_left close_session ids b) !! sid
  = (if bool_decide (sid ∈ ids) then None else br_sessions b !! sid).
Proof.
  revert b. induction ids as [|id ids IH]; intros b; [done|]. cbn [fold_left]. rewrite IH.
  assert (br_sessions (close_session b id) = delete id (br_sessions b)) as ->.
  { unfold close_session. destruct (br_sessions b !! id) eqn:E; [done|]. by rewrite delete_id. }
  destruct (decide (sid = id)) as [->|Hne].
  - rewrite lookup_delete_eq. rewrite (bool_decide_true (id ∈ id :: ids)) by left.
    by case_bool_decide.
  - rewrite lookup_delete_ne by done.
    assert (bool_decide (sid ∈ id :: ids) = bool_decide (sid ∈ ids)) as ->; [|done].
    apply bool_decide_ext. rewrite elem_of_cons. naive_solver.
Qed.

(** A revoked credential has no session left, and every other session stays
    registered as it was. *)
Lemma revoked_sessions_end b c sid :
  br_sessions (RevokeByCredentialID b c) !! sid
  = (s ← br_sessions b !! sid; if bs_credentialID s =s c then None else Some s).
Proof.
  unfold RevokeByCredentialID. rewrite close_sessions_lookup.
  destruct (br_sessions b !! sid) as [s|] eqn:E; cbn; [|by case_bool_decide].
  case_bool_decide as Hin.
  - apply list_elem_of_In, in_map_iff in Hin as ([k s'] & Hk & Hf). cbn in Hk. subst k.
    apply filter_In in Hf as [Hs' Hc]. apply list_elem_of_In, elem_of_map_to_list in Hs'.
    rewrite E in Hs'. injection Hs' as <-. cbn in Hc. by rewrite Hc.
  - destruct (bs_credentialID s =s c) eqn:Hc; [|done]. exfalso. apply Hin.
    apply list_elem_of_In, in_map_iff. exists (sid, s). split; [done|]. apply filter_In.
    split; [|done]. by apply list_elem_of_In, elem_of_map_to_list.
Qed.

(** A removal in one piece touches only the caller's registration. *)
Lemma stale_removal_ignored b name old new :
  old <> new -> br_agents (RemoveAgent (CreateAgent b name new) name old) !! name = Some new.
Proof.
  intros Hne. unfold RemoveAgent, remove_check, CreateAgent. cbn [br_agents].
  rewrite lookup_insert_eq, bool_decide_false by congruence. apply lookup_insert_eq.
Qed.

(** ** Departures *)

(** The load and the delete are two operations on the map: when the agent
    reconnects in between, the stale connection evicts the live one. *)
Lemma stale_removal_evicts_live b name old new :
  br_agents b !! name = Some old ->
  remove_check b name old = true
  /\ br_agents (remove_delete (CreateAgent b name new) name) !! name = None.
Proof.
  intros Ho. unfold remove_check, remove_delete. rewrite bool_decide_true by done.
  cbn [br_agents set_agents CreateAgent]. by rewrite lookup_delete_eq.
Qed.

(** Ending one session closes the websocket its agent's other sessions use. *)
Lemma closing_cuts_other_sessions b sid s other s' :
  br_sessions b !! sid = Some s -> br_sessions b !! other = Some s' -> other <> sid ->
  bs_agent s' = bs_agent s ->
  br_sessions (close_session b sid) !! other = Some s' /\ bs_agent s' ∉ br_open (close_session b sid).
Proof.
  intros Hs Ho Hne Ha. unfold close_session. rewrite Hs. cbn [br_sessions br_open].
  split; [by rewrite lookup_delete_ne|]. rewrite Ha. set_solver.
Qed.

(** Stream data that reads as JSON is taken for a message: it is not forwarded. *)
Lemma json_data_swallowed b sid s payload msg f :
  wire_id sid -> br_sessions b !! sid = Some s ->
  json_Unmarshal payload = Some msg -> wmType msg = [] -> raw_frame sid payload = Some f ->
  handleWebSocketMessage b f = Ignore.
Proof.
  intros Hw Hs Hj Ht Hf. assert (is_uuid sid) as Hu by apply Hw. unfold raw_frame in Hf.
  rewrite Encode_wire in Hf by done. injection Hf as <-.
  unfold handleWebSocketMessage, DecodeWebSocketMessage.
  rewrite <- app_assoc, DecodeHeader_frame by (done || apply mod_u32). cbn [hdSID].
  rewrite drop_header, Hj by done. cbn. unfold control_action. rewrite Ht, Hs.
  destruct (sid =s ControlSentinelSID), (bs_protocol s =s ProtocolRDP); done.
Qed.
End Wire.

(** ** Evaluation *)

(** A rendering of messages for evaluation: the type, a NUL, the payload; the
    empty object as Go reads it. *)
Definition plain_json : MessageJSON := {|
  json_Marshal m := wmType m ++ x00 :: wmPayload m;
  json_Unmarshal d :=
    if d =s B "{}" then Some {| wmType := []; wmMetadata := ∅; wmPayload := [] |}
    else match list_find (fun c => c = x00) d with
         | Some (i, _) => Some {| wmType := take i d; wmMetadata := ∅; wmPayload := drop (S i) d |}
         | None => None
         end;
|}.

#[local] Existing Instance plain_json.

Definition demo_sid : bytes := replicate 6 x01 ++ x40 :: replicate 9 x02.

Definition demo_broker : Broker :=
  {| br_agents := {[ B "agent" := B "i1" ]}; br_entries := ∅;
     br_sessions := {[ demo_sid := {| bs_protocol := ProtocolRDP; bs_agentName := B "agent";
                                      bs_agent := B "i1"; bs_credentialID := B "c" |} ]};
     br_open := {[ B "i1" ]} |}.

Lemma frames_reach_their_session_witness :
  exists f, raw_frame demo_sid (B "pixels") = Some f
  /\ handleWebSocketMessage demo_broker f = Forward demo_sid (B "pixels").
Proof.
  destruct (frames_reach_their_session demo_broker demo_sid
    {| bs_protocol := ProtocolRDP; bs_agentName := B "agent"; bs_agent := B "i1";
       bs_credentialID := B "c" |} (B "pixels")
    {| wmType := B "data"; wmMetadata := ∅; wmPayload := B "x" |}) as [(f & Hf & Hh) _].
  - split; [reflexivity|]. split; [discriminate|]. vm_compute. discriminate.
  - vm_compute. reflexivity.
  - reflexivity.
  - vm_compute. reflexivity.
  - vm_compute. reflexivity.
  - exists f. split; [exact Hf|]. apply Hh. discriminate.
Defined.

Example empty_object_lost :
  (f ← raw_frame demo_sid (B "{}"); Some (handleWebSocketMessage demo_broker f)) = Some Ignore.
Proof. vm_compute. reflexivity. Qed.
