(* ===== verification/Addressing.v ===== *)
(** * Tunnel addresses: src/tunnel/addressing/allocator.go

    An [Allocator] gives every connection name an IPv6 address inside a /48 and
    an IPv4 address inside a /16, both derived from a session's seed, and finds
    the name of an address.  Each method holds the allocator's lock, so it is a
    function on the state.  A [netip.Addr] is its bytes, sixteen or four. *)

From S2P Require Import Prelude GoStrings GoText.

#[local] Open Scope Z_scope.

(** ** The allocator *)

Definition Addr := bytes.
Definition Is4 (a : Addr) : bool := (length a =? 4)%nat.

Definition PrefixLength : Z := 48.
Definition v4FirstOctet : Z := 100.
Definition v4CGNATSecondMin : Z := 64.
Definition v4CGNATSecondMax : Z := 127.

Definition gatewaySuffix : bytes := replicate 15 x00 ++ [x01].
Definition hostSuffix : bytes := replicate 15 x00 ++ [x02].

(** [al_prefix] is the address of the /48, [al_v4Prefix] of the /16. *)
Record Allocator := {
  al_prefix : Addr;
  al_v4Prefix : Addr;
  al_byName : gmap bytes Addr;
  al_byAddr : gmap Addr bytes;
  al_byNameV4 : gmap bytes Addr;
  al_byAddrV4 : gmap Addr bytes;
  al_gateway : Addr;
  al_host : Addr;
  al_gatewayV4 : Addr;
  al_hostV4 : Addr;
}.

(** [addrFromSuffix] and [v4AddrFromSuffix], of the prefixes. *)
Definition addrFromSuffix (prefix suffix : bytes) : Addr := take 6 prefix ++ drop 6 suffix.
Definition v4AddrFromSuffix (v4Prefix : Addr) (low : Z) : Addr :=
  take 2 v4Prefix ++ [to_byte (Z.shiftr low 8); to_byte low].

Section Addressing.
Context `{Sha256}.

(** [v4PrefixFromSeed], masked to sixteen bits. *)
Definition v4PrefixFromSeed (h : bytes) : Addr :=
  let second := v4CGNATSecondMin
    + bval (default x00 (h !! 5%nat)) mod (v4CGNATSecondMax - v4CGNATSecondMin + 1) in
  let third := default x00 (h !! 6%nat) in
  let base := [to_byte v4FirstOctet; to_byte second; third; x00] in
  take 2 base ++ [x00; x00].

Definition New (seed : bytes) : Allocator :=
  let h := Sum256 seed in
  let raw := xfd :: take 5 h ++ replicate 10 x00 in
  let prefix := take 6 raw ++ replicate 10 x00 in
  let v4 := v4PrefixFromSeed h in
  {| al_prefix := prefix; al_v4Prefix := v4; al_byName := ∅; al_byAddr := ∅; al_byNameV4 := ∅;
     al_byAddrV4 := ∅; al_gateway := addrFromSuffix prefix gatewaySuffix;
     al_host := addrFromSuffix prefix hostSuffix; al_gatewayV4 := v4AddrFromSuffix v4 1;
     al_hostV4 := v4AddrFromSuffix v4 2 |}.

Definition v4SuffixFromName (name : bytes) : Z := get_be (take 2 (drop 10 (Sum256 name))).
Definition suffixFromName (name : bytes) : bytes := replicate 6 x00 ++ take 10 (Sum256 name).

(** The low ten bytes plus one, as two words. *)
Definition incrementSuffix (s : bytes) : bytes :=
  let low := (get_be (drop 8 s) + 1) mod 2 ^ 64 in
  let high := get_be (take 2 (drop 6 s)) in
  let high := if low =? 0 then (high + 1) mod 2 ^ 16 else high in
  take 6 s ++ put_be 2 high ++ put_be 8 low.

(** The probing both allocations do: the first of [attempts] candidates that is
    neither reserved nor taken. *)
Fixpoint probe {S} (attempts : nat) (addr_of : S -> Addr) (next : S -> S) (reserved : list Addr)
    (taken : gmap Addr bytes) (s : S) : option Addr :=
  match attempts with
  | O => None
  | Datatypes.S attempts =>
      let addr := addr_of s in
      if bool_decide (addr ∈ reserved) then probe attempts addr_of next reserved taken (next s)
      else if bool_decide (is_Some (taken !! addr))
      then probe attempts addr_of next reserved taken (next s)
      else Some addr
  end.

Definition probes6 : nat := 16.
Definition probes4 : nat := 256.

Definition probe6 (a : Allocator) (name : bytes) : option Addr :=
  probe probes6 (addrFromSuffix (al_prefix a)) incrementSuffix [al_gateway a; al_host a]
    (al_byAddr a) (suffixFromName name).
Definition probe4 (a : Allocator) (name : bytes) : option Addr :=
  probe probes4 (v4AddrFromSuffix (al_v4Prefix a)) (fun low => (low + 1) mod 2 ^ 16)
    [al_gatewayV4 a; al_hostV4 a] (al_byAddrV4 a) (v4SuffixFromName name).

Definition set_v6 (a : Allocator) (byName : gmap bytes Addr) (byAddr : gmap Addr bytes) : Allocator :=
  {| al_prefix := al_prefix a; al_v4Prefix := al_v4Prefix a; al_byName := byName;
     al_byAddr := byAddr; al_byNameV4 := al_byNameV4 a; al_byAddrV4 := al_byAddrV4 a;
     al_gateway := al_gateway a; al_host := al_host a; al_gatewayV4 := al_gatewayV4 a;
     al_hostV4 := al_hostV4 a |}.

Definition set_v4 (a : Allocator) (byName : gmap bytes Addr) (byAddr : gmap Addr bytes) : Allocator :=
  {| al_prefix := al_prefix a; al_v4Prefix := al_v4Prefix a; al_byName := al_byName a;
     al_byAddr := al_byAddr a; al_byNameV4 := byName; al_byAddrV4 := byAddr;
     al_gateway := al_gateway a; al_host := al_host a; al_gatewayV4 := al_gatewayV4 a;
     al_hostV4 := al_hostV4 a |}.

Definition allocV6Locked (a : Allocator) (name : bytes) : Allocator * option Addr :=
  match probe6 a name with
  | Some addr => (set_v6 a (<[name := addr]> (al_byName a)) (<[addr := name]> (al_byAddr a)), Some addr)
  | None => (a, None)
  end.

Definition allocV4Locked (a : Allocator) (name : bytes) : Allocator * option Addr :=
  match probe4 a name with
  | Some addr => (set_v4 a (<[name := addr]> (al_byNameV4 a)) (<[addr := name]> (al_byAddrV4 a)), Some addr)
  | None => (a, None)
  end.

Inductive AllocError := EmptyName | V6Exhausted (name : bytes) | V4Exhausted (name : bytes).

(** [AddName]; a name without an IPv4 address gives the IPv6 one back. *)
Definition AddName (a : Allocator) (name : bytes) : Allocator * (AllocError + Addr) :=
  if name =s [] then (a, inl EmptyName)
  else
    match al_byName a !! name with
    | Some addr => (a, inr addr)
    | None =>
        match allocV6Locked a name with
        | (a1, None) => (a1, inl (V6Exhausted name))
        | (a1, Some v6) =>
            match allocV4Locked a1 name with
            | (a2, None) =>
                (set_v6 a2 (delete name (al_byName a2)) (delete v6 (al_byAddr a2)),
                 inl (V4Exhausted name))
            | (a2, Some _) => (a2, inr v6)
            end
        end
    end.

Definition LookupName (a : Allocator) (name : bytes) : option Addr := al_byName a !! name.
Definition LookupNameV4 (a : Allocator) (name : bytes) : option Addr := al_byNameV4 a !! name.
Definition LookupAddrV4 (a : Allocator) (addr : Addr) : option bytes := al_byAddrV4 a !! addr.
Definition LookupAddr (a : Allocator) (addr : Addr) : option bytes :=
  if Is4 addr then al_byAddrV4 a !! addr else al_byAddr a !! addr.
Definition Names (a : Allocator) : gset bytes := dom (al_byName a).

(** The names asked for, one after the other. *)
Definition add_all (a : Allocator) (names : list bytes) : Allocator :=
  fold_left (fun a n => (AddName a n).1) names a.
End Addressing.

(** ** Suffixes and probing *)

(** The two-word increment is the increment of the eighty bits. *)
Lemma incrementSuffix_value s : length s = 16%nat ->
  length (incrementSuffix s) = 16%nat
  /\ drop 6 (incrementSuffix s) = put_be 10 (get_be (drop 6 s) + 1).
Proof.
  intros Hs. unfold incrementSuffix.
  set (lo := get_be (drop 8 s)). set (hi := get_be (take 2 (drop 6 s))).
  assert (get_be (drop 6 s) = hi * 2 ^ 64 + lo) as ->.
  { unfold hi, lo. rewrite <- (take_drop 2 (drop 6 s)) at 1. rewrite drop_drop, get_be_app.
    rewrite length_drop, Hs. done. }
  assert (0 <= lo < 2 ^ 64) as Hlo.
  { unfold lo. pose proof (get_be_bound (drop 8 s)) as Hb. rewrite length_drop, Hs in Hb. exact Hb. }
  assert (length (take 6 s) = 6%nat) as H6 by (rewrite length_take; lia).
  split; [rewrite !length_app, !length_put_be, H6; done|].
  rewrite drop_app_length' by done.
  change 10%nat with (2 + 8)%nat. rewrite put_be_add. change (256 ^ Z.of_nat 8) with (2 ^ 64).
  assert (put_be 8 ((lo + 1) mod 2 ^ 64) = put_be 8 (hi * 2 ^ 64 + lo + 1)) as ->.
  { rewrite <- (put_be_mod 8 (hi * 2 ^ 64 + lo + 1)). change (256 ^ Z.of_nat 8) with (2 ^ 64).
    replace (hi * 2 ^ 64 + lo + 1) with (lo + 1 + hi * 2 ^ 64) by lia. by rewrite Z.mod_add by lia. }
  f_equal. destruct (Z.eqb_spec ((lo + 1) mod 2 ^ 64) 0) as [E|E].
  - assert (lo + 1 = 2 ^ 64) as El.
    { destruct (Z.eq_dec (lo + 1) (2 ^ 64)); [done|]. rewrite Z.mod_small in E by lia. lia. }
    replace (hi * 2 ^ 64 + lo + 1) with ((hi + 1) * 2 ^ 64) by lia. rewrite Z.div_mul by lia.
    apply (put_be_mod 2 (hi + 1)).
  - assert (lo + 1 < 2 ^ 64) by (destruct (Z.eq_dec (lo + 1) (2 ^ 64)) as [El|]; [by rewrite El in E|lia]).
    replace (hi * 2 ^ 64 + lo + 1) with (lo + 1 + hi * 2 ^ 64) by lia.
    by rewrite Z.div_add, Z.div_small by lia.
Qed.

Lemma iter_increment k s : length s = 16%nat ->
  length (Nat.iter k incrementSuffix s) = 16%nat
  /\ drop 6 (Nat.iter k incrementSuffix s) = put_be 10 (get_be (drop 6 s) + Z.of_nat k).
Proof.
  intros Hs. induction k as [|k [IH1 IH2]].
  - split; [done|]. cbn [Nat.iter]. rewrite Z.add_0_r.
    pose proof (put_get_be (drop 6 s)) as E. rewrite length_drop, Hs in E. symmetry. exact E.
  - change (Nat.iter (S k) incrementSuffix s) with (incrementSuffix (Nat.iter k incrementSuffix s)).
    destruct (incrementSuffix_value _ IH1) as [H1 H2]. split; [done|].
    rewrite H2, IH2, get_put_be. rewrite <- (put_be_mod 10), Z.add_mod_idemp_l, (put_be_mod 10) by lia.
    f_equal. lia.
Qed.

(** ** Properties of the tunnel's address book

    The invariant of the allocator and its consequences: the maps of a family
    are inverse to each other, a name has both addresses or none, addresses are
    inside the session's prefixes and never the reserved ones, and as long as
    few names are known an allocation cannot fail, whatever the hash. *)
(** ** Probing *)

Lemma size_list_to_set_le (l : list Addr) : (size (list_to_set l : gset Addr) <= length l)%nat.
Proof.
  induction l as [|x l IH]; cbn [list_to_set length]; [by rewrite size_empty|].
  rewrite size_union_alt, size_singleton.
  assert (size (list_to_set l ∖ {[x]} : gset Addr) <= size (list_to_set l : gset Addr))%nat
    by (apply subseteq_size; set_solver). lia.
Qed.

Section Probe.
Context {S : Type} (f : S -> Addr) (next : S -> S) (reserved : list Addr) (taken : gmap Addr bytes).

Lemma probe_Some n s a : probe n f next reserved taken s = Some a ->
  (a ∉ reserved) /\ taken !! a = None /\ exists k, a = f (Nat.iter k next s).
Proof.
  revert s. induction n as [|n IH]; intros s; cbn [probe]; [done|].
  assert (probe n f next reserved taken (next s) = Some a ->
    (a ∉ reserved) /\ taken !! a = None /\ exists k, a = f (Nat.iter k next s)) as Hnext.
  { intros (H1 & H2 & k & H3)%IH. split_and!; [done|done|]. exists (Datatypes.S k).
    by rewrite H3, Nat.iter_succ_r. }
  case_bool_decide as Hr; [done|]. case_bool_decide as Ht; [done|]. intros [= <-].
  split_and!; [done|by apply eq_None_not_Some|by exists 0%nat].
Qed.

Lemma probe_None n s : probe n f next reserved taken s = None ->
  forall k, (k < n)%nat ->
  f (Nat.iter k next s) ∈ (list_to_set reserved ∪ dom taken : gset Addr).
Proof.
  revert s. induction n as [|n IH]; intros s; cbn [probe]; [lia|].
  assert (probe n f next reserved taken (next s) = None ->
    f s ∈ (list_to_set reserved ∪ dom taken : gset Addr) ->
    forall k, (k < Datatypes.S n)%nat ->
    f (Nat.iter k next s) ∈ (list_to_set reserved ∪ dom taken : gset Addr)) as Hnext.
  { intros Hp Hs [|k] Hk; [done|]. rewrite Nat.iter_succ_r. apply IH; [done|lia]. }
  case_bool_decide as Hr; [intros Hp; apply Hnext; set_solver|].
  case_bool_decide as Ht; [|done]. intros Hp. apply Hnext; [done|].
  apply elem_of_union. right. by apply elem_of_dom.
Qed.

(** Distinct candidates fail only when the book is full of them. *)
Lemma probe_pigeonhole n s :
  (forall i j, (i < n)%nat -> (j < n)%nat ->
     f (Nat.iter i next s) = f (Nat.iter j next s) -> i = j) ->
  probe n f next reserved taken s = None -> (n <= length reserved + size taken)%nat.
Proof.
  intros Hinj Hnone. set (cands := map (fun k => f (Nat.iter k next s)) (seq 0 n)).
  assert (NoDup cands) as Hnd.
  { apply NoDup_fmap_2_strong; [|apply NoDup_seq]. intros i j Hi%elem_of_seq Hj%elem_of_seq E.
    apply Hinj; [lia|lia|done]. }
  assert ((list_to_set cands : gset Addr) ⊆ list_to_set reserved ∪ dom taken) as Hsub.
  { intros x Hx%elem_of_list_to_set%list_elem_of_In%in_map_iff.
    destruct Hx as (k & <- & Hk%in_seq). apply (probe_None n s); [done|lia]. }
  apply subseteq_size in Hsub. rewrite size_list_to_set in Hsub by done.
  unfold cands in Hsub. rewrite length_map, length_seq in Hsub.
  assert (size (list_to_set reserved ∪ dom taken : gset Addr) <= length reserved + size taken)%nat;
    [|lia].
  rewrite size_union_alt. rewrite <- (size_dom taken).
  assert (size (dom taken ∖ list_to_set reserved : gset Addr) <= size (dom taken))%nat
    by (apply subseteq_size; set_solver).
  pose proof (size_list_to_set_le reserved). lia.
Qed.
End Probe.

(** ** The invariant *)

Section Book.
Context `{Sha256}.

(** crypto/sha256: thirty-two bytes. *)
Hypothesis sum_length : forall s, length (Sum256 s) = 32%nat.

Definition inverse (byName : gmap bytes Addr) (byAddr : gmap Addr bytes) : Prop :=
  forall n x, byName !! n = Some x <-> byAddr !! x = Some n.

Record book (a : Allocator) : Prop := {
  bk_prefix : length (al_prefix a) = 16%nat /\ head (al_prefix a) = Some xfd;
  bk_v4Prefix : exists second, 64 <= second <= 127
    /\ al_v4Prefix a = [to_byte 100; to_byte second; x00; x00];
  bk_reserved : al_gateway a = addrFromSuffix (al_prefix a) gatewaySuffix
    /\ al_host a = addrFromSuffix (al_prefix a) hostSuffix
    /\ al_gatewayV4 a = v4AddrFromSuffix (al_v4Prefix a) 1
    /\ al_hostV4 a = v4AddrFromSuffix (al_v4Prefix a) 2;
  bk_inverse : inverse (al_byName a) (al_byAddr a);
  bk_inverseV4 : inverse (al_byNameV4 a) (al_byAddrV4 a);
  bk_both : dom (al_byName a) = dom (al_byNameV4 a);
  bk_addr : forall n x, al_byName a !! n = Some x ->
    n <> [] /\ (x ∉ [al_gateway a; al_host a])
    /\ exists s, length s = 16%nat /\ x = addrFromSuffix (al_prefix a) s;
  bk_addrV4 : forall n x, al_byNameV4 a !! n = Some x ->
    (x ∉ [al_gatewayV4 a; al_hostV4 a])
    /\ exists low, 0 <= low < 2 ^ 16 /\ x = v4AddrFromSuffix (al_v4Prefix a) low;
}.

Lemma book_New seed : book (New seed).
Proof.
  assert (length (xfd :: take 5 (Sum256 seed)) = 6%nat) as Hl
    by (cbn [length]; rewrite length_take, sum_length; done).
  split; cbn [New al_prefix al_v4Prefix al_byName al_byAddr al_byNameV4 al_byAddrV4 al_gateway
    al_host al_gatewayV4 al_hostV4]; try done.
  - split; [|done]. rewrite length_app, length_take, length_replicate.
    cbn [length] in *. rewrite length_app, length_replicate. lia.
  - exists (64 + bval (default x00 (Sum256 seed !! 5%nat)) mod 64). split; [|done].
    pose proof (Z.mod_pos_bound (bval (default x00 (Sum256 seed !! 5%nat))) 64). lia.
Qed.

Lemma inverse_insert byName byAddr n x :
  inverse byName byAddr -> byName !! n = None -> byAddr !! x = None ->
  inverse (<[n := x]> byName) (<[x := n]> byAddr).
Proof.
  intros Hi Hn Hx n' x'. destruct (decide (n' = n)) as [->|Hne], (decide (x' = x)) as [->|Hxe].
  - by rewrite !lookup_insert_eq.
  - rewrite lookup_insert_eq, lookup_insert_ne by done. split; [congruence|].
    intros Hb. apply Hi in Hb. congruence.
  - rewrite lookup_insert_eq, (lookup_insert_ne byName) by done. split; [|congruence].
    intros Hb. apply Hi in Hb. congruence.
  - rewrite !lookup_insert_ne by done. apply Hi.
Qed.

(** The candidates of a family are distinct. *)
Lemma candidates6_distinct a name i j :
  (i < probes6)%nat -> (j < probes6)%nat ->
  addrFromSuffix (al_prefix a) (Nat.iter i incrementSuffix (suffixFromName name))
  = addrFromSuffix (al_prefix a) (Nat.iter j incrementSuffix (suffixFromName name)) -> i = j.
Proof.
  intros Hi Hj E. unfold addrFromSuffix in E. apply app_inv_head in E.
  assert (length (suffixFromName name) = 16%nat) as Hs
    by (unfold suffixFromName; rewrite length_app, length_replicate, length_take, sum_length; done).
  rewrite (proj2 (iter_increment i _ Hs)), (proj2 (iter_increment j _ Hs)) in E.
  apply (f_equal get_be) in E. rewrite !get_put_be in E. unfold probes6 in *.
  set (v := get_be _) in E. change (256 ^ Z.of_nat 10) with (2 ^ 80) in E.
  rewrite <- (Z.add_mod_idemp_l v), <- (Z.add_mod_idemp_l v (Z.of_nat j)) in E by lia.
  pose proof (Z.mod_pos_bound v (2 ^ 80)). set (u := v mod 2 ^ 80) in *.
  Z.div_mod_to_equations. lia.
Qed.

Lemma iter_low k low : 0 <= low < 2 ^ 16 ->
  Nat.iter k (fun l => (l + 1) mod 2 ^ 16) low = (low + Z.of_nat k) mod 2 ^ 16.
Proof.
  intros Hl. induction k as [|k IH]; [cbn; rewrite Z.add_0_r, Z.mod_small by done; done|].
  match goal with |- Nat.iter (S k) ?g low = _ => change (g (Nat.iter k g low) = (low + Z.of_nat (S k)) mod 2 ^ 16) end.
  cbv beta.   rewrite IH, Z.add_mod_idemp_l by lia. f_equal. lia.
Qed.

Lemma v4_low_inj p low low' : 0 <= low < 2 ^ 16 -> 0 <= low' < 2 ^ 16 ->
  v4AddrFromSuffix p low = v4AddrFromSuffix p low' -> low = low'.
Proof.
  intros Hl Hl' E. unfold v4AddrFromSuffix in E. apply app_inv_head in E. injection E as E1 E2.
  apply (f_equal bval) in E1, E2. rewrite !bval_to_byte in E1, E2.
  rewrite !Z.shiftr_div_pow2 in E1 by lia. change (2 ^ 8) with 256 in E1.
  Z.div_mod_to_equations. lia.
Qed.

Lemma suffix4_range name : 0 <= v4SuffixFromName name < 2 ^ 16.
Proof.
  unfold v4SuffixFromName. pose proof (get_be_bound (take 2 (drop 10 (Sum256 name)))) as Hb.
  rewrite length_take, length_drop, sum_length in Hb. exact Hb.
Qed.

Lemma candidates4_distinct a name i j :
  (i < probes4)%nat -> (j < probes4)%nat ->
  v4AddrFromSuffix (al_v4Prefix a) (Nat.iter i (fun l => (l + 1) mod 2 ^ 16) (v4SuffixFromName name))
  = v4AddrFromSuffix (al_v4Prefix a) (Nat.iter j (fun l => (l + 1) mod 2 ^ 16) (v4SuffixFromName name)) ->
  i = j.
Proof.
  intros Hi Hj E. pose proof (suffix4_range name) as Hs.
  rewrite !iter_low in E by done.
  apply v4_low_inj in E; [|apply Z.mod_pos_bound; lia..].
  unfold probes4 in *. set (v := v4SuffixFromName name) in *. clearbody v.
  change (2 ^ 16) with 65536 in *. Z.div_mod_to_equations. lia.
Qed.

Lemma inverse_size byName byAddr : inverse byName byAddr -> (size byAddr <= size byName)%nat.
Proof.
  intros Hi. rewrite <- (size_dom byAddr), <- length_map_to_list, <- (length_fmap snd).
  etransitivity; [|apply size_list_to_set_le]. apply subseteq_size.
  intros x [n Hn]%elem_of_dom. apply Hi in Hn. apply elem_of_list_to_set, list_elem_of_fmap.
  exists (n, x). split; [done|]. by apply elem_of_map_to_list.
Qed.

Lemma both_size a : book a -> size (al_byNameV4 a) = size (al_byName a).
Proof. intros B. rewrite <- !(size_dom (D := gset bytes)). by rewrite (bk_both _ B). Qed.

(** What [AddName] does to a sound book. *)
Definition keeps (a a' : Allocator) : Prop :=
  al_prefix a' = al_prefix a /\ al_v4Prefix a' = al_v4Prefix a
  /\ (forall n x, al_byName a !! n = Some x -> al_byName a' !! n = Some x)
  /\ (forall n x, al_byNameV4 a !! n = Some x -> al_byNameV4 a' !! n = Some x).

Lemma keeps_refl a : keeps a a.
Proof. by repeat split. Qed.

Lemma keeps_trans a b c : keeps a b -> keeps b c -> keeps a c.
Proof. intros (P1 & P2 & P3 & P4) (Q1 & Q2 & Q3 & Q4). repeat split; try congruence; auto. Qed.

Lemma suffix6_length name k :
  length (Nat.iter k incrementSuffix (suffixFromName name)) = 16%nat.
Proof.
  apply iter_increment. unfold suffixFromName.
  by rewrite length_app, length_replicate, length_take, sum_length.
Qed.

Lemma probe6_Some a name x : probe6 a name = Some x ->
  (x ∉ [al_gateway a; al_host a]) /\ al_byAddr a !! x = None
  /\ exists s, length s = 16%nat /\ x = addrFromSuffix (al_prefix a) s.
Proof.
  unfold probe6. intros (H1 & H2 & k & H3)%probe_Some. split_and!; [done|done|].
  eexists. split; [apply suffix6_length|exact H3].
Qed.

Lemma probe4_Some a name x : probe4 a name = Some x ->
  (x ∉ [al_gatewayV4 a; al_hostV4 a]) /\ al_byAddrV4 a !! x = None
  /\ exists low, 0 <= low < 2 ^ 16 /\ x = v4AddrFromSuffix (al_v4Prefix a) low.
Proof.
  unfold probe4. intros (H1 & H2 & k & H3)%probe_Some. split_and!; [done|done|].
  rewrite iter_low in H3 by apply suffix4_range. eexists. split; [|exact H3].
  apply Z.mod_pos_bound. lia.
Qed.

Lemma probe6_None a name : book a -> probe6 a name = None -> (14 <= size (al_byName a))%nat.
Proof.
  unfold probe6. intros B P%probe_pigeonhole; [|by apply candidates6_distinct].
  pose proof (inverse_size _ _ (bk_inverse _ B)). unfold probes6 in P. cbn [length] in P. lia.
Qed.

Lemma probe4_None a name : book a -> probe4 a name = None -> (254 <= size (al_byName a))%nat.
Proof.
  unfold probe4. intros B P%probe_pigeonhole; [|by apply candidates4_distinct].
  pose proof (inverse_size _ _ (bk_inverseV4 _ B)). rewrite (both_size _ B) in *.
  unfold probes4 in P. cbn [length] in P. lia.
Qed.

Lemma probe4_set_v6 a byName byAddr name : probe4 (set_v6 a byName byAddr) name = probe4 a name.
Proof. unfold probe4, set_v6. cbn [al_v4Prefix al_gatewayV4 al_hostV4 al_byAddrV4]. reflexivity. Qed.

(** A name with a free address in both families. *)
Lemma book_add a name x6 x4 :
  book a -> name <> [] -> al_byName a !! name = None ->
  probe6 a name = Some x6 -> probe4 a name = Some x4 ->
  book (set_v4 (set_v6 a (<[name := x6]> (al_byName a)) (<[x6 := name]> (al_byAddr a)))
          (<[name := x4]> (al_byNameV4 a)) (<[x4 := name]> (al_byAddrV4 a))).
Proof.
  intros B Hne Hn (R6 & T6 & E6)%probe6_Some (R4 & T4 & E4)%probe4_Some.
  assert (al_byNameV4 a !! name = None) as Hn4.
  { apply not_elem_of_dom. rewrite <- (bk_both _ B). by apply not_elem_of_dom. }
  split; cbn [set_v4 set_v6 al_prefix al_v4Prefix al_byName al_byAddr al_byNameV4 al_byAddrV4
    al_gateway al_host al_gatewayV4 al_hostV4]; try apply B.
  - by apply inverse_insert; [apply B|..].
  - by apply inverse_insert; [apply B|..].
  - rewrite !dom_insert_L. by rewrite (bk_both _ B).
  - intros n x [[<- <-]|[_ Hx]]%lookup_insert_Some; [by split_and!|by apply (bk_addr _ B)].
  - intros n x [[<- <-]|[_ Hx]]%lookup_insert_Some; [by split_and!|by apply (bk_addrV4 _ B n)].
Qed.

Lemma AddName_book a name : book a ->
  book (AddName a name).1 /\ keeps a (AddName a name).1
  /\ match (AddName a name).2 with
     | inr x => al_byName (AddName a name).1 !! name = Some x
     | inl _ => (AddName a name).1 = a /\ (name = [] \/ (14 <= size (al_byName a))%nat)
     end.
Proof.
  intros B. unfold AddName. destruct (name =s []) eqn:En.
  { bool_hyps. subst. cbn [fst snd]. split; [done|]. split; [apply keeps_refl|]. auto. }
  bool_hyps. destruct (al_byName a !! name) as [x|] eqn:Ex.
  { cbn [fst snd]. split; [done|]. split; [apply keeps_refl|done]. }
  unfold allocV6Locked. destruct (probe6 a name) as [x6|] eqn:P6.
  - unfold allocV4Locked.
    rewrite probe4_set_v6.
    destruct (probe4 a name) as [x4|] eqn:P4; cbn [fst snd].
    + split; [exact (book_add a name x6 x4 B En Ex P6 P4)|]. split.
      * repeat split; cbn [set_v4 set_v6 al_byName al_byNameV4]; intros n x Hx;
          (destruct (decide (n = name)) as [->|]; [|by rewrite lookup_insert_ne]); [congruence|].
        exfalso. assert (is_Some (al_byName a !! name)) as [? ?]; [|congruence].
        apply elem_of_dom. rewrite (bk_both _ B). apply elem_of_dom. eauto.
      * cbn. apply lookup_insert_eq.
    + apply probe6_Some in P6 as (_ & T6 & _).
      assert (forall b, set_v6 (set_v6 a b (<[x6 := name]> (al_byAddr a)))
        (delete name (<[name := x6]> (al_byName a))) (delete x6 (<[x6 := name]> (al_byAddr a))) = a) as Hback.
      { intros b. rewrite !delete_insert_id by done. by destruct a. }
      cbn [set_v6 al_byName al_byAddr] in *. rewrite Hback.
      split; [done|]. split; [apply keeps_refl|]. split; [done|]. right.
      apply probe4_None in P4; [lia|done].
  - cbn [fst snd]. split; [done|]. split; [apply keeps_refl|]. split; [done|]. right.
    by apply probe6_None in P6.
Qed.

Lemma book_add_all a names : book a -> book (add_all a names) /\ keeps a (add_all a names).
Proof.
  revert a. induction names as [|n names IH]; intros a B; [by split; [|apply keeps_refl]|].
  destruct (AddName_book a n B) as (B1 & K1 & _). destruct (IH _ B1) as [B2 K2].
  split; [exact B2|]. by eapply keeps_trans.
Qed.

Lemma book_lengths a : book a ->
  (forall n x, al_byName a !! n = Some x -> length x = 16%nat /\ take 6 x = take 6 (al_prefix a))
  /\ (forall n x, al_byNameV4 a !! n = Some x -> length x = 4%nat /\ take 2 x = take 2 (al_v4Prefix a)).
Proof.
  intros B. split; intros n x Hx.
  - destruct (bk_addr _ B n x Hx) as (_ & _ & s & Hs & ->). destruct (bk_prefix _ B) as [Hp _].
    unfold addrFromSuffix.
    assert (length (take 6 (al_prefix a)) = 6%nat) as H6 by (rewrite length_take; lia).
    split; [rewrite length_app, H6, length_drop; lia|].
    by rewrite take_app_le, take_take by lia.
  - destruct (bk_addrV4 _ B n x Hx) as (_ & low & _ & ->).
    destruct (bk_v4Prefix _ B) as (second & _ & ->). done.
Qed.

(** C18 The address book is sound: after any names were added to a session's book,
    a name and its address find each other in both families, a name has both
    addresses or neither, every address lies in the session's prefix (the /48
    of fd and five bytes of the seed's hash, and the /16 of 100 and the second
    octet the hash selects in 64 to 127) and is neither the gateway nor the
    host; nothing added later changes an address; and while fewer than fourteen
    names are known, adding one succeeds, whatever the hash. *)
Theorem address_book_sound seed names :
  let a := add_all (New seed) names in
  (forall n x, LookupName a n = Some x <-> Is4 x = false /\ LookupAddr a x = Some n)
  /\ (forall n x, LookupNameV4 a n = Some x <-> Is4 x = true /\ LookupAddr a x = Some n)
  /\ (forall n, is_Some (LookupName a n) <-> is_Some (LookupNameV4 a n))
  /\ (forall n x, LookupName a n = Some x ->
        length x = 16%nat /\ take 6 x = xfd :: take 5 (Sum256 seed) /\ x <> al_gateway a /\ x <> al_host a)
  /\ (forall n x, LookupNameV4 a n = Some x ->
        length x = 4%nat
        /\ take 2 x = [to_byte 100; to_byte (64 + bval (default x00 (Sum256 seed !! 5%nat)) mod 64)]
        /\ x <> al_gatewayV4 a /\ x <> al_hostV4 a)
  /\ (forall more, keeps a (add_all a more))
  /\ (forall name, name <> [] -> (size (Names a) < 14)%nat ->
        exists x, (AddName a name).2 = inr x /\ LookupName (AddName a name).1 name = Some x).
Proof.
  intros a. destruct (book_add_all _ names (book_New seed)) as [B (P6 & P4 & _)]. fold a in B, P6, P4. clearbody a.
  destruct (book_lengths a B) as [L6 L4]. unfold LookupName, LookupNameV4, LookupAddr.
  split_and!.
  - intros n x. split.
    + intros Hx. unfold Is4. rewrite (proj1 (L6 n x Hx)). split; [done|]. by apply (bk_inverse _ B).
    + intros [-> Hx]. by apply (bk_inverse _ B).
  - intros n x. split.
    + intros Hx. unfold Is4. rewrite (proj1 (L4 n x Hx)). split; [done|]. by apply (bk_inverseV4 _ B).
    + intros [-> Hx]. by apply (bk_inverseV4 _ B).
  - intros n. rewrite <- !elem_of_dom. by rewrite (bk_both _ B).
  - intros n x Hx. destruct (bk_addr _ B n x Hx) as (_ & Hr & _), (L6 n x Hx) as [Hl Ht].
    split_and!; [done| |set_solver|set_solver]. rewrite Ht, P6. cbn [New al_prefix].
    rewrite take_app_le, take_take by (rewrite length_take; cbn [length]; rewrite length_app, length_replicate; lia).
    cbn [Nat.min take]. by rewrite take_app_le, take_take by (rewrite length_take, sum_length; lia).
  - intros n x Hx. destruct (bk_addrV4 _ B n x Hx) as (Hr & _), (L4 n x Hx) as [Hl Ht].
    split_and!; [done| |set_solver|set_solver]. by rewrite Ht, P4.
  - intros more. by apply book_add_all.
  - intros name Hn Hsz. destruct (AddName_book a name B) as (_ & _ & Hr).
    destruct (AddName a name).2 as [e|x]; [|by exists x].
    exfalso. destruct Hr as [_ [?|Hf]]; [done|]. unfold Names in Hsz. rewrite size_dom in Hsz. lia.
Qed.
End Book.

(** ** Evaluation *)

(** A hash for evaluation: the text, padded to thirty-two bytes. *)
#[local] Instance padded_sha : Sha256 := {| Sum256 s := take 32 (s ++ replicate 32 x00) |}.

Lemma padded_length s : length (Sum256 s) = 32%nat.
Proof. cbn [Sum256 padded_sha]. rewrite length_take, length_app, length_replicate. lia. Qed.

(** Two names whose hashes agree where the address is taken from. *)
Lemma address_book_sound_witness :
  let a := add_all (New (B "session")) [B "connection-a"; B "connection-b"] in
  exists x, LookupName a (B "connection-b") = Some x /\ LookupAddr a x = Some (B "connection-b").
Proof.
  intros a. destruct (address_book_sound padded_length (B "session") [B "connection-a"; B "connection-b"])
    as (HL & _). fold a in HL.
  destruct (LookupName a (B "connection-b")) as [x|] eqn:E; [|by vm_compute in E].
  exists x. split; [done|]. apply HL in E. apply E.
Defined.

(** ** Departures *)

(** The same name and seed do not always give the same address: when two names
    collide, the one added second is moved. *)
Lemma order_decides_address :
  LookupName (add_all (New (B "session")) [B "connection-a"; B "connection-b"]) (B "connection-a")
  <> LookupName (add_all (New (B "session")) [B "connection-b"; B "connection-a"]) (B "connection-a").
Proof. vm_compute. discriminate. Qed.

(** The seed's byte for the third octet is masked away: there are sixty-four
    IPv4 blocks in all. *)
Lemma v4_block_from_six_bits h h' :
  bval (default x00 (h !! 5%nat)) mod 64 = bval (default x00 (h' !! 5%nat)) mod 64 ->
  v4PrefixFromSeed h = v4PrefixFromSeed h'.
Proof.
  intros E. unfold v4PrefixFromSeed, v4CGNATSecondMax, v4CGNATSecondMin.
  change (127 - 64 + 1) with 64. cbn [take]. by rewrite E.
Qed.
