(* ===== verification/LiveEvents.v ===== *)
(** * Live events: src/gateway/session/eventbroker/broker.go and src/common/memory/ring.go

    The broker hands every event written to a session's log to the clients that
    follow the session, each through a buffered channel; the ring keeps the
    last entries of a log with their numbers.  Every operation runs under one
    lock, so it is a function on the state.  The broker is compared with a
    machine in which each follower has a queue of its own, filled by the calls
    alone. *)

From S2P Require Import Prelude.

(** ** The event broker

    A subscriber is its number, which is never given twice; its channel lives
    on when the broker has forgotten it. *)

Record Event := { evTime : Z; evType : byte; evPayload : bytes }.

Record channel := { ch_buf : list Event; ch_closed : bool }.

Record Broker := {
  br_subs : gmap bytes (gset nat);
  br_chans : gmap nat channel;
  br_next : nat;
}.

Definition channelCap : nat := 32.
Arguments channelCap : simpl never.

Definition broker_New : Broker := {| br_subs := ∅; br_chans := ∅; br_next := 0 |}.

Definition subs_of (b : Broker) (sid : bytes) : gset nat := default ∅ (br_subs b !! sid).

(** [Subscribe]; the number stands for the receive channel. *)
Definition Subscribe (b : Broker) (sid : bytes) : Broker * nat :=
  let id := br_next b in
  ({| br_subs := <[sid := {[id]} ∪ subs_of b sid]> (br_subs b);
      br_chans := <[id := {| ch_buf := []; ch_closed := false |}]> (br_chans b);
      br_next := S id |}, id).

(** The function [Subscribe] returns with the channel; its second call does
    nothing, which deleting twice does not either. *)
Definition unsubscribe (b : Broker) (sid : bytes) (id : nat) : Broker :=
  match br_subs b !! sid with
  | None => b
  | Some subs =>
      let subs := subs ∖ {[id]} in
      {| br_subs := if bool_decide (subs = ∅) then delete sid (br_subs b) else <[sid := subs]> (br_subs b);
         br_chans := br_chans b; br_next := br_next b |}
  end.

(** The select with a default: a full buffer drops the event.  [None] is the
    panic of a send on a closed channel. *)
Definition offer (ev : Event) (c : channel) : option channel :=
  if ch_closed c then None
  else if (length (ch_buf c) <? channelCap)%nat
       then Some {| ch_buf := ch_buf c ++ [ev]; ch_closed := false |}
       else Some c.

(** [close]; closing twice panics. *)
Definition close_channel (c : channel) : option channel :=
  if ch_closed c then None else Some {| ch_buf := ch_buf c; ch_closed := true |}.

Definition on_channel (f : channel -> option channel) (id : nat) (cs : option (gmap nat channel)) :
    option (gmap nat channel) :=
  cs ← cs; c ← cs !! id; c ← f c; Some (<[id := c]> cs).

(** A loop over the subscribers of a session. *)
Definition each_sub (f : channel -> option channel) (b : Broker) (sid : bytes) : option (gmap nat channel) :=
  set_fold (on_channel f) (Some (br_chans b)) (subs_of b sid).

Definition Publish (b : Broker) (sid : bytes) (ev : Event) : option Broker :=
  cs ← each_sub (offer ev) b sid;
  Some {| br_subs := br_subs b; br_chans := cs; br_next := br_next b |}.

Definition broker_Remove (b : Broker) (sid : bytes) : option Broker :=
  cs ← each_sub close_channel b sid;
  Some {| br_subs := delete sid (br_subs b); br_chans := cs; br_next := br_next b |}.

(** A receive of the client: an event, the end of a closed channel, or nothing
    yet. *)
Inductive received := Got (ev : Event) | Ended | Blocked.

Definition receive (b : Broker) (id : nat) : Broker * received :=
  match br_chans b !! id with
  | None => (b, Blocked)
  | Some c =>
      match ch_buf c with
      | ev :: buf =>
          ({| br_subs := br_subs b;
              br_chans := <[id := {| ch_buf := buf; ch_closed := ch_closed c |}]> (br_chans b);
              br_next := br_next b |}, Got ev)
      | [] => (b, if ch_closed c then Ended else Blocked)
      end
  end.

(** ** The ring *)

Section Ring.
Context {T : Type} (zero : T).

Record Ring := {
  rg_buf : list (Z * T);
  rg_next : Z;
  rg_head : nat;
  rg_size : nat;
}.

(** [NewRing]; [None] is the panic of a capacity that is not positive. *)
Definition NewRing (capacity : Z) : option Ring :=
  if (capacity <=? 0)%Z then None
  else Some {| rg_buf := replicate (Z.to_nat capacity) (0%Z, zero); rg_next := 1; rg_head := 0; rg_size := 0 |}.

Definition uint64 (z : Z) : Z := (z mod 2 ^ 64)%Z.

Definition Append (r : Ring) (v : T) : Ring :=
  let pos := ((rg_head r + rg_size r) mod length (rg_buf r))%nat in
  let buf := <[pos := (rg_next r, v)]> (rg_buf r) in
  let next := uint64 (rg_next r + 1) in
  if (rg_size r <? length (rg_buf r))%nat
  then {| rg_buf := buf; rg_next := next; rg_head := rg_head r; rg_size := S (rg_size r) |}
  else {| rg_buf := buf; rg_next := next; rg_head := ((rg_head r + 1) mod length (rg_buf r))%nat;
          rg_size := rg_size r |}.

(** The loop over the buffered entries, oldest first. *)
Definition buffered (r : Ring) : list (Z * T) :=
  map (fun i => default (0%Z, zero) (rg_buf r !! ((rg_head r + i) mod length (rg_buf r))%nat))
    (seq 0 (rg_size r)).

Definition Snapshot (r : Ring) : list T := map snd (buffered r).

Definition Since (r : Ring) (seq : Z) : list T * Z :=
  if (rg_size r =? 0)%nat then ([], seq)
  else
    let latest := uint64 (rg_next r - 1) in
    if (latest <=? seq)%Z then ([], seq)
    else (map snd (List.filter (fun it => (seq <? fst it)%Z) (buffered r)), latest).

Definition LatestSeq (r : Ring) : Z := uint64 (rg_next r - 1).
End Ring.
Arguments Ring : clear implicits.

(** ** The ring is the end of the whole history *)

Section RingProps.
Context {T : Type} (zero : T).

Inductive ring_op := RAppend (v : T) | RSnapshot | RSince (seq : Z) | RLatest.
Inductive ring_out := RNothing | RValues (l : list T) | RNumbered (l : list T) (latest : Z) | RNumber (n : Z).

Definition ring_exec (op : ring_op) (r : Ring T) : Ring T * ring_out :=
  match op with
  | RAppend v => (Append r v, RNothing)
  | RSnapshot => (r, RValues (Snapshot zero r))
  | RSince seq => (r, let '(l, n) := Since zero r seq in RNumbered l n)
  | RLatest => (r, RNumber (LatestSeq r))
  end.

(** The specification keeps everything that was appended; the entry at
    position [i] has the number [i + 1], and the window is the last [cap]. *)
Definition history_exec (cap : nat) (op : ring_op) (h : list T) : list T * ring_out :=
  match op with
  | RAppend v => (h ++ [v], RNothing)
  | RSnapshot => (h, RValues (drop (length h - cap) h))
  | RSince seq =>
      (h, if (Z.of_nat (length h) <=? seq)%Z then RNumbered [] seq
          else if (length h =? 0)%nat then RNumbered [] seq
          else RNumbered (drop (Nat.max (length h - cap) (Z.to_nat seq)) h) (Z.of_nat (length h)))
  | RLatest => (h, RNumber (Z.of_nat (length h)))
  end.

Definition ring_machine (r : Ring T) : machine ring_op ring_out := Machine (Ring T) r ring_exec.
Definition history_machine (cap : nat) : machine ring_op ring_out := Machine (list T) [] (history_exec cap).

Definition numbered (h : list T) : list (Z * T) := imap (fun i v => (Z.of_nat i + 1, v)%Z) h.

Record ring_inv (cap : nat) (r : Ring T) (h : list T) : Prop := {
  ri_cap : length (rg_buf r) = cap;
  ri_pos : 0 < cap;
  ri_next : rg_next r = (Z.of_nat (length h) + 1)%Z;
  ri_size : rg_size r = length h `min` cap;
  ri_head : rg_head r < cap;
  ri_get : forall i, i < rg_size r ->
    rg_buf r !! ((rg_head r + i) mod cap) = numbered h !! (length h - rg_size r + i);
}.

Lemma length_numbered h : length (numbered h) = length h.
Proof. apply length_imap. Qed.

Lemma numbered_app h v : numbered (h ++ [v]) = numbered h ++ [((Z.of_nat (length h) + 1)%Z, v)].
Proof. unfold numbered. rewrite imap_app. simpl. by rewrite Nat.add_0_r. Qed.

Lemma Append_inv cap r h v :
  (Z.of_nat (length h) + 2 < 2 ^ 64)%Z -> ring_inv cap r h -> ring_inv cap (Append r v) (h ++ [v]).
Proof.
  intros Hn []. unfold Append. rewrite ri_cap0.
  assert (uint64 (rg_next r + 1) = Z.of_nat (length h) + 2)%Z as Hnext
    by (rewrite ri_next0; unfold uint64; rewrite Z.mod_small; lia).
  destruct (rg_size r <? cap)%nat eqn:E; bool_hyps.
  - split; simpl; rewrite ?length_insert, ?length_app; simpl; try done; try lia.
    intros i Hi. rewrite numbered_app, ri_next0.
    rewrite (ring_put_room cap (rg_buf r) (rg_head r) (rg_size r) (numbered h)); rewrite ?length_numbered; try done; try lia.
    rewrite length_app, length_numbered. simpl. done.
  - split; simpl; rewrite ?length_insert, ?length_app; simpl; try done; try lia.
    { apply Nat.mod_upper_bound. lia. }
    assert (rg_size r = cap) as Es by lia. rewrite Es in *. intros i Hi.
    assert ((rg_head r + cap) mod cap = rg_head r) as ->.
    { replace (rg_head r + cap) with (rg_head r + 1 * cap) by lia.
      rewrite Nat.Div0.mod_add. apply Nat.mod_small. lia. }
    rewrite numbered_app, ri_next0.
    rewrite (ring_put_full cap (rg_buf r) (rg_head r) (numbered h)); rewrite ?length_numbered; try done; try lia.
    rewrite length_app, length_numbered. simpl. done.
Qed.

Lemma buffered_window cap r h : ring_inv cap r h ->
  buffered zero r = drop (length h - cap) (numbered h).
Proof.
  intros []. unfold buffered. apply list_eq. intros i.
  rewrite lookup_drop, list_lookup_fmap, ri_cap0.
  destruct (decide (i < rg_size r)) as [Hi|Hi].
  - rewrite lookup_seq_lt by lia. simpl. rewrite ri_get0 by done.
    replace (length h - rg_size r) with (length h - cap) by lia.
    destruct (lookup_lt_is_Some_2 (numbered h) (length h - cap + i)) as [e ->]; [rewrite length_numbered; lia|done].
  - rewrite lookup_seq_ge, lookup_ge_None_2 by (rewrite ?length_numbered; lia). done.
Qed.

Lemma map_snd_numbered h : map snd (numbered h) = h.
Proof.
  apply list_eq. intros i. rewrite list_lookup_fmap. unfold numbered. rewrite list_lookup_imap.
  by destruct (h !! i).
Qed.

Lemma map_snd_drop_numbered k h : map snd (drop k (numbered h)) = drop k h.
Proof. by rewrite <- skipn_map, map_snd_numbered. Qed.

(** Filtering the window by number is dropping. *)
Lemma filter_numbered k seq h : (0 <= seq)%Z ->
  map snd (List.filter (fun it => (seq <? fst it)%Z) (drop k (numbered h))) = drop (Nat.max k (Z.to_nat seq)) h.
Proof.
  intros Hs. induction h as [|v h IH] using rev_ind; [change (numbered []) with (@nil (Z * T)); by rewrite !drop_nil|].
  rewrite numbered_app. destruct (decide (k <= length h)) as [Hk|Hk].
  - rewrite drop_app_le by (rewrite length_numbered; lia). rewrite List.filter_app, map_app, IH. simpl.
    destruct (seq <? Z.of_nat (length h) + 1)%Z eqn:E; bool_hyps.
    + rewrite (drop_app_le h) by lia. done.
    + rewrite !drop_ge by (rewrite ?length_app; simpl; lia). done.
  - rewrite !drop_ge by (rewrite ?length_app, ?length_numbered; simpl; lia). done.
Qed.

Lemma NewRing_inv capacity r : NewRing zero capacity = Some r -> ring_inv (Z.to_nat capacity) r [].
Proof.
  unfold NewRing. destruct (capacity <=? 0)%Z eqn:E; [done|]. bool_hyps. intros [= <-].
  split; simpl; rewrite ?length_replicate; try done; lia.
Qed.

Lemma ring_answers cap r0 ops : forall r h,
  ring_inv cap r h -> (Z.of_nat (length h + length ops) + 2 < 2 ^ 64)%Z ->
  Forall (fun op => match op with RSince seq => (0 <= seq)%Z | _ => True end) ops ->
  answers (ring_machine r0) r ops = answers (history_machine cap) h ops.
Proof.
  induction ops as [|op ops IH]; intros r h Hi Hn Hops; [done|].
  inversion Hops as [|? ? Hop Hops']; subst. simpl in Hn.
  destruct op as [v| |seq|]; cbn [answers mexec ring_machine history_machine ring_exec history_exec].
  - f_equal. apply (IH (Append r v) (h ++ [v])); [|rewrite length_app; simpl; lia|done].
    apply Append_inv; [lia|done].
  - unfold Snapshot. rewrite (buffered_window cap r h Hi), map_snd_drop_numbered. f_equal.
    apply (IH r h); [done|lia|done].
  - assert ((let '(l, n) := Since zero r seq in RNumbered l n)
      = if (Z.of_nat (length h) <=? seq)%Z then RNumbered [] seq
        else if (length h =? 0)%nat then RNumbered [] seq
        else RNumbered (drop (Nat.max (length h - cap) (Z.to_nat seq)) h) (Z.of_nat (length h))) as ->.
    { unfold Since. rewrite (buffered_window cap r h Hi), filter_numbered by done. destruct Hi.
      rewrite ri_size0, ri_next0. unfold uint64. rewrite Z.mod_small by lia.
      replace (Z.of_nat (length h) + 1 - 1)%Z with (Z.of_nat (length h)) by lia.
      destruct (length h `min` cap =? 0)%nat eqn:E1, (length h =? 0)%nat eqn:E2; bool_hyps; try lia;
        by destruct (Z.of_nat (length h) <=? seq)%Z. }
    f_equal. apply (IH r h); [done|lia|done].
  - unfold LatestSeq. f_equal; [|apply (IH r h); [done|lia|done]].
    destruct Hi. rewrite ri_next0. unfold uint64. rewrite Z.mod_small by lia. f_equal. lia.
Qed.

(** A client of a ring of any positive capacity cannot tell it from the whole
    history showing its last entries: every snapshot is the last [capacity]
    values, every [Since] those of them with a greater number, with the number
    of the newest, for fewer than 2^64 calls. *)
Theorem ring_shows_history capacity r ops :
  NewRing zero capacity = Some r -> (Z.of_nat (length ops) + 2 < 2 ^ 64)%Z ->
  Forall (fun op => match op with RSince seq => (0 <= seq)%Z | _ => True end) ops ->
  answers (ring_machine r) r ops = answers (history_machine (Z.to_nat capacity)) [] ops.
Proof. intros Hr Hn Hops. apply ring_answers; [by apply NewRing_inv|done|done]. Qed.
End RingProps.

(** ** What a follower of a session sees *)

Inductive broker_op :=
  | OSubscribe (sid : bytes)
  | OUnsubscribe (sid : bytes) (id : nat)
  | OPublish (sid : bytes) (ev : Event)
  | ORemove (sid : bytes)
  | OReceive (id : nat).

(** One call; [None] is a panic. *)
Definition broker_exec (b : Broker) (op : broker_op) : option Broker :=
  match op with
  | OSubscribe sid => Some (Subscribe b sid).1
  | OUnsubscribe sid id => Some (unsubscribe b sid id)
  | OPublish sid ev => Publish b sid ev
  | ORemove sid => broker_Remove b sid
  | OReceive id => Some (receive b id).1
  end.

(** What a call tells its caller. *)
Inductive broker_out := ONumber (id : nat) | OReceived (r : received) | ODone | OPanics.

Definition broker_answer (b : Broker) (op : broker_op) : broker_out :=
  match op with
  | OSubscribe sid => ONumber (Subscribe b sid).2
  | OReceive id => OReceived (receive b id).2
  | _ => ODone
  end.

(** The broker for its callers; nothing follows a panic. *)
Definition broker_call (op : broker_op) (s : option Broker) : option Broker * broker_out :=
  match s ≫= (fun b => (fun b' => (b', broker_answer b op)) <$> broker_exec b op) with
  | Some (b, out) => (Some b, out)
  | None => (None, OPanics)
  end.

Definition broker_machine : machine broker_op broker_out := Machine (option Broker) (Some broker_New) broker_call.

(** The promise, follower by follower and from the calls alone: what waits for
    the follower of number [id], which hears of every call.  It follows its
    session until it gives up or the session is removed; the removal is also
    the end it will find behind what is waiting. *)
Record follower := { fo_sid : bytes; fo_live : bool; fo_ended : bool; fo_waiting : list Event }.

Definition follows (sid : bytes) (f : follower) : bool := fo_live f && bool_decide (fo_sid f = sid).

Definition hears (op : broker_op) (id : nat) (f : follower) : follower :=
  match op with
  | OSubscribe _ => f
  | OUnsubscribe sid n =>
      if bool_decide (n = id) && follows sid f
      then {| fo_sid := fo_sid f; fo_live := false; fo_ended := fo_ended f; fo_waiting := fo_waiting f |} else f
  | OPublish sid ev =>
      if follows sid f && (length (fo_waiting f) <? channelCap)%nat
      then {| fo_sid := fo_sid f; fo_live := fo_live f; fo_ended := fo_ended f; fo_waiting := fo_waiting f ++ [ev] |}
      else f
  | ORemove sid =>
      if follows sid f
      then {| fo_sid := fo_sid f; fo_live := false; fo_ended := true; fo_waiting := fo_waiting f |} else f
  | OReceive n =>
      if bool_decide (n = id)
      then {| fo_sid := fo_sid f; fo_live := fo_live f; fo_ended := fo_ended f; fo_waiting := tail (fo_waiting f) |}
      else f
  end.

Definition new_follower (sid : bytes) : follower :=
  {| fo_sid := sid; fo_live := true; fo_ended := false; fo_waiting := [] |}.

Definition finds (f : follower) : received :=
  match fo_waiting f with
  | ev :: _ => Got ev
  | [] => if fo_ended f then Ended else Blocked
  end.

Definition follower_call (op : broker_op) (fs : list follower) : list follower * broker_out :=
  (imap (hears op) fs ++ match op with OSubscribe sid => [new_follower sid] | _ => [] end,
   match op with
   | OSubscribe _ => ONumber (length fs)
   | OReceive id => OReceived (from_option finds Blocked (fs !! id))
   | _ => ODone
   end).

Definition follower_machine : machine broker_op broker_out := Machine (list follower) [] follower_call.

(** The channel of a follower. *)
Definition channel_of (f : follower) : channel := {| ch_buf := fo_waiting f; ch_closed := fo_ended f |}.

Record broker_inv (b : Broker) (fs : list follower) : Prop := {
  bi_next : br_next b = length fs;
  bi_chan : forall id, br_chans b !! id = channel_of <$> fs !! id;
  bi_subs : forall sid id, id ∈ subs_of b sid <-> exists f, fs !! id = Some f /\ follows sid f = true;
  bi_open : forall id f, fs !! id = Some f -> fo_live f = true -> fo_ended f = false;
}.

Lemma each_list (f : channel -> option channel) l : forall cs, NoDup l ->
  (forall id, id ∈ l -> exists c c', cs !! id = Some c /\ f c = Some c') ->
  exists cs', foldr (on_channel f) (Some cs) l = Some cs'
    /\ forall id, cs' !! id = if bool_decide (id ∈ l) then cs !! id ≫= f else cs !! id.
Proof.
  induction l as [|id l IH]; intros cs Hd Hf; cbn [foldr].
  { exists cs. split; [done|]. intros id. by rewrite bool_decide_eq_false_2 by apply not_elem_of_nil. }
  apply NoDup_cons in Hd as [Hid Hd].
  destruct (IH cs Hd) as (cs' & E & Hcs'); [intros j Hj; apply Hf; by right|].
  destruct (Hf id ltac:(left)) as (c & c' & E1 & E2). rewrite E. cbn.
  rewrite (Hcs' id), bool_decide_eq_false_2, E1 by done. cbn. rewrite E2. cbn.
  exists (<[id := c']> cs'). split; [done|]. intros j. destruct (decide (j = id)) as [->|Hne].
  - rewrite lookup_insert_eq, bool_decide_eq_true_2, E1 by left. done.
  - rewrite lookup_insert_ne, Hcs' by done. case_bool_decide as H1; case_bool_decide as H2; [done| |set_solver|done].
    set_solver.
Qed.

Lemma each_sub_spec (f : channel -> option channel) b sid :
  (forall id, id ∈ subs_of b sid -> exists c c', br_chans b !! id = Some c /\ f c = Some c') ->
  exists cs', each_sub f b sid = Some cs'
    /\ forall id, cs' !! id = if bool_decide (id ∈ subs_of b sid) then br_chans b !! id ≫= f else br_chans b !! id.
Proof.
  intros Hf. unfold each_sub, set_fold. cbn.
  destruct (each_list f (elements (subs_of b sid)) (br_chans b)) as (cs' & E & Hcs').
  - apply NoDup_elements.
  - intros id Hid. apply Hf. by apply elem_of_elements.
  - exists cs'. split; [done|]. intros id. rewrite Hcs'.
    by rewrite (bool_decide_ext _ _ (elem_of_elements (subs_of b sid) id)).
Qed.

Lemma subs_of_insert b sid s sid' cs n :
  subs_of {| br_subs := <[sid := s]> (br_subs b); br_chans := cs; br_next := n |} sid'
  = if bool_decide (sid' = sid) then s else subs_of b sid'.
Proof.
  unfold subs_of. cbn. case_bool_decide as E; [by rewrite E, lookup_insert_eq|].
  by rewrite lookup_insert_ne by congruence.
Qed.

Lemma subs_of_delete b sid sid' cs n :
  subs_of {| br_subs := delete sid (br_subs b); br_chans := cs; br_next := n |} sid'
  = if bool_decide (sid' = sid) then ∅ else subs_of b sid'.
Proof.
  unfold subs_of. cbn. case_bool_decide as E; [by rewrite E, lookup_delete_eq|].
  by rewrite lookup_delete_ne by congruence.
Qed.

Lemma unsubscribe_subs b sid id sid' :
  subs_of (unsubscribe b sid id) sid' = if bool_decide (sid' = sid) then subs_of b sid ∖ {[id]} else subs_of b sid'.
Proof.
  unfold unsubscribe. destruct (br_subs b !! sid) as [s|] eqn:E.
  - assert (subs_of b sid = s) as Es by (unfold subs_of; by rewrite E). rewrite Es. cbn.
    destruct (bool_decide (s ∖ {[id]} = ∅)) eqn:Eb.
    + apply bool_decide_eq_true in Eb. rewrite subs_of_delete. by case_bool_decide.
    + by rewrite subs_of_insert.
  - assert (subs_of b sid = ∅) as Es by (unfold subs_of; by rewrite E). case_bool_decide as Ed; [|done].
    subst sid'. rewrite Es. set_solver.
Qed.

Lemma follows_iff sid f : follows sid f = true <-> fo_live f = true /\ fo_sid f = sid.
Proof. unfold follows. by rewrite andb_true_iff, bool_decide_eq_true. Qed.

(** The calls that name no new follower: the broker's part of each, from its
    effect on the channels and on the sets of subscribers. *)
Lemma hears_inv op b fs b' : broker_inv b fs -> br_next b' = br_next b ->
  (forall id, br_chans b' !! id = (channel_of ∘ hears op id) <$> fs !! id) ->
  (forall sid id, id ∈ subs_of b' sid <-> exists f, fs !! id = Some f /\ follows sid (hears op id f) = true) ->
  broker_inv b' (imap (hears op) fs).
Proof.
  intros [I1 I2 I3 I4] En Hc Hs. split.
  - by rewrite length_imap, En.
  - intros id. rewrite Hc, list_lookup_imap. by destruct (fs !! id).
  - intros sid id. rewrite Hs, list_lookup_imap. destruct (fs !! id) as [f|]; cbn; naive_solver.
  - intros id f'. rewrite list_lookup_imap. destruct (fs !! id) as [f|] eqn:Ef; [|done]. cbn. intros [= <-].
    specialize (I4 id f Ef). destruct op; cbn [hears]; repeat case_match; cbn; auto; done.
Qed.

Lemma imap_subscribe sid fs : imap (hears (OSubscribe sid)) fs = fs.
Proof. apply list_eq. intros i. rewrite list_lookup_imap. by destruct (fs !! i). Qed.

Lemma Subscribe_inv b fs sid : broker_inv b fs -> broker_inv (Subscribe b sid).1 (fs ++ [new_follower sid]).
Proof.
  intros [I1 I2 I3 I4]. unfold Subscribe. cbn [fst]. split; cbn [br_next br_chans].
  - rewrite length_app, I1. cbn. lia.
  - intros id. rewrite I1. destruct (decide (id = length fs)) as [->|Hne].
    + rewrite lookup_insert_eq, list_lookup_middle; done.
    + rewrite lookup_insert_ne, I2 by done. destruct (decide (id < length fs)).
      * by rewrite lookup_app_l.
      * rewrite !lookup_ge_None_2; rewrite ?length_app; cbn; done || lia.
  - intros sid' id. rewrite subs_of_insert, I1.
    assert (forall P : follower -> Prop, (exists f, (fs ++ [new_follower sid]) !! id = Some f /\ P f)
      <-> (exists f, fs !! id = Some f /\ P f) \/ (id = length fs /\ P (new_follower sid))) as ->.
    { intros P. setoid_rewrite lookup_app_Some. setoid_rewrite list_lookup_singleton_Some. split.
      - intros (f & [Hf|[Hl [Hi <-]]] & Hp); [by left; exists f|]. right. split; [lia|done].
      - intros [(f & Hf & Hp)|[-> Hp]]; [by exists f; auto|]. eexists. split; [right; split; [lia|]|exact Hp]. split; [lia|done]. }
    rewrite <- I3, follows_iff. cbn. case_bool_decide as E; [subst; set_solver|]. naive_solver.
  - intros id f [Hf|[_ [_ <-]%list_lookup_singleton_Some]]%lookup_app_Some; [by apply (I4 id)|done].
Qed.

(** A loop over the followers of a session acts on the channel of each. *)
Lemma each_follower (g : channel -> option channel) (h : follower -> follower) b fs sid : broker_inv b fs ->
  (forall id f, fs !! id = Some f -> follows sid f = true -> g (channel_of f) = Some (channel_of (h f))) ->
  exists cs, each_sub g b sid = Some cs
    /\ forall id, cs !! id = (fun f => channel_of (if follows sid f then h f else f)) <$> fs !! id.
Proof.
  intros [I1 I2 I3 I4] Hg. destruct (each_sub_spec g b sid) as (cs & E & Hcs).
  { intros id (f & Hf & Hl)%I3. rewrite I2, Hf. cbn. by eexists _, _; split; [|apply (Hg id)]. }
  exists cs. split; [done|]. intros id. rewrite Hcs, I2. case_bool_decide as Hin.
  - apply I3 in Hin as (f & Hf & Hl). rewrite Hf. cbn. rewrite Hl. by apply (Hg id).
  - destruct (fs !! id) as [f|] eqn:Hf; [|done]. cbn. destruct (follows sid f) eqn:Hl; [|done].
    destruct Hin. apply I3. by exists f.
Qed.

Lemma Publish_inv b fs sid ev : broker_inv b fs ->
  exists b', Publish b sid ev = Some b' /\ broker_inv b' (imap (hears (OPublish sid ev)) fs).
Proof.
  intros Hi. unfold Publish.
  destruct (each_follower (offer ev) (hears (OPublish sid ev) 0) b fs sid Hi) as (cs & -> & Hcs).
  { intros id f Hf Hl. pose proof (proj1 (follows_iff _ _) Hl) as [Hv _].
    unfold offer, channel_of, hears. rewrite Hl. cbn [ch_closed ch_buf andb]. rewrite (bi_open _ _ Hi id f Hf Hv).
    destruct (_ <? _)%nat; cbn; by rewrite ?(bi_open _ _ Hi id f Hf Hv). }
  cbn. eexists. split; [done|]. apply (hears_inv _ b); [done..| |].
  - intros id. cbn [br_chans]. rewrite Hcs. destruct (fs !! id) as [f|]; [|done]. cbn. by destruct (follows sid f).
  - intros sid' id. rewrite (bi_subs _ _ Hi sid' id : _ ∈ subs_of {| br_subs := _ |} _ <-> _).
    f_equiv. intros f. cbn. by case_match.
Qed.

Lemma Remove_inv b fs sid : broker_inv b fs ->
  exists b', broker_Remove b sid = Some b' /\ broker_inv b' (imap (hears (ORemove sid)) fs).
Proof.
  intros Hi. unfold broker_Remove.
  destruct (each_follower close_channel (hears (ORemove sid) 0) b fs sid Hi) as (cs & -> & Hcs).
  { intros id f Hf Hl. pose proof (proj1 (follows_iff _ _) Hl) as [Hv _].
    unfold close_channel, channel_of, hears. rewrite Hl. cbn. by rewrite (bi_open _ _ Hi id f Hf Hv). }
  cbn. eexists. split; [done|]. apply (hears_inv _ b); [done..| |].
  - intros id. cbn [br_chans]. rewrite Hcs. destruct (fs !! id) as [f|]; [|done]. cbn. by destruct (follows sid f).
  - intros sid' id. rewrite subs_of_delete. case_bool_decide as E.
    + subst sid'. split; [set_solver|]. intros (f & _ & Hf). cbn in Hf.
      destruct (follows sid f) eqn:Hl; [by apply follows_iff in Hf as [? _]|congruence].
    + rewrite (bi_subs _ _ Hi). f_equiv. intros f. cbn. destruct (follows sid f) eqn:Hl; [|done].
      apply follows_iff in Hl as [_ Hl]. rewrite !follows_iff. cbn. naive_solver.
Qed.

Lemma unsubscribe_inv b fs sid id : broker_inv b fs ->
  broker_inv (unsubscribe b sid id) (imap (hears (OUnsubscribe sid id)) fs).
Proof.
  intros Hi. apply (hears_inv _ b); [done|unfold unsubscribe; by case_match| |].
  - intros j. assert (br_chans (unsubscribe b sid id) = br_chans b) as -> by (unfold unsubscribe; by case_match).
    rewrite (bi_chan _ _ Hi). destruct (fs !! j) as [f|]; [|done]. cbn. by case_match.
  - intros sid' j. rewrite unsubscribe_subs. case_bool_decide as E.
    + subst sid'. rewrite elem_of_difference, elem_of_singleton, (bi_subs _ _ Hi). cbn [hears].
      destruct (decide (id = j)) as [->|Hne].
      * split; [naive_solver|]. intros (f & Hf & Hl). rewrite bool_decide_eq_true_2 in Hl by done. cbn [andb] in Hl.
        destruct (follows sid f) eqn:El; [by apply follows_iff in Hl as [? _]|congruence].
      * rewrite bool_decide_eq_false_2 by done. cbn [andb]. naive_solver.
    + rewrite (bi_subs _ _ Hi). f_equiv. intros f. cbn. destruct (bool_decide (id = j)); [|done]. cbn.
      destruct (follows sid f) eqn:Hl; [|done]. apply follows_iff in Hl as [_ Hl]. rewrite !follows_iff. cbn. naive_solver.
Qed.

Lemma receive_inv b fs id : broker_inv b fs -> broker_inv (receive b id).1 (imap (hears (OReceive id)) fs).
Proof.
  intros Hi. assert (forall sid j f, follows sid (hears (OReceive id) j f) = follows sid f) as Hf
    by (intros; cbn; by case_match).
  apply (hears_inv _ b); [done|unfold receive; by repeat case_match| |].
  - intros j. pose proof (bi_chan _ _ Hi) as Hc. unfold receive. rewrite Hc.
    destruct (fs !! id) as [f|] eqn:Ef; cbn.
    + destruct (decide (j = id)) as [->|Hne].
      * rewrite Ef. cbn. rewrite bool_decide_eq_true_2 by done. destruct (fo_waiting f) as [|ev l] eqn:Ew; cbn [fst br_chans].
        -- rewrite Hc, Ef. cbn. unfold channel_of. by rewrite Ew.
        -- by rewrite lookup_insert_eq.
      * destruct (fo_waiting f); cbn [fst br_chans]; rewrite ?lookup_insert_ne, Hc by done;
          destruct (fs !! j); cbn; rewrite ?bool_decide_eq_false_2 by done; done.
    + rewrite Hc. destruct (fs !! j) as [f|] eqn:Ej; cbn; [|done]. rewrite bool_decide_eq_false_2; [done|congruence].
  - intros sid j. setoid_rewrite Hf. rewrite <- (bi_subs _ _ Hi). unfold receive. by repeat case_match.
Qed.

Lemma broker_exec_inv b fs op : broker_inv b fs ->
  exists b', broker_exec b op = Some b' /\ broker_inv b' (follower_call op fs).1.
Proof.
  intros Hi. destruct op; cbn [broker_exec follower_call fst]; rewrite ?app_nil_r.
  - eexists. split; [done|]. rewrite imap_subscribe. by apply Subscribe_inv.
  - eexists. split; [done|]. by apply unsubscribe_inv.
  - by apply Publish_inv.
  - by apply Remove_inv.
  - eexists. split; [done|]. by apply receive_inv.
Qed.

Lemma broker_answers b fs op : broker_inv b fs -> broker_answer b op = (follower_call op fs).2.
Proof.
  intros Hi. destruct op as [| | | |id]; cbn; try done; [by rewrite (bi_next _ _ Hi)|].
  f_equal. unfold receive. rewrite (bi_chan _ _ Hi). destruct (fs !! id) as [f|]; [|done]. cbn. unfold finds.
  by destruct (fo_waiting f).
Qed.

Lemma broker_inv_New : broker_inv broker_New [].
Proof. split; cbn; [done|done|set_solver|done]. Qed.

(** C40 Over any sequence of subscriptions, departures, publications, removals
    and receives, the callers cannot tell the broker from the promise computed
    from the calls alone: no call panics, every subscription gets the next
    number, and each follower receives, in order and whatever the other
    followers do, the events published to its session between its subscription
    and its departure or the removal, less those that met a buffer with 32
    unread ones, and then, after a removal, the end. *)
Theorem follower_sees_session : refines broker_machine follower_machine.
Proof.
  apply (simulation_refines broker_machine follower_machine
    (fun s fs => exists b, s = Some b /\ broker_inv b fs)).
  - eexists. split; [done|]. apply broker_inv_New.
  - intros op s fs (b & -> & Hi). destruct (broker_exec_inv b fs op Hi) as (b' & E & Hi').
    cbn [mexec broker_machine follower_machine]. unfold broker_call. cbn [mbind option_bind]. rewrite E.
    cbn [fmap option_fmap option_map fst snd]. split; [by exists b'|]. by apply broker_answers.
Qed.
