(* ===== verification/SessionLog.v ===== *)
(** * The session log: src/gateway/session/eventlog/v1 and src/gateway/session/wal

    Every event of a session is encoded ([Encode]) and appended to a write
    ahead log, a header first; readers walk the log by index and decode
    ([Decode]).  The file-backed log of tidwall/wal is the class [WalLib], what
    its documentation promises the class [WalLaws]; the header's JSON is the
    class [HeaderJSON]. *)

From S2P Require Import Prelude GoStrings GoText.

#[local] Open Scope Z_scope.

(** ** Events: eventlog/v1/eventlog.go *)

Definition EventType := byte.
Definition InputType : EventType := "i"%byte.
Definition OutputType : EventType := "o"%byte.
Definition ErrorType : EventType := "e"%byte.

Definition commitErrKeyName : bytes := B "__commit_error".
Definition Version : bytes := B "v1".

(** [elTime] is the event's instant in nanoseconds since 1970, UTC.  A missing
    key is the nil of [GetMetadata]. *)
Record EventLog := {
  elTime : Z;
  elType : EventType;
  elPayload : bytes;
  elMetadata : gmap bytes bytes;
}.

(** [New]: nil maps and nil slices, the [None]s, become empty ones. *)
Definition New (eventTime : Z) (eventType : EventType) (payload : option bytes)
    (metadata : option (gmap bytes (option bytes))) : EventLog :=
  {| elTime := eventTime; elType := eventType; elPayload := default [] payload;
     elMetadata := default [] <$> default ∅ metadata |}.

Definition NewCommitError (eventTime : Z) (errPayload : bytes) : EventLog :=
  {| elTime := eventTime; elType := ErrorType; elPayload := errPayload;
     elMetadata := {[ commitErrKeyName := B "1" ]} |}.

Definition WithMetadata (e : EventLog) (key val : bytes) : EventLog :=
  {| elTime := elTime e; elType := elType e; elPayload := elPayload e;
     elMetadata := <[key := val]> (elMetadata e) |}.

Definition GetMetadata (e : EventLog) (key : bytes) : option bytes := elMetadata e !! key.
Definition IsCommitErr (e : EventLog) : bool :=
  (0 <? length (default [] (GetMetadata e commitErrKeyName)))%nat.

Definition len (l : bytes) : Z := Z.of_nat (length l).

Definition entry_size (kv : bytes * bytes) : Z := 4 + (len kv.1 + 1) + (len kv.2 + 1).
Definition entries_size (l : list (bytes * bytes)) : Z := foldr (fun kv n => entry_size kv + n) 0 l.

Definition logSize (e : EventLog) : Z :=
  (4 + 4) + (1 + 8) + (len (elPayload e) + 1) + entries_size (map_to_list (elMetadata e)).

Definition known_type (t : EventType) : bool :=
  Byte.eqb t InputType || Byte.eqb t OutputType || Byte.eqb t ErrorType.

(** One turn of the loop over the metadata; the delimiters are the zero bytes
    the buffer was made with. *)
Definition encode_entry (kv : bytes * bytes) : bytes :=
  put_be_u32 (len kv.1 + 1 + len kv.2 + 1) ++ kv.1 ++ [x00] ++ kv.2 ++ [x00].

(** [Encode]; [order] is the order in which the range visits the metadata.
    [None] is [ErrUnknownEventType]. *)
Definition Encode (order : list (bytes * bytes)) (e : EventLog) : option bytes :=
  if known_type (elType e) then
    Some (put_be_u32 (logSize e) ++ put_be_u32 (len (elPayload e)) ++ [elType e]
          ++ put_be 8 (elTime e) ++ elPayload e ++ [x00] ++ concat (map encode_entry order))
  else None.

Inductive DecodeError :=
  | ErrDecodeMinimumLength
  | ErrHeaderLengthLargerThanLog
  | ErrPayloadLargerThanLog
  | ErrReachedMaxPosition (pos full : Z)
  | ErrMissingMetadataLengthHeader
  | ErrMetadataLargerThanLog.

(** How a call ends: with a value, with an error, with a run-time panic, or
    not within the turns given to its loop. *)
Inductive outcome (A : Type) :=
  | Returns (a : A)
  | Fails (e : DecodeError)
  | Panics
  | Spins.
Arguments Returns {A} a.
Arguments Fails {A} e.
Arguments Panics {A}.
Arguments Spins {A}.

Definition uint32 (z : Z) : Z := z mod 2 ^ 32.

(** [data[lo:hi]] of bounds that were checked against the length, but may have
    wrapped around in [uint32]; [None] is the panic. *)
Definition slice_of (lo hi : Z) (data : bytes) : option bytes :=
  if (lo <=? hi) && (hi <=? len data) then Some (slice (Z.to_nat lo) (Z.to_nat hi) data) else None.

(** The key and the value of one metadata entry; [None] is a panic, of
    [metadataPayload[:-1]] or of [val[:-1]]. *)
Definition split_entry (payload : bytes) : option (bytes * bytes) :=
  match IndexByte payload x00 with
  | None => None
  | Some i =>
      let val := drop (S i) payload in
      if (length val =? 0)%nat then None else Some (take i payload, take (length val - 1) val)
  end.

Fixpoint decode_loop (fuel : nat) (data : bytes) (full pos : Z) (e : EventLog) : outcome EventLog :=
  if pos =? full then Returns e
  else if full <? pos then Fails (ErrReachedMaxPosition pos full)
  else
    match fuel with
    | O => Spins
    | S fuel =>
        if (length (drop (Z.to_nat pos) data) <? 4)%nat then Fails ErrMissingMetadataLengthHeader
        else
          match slice_of pos (uint32 (pos + 4)) data with
          | None => Panics
          | Some head =>
              let metadataLength := be_u32 head in
              let pos := uint32 (pos + 4) in
              if len (drop (Z.to_nat pos) data) <? metadataLength then Fails ErrMetadataLargerThanLog
              else
                match slice_of pos (uint32 (pos + metadataLength)) data with
                | None => Panics
                | Some metadataPayload =>
                    match split_entry metadataPayload with
                    | None => Panics
                    | Some (key, val) =>
                        decode_loop fuel data full (uint32 (pos + metadataLength))
                          (WithMetadata e key val)
                    end
                end
          end
    end.

(** [Decode]; every turn of the loop takes at least the four bytes of a
    length. *)
Definition Decode (data : bytes) : outcome EventLog :=
  if (length data <? 18)%nat then Fails ErrDecodeMinimumLength
  else
    let fullLogSize := be_u32 data in
    let payloadSize := be_u32 (drop 4 data) in
    if len data <? fullLogSize then Fails ErrHeaderLengthLargerThanLog
    else if len (drop 17 data) <? payloadSize then Fails ErrPayloadLargerThanLog
    else
      match slice_of 17 (uint32 (17 + payloadSize)) data with
      | None => Panics
      | Some payload =>
          decode_loop (length data) data fullLogSize (uint32 (payloadSize + 17 + 1))
            {| elTime := wrap_int64 (get_be (take 8 (drop 9 data))); elType := byte_at data 8;
               elPayload := payload; elMetadata := ∅ |}
      end.

(** ** The write ahead log: wal/wal.go, wal/header.go *)

Inductive WalError := ErrNotFound | WalFailure (reason : bytes).

(** tidwall/wal.  [wal_entries] is the view its documentation speaks of: the
    entries the log holds, that at index 1 first. *)
Class WalLib := {
  Log : Type;
  wal_entries : Log -> list bytes;
  wal_Write : Log -> Z -> bytes -> Log * option WalError;
  wal_Read : Log -> Z -> WalError + bytes;
  wal_Close : Log -> Log;
}.

(** What its documentation says: an entry is written behind the last one or
    not at all, reading answers the entry of the index, and only an index past
    the end is not found.  Reading and writing may fail otherwise. *)
Class WalLaws `{WalLib} := {
  wal_write_appends l i d l' : wal_Write l i d = (l', None) ->
    i = Z.of_nat (length (wal_entries l)) + 1 /\ wal_entries l' = wal_entries l ++ [d];
  wal_write_fails l i d l' e : wal_Write l i d = (l', Some e) -> wal_entries l' = wal_entries l;
  wal_read_entry l i d : wal_Read l i = inr d -> 1 <= i /\ wal_entries l !! Z.to_nat (i - 1) = Some d;
  wal_read_end l i : 1 <= i -> wal_Read l i = inl ErrNotFound -> Z.of_nat (length (wal_entries l)) < i;
  wal_close_keeps l : wal_entries (wal_Close l) = wal_entries l;
}.

Definition defaultHeaderIndex : Z := 1.
Definition defaultDataIndex : Z := 2.
Definition DefaultMaxRead : Z := 110 * 1024 * 1024.

Record Header := {
  hdEventLogVersion : bytes;
  hdOrgID : bytes;
  hdSessionID : bytes;
  hdStatus : bytes;
  hdStartDate : option Z;
}.

(** [Validate]: whether it returns no error. *)
Definition Validate (h : Header) : bool := negb ((hdOrgID h =s []) || (hdSessionID h =s [])).

(** encoding/json on a header. *)
Class HeaderJSON := {
  header_Marshal : Header -> option bytes;
  header_Unmarshal : bytes -> option Header;
}.

(** The start date survives the round trip. *)
Class HeaderLaws `{HeaderJSON} := {
  header_start h d : header_Marshal h = Some d ->
    exists h', header_Unmarshal d = Some h' /\ hdStartDate h' = hdStartDate h;
}.

Section Wal.
Context `{WalLib} `{HeaderJSON}.

Record WalLog := { wlLog : Log; wlIndex : Z }.

Inductive LogError :=
  | ErrExpectHeader
  | ErrHeaderAlreadyWritten
  | MissingValues
  | JSONFailed
  | EncodeFailed
  | WalFailed (e : WalError).

(** [Open], of the answer of the library. *)
Definition Open (opened : WalError + Log) : LogError + WalLog :=
  match opened with
  | inl e => inl (WalFailed e)
  | inr l => inr {| wlLog := l; wlIndex := defaultHeaderIndex |}
  end.

Definition append (w : WalLog) (data : bytes) : WalLog * option LogError :=
  let '(l, err) := wal_Write (wlLog w) (wlIndex w) data in
  match err with
  | Some e => ({| wlLog := l; wlIndex := wlIndex w |}, Some (WalFailed e))
  | None => ({| wlLog := l; wlIndex := wlIndex w + 1 |}, None)
  end.

Definition WriteHeader (w : WalLog) (h : Header) : WalLog * option LogError :=
  if defaultHeaderIndex <? wlIndex w then (w, Some ErrHeaderAlreadyWritten)
  else if negb (Validate h) then (w, Some MissingValues)
  else
    match header_Marshal h with
    | None => (w, Some JSONFailed)
    | Some encHeader => append w encHeader
    end.

Definition OpenWriteHeader (opened : WalError + Log) (h : Header) : LogError + WalLog :=
  match Open opened with
  | inl e => inl e
  | inr w => let '(w, err) := WriteHeader w h in match err with Some e => inl e | None => inr w end
  end.

Definition read_header (w : WalLog) : LogError + Header :=
  match wal_Read (wlLog w) defaultHeaderIndex with
  | inl e => inl (WalFailed e)
  | inr data => match header_Unmarshal data with Some h => inr h | None => inl JSONFailed end
  end.

(** [Write], of what the event's [Encode] gave. *)
Definition Write (w : WalLog) (encoded : option bytes) : WalLog * option LogError :=
  if wlIndex w =? defaultHeaderIndex then (w, Some ErrExpectHeader)
  else match encoded with None => (w, Some EncodeFailed) | Some data => append w data end.

(** How a walk over the log ends: at the end of the log, at a failure of the
    log, with an error of the reader, or not within the turns given. *)
Inductive walk_end (E : Type) := AtEnd | LogFailed (e : WalError) | Stopped (e : E) | Unfinished.
Arguments AtEnd {E}.
Arguments LogFailed {E} e.
Arguments Stopped {E} e.
Arguments Unfinished {E}.

Section Readers.
Context {S E : Type} (readerFn : S -> bytes -> S * option E).

Fixpoint from_loop (fuel : nat) (l : Log) (i lastIndex : Z) (s : S) : S * Z * walk_end E :=
  match fuel with
  | O => (s, lastIndex, Unfinished)
  | Datatypes.S fuel =>
      match wal_Read l i with
      | inl ErrNotFound => (s, lastIndex, AtEnd)
      | inl e => (s, lastIndex, LogFailed e)
      | inr data =>
          let '(s, err) := readerFn s data in
          match err with
          | Some e => (s, lastIndex, Stopped e)
          | None => from_loop fuel l (i + 1) i s
          end
      end
  end.

(** [ReadFrom]; the log's length bounds the turns. *)
Definition ReadFrom (w : WalLog) (startIndex : Z) (s : S) : S * Z * walk_end E :=
  let startIndex := if startIndex <? defaultDataIndex then defaultDataIndex else startIndex in
  from_loop (Datatypes.S (length (wal_entries (wlLog w)))) (wlLog w) startIndex (startIndex - 1) s.

Fixpoint at_most_loop (fuel : nat) (l : Log) (max i readBytes : Z) (s : S) : S * bool * walk_end E :=
  if max <? readBytes then (s, true, AtEnd)
  else
    match fuel with
    | O => (s, false, Unfinished)
    | Datatypes.S fuel =>
        match wal_Read l i with
        | inl ErrNotFound => (s, false, AtEnd)
        | inl e => (s, false, LogFailed e)
        | inr data =>
            let '(s, err) := readerFn s data in
            match err with
            | Some e => (s, false, Stopped e)
            | None => at_most_loop fuel l max (i + 1) (uint32 (readBytes + len data)) s
            end
        end
    end.

Definition ReadAtMost (w : WalLog) (max : Z) (s : S) : S * bool * walk_end E :=
  at_most_loop (Datatypes.S (length (wal_entries (wlLog w)))) (wlLog w) max defaultDataIndex 0 s.
End Readers.
End Wal.
Arguments AtEnd {E}.
Arguments LogFailed {E} e.
Arguments Stopped {E} e.
Arguments Unfinished {E}.

(** ** Encoding and decoding *)

Lemma len_app l k : len (l ++ k) = len l + len k.
Proof. unfold len. rewrite length_app. lia. Qed.

Lemma len_nonneg l : 0 <= len l.
Proof. unfold len. lia. Qed.

Lemma uint32_small z : 0 <= z < 2 ^ 32 -> uint32 z = z.
Proof. apply Z.mod_small. Qed.

Lemma entries_size_nonneg l : 0 <= entries_size l.
Proof.
  induction l as [|kv l IH]; cbn [entries_size foldr]; [lia|]. fold (entries_size l).
  unfold entry_size. pose proof (len_nonneg kv.1). pose proof (len_nonneg kv.2). lia.
Qed.

#[export] Instance entries_size_perm : Proper ((≡ₚ) ==> (=)) entries_size.
Proof.
  intros l k P. induction P as [|kv l k P IH|x y l|l k m P1 IH1 P2 IH2]; [done| | |congruence];
    cbn [entries_size foldr]; fold (entries_size l); [fold (entries_size k); by rewrite IH|lia].
Qed.

Lemma len_encode_entry kv : len (encode_entry kv) = entry_size kv.
Proof. unfold encode_entry. rewrite !len_app. unfold entry_size, len. cbn. lia. Qed.
#[local] Arguments len : simpl never.

Lemma len_encode_entries l : len (concat (map encode_entry l)) = entries_size l.
Proof.
  induction l as [|kv l IH]; [done|]. cbn [map concat entries_size foldr].
  rewrite len_app, len_encode_entry, IH. done.
Qed.

(** The two halves of an entry come back, whatever bytes the value holds. *)
Lemma split_entry_app (k v : bytes) : x00 ∉ k -> split_entry (k ++ [x00] ++ v ++ [x00]) = Some (k, v).
Proof.
  intros Hk. unfold split_entry. cbn [app]. rewrite IndexByte_app by done.
  assert (drop (S (length k)) (k ++ x00 :: v ++ [x00]) = v ++ [x00]) as ->.
  { rewrite drop_app_ge by lia. by replace (S (length k) - length k)%nat with 1%nat by lia. }
  rewrite length_app. cbn [length]. rewrite Nat.add_comm. cbn [Nat.eqb Nat.add Nat.sub].
  rewrite Nat.sub_0_r, !take_app_length. done.
Qed.

Lemma slice_of_app (pre mid post : bytes) lo hi :
  lo = len pre -> hi = len pre + len mid -> slice_of lo hi (pre ++ mid ++ post) = Some mid.
Proof.
  intros -> ->. unfold slice_of. rewrite !len_app.
  pose proof (len_nonneg mid). pose proof (len_nonneg post).
  replace (len pre <=? len pre + len mid) with true by (symmetry; apply Z.leb_le; lia).
  replace (len pre + len mid <=? _) with true by (symmetry; apply Z.leb_le; lia).
  cbn [andb]. f_equal. unfold slice, len. rewrite Nat2Z.id, drop_app_length.
  replace (_ - _)%nat with (length mid) by lia. apply take_app_length.
Qed.

Lemma drop_len (pre post : bytes) : drop (Z.to_nat (len pre)) (pre ++ post) = post.
Proof. unfold len. rewrite Nat2Z.id. apply drop_app_length. Qed.

(** The loop reads the entries one after the other. *)
Lemma decode_entries order : forall fuel pre post full e,
  Forall (fun kv => x00 ∉ kv.1) order ->
  full = len pre + entries_size order -> full < 2 ^ 32 -> (length order <= fuel)%nat ->
  decode_loop fuel (pre ++ concat (map encode_entry order) ++ post) full (len pre) e
  = Returns (fold_left (fun e kv => WithMetadata e kv.1 kv.2) order e).
Proof.
  induction order as [|[k v] order IH]; intros fuel pre post full e Hk Hfull Hb Hf.
  { cbn [entries_size foldr] in Hfull. destruct fuel; cbn [decode_loop];
      (replace (len pre =? full) with true by (symmetry; apply Z.eqb_eq; lia)); done. }
  cbn [entries_size foldr] in Hfull. fold (entries_size order) in Hfull.
  pose proof (entries_size_nonneg order). pose proof (len_nonneg pre).
  pose proof (len_nonneg k). pose proof (len_nonneg v). unfold entry_size in Hfull. cbn [fst snd] in Hfull.
  destruct fuel as [|fuel]; [cbn in Hf; lia|]. cbn [decode_loop].
  replace (len pre =? full) with false by (symmetry; apply Z.eqb_neq; lia).
  replace (full <? len pre) with false by (symmetry; apply Z.ltb_ge; lia).
  cbn [map concat].
  set (n := len k + 1 + len v + 1). set (body := k ++ [x00] ++ v ++ [x00]).
  set (rest := concat (map encode_entry order) ++ post).
  assert (0 <= n /\ len pre + 4 + n + entries_size order = full) as [Hn0 Hn1] by (unfold n; lia).
  assert ((encode_entry (k, v) ++ concat (map encode_entry order)) ++ post = put_be_u32 n ++ body ++ rest)
    as -> by (unfold rest; rewrite <- app_assoc; change (encode_entry (k, v)) with (put_be_u32 n ++ body);
              by rewrite <- app_assoc).
  rewrite drop_len.
  assert (len body = n) as Hn by (unfold body, n; rewrite !len_app; change (len [x00]) with 1; lia).
  replace (length (put_be_u32 n ++ body ++ rest) <? 4)%nat with false
    by (symmetry; apply Nat.ltb_ge; rewrite length_app, length_put_be_u32; lia).
  rewrite !(uint32_small (len pre + 4)) by lia.
  rewrite (slice_of_app pre (put_be_u32 n) (body ++ rest)) by done.
  replace (be_u32 (put_be_u32 n)) with n
    by (rewrite <- (app_nil_r (put_be_u32 n)); symmetry; apply be_u32_put; lia).
  rewrite (app_assoc pre), !(uint32_small (len pre + 4 + n)) by lia.
  assert (len (pre ++ put_be_u32 n) = len pre + 4) as E4 by (rewrite len_app; done).
  rewrite <- E4, drop_len, len_app, Hn. pose proof (len_nonneg rest).
  replace (n + len rest <? n) with false by (symmetry; apply Z.ltb_ge; lia).
  rewrite (slice_of_app _ body rest) by (rewrite ?Hn; done).
  inversion Hk as [|? ? Hk1 Hk2]; subst. unfold body. rewrite split_entry_app by done. fold body.
  rewrite (app_assoc _ body). unfold rest.
  assert (len (pre ++ put_be_u32 n) + n = len ((pre ++ put_be_u32 n) ++ body)) as ->
    by (rewrite (len_app _ body), Hn; done).
  apply IH; [done| |lia|cbn in Hf; lia].
  rewrite (len_app _ body), E4, Hn. unfold entry_size. cbn [fst snd]. lia.
Qed.

Lemma fold_insert (l : list (bytes * bytes)) (m : gmap bytes bytes) : NoDup l.*1 ->
  fold_left (fun m kv => <[kv.1 := kv.2]> m) l m = list_to_map l ∪ m.
Proof.
  revert m. induction l as [|[k v] l IH]; intros m Hd; cbn; [by rewrite map_empty_union|].
  apply NoDup_cons in Hd as [Hk Hd]. rewrite IH by done.
  rewrite <- insert_union_r by (by apply not_elem_of_list_to_map). apply insert_union_l.
Qed.

Lemma fold_metadata l e :
  fold_left (fun e kv => WithMetadata e kv.1 kv.2) l e
  = {| elTime := elTime e; elType := elType e; elPayload := elPayload e;
       elMetadata := fold_left (fun m kv => <[kv.1 := kv.2]> m) l (elMetadata e) |}.
Proof. revert e. induction l as [|kv l IH]; intros e; cbn; [by destruct e|]. by rewrite IH. Qed.

(** What an event has to satisfy for its log to be readable: a size of 32
    bits, an instant [UnixNano] can express, and keys without the delimiter. *)
Record encodable (e : EventLog) : Prop := {
  en_size : logSize e < 2 ^ 32;
  en_time : -2 ^ 63 <= elTime e < 2 ^ 63;
  en_keys : map_Forall (fun k _ => x00 ∉ k) (elMetadata e);
}.

Lemma get_be_int64 t : -2 ^ 63 <= t < 2 ^ 63 -> wrap_int64 (get_be (put_be 8 t)) = t.
Proof.
  intros Ht. rewrite get_put_be. change (256 ^ Z.of_nat 8) with (2 ^ 64). unfold wrap_int64.
  rewrite Z.add_mod_idemp_l by lia. rewrite Z.mod_small by lia. lia.
Qed.

Lemma decode_encode e order data extra :
  encodable e -> order ≡ₚ map_to_list (elMetadata e) -> Encode order e = Some data ->
  len data = logSize e /\ Decode (data ++ extra) = Returns e.
Proof.
  intros [Hs Ht Hk] Ho. unfold Encode. destruct (known_type (elType e)) eqn:Ek; [|done].
  intros E%(inj Some). subst data. set (body := concat (map encode_entry order)).
  assert (len body = entries_size (map_to_list (elMetadata e))) as Hbody
    by (unfold body; rewrite len_encode_entries, Ho; done).
  pose proof (entries_size_nonneg (map_to_list (elMetadata e))) as H0. pose proof (len_nonneg (elPayload e)).
  pose proof (len_nonneg extra).
  assert (logSize e = 18 + len (elPayload e) + len body) as Hsize by (unfold logSize; lia).
  set (n := logSize e) in *. set (head := put_be_u32 n ++ put_be_u32 (len (elPayload e)) ++ [elType e] ++ put_be 8 (elTime e)).
  assert (len head = 17) as Hhead by done.
  split.
  { rewrite !len_app, Hsize. change (len (put_be_u32 n)) with 4. change (len (put_be_u32 _)) with 4.
    change (len (put_be 8 _)) with 8. change (len [_]) with 1. lia. }
  set (data := _ ++ extra).
  assert (data = head ++ elPayload e ++ [x00] ++ body ++ extra) as Edata
    by (unfold data, head; by rewrite <- !app_assoc).
  assert (len data = n + len extra) as Hlen
    by (rewrite Edata, !len_app, Hhead; change (len [x00]) with 1; lia).
  unfold Decode.
  replace (length data <? 18)%nat with false by (symmetry; apply Nat.ltb_ge; unfold len in *; lia).
  assert (be_u32 data = n) as -> by (unfold data; rewrite <- app_assoc; apply be_u32_put; lia).
  assert (be_u32 (drop 4 data) = len (elPayload e)) as ->.
  { rewrite Edata. unfold head. change (drop 4 _) with (put_be_u32 (len (elPayload e)) ++
      ([elType e] ++ put_be 8 (elTime e)) ++ elPayload e ++ [x00] ++ body ++ extra). apply be_u32_put. lia. }
  replace (len data <? n) with false by (symmetry; apply Z.ltb_ge; lia).
  assert (drop 17 data = elPayload e ++ [x00] ++ body ++ extra) as ->
    by (rewrite Edata; exact (drop_len head _)).
  rewrite !len_app, !uint32_small by lia.
  replace (_ <? len (elPayload e)) with false
    by (symmetry; apply Z.ltb_ge; pose proof (len_nonneg body); change (len [x00]) with 1; lia).
  assert (slice_of 17 (17 + len (elPayload e)) data = Some (elPayload e)) as ->
    by (rewrite Edata; apply slice_of_app; lia).
  assert (take 8 (drop 9 data) = put_be 8 (elTime e)) as -> by (rewrite Edata; done).
  assert (byte_at data 8 = elType e) as -> by (rewrite Edata; done).
  rewrite get_be_int64 by done.
  assert (data = (head ++ elPayload e ++ [x00]) ++ concat (map encode_entry order) ++ extra) as ->
    by (rewrite Edata; by rewrite <- !app_assoc).
  assert (len (elPayload e) + 17 + 1 = len (head ++ elPayload e ++ [x00])) as ->
    by (rewrite !len_app, Hhead; change (len [x00]) with 1; lia).
  rewrite decode_entries.
  - rewrite fold_metadata. cbn [elMetadata elTime elType elPayload].
    assert (NoDup order.*1) as Hd by (rewrite Ho; apply NoDup_fst_map_to_list).
    rewrite fold_insert, map_union_empty by done. rewrite (list_to_map_proper _ _ Hd Ho), list_to_map_to_list.
    by destruct e.
  - apply Forall_forall. intros [k v] Hin. rewrite Ho in Hin. apply elem_of_map_to_list in Hin.
    by apply Hk in Hin.
  - rewrite !len_app, Hhead, Ho, <- Hbody. change (len [x00]) with 1. lia.
  - lia.
  - rewrite !length_app. enough (length order <= length (concat (map encode_entry order)))%nat by lia.
    clear. induction order as [|kv order IH]; [done|]. cbn [map concat length]. rewrite length_app.
    unfold encode_entry at 1. rewrite length_app, length_put_be_u32. lia.
Qed.

Lemma slice_of_some lo hi data s : slice_of lo hi data = Some s -> lo <= hi <= len data.
Proof. unfold slice_of. destruct (_ && _) eqn:E; [|done]. bool_hyps. lia. Qed.

Lemma decode_loop_ends fuel : forall data full pos e,
  len data < 2 ^ 32 -> 0 <= pos -> full <= len data -> full - pos <= Z.of_nat fuel ->
  decode_loop fuel data full pos e <> Spins.
Proof.
  induction fuel as [|fuel IH]; intros data full pos e Hd Hp Hf Hm; cbn [decode_loop];
    (destruct (pos =? full) eqn:E1; [done|]); (destruct (full <? pos) eqn:E2; [done|]); bool_hyps; [lia|].
  case_match; [done|]. case_match eqn:E3; [|done]. apply slice_of_some in E3.
  case_match; [done|]. case_match eqn:E4; [|done]. apply slice_of_some in E4.
  destruct (split_entry _) as [[k v]|]; [|done].
  assert (uint32 (pos + 4) = pos + 4) as E5.
  { apply uint32_small. unfold uint32 in E3. destruct (Z_lt_ge_dec (pos + 4) (2 ^ 32)); [lia|].
    assert ((pos + 4) mod 2 ^ 32 = pos + 4 - 2 ^ 32); [|lia].
    symmetry. apply (Z.mod_unique _ _ 1); lia. }
  apply IH; lia.
Qed.

(** On any bytes shorter than four gigabytes the decoder ends. *)
Lemma decode_ends data : len data < 2 ^ 32 -> Decode data <> Spins.
Proof.
  intros Hd. unfold Decode. case_match; [done|]. case_match eqn:E1; [done|]. case_match; [done|].
  case_match; [|done]. bool_hyps. apply decode_loop_ends; [done| |lia|].
  - apply Z.mod_pos_bound. lia.
  - pose proof (Z.mod_pos_bound (be_u32 (drop 4 data) + 17 + 1) (2 ^ 32) ltac:(lia)).
    unfold uint32, len in *. lia.
Qed.

(** An entry without a delimiter is not refused: slicing its key panics. *)
Lemma keyless_entry_panics :
  Decode (put_be_u32 23 ++ put_be_u32 0 ++ [InputType] ++ put_be 8 0 ++ [x00] ++ put_be_u32 1 ++ B "k")
  = Panics.
Proof. vm_compute. reflexivity. Qed.

(** ** Walking the log *)

Section WalProps.
Context `{WalLaws} `{HeaderJSON}.

(** The number the next entry gets; every [WalLog] a writer opened on an empty
    log has it. *)
Definition log_inv (w : WalLog) : Prop := wlIndex w = Z.of_nat (length (wal_entries (wlLog w))) + 1.

Lemma append_spec w d w' err : log_inv w -> append w d = (w', err) ->
  log_inv w' /\
  match err with
  | None => wal_entries (wlLog w') = wal_entries (wlLog w) ++ [d]
  | Some _ => wal_entries (wlLog w') = wal_entries (wlLog w)
  end.
Proof.
  unfold append, log_inv. intros Hi. destruct (wal_Write _ _ _) as [l [e|]] eqn:E; intros [= <- <-]; cbn.
  - apply wal_write_fails in E. rewrite E. done.
  - apply wal_write_appends in E as [_ E]. rewrite E, length_app. cbn. split; [lia|done].
Qed.

(** What a reader makes of a list of entries: its state, how many it took
    without an error, and the error. *)
Fixpoint feed {S E} (f : S -> bytes -> S * option E) (s : S) (ds : list bytes) : S * nat * option E :=
  match ds with
  | [] => (s, 0%nat, None)
  | d :: ds =>
      let '(s, err) := f s d in
      match err with
      | Some e => (s, 0%nat, Some e)
      | None => let '(s, n, err) := feed f s ds in (s, Datatypes.S n, err)
      end
  end.

(** How a walk ends, from what the reader said of the entries [ds] it was given
    and of those there are. *)
Definition walk_ok {E} (wend : walk_end E) (err : option E) (given there : list bytes) : Prop :=
  match wend with
  | AtEnd => err = None /\ given = there
  | LogFailed _ => err = None
  | Stopped e => err = Some e
  | Unfinished => False
  end.

(** The loop of [ReadFrom] is [feed] on a run of the entries from [i] on, on all
    of them when it stops at the end of the log. *)
Lemma from_loop_spec {S E} (f : S -> bytes -> S * option E) l fuel : forall i s,
  1 <= i -> (0 < fuel)%nat -> Z.of_nat (length (wal_entries l)) + 1 - i < Z.of_nat fuel ->
  exists k s' n err wend,
    feed f s (take k (drop (Z.to_nat (i - 1)) (wal_entries l))) = (s', n, err)
    /\ from_loop f fuel l i (i - 1) s = (s', i - 1 + Z.of_nat n, wend)
    /\ walk_ok wend err (take k (drop (Z.to_nat (i - 1)) (wal_entries l))) (drop (Z.to_nat (i - 1)) (wal_entries l)).
Proof.
  induction fuel as [|fuel IH]; intros i s Hi Hf Hm; [lia|]. cbn [from_loop].
  destruct (wal_Read l i) as [e|d] eqn:Er.
  { exists 0%nat, s, 0%nat, None, (match e with ErrNotFound => AtEnd | _ => LogFailed e end).
    rewrite take_0. cbn [feed]. split; [done|]. rewrite Z.add_0_r.
    destruct e; (split; [done|]); cbn [walk_ok]; [|done]. apply wal_read_end in Er; [|done].
    split; [done|]. symmetry. apply drop_ge. lia. }
  apply wal_read_entry in Er as [_ Er].
  assert (drop (Z.to_nat (i - 1)) (wal_entries l) = d :: drop (Z.to_nat (i + 1 - 1)) (wal_entries l)) as Ed.
  { rewrite (drop_S _ d) by done. do 2 f_equal. lia. }
  pose proof (lookup_lt_Some _ _ _ Er) as Hlt. rewrite Ed. destruct (f s d) as [s1 [e|]] eqn:Ef.
  { exists 1%nat, s1, 0%nat, (Some e), (Stopped e). cbn [take feed]. rewrite Ef, Z.add_0_r. done. }
  destruct (IH (i + 1) s1 ltac:(lia) ltac:(lia) ltac:(lia)) as (k & s' & n & err & wend & F1 & F2 & F3).
  exists (Datatypes.S k), s', (Datatypes.S n), err, wend. cbn [take feed]. rewrite Ef, F1.
  split; [done|]. replace (i + 1 - 1) with i in F2 by lia. rewrite F2. split; [do 2 f_equal; lia|].
  destruct wend; cbn [walk_ok] in *; [|done..]. destruct F3 as [-> ->]. done.
Qed.

Lemma ReadFrom_spec {S E} (f : S -> bytes -> S * option E) w start s : 2 <= start ->
  exists k s' n err wend,
    feed f s (take k (drop (Z.to_nat (start - 1)) (wal_entries (wlLog w)))) = (s', n, err)
    /\ ReadFrom f w start s = (s', start - 1 + Z.of_nat n, wend)
    /\ walk_ok wend err (take k (drop (Z.to_nat (start - 1)) (wal_entries (wlLog w))))
         (drop (Z.to_nat (start - 1)) (wal_entries (wlLog w))).
Proof.
  intros Hs. unfold ReadFrom, defaultDataIndex.
  replace (start <? 2) with false by (symmetry; apply Z.ltb_ge; lia). apply from_loop_spec; lia.
Qed.

Lemma feed_none {S E} (f : S -> bytes -> S * option E) s ds s' n :
  feed f s ds = (s', n, None) -> n = length ds.
Proof.
  revert s n. induction ds as [|d ds IH]; intros s n; cbn; [by intros [= _ <-]|].
  destruct (f s d) as [s1 [e|]]; [done|]. destruct (feed f s1 ds) as [[s2 m] err] eqn:Eq.
  intros [= -> <- ->]. f_equal. eapply IH; eauto.
Qed.

(** Where a reader stopped: the entries before it went through. *)
Lemma feed_some {S E} (f : S -> bytes -> S * option E) s ds s' n e :
  feed f s ds = (s', n, Some e) ->
  exists d s1, ds !! n = Some d /\ feed f s (take n ds) = (s1, n, None) /\ f s1 d = (s', Some e).
Proof.
  revert s n. induction ds as [|d ds IH]; intros s n; cbn [feed]; [done|].
  destruct (f s d) as [s1 [e1|]] eqn:Ef.
  - intros [= -> <- ->]. exists d, s. done.
  - destruct (feed f s1 ds) as [[s2 m] err] eqn:Eq. intros [= -> <- ->].
    destruct (IH s1 m Eq) as (d' & s3 & F1 & F2 & F3). exists d', s3. cbn. rewrite Ef, F2. done.
Qed.

Lemma feed_app {S E} (f : S -> bytes -> S * option E) s ds ds' s1 n :
  feed f s ds = (s1, n, None) ->
  feed f s (ds ++ ds') = let '(s2, m, err) := feed f s1 ds' in (s2, (n + m)%nat, err).
Proof.
  revert s n. induction ds as [|d ds IH]; intros s n; cbn [feed app].
  { intros [= -> <-]. by destruct (feed f s1 ds') as [[? ?] ?]. }
  destruct (f s d) as [s2 [e|]]; [done|]. destruct (feed f s2 ds) as [[s3 m] err] eqn:Eq.
  intros [= -> <- ->]. rewrite (IH s2 m Eq). by destruct (feed f s1 ds') as [[? ?] ?].
Qed.

(** A log whose entries can be read. *)
Definition readable (l : Log) : Prop := forall i, 1 <= i ->
  wal_Read l i = match wal_entries l !! Z.to_nat (i - 1) with Some d => inr d | None => inl ErrNotFound end.

(** [ReadFrom] of a readable log gives the reader every entry from the start
    on, or ends with the reader's error. *)
Lemma ReadFrom_readable {S E} (f : S -> bytes -> S * option E) w start s : 2 <= start ->
  readable (wlLog w) ->
  exists s' n err wend,
    feed f s (drop (Z.to_nat (start - 1)) (wal_entries (wlLog w))) = (s', n, err)
    /\ ReadFrom f w start s = (s', start - 1 + Z.of_nat n, wend)
    /\ match err with None => wend = AtEnd | Some e => wend = Stopped e end.
Proof.
  intros Hs Hr. unfold ReadFrom, defaultDataIndex.
  replace (start <? 2) with false by (symmetry; apply Z.ltb_ge; lia).
  assert (1 <= start) as Hs1 by lia.
  assert (Z.of_nat (length (wal_entries (wlLog w))) + 1 - start < Z.of_nat (Datatypes.S (length (wal_entries (wlLog w)))))
    as Hf by lia.
  assert (0 < Datatypes.S (length (wal_entries (wlLog w))))%nat as Hp by lia.
  revert Hs1 Hp Hf. clear Hs. generalize (Datatypes.S (length (wal_entries (wlLog w)))). intros fuel.
  revert start s. induction fuel as [|fuel IH]; intros i s Hi Hp Hf; [lia|]. cbn [from_loop].
  rewrite (Hr i Hi). destruct (wal_entries (wlLog w) !! Z.to_nat (i - 1)) as [d|] eqn:Ed.
  - rewrite (drop_S _ d) by done. cbn [feed]. pose proof (lookup_lt_Some _ _ _ Ed).
    destruct (f s d) as [s1 [e|]]; [exists s1, 0%nat, (Some e), (Stopped e); split_and!; [done|by rewrite Z.add_0_r|done]|].
    destruct (IH (i + 1) s1 ltac:(lia) ltac:(lia) ltac:(lia)) as (s' & n & err & wend & F1 & F2 & F3).
    replace (Z.to_nat (i + 1 - 1)) with (Datatypes.S (Z.to_nat (i - 1))) in F1 by lia.
    replace (i + 1 - 1) with i in F2 by lia. rewrite F1, F2.
    exists s', (Datatypes.S n), err, wend. split_and!; [done|do 2 f_equal; lia|done].
  - apply lookup_ge_None in Ed. rewrite drop_ge by lia. exists s, 0%nat, None, AtEnd.
    split_and!; [done|by rewrite Z.add_0_r|done].
Qed.

(** A reader that never fails, called again at the index behind the last one
    once the log has grown, sees every entry once. *)
Lemma ReadFrom_resumes {S} (f : S -> bytes -> S) w w' start s more :
  let g := fun s d => (f s d, @None False) in
  2 <= start <= Z.of_nat (length (wal_entries (wlLog w))) + 1 -> readable (wlLog w) -> readable (wlLog w') ->
  wal_entries (wlLog w') = wal_entries (wlLog w) ++ more ->
  let '(s1, last, _) := ReadFrom g w start s in
  let '(s2, last2, e2) := ReadFrom g w' (last + 1) s1 in
  s2 = fold_left f (drop (Z.to_nat (start - 1)) (wal_entries (wlLog w'))) s
  /\ last2 = Z.of_nat (length (wal_entries (wlLog w'))) /\ e2 = AtEnd.
Proof.
  intros g Hs Hr Hr' Ew.
  assert (forall ds s, feed g s ds = (fold_left f ds s, length ds, None)) as Hg.
  { induction ds as [|d ds IH]; intros t; cbn; [done|]. by rewrite IH. }
  destruct (ReadFrom_readable g w start s ltac:(lia) Hr) as (s1 & n & err & wend & F1 & F2 & F3).
  rewrite Hg in F1. injection F1 as <- <- <-. rewrite F2, length_drop.
  set (last := start - 1 + _). assert (last = Z.of_nat (length (wal_entries (wlLog w)))) as El by (unfold last; lia).
  destruct (ReadFrom_readable g w' (last + 1) (fold_left f (drop (Z.to_nat (start - 1)) (wal_entries (wlLog w))) s) ltac:(lia) Hr')
    as (s2 & m & err & wend2 & G1 & G2 & G3).
  rewrite Hg in G1. injection G1 as <- <- <-. rewrite G2. split_and!; [|rewrite length_drop, Ew, length_app; lia|done].
  replace (Z.to_nat (last + 1 - 1)) with (length (wal_entries (wlLog w))) by lia.
  rewrite Ew, drop_app_length, drop_app_le by lia. by rewrite fold_left_app.
Qed.
End WalProps.
