(* ===== verification/SessionFlush.v ===== *)
(** * Recording a session: src/gateway/transport/plugins/audit/wal.go, metrics.go

    The audit plugin appends every event of a session to its write ahead log
    and copies the log's tail into the session's stream in the database, every
    fifty seconds and once more when the session is closed.  The flush, the
    receivers and the closing goroutine meet at the mutex of the log; their
    locked sections are the steps of a transition system.

    msgpack, gob, the formatting of a float64 and the database are outside: the
    first three are the classes [SpecTypes] and [SecondsText], the answers of
    the database come with the steps. *)

From S2P Require Import Prelude GoStrings GoText Utf LiveEvents SessionLog.

#[local] Open Scope Z_scope.

(** ** Metrics: metrics.go *)

Record DataMaskingMetric := {
  dmInfoTypes : gmap bytes Z;
  dmTotalRedactCount : Z;
  dmTransformedBytes : Z;
  dmErrCount : Z;
}.

Record AIAnalyzerVerdictMetric := {
  avOutcome : bytes;
  avRiskLevel : bytes;
  avTitle : bytes;
  avExplanation : bytes;
  avRuleName : bytes;
}.

Record AIAnalyzerMetric := {
  amTotalRequests : Z;
  amRiskCounts : gmap bytes Z;
  amOutcomeCounts : gmap bytes Z;
  amBlockedCount : Z;
  amWorst : option AIAnalyzerVerdictMetric;
}.

Record SessionMetric := {
  smDataMasking : DataMaskingMetric;
  smAIAnalyzer : option AIAnalyzerMetric;
  smEventSize : Z;
  smTruncated : bool;
}.

Definition newSessionMetric : SessionMetric :=
  {| smDataMasking := {| dmInfoTypes := ∅; dmTotalRedactCount := 0; dmTransformedBytes := 0; dmErrCount := 0 |};
     smAIAnalyzer := None; smEventSize := 0; smTruncated := false |}.

(** [a += b] on 64 bits, and [m[k] += v]. *)
Definition plus (a b : Z) : Z := wrap_int64 (a + b).
Definition bump (k : bytes) (v : Z) (m : gmap bytes Z) : gmap bytes Z := <[k := plus (default 0 (m !! k)) v]> m.

(** The loop over another map's counts. *)
Definition add_counts (m other : gmap bytes Z) : gmap bytes Z := map_fold bump m other.

Definition addInfoType (key : bytes) (size : Z) (d : DataMaskingMetric) : DataMaskingMetric :=
  {| dmInfoTypes := bump key size (dmInfoTypes d); dmTotalRedactCount := dmTotalRedactCount d;
     dmTransformedBytes := dmTransformedBytes d; dmErrCount := dmErrCount d |}.

Section Metrics.
Context `{GoUnicode}.

Definition riskRank (level : bytes) : Z :=
  let l := ToLower level in
  if l =s B "high" then 3 else if l =s B "medium" then 2 else if l =s B "low" then 1 else 0.

Definition ensureAIAnalyzer (s : SessionMetric) : AIAnalyzerMetric :=
  match smAIAnalyzer s with
  | Some m => m
  | None => {| amTotalRequests := 0; amRiskCounts := ∅; amOutcomeCounts := ∅; amBlockedCount := 0; amWorst := None |}
  end.

Definition set_ai (s : SessionMetric) (m : AIAnalyzerMetric) : SessionMetric :=
  {| smDataMasking := smDataMasking s; smAIAnalyzer := Some m; smEventSize := smEventSize s;
     smTruncated := smTruncated s |}.

Definition set_masking (s : SessionMetric) (d : DataMaskingMetric) : SessionMetric :=
  {| smDataMasking := d; smAIAnalyzer := smAIAnalyzer s; smEventSize := smEventSize s;
     smTruncated := smTruncated s |}.

(** Whether [v] replaces the worst verdict so far. *)
Definition worse (v : AIAnalyzerVerdictMetric) (worst : option AIAnalyzerVerdictMetric) : bool :=
  match worst with
  | None => true
  | Some w => riskRank (avRiskLevel w) <? riskRank (avRiskLevel v)
  end.

Definition foldVerdict (v : AIAnalyzerVerdictMetric) (m : AIAnalyzerMetric) : AIAnalyzerMetric :=
  {| amTotalRequests := plus (amTotalRequests m) 1;
     amRiskCounts := if avRiskLevel v =s [] then amRiskCounts m else bump (ToLower (avRiskLevel v)) 1 (amRiskCounts m);
     amOutcomeCounts := if avOutcome v =s [] then amOutcomeCounts m else bump (ToLower (avOutcome v)) 1 (amOutcomeCounts m);
     amBlockedCount := if EqualFold (avOutcome v) (B "block") then plus (amBlockedCount m) 1 else amBlockedCount m;
     amWorst := if worse v (amWorst m) then Some v else amWorst m |}.

Definition mergeFrom (m other : AIAnalyzerMetric) : AIAnalyzerMetric :=
  {| amTotalRequests := plus (amTotalRequests m) (amTotalRequests other);
     amRiskCounts := add_counts (amRiskCounts m) (amRiskCounts other);
     amOutcomeCounts := add_counts (amOutcomeCounts m) (amOutcomeCounts other);
     amBlockedCount := plus (amBlockedCount m) (amBlockedCount other);
     amWorst := match amWorst other with
                | Some v => if worse v (amWorst m) then Some v else amWorst m
                | None => amWorst m
                end |}.

Definition merge_masking (d other : DataMaskingMetric) : DataMaskingMetric :=
  {| dmInfoTypes := add_counts (dmInfoTypes d) (dmInfoTypes other);
     dmTotalRedactCount := plus (dmTotalRedactCount d) (dmTotalRedactCount other);
     dmTransformedBytes := plus (dmTransformedBytes d) (dmTransformedBytes other);
     dmErrCount := plus (dmErrCount d) (dmErrCount other) |}.

Definition merge (s other : SessionMetric) : SessionMetric :=
  let s := set_masking s (merge_masking (smDataMasking s) (smDataMasking other)) in
  match smAIAnalyzer other with
  | None => s
  | Some o => set_ai s (mergeFrom (ensureAIAnalyzer s) o)
  end.
End Metrics.

(** ** Reading an event: wal.go, spectypes *)

Record SummaryResult := { srCount : Z; srCode : bytes }.
Record TransformationSummary := { tsInfoType : bytes; tsResults : list SummaryResult }.
Record TransformationOverview := { ovTransformedBytes : Z; ovSummaries : list TransformationSummary; ovErr : bool }.

Record AIAnalyzerVerdict := { vdMetric : AIAnalyzerVerdictMetric; vdSeq : Z; vdConnID : bytes }.

(** The msgpack decoding of packet specs; [None] in a list is a nil item, the
    [None] of a result an error. *)
Class SpecTypes := {
  spec_Decode : bytes -> option (list (option TransformationOverview));
  DecodeAIAnalyzerVerdict : bytes -> option AIAnalyzerVerdict;
}.

(** [%v] of the seconds of a duration in nanoseconds. *)
Class SecondsText := { seconds_text : Z -> bytes }.

Definition DataMaskingInfoKey : bytes := B "datamasking.info".
Definition AIAnalyzerInfoKey : bytes := B "aianalyzer.info".

(** One result: the metrics and [redactPerInfoType]. *)
Definition add_result (acc : DataMaskingMetric * Z) (rs : SummaryResult) : DataMaskingMetric * Z :=
  let '(d, n) := acc in
  if srCode rs =s B "SUCCESS" then
    ({| dmInfoTypes := dmInfoTypes d; dmTotalRedactCount := plus (dmTotalRedactCount d) (srCount rs);
        dmTransformedBytes := dmTransformedBytes d; dmErrCount := dmErrCount d |}, plus n (srCount rs))
  else if srCode rs =s B "ERROR" then
    ({| dmInfoTypes := dmInfoTypes d; dmTotalRedactCount := dmTotalRedactCount d;
        dmTransformedBytes := dmTransformedBytes d; dmErrCount := plus (dmErrCount d) 1 |}, n)
  else (d, n).

Definition add_summary (d : DataMaskingMetric) (ts : TransformationSummary) : DataMaskingMetric :=
  let '(d, n) := fold_left add_result (tsResults ts) (d, 0) in
  if tsInfoType ts =s [] then d else addInfoType (tsInfoType ts) n d.

Definition add_overview (d : DataMaskingMetric) (item : option TransformationOverview) : DataMaskingMetric :=
  match item with
  | None => d
  | Some it =>
      let d := {| dmInfoTypes := dmInfoTypes d; dmTotalRedactCount := dmTotalRedactCount d;
                  dmTransformedBytes := plus (dmTransformedBytes d) (ovTransformedBytes it);
                  dmErrCount := dmErrCount d |} in
      if ovErr it then
        {| dmInfoTypes := dmInfoTypes d; dmTotalRedactCount := dmTotalRedactCount d;
           dmTransformedBytes := dmTransformedBytes d; dmErrCount := plus (dmErrCount d) 1 |}
      else fold_left add_summary (ovSummaries it) d
  end.

(** [aiVerdictDedup]; a connection that has no entry reads as zero or empty. *)
Record aiVerdictDedup := { dd_lastSeq : gmap bytes Z; dd_lastContent : gmap bytes bytes }.

Definition newAIVerdictDedup : aiVerdictDedup := {| dd_lastSeq := ∅; dd_lastContent := ∅ |}.

Definition seen (d : aiVerdictDedup) (connID : bytes) (seq : Z) (encoded : bytes) : aiVerdictDedup * bool :=
  if 0 <? seq then
    if seq <=? default 0 (dd_lastSeq d !! connID) then (d, true)
    else ({| dd_lastSeq := <[connID := seq]> (dd_lastSeq d); dd_lastContent := dd_lastContent d |}, false)
  else if default [] (dd_lastContent d !! connID) =s encoded then (d, true)
  else ({| dd_lastSeq := dd_lastSeq d; dd_lastContent := <[connID := encoded]> (dd_lastContent d) |}, false).

(** An entry of the stored stream. *)
Record StreamEntry := { seElapsed : Z; seType : EventType; seStream : bytes }.

Definition ConnectionTypeTCP : bytes := B "tcp".
Definition ConnectionTypeRDP : bytes := B "rdp".
Definition maxOpaqueEventStreamBytes : nat := 5000.

Definition truncateOpaqueEventStream (eventStream protoConnType : bytes) : bytes :=
  let isOpaque := (protoConnType =s ConnectionTypeTCP) || (protoConnType =s ConnectionTypeRDP) in
  if (maxOpaqueEventStreamBytes <? length eventStream)%nat && isOpaque
  then take maxOpaqueEventStreamBytes eventStream else eventStream.

(** [time.Time.Sub]: the difference, within what a [Duration] can hold. *)
Definition time_Sub (t u : Z) : Z := Z.max (-2 ^ 63) (Z.min (2 ^ 63 - 1) (t - u)).

(** encoding/base64 with padding. *)
Definition base64_digit (n : Z) : byte :=
  default x00 (B "ABCDEFGHIJKLMNOPQRSTUVWXYZabcdefghijklmnopqrstuvwxyz0123456789+/" !! Z.to_nat n).

Fixpoint base64 (l : bytes) : bytes :=
  match l with
  | [] => []
  | [a] => let n := bval a * 65536 in [base64_digit (n / 262144); base64_digit (n / 4096 mod 64); "="%byte; "="%byte]
  | [a; b] =>
      let n := bval a * 65536 + bval b * 256 in
      [base64_digit (n / 262144); base64_digit (n / 4096 mod 64); base64_digit (n / 64 mod 64); "="%byte]
  | a :: b :: c :: r =>
      let n := bval a * 65536 + bval b * 256 + bval c in
      base64_digit (n / 262144) :: base64_digit (n / 4096 mod 64) :: base64_digit (n / 64 mod 64)
        :: base64_digit (n mod 64) :: base64 r
  end.

Section Flush.
Context `{GoUnicode} `{GoLib} `{SpecTypes} `{SecondsText}.

Definition accumulateMaskingMetrics (ev : EventLog) (m : SessionMetric) : SessionMetric :=
  match GetMetadata ev DataMaskingInfoKey with
  | None => m
  | Some infoEnc =>
      match spec_Decode infoEnc with
      | None => m
      | Some items => set_masking m (fold_left add_overview items (smDataMasking m))
      end
  end.

Definition accumulateAIAnalyzerVerdict (ev : EventLog) (m : SessionMetric) (d : aiVerdictDedup) :
    SessionMetric * aiVerdictDedup :=
  let enc := default [] (GetMetadata ev AIAnalyzerInfoKey) in
  if (length enc =? 0)%nat then (m, d)
  else
    match DecodeAIAnalyzerVerdict enc with
    | None => (m, d)
    | Some verdict =>
        let '(d, dup) := seen d (vdConnID verdict) (vdSeq verdict) enc in
        if dup then (m, d) else (set_ai m (foldVerdict (vdMetric verdict) (ensureAIAnalyzer m)), d)
    end.

(** The text of one entry, ["[%v,%q,%q]"], and of a chunk. *)
Definition entry_text (t : StreamEntry) : bytes :=
  B "[" ++ seconds_text (seElapsed t) ++ B "," ++ fmt_q (EncodeRune (bval (seType t))) ++ B ","
    ++ fmt_q (base64 (seStream t)) ++ B "]".
Definition chunk_text (l : list StreamEntry) : bytes := B "[" ++ Join (map entry_text l) (B ",") ++ B "]".

(** [encodeEventEntry]; the buffer is the list of the entries written to it.
    [None] is the panic of a nil start date. *)
Definition encodeEventEntry (buf : list StreamEntry) (ev : EventLog) (startDate : option Z)
    (protoConnType : bytes) (m : SessionMetric) : option (list StreamEntry * SessionMetric) :=
  let m := accumulateMaskingMetrics ev m in
  if (length (elPayload ev) =? 0)%nat then Some (buf, m)
  else
    match startDate with
    | None => None
    | Some start =>
        Some (buf ++ [{| seElapsed := time_Sub (elTime ev) start; seType := elType ev;
                         seStream := truncateOpaqueEventStream (elPayload ev) protoConnType |}], m)
    end.

(** ** The flush *)

Context `{WalLib} `{HeaderJSON}.

Record walLogRWMutex := {
  wm_log : WalLog;
  wm_lastFlushedIndex : Z;
  wm_bytesFlushed : Z;
  wm_bytesRead : Z;
  wm_truncated : bool;
  wm_closed : bool;
  wm_metrics : SessionMetric;
  wm_aiDedup : aiVerdictDedup;
}.

(** What the function given to [ReadFrom] closes over. *)
Record reader := {
  rd_encoded : list StreamEntry;
  rd_window : SessionMetric;
  rd_dedup : aiVerdictDedup;
  rd_bytesRead : Z;
}.

Inductive reader_error := DecodeFailed (e : DecodeError) | FlushCapReached | ReaderPanics | ReaderSpins.

Definition flush_reader (startDate : option Z) (protoConnType : bytes) (s : reader) (data : bytes) :
    reader * option reader_error :=
  match Decode data with
  | Fails e => (s, Some (DecodeFailed e))
  | Panics => (s, Some ReaderPanics)
  | Spins => (s, Some ReaderSpins)
  | Returns ev =>
      match encodeEventEntry (rd_encoded s) ev startDate protoConnType (rd_window s) with
      | None => (s, Some ReaderPanics)
      | Some (encoded, window) =>
          let '(window, dedup) := accumulateAIAnalyzerVerdict ev window (rd_dedup s) in
          let bytesRead := plus (rd_bytesRead s) (len data) in
          ({| rd_encoded := encoded; rd_window := window; rd_dedup := dedup; rd_bytesRead := bytesRead |},
           if DefaultMaxRead <? bytesRead then Some FlushCapReached else None)
      end
  end.

(** The database: the stream of the session, when its row exists, and the
    counts [IncrementSessionMaskedMetrics] was called with. *)
Record database := { db_stream : option (list StreamEntry); db_masked : list (gmap bytes Z) }.

(** [AppendSessionStream]: an error of the database changes nothing. *)
Definition AppendSessionStream (ok : bool) (db : database) (entries : list StreamEntry) : option database :=
  match db_stream db with
  | Some l => if ok then Some {| db_stream := Some (l ++ entries); db_masked := db_masked db |} else None
  | None => None
  end.

Inductive flush_result := FlushOk | FlushFailed | FlushPanics.

Definition set_read (m : walLogRWMutex) (bytesRead : Z) (dedup : aiVerdictDedup) : walLogRWMutex :=
  {| wm_log := wm_log m; wm_lastFlushedIndex := wm_lastFlushedIndex m; wm_bytesFlushed := wm_bytesFlushed m;
     wm_bytesRead := bytesRead; wm_truncated := wm_truncated m; wm_closed := wm_closed m;
     wm_metrics := wm_metrics m; wm_aiDedup := dedup |}.

(** The part behind the reading. *)
Definition flush_store (m : walLogRWMutex) (db : database) (ok : bool) (s : reader) (lastIndex : Z)
    (capReached : bool) : walLogRWMutex * database * flush_result :=
  let stored :=
    match rd_encoded s with
    | [] => Some (db, wm_bytesFlushed m)
    | _ =>
        match AppendSessionStream ok db (rd_encoded s) with
        | Some db => Some (db, plus (wm_bytesFlushed m) (len (chunk_text (rd_encoded s))))
        | None => None
        end
    end in
  match stored with
  | None => (m, db, FlushFailed)
  | Some (db, bytesFlushed) =>
      ({| wm_log := wm_log m; wm_lastFlushedIndex := if capReached then lastIndex + 1 else lastIndex;
          wm_bytesFlushed := bytesFlushed; wm_bytesRead := wm_bytesRead m;
          wm_truncated := capReached || wm_truncated m; wm_closed := wm_closed m;
          wm_metrics := merge (wm_metrics m) (rd_window s); wm_aiDedup := wm_aiDedup m |},
       {| db_stream := db_stream db; db_masked := db_masked db ++ [dmInfoTypes (smDataMasking (rd_window s))] |},
       FlushOk)
  end.

Definition start_of (m : walLogRWMutex) : Z := Z.max (wm_lastFlushedIndex m + 1) 2.

Definition new_reader (m : walLogRWMutex) : reader :=
  {| rd_encoded := []; rd_window := newSessionMetric; rd_dedup := wm_aiDedup m; rd_bytesRead := wm_bytesRead m |}.

(** [flushSession], under the lock; [ok] is whether the database takes the
    entries. *)
Definition flushSession (protoConnType : bytes) (ok : bool) (m : walLogRWMutex) (db : database) :
    walLogRWMutex * database * flush_result :=
  if wm_closed m then (m, db, FlushOk)
  else if wm_truncated m then (m, db, FlushOk)
  else
    match read_header (wm_log m) with
    | inl _ => (m, db, FlushFailed)
    | inr header =>
        let startIndex := start_of m in
        let '(s, lastIndex, wend) :=
          ReadFrom (flush_reader (hdStartDate header) protoConnType) (wm_log m) startIndex (new_reader m) in
        let m := set_read m (rd_bytesRead s) (rd_dedup s) in
        match wend with
        | LogFailed _ | Stopped (DecodeFailed _) => (m, db, FlushFailed)
        | Stopped ReaderPanics | Stopped ReaderSpins | Unfinished => (m, db, FlushPanics)
        | Stopped FlushCapReached => flush_store m db ok s lastIndex true
        | AtEnd => if lastIndex <? startIndex then (m, db, FlushOk) else flush_store m db ok s lastIndex false
        end
    end.

(** ** The life of a recording *)

(** Where [closeSessionWAL] is: not called, holding the log it took out of the
    store, behind the trailing error, behind the final flush, returned. *)
Inductive closer := CNot | CTaken (errMsg : option bytes) | CNoted | CFlushed | CDone.

Record session := {
  ss_wal : walLogRWMutex;
  ss_db : database;
  ss_live : Broker;
  ss_closer : closer;
  ss_metrics : option SessionMetric;
}.

Definition set_wal (s : session) (m : walLogRWMutex) : session :=
  {| ss_wal := m; ss_db := ss_db s; ss_live := ss_live s; ss_closer := ss_closer s; ss_metrics := ss_metrics s |}.

Definition set_log (m : walLogRWMutex) (w : WalLog) : walLogRWMutex :=
  {| wm_log := w; wm_lastFlushedIndex := wm_lastFlushedIndex m; wm_bytesFlushed := wm_bytesFlushed m;
     wm_bytesRead := wm_bytesRead m; wm_truncated := wm_truncated m; wm_closed := wm_closed m;
     wm_metrics := wm_metrics m; wm_aiDedup := wm_aiDedup m |}.

(** [writeOnConnect] on the log opened in the fresh folder. *)
Definition writeOnConnect (opened : WalError + Log) (orgID sid status : bytes) (startDate : option Z) :
    LogError + walLogRWMutex :=
  match OpenWriteHeader opened {| hdEventLogVersion := Version; hdOrgID := orgID; hdSessionID := sid;
                                  hdStatus := status; hdStartDate := startDate |} with
  | inl e => inl e
  | inr walog =>
      inr {| wm_log := walog; wm_lastFlushedIndex := 0; wm_bytesFlushed := 0; wm_bytesRead := 0;
             wm_truncated := false; wm_closed := false; wm_metrics := newSessionMetric;
             wm_aiDedup := newAIVerdictDedup |}
  end.

(** The session once [startFlushTicker] created the empty stream. *)
Definition connected (m : walLogRWMutex) (live : Broker) : session :=
  {| ss_wal := m; ss_db := {| db_stream := Some []; db_masked := [] |}; ss_live := live; ss_closer := CNot;
     ss_metrics := None |}.

(** [writeOnReceive] of a goroutine that has the log: written under the lock,
    then published.  [order] is the order the encoder visits the metadata in.
    [None] is a panic of the broker. *)
Definition writeOnReceive (sid : bytes) (now : Z) (eventType : EventType) (event : option bytes)
    (metadata : option (gmap bytes (option bytes))) (order : list (bytes * bytes)) (s : session) :
    option (session * option LogError) :=
  let '(w, err) := Write (wm_log (ss_wal s)) (Encode order (New now eventType event metadata)) in
  let s := set_wal s (set_log (ss_wal s) w) in
  match err with
  | Some e => Some (s, Some e)
  | None =>
      live ← Publish (ss_live s) sid {| evTime := now; evType := eventType; evPayload := default [] event |};
      Some ({| ss_wal := ss_wal s; ss_db := ss_db s; ss_live := live; ss_closer := ss_closer s;
               ss_metrics := ss_metrics s |}, None)
  end.

(** A tick, or the final flush, whose errors are logged; [None] is a panic. *)
Definition flush_step (protoConnType : bytes) (ok : bool) (s : session) : option session :=
  match flushSession protoConnType ok (ss_wal s) (ss_db s) with
  | (_, _, FlushPanics) => None
  | (m, db, _) =>
      Some {| ss_wal := m; ss_db := db; ss_live := ss_live s; ss_closer := ss_closer s; ss_metrics := ss_metrics s |}
  end.

Definition set_closer (s : session) (c : closer) : session :=
  {| ss_wal := ss_wal s; ss_db := ss_db s; ss_live := ss_live s; ss_closer := c; ss_metrics := ss_metrics s |}.

(** Closing and removing the log, and the metrics that are kept. *)
Definition close_wal (s : session) : session :=
  let m := ss_wal s in
  {| ss_wal := {| wm_log := {| wlLog := wal_Close (wlLog (wm_log m)); wlIndex := wlIndex (wm_log m) |};
                  wm_lastFlushedIndex := wm_lastFlushedIndex m; wm_bytesFlushed := wm_bytesFlushed m;
                  wm_bytesRead := wm_bytesRead m; wm_truncated := wm_truncated m; wm_closed := true;
                  wm_metrics := wm_metrics m; wm_aiDedup := wm_aiDedup m |};
     ss_db := ss_db s; ss_live := ss_live s; ss_closer := CDone;
     ss_metrics := Some {| smDataMasking := smDataMasking (wm_metrics m); smAIAnalyzer := smAIAnalyzer (wm_metrics m);
                           smEventSize := wm_bytesFlushed m; smTruncated := wm_truncated m |} |}.

(** The next locked section of [closeSessionWAL] on a log held in memory;
    [errMsg] is the reason of the disconnect unless it is nil or [io.EOF]. *)
Definition close_step (protoConnType : bytes) (now : Z) (ok : bool) (errMsg : option bytes) (s : session) :
    option session :=
  match ss_closer s with
  | CNot => Some (set_closer s (CTaken errMsg))
  | CTaken None => Some (set_closer s CNoted)
  | CTaken (Some msg) =>
      let '(w, _) := Write (wm_log (ss_wal s)) (Encode [] (New now ErrorType (Some msg) None)) in
      Some (set_closer (set_wal s (set_log (ss_wal s) w)) CNoted)
  | CNoted => s ← flush_step protoConnType ok s; Some (set_closer s CFlushed)
  | CFlushed => Some (close_wal s)
  | CDone => Some s
  end.

(** The files of the log, in which a read may begin or cease to fail. *)
Definition set_files (s : session) (l : Log) : session :=
  if bool_decide (wal_entries l = wal_entries (wlLog (wm_log (ss_wal s))))
  then set_wal s (set_log (ss_wal s) {| wlLog := l; wlIndex := wlIndex (wm_log (ss_wal s)) |})
  else s.

Inductive act :=
  | Receive (now : Z) (eventType : EventType) (event : option bytes)
      (metadata : option (gmap bytes (option bytes))) (order : list (bytes * bytes))
  | Tick (ok : bool)
  | CloseStep (now : Z) (ok : bool) (errMsg : option bytes)
  | LiveOp (op : broker_op)
  | Files (l : Log).

(** One locked section; [None] is a panic. *)
Definition step (sid protoConnType : bytes) (s : session) (a : act) : option session :=
  match a with
  | Receive now t event md order => fst <$> writeOnReceive sid now t event md order s
  | Tick ok => flush_step protoConnType ok s
  | CloseStep now ok errMsg => close_step protoConnType now ok errMsg s
  | LiveOp op =>
      live ← broker_exec (ss_live s) op;
      Some {| ss_wal := ss_wal s; ss_db := ss_db s; ss_live := live; ss_closer := ss_closer s;
              ss_metrics := ss_metrics s |}
  | Files l => Some (set_files s l)
  end.

Fixpoint run (sid protoConnType : bytes) (s : session) (acts : list act) : option session :=
  match acts with
  | [] => Some s
  | a :: acts => s ← step sid protoConnType s a; run sid protoConnType s acts
  end.
End Flush.

(** ** Windows of metrics add up *)

Definition in_int64 (z : Z) : Prop := -2 ^ 63 <= z < 2 ^ 63.

Lemma wrap_range z : in_int64 (wrap_int64 z).
Proof. unfold in_int64, wrap_int64. pose proof (Z.mod_pos_bound (z + 2 ^ 63) (2 ^ 64) ltac:(lia)). lia. Qed.

Lemma wrap_id z : in_int64 z -> wrap_int64 z = z.
Proof. unfold in_int64, wrap_int64. intros Hz. rewrite Z.mod_small; lia. Qed.

Lemma wrap_plus a b : wrap_int64 (wrap_int64 a + b) = wrap_int64 (a + b).
Proof.
  unfold wrap_int64. f_equal.
  replace ((a + 2 ^ 63) mod 2 ^ 64 - 2 ^ 63 + b + 2 ^ 63) with ((a + 2 ^ 63) mod 2 ^ 64 + b) by lia.
  rewrite Z.add_mod_idemp_l by lia. f_equal. lia.
Qed.

Lemma plus_assoc a b c : plus a (plus b c) = plus (plus a b) c.
Proof. unfold plus. rewrite wrap_plus, Z.add_comm, wrap_plus. f_equal. lia. Qed.

Lemma plus_zero a : in_int64 a -> plus a 0 = a.
Proof. intros Ha. unfold plus. rewrite Z.add_0_r. by apply wrap_id. Qed.

Lemma plus_range a b : in_int64 (plus a b).
Proof. apply wrap_range. Qed.

Lemma add_counts_lookup m o k :
  add_counts m o !! k = match o !! k with Some v => Some (plus (default 0 (m !! k)) v) | None => m !! k end.
Proof.
  unfold add_counts. revert k.
  apply (map_fold_weak_ind (fun r o => forall k, r !! k =
    match o !! k with Some v => Some (plus (default 0 (m !! k)) v) | None => m !! k end)); [done|].
  intros i x o' r Hi IH k. unfold bump. destruct (decide (k = i)) as [->|Hne].
  - rewrite !lookup_insert_eq, IH, Hi. done.
  - rewrite !lookup_insert_ne, IH by done. done.
Qed.

Lemma add_counts_bump m o k v : add_counts m (bump k v o) = bump k v (add_counts m o).
Proof.
  apply map_eq. intros j. rewrite add_counts_lookup. unfold bump. destruct (decide (j = k)) as [->|Hne].
  - rewrite !lookup_insert_eq, add_counts_lookup, plus_assoc. f_equal.
    destruct (o !! k) as [x|]; cbn; [done|]. unfold plus. rewrite wrap_plus. do 2 f_equal. lia.
  - rewrite !lookup_insert_ne, add_counts_lookup by done. done.
Qed.

Lemma add_counts_empty m : add_counts m ∅ = m.
Proof. apply map_eq. intros k. by rewrite add_counts_lookup, lookup_empty. Qed.

Section MetricProps.
Context `{GoUnicode} `{SpecTypes}.

Lemma merge_worst v m w :
  (match (if worse v w then Some v else w) with
   | Some u => if worse u m then Some u else m
   | None => m
   end)
  = let mw := match w with Some u => if worse u m then Some u else m | None => m end in
    if worse v mw then Some v else mw.
Proof.
  destruct w as [w|]; cbn [worse]; [|done].
  destruct (riskRank (avRiskLevel w) <? riskRank (avRiskLevel v)) eqn:E1.
  - destruct m as [m|]; cbn [worse]; [|by rewrite E1].
    destruct (riskRank (avRiskLevel m) <? riskRank (avRiskLevel w)) eqn:E2; cbn [worse].
    + rewrite E1. replace (_ <? _) with true; [done|]. bool_hyps. symmetry. apply Z.ltb_lt. lia.
    + done.
  - destruct m as [m|]; cbn [worse]; [|by rewrite E1].
    destruct (riskRank (avRiskLevel m) <? riskRank (avRiskLevel w)) eqn:E2; cbn [worse]; [by rewrite E1|].
    replace (riskRank (avRiskLevel m) <? riskRank (avRiskLevel v)) with false; [done|].
    bool_hyps. symmetry. apply Z.ltb_ge. lia.
Qed.

Lemma mergeFrom_fold m w v : mergeFrom m (foldVerdict v w) = foldVerdict v (mergeFrom m w).
Proof.
  unfold mergeFrom, foldVerdict. cbn. f_equal.
  - apply plus_assoc.
  - case_match; [done|]. apply add_counts_bump.
  - case_match; [done|]. apply add_counts_bump.
  - case_match; [|done]. apply plus_assoc.
  - apply merge_worst.
Qed.

(** Counters that are values of their types. *)
Record metric_ok (m : SessionMetric) : Prop := {
  mo_redact : in_int64 (dmTotalRedactCount (smDataMasking m));
  mo_bytes : in_int64 (dmTransformedBytes (smDataMasking m));
  mo_err : in_int64 (dmErrCount (smDataMasking m));
  mo_blocked : in_int64 (amBlockedCount (ensureAIAnalyzer m));
}.

Lemma metric_ok_new : metric_ok newSessionMetric.
Proof. split; cbn; unfold in_int64; lia. Qed.

Lemma mergeFrom_new m v : in_int64 (amBlockedCount m) ->
  mergeFrom m (foldVerdict v (ensureAIAnalyzer newSessionMetric)) = foldVerdict v m.
Proof.
  intros Hb. rewrite mergeFrom_fold. unfold mergeFrom, foldVerdict. cbn. rewrite !add_counts_empty.
  rewrite (plus_zero (amBlockedCount m)) by done. f_equal. unfold plus. rewrite wrap_plus. f_equal. lia.
Qed.

(** Masking metrics of a window, added to those before. *)
Lemma merge_add_result d acc rs n :
  let '(e1, n1) := add_result (acc, n) rs in
  let '(e2, n2) := add_result (merge_masking d acc, n) rs in
  merge_masking d e1 = e2 /\ n1 = n2.
Proof.
  unfold add_result. destruct (srCode rs =s B "SUCCESS"); [|destruct (srCode rs =s B "ERROR")];
    unfold merge_masking; cbn; rewrite ?plus_assoc; done.
Qed.

Lemma merge_add_results d l : forall acc n,
  let '(e1, n1) := fold_left add_result l (acc, n) in
  let '(e2, n2) := fold_left add_result l (merge_masking d acc, n) in
  merge_masking d e1 = e2 /\ n1 = n2.
Proof.
  induction l as [|rs l IH]; intros acc n; [done|]. cbn [fold_left].
  pose proof (merge_add_result d acc rs n) as Hr.
  destruct (add_result (acc, n) rs) as [e1 n1], (add_result (merge_masking d acc, n) rs) as [e2 n2].
  destruct Hr as [<- <-]. apply IH.
Qed.

Lemma merge_add_summary d acc ts : merge_masking d (add_summary acc ts) = add_summary (merge_masking d acc) ts.
Proof.
  unfold add_summary. pose proof (merge_add_results d (tsResults ts) acc 0) as Hr.
  destruct (fold_left add_result (tsResults ts) (acc, 0)) as [e1 n1],
    (fold_left add_result (tsResults ts) (merge_masking d acc, 0)) as [e2 n2].
  destruct Hr as [<- <-]. case_match; [done|]. unfold merge_masking, addInfoType. cbn. f_equal. apply add_counts_bump.
Qed.

Lemma fold_commutes {A B} (f : A -> B -> A) (g : A -> A) l a :
  (forall a b, g (f a b) = f (g a) b) -> g (fold_left f l a) = fold_left f l (g a).
Proof. intros Hg. revert a. induction l as [|b l IH]; intros a; cbn; [done|]. by rewrite IH, Hg. Qed.

Lemma merge_add_overview d acc it : merge_masking d (add_overview acc it) = add_overview (merge_masking d acc) it.
Proof.
  destruct it as [it|]; [|done]. unfold add_overview. destruct (ovErr it).
  - unfold merge_masking. cbn. f_equal; apply plus_assoc.
  - rewrite (fold_commutes add_summary (merge_masking d)) by apply merge_add_summary.
    f_equal. unfold merge_masking. cbn. f_equal. apply plus_assoc.
Qed.

Lemma merge_zero_masking m : metric_ok m -> merge_masking (smDataMasking m) (smDataMasking newSessionMetric) = smDataMasking m.
Proof.
  intros [H1 H2 H3 _]. unfold merge_masking. cbn. rewrite add_counts_empty, !plus_zero by done. by destruct (smDataMasking m).
Qed.

(** The masking metrics of one event. *)
Definition mask_event (d : DataMaskingMetric) (ev : EventLog) : DataMaskingMetric :=
  match GetMetadata ev DataMaskingInfoKey with
  | None => d
  | Some infoEnc => match spec_Decode infoEnc with None => d | Some items => fold_left add_overview items d end
  end.

Lemma accumulateMaskingMetrics_eq ev m :
  accumulateMaskingMetrics ev m = set_masking m (mask_event (smDataMasking m) ev).
Proof.
  unfold accumulateMaskingMetrics, mask_event. destruct (GetMetadata _ _) as [enc|]; [|by destruct m].
  destruct (spec_Decode enc); [done|by destruct m].
Qed.

Lemma merge_mask_event d acc ev : merge_masking d (mask_event acc ev) = mask_event (merge_masking d acc) ev.
Proof.
  unfold mask_event. case_match; [|done]. case_match; [|done]. apply fold_commutes. apply merge_add_overview.
Qed.

(** Both metrics of one event, with what was seen before. *)
Definition tally (acc : SessionMetric * aiVerdictDedup) (ev : EventLog) : SessionMetric * aiVerdictDedup :=
  accumulateAIAnalyzerVerdict ev (accumulateMaskingMetrics ev acc.1) acc.2.

Lemma merge_verdict m w d ev : metric_ok m ->
  let '(w1, d1) := accumulateAIAnalyzerVerdict ev w d in
  let '(m1, d2) := accumulateAIAnalyzerVerdict ev (merge m w) d in
  merge m w1 = m1 /\ d1 = d2.
Proof.
  intros Hok. unfold accumulateAIAnalyzerVerdict.
  destruct (_ =? 0)%nat; [done|]. destruct (DecodeAIAnalyzerVerdict _) as [v|]; [|done].
  destruct (seen _ _ _ _) as [d' [|]]; [done|]. split; [|done].
  unfold merge at 1. cbn [smAIAnalyzer set_ai]. unfold merge. destruct (smAIAnalyzer w) as [aw|] eqn:Ew.
  - unfold set_ai, set_masking, ensureAIAnalyzer. cbn. rewrite Ew, mergeFrom_fold. done.
  - assert (ensureAIAnalyzer w = ensureAIAnalyzer newSessionMetric) as -> by (unfold ensureAIAnalyzer; by rewrite Ew).
    rewrite mergeFrom_new by (by destruct Hok). done.
Qed.

Lemma merge_masked m w ev : merge m (accumulateMaskingMetrics ev w) = accumulateMaskingMetrics ev (merge m w).
Proof.
  rewrite !accumulateMaskingMetrics_eq. unfold merge. cbn.
  destruct (smAIAnalyzer w) as [aw|] eqn:Ew; cbn; unfold set_ai, set_masking; cbn; by rewrite merge_mask_event.
Qed.

(** A window counted from nothing and merged is the window counted on top. *)
Lemma merge_window m evs : metric_ok m -> forall w d,
  (merge m (fold_left tally evs (w, d)).1, (fold_left tally evs (w, d)).2) = fold_left tally evs (merge m w, d).
Proof.
  intros Hok. induction evs as [|ev evs IH]; intros w d; [done|]. cbn [fold_left]. unfold tally at 2 4 6. cbn [fst snd].
  rewrite <- merge_masked.
  pose proof (merge_verdict m (accumulateMaskingMetrics ev w) d ev Hok) as Hv.
  destruct (accumulateAIAnalyzerVerdict ev (accumulateMaskingMetrics ev w) d) as [w1 d1],
    (accumulateAIAnalyzerVerdict ev (merge m (accumulateMaskingMetrics ev w)) d) as [m1 d2].
  destruct Hv as [<- <-]. apply IH.
Qed.

Lemma merge_new m : metric_ok m -> merge m newSessionMetric = m.
Proof. intros Hok. unfold merge. rewrite merge_zero_masking by done. by destruct m. Qed.

Lemma metric_ok_merge m w : metric_ok m -> metric_ok (merge m w).
Proof.
  intros []. unfold merge. destruct (smAIAnalyzer w); (split; cbn; try apply plus_range).
  exact mo_blocked0.
Qed.

Lemma tally_masking evs : forall m d,
  smDataMasking (fold_left tally evs (m, d)).1 = fold_left mask_event evs (smDataMasking m).
Proof.
  induction evs as [|ev evs IH]; intros m d; [done|]. cbn [fold_left]. unfold tally at 2. cbn [fst snd].
  destruct (accumulateAIAnalyzerVerdict ev (accumulateMaskingMetrics ev m) d) as [m1 d1] eqn:E. rewrite IH.
  f_equal. rewrite accumulateMaskingMetrics_eq in E. unfold accumulateAIAnalyzerVerdict in E.
  repeat case_match; by simplify_eq.
Qed.

Lemma merge_masking_fold m evs : metric_ok m ->
  merge_masking (smDataMasking m) (fold_left mask_event evs (smDataMasking newSessionMetric))
  = fold_left mask_event evs (smDataMasking m).
Proof.
  intros Hok. rewrite (fold_commutes mask_event (merge_masking (smDataMasking m))) by apply merge_mask_event.
  by rewrite merge_zero_masking.
Qed.
End MetricProps.

(** ** The stream is the log *)

Section Recording.
Context `{GoUnicode} `{GoLib} `{SpecTypes} `{SecondsText} `{WalLaws} `{HeaderJSON}.
Implicit Types (m : walLogRWMutex) (s : session).

(** The events a log holds, behind its header. *)
Definition decoded (d : bytes) : option EventLog :=
  match Decode d with Returns e => Some e | _ => None end.
Definition logged (l : Log) : list EventLog := omap decoded (tail (wal_entries l)).

(** What an event leaves in the stream. *)
Definition entry_of (start : Z) (protoConnType : bytes) (ev : EventLog) : list StreamEntry :=
  if (length (elPayload ev) =? 0)%nat then []
  else [{| seElapsed := time_Sub (elTime ev) start; seType := elType ev;
           seStream := truncateOpaqueEventStream (elPayload ev) protoConnType |}].
Definition stream_of (start : Z) (protoConnType : bytes) (evs : list EventLog) : list StreamEntry :=
  concat (map (entry_of start protoConnType) evs).

(** How many events the flushes have passed. *)
Definition flushed (m : walLogRWMutex) : nat := Z.to_nat (start_of m - 2).

Lemma stream_of_app st pc a b : stream_of st pc (a ++ b) = stream_of st pc a ++ stream_of st pc b.
Proof. unfold stream_of. by rewrite map_app, concat_app. Qed.

Lemma flush_reader_event st pc r d ev : decoded d = Some ev ->
  flush_reader (Some st) pc r d =
  let '(window, dedup) := tally (rd_window r, rd_dedup r) ev in
  let bytesRead := plus (rd_bytesRead r) (len d) in
  ({| rd_encoded := rd_encoded r ++ entry_of st pc ev; rd_window := window; rd_dedup := dedup; rd_bytesRead := bytesRead |},
   if DefaultMaxRead <? bytesRead then Some FlushCapReached else None).
Proof.
  unfold decoded, flush_reader, tally, entry_of, encodeEventEntry. cbn [fst snd].
  destruct (Decode d) as [e| | |]; try done. intros [= ->].
  destruct (length (elPayload ev) =? 0)%nat; rewrite ?app_nil_r;
    by destruct (accumulateAIAnalyzerVerdict _ _ _).
Qed.

(** What the reader has done behind the entries it took. *)
Record absorbed (st : Z) (pc : bytes) (r : reader) (evs : list EventLog) (ds : list bytes) (r' : reader) : Prop := {
  ab_encoded : rd_encoded r' = rd_encoded r ++ stream_of st pc evs;
  ab_tally : (rd_window r', rd_dedup r') = fold_left tally evs (rd_window r, rd_dedup r);
  ab_bytes : rd_bytesRead r' = fold_left (fun n d => plus n (len d)) ds (rd_bytesRead r);
}.

Lemma absorbed_cons st pc r d ev ds evs r' : decoded d = Some ev ->
  absorbed st pc (flush_reader (Some st) pc r d).1 evs ds r' -> absorbed st pc r (ev :: evs) (d :: ds) r'.
Proof.
  intros Hd. rewrite (flush_reader_event _ _ _ _ _ Hd).
  destruct (tally (rd_window r, rd_dedup r) ev) as [w1 d1] eqn:Et. intros [A1 A2 A3]. cbn in *.
  split; [|cbn [fold_left]; by rewrite Et|done]. rewrite A1, <- app_assoc. done.
Qed.

(** The reader takes every entry, or stops at the cap with the crossing entry
    taken. *)
Lemma feed_flush st pc ds : forall evs r r' n err,
  Forall2 (fun d ev => decoded d = Some ev) ds evs ->
  feed (flush_reader (Some st) pc) r ds = (r', n, err) ->
  exists c, (c <= length ds)%nat /\ absorbed st pc r (take c evs) (take c ds) r'
    /\ match err with
       | None => c = n /\ c = length ds
       | Some e => e = FlushCapReached /\ c = S n /\ DefaultMaxRead < rd_bytesRead r'
       end.
Proof.
  induction ds as [|d ds IH]; intros evs r r' n err Hf; cbn [feed].
  { intros [= <- <- <-]. exists 0%nat. split_and!; [done| |done|done].
    split; cbn; [by rewrite app_nil_r|done|done]. }
  inversion Hf as [|? ev ? evs' Hd Hf']; subst.
  destruct (flush_reader (Some st) pc r d) as [r1 err1] eqn:Er.
  assert (absorbed st pc r [ev] [d] r1) as Hone.
  { apply (absorbed_cons _ _ _ _ _ [] [] _ Hd). rewrite Er. split; cbn; [by rewrite app_nil_r|done|done]. }
  rewrite (flush_reader_event _ _ _ _ _ Hd) in Er.
  destruct (tally (rd_window r, rd_dedup r) ev) as [w1 d1] eqn:Et. injection Er as Er1 Er2.
  destruct (DefaultMaxRead <? plus (rd_bytesRead r) (len d)) eqn:Ec; subst err1.
  - intros [= <- <- <-]. exists 1%nat. cbn [take length]. rewrite !take_0. split_and!; [lia|done|done|done|].
    subst r1. cbn. by apply Z.ltb_lt in Ec.
  - destruct (feed (flush_reader (Some st) pc) r1 ds) as [[r2 k] err2] eqn:Ef. intros [= <- <- <-].
    destruct (IH evs' r1 r2 k err2 Hf' Ef) as (c & Hc & Hab & Herr).
    exists (S c). cbn [take length]. split_and!; [lia| |].
    + apply (absorbed_cons _ _ _ _ _ _ _ _ Hd). rewrite (flush_reader_event _ _ _ _ _ Hd), Et. cbn [fst].
      by rewrite Er1.
    + destruct err2; [destruct Herr as (? & ? & ?); split_and!; [done|lia|done]|destruct Herr; split; lia].
Qed.

(** A log a session writes: its header gives the start date, every other entry
    is an event. *)
Record log_ok (st : Z) (w : WalLog) : Prop := {
  lo_index : log_inv w;
  lo_head : exists hd ds h, wal_entries (wlLog w) = hd :: ds
    /\ header_Unmarshal hd = Some h /\ hdStartDate h = Some st
    /\ Forall (fun d => is_Some (decoded d)) ds;
}.

Lemma decoded_omap ds : Forall (fun d => is_Some (decoded d)) ds ->
  Forall2 (fun d ev => decoded d = Some ev) ds (omap decoded ds).
Proof.
  induction 1 as [|d ds [ev Hev] _ IH]; cbn; [done|]. rewrite Hev. by constructor.
Qed.

(** What the flushes promise of the database and the counters. *)
Record rec_inv (st : Z) (pc : bytes) (s : session) : Prop := {
  rv_log : log_ok st (wm_log (ss_wal s));
  rv_count : (flushed (ss_wal s) <= length (logged (wlLog (wm_log (ss_wal s)))))%nat;
  rv_stream : db_stream (ss_db s) =
    Some (stream_of st pc (take (flushed (ss_wal s)) (logged (wlLog (wm_log (ss_wal s))))));
  rv_masking : smDataMasking (wm_metrics (ss_wal s)) =
    fold_left mask_event (take (flushed (ss_wal s)) (logged (wlLog (wm_log (ss_wal s))))) (smDataMasking newSessionMetric);
  rv_metrics : metric_ok (wm_metrics (ss_wal s));
}.

(** How a flush of an open log that is not truncated goes: the header cannot be
    read, or [c] further events are absorbed and the walk ends in one of three
    ways. *)
Inductive flush_end := EndLog | EndFail | EndCap.

Definition finish (ok : bool) (m : walLogRWMutex) (db : database) (r : reader) (c : nat) (e : flush_end) :
    walLogRWMutex * database * flush_result :=
  let m1 := set_read m (rd_bytesRead r) (rd_dedup r) in
  match e with
  | EndFail => (m1, db, FlushFailed)
  | EndLog => if (c =? 0)%nat then (m1, db, FlushOk) else flush_store m1 db ok r (start_of m - 1 + Z.of_nat c) false
  | EndCap => flush_store m1 db ok r (start_of m - 1 + Z.of_nat c - 1) true
  end.

Definition end_ok (w : WalLog) (k : nat) (r : reader) (c : nat) (e : flush_end) : Prop :=
  match e with
  | EndLog => c = length (drop k (logged (wlLog w)))
  | EndFail => ~ readable (wlLog w)
  | EndCap => (0 < c)%nat /\ DefaultMaxRead < rd_bytesRead r
  end.

Lemma start_of_flushed m : start_of m = Z.of_nat (flushed m) + 2.
Proof. unfold flushed, start_of. lia. Qed.

Lemma flush_cases st pc ok m db :
  log_ok st (wm_log m) -> wm_closed m = false -> wm_truncated m = false ->
  (flushSession pc ok m db = (m, db, FlushFailed) /\ ~ readable (wlLog (wm_log m)))
  \/ exists c r e,
      (c <= length (drop (flushed m) (logged (wlLog (wm_log m)))))%nat
      /\ absorbed st pc (new_reader m) (take c (drop (flushed m) (logged (wlLog (wm_log m)))))
           (take c (drop (flushed m) (tail (wal_entries (wlLog (wm_log m)))))) r
      /\ flushSession pc ok m db = finish ok m db r c e
      /\ end_ok (wm_log m) (flushed m) r c e.
Proof.
  intros [Hi (hd & ds & h & Ew & Eh & Es & Hd)] Hc Ht. unfold flushSession, read_header. rewrite Hc, Ht.
  destruct (wal_Read (wlLog (wm_log m)) defaultHeaderIndex) as [e|data] eqn:Er.
  { left. split; [done|]. intros Hr. unfold defaultHeaderIndex in Er. rewrite Hr in Er by lia.
    rewrite Ew in Er. done. }
  apply wal_read_entry in Er as [_ Er]. rewrite Ew in Er. cbn in Er. injection Er as <-. rewrite Eh, Es. right.
  destruct (ReadFrom_spec (flush_reader (Some st) pc) (wm_log m) (start_of m) (new_reader m))
    as (k & r & n & err & wend & F1 & F2 & F3); [unfold start_of; lia|]. rewrite F2.
  unfold logged in *. rewrite Ew in *. cbn [tail] in *.
  replace (drop (Z.to_nat (start_of m - 1)) (hd :: ds)) with (drop (flushed m) ds) in *
    by (rewrite start_of_flushed; by replace (Z.to_nat (Z.of_nat (flushed m) + 2 - 1)) with (S (flushed m)) by lia).
  pose proof (decoded_omap ds Hd) as Hf2. pose proof (Forall2_length _ _ _ Hf2) as Hlen.
  assert (Forall2 (fun d ev => decoded d = Some ev) (take k (drop (flushed m) ds)) (take k (drop (flushed m) (omap decoded ds))))
    as Hf3 by (by apply Forall2_take, Forall2_drop).
  destruct (feed_flush st pc _ _ _ _ _ _ Hf3 F1) as (c & Hcl & Hab & Herr).
  rewrite length_take in Hcl. rewrite !take_take, !Nat.min_l in Hab by lia.
  assert (length (drop (flushed m) (omap decoded ds)) = length (drop (flushed m) ds)) as Hl2
    by (rewrite !length_drop; lia).
  exists c, r, (match wend with AtEnd => EndLog | LogFailed _ => EndFail | _ => EndCap end).
  split; [lia|]. split; [done|]. destruct wend as [|e|e|]; cbn [walk_ok] in F3; [| | |done].
  - destruct F3 as [-> Ek]. destruct Herr as [<- Hall]. rewrite Ek in Hall.
    split; [|cbn [end_ok]; unfold logged; rewrite Ew; cbn [tail]; lia].
    cbn [finish]. destruct (c =? 0)%nat eqn:E0; bool_hyps.
    + replace (_ <? start_of m) with true; [done|]. symmetry. apply Z.ltb_lt. lia.
    + replace (_ <? start_of m) with false; [done|]. symmetry. apply Z.ltb_ge. lia.
  - subst err. split; [done|]. cbn. intros Hr.
    destruct (ReadFrom_readable (flush_reader (Some st) pc) (wm_log m) (start_of m) (new_reader m))
      as (r2 & n2 & err2 & wend2 & _ & G2 & G3); [unfold start_of; lia|done|].
    rewrite F2 in G2. injection G2 as _ _ <-. by destruct err2.
  - subst err. destruct Herr as (-> & -> & Hmax). split; [|split; [lia|done]].
    cbn [finish]. f_equal. lia.
Qed.

(** *** Storing what was read *)

Lemma flush_store_cases ok m db r l lastIndex cap : db_stream db = Some l ->
  flush_store m db ok r lastIndex cap = (m, db, FlushFailed) /\ ok = false
  \/ exists m' db', flush_store m db ok r lastIndex cap = (m', db', FlushOk)
      /\ db_stream db' = Some (l ++ rd_encoded r)
      /\ wm_log m' = wm_log m /\ wm_closed m' = wm_closed m
      /\ wm_lastFlushedIndex m' = (if cap then lastIndex + 1 else lastIndex)
      /\ wm_truncated m' = cap || wm_truncated m
      /\ wm_bytesRead m' = wm_bytesRead m /\ wm_aiDedup m' = wm_aiDedup m
      /\ wm_metrics m' = merge (wm_metrics m) (rd_window r).
Proof.
  intros Hl. unfold flush_store, AppendSessionStream. rewrite Hl. destruct (rd_encoded r) as [|t ts] eqn:Ee.
  - right. eexists _, _. split; [done|]. cbn. rewrite Hl, app_nil_r. done.
  - destruct ok; [|by left]. right. eexists _, _. split; [done|]. done.
Qed.

Lemma flushed_at m k : wm_lastFlushedIndex m = Z.of_nat k + 1 -> flushed m = k.
Proof. unfold flushed, start_of. lia. Qed.

(** What a flush that passes [c] events changes. *)
Record passed (st : Z) (pc : bytes) (m : walLogRWMutex) (l : list StreamEntry) (c : nat)
    (m' : walLogRWMutex) (db' : database) : Prop := {
  pa_log : wm_log m' = wm_log m;
  pa_closed : wm_closed m' = wm_closed m;
  pa_flushed : flushed m' = (flushed m + c)%nat;
  pa_there : (c <= length (drop (flushed m) (logged (wlLog (wm_log m)))))%nat;
  pa_stream : db_stream db' = Some (l ++ stream_of st pc (take c (drop (flushed m) (logged (wlLog (wm_log m))))));
  pa_metrics : (c = 0%nat /\ wm_metrics m' = wm_metrics m)
    \/ wm_metrics m' = merge (wm_metrics m)
         (fold_left tally (take c (drop (flushed m) (logged (wlLog (wm_log m))))) (newSessionMetric, wm_aiDedup m)).1;
}.

(** A flush that stores nothing. *)
Lemma passed_none st pc m l m' db : db_stream db = Some l ->
  wm_log m' = wm_log m -> wm_closed m' = wm_closed m -> wm_lastFlushedIndex m' = wm_lastFlushedIndex m ->
  wm_metrics m' = wm_metrics m -> passed st pc m l 0 m' db.
Proof.
  intros Hl E1 E2 E3 E4. split; rewrite ?take_0, ?app_nil_r, ?Nat.add_0_r; try done; [|lia|by left].
  unfold flushed, start_of. by rewrite E3.
Qed.

Lemma passed_stored st pc ok m db l r c li cap : db_stream db = Some l ->
  absorbed st pc (new_reader m) (take c (drop (flushed m) (logged (wlLog (wm_log m)))))
    (take c (drop (flushed m) (tail (wal_entries (wlLog (wm_log m)))))) r ->
  (c <= length (drop (flushed m) (logged (wlLog (wm_log m)))))%nat ->
  (if cap : bool then li + 1 else li) = Z.of_nat (flushed m + c) + 1 ->
  exists m' db' res k, flush_store (set_read m (rd_bytesRead r) (rd_dedup r)) db ok r li cap = (m', db', res)
    /\ res <> FlushPanics /\ passed st pc m l k m' db'.
Proof.
  intros Hl [A1 A2 A3] Hc Hli. cbn [new_reader rd_encoded rd_window rd_dedup app] in A1, A2.
  destruct (flush_store_cases ok (set_read m (rd_bytesRead r) (rd_dedup r)) db r l li cap Hl)
    as [[Es _]|(m' & db' & Es & B1 & B2 & B3 & B4 & B5 & B6 & B7 & B8)].
  - eexists _, _, _, 0%nat. split; [exact Es|]. split; [done|]. by apply passed_none.
  - eexists _, _, _, c. split; [exact Es|]. split; [done|]. split; try done.
    + apply flushed_at. by rewrite B4.
    + by rewrite B1, A1.
    + right. rewrite B8, <- A2. done.
Qed.

Lemma flush_effect st pc ok m db l : log_ok st (wm_log m) -> db_stream db = Some l ->
  exists m' db' res c, flushSession pc ok m db = (m', db', res) /\ res <> FlushPanics /\ passed st pc m l c m' db'.
Proof.
  intros Hlog Hl. destruct (wm_closed m) eqn:Hc; [|destruct (wm_truncated m) eqn:Ht].
  1,2: exists m, db, FlushOk, 0%nat; split; [unfold flushSession; rewrite Hc, ?Ht; done|]; split; [done|];
    by apply passed_none.
  destruct (flush_cases st pc ok m db Hlog Hc Ht) as [[E _]|(c & r & e & Hcl & Hab & E & He)].
  { exists m, db, FlushFailed, 0%nat. split; [done|]. split; [done|]. by apply passed_none. }
  rewrite E. unfold finish. pose proof (start_of_flushed m) as Hs. destruct e.
  - destruct (c =? 0)%nat eqn:E0.
    + eexists _, _, _, 0%nat. split; [done|]. split; [done|]. by apply passed_none.
    + apply (passed_stored st pc ok m db l r c); try done. lia.
  - eexists _, _, _, 0%nat. split; [done|]. split; [done|]. by apply passed_none.
  - apply (passed_stored st pc ok m db l r c); try done. lia.
Qed.

(** A flush does not panic, and keeps the invariant and the log. *)
Record flush_kept (st : Z) (pc : bytes) (ok : bool) (s s' : session) : Prop := {
  fk_inv : rec_inv st pc s';
  fk_wal : ss_wal s' = (flushSession pc ok (ss_wal s) (ss_db s)).1.1;
  fk_log : wm_log (ss_wal s') = wm_log (ss_wal s);
  fk_live : ss_live s' = ss_live s;
  fk_closer : ss_closer s' = ss_closer s;
}.

Lemma flush_step_inv st pc ok s : rec_inv st pc s ->
  exists s', flush_step pc ok s = Some s' /\ flush_kept st pc ok s s'.
Proof.
  intros [I1 I2 I3 I4 I5]. unfold flush_step.
  destruct (flush_effect st pc ok (ss_wal s) (ss_db s) _ I1 I3) as (m' & db' & res & c & E & Hres & [P1 P2 P3 P4 P5 P6]).
  exists {| ss_wal := m'; ss_db := db'; ss_live := ss_live s; ss_closer := ss_closer s; ss_metrics := ss_metrics s |}.
  rewrite E. split; [by destruct res|]. split; [|by rewrite E|done..].
  set (evs := logged (wlLog (wm_log (ss_wal s)))) in *. set (k := flushed (ss_wal s)) in *.
  assert (take (k + c) evs = take k evs ++ take c (drop k evs)) as Et
    by (rewrite <- (take_split k (k + c)) by lia; by replace (k + c - k)%nat with c by lia).
  split; cbn [ss_wal ss_db]; rewrite ?P1, ?P3; fold evs.
  - done.
  - rewrite length_drop in P4. lia.
  - by rewrite P5, Et, stream_of_app.
  - rewrite Et, fold_left_app, <- I4. destruct P6 as [[-> ->]| ->]; [by rewrite take_0|].
    rewrite <- merge_masking_fold by done. rewrite <- (tally_masking _ newSessionMetric (wm_aiDedup (ss_wal s))).
    unfold merge. by destruct (smAIAnalyzer _).
  - destruct P6 as [[_ ->]| ->]; [done|]. by apply metric_ok_merge.
Qed.

(** *** Writing *)

Lemma append_log_ok st w d ev w' err : log_ok st w -> decoded d = Some ev -> append w d = (w', err) ->
  log_ok st w' /\ logged (wlLog w') = logged (wlLog w) ++ match err with None => [ev] | Some _ => [] end.
Proof.
  intros [Hi (hd & ds & h & Ew & Eh & Es & Hd)] Hev E.
  destruct (append_spec w d w' err Hi E) as [Hi' He]. destruct err.
  - split; [split; [done|]; rewrite He; by eexists hd, ds, h|]. unfold logged. by rewrite He, app_nil_r.
  - rewrite Ew in He. split.
    + split; [done|]. exists hd, (ds ++ [d]), h. split_and!; try done. apply Forall_app. split; [done|].
      by repeat constructor; rewrite Hev.
    + unfold logged. rewrite He, Ew. cbn. rewrite omap_app. cbn. by rewrite Hev.
Qed.

(** An event that can be read back, with an order its metadata can be visited
    in. *)
Definition writable (order : list (bytes * bytes)) (e : EventLog) : Prop :=
  encodable e /\ order ≡ₚ map_to_list (elMetadata e).

Lemma Write_log_ok st w order e w' err : log_ok st w -> writable order e -> Write w (Encode order e) = (w', err) ->
  log_ok st w' /\ logged (wlLog w') = logged (wlLog w) ++ match err with None => [e] | Some _ => [] end.
Proof.
  intros Hw [He Ho] E. unfold Write in E. destruct (wlIndex w =? defaultHeaderIndex) eqn:Ei.
  { bool_hyps. destruct Hw as [Hi (hd & ds & h & Ew & _)]. unfold log_inv in Hi. rewrite Ew in Hi.
    unfold defaultHeaderIndex in *. cbn in Hi. lia. }
  destruct (Encode order e) as [d|] eqn:Ee; [|injection E as <- <-; split; [done|by rewrite app_nil_r]].
  apply (append_log_ok st w d e); [done| |done].
  destruct (decode_encode e order d [] He Ho Ee) as [_ Hd]. rewrite app_nil_r in Hd. unfold decoded. by rewrite Hd.
Qed.

Lemma set_log_inv st pc s w : rec_inv st pc s -> log_ok st w ->
  (exists more, logged (wlLog w) = logged (wlLog (wm_log (ss_wal s))) ++ more) ->
  rec_inv st pc (set_wal s (set_log (ss_wal s) w)).
Proof.
  intros [I1 I2 I3 I4 I5] Hw [more Hm]. split;
    cbn [ss_wal ss_db set_wal set_log wm_log wm_metrics]; change (flushed (set_log (ss_wal s) w)) with (flushed (ss_wal s)); try done.
  - rewrite Hm, length_app. lia.
  - by rewrite Hm, take_app_prefix.
  - by rewrite Hm, take_app_prefix.
Qed.

(** *** Any run *)

Definition act_ok (a : act) : Prop :=
  match a with
  | Receive now t event md order => writable order (New now t event md)
  | CloseStep now _ errMsg => in_int64 now /\ len (default [] errMsg) < 2 ^ 31
  | _ => True
  end.

Record session_inv (st : Z) (pc : bytes) (s : session) : Prop := {
  si_rec : rec_inv st pc s;
  si_closer : forall msg, ss_closer s = CTaken (Some msg) -> len msg < 2 ^ 31;
  si_live : exists ws, broker_inv (ss_live s) ws;
}.

Lemma error_event_writable now msg : in_int64 now -> len msg < 2 ^ 31 -> writable [] (New now ErrorType (Some msg) None).
Proof.
  intros Hn Hm. assert (elMetadata (New now ErrorType (Some msg) None) = ∅) as E by (cbn; apply fmap_empty).
  split; [|by rewrite E, map_to_list_empty]. split; [|exact Hn|rewrite E; apply map_Forall_empty].
  unfold logSize. rewrite E, map_to_list_empty. cbn [entries_size foldr New elPayload default]. cbn. lia.
Qed.

Lemma close_wal_inv st pc s : rec_inv st pc s -> rec_inv st pc (close_wal s).
Proof.
  intros [[L1 L2] I2 I3 I4 I5].
  assert (logged (wal_Close (wlLog (wm_log (ss_wal s)))) = logged (wlLog (wm_log (ss_wal s)))) as El
    by (unfold logged; by rewrite wal_close_keeps).
  split; cbn [close_wal ss_wal ss_db wm_log wlLog wm_metrics]; rewrite ?El; try done.
  split; cbn; rewrite ?wal_close_keeps; [|done]. unfold log_inv in *. cbn. by rewrite wal_close_keeps.
Qed.

Lemma rec_inv_same st pc s s' : ss_wal s' = ss_wal s -> ss_db s' = ss_db s -> rec_inv st pc s -> rec_inv st pc s'.
Proof. intros E1 E2 []. by split; rewrite ?E1, ?E2. Qed.

Lemma session_close_inv st pc now ok errMsg s :
  in_int64 now /\ len (default [] errMsg) < 2 ^ 31 -> session_inv st pc s ->
  exists s', close_step pc now ok errMsg s = Some s' /\ session_inv st pc s'.
Proof.
  intros [Hnow Herr] [Hr Hc Hl]. unfold close_step. destruct (ss_closer s) as [|[msg|]| | |] eqn:Ec.
  - eexists. split; [done|]. split; [by apply (rec_inv_same _ _ s)| |done]. cbn. intros msg [= ->]. done.
  - destruct (Write _ _) as [w err] eqn:Ew.
    destruct (Write_log_ok st _ _ _ _ _ (rv_log _ _ _ Hr) (error_event_writable now msg Hnow (Hc msg eq_refl)) Ew) as [W1 W2].
    eexists. split; [done|]. split; [|done|done].
    apply (rec_inv_same _ _ (set_wal s (set_log (ss_wal s) w))); [done..|]. apply set_log_inv; eauto.
  - eexists. split; [done|]. split; [by apply (rec_inv_same _ _ s)|done|done].
  - destruct (flush_step_inv st pc ok s Hr) as (s' & -> & []). eexists. split; [done|].
    split; [by apply (rec_inv_same _ _ s')|done|cbn; by rewrite fk_live0].
  - eexists. split; [done|]. split; [by apply close_wal_inv|done|done].
  - eexists. split; [done|]. split; [done|by rewrite Ec|done].
Qed.

Lemma receive_step_inv st pc sid now t event md order s :
  writable order (New now t event md) -> session_inv st pc s ->
  exists s', fst <$> writeOnReceive sid now t event md order s = Some s' /\ session_inv st pc s'.
Proof.
  intros Hw [Hr Hc [ws Hl]]. unfold writeOnReceive. destruct (Write _ _) as [w err] eqn:Ew.
  destruct (Write_log_ok st _ _ _ _ _ (rv_log _ _ _ Hr) Hw Ew) as [W1 W2].
  assert (rec_inv st pc (set_wal s (set_log (ss_wal s) w))) as Hr' by (apply set_log_inv; eauto).
  destruct err; cbn [fmap option_fmap option_map fst]; [eexists; split; [done|]; split; eauto|].
  destruct (Publish_inv (ss_live s) ws sid {| evTime := now; evType := t; evPayload := default [] event |} Hl)
    as (live & Ep & Hl'). cbn [ss_live set_wal]. rewrite Ep. cbn. eexists. split; [done|].
  split; [|done|eauto]. by apply (rec_inv_same _ _ (set_wal s (set_log (ss_wal s) w))).
Qed.

Lemma set_files_logged s l : logged (wlLog (wm_log (ss_wal (set_files s l)))) = logged (wlLog (wm_log (ss_wal s))).
Proof. unfold set_files. case_bool_decide as E; [|done]. unfold logged. cbn. by rewrite E. Qed.

Lemma set_files_inv st pc s l : rec_inv st pc s -> rec_inv st pc (set_files s l).
Proof.
  intros Hr. unfold set_files. case_bool_decide as E; [|done]. destruct (rv_log _ _ _ Hr) as [Hi Hl].
  apply set_log_inv; [done| |exists []; unfold logged; cbn; by rewrite E, app_nil_r].
  split; cbn; [|by rewrite E]. unfold log_inv in *. cbn. by rewrite E.
Qed.

Lemma step_inv st sid pc s a : act_ok a -> session_inv st pc s ->
  exists s', step sid pc s a = Some s' /\ session_inv st pc s'.
Proof.
  intros Ha Hs. destruct a as [now t event md order|ok|now ok errMsg|op|l]; cbn [step act_ok] in *.
  - by apply receive_step_inv.
  - destruct Hs as [Hr Hc Hl]. destruct (flush_step_inv st pc ok s Hr) as (s' & -> & []).
    exists s'. split; [done|]. split; [done|by rewrite fk_closer0|by rewrite fk_live0].
  - by apply session_close_inv.
  - destruct Hs as [Hr Hc [ws Hl]]. destruct (broker_exec_inv _ _ op Hl) as (live & -> & Hl'). cbn.
    eexists. split; [done|]. split; [|done|eauto]. by apply (rec_inv_same _ _ s).
  - eexists. split; [done|]. destruct Hs as [Hr Hc Hl].
    split; [by apply set_files_inv|unfold set_files; by case_bool_decide..].
Qed.

Lemma session_run_inv st sid pc acts : forall s, Forall act_ok acts -> session_inv st pc s ->
  exists s', run sid pc s acts = Some s' /\ session_inv st pc s'.
Proof.
  induction acts as [|a acts IH]; intros s Ha Hs; [by exists s|]. inversion Ha; subst. cbn [run].
  destruct (step_inv st sid pc s a) as (s' & -> & Hs'); [done..|]. cbn. by apply IH.
Qed.

(** The events a step writes: the received one, or the reason of the
    disconnect, when the log took it. *)
Definition written (enc : EventLog -> option bytes) (s : session) (e : EventLog) : list EventLog :=
  match (Write (wm_log (ss_wal s)) (enc e)).2 with None => [e] | Some _ => [] end.

Definition accepted_by (s : session) (a : act) : list EventLog :=
  match a with
  | Receive now t event md order => written (Encode order) s (New now t event md)
  | CloseStep now _ _ =>
      match ss_closer s with
      | CTaken (Some msg) => written (Encode []) s (New now ErrorType (Some msg) None)
      | _ => []
      end
  | _ => []
  end.

Fixpoint accepted (sid pc : bytes) (s : session) (acts : list act) : list EventLog :=
  match acts with
  | [] => []
  | a :: acts =>
      accepted_by s a ++ match step sid pc s a with Some s => accepted sid pc s acts | None => [] end
  end.

Lemma session_step_logged st sid pc s a s' : act_ok a -> session_inv st pc s -> step sid pc s a = Some s' ->
  logged (wlLog (wm_log (ss_wal s'))) = logged (wlLog (wm_log (ss_wal s))) ++ accepted_by s a.
Proof.
  intros Ha [Hr Hc _]. destruct a as [now t event md order|ok|now ok errMsg|op|l]; cbn [step act_ok accepted_by] in *.
  - unfold writeOnReceive, written. destruct (Write _ _) as [w err] eqn:Ew.
    destruct (Write_log_ok st _ _ _ _ _ (rv_log _ _ _ Hr) Ha Ew) as [_ W2].
    destruct err; [intros [= <-]; exact W2|]. destruct (Publish _ _ _); [|done]. intros [= <-]. exact W2.
  - destruct (flush_step_inv st pc ok s Hr) as (s1 & -> & []). intros [= <-]. by rewrite fk_log0, app_nil_r.
  - destruct Ha as [Hn _]. unfold close_step.
    destruct (ss_closer s) as [|[msg|]| | |] eqn:Ec; rewrite ?app_nil_r; try (by intros [= <-]).
    + unfold written. destruct (Write _ _) as [w err] eqn:Ew. intros [= <-].
      by destruct (Write_log_ok st _ _ _ _ _ (rv_log _ _ _ Hr) (error_event_writable now msg Hn (Hc msg eq_refl)) Ew) as [_ W2].
    + destruct (flush_step_inv st pc ok s Hr) as (s1 & -> & []). cbn. intros [= <-]. cbn. by rewrite fk_log0.
    + intros [= <-]. unfold logged. cbn. by rewrite wal_close_keeps.
  - destruct (broker_exec _ _); [|done]. intros [= <-]. by rewrite app_nil_r.
  - intros [= <-]. by rewrite set_files_logged, app_nil_r.
Qed.

Lemma run_logged st sid pc acts : forall s s', Forall act_ok acts -> session_inv st pc s -> run sid pc s acts = Some s' ->
  logged (wlLog (wm_log (ss_wal s'))) = logged (wlLog (wm_log (ss_wal s))) ++ accepted sid pc s acts.
Proof.
  induction acts as [|a acts IH]; intros s s' Ha Hs; cbn [run accepted]; [intros [= <-]; by rewrite app_nil_r|].
  inversion Ha; subst. destruct (step_inv st sid pc s a) as (s1 & E1 & Hs1); [done..|]. rewrite E1. cbn.
  intros E. rewrite (IH s1 s'), (session_step_logged st sid pc s a s1), app_assoc by done. done.
Qed.

Lemma connected_logged l0 orgID sid status start m : wal_entries l0 = [] ->
  writeOnConnect (inr l0) orgID sid status start = inr m -> logged (wlLog (wm_log m)) = [].
Proof.
  intros Hl0. unfold writeOnConnect, OpenWriteHeader, WriteHeader. cbn.
  destruct (negb _); [done|]. destruct (header_Marshal _) as [d|]; [|done].
  destruct (append _ d) as [w err] eqn:Ea. destruct err; [done|]. intros [= <-].
  apply append_spec in Ea as [_ He]; [|unfold log_inv; cbn; by rewrite Hl0]. cbn in *. rewrite Hl0 in He.
  unfold logged. by rewrite He.
Qed.

Lemma connected_inv `{!HeaderLaws} st pc l0 orgID sid status m :
  wal_entries l0 = [] -> writeOnConnect (inr l0) orgID sid status (Some st) = inr m ->
  session_inv st pc (connected m broker_New).
Proof.
  intros Hl0. unfold writeOnConnect, OpenWriteHeader, WriteHeader. cbn.
  destruct (negb _); [done|]. destruct (header_Marshal _) as [d|] eqn:Em; [|done].
  destruct (append _ d) as [w err] eqn:Ea. destruct err; [done|]. intros [= <-].
  apply append_spec in Ea as [Hi He]; [|unfold log_inv; cbn; by rewrite Hl0]. cbn in He. rewrite Hl0 in He.
  destruct (header_start _ _ Em) as (h & Eh & Es). cbn in Es.
  split; [|done|exists []; apply broker_inv_New].
  split; cbn; try done; [|apply Nat.le_0_l].
  split; [done|]. exists d, [], h. done.
Qed.

(** C20 A session that has a start date and a new log, and whose events have keys free of NUL
    bytes, times of 64 bits and encodings below 4 GiB: under any
    interleaving of receivers, ticks, the closing goroutine and the followers of
    the live stream, and whatever appends to the database fail and reads of the
    log begin or cease to fail, no flush, write, publication or call of a
    follower panics, the log reads back as the events it accepted, and the
    stored stream is that of the first [flushed] of them, each once and in
    order; the masking counts kept for the session are those of the same
    events. *)
Theorem stream_is_log_prefix `{!HeaderLaws} st pc l0 orgID sid status m acts :
  wal_entries l0 = [] -> writeOnConnect (inr l0) orgID sid status (Some st) = inr m -> Forall act_ok acts ->
  let events := accepted sid pc (connected m broker_New) acts in
  exists s, run sid pc (connected m broker_New) acts = Some s
    /\ logged (wlLog (wm_log (ss_wal s))) = events
    /\ (flushed (ss_wal s) <= length events)%nat
    /\ db_stream (ss_db s) = Some (stream_of st pc (take (flushed (ss_wal s)) events))
    /\ smDataMasking (wm_metrics (ss_wal s)) =
         fold_left mask_event (take (flushed (ss_wal s)) events) (smDataMasking newSessionMetric).
Proof.
  intros Hl0 Hm Ha events. pose proof (connected_inv st pc l0 orgID sid status m Hl0 Hm) as Hs0. destruct (session_run_inv st sid pc acts (connected m broker_New) Ha) as (s & Hs & [[I1 I2 I3 I4 I5] _ _]);
    [done|].
  assert (logged (wlLog (wm_log (ss_wal s))) = events) as El.
  { rewrite (run_logged st sid pc acts _ s Ha Hs0 Hs). cbn. by rewrite (connected_logged l0 orgID sid status (Some st)). }
  rewrite El in *. exists s. split_and!; done.
Qed.

(** *** Runs in which nothing fails *)

Definition total (ds : list bytes) : Z := foldr (fun d n => len d + n) 0 ds.

Lemma log_total_cons d ds : total (d :: ds) = len d + total ds.
Proof. done. Qed.

Lemma log_total_app a b : total (a ++ b) = total a + total b.
Proof. induction a as [|d a IH]; [done|]. cbn [app]. rewrite !log_total_cons, IH. lia. Qed.

Lemma total_nonneg ds : 0 <= total ds.
Proof. induction ds as [|d ds IH]; [done|]. rewrite log_total_cons. pose proof (len_nonneg d). lia. Qed.

Lemma total_take k ds : total (take k ds) <= total ds.
Proof. rewrite <- (take_drop k ds) at 2. rewrite log_total_app. pose proof (total_nonneg (drop k ds)). lia. Qed.

Lemma fold_plus_total ds : forall n, 0 <= n -> n + total ds < 2 ^ 63 ->
  fold_left (fun n d => plus n (len d)) ds n = n + total ds.
Proof.
  induction ds as [|d ds IH]; intros n Hn Hb; [unfold total; cbn; lia|].
  rewrite log_total_cons in *. pose proof (total_nonneg ds). pose proof (len_nonneg d).
  cbn [fold_left]. assert (plus n (len d) = n + len d) as -> by (apply wrap_id; unfold in_int64; lia).
  rewrite IH; lia.
Qed.

(** What holds as long as the log is within the limit. *)
Definition caught_up (m : walLogRWMutex) : Prop :=
  let ds := tail (wal_entries (wlLog (wm_log m))) in
  total ds <= DefaultMaxRead ->
  wm_truncated m = false
  /\ wm_bytesRead m = total (take (flushed m) ds)
  /\ (wm_metrics m, wm_aiDedup m)
     = fold_left tally (take (flushed m) (logged (wlLog (wm_log m)))) (newSessionMetric, newAIVerdictDedup).

Lemma flush_catches_up st pc m db l :
  log_ok st (wm_log m) -> metric_ok (wm_metrics m) -> (flushed m <= length (logged (wlLog (wm_log m))))%nat ->
  db_stream db = Some l -> wm_closed m = false ->
  readable (wlLog (wm_log m)) -> caught_up m ->
  caught_up (flushSession pc true m db).1.1
  /\ (total (tail (wal_entries (wlLog (wm_log m)))) <= DefaultMaxRead ->
      flushed (flushSession pc true m db).1.1 = length (logged (wlLog (wm_log m)))).
Proof.
  intros Hlog Hok Hcount Hl Hc Hr Hup.
  destruct (flush_effect st pc true m db l Hlog Hl) as (m0 & db0 & res0 & c0 & E0 & _ & Hp).
  assert (wm_log (flushSession pc true m db).1.1 = wm_log m) as Elog by (rewrite E0; apply (pa_log _ _ _ _ _ _ _ Hp)).
  unfold caught_up. rewrite Elog. clear m0 db0 res0 c0 E0 Hp Elog.
  set (ds := tail (wal_entries (wlLog (wm_log m)))). set (evs := logged (wlLog (wm_log m))).
  enough (total ds <= DefaultMaxRead ->
    wm_truncated (flushSession pc true m db).1.1 = false
    /\ wm_bytesRead (flushSession pc true m db).1.1 = total (take (flushed (flushSession pc true m db).1.1) ds)
    /\ (wm_metrics (flushSession pc true m db).1.1, wm_aiDedup (flushSession pc true m db).1.1)
       = fold_left tally (take (flushed (flushSession pc true m db).1.1) evs) (newSessionMetric, newAIVerdictDedup)
    /\ flushed (flushSession pc true m db).1.1 = length evs) by naive_solver.
  intros Hmax. destruct (Hup Hmax) as (Ht & Hb & Hm). fold ds evs in Hb, Hm. fold evs in Hcount.
  destruct (flush_cases st pc true m db Hlog Hc Ht) as [[_ Hn]|(c & r & e & Hcl & [A1 A2 A3] & E & He)]; [done|].
  fold ds evs in Hcl, A1, A2, A3. cbn [new_reader rd_window rd_dedup rd_bytesRead rd_encoded] in A1, A2, A3.
  assert (rd_bytesRead r = total (take (flushed m + c) ds)) as Hbytes.
  { assert (total (take (flushed m + c) ds) = total (take (flushed m) ds) + total (take c (drop (flushed m) ds))) as Esum.
    { rewrite <- log_total_app. f_equal. rewrite <- (take_split (flushed m) (flushed m + c)) by lia.
      by replace (flushed m + c - flushed m)%nat with c by lia. }
    pose proof (total_take (flushed m + c) ds). pose proof (total_nonneg (take (flushed m) ds)).
    rewrite A3, Hb, fold_plus_total; [lia|lia|]. unfold DefaultMaxRead in *. lia. }
  destruct e; [|done|]; cbn [end_ok] in He.
  2:{ destruct He as [_ He]. pose proof (total_take (flushed m + c) ds). lia. }
  fold evs in He. rewrite length_drop in He.
  assert (fold_left tally (take (flushed m + c) evs) (newSessionMetric, newAIVerdictDedup)
    = (merge (wm_metrics m) (rd_window r), rd_dedup r)) as Htally.
  { rewrite <- (take_split (flushed m) (flushed m + c)) by lia. rewrite fold_left_app, <- Hm.
    replace (flushed m + c - flushed m)%nat with c by lia.
    rewrite <- (merge_new (wm_metrics m)) at 1 by done. rewrite <- merge_window by done. by rewrite <- A2. }
  rewrite E. unfold finish. destruct (c =? 0)%nat eqn:Ez.
  - apply Nat.eqb_eq in Ez. rewrite Ez in Hbytes, Htally, A2. rewrite Nat.add_0_r in Hbytes, Htally. rewrite take_0 in A2. injection A2 as Ew Ed.
    cbn [fst set_read wm_truncated wm_bytesRead wm_metrics wm_aiDedup].
    change (flushed (set_read m (rd_bytesRead r) (rd_dedup r))) with (flushed m).
    split_and!; [done|done| |lia]. rewrite Htally, Ew, merge_new by done. done.
  - destruct (flush_store_cases true (set_read m (rd_bytesRead r) (rd_dedup r)) db r l (start_of m - 1 + Z.of_nat c) false Hl)
      as [[_ ?]|(m' & db' & Es & B1 & B2 & B3 & B4 & B5 & B6 & B7 & B8)]; [done|].
    rewrite Es. cbn [fst]. pose proof (start_of_flushed m) as Hs.
    assert (flushed m' = (flushed m + c)%nat) as -> by (apply flushed_at; rewrite B4; lia).
    rewrite B5, B6, B7, B8, Htally. cbn. split_and!; [done|done|done|lia].
Qed.

(** The database takes every append, and the log can be read until it is
    closed. *)
Fixpoint calm (sid pc : bytes) (s : session) (acts : list act) : Prop :=
  match acts with
  | [] => True
  | a :: acts =>
      match a with Tick ok | CloseStep _ ok _ => ok = true | _ => True end
      /\ (wm_closed (ss_wal s) = false -> readable (wlLog (wm_log (ss_wal s))))
      /\ match step sid pc s a with Some s => calm sid pc s acts | None => False end
  end.

Lemma caught_up_log m w : caught_up m -> (flushed m <= length (tail (wal_entries (wlLog (wm_log m)))))%nat ->
  (flushed m <= length (logged (wlLog (wm_log m))))%nat ->
  (exists more, tail (wal_entries (wlLog w)) = tail (wal_entries (wlLog (wm_log m))) ++ more) ->
  caught_up (set_log m w).
Proof.
  intros Hup Hle1 Hle2 [more Em] Hmax. cbn [set_log wm_log] in *. change (flushed (set_log m w)) with (flushed m).
  assert (logged (wlLog w) = logged (wlLog (wm_log m)) ++ omap decoded more) as El
    by (unfold logged; by rewrite Em, omap_app).
  rewrite Em, log_total_app in Hmax. pose proof (total_nonneg more). destruct (Hup ltac:(lia)) as (Ht & Hb & Hm).
  rewrite Em, El, !take_app_prefix by done. done.
Qed.

Lemma log_ok_length st w : log_ok st w -> length (logged (wlLog w)) = length (tail (wal_entries (wlLog w))).
Proof.
  intros [_ (hd & ds & h & Ew & _ & _ & Hd)]. unfold logged. rewrite Ew. cbn.
  symmetry. eapply Forall2_length. by apply decoded_omap.
Qed.

Lemma Write_appends st w enc w' err : log_ok st w -> Write w enc = (w', err) ->
  exists more, tail (wal_entries (wlLog w')) = tail (wal_entries (wlLog w)) ++ more.
Proof.
  intros [Hi (hd & ds & h & Ew & _)]. unfold Write.
  destruct (_ =? _); [intros [= <- _]; exists []; by rewrite app_nil_r|].
  destruct enc as [d|]; [|intros [= <- _]; exists []; by rewrite app_nil_r].
  intros E. destruct (append_spec _ _ _ _ Hi E) as [_ He]. destruct err; rewrite He; [exists []; by rewrite app_nil_r|].
  exists [d]. by rewrite Ew.
Qed.

Lemma Write_caught_up st pc s enc w' err : rec_inv st pc s -> caught_up (ss_wal s) ->
  Write (wm_log (ss_wal s)) enc = (w', err) -> caught_up (set_log (ss_wal s) w').
Proof.
  intros [I1 I2 _ _ _] Hup E. pose proof (log_ok_length _ _ I1).
  apply caught_up_log; [done|lia|done|]. by apply (Write_appends st _ enc _ err).
Qed.

Lemma flush_step_caught_up st pc s s' : rec_inv st pc s -> caught_up (ss_wal s) ->
  (wm_closed (ss_wal s) = false -> readable (wlLog (wm_log (ss_wal s)))) ->
  flush_kept st pc true s s' -> caught_up (ss_wal s').
Proof.
  intros [I1 I2 I3 I4 I5] Hup Hr [_ -> _ _ _]. destruct (wm_closed (ss_wal s)) eqn:Hc.
  - unfold flushSession. by rewrite Hc.
  - eapply flush_catches_up; eauto.
Qed.

Lemma step_caught_up st sid pc s a s' :
  session_inv st pc s -> caught_up (ss_wal s) ->
  match a with Tick ok | CloseStep _ ok _ => ok = true | _ => True end ->
  (wm_closed (ss_wal s) = false -> readable (wlLog (wm_log (ss_wal s)))) ->
  step sid pc s a = Some s' -> caught_up (ss_wal s').
Proof.
  intros [Hi _ _] Hup Hok Hr. destruct a as [now t event md order|ok|now ok errMsg|op|l]; cbn [step] in *.
  - unfold writeOnReceive. destruct (Write _ _) as [w err] eqn:Ew.
    pose proof (Write_caught_up st pc s _ _ _ Hi Hup Ew) as Hc.
    destruct err; [by intros [= <-]|]. destruct (Publish _ _ _); [|done]. by intros [= <-].
  - subst ok. destruct (flush_step_inv st pc true s Hi) as (s1 & -> & Hk). intros [= <-].
    by apply (flush_step_caught_up st pc s).
  - subst ok. unfold close_step. destruct (ss_closer s) as [|[msg|]| | |]; try (by intros [= <-]).
    + destruct (Write _ _) as [w err] eqn:Ew. intros [= <-]. by apply (Write_caught_up st pc s _ _ _ Hi Hup Ew).
    + destruct (flush_step_inv st pc true s Hi) as (s1 & -> & Hk). cbn. intros [= <-].
      by apply (flush_step_caught_up st pc s s1).
    + intros [= <-]. unfold caught_up, logged in *. cbn. rewrite !wal_close_keeps. exact Hup.
  - destruct (broker_exec _ _); [|done]. by intros [= <-].
  - intros [= <-]. unfold set_files. case_bool_decide as E; [|done]. unfold caught_up, logged in *. cbn.
    change (flushed (set_log (ss_wal s) _)) with (flushed (ss_wal s)). rewrite E. exact Hup.
Qed.

Lemma calm_run st sid pc acts : forall s s', Forall act_ok acts -> session_inv st pc s -> caught_up (ss_wal s) ->
  calm sid pc s acts -> run sid pc s acts = Some s' -> session_inv st pc s' /\ caught_up (ss_wal s').
Proof.
  induction acts as [|a acts IH]; intros s s' Ha Hs Hup Hcalm; cbn [run]; [by intros [= <-]|].
  inversion Ha; subst. destruct Hcalm as (Hok & Hr & Hcalm).
  destruct (step_inv st sid pc s a) as (s1 & E1 & Hs1); [done..|]. rewrite E1 in *. cbn.
  apply IH; try done. by apply (step_caught_up st sid pc s a).
Qed.

(** C36 When the database takes every append, the log can be read and it stays
    within the limit, a flush of an open log brings the stream up to date: it
    holds every event of the log, nothing is cut off, and the session's
    metrics, with each analyzed request counted once, are those of one pass
    over all events. *)
Theorem calm_flush_stores_all `{!HeaderLaws} st pc l0 orgID sid status m acts s :
  wal_entries l0 = [] -> writeOnConnect (inr l0) orgID sid status (Some st) = inr m -> Forall act_ok acts ->
  calm sid pc (connected m broker_New) acts -> run sid pc (connected m broker_New) acts = Some s ->
  wm_closed (ss_wal s) = false -> readable (wlLog (wm_log (ss_wal s))) ->
  total (tail (wal_entries (wlLog (wm_log (ss_wal s))))) <= DefaultMaxRead ->
  let events := accepted sid pc (connected m broker_New) acts in
  exists s', flush_step pc true s = Some s'
  /\ db_stream (ss_db s') = Some (stream_of st pc events)
  /\ wm_truncated (ss_wal s') = false
  /\ wm_metrics (ss_wal s') = (fold_left tally events (newSessionMetric, newAIVerdictDedup)).1.
Proof.
  intros Hl0 Hm Ha Hcalm Hrun Hc Hr Hmax events.
  pose proof (connected_inv st pc l0 orgID sid status m Hl0 Hm) as H0'.
  assert (caught_up (ss_wal (connected m broker_New))) as Hup0.
  { intros _. cbn. revert Hm. unfold writeOnConnect. destruct (OpenWriteHeader _ _); [done|]. by intros [= <-]. }
  destruct (calm_run st sid pc acts _ _ Ha H0' Hup0 Hcalm Hrun) as [[Hi _ _] Hup].
  destruct (flush_step_inv st pc true s Hi) as (s' & Es & [[_ _ J3 _ _] Ewal Elog _ _]). destruct Hi as [I1 I2 I3 I4 I5].
  destruct (flush_catches_up st pc (ss_wal s) (ss_db s) _ I1 I5 I2 I3 Hc Hr Hup) as [Hup' Hall].
  specialize (Hall Hmax). rewrite <- Ewal in Hall, Hup'. rewrite Elog, Hall, take_ge in J3 by lia.
  unfold caught_up in Hup'. rewrite Elog, Hall, (take_ge (logged _)) in Hup' by lia.
  assert (logged (wlLog (wm_log (ss_wal s))) = events) as El.
  { rewrite (run_logged st sid pc acts _ s Ha H0' Hrun). cbn. by rewrite (connected_logged l0 orgID sid status (Some st)). }
  rewrite El in *. destruct (Hup' Hmax) as (Ht & _ & Hm'). exists s'. split_and!; [done|done|done|]. by rewrite <- Hm'.
Qed.
End Recording.

(** ** Concrete sessions *)

(** A log in memory, which can be closed. *)
Definition mem_wal : WalLib := {|
  Log := list bytes * bool;
  wal_entries := fst;
  wal_Write l i d :=
    if l.2 then (l, Some (WalFailure (B "closed")))
    else if i =? Z.of_nat (length l.1) + 1 then ((l.1 ++ [d], false), None)
    else (l, Some (WalFailure (B "out of order")));
  wal_Read l i :=
    if l.2 then inl (WalFailure (B "closed"))
    else if i <? 1 then inl ErrNotFound
    else match l.1 !! Z.to_nat (i - 1) with Some d => inr d | None => inl ErrNotFound end;
  wal_Close l := (l.1, true);
|}.
#[local] Existing Instance mem_wal.

Lemma mem_wal_laws : WalLaws.
Proof.
  split; cbn.
  - intros [l [|]] i d l' E; cbn in E; [done|]. destruct (i =? _) eqn:Ei; [|done]. bool_hyps. by injection E as <-.
  - intros [l [|]] i d l' e E; cbn in E; [by injection E as <- _|]. destruct (i =? _); [done|]. by injection E as <- _.
  - intros [l [|]] i d E; cbn in E; [done|]. destruct (i <? 1) eqn:Ei; [done|]. bool_hyps.
    destruct (l !! _) eqn:El; [|done]. injection E as ->. split; [lia|done].
  - intros [l [|]] i Hi E; cbn in E; [done|]. replace (i <? 1) with false in E by (symmetry; apply Z.ltb_ge; lia).
    destruct (l !! _) eqn:El; [done|]. apply lookup_ge_None in El. cbn. lia.
  - done.
Qed.
#[local] Existing Instance mem_wal_laws.

Lemma mem_wal_readable l : readable (l, false).
Proof. intros i Hi. cbn. replace (i <? 1) with false by (symmetry; apply Z.ltb_ge; lia). done. Qed.

(** A header is its start date. *)
Definition date_json : HeaderJSON := {|
  header_Marshal h := match hdStartDate h with
    | Some t => if (0 <=? t) && (t <? 2 ^ 63) then Some (put_be 8 t) else None
    | None => Some []
    end;
  header_Unmarshal d := Some {| hdEventLogVersion := []; hdOrgID := []; hdSessionID := []; hdStatus := [];
    hdStartDate := if (length d =? 0)%nat then None else Some (get_be d) |};
|}.
#[local] Existing Instance date_json.

Lemma date_json_laws : HeaderLaws.
Proof.
  split. intros h d. cbn [header_Marshal date_json]. destruct (hdStartDate h) as [t|] eqn:E.
  - destruct (_ && _) eqn:Eb; [|done]. bool_hyps. intros Ed%(inj Some). subst d. eexists. split; [done|].
    cbn [hdStartDate]. rewrite length_put_be. cbn [Nat.eqb]. rewrite get_put_be. f_equal. apply Z.mod_small. cbn. lia.
  - intros [= <-]. eexists. split; [done|]. done.
Qed.
#[local] Existing Instance date_json_laws.

(** Every verdict is the same, of the first request of a connection. *)
Definition one_verdict : AIAnalyzerVerdict :=
  {| vdMetric := {| avOutcome := B "block"; avRiskLevel := B "high"; avTitle := []; avExplanation := []; avRuleName := [] |};
     vdSeq := 1; vdConnID := B "c" |}.
Definition plain_specs : SpecTypes := {|
  spec_Decode d := Some [Some {| ovTransformedBytes := len d; ovSummaries := []; ovErr := false |}];
  DecodeAIAnalyzerVerdict _ := Some one_verdict;
|}.
Definition plain_seconds : SecondsText := {| seconds_text _ := B "0" |}.
#[local] Existing Instance plain_specs.
#[local] Existing Instance plain_seconds.
#[local] Existing Instance ascii_only.
#[local] Existing Instance plain_lib.

Definition empty_log : @Log mem_wal := ([], false).

Definition example_wal : walLogRWMutex :=
  match writeOnConnect (inr empty_log) (B "o") (B "s") (B "open") (Some 5) with
  | inr m => m
  | inl _ =>
      {| wm_log := {| wlLog := empty_log; wlIndex := 0 |}; wm_lastFlushedIndex := 0; wm_bytesFlushed := 0;
         wm_bytesRead := 0; wm_truncated := false; wm_closed := false; wm_metrics := newSessionMetric;
         wm_aiDedup := newAIVerdictDedup |}
  end.

Definition verdict_md : gmap bytes (option bytes) := {[ AIAnalyzerInfoKey := Some (B "v") ]}.
Definition receive_ls : act := Receive 6 InputType (Some (B "ls")) None [].
Definition receive_ok : act := Receive 7 OutputType (Some (B "ok")) (Some verdict_md) [(AIAnalyzerInfoKey, B "v")].

Lemma receive_ls_ok : act_ok receive_ls.
Proof.
  assert (elMetadata (New 6 InputType (Some (B "ls")) None) = ∅) as E by (cbn; apply fmap_empty).
  split; [split; [vm_compute; done|cbn; lia|rewrite E; apply map_Forall_empty]|by rewrite E, map_to_list_empty].
Qed.

Lemma receive_ok_ok : act_ok receive_ok.
Proof.
  assert (elMetadata (New 7 OutputType (Some (B "ok")) (Some verdict_md)) = {[ AIAnalyzerInfoKey := B "v" ]}) as E
    by (cbn; unfold verdict_md; by rewrite map_fmap_singleton).
  split; [split; [vm_compute; done|cbn; lia|]|].
  - rewrite E, map_Forall_singleton. unfold AIAnalyzerInfoKey. intros Hin.
    apply (bool_decide_eq_true_2 _) in Hin. vm_compute in Hin. done.
  - rewrite E, map_to_list_singleton. done.
Qed.

Definition example_acts : list act := [receive_ls; Tick false; receive_ok; Tick true; CloseStep 8 true (Some (B "gone"))].

Lemma example_acts_ok : Forall act_ok example_acts.
Proof.
  apply Forall_cons. split; [exact receive_ls_ok|]. apply Forall_cons. split; [done|].
  apply Forall_cons. split; [exact receive_ok_ok|]. apply Forall_cons. split; [done|].
  apply Forall_cons. split; [|by apply Forall_nil]. split; [unfold in_int64; lia|done].
Qed.

Lemma stream_is_log_prefix_witness :
  exists s, run (B "s") (B "tcp") (connected example_wal broker_New) example_acts = Some s
    /\ logged (wlLog (wm_log (ss_wal s))) = accepted (B "s") (B "tcp") (connected example_wal broker_New) example_acts
    /\ (flushed (ss_wal s) <= length (accepted (B "s") (B "tcp") (connected example_wal broker_New) example_acts))%nat
    /\ db_stream (ss_db s) = Some (stream_of 5 (B "tcp")
         (take (flushed (ss_wal s)) (accepted (B "s") (B "tcp") (connected example_wal broker_New) example_acts)))
    /\ smDataMasking (wm_metrics (ss_wal s)) =
         fold_left mask_event (take (flushed (ss_wal s)) (accepted (B "s") (B "tcp") (connected example_wal broker_New) example_acts))
           (smDataMasking newSessionMetric).
Proof.
  apply (stream_is_log_prefix 5 (B "tcp") empty_log (B "o") (B "s") (B "open") example_wal example_acts);
    [reflexivity|vm_compute; reflexivity|apply example_acts_ok].
Defined.

(** [calm], as a check on logs in memory. *)
Fixpoint calmb (sid pc : bytes) (s : session) (acts : list act) : bool :=
  match acts with
  | [] => true
  | a :: acts =>
      match a with Tick ok | CloseStep _ ok _ => ok | _ => true end
      && (wm_closed (ss_wal s) || negb (snd (wlLog (wm_log (ss_wal s)))))
      && match step sid pc s a with Some s => calmb sid pc s acts | None => false end
  end.

Lemma mem_readable (l : @Log mem_wal) : snd l = false -> readable l.
Proof. destruct l as [l b]. cbn. intros ->. apply mem_wal_readable. Qed.

Lemma calmb_calm sid pc acts : forall s, calmb sid pc s acts = true -> calm sid pc s acts.
Proof.
  induction acts as [|a acts IH]; intros s; cbn [calm calmb]; [done|].
  intros [[Ha Hl]%andb_true_iff Hs]%andb_true_iff. split; [by destruct a|]. split.
  - intros Hc. rewrite Hc in Hl. apply mem_readable. by apply negb_true_iff in Hl.
  - destruct (step sid pc s a); [by apply IH|done].
Qed.

Definition calm_acts : list act := [receive_ls; Tick true; receive_ok].
Definition calm_end : session := default (connected example_wal broker_New)
  (run (B "s") (B "tcp") (connected example_wal broker_New) calm_acts).

Lemma calm_acts_ok : Forall act_ok calm_acts.
Proof.
  apply Forall_cons. split; [exact receive_ls_ok|]. apply Forall_cons. split; [done|].
  apply Forall_cons. split; [exact receive_ok_ok|]. by apply Forall_nil.
Qed.

Lemma calm_end_checks :
  calmb (B "s") (B "tcp") (connected example_wal broker_New) calm_acts
  && negb (wm_closed (ss_wal calm_end)) && negb (snd (wlLog (wm_log (ss_wal calm_end))))
  && (total (tail (wal_entries (wlLog (wm_log (ss_wal calm_end))))) <=? DefaultMaxRead) = true.
Proof. vm_compute. reflexivity. Qed.

Lemma calm_end_runs : run (B "s") (B "tcp") (connected example_wal broker_New) calm_acts = Some calm_end.
Proof. vm_compute. reflexivity. Qed.

Lemma example_wal_opened : writeOnConnect (inr empty_log) (B "o") (B "s") (B "open") (Some 5) = inr example_wal.
Proof. vm_compute. reflexivity. Qed.

Lemma calm_flush_stores_all_witness :
  exists s', flush_step (B "tcp") true calm_end = Some s'
  /\ db_stream (ss_db s')
     = Some (stream_of 5 (B "tcp") (accepted (B "s") (B "tcp") (connected example_wal broker_New) calm_acts))
  /\ wm_truncated (ss_wal s') = false
  /\ wm_metrics (ss_wal s')
     = (fold_left tally (accepted (B "s") (B "tcp") (connected example_wal broker_New) calm_acts)
          (newSessionMetric, newAIVerdictDedup)).1.
Proof.
  pose proof calm_end_checks as Hc. apply andb_true_iff in Hc as [[[H1 H2]%andb_true_iff H3]%andb_true_iff H4].
  apply (calm_flush_stores_all 5 (B "tcp") empty_log (B "o") (B "s") (B "open") example_wal calm_acts calm_end).
  - reflexivity.
  - exact example_wal_opened.
  - exact calm_acts_ok.
  - by apply calmb_calm.
  - exact calm_end_runs.
  - by apply negb_true_iff.
  - apply mem_readable. by apply negb_true_iff.
  - by apply Z.leb_le.
Defined.

(** An analyzed request whose flush fails is not counted by the flush that
    succeeds: the failed one already marked it as seen, and counted its bytes
    towards the limit, which the next one does again. *)
Lemma failed_flush_loses_verdict :
  let end_of acts := ss_wal <$> run (B "s") (B "tcp") (connected example_wal broker_New) acts in
  (fun m => amTotalRequests <$> smAIAnalyzer (wm_metrics m)) <$> end_of [receive_ok; Tick true] = Some (Some 1)
  /\ (fun m => amTotalRequests <$> smAIAnalyzer (wm_metrics m)) <$> end_of [receive_ok; Tick false; Tick true] = Some None
  /\ wm_bytesRead <$> end_of [receive_ok; Tick true] = Some 42
  /\ wm_bytesRead <$> end_of [receive_ok; Tick false; Tick true] = Some 84.
Proof. vm_compute. done. Qed.

(** An event written between the final flush and the closing of the log is
    accepted and never stored. *)
Lemma event_behind_final_flush_lost :
  let s := run (B "s") (B "tcp") (connected example_wal broker_New)
    [CloseStep 8 true None; CloseStep 8 true None; CloseStep 8 true None; receive_ls; CloseStep 9 true None; Tick true] in
  (fun s => (length (logged (wlLog (wm_log (ss_wal s)))), db_stream (ss_db s))) <$> s = Some (1%nat, Some []).
Proof. vm_compute. done. Qed.

(** Without a start date the first flush of an event panics. *)
Lemma nil_start_date_panics :
  (m ← (match writeOnConnect (inr empty_log) (B "o") (B "s") (B "open") None with inr m => Some m | inl _ => None end);
   run (B "s") (B "tcp") (connected m broker_New) [receive_ls]) <> None
  /\ (m ← (match writeOnConnect (inr empty_log) (B "o") (B "s") (B "open") None with inr m => Some m | inl _ => None end);
      run (B "s") (B "tcp") (connected m broker_New) [receive_ls; Tick true]) = None.
Proof. split; vm_compute; done. Qed.
