(* ===== verification/SessionInput.v ===== *)
(** * What a session records: src/gateway/transport/plugins/audit/decoders.go, audit.go

    The plugin sees every packet between client and agent and decides what of
    it becomes an event: the text of a query for the database protocols, the
    payload for the others, with the metadata of the packet's spec.  gob and
    msgpack are the class [PacketLib], the MongoDB driver's section reader and
    JSON encoder the class [MongoWire]. *)

From S2P Require Import Prelude GoStrings GoText Utf LiveEvents SessionLog SessionFlush.

#[local] Open Scope Z_scope.

(** ** Queries in packets: decoders.go, mssqltypes *)

Definition minOracleTextRunLen : nat := 4.

(** [ch >= 0x20 && ch < 0x7F]; every such character is printable. *)
Definition printable (ch : byte) : bool := (32 <=? bval ch) && (bval ch <? 127).

(** The closure [flush]: the output behind the run. *)
Definition flush_run (minLen : nat) (out run : bytes) : bytes :=
  if (minLen <=? length run)%nat
  then (if (0 <? length out)%nat then out ++ B " " else out) ++ run
  else out.

Fixpoint extract_loop (minLen : nat) (b out run : bytes) : bytes :=
  match b with
  | [] => flush_run minLen out run
  | ch :: b =>
      if printable ch then extract_loop minLen b out (run ++ [ch])
      else extract_loop minLen b (flush_run minLen out run) []
  end.

Definition extractPrintableText (b : bytes) (minLen : nat) : bytes := extract_loop minLen b [] [].

Definition decodeOracleClientQuery (payload : bytes) : option bytes :=
  let text := extractPrintableText payload minOracleTextRunLen in
  if text =s [] then None else Some text.

(** A call that returns a value, panics, or does not end within the turns given
    to its loop. *)
Inductive attempt (A : Type) := Value (a : A) | Panic | Endless.
Arguments Value {A} a.
Arguments Panic {A}.
Arguments Endless {A}.

Definition attempt_map {A B} (f : A -> B) (a : attempt A) : attempt B :=
  match a with Value a => Value (f a) | Panic => Panic | Endless => Endless end.

(** [decodeMySQLCommandQuery]: nil is [None]. *)
Definition decodeMySQLCommandQuery (payload : bytes) : attempt (option bytes) :=
  if (length payload <? 5)%nat then Value None
  else if negb (bval (byte_at payload 4) =? 3) then Value None
  else
    match payload !! 5%nat with
    | None => Panic
    | Some b =>
        let pos := if bval b =? 0 then 6%nat else 4%nat in
        if (length payload <? pos)%nat then Value None else Value (Some (drop pos payload))
    end.

(** [ucs22str]: the loop reads two bytes at every even position. *)
Fixpoint ucs2_units (s : bytes) : attempt (list Z) :=
  match s with
  | [] => Value []
  | [_] => Panic
  | a :: b :: r =>
      attempt_map (cons (bval a + 256 * bval b)) (ucs2_units r)
  end.

Definition ucs22str (s : bytes) : attempt bytes :=
  attempt_map (fun l => utf8_String (utf16_Decode l)) (ucs2_units s).

Definition PacketSQLBatchType : Z := 1.

(** [DecodeSQLBatchToRawQuery]; the inner [None] is an error. *)
Definition DecodeSQLBatchToRawQuery (data : bytes) : attempt (option bytes) :=
  let text s := attempt_map Some (ucs22str s) in
  if (length data <? 12)%nat then Value None
  else if negb (bval (byte_at data 0) =? PacketSQLBatchType) then Value None
  else
    let packetNo := byte_at data 6 in
    let data := drop 8 data in
    if bval packetNo =? 1 then
      let batchHeaderLength := le_u32 data in
      if len (drop 4 data) <? batchHeaderLength then text data else text (drop (Z.to_nat batchHeaderLength) data)
    else text data.

(** ** MongoDB messages: mongotypes/packet.go *)

Definition OpCompressed : Z := 2012.
Definition OpMsgType : Z := 2013.

Record MongoPacket := {
  mpMessageLength : Z;
  mpRequestID : Z;
  mpResponseTo : Z;
  mpOpCode : Z;
  mpFrame : bytes;
}.

Definition mongo_Encode (p : MongoPacket) : bytes :=
  put_le_u32 (mpMessageLength p) ++ put_le_u32 (mpRequestID p) ++ put_le_u32 (mpResponseTo p)
    ++ put_le_u32 (mpOpCode p) ++ mpFrame p.

(** The size of the buffer [Decode] makes: a difference of 32-bit numbers. *)
Definition frame_size (header : bytes) : Z := uint32 (le_u32 header - 16).

(** [Decode] from a reader of [r]; [None] is an error. *)
Definition mongo_Decode (r : bytes) : option MongoPacket :=
  if (length r <? 16)%nat then None
  else if len (drop 16 r) <? frame_size r then None
  else Some {| mpMessageLength := le_u32 r; mpRequestID := le_u32 (drop 4 r); mpResponseTo := le_u32 (drop 8 r);
               mpOpCode := le_u32 (drop 12 r); mpFrame := take (Z.to_nat (frame_size r)) (drop 16 r) |}.

(** wiremessage and bson of the driver. *)
Class MongoWire := {
  Doc : Type;
  ReadMsgSectionType : bytes -> option (Z * bytes);
  ReadMsgSectionDocumentSequence : bytes -> option (list Doc * bytes);
  ReadMsgSectionSingleDocument : bytes -> option (Doc * bytes);
  MarshalExtJSON : Doc -> option bytes;
}.

(** What is read is taken from the front. *)
Class MongoWireLaws `{MongoWire} := {
  section_type_takes wm t rest : ReadMsgSectionType wm = Some (t, rest) -> (length rest < length wm)%nat;
  sequence_takes wm ds rest : ReadMsgSectionDocumentSequence wm = Some (ds, rest) -> (length rest <= length wm)%nat;
  document_takes wm d rest : ReadMsgSectionSingleDocument wm = Some (d, rest) -> (length rest <= length wm)%nat;
}.

Definition SingleDocument : Z := 0.
Definition DocumentSequence : Z := 1.

Section Mongo.
Context `{MongoWire}.

(** The loop over the sections; [Value None] is an error. *)
Fixpoint sections (fuel : nat) (wm : bytes) (docs : list Doc) : attempt (option (list Doc)) :=
  if (length wm =? 0)%nat then Value (Some docs)
  else
    match fuel with
    | O => Endless
    | S fuel =>
        match ReadMsgSectionType wm with
        | None => Value None
        | Some (stype, wm) =>
            if stype =? DocumentSequence then
              match ReadMsgSectionDocumentSequence wm with
              | Some (ds, wm) => sections fuel wm (docs ++ ds)
              | None => Value None
              end
            else if stype =? SingleDocument then
              match ReadMsgSectionSingleDocument wm with
              | Some (d, wm) => sections fuel wm (docs ++ [d])
              | None => Value None
              end
            else Value None
        end
    end.

(** The documents as text, a line each; [None] when one cannot be encoded. *)
Fixpoint json_lines (docs : list Doc) : option bytes :=
  match docs with
  | [] => Some []
  | d :: docs => data ← MarshalExtJSON d; rest ← json_lines docs; Some (data ++ [x0a] ++ rest)
  end.

(** [DecodeOpMsgToJSON]; the outer [None] is an error, the inner one nil. *)
Definition DecodeOpMsgToJSON (p : MongoPacket) : attempt (option (option bytes)) :=
  if negb (mpOpCode p =? OpMsgType) then Value (Some None)
  else if (length (mpFrame p) <? 4)%nat then Panic
  else
    let wm := drop 4 (mpFrame p) in
    attempt_map (fun docs =>
      match docs with
      | None => None
      | Some [] => Some None
      | Some docs => Some <$> json_lines docs
      end) (sections (length wm) wm []).

Definition decodeClientMongoOpMsgPacket (payload : bytes) : attempt (option (option bytes)) :=
  match mongo_Decode payload with
  | None => Value None
  | Some pkt =>
      if mpOpCode pkt =? OpCompressed then Value None
      else if mpOpCode pkt =? OpMsgType then DecodeOpMsgToJSON pkt
      else Value (Some None)
  end.
End Mongo.

(** ** Metadata: audit.go *)

Definition SpecMCPEventKey : bytes := B "mcp.event".

Definition SpecDLPTransformationSummary : bytes := B "dlp.transformation_summary".

(** The summary of an old client: an error and rows of [count, code, details]. *)
Record OldSummary := { osErr : bool; osSummaryResult : list (list bytes) }.

Record NewResult := { nrCount : Z; nrCode : bytes; nrDetails : bytes }.
Record NewOverview := { noErr : bool; noInfoType : bytes; noResults : list NewResult }.

Class PacketLib := {
  gob_summaries : bytes -> option (list OldSummary);
  masking_Encode : list NewOverview -> bytes;
}.

(** [strconv.ParseInt] of a count, -1 when it is not one. *)
Definition count_of (s : bytes) : Z := default (-1) (Atoi s).

Definition result_of (row : list bytes) : option NewResult :=
  match row with
  | [count; code; details] => Some {| nrCount := count_of count; nrCode := code; nrDetails := details |}
  | _ => None
  end.

Definition overview_of (t : OldSummary) : NewOverview :=
  {| noErr := osErr t; noInfoType := []; noResults := omap result_of (osSummaryResult t) |}.

Section Packets.
Context `{PacketLib} `{MongoWire}.

(** A key without a value, and one with a nil value, read as [None]; the outer
    [None] is a key that is absent. *)
Definition Spec := gmap bytes (option bytes).

Definition parseDataMaskingInfo (spec : Spec) : option bytes :=
  match spec !! DataMaskingInfoKey with
  | Some info => info
  | None =>
      match mjoin (spec !! SpecDLPTransformationSummary) with
      | None => None
      | Some tsEnc =>
          if tsEnc =s [] then None
          else
            match gob_summaries tsEnc with
            | None => None
            | Some [] => None
            | Some ts =>
                let infoEnc := masking_Encode (map overview_of ts) in
                if (0 <? length infoEnc)%nat then Some infoEnc else None
            end
      end
  end.

Definition parseSpecAsEventMetadata (spec : Spec) : option (gmap bytes (option bytes)) :=
  let metadata : gmap bytes (option bytes) :=
    match mjoin (spec !! AIAnalyzerInfoKey) with
    | Some (c :: v) => {[ AIAnalyzerInfoKey := Some (c :: v) ]}
    | _ => ∅
    end in
  let metadata :=
    match parseDataMaskingInfo spec with
    | Some maskingInfo => <[DataMaskingInfoKey := Some maskingInfo]> metadata
    | None => metadata
    end in
  let metadata :=
    match mjoin (spec !! SpecMCPEventKey) with
    | Some (_ :: _) => <[SpecMCPEventKey := Some (B "1")]> metadata
    | _ => metadata
    end in
  if bool_decide (metadata = ∅) then None else Some metadata.

(** ** The cases of [OnReceive] that record

    [pbagent] and [pbclient] types by name; the answer is what is written, an
    error, or nothing. *)
Inductive recording := Nothing | Records (t : EventType) (event : option bytes) | Refused | Crashes | Hangs.

Definition of_attempt (a : attempt (option bytes)) (failed : recording) : recording :=
  match a with
  | Panic => Crashes
  | Endless => Hangs
  | Value None => failed
  | Value (Some q) => Records InputType (Some q)
  end.

Definition plain_inputs : list bytes :=
  map B ["AgentPGConnectionWrite"; "AgentExecWriteStdin"; "AgentTerminalWriteStdin"; "AgentTCPConnectionWrite";
         "AgentSSHConnectionWrite"; "AgentHttpProxyConnectionWrite"; "AgentMCPProxyConnectionWrite";
         "ClientMCPStdioRequest"].
Definition plain_outputs : list bytes :=
  map B ["ClientWriteStdout"; "ClientWriteStderr"; "ClientSSHConnectionWrite"; "ClientHttpProxyConnectionWrite";
         "ClientMCPProxyConnectionWrite"; "AgentMCPStdioReply"].
Definition metadata_only : list bytes :=
  map B ["ClientPGConnectionWrite"; "ClientMySQLConnectionWrite"; "ClientMongoDBConnectionWrite"].

Definition OnReceive_record (pktType payload : bytes) (spec : Spec) : recording :=
  if bool_decide (pktType ∈ metadata_only) then
    match parseSpecAsEventMetadata spec with Some _ => Records OutputType None | None => Nothing end
  else if bool_decide (pktType ∈ plain_inputs) then Records InputType (Some payload)
  else if bool_decide (pktType ∈ plain_outputs) then Records OutputType (Some payload)
  else if pktType =s B "AgentMySQLConnectionWrite" then of_attempt (decodeMySQLCommandQuery payload) Nothing
  else if pktType =s B "AgentMSSQLConnectionWrite" then
    if (0 <? length payload)%nat && (bval (byte_at payload 0) =? PacketSQLBatchType) then
      match DecodeSQLBatchToRawQuery payload with
      | Value (Some []) => Nothing
      | a => of_attempt a Refused
      end
    else Nothing
  else if pktType =s B "AgentMongoDBConnectionWrite" then
    match decodeClientMongoOpMsgPacket payload with
    | Panic => Crashes
    | Endless => Hangs
    | Value None => Refused
    | Value (Some None) => Nothing
    | Value (Some (Some j)) => Records InputType (Some j)
    end
  else if pktType =s B "AgentOracleConnectionWrite" then
    match decodeOracleClientQuery payload with Some q => Records InputType (Some q) | None => Nothing end
  else Nothing.
End Packets.

(** ** Facts *)

(** The runs of printable bytes. *)
Fixpoint runs_of (b : bytes) : list bytes :=
  match b with
  | [] => [[]]
  | ch :: b =>
      match runs_of b with
      | r :: rs => if printable ch then (ch :: r) :: rs else [] :: r :: rs
      | [] => []
      end
  end.

Lemma runs_of_cons b : exists r rs, runs_of b = r :: rs.
Proof.
  induction b as [|ch b (r & rs & E)]; cbn; [by eexists _, _|]. rewrite E. destruct (printable ch); by eexists _, _.
Qed.

Definition long_enough (minLen : nat) (r : bytes) : bool := (minLen <=? length r)%nat.

(** Text appended to what there is, with a space between. *)
Definition spaced (out : bytes) (rs : list bytes) : bytes := fold_left (fun out r => flush_run 0 out r) rs out.

Lemma flush_run_long minLen out run :
  flush_run minLen out run = if long_enough minLen run then flush_run 0 out run else out.
Proof. done. Qed.

Lemma extract_loop_runs minLen b : forall out run,
  extract_loop minLen b out run =
  match runs_of b with
  | r :: rs => spaced out (List.filter (long_enough minLen) ((run ++ r) :: rs))
  | [] => out
  end.
Proof.
  induction b as [|ch b IH]; intros out run; cbn [extract_loop runs_of].
  { rewrite app_nil_r, flush_run_long. cbn [List.filter]. by destruct (long_enough minLen run). }
  destruct (runs_of_cons b) as (r & rs & E). rewrite !IH, E. destruct (printable ch).
  - by rewrite <- app_assoc.
  - cbn [List.filter app]. rewrite app_nil_r, flush_run_long. by destruct (long_enough minLen run).
Qed.

Lemma spaced_join rs : Forall (fun r => r <> []) rs -> forall out, out <> [] ->
  spaced out rs = out ++ concat (map (fun r => B " " ++ r) rs).
Proof.
  induction 1 as [|r rs Hr _ IH]; intros out Ho; cbn [map concat]; [by rewrite app_nil_r|].
  change (spaced out (r :: rs)) with (spaced (flush_run 0 out r) rs). destruct out as [|c out]; [done|].
  change (flush_run 0 (c :: out) r) with (((c :: out) ++ B " ") ++ r).
  rewrite IH by done. by rewrite <- !app_assoc.
Qed.

Lemma Join_concat sep l : forall x, Join (x :: l) sep = x ++ concat (map (fun r => sep ++ r) l).
Proof.
  induction l as [|y l IH]; intros x; cbn [map concat]; [by rewrite app_nil_r|].
  change (Join (x :: y :: l) sep) with (x ++ sep ++ Join (y :: l) sep). by rewrite IH, <- app_assoc.
Qed.

(** What is recorded of an Oracle packet is its runs of at least four printable
    characters, with a space between each. *)
Theorem oracle_text_is_runs b minLen : (0 < minLen)%nat ->
  extractPrintableText b minLen = Join (List.filter (long_enough minLen) (runs_of b)) (B " ").
Proof.
  intros Hm. unfold extractPrintableText. rewrite extract_loop_runs.
  destruct (runs_of_cons b) as (r & rs & E). rewrite E. cbn [app].
  assert (Forall (fun r => r <> []) (List.filter (long_enough minLen) (r :: rs))) as Hf.
  { apply Forall_forall. intros x Hx. apply list_elem_of_In, filter_In in Hx as [_ Hx].
    unfold long_enough in Hx. apply Nat.leb_le in Hx. destruct x; [cbn in Hx; lia|done]. }
  revert Hf. generalize (List.filter (long_enough minLen) (r :: rs)). intros l Hf.
  destruct l as [|x l]; [done|]. inversion Hf as [|? ? Hx Hl]; subst. destruct x as [|c x]; [done|].
  change (spaced [] ((c :: x) :: l)) with (spaced (c :: x) l). rewrite spaced_join by done.
  by rewrite Join_concat.
Qed.

(** Whatever the spec of a packet holds, its metadata has keys the log's format
    can carry, so every recorded event of ordinary size reads back. *)
Lemma metadata_keys `{PacketLib} spec md : parseSpecAsEventMetadata spec = Some md ->
  dom md ⊆ {[ AIAnalyzerInfoKey; DataMaskingInfoKey; SpecMCPEventKey ]}.
Proof.
  unfold parseSpecAsEventMetadata. cbv zeta. case_bool_decide; [done|]. intros [= <-].
  repeat case_match; rewrite ?dom_insert_L, ?dom_singleton_L, ?dom_empty_L; set_solver.
Qed.

Lemma keys_plain k : k ∈ ({[ AIAnalyzerInfoKey; DataMaskingInfoKey; SpecMCPEventKey ]} : gset bytes) -> x00 ∉ k.
Proof.
  rewrite !elem_of_union, !elem_of_singleton. intros [[->| ->]| ->] Hin;
    apply (bool_decide_eq_true_2 _) in Hin; vm_compute in Hin; done.
Qed.

Lemma recorded_event_writable `{PacketLib} `{WalLib} now t event spec order :
  in_int64 now -> logSize (New now t event (parseSpecAsEventMetadata spec)) < 2 ^ 32 ->
  order ≡ₚ map_to_list (elMetadata (New now t event (parseSpecAsEventMetadata spec))) ->
  act_ok (Receive now t event (parseSpecAsEventMetadata spec) order).
Proof.
  intros Hn Hs Ho. split; [|done]. split; [done|done|]. cbn.
  destruct (parseSpecAsEventMetadata spec) as [md|] eqn:E; cbn; [|rewrite fmap_empty; apply map_Forall_empty].
  intros k v. rewrite lookup_fmap. intros Hk. apply keys_plain. apply (metadata_keys spec md E).
  destruct (md !! k) eqn:Ek; [|done]. by apply elem_of_dom.
Qed.

(** *** MongoDB messages *)

Lemma le_u32_drop_put n v r pre : length pre = n -> 0 <= v < 2 ^ 32 -> le_u32 (drop n (pre ++ put_le_u32 v ++ r)) = v.
Proof. intros <- Hv. rewrite drop_app_length. by apply le_u32_put. Qed.

(** A well-formed message is read back, and what follows it is left alone. *)
Theorem mongo_round_trip p k :
  mpMessageLength p = len (mpFrame p) + 16 -> mpMessageLength p < 2 ^ 32 ->
  0 <= mpRequestID p < 2 ^ 32 -> 0 <= mpResponseTo p < 2 ^ 32 -> 0 <= mpOpCode p < 2 ^ 32 ->
  mongo_Decode (mongo_Encode p ++ k) = Some p.
Proof.
  intros Hl Hb H1 H2 H3. pose proof (len_nonneg (mpFrame p)). pose proof (len_nonneg k).
  set (a := put_le_u32 (mpMessageLength p)). set (b := put_le_u32 (mpRequestID p)).
  set (c := put_le_u32 (mpResponseTo p)). set (d := put_le_u32 (mpOpCode p)).
  assert (mongo_Encode p ++ k = a ++ b ++ c ++ d ++ mpFrame p ++ k) as E
    by (unfold mongo_Encode; by rewrite <- !app_assoc).
  unfold mongo_Decode, frame_size. rewrite E.
  assert (le_u32 (a ++ b ++ c ++ d ++ mpFrame p ++ k) = mpMessageLength p) as Ea by (apply le_u32_put; lia).
  assert (le_u32 (drop 4 (a ++ b ++ c ++ d ++ mpFrame p ++ k)) = mpRequestID p) as Eb by (by apply le_u32_drop_put).
  assert (le_u32 (drop 8 (a ++ b ++ c ++ d ++ mpFrame p ++ k)) = mpResponseTo p) as Ec
    by (rewrite (app_assoc a b); by apply le_u32_drop_put).
  assert (le_u32 (drop 12 (a ++ b ++ c ++ d ++ mpFrame p ++ k)) = mpOpCode p) as Ed
    by (rewrite (app_assoc a b), (app_assoc (a ++ b) c); by apply le_u32_drop_put).
  assert (drop 16 (a ++ b ++ c ++ d ++ mpFrame p ++ k) = mpFrame p ++ k) as Ef
    by (rewrite (app_assoc a b), (app_assoc (a ++ b) c), (app_assoc _ d); exact (drop_app_length (((a ++ b) ++ c) ++ d) _)).
  rewrite Ea, Eb, Ec, Ed, Ef. replace (length _ <? 16)%nat with false
    by (symmetry; apply Nat.ltb_ge; rewrite !length_app; cbn; lia).
  rewrite uint32_small by lia. replace (mpMessageLength p - 16) with (len (mpFrame p)) by lia.
  rewrite len_app. replace (len (mpFrame p) + len k <? len (mpFrame p)) with false by (symmetry; apply Z.ltb_ge; lia).
  unfold len. rewrite Nat2Z.id, take_app_length. by destruct p.
Qed.

Lemma sections_end `{MongoWireLaws} fuel : forall wm docs, (length wm <= fuel)%nat -> sections fuel wm docs <> Endless.
Proof.
  induction fuel as [|fuel IH]; intros wm docs Hf; cbn [sections]; destruct (length wm =? 0)%nat eqn:E; try done;
    bool_hyps; [lia|].
  destruct (ReadMsgSectionType wm) as [[t rest]|] eqn:Et; [|done]. apply section_type_takes in Et.
  destruct (t =? DocumentSequence); [|destruct (t =? SingleDocument); [|done]].
  - destruct (ReadMsgSectionDocumentSequence rest) as [[ds rest']|] eqn:Ed; [|done].
    apply sequence_takes in Ed. apply IH. lia.
  - destruct (ReadMsgSectionSingleDocument rest) as [[d rest']|] eqn:Ed; [|done].
    apply document_takes in Ed. apply IH. lia.
Qed.

(** Reading a MongoDB packet ends. *)
Lemma mongo_decoding_ends `{MongoWireLaws} payload : decodeClientMongoOpMsgPacket payload <> Endless.
Proof.
  unfold decodeClientMongoOpMsgPacket, DecodeOpMsgToJSON. repeat case_match; try done.
  pose proof (sections_end (length (drop 4 (mpFrame m))) (drop 4 (mpFrame m)) [] ltac:(lia)) as Hs.
  by destruct (sections _ _ _).
Qed.

(** *** Packets that crash the plugin *)

(** A MySQL command byte with no query behind it. *)
Lemma mysql_empty_query_panics : decodeMySQLCommandQuery [x01; x00; x00; x00; x03] = Panic.
Proof. reflexivity. Qed.

(** A MySQL query is recorded with its command byte. *)
Lemma mysql_query_keeps_command :
  decodeMySQLCommandQuery ([x09; x00; x00; x00; x03] ++ B "select 1") = Value (Some (x03 :: B "select 1")).
Proof. reflexivity. Qed.

(** A batch of an odd number of bytes. *)
Lemma odd_batch_panics :
  DecodeSQLBatchToRawQuery ([x01; x01; x00; x0d; x00; x00; x02; x00] ++ B "hello") = Panic.
Proof. reflexivity. Qed.

(** An OP_MSG without its flags, and the buffer made for a header that declares
    no length: almost four gigabytes. *)
Lemma short_mongo_message_panics `{MongoWire} :
  decodeClientMongoOpMsgPacket (mongo_Encode {| mpMessageLength := 16; mpRequestID := 1; mpResponseTo := 0;
    mpOpCode := OpMsgType; mpFrame := [] |}) = Panic.
Proof. reflexivity. Qed.

Lemma unbounded_mongo_buffer : frame_size (put_le_u32 0) = 4294967280.
Proof. vm_compute. reflexivity. Qed.
