(* ===== verification/RdpBands.v ===== *)
(** * Dirty bands of a screen: src/gateway/rdp/analyzer/region.go

    The realtime analysis of a remote desktop reads only the rows that changed:
    [DirtyBands] accumulates the vertical extents of repainted rectangles as
    sorted, separated bands of rows, and [splitBands] cuts tall bands into
    chunks that are read in parallel, each word being kept by the chunk that
    owns its centre.  Rows are Go [int]s well inside their range. *)

From S2P Require Import Prelude.

#[local] Open Scope Z_scope.

(** A band is the rows [Y0 <= r < Y1]. *)
Record YBand := { Y0 : Z; Y1 : Z }.

Definition Height (b : YBand) : Z := Y1 b - Y0 b.

Record DirtyBands := { db_canvasHeight : Z; db_pad : Z; db_bands : list YBand }.

Definition DefaultBandPadding : Z := 24.

Definition NewDirtyBands (canvasHeight pad : Z) : DirtyBands :=
  {| db_canvasHeight := canvasHeight; db_pad := if pad <=? 0 then DefaultBandPadding else pad;
     db_bands := [] |}.

Definition set_bands (d : DirtyBands) (l : list YBand) : DirtyBands :=
  {| db_canvasHeight := db_canvasHeight d; db_pad := db_pad d; db_bands := l |}.

(** The padded extent, clamped to the canvas. *)
Definition extent (d : DirtyBands) (y height : Z) : Z * Z :=
  let y0 := y - db_pad d in
  let y1 := y + height + db_pad d in
  (if y0 <? 0 then 0 else y0, if db_canvasHeight d <? y1 then db_canvasHeight d else y1).

(** Before the first band that starts below [y0]. *)
Fixpoint insert_band (b : YBand) (l : list YBand) : list YBand :=
  match l with
  | [] => [b]
  | c :: r => if Y0 b <? Y0 c then b :: l else c :: insert_band b r
  end.

(** The compaction, with the band written last in [last]. *)
Fixpoint merge_loop (last : YBand) (l : list YBand) : list YBand :=
  match l with
  | [] => [last]
  | b :: r =>
      if Y0 b <=? Y1 last
      then merge_loop (if Y1 last <? Y1 b then {| Y0 := Y0 last; Y1 := Y1 b |} else last) r
      else last :: merge_loop b r
  end.

Definition merge (l : list YBand) : list YBand :=
  match l with
  | [] => []
  | b :: r => merge_loop b r
  end.

Definition AddRect (d : DirtyBands) (y height : Z) : DirtyBands :=
  if height <=? 0 then d
  else
    let '(y0, y1) := extent d y height in
    if y1 <=? y0 then d
    else set_bands d (merge (insert_band {| Y0 := y0; Y1 := y1 |} (db_bands d))).

Definition Bands (d : DirtyBands) : list YBand := db_bands d.
Definition Empty (d : DirtyBands) : bool := (length (db_bands d) =? 0)%nat.

Definition Intersects (d : DirtyBands) (y height : Z) : bool :=
  if height <=? 0 then false
  else
    let '(y0, y1) := extent d y height in
    existsb (fun b => (y0 <? Y1 b) && (Y0 b <? y1)) (db_bands d).

Definition CoveredRows (d : DirtyBands) : Z := fold_left (fun t b => t + Height b) (db_bands d) 0.

Definition Reset (d : DirtyBands) : DirtyBands := set_bands d [].

Definition TakeAndReset (d : DirtyBands) : DirtyBands * list YBand := (Reset d, db_bands d).

(** ** Chunks *)

(** [win] is what is read, [own] the rows whose words are kept. *)
Record ocrChunk := { win : YBand; own : YBand }.

Definition chunk_at (band : YBand) (maxRows pad y : Z) : ocrChunk :=
  let own := {| Y0 := y; Y1 := if Y1 band <? y + maxRows then Y1 band else y + maxRows |} in
  {| own := own;
     win := {| Y0 := if Y0 own - pad <? Y0 band then Y0 band else Y0 own - pad;
               Y1 := if Y1 band <? Y1 own + pad then Y1 band else Y1 own + pad |} |}.

(** [for y := band.Y0; y < band.Y1; y += maxRows]; a round for every row is
    enough. *)
Fixpoint split_loop (fuel : nat) (band : YBand) (maxRows pad y : Z) : list ocrChunk :=
  match fuel with
  | O => []
  | S fuel =>
      if y <? Y1 band
      then chunk_at band maxRows pad y :: split_loop fuel band maxRows pad (y + maxRows)
      else []
  end.

Definition split_band (maxRows pad : Z) (band : YBand) : list ocrChunk :=
  if Height band <=? maxRows + pad then [{| win := band; own := band |}]
  else split_loop (Z.to_nat (Height band)) band maxRows pad (Y0 band).

Definition splitBands (bands : list YBand) (maxRows pad : Z) : list ocrChunk :=
  concat (map (split_band maxRows pad) bands).

Definition maxChunkRows : Z := 256.

(** The vertical extent of a word. *)
Record Word := { wTop : Z; wHeight : Z }.

Definition ownsWord (c : ocrChunk) (w : Word) : bool :=
  let center := wTop w + Z.quot (wHeight w) 2 in (Y0 (own c) <=? center) && (center <? Y1 (own c)).

(** ** The rows of a list of bands *)

Definition in_band (r : Z) (b : YBand) : Prop := Y0 b <= r < Y1 b.
Definition covers (l : list YBand) (r : Z) : Prop := Exists (in_band r) l.

(** Sorted, separated, not empty, above [lo] and inside the canvas. *)
Fixpoint separated (lo canvas : Z) (l : list YBand) : Prop :=
  match l with
  | [] => True
  | b :: r => lo < Y0 b /\ Y0 b < Y1 b /\ Y1 b <= canvas /\ separated (Y1 b) canvas r
  end.

(** The same, allowing bands to touch and overlap: what [insert_band] leaves. *)
Fixpoint sorted_from (lo canvas : Z) (l : list YBand) : Prop :=
  match l with
  | [] => True
  | b :: r => lo <= Y0 b /\ Y0 b < Y1 b /\ Y1 b <= canvas /\ sorted_from (Y0 b) canvas r
  end.

Lemma separated_sorted lo lo' canvas l :
  separated lo canvas l -> lo' <= lo + 1 -> sorted_from lo' canvas l.
Proof.
  revert lo lo'. induction l as [|b l IH]; intros lo lo'; cbn; [done|].
  intros (H1 & H2 & H3 & H4) Hlo. split_and!; [lia|done|done|]. apply (IH (Y1 b)); [done|lia].
Qed.

Lemma insert_band_sorted b lo canvas l :
  lo <= Y0 b -> Y0 b < Y1 b -> Y1 b <= canvas -> sorted_from lo canvas l ->
  sorted_from lo canvas (insert_band b l).
Proof.
  revert lo. induction l as [|c l IH]; intros lo H1 H2 H3; cbn; [done|].
  intros (C1 & C2 & C3 & C4). destruct (Z.ltb_spec (Y0 b) (Y0 c)); cbn.
  - split_and!; try done. lia.
  - split_and!; try done. apply IH; [lia|done|done|done].
Qed.

Lemma insert_band_covers b l r : covers (insert_band b l) r <-> in_band r b \/ covers l r.
Proof.
  unfold covers. induction l as [|c l IH]; cbn [insert_band].
  - rewrite Exists_cons, Exists_nil. tauto.
  - destruct (Y0 b <? Y0 c); rewrite !Exists_cons; [tauto|]. rewrite IH. tauto.
Qed.

Lemma sorted_from_weaken lo lo' canvas l : sorted_from lo canvas l -> lo' <= lo -> sorted_from lo' canvas l.
Proof. destruct l as [|b l]; cbn; [done|]. intros (H1 & H2 & H3 & H4) Hlo. split_and!; try done. lia. Qed.

(** The band the compaction goes on with when [b] touches the last one. *)
Definition joined (last b : YBand) : YBand :=
  if Y1 last <? Y1 b then {| Y0 := Y0 last; Y1 := Y1 b |} else last.

Lemma joined_spec last b r :
  Y0 last <= Y0 b -> Y0 b <= Y1 last ->
  Y0 (joined last b) = Y0 last /\ Y1 (joined last b) = Z.max (Y1 last) (Y1 b)
  /\ (in_band r (joined last b) <-> in_band r last \/ in_band r b).
Proof. intros H1 H2. unfold joined, in_band. destruct (Z.ltb_spec (Y1 last) (Y1 b)); cbn; lia. Qed.

Lemma merge_loop_covers last l canvas r :
  Y0 last < Y1 last -> sorted_from (Y0 last) canvas l ->
  covers (merge_loop last l) r <-> in_band r last \/ covers l r.
Proof.
  unfold covers. revert last. induction l as [|b l IH]; intros last Hl; cbn [merge_loop sorted_from].
  - intros _. rewrite Exists_cons, Exists_nil. tauto.
  - intros (H1 & H2 & H3 & H4). fold (joined last b).
    destruct (Z.leb_spec (Y0 b) (Y1 last)) as [Ht|Ht].
    + destruct (joined_spec last b r H1 Ht) as (J0 & J1 & Jr).
      rewrite IH, Exists_cons, Jr; [tauto|lia|]. rewrite J0. by eapply sorted_from_weaken.
    + rewrite !Exists_cons, IH by done. tauto.
Qed.

Lemma merge_loop_separated last l lo canvas :
  lo < Y0 last -> Y0 last < Y1 last -> Y1 last <= canvas -> sorted_from (Y0 last) canvas l ->
  separated lo canvas (merge_loop last l).
Proof.
  revert last lo. induction l as [|b l IH]; intros last lo H0 Hl Hc; cbn [merge_loop sorted_from].
  - intros _. by repeat split.
  - intros (H1 & H2 & H3 & H4). fold (joined last b).
    destruct (Z.leb_spec (Y0 b) (Y1 last)) as [Ht|Ht].
    + destruct (joined_spec last b 0 H1 Ht) as (J0 & J1 & _).
      apply IH; rewrite ?J0, ?J1; [done|lia|lia|by eapply sorted_from_weaken].
    + cbn [separated]. split_and!; [done|done|done|]. by apply IH.
Qed.

(** The rows an insertion covers, and that the list stays separated. *)
Lemma merge_insert b canvas l :
  0 <= Y0 b -> Y0 b < Y1 b -> Y1 b <= canvas -> separated (-1) canvas l ->
  separated (-1) canvas (merge (insert_band b l))
  /\ forall r, covers (merge (insert_band b l)) r <-> in_band r b \/ covers l r.
Proof.
  intros H0 H1 H2 Hs.
  pose proof (insert_band_sorted b 0 canvas l H0 H1 H2 (separated_sorted _ 0 _ _ Hs ltac:(lia))) as Hi.
  assert (forall r, covers (insert_band b l) r <-> in_band r b \/ covers l r) as Hc
    by (intros r; apply insert_band_covers).
  destruct (insert_band b l) as [|c k]; cbn [merge].
  - split; [done|]. intros r. apply Hc.
  - destruct Hi as (C1 & C2 & C3 & C4). split; [by apply merge_loop_separated; [lia|..]|].
    intros r. rewrite merge_loop_covers by done. rewrite <- Hc. unfold covers. by rewrite Exists_cons.
Qed.

(** ** The accumulator *)

Inductive band_op := Add (y height : Z) | Clear.

Definition band_step (d : DirtyBands) (o : band_op) : DirtyBands :=
  match o with Add y h => AddRect d y h | Clear => Reset d end.

(** The rows repainted since the last reset, by the operations themselves. *)
Fixpoint repainted (canvas pad : Z) (ops : list band_op) (r : Z) (acc : Prop) : Prop :=
  match ops with
  | [] => acc
  | Add y h :: ops =>
      repainted canvas pad ops r
        (acc \/ 0 < h /\ y - pad <= r < y + h + pad /\ 0 <= r < canvas)
  | Clear :: ops => repainted canvas pad ops r False
  end.

Lemma repainted_ext canvas pad ops r (P Q : Prop) :
  (P <-> Q) -> repainted canvas pad ops r P <-> repainted canvas pad ops r Q.
Proof.
  revert P Q. induction ops as [|[y h|] ops IH]; intros P Q HPQ; cbn; [done| |done]. apply IH. tauto.
Qed.

Lemma extent_spec d y h r : 0 < h ->
  let '(y0, y1) := extent d y h in
  (y0 <= r < y1 <-> y - db_pad d <= r < y + h + db_pad d /\ 0 <= r < db_canvasHeight d)
  /\ 0 <= y0 /\ y1 <= db_canvasHeight d.
Proof.
  intros Hh. unfold extent.
  destruct (Z.ltb_spec (y - db_pad d) 0), (Z.ltb_spec (db_canvasHeight d) (y + h + db_pad d)); lia.
Qed.

Lemma AddRect_spec d y h :
  separated (-1) (db_canvasHeight d) (db_bands d) ->
  db_canvasHeight (AddRect d y h) = db_canvasHeight d /\ db_pad (AddRect d y h) = db_pad d
  /\ separated (-1) (db_canvasHeight d) (db_bands (AddRect d y h))
  /\ forall r, covers (db_bands (AddRect d y h)) r
     <-> covers (db_bands d) r
         \/ 0 < h /\ y - db_pad d <= r < y + h + db_pad d /\ 0 <= r < db_canvasHeight d.
Proof.
  intros Hs. unfold AddRect. destruct (Z.leb_spec h 0) as [Hh|Hh].
  { split_and!; [done|done|done|]. intros r. split; [auto|]. intros [?|?]; [done|lia]. }
  pose proof (extent_spec d y h) as Hx. destruct (extent d y h) as [y0 y1].
  destruct (Z.leb_spec y1 y0) as [He|He]; cbn [set_bands db_canvasHeight db_pad db_bands].
  { split_and!; [done|done|done|]. intros r. destruct (Hx r Hh) as [Hr _]. split; [auto|].
    intros [?|[_ ?%Hr]]; [done|lia]. }
  destruct (Hx y0 Hh) as (_ & Hlo & Hhi).
  destruct (merge_insert {| Y0 := y0; Y1 := y1 |} (db_canvasHeight d) (db_bands d)) as [Hm Hc];
    [done..|]. split_and!; [done|done|done|]. intros r. rewrite Hc. destruct (Hx r Hh) as [Hr _].
  unfold in_band. cbn [Y0 Y1]. rewrite Hr. tauto.
Qed.

Lemma run_bands d ops P r :
  separated (-1) (db_canvasHeight d) (db_bands d) -> (covers (db_bands d) r <-> P) ->
  let d' := fold_left band_step ops d in
  db_canvasHeight d' = db_canvasHeight d /\ db_pad d' = db_pad d
  /\ separated (-1) (db_canvasHeight d) (db_bands d')
  /\ (covers (db_bands d') r <-> repainted (db_canvasHeight d) (db_pad d) ops r P).
Proof.
  revert d P. induction ops as [|[y h|] ops IH]; intros d P Hs HP; cbn [fold_left repainted band_step].
  - done.
  - destruct (AddRect_spec d y h Hs) as (Ec & Ep & Hs' & Hr).
    specialize (IH (AddRect d y h)). rewrite Ec, Ep in IH. apply IH; [done|]. rewrite Hr. tauto.
  - apply (IH (Reset d)); [done|]. cbn. unfold covers. rewrite Exists_nil. done.
Qed.

(** ** Counting rows *)

Definition covb (l : list YBand) (r : Z) : bool :=
  existsb (fun b => (Y0 b <=? r) && (r <? Y1 b)) l.

Lemma covb_spec l r : covb l r = true <-> covers l r.
Proof.
  unfold covb, covers. rewrite existsb_exists, Exists_exists. unfold in_band.
  split; intros (b & Hb & Hr); exists b; rewrite list_elem_of_In in *; (split; [done|]);
    [apply andb_true_iff in Hr as [?%Z.leb_le ?%Z.ltb_lt]; lia|].
  apply andb_true_iff. split; [apply Z.leb_le|apply Z.ltb_lt]; lia.
Qed.

(** The rows of [from <= r < from + n] the bands cover. *)
Definition count_rows (l : list YBand) (from n : Z) : Z :=
  Z.of_nat (length (List.filter (covb l) (seqZ from n))).

Lemma count_rows_split l from n m : 0 <= n -> 0 <= m ->
  count_rows l from (n + m) = count_rows l from n + count_rows l (from + n) m.
Proof.
  intros Hn Hm. unfold count_rows. rewrite seqZ_app, List.filter_app, length_app by lia. lia.
Qed.

Lemma count_rows_const l from n (v : bool) : 0 <= n ->
  (forall r, from <= r < from + n -> covb l r = v) -> count_rows l from n = if v then n else 0.
Proof.
  intros Hn Hr. unfold count_rows.
  assert (List.filter (covb l) (seqZ from n) = if v then seqZ from n else []) as ->.
  { assert (Forall (fun r => covb l r = v) (seqZ from n)) as Hf
      by (apply Forall_forall; intros r ?%elem_of_seqZ; apply Hr; lia).
    induction Hf as [|r k Hrv _ IH]; [by destruct v|]. cbn. rewrite Hrv, IH. by destruct v. }
  destruct v; [rewrite length_seqZ; lia|done].
Qed.

Lemma count_rows_ext l k from n :
  (forall r, from <= r < from + n -> covb l r = covb k r) -> count_rows l from n = count_rows k from n.
Proof.
  intros Hr. unfold count_rows. f_equal. f_equal. apply List.filter_ext_in.
  intros r Hin%list_elem_of_In%elem_of_seqZ. apply Hr. lia.
Qed.

Lemma separated_above lo canvas l r : separated lo canvas l -> r <= lo -> covb l r = false.
Proof.
  revert lo. induction l as [|b l IH]; intros lo; cbn; [done|]. intros (H1 & H2 & _ & H4) Hr.
  rewrite (proj2 (Z.leb_gt _ _)) by lia. cbn. apply (IH (Y1 b)); [done|lia].
Qed.

Definition sum_heights (l : list YBand) : Z := foldr (fun b t => Height b + t) 0 l.

Lemma CoveredRows_sum d : CoveredRows d = sum_heights (db_bands d).
Proof.
  unfold CoveredRows, sum_heights.
  assert (forall l t, fold_left (fun t b => t + Height b) l t = t + foldr (fun b t => Height b + t) 0 l)
    as Hf; [|by rewrite Hf].
  induction l as [|b l IH]; intros t; cbn; [lia|]. rewrite IH. lia.
Qed.

Lemma sum_heights_count l lo canvas from :
  separated lo canvas l -> from <= lo + 1 -> from <= canvas ->
  count_rows l from (canvas - from) = sum_heights l.
Proof.
  revert lo from. induction l as [|b l IH]; intros lo from.
  - intros _ _ Hc. rewrite (count_rows_const _ _ _ false) by (done || lia). done.
  - cbn [separated]. intros (H1 & H2 & H3 & H4) Hf Hc. cbn [sum_heights foldr]. fold (sum_heights l).
    replace (canvas - from) with (Y0 b - from + (Height b + (canvas - Y1 b))) by (unfold Height; lia).
    rewrite !count_rows_split by (unfold Height; lia).
    assert (forall r, covb (b :: l) r = ((Y0 b <=? r) && (r <? Y1 b)) || covb l r) as Hcons by done.
    rewrite (count_rows_const _ from _ false), (count_rows_const _ _ (Height b) true).
    + rewrite <- (IH (Y1 b) (Y1 b)) by (done || lia). rewrite Z.add_0_l. f_equal.
      replace (from + (Y0 b - from) + Height b) with (Y1 b) by (unfold Height; lia).
      apply count_rows_ext. intros r Hr. rewrite Hcons.
      rewrite (proj2 (Z.ltb_ge r (Y1 b))) by lia. by rewrite andb_false_r.
    + unfold Height. lia.
    + intros r Hr. rewrite Hcons. unfold Height in Hr.
      by rewrite (proj2 (Z.leb_le _ _)), (proj2 (Z.ltb_lt _ _)) by lia.
    + lia.
    + intros r Hr. rewrite Hcons, (proj2 (Z.leb_gt (Y0 b) r)) by lia. cbn.
      apply (separated_above (Y1 b) canvas); [done|lia].
Qed.

Lemma separated_inside lo canvas l b : separated lo canvas l -> b ∈ l ->
  lo < Y0 b /\ Y0 b < Y1 b /\ Y1 b <= canvas.
Proof.
  revert lo. induction l as [|c l IH]; intros lo; cbn; [by intros _ ?%not_elem_of_nil|].
  intros (H1 & H2 & H3 & H4) [->|Hb]%elem_of_cons; [done|].
  destruct (IH (Y1 c) H4 Hb) as (? & ? & ?). lia.
Qed.

Lemma extent_order d y h : 0 < h -> 0 <= db_pad d ->
  let '(y0, y1) := extent d y h in y0 < y1 \/ db_canvasHeight d <= y0 \/ y1 <= 0.
Proof.
  intros Hh Hp. unfold extent.
  destruct (Z.ltb_spec (y - db_pad d) 0), (Z.ltb_spec (db_canvasHeight d) (y + h + db_pad d)); lia.
Qed.

Lemma Intersects_spec d y h :
  separated (-1) (db_canvasHeight d) (db_bands d) -> 0 <= db_pad d ->
  Intersects d y h = true <->
  0 < h /\ exists r, y - db_pad d <= r < y + h + db_pad d /\ covers (db_bands d) r.
Proof.
  intros Hs Hp. unfold Intersects. destruct (Z.leb_spec h 0) as [Hh|Hh]; [split; [done|lia]|].
  pose proof (extent_spec d y h) as Hx. pose proof (extent_order d y h Hh Hp) as Ho.
  destruct (extent d y h) as [y0 y1]. rewrite existsb_exists. split.
  - intros (b & Hb%list_elem_of_In & Ht%andb_true_iff). destruct Ht as [?%Z.ltb_lt ?%Z.ltb_lt].
    destruct (separated_inside _ _ _ b Hs Hb) as (? & ? & ?). split; [done|].
    exists (Z.max y0 (Y0 b)).
    assert (y0 < y1) as Hne by lia.
    destruct (Hx (Z.max y0 (Y0 b)) Hh) as ([Hr _] & _ & _). split; [lia|].
    apply Exists_exists. exists b. split; [done|]. unfold in_band. lia.
  - intros (_ & r & Hr & Hc). apply Exists_exists in Hc as (b & Hb & Hin).
    exists b. split; [by apply list_elem_of_In|]. destruct (separated_inside _ _ _ b Hs Hb) as (? & ? & ?).
    destruct (Hx r Hh) as ([_ Hr'] & _ & _). unfold in_band in Hin.
    apply andb_true_iff. rewrite !Z.ltb_lt. lia.
Qed.

(** C19 The bands are exactly the repainted rows: over any sequence of repaints and
    resets on a canvas, the bands stay sorted, separated and inside the canvas;
    a row is in one exactly when a rectangle since the last reset, padded,
    reached it; [CoveredRows] is the number of such rows; and [Intersects] says
    exactly whether a padded rectangle reaches one. *)
Theorem bands_are_repainted_rows canvas pad ops :
  0 <= canvas ->
  let d := fold_left band_step ops (NewDirtyBands canvas pad) in
  separated (-1) canvas (Bands d)
  /\ (forall r, covers (Bands d) r <-> repainted canvas (db_pad d) ops r False)
  /\ CoveredRows d = count_rows (Bands d) 0 canvas
  /\ (forall y h, Intersects d y h = true <->
        0 < h /\ exists r, y - db_pad d <= r < y + h + db_pad d /\ covers (Bands d) r).
Proof.
  intros Hc d. unfold Bands.
  assert (separated (-1) canvas (db_bands (NewDirtyBands canvas pad))) as H0 by done.
  assert (forall r, covers (db_bands (NewDirtyBands canvas pad)) r <-> False) as H1
    by (intros r; unfold covers; cbn; by rewrite Exists_nil).
  assert (0 <= db_pad (NewDirtyBands canvas pad)) as Hpad
    by (cbn; destruct (Z.leb_spec pad 0); unfold DefaultBandPadding; lia).
  pose proof (fun r => run_bands (NewDirtyBands canvas pad) ops False r H0 (H1 r)) as Hrun.
  cbn zeta in Hrun. fold d in Hrun. destruct (Hrun 0) as (Ec & Ep & Hs & _).
  cbn [NewDirtyBands db_canvasHeight] in Ec, Hs.
  split_and!; [done| | |].
  - intros r. destruct (Hrun r) as (_ & _ & _ & Hr). rewrite Hr, Ep. done.
  - rewrite CoveredRows_sum. rewrite <- (sum_heights_count _ (-1) canvas 0) by (done || lia).
    by rewrite Z.sub_0_r.
  - intros y h. apply Intersects_spec; [by rewrite Ec|by rewrite Ep].
Qed.

(** ** Chunks own words once *)

Definition center (w : Word) : Z := wTop w + Z.quot (wHeight w) 2.
Definition owns (r : Z) (c : ocrChunk) : bool := (Y0 (own c) <=? r) && (r <? Y1 (own c)).

Definition owners (r : Z) (l : list ocrChunk) : nat := length (List.filter (owns r) l).

Lemma owners_app r l k : owners r (l ++ k) = (owners r l + owners r k)%nat.
Proof. unfold owners. by rewrite List.filter_app, length_app. Qed.

Lemma owners_cons r c l : owners r (c :: l) = ((if owns r c then 1 else 0) + owners r l)%nat.
Proof. unfold owners. cbn. by destruct (owns r c). Qed.

Lemma split_loop_owners fuel band maxRows pad y r :
  0 < maxRows -> Y1 band - y <= Z.of_nat fuel ->
  owners r (split_loop fuel band maxRows pad y)
  = if (y <=? r) && (r <? Y1 band) then 1%nat else 0%nat.
Proof.
  intros Hm. revert y. induction fuel as [|fuel IH]; intros y Hf; cbn [split_loop].
  - cbn. destruct (Z.leb_spec y r), (Z.ltb_spec r (Y1 band)); cbn; try done. lia.
  - destruct (Z.ltb_spec y (Y1 band)) as [Hy|Hy].
    + rewrite owners_cons, IH by lia. unfold owns, chunk_at. cbn [own Y0 Y1].
      destruct (Z.ltb_spec (Y1 band) (y + maxRows)), (Z.leb_spec y r), (Z.ltb_spec r (Y1 band)),
        (Z.leb_spec (y + maxRows) r), (Z.ltb_spec r (y + maxRows)); cbn; try done; lia.
    + cbn. destruct (Z.leb_spec y r), (Z.ltb_spec r (Y1 band)); cbn; try done. lia.
Qed.

Lemma split_band_owners band maxRows pad r : 0 < maxRows ->
  owners r (split_band maxRows pad band) = if (Y0 band <=? r) && (r <? Y1 band) then 1%nat else 0%nat.
Proof.
  intros Hm. unfold split_band. destruct (Height band <=? maxRows + pad).
  - rewrite owners_cons. unfold owns. cbn [own]. by destruct (_ && _).
  - apply split_loop_owners; [done|]. unfold Height. lia.
Qed.

(** Every row of the bands is owned by one chunk, every other row by none. *)
Lemma splitBands_owners lo canvas bands maxRows pad r :
  0 < maxRows -> separated lo canvas bands ->
  owners r (splitBands bands maxRows pad) = if covb bands r then 1%nat else 0%nat.
Proof.
  intros Hm. unfold splitBands. revert lo. induction bands as [|b l IH]; intros lo; [done|].
  cbn [separated map concat]. intros (H1 & H2 & H3 & H4).
  rewrite owners_app, split_band_owners, (IH _ H4) by done. cbn [covb existsb].
  fold (covb l r). destruct (Z.leb_spec (Y0 b) r), (Z.ltb_spec r (Y1 b)); cbn; try done.
  by rewrite (separated_above (Y1 b) canvas l r H4) by lia.
Qed.

(** What a chunk of a band can be. *)
Lemma split_band_shape band maxRows pad c :
  0 < maxRows -> 0 <= pad -> Y0 band < Y1 band -> c ∈ split_band maxRows pad band ->
  Y0 (win c) = Z.max (Y0 band) (Y0 (own c) - pad) /\ Y1 (win c) = Z.min (Y1 band) (Y1 (own c) + pad)
  /\ Y0 band <= Y0 (own c) /\ Y1 (own c) <= Y1 band /\ Height (win c) <= maxRows + 2 * pad.
Proof.
  intros Hm Hp Hb. unfold split_band. destruct (Z.leb_spec (Height band) (maxRows + pad)) as [Hh|Hh].
  - intros ->%list_elem_of_singleton. unfold Height in *. cbn. lia.
  - assert (forall fuel y, Y0 band <= y -> c ∈ split_loop fuel band maxRows pad y ->
      exists y', Y0 band <= y' < Y1 band /\ c = chunk_at band maxRows pad y') as Hs.
    { induction fuel as [|fuel IH]; intros y Hy; cbn [split_loop]; [by intros ?%not_elem_of_nil|].
      destruct (Z.ltb_spec y (Y1 band)); [|by intros ?%not_elem_of_nil].
      intros [->|Hin]%elem_of_cons; [by exists y|]. apply (IH (y + maxRows)); [lia|done]. }
    intros Hin. destruct (Hs _ _ ltac:(reflexivity) Hin) as (y & Hy & ->).
    unfold chunk_at, Height in *. cbn [own win Y0 Y1].
    repeat match goal with |- context [?a <? ?b] => destruct (Z.ltb_spec a b) end; lia.
Qed.

Lemma chunk_of_band bands maxRows pad c : c ∈ splitBands bands maxRows pad ->
  exists b, b ∈ bands /\ c ∈ split_band maxRows pad b.
Proof.
  unfold splitBands. intros (k & Hk & Hc)%list_elem_of_In%in_concat.
  apply in_map_iff in Hk as (b & <- & Hb). exists b. by rewrite !list_elem_of_In.
Qed.

Lemma separated_unique lo canvas l b c r :
  separated lo canvas l -> b ∈ l -> c ∈ l -> in_band r b -> in_band r c -> b = c.
Proof.
  unfold in_band. revert lo. induction l as [|a l IH]; intros lo; [by intros _ ?%not_elem_of_nil|].
  cbn. intros (_ & _ & _ & Hs) [->|Hb]%elem_of_cons [->|Hc]%elem_of_cons Hrb Hrc; [done| | |by eapply IH].
  - destruct (separated_inside _ _ _ c Hs Hc) as (? & ? & ?). lia.
  - destruct (separated_inside _ _ _ b Hs Hb) as (? & ? & ?). lia.
Qed.

(** A word is read whole and kept once: with separated bands cut into chunks,
    every word that lies in a band and is no taller than twice the padding is
    owned by exactly one chunk, and the window of that chunk shows the whole
    word; no window is taller than the limit and twice the padding. *)
Theorem words_read_once canvas bands maxRows pad w band :
  0 < maxRows -> 0 <= pad -> separated (-1) canvas bands -> band ∈ bands ->
  Y0 band <= wTop w -> wTop w + wHeight w <= Y1 band -> 0 < wHeight w <= 2 * pad ->
  let chunks := splitBands bands maxRows pad in
  length (List.filter (fun c => ownsWord c w) chunks) = 1%nat
  /\ Forall (fun c => ownsWord c w = true ->
       Y0 (win c) <= wTop w /\ wTop w + wHeight w <= Y1 (win c)) chunks
  /\ Forall (fun c => Height (win c) <= maxRows + 2 * pad) chunks.
Proof.
  intros Hm Hp Hs Hin Ht Hb Hh chunks.
  assert (0 <= Z.quot (wHeight w) 2 <= pad
    /\ wHeight w - Z.quot (wHeight w) 2 <= pad /\ Z.quot (wHeight w) 2 < wHeight w) as Hq.
  { rewrite Z.quot_div_nonneg by lia. Z.div_mod_to_equations. lia. }
  assert (covb bands (center w) = true) as Hc.
  { apply covb_spec, Exists_exists. exists band. split; [done|]. unfold in_band, center. lia. }
  split; [|split].
  - transitivity (owners (center w) chunks); [done|]. unfold chunks.
    rewrite (splitBands_owners (-1) canvas) by done. by rewrite Hc.
  - apply Forall_forall. intros c (b & Hbin & Hcb)%chunk_of_band Hown. unfold ownsWord in Hown.
    apply andb_true_iff in Hown as [?%Z.leb_le ?%Z.ltb_lt].
    destruct (separated_inside _ _ _ b Hs Hbin) as (_ & Hne & _).
    destruct (split_band_shape b maxRows pad c Hm Hp Hne Hcb) as (W0 & W1 & O0 & O1 & _).
    assert (b = band) as ->
      by (apply (separated_unique _ _ _ _ _ (center w) Hs Hbin Hin); unfold in_band, center; lia).
    rewrite W0, W1. lia.
  - apply Forall_forall. intros c (b & Hbin & Hcb)%chunk_of_band.
    destruct (separated_inside _ _ _ b Hs Hbin) as (_ & Hne & _).
    by apply (split_band_shape b maxRows pad c Hm Hp Hne Hcb).
Qed.

(** ** Evaluation *)

Definition demo_repaints : list band_op :=
  [Add 500 10; Clear; Add 100 10; Add 150 15; Add 900 400; Add 0 0].

Lemma bands_are_repainted_rows_witness :
  let d := fold_left band_step demo_repaints (NewDirtyBands 1000 0) in
  Bands d = [{| Y0 := 76; Y1 := 189 |}; {| Y0 := 876; Y1 := 1000 |}]
  /\ separated (-1) 1000 (Bands d).
Proof.
  intros d. split; [vm_compute; reflexivity|].
  apply (bands_are_repainted_rows 1000 0 demo_repaints). lia.
Defined.

Lemma words_read_once_witness :
  length (List.filter (fun c => ownsWord c {| wTop := 250; wHeight := 14 |})
            (splitBands [{| Y0 := 0; Y1 := 1000 |}] maxChunkRows 24)) = 1%nat.
Proof.
  destruct (words_read_once 1000 [{| Y0 := 0; Y1 := 1000 |}] maxChunkRows 24
    {| wTop := 250; wHeight := 14 |} {| Y0 := 0; Y1 := 1000 |}) as [HW _].
  - unfold maxChunkRows. lia.
  - lia.
  - cbn. lia.
  - apply list_elem_of_singleton. reflexivity.
  - cbn. lia.
  - cbn. lia.
  - cbn. lia.
  - exact HW.
Defined.
