(* ===== verification/Rle.v ===== *)
(** * RDP bitmap decompression: src/gateway/rdp/rle/rle.go

    [Decompress] reads interleaved run-length orders into a bitmap, [ToRGBA]
    turns the bitmap into top-down RGBA.  The source reads past its end as
    zeros and drops writes past the bitmap; reading the pixel above is an
    indexing of the bitmap, which can panic: [None].

    A pixel is its little-endian value of one, two or three bytes. *)

From S2P Require Import Prelude.

#[local] Open Scope Z_scope.

(** ** Order codes *)

Definition regularBGRun : Z := 0x00.
Definition regularFGRun : Z := 0x01.
Definition regularFGBG : Z := 0x02.
Definition regularColor : Z := 0x03.
Definition regularCImage : Z := 0x04.
Definition megaMegaBGRun : Z := 0xF0.
Definition megaMegaFGRun : Z := 0xF1.
Definition megaMegaFGBG : Z := 0xF2.
Definition megaMegaColor : Z := 0xF3.
Definition megaMegaCImage : Z := 0xF4.
Definition megaMegaSetFGRun : Z := 0xF6.
Definition megaMegaSetFGBG : Z := 0xF7.
Definition megaMegaDithered : Z := 0xF8.
Definition liteSetFGRun : Z := 0x0C.
Definition liteSetFGBG : Z := 0x0D.
Definition liteDithered : Z := 0x0E.
Definition specialFGBG1 : Z := 0xF9.
Definition specialFGBG2 : Z := 0xFA.
Definition specialWhite : Z := 0xFD.
Definition specialBlack : Z := 0xFE.
Definition maskRegularRunLength : Z := 0x1F.
Definition maskLiteRunLength : Z := 0x0F.

Definition decodeCode (header : Z) : Z :=
  if negb (Z.land header 0xC0 =? 0xC0) then Z.shiftr header 5
  else if Z.land header 0xF0 =? 0xF0 then header
  else Z.shiftr header 4.

(** ** The decoder's state *)

(** [st_src] is the source from [srcPos] on. *)
Record dstate := {
  st_src : bytes;
  st_dst : bytes;
  st_pos : nat;
  st_fg : Z;
  st_insert : bool;
  st_first : bool;
}.

Definition with_src (s : dstate) (src : bytes) : dstate :=
  {| st_src := src; st_dst := st_dst s; st_pos := st_pos s; st_fg := st_fg s;
     st_insert := st_insert s; st_first := st_first s |}.
Definition with_dst (s : dstate) (dst : bytes) (pos : nat) : dstate :=
  {| st_src := st_src s; st_dst := dst; st_pos := pos; st_fg := st_fg s;
     st_insert := st_insert s; st_first := st_first s |}.
Definition with_fg (s : dstate) (fg : Z) : dstate :=
  {| st_src := st_src s; st_dst := st_dst s; st_pos := st_pos s; st_fg := fg;
     st_insert := st_insert s; st_first := st_first s |}.
Definition with_flags (s : dstate) (insert first : bool) : dstate :=
  {| st_src := st_src s; st_dst := st_dst s; st_pos := st_pos s; st_fg := st_fg s;
     st_insert := insert; st_first := first |}.

(** ** Reading *)

Definition readU8 (s : dstate) : Z * dstate :=
  match st_src s with
  | [] => (0, s)
  | b :: r => (bval b, with_src s r)
  end.

Definition readU16 (s : dstate) : Z * dstate :=
  match st_src s with
  | b0 :: b1 :: r => (Z.lor (bval b0) (Z.shiftl (bval b1) 8), with_src s r)
  | _ => (0, with_src s [])
  end.

(** The value of a pixel's bytes, the first one lowest. *)
Fixpoint pixel_of (l : bytes) : Z :=
  match l with
  | [] => 0
  | b :: r => Z.lor (bval b) (Z.shiftl (pixel_of r) 8)
  end.

Definition readPixel (depth : nat) (s : dstate) : Z * dstate :=
  if (depth =? 1)%nat then readU8 s
  else if (depth =? 2)%nat then readU16 s
  else
    match st_src s with
    | b0 :: b1 :: b2 :: r => (pixel_of [b0; b1; b2], with_src s r)
    | _ => (0, with_src s [])
    end.

(** ** Writing *)

(** [byte(pixel)], [byte(pixel >> 8)], [byte(pixel >> 16)] *)
Fixpoint pixel_bytes (depth : nat) (pixel : Z) : bytes :=
  match depth with
  | O => []
  | S depth => to_byte pixel :: pixel_bytes depth (Z.shiftr pixel 8)
  end.

(** [dst[pos] = b0; dst[pos+1] = b1; ...] *)
Definition overwrite (dst : bytes) (pos : nat) (l : bytes) : bytes :=
  take pos dst ++ l ++ drop (pos + length l) dst.

Definition writePixel (depth : nat) (pixel : Z) (s : dstate) : dstate :=
  if (length (st_dst s) <? st_pos s + depth)%nat then s
  else with_dst s (overwrite (st_dst s) (st_pos s) (pixel_bytes depth pixel)) (st_pos s + depth).

(** [None]: an index out of range. *)
Definition readPixelAbove (depth rowDelta : nat) (s : dstate) : option Z :=
  if (st_pos s <? rowDelta)%nat then Some 0
  else
    let above := (st_pos s - rowDelta)%nat in
    if (length (st_dst s) <? above + depth)%nat then None
    else Some (pixel_of (take depth (drop above (st_dst s)))).

Section Decoder.
Variables (depth rowDelta : nat) (whitePixel : Z).

Definition blackPixel : Z := 0.

(** ** Run lengths *)

Definition extractRunLengthRegular (header : Z) (s : dstate) : Z * dstate :=
  let rl := Z.land header maskRegularRunLength in
  if rl =? 0 then let '(v, s) := readU8 s in (v + 32, s) else (rl, s).

Definition extractRunLengthLite (header : Z) (s : dstate) : Z * dstate :=
  let rl := Z.land header maskLiteRunLength in
  if rl =? 0 then let '(v, s) := readU8 s in (v + 16, s) else (rl, s).

Definition extractRunLengthFgBg (header mask : Z) (s : dstate) : Z * dstate :=
  let rl := Z.land header mask in
  if rl =? 0 then let '(v, s) := readU8 s in (v + 1, s) else (rl * 8, s).

Definition is_code (code : Z) (l : list Z) : bool := existsb (Z.eqb code) l.

Definition extractRunLength (code header : Z) (s : dstate) : Z * dstate :=
  if code =? regularFGBG then extractRunLengthFgBg header maskRegularRunLength s
  else if code =? liteSetFGBG then extractRunLengthFgBg header maskLiteRunLength s
  else if is_code code [regularBGRun; regularFGRun; regularColor; regularCImage]
  then extractRunLengthRegular header s
  else if is_code code [liteSetFGRun; liteDithered] then extractRunLengthLite header s
  else if is_code code [megaMegaBGRun; megaMegaFGRun; megaMegaSetFGRun; megaMegaDithered;
                        megaMegaColor; megaMegaFGBG; megaMegaSetFGBG; megaMegaCImage]
  then readU16 s
  else (0, s).

(** ** Orders *)

(** A pixel of a run: [on] takes the foreground into it. *)
Definition run_pixel (on : bool) (s : dstate) : option dstate :=
  if st_first s then Some (writePixel depth (if on then st_fg s else blackPixel) s)
  else
    above ← readPixelAbove depth rowDelta s;
    Some (writePixel depth (if on then Z.lxor above (st_fg s) else above) s).

(** [for i := 0; i < n; i++ { f }] *)
Fixpoint repeat_opt (n : nat) (f : dstate -> option dstate) (s : dstate) : option dstate :=
  match n with
  | O => Some s
  | S n => s' ← f s; repeat_opt n f s'
  end.

(** [writeFgBgImage]: the bits from the lowest. *)
Fixpoint writeFgBgImage (bitmask : Z) (cBits : nat) (s : dstate) : option dstate :=
  match cBits with
  | O => Some s
  | S cBits => s' ← run_pixel (Z.odd bitmask) s; writeFgBgImage (Z.shiftr bitmask 1) cBits s'
  end.

(** [for remaining > 0]: a bitmask for every eight pixels. *)
Fixpoint fgbg_loop (fuel : nat) (remaining : Z) (s : dstate) : option dstate :=
  match fuel with
  | O => Some s
  | S fuel =>
      if remaining <=? 0 then Some s
      else
        let cBits := if 8 <? remaining then 8 else remaining in
        let '(bitmask, s) := readU8 s in
        s' ← writeFgBgImage bitmask (Z.to_nat cBits) s; fgbg_loop fuel (remaining - cBits) s'
  end.

(** The copy of a colour image, byte by byte. *)
Fixpoint copy_loop (n : nat) (s : dstate) : dstate :=
  match n with
  | O => s
  | S n =>
      copy_loop n
        (match st_src s with
         | b :: r =>
             if (st_pos s <? length (st_dst s))%nat
             then with_src (with_dst s (<[st_pos s := b]> (st_dst s)) (st_pos s + 1)) r
             else s
         | [] => s
         end)
  end.

Definition background_run (runLength : Z) (s : dstate) : option dstate :=
  s' ← (if st_insert s then run_pixel true s else Some s);
  let count := if st_insert s then runLength - 1 else runLength in
  s'' ← repeat_opt (Z.to_nat count) (run_pixel false) s';
  Some (with_flags s'' true (st_first s'')).

(** The orders other than a background run. *)
Definition other_order (code runLength : Z) (s : dstate) : option dstate :=
  let n := Z.to_nat runLength in
  if is_code code [regularFGRun; megaMegaFGRun; liteSetFGRun; megaMegaSetFGRun] then
    let s := if is_code code [liteSetFGRun; megaMegaSetFGRun]
             then let '(p, s) := readPixel depth s in with_fg s p else s in
    repeat_opt n (run_pixel true) s
  else if is_code code [liteDithered; megaMegaDithered] then
    let '(a, s) := readPixel depth s in
    let '(b, s) := readPixel depth s in
    repeat_opt n (fun s => Some (writePixel depth b (writePixel depth a s))) s
  else if is_code code [regularColor; megaMegaColor] then
    let '(p, s) := readPixel depth s in
    repeat_opt n (fun s => Some (writePixel depth p s)) s
  else if is_code code [regularFGBG; megaMegaFGBG; liteSetFGBG; megaMegaSetFGBG] then
    let s := if is_code code [liteSetFGBG; megaMegaSetFGBG]
             then let '(p, s) := readPixel depth s in with_fg s p else s in
    fgbg_loop n runLength s
  else if is_code code [regularCImage; megaMegaCImage] then Some (copy_loop (n * depth) s)
  else if code =? specialFGBG1 then writeFgBgImage 0x03 8 s
  else if code =? specialFGBG2 then writeFgBgImage 0x05 8 s
  else if code =? specialWhite then Some (writePixel depth whitePixel s)
  else if code =? specialBlack then Some (writePixel depth blackPixel s)
  else Some s.

(** One round of the loop. *)
Definition order_step (s : dstate) : option dstate :=
  let s := if st_first s && (rowDelta <=? st_pos s)%nat then with_flags s false false else s in
  let '(header, s) := readU8 s in
  let code := decodeCode header in
  let '(runLength, s) := extractRunLength code header s in
  if is_code code [regularBGRun; megaMegaBGRun] then background_run runLength s
  else other_order code runLength (with_flags s false (st_first s)).

(** [for srcPos < len(src)]: every round reads a byte. *)
Fixpoint order_loop (fuel : nat) (s : dstate) : option dstate :=
  match fuel with
  | O => Some s
  | S fuel =>
      match st_src s with
      | [] => Some s
      | _ :: _ => s' ← order_step s; order_loop fuel s'
      end
  end.
End Decoder.

Definition colorDepth (bpp : Z) : nat := if bpp <=? 8 then 1 else if bpp <=? 16 then 2 else 3.

Definition white_of (bpp : Z) : Z :=
  if bpp =? 24 then 0xFFFFFF else if bpp =? 16 then 0xFFFF else if bpp =? 15 then 0x7FFF else 0xFF.

Definition init_state (src : bytes) (size : nat) (white : Z) : dstate :=
  {| st_src := src; st_dst := replicate size x00; st_pos := 0; st_fg := white; st_insert := false;
     st_first := true |}.

(** The error for no data, a panic, or the bitmap. *)
Inductive result := NoData | Unsupported | Panic | Bitmap (dst : bytes).

Definition Decompress (src : bytes) (width height : nat) (bpp : Z) : result :=
  match src with
  | [] => NoData
  | _ :: _ =>
      let depth := colorDepth bpp in
      let rowDelta := (depth * width)%nat in
      match order_loop depth rowDelta (white_of bpp) (length src)
              (init_state src (rowDelta * height) (white_of bpp)) with
      | Some s => Bitmap (st_dst s)
      | None => Panic
      end
  end.

(** ** RGBA *)

Definition rgba_of (bpp : Z) (px : bytes) : bytes :=
  if bpp =? 16 then
    let pixel := pixel_of px in
    let r := Z.land (Z.shiftr pixel 11) 0x1F in
    let g := Z.land (Z.shiftr pixel 5) 0x3F in
    let b := Z.land pixel 0x1F in
    [to_byte (Z.lor (Z.shiftl r 3) (Z.shiftr r 2)); to_byte (Z.lor (Z.shiftl g 2) (Z.shiftr g 4));
     to_byte (Z.lor (Z.shiftl b 3) (Z.shiftr b 2)); xff]
  else
    match px with
    | b0 :: b1 :: b2 :: _ => [b2; b1; b0; xff]
    | _ => []
    end.

(** A row: up to the first pixel the source does not hold, zeros after. *)
Fixpoint rgba_row (bpp : Z) (bytesPerPixel n : nat) (src : bytes) : bytes :=
  match n with
  | O => []
  | S n =>
      if (length src <? bytesPerPixel)%nat then replicate (4 * S n) x00
      else rgba_of bpp (take bytesPerPixel src) ++ rgba_row bpp bytesPerPixel n (drop bytesPerPixel src)
  end.

(** The rows from the last of the source to the first. *)
Fixpoint rgba_rows (bpp : Z) (bytesPerPixel width height : nat) (src : bytes) : bytes :=
  match height with
  | O => []
  | S h =>
      rgba_row bpp bytesPerPixel width (drop (h * (width * bytesPerPixel)) src)
      ++ rgba_rows bpp bytesPerPixel width h src
  end.

Definition ToRGBA (src : bytes) (width height : nat) (bpp : Z) : result :=
  if (height =? 0)%nat then Bitmap []
  else if (bpp =? 16) || (bpp =? 24) || (bpp =? 32)
  then Bitmap (rgba_rows bpp (Z.to_nat (Z.shiftr bpp 3)) width height src)
  else Unsupported.

Definition DecompressToRGBA (src : bytes) (width height : nat) (bpp : Z) : result :=
  match Decompress src width height bpp with
  | Bitmap dst => ToRGBA dst width height bpp
  | r => r
  end.
