(* ===== verification/RleProps.v ===== *)
(** * Properties of the RDP bitmap decompression

    On any input the decoder returns a bitmap of the right size, and on the
    encoding of a sequence of orders it draws what the orders say. *)

From S2P Require Import Prelude Utf Rle.

#[local] Open Scope Z_scope.

(** ** Any input *)

Lemma length_overwrite dst pos l :
  (pos + length l <= length dst)%nat -> length (overwrite dst pos l) = length dst.
Proof. intros Hl. unfold overwrite. rewrite !length_app, length_take, length_drop. lia. Qed.

Section Robust.
Variables (depth rowDelta size : nat) (white : Z).
Hypothesis Hrow : (depth <= rowDelta)%nat.

(** The bitmap keeps its size and the position stays inside. *)
Definition good (s : dstate) : Prop := length (st_dst s) = size /\ (st_pos s <= size)%nat.

Lemma length_pixel_bytes d p : length (pixel_bytes d p) = d.
Proof. revert p. induction d as [|d IH]; intros p; cbn; [done|]. by rewrite IH. Qed.

Lemma writePixel_good p s : good s -> good (writePixel depth p s).
Proof.
  intros [Hl Hp]. unfold writePixel. destruct (Nat.ltb_spec (length (st_dst s)) (st_pos s + depth)); [done|].
  split; cbn; [|lia]. rewrite length_overwrite; [done|]. rewrite length_pixel_bytes. lia.
Qed.

(** The source left after an operation: not longer. *)
Definition shrinks (s s' : dstate) : Prop := (length (st_src s') <= length (st_src s))%nat.

Lemma shrinks_refl s : shrinks s s.
Proof. unfold shrinks. lia. Qed.
#[local] Hint Resolve shrinks_refl : core.

(** An operation that returns, keeps the bitmap and does not grow the source. *)
Definition safe (f : dstate -> option dstate) : Prop :=
  forall s, good s -> exists s', f s = Some s' /\ good s' /\ shrinks s s'.

Lemma run_pixel_safe on : safe (run_pixel depth rowDelta on).
Proof.
  intros s Hg. unfold run_pixel. destruct (st_first s).
  - eexists. split; [done|]. split; [by apply writePixel_good|]. unfold shrinks, writePixel. by case_match.
  - assert (exists a, readPixelAbove depth rowDelta s = Some a) as [a ->].
    { unfold readPixelAbove. destruct (Nat.ltb_spec (st_pos s) rowDelta); [eauto|].
      destruct (Nat.ltb_spec (length (st_dst s)) (st_pos s - rowDelta + depth)); [|eauto].
      destruct Hg. lia. }
    cbn. eexists. split; [done|]. split; [by apply writePixel_good|]. unfold shrinks, writePixel. by case_match.
Qed.

Lemma repeat_opt_safe n f : safe f -> safe (repeat_opt n f).
Proof.
  intros Hf. induction n as [|n IH]; intros s Hg; cbn [repeat_opt]; [by exists s|].
  destruct (Hf s Hg) as (s1 & -> & Hg1 & H1). cbn. destruct (IH s1 Hg1) as (s2 & -> & Hg2 & H2).
  exists s2. split_and!; [done|done|unfold shrinks in *; lia].
Qed.

Lemma writeFgBgImage_safe mask n : safe (writeFgBgImage depth rowDelta mask n).
Proof.
  revert mask. induction n as [|n IH]; intros mask s Hg; cbn [writeFgBgImage]; [by exists s|].
  destruct (run_pixel_safe (Z.odd mask) s Hg) as (s1 & -> & Hg1 & H1). cbn.
  destruct (IH (Z.shiftr mask 1) s1 Hg1) as (s2 & -> & Hg2 & H2).
  exists s2. split_and!; [done|done|unfold shrinks in *; lia].
Qed.

(** Reads do not touch the bitmap. *)
Definition reads_only (r : Z * dstate) (s : dstate) : Prop :=
  (good s -> good r.2) /\ shrinks s r.2.

Lemma readU8_reads s : reads_only (readU8 s) s.
Proof. unfold reads_only, readU8, shrinks, good. destruct (st_src s) eqn:E; cbn; rewrite ?E; cbn; auto. Qed.

Lemma readU16_reads s : reads_only (readU16 s) s.
Proof.
  unfold reads_only, readU16, shrinks, good. destruct (st_src s) as [|b0 [|b1 r]]; cbn; split; auto; lia.
Qed.

Lemma readPixel_reads d s : reads_only (readPixel d s) s.
Proof.
  unfold readPixel. destruct (d =? 1)%nat; [apply readU8_reads|].
  destruct (d =? 2)%nat; [apply readU16_reads|]. unfold reads_only, shrinks, good.
  destruct (st_src s) as [|b0 [|b1 [|b2 r]]]; cbn; split; auto; lia.
Qed.

Lemma extractRunLength_reads code header s : reads_only (extractRunLength code header s) s.
Proof.
  unfold extractRunLength, extractRunLengthFgBg, extractRunLengthRegular, extractRunLengthLite.
  pose proof (readU8_reads s) as H8. pose proof (readU16_reads s) as H16.
  destruct (readU8 s) as [v s']. unfold reads_only, shrinks in *. cbn [snd] in *.
  repeat case_match; cbn [snd]; auto.
Qed.

Lemma fgbg_loop_safe fuel n : safe (fgbg_loop depth rowDelta fuel n).
Proof.
  revert n. induction fuel as [|fuel IH]; intros n s Hg; cbn [fgbg_loop]; [by exists s|].
  destruct (n <=? 0); [by exists s|]. destruct (readU8_reads s) as [G8 S8].
  destruct (readU8 s) as [m s0]. cbn [snd] in *.
  destruct (writeFgBgImage_safe m (Z.to_nat (if 8 <? n then 8 else n)) s0 (G8 Hg)) as (s1 & -> & Hg1 & H1).
  cbn. destruct (IH (n - (if 8 <? n then 8 else n)) s1 Hg1) as (s2 & -> & Hg2 & H2).
  exists s2. split_and!; [done|done|unfold shrinks in *; lia].
Qed.

Lemma copy_loop_good n s : good s -> good (copy_loop n s) /\ shrinks s (copy_loop n s).
Proof.
  revert s. induction n as [|n IH]; intros s Hg; cbn [copy_loop]; [by split|].
  destruct (st_src s) as [|b r] eqn:E; [by apply IH|].
  destruct (Nat.ltb_spec (st_pos s) (length (st_dst s))); [|by apply IH].
  destruct (IH (with_src (with_dst s (<[st_pos s:=b]> (st_dst s)) (st_pos s + 1)) r)) as [H1 H2].
  - destruct Hg. split; cbn; [by rewrite length_insert|lia].
  - split; [done|]. unfold shrinks in *. cbn in H2. rewrite E. cbn. lia.
Qed.

Lemma background_run_safe n : safe (background_run depth rowDelta n).
Proof.
  intros s Hg. unfold background_run.
  assert (exists s1, (if st_insert s then run_pixel depth rowDelta true s else Some s) = Some s1
    /\ good s1 /\ shrinks s s1) as (s1 & -> & Hg1 & H1).
  { destruct (st_insert s); [by apply run_pixel_safe|by exists s]. }
  cbn. destruct (repeat_opt_safe (Z.to_nat (if st_insert s then n - 1 else n)) _ (run_pixel_safe false) s1 Hg1)
    as (s2 & -> & Hg2 & H2). cbn. eexists. split_and!; [done|done|unfold shrinks in *; cbn; lia].
Qed.

(** An order that first reads a pixel, or does not. *)
Lemma after_pixel f (c : bool) :
  safe f -> safe (fun s => f (if c then let '(p, s) := readPixel depth s in with_fg s p else s)).
Proof.
  intros Hf s Hg. destruct c; [|by apply Hf]. destruct (readPixel_reads depth s) as [Gp Sp].
  destruct (readPixel depth s) as [p s1]. cbn [snd] in *.
  destruct (Hf (with_fg s1 p)) as (s2 & E2 & Hg2 & H2); [by apply Gp|].
  exists s2. split_and!; [done|done|unfold shrinks in *; cbn in *; lia].
Qed.

Lemma other_order_safe code n : safe (other_order depth rowDelta white code n).
Proof.
  intros s Hg. unfold other_order.
  assert (forall f, safe (fun s => Some (writePixel depth f s))) as Hw.
  { intros p s' Hg'. eexists. split; [done|]. split; [by apply writePixel_good|].
    unfold shrinks, writePixel. by case_match. }
  case_match; [apply (after_pixel _ _ (repeat_opt_safe _ _ (run_pixel_safe true)) s Hg)|].
  case_match.
  { destruct (readPixel_reads depth s) as [Ga Sa]. destruct (readPixel depth s) as [a s1].
    destruct (readPixel_reads depth s1) as [Gb Sb]. destruct (readPixel depth s1) as [b s2].
    cbn [snd] in *.
    destruct (repeat_opt_safe (Z.to_nat n) (fun s => Some (writePixel depth b (writePixel depth a s))))
      with (s := s2) as (s3 & -> & Hg3 & H3).
    - intros s' Hg'. eexists. split; [done|]. split; [by do 2 apply writePixel_good|].
      unfold shrinks, writePixel. by repeat (case_match; cbn).
    - auto.
    - exists s3. split_and!; [done|done|unfold shrinks in *; lia]. }
  case_match.
  { destruct (readPixel_reads depth s) as [Ga Sa]. destruct (readPixel depth s) as [p s1]. cbn [snd] in *.
    destruct (repeat_opt_safe (Z.to_nat n) _ (Hw p) s1 (Ga Hg)) as (s2 & -> & Hg2 & H2).
    exists s2. split_and!; [done|done|unfold shrinks in *; lia]. }
  case_match; [apply (after_pixel _ _ (fgbg_loop_safe _ _) s Hg)|].
  case_match; [destruct (copy_loop_good (Z.to_nat n * depth) s Hg); eauto|].
  case_match; [by apply writeFgBgImage_safe|]. case_match; [by apply writeFgBgImage_safe|].
  case_match; [by apply Hw|]. case_match; [by apply Hw|]. by exists s.
Qed.

(** A round returns and reads at least the header. *)
Lemma order_step_safe s : good s -> st_src s <> [] ->
  exists s', order_step depth rowDelta white s = Some s' /\ good s'
  /\ (length (st_src s') < length (st_src s))%nat.
Proof.
  intros Hg Hs. unfold order_step.
  set (s0 := if st_first s && (rowDelta <=? st_pos s)%nat then with_flags s false false else s).
  assert (good s0 /\ st_src s0 = st_src s) as [Hg0 E0] by (unfold s0; by case_match).
  destruct (readU8_reads s0) as [G8 _].
  assert (length (st_src (readU8 s0).2) < length (st_src s))%nat as S8.
  { unfold readU8. rewrite E0. destruct (st_src s); [done|]. cbn. lia. }
  destruct (readU8 s0) as [h s1]. cbn [snd] in *.
  destruct (extractRunLength_reads (decodeCode h) h s1) as [Gx Sx].
  destruct (extractRunLength (decodeCode h) h s1) as [n s2]. cbn [snd] in *. unfold shrinks in Sx.
  case_match.
  - destruct (background_run_safe n s2) as (s3 & -> & Hg3 & H3); [auto|].
    exists s3. split_and!; [done|done|unfold shrinks in H3; lia].
  - destruct (other_order_safe (decodeCode h) n (with_flags s2 false (st_first s2))) as (s3 & -> & Hg3 & H3);
      [by apply Gx, G8|]. exists s3. split_and!; [done|done|unfold shrinks in H3; cbn in H3; lia].
Qed.

Lemma order_loop_safe fuel s : good s -> (length (st_src s) <= fuel)%nat ->
  exists s', order_loop depth rowDelta white fuel s = Some s' /\ good s' /\ st_src s' = [].
Proof.
  revert s. induction fuel as [|fuel IH]; intros s Hg Hf; cbn [order_loop].
  - exists s. split_and!; [done|done|]. destruct (st_src s); [done|cbn in Hf; lia].
  - destruct (st_src s) as [|b r] eqn:E; [by exists s|].
    destruct (order_step_safe s Hg) as (s1 & -> & Hg1 & H1); [by rewrite E|]. cbn.
    apply IH; [done|]. rewrite E in H1. cbn in H1, Hf. lia.
Qed.
End Robust.

(** ** What orders mean *)

(** The pixels drawn so far, row after row, with the decoder's registers. *)
Record canvas := { cv_out : list Z; cv_fg : Z; cv_insert : bool; cv_first : bool }.

Definition cv_with (c : canvas) (out : list Z) (fg : Z) (insert first : bool) : canvas :=
  {| cv_out := out; cv_fg := fg; cv_insert := insert; cv_first := first |}.
Definition cv_push (c : canvas) (p : Z) : canvas :=
  cv_with c (cv_out c ++ [p]) (cv_fg c) (cv_insert c) (cv_first c).

Inductive order :=
  | BgRun (n : Z) | FgRun (n : Z) | SetFgRun (p n : Z) | Dither (a b n : Z) | Color (p n : Z)
  | FgBg (bits : list bool) | SetFgBg (p : Z) (bits : list bool) | Image (ps : list Z)
  | White | Black | Pattern3 | Pattern5.

Definition pattern (m : Z) : list bool := map (Z.testbit m) (seqZ 0 8).

Section Meaning.
Variables (width : nat) (white : Z).

(** The pixel above the next one, and the next one with or without foreground. *)
Definition cv_above (c : canvas) : Z := nth (length (cv_out c) - width) (cv_out c) 0.
Definition cv_pixel (on : bool) (c : canvas) : Z :=
  if cv_first c then (if on then cv_fg c else 0)
  else if on then Z.lxor (cv_above c) (cv_fg c) else cv_above c.

Definition cv_bits (bits : list bool) (c : canvas) : canvas :=
  fold_left (fun c on => cv_push c (cv_pixel on c)) bits c.
Definition cv_pixels (ps : list Z) (c : canvas) : canvas := fold_left cv_push ps c.
Definition cv_set (c : canvas) (p : Z) : canvas := cv_with c (cv_out c) p (cv_insert c) (cv_first c).

(** After the first line a pending insertion is dropped; every order but a
    background run drops it. *)
Definition cv_line (c : canvas) : canvas :=
  if cv_first c && (width <=? length (cv_out c))%nat
  then cv_with c (cv_out c) (cv_fg c) false false else c.
Definition cv_flag (c : canvas) (b : bool) : canvas := cv_with c (cv_out c) (cv_fg c) b (cv_first c).

Definition draw (o : order) (c0 : canvas) : canvas :=
  let c := cv_line c0 in
  let d := cv_flag c false in
  match o with
  | BgRun n =>
      cv_flag (cv_bits (if cv_insert c then true :: replicate (Z.to_nat n - 1) false
                        else replicate (Z.to_nat n) false) c) true
  | FgRun n => cv_bits (replicate (Z.to_nat n) true) d
  | SetFgRun p n => cv_bits (replicate (Z.to_nat n) true) (cv_set d p)
  | Dither a b n => cv_pixels (concat (replicate (Z.to_nat n) [a; b])) d
  | Color p n => cv_pixels (replicate (Z.to_nat n) p) d
  | FgBg bits => cv_bits bits d
  | SetFgBg p bits => cv_bits bits (cv_set d p)
  | Image ps => cv_pixels ps d
  | White => cv_push d white
  | Black => cv_push d 0
  | Pattern3 => cv_bits (pattern 3) d
  | Pattern5 => cv_bits (pattern 5) d
  end.

Definition blank : canvas := {| cv_out := []; cv_fg := white; cv_insert := false; cv_first := true |}.
Definition drawing (os : list order) : list Z := cv_out (fold_left (fun c o => draw o c) os blank).
End Meaning.

(** ** How orders are written *)

Inductive form := Short | Extended | Mega.

(** A header with a run length: in the header, in a byte after it, or in two. *)
Definition run_header (f : form) (code mega sh lo n : Z) : bytes :=
  match f with
  | Short => [to_byte (Z.shiftl code sh + n)]
  | Extended => [to_byte (Z.shiftl code sh); to_byte (n - lo)]
  | Mega => [to_byte mega; to_byte n; to_byte (n / 256)]
  end.
Definition run_valid (f : form) (lo n : Z) : Prop :=
  match f with
  | Short => 1 <= n < lo | Extended => lo <= n < lo + 256 | Mega => 1 <= n < 65536
  end.

(** The same for a number of bits, counted in bytes in the header. *)
Definition bits_header (f : form) (code mega sh n : Z) : bytes :=
  match f with
  | Short => [to_byte (Z.shiftl code sh + n / 8)]
  | Extended => [to_byte (Z.shiftl code sh); to_byte (n - 1)]
  | Mega => [to_byte mega; to_byte n; to_byte (n / 256)]
  end.
Definition bits_valid (f : form) (lo n : Z) : Prop :=
  match f with
  | Short => n mod 8 = 0 /\ 1 <= n / 8 < lo | Extended => 1 <= n <= 256 | Mega => 1 <= n < 65536
  end.

(** Bits from the lowest, eight to a byte. *)
Fixpoint mask_of (bits : list bool) : Z :=
  match bits with
  | [] => 0
  | b :: r => Z.b2z b + 2 * mask_of r
  end.
Fixpoint mask_bytes (fuel : nat) (bits : list bool) : bytes :=
  match fuel, bits with
  | S fuel, _ :: _ => to_byte (mask_of (take 8 bits)) :: mask_bytes fuel (drop 8 bits)
  | _, _ => []
  end.

Definition bits_len (bits : list bool) : Z := Z.of_nat (length bits).

Definition encode (depth : nat) (x : form * order) : bytes :=
  let f := x.1 in
  match x.2 with
  | BgRun n => run_header f regularBGRun megaMegaBGRun 5 32 n
  | FgRun n => run_header f regularFGRun megaMegaFGRun 5 32 n
  | SetFgRun p n => run_header f liteSetFGRun megaMegaSetFGRun 4 16 n ++ pixel_bytes depth p
  | Dither a b n =>
      run_header f liteDithered megaMegaDithered 4 16 n ++ pixel_bytes depth a ++ pixel_bytes depth b
  | Color p n => run_header f regularColor megaMegaColor 5 32 n ++ pixel_bytes depth p
  | FgBg bits =>
      bits_header f regularFGBG megaMegaFGBG 5 (bits_len bits) ++ mask_bytes (length bits) bits
  | SetFgBg p bits =>
      bits_header f liteSetFGBG megaMegaSetFGBG 4 (bits_len bits) ++ pixel_bytes depth p
      ++ mask_bytes (length bits) bits
  | Image ps =>
      run_header f regularCImage megaMegaCImage 5 32 (Z.of_nat (length ps))
      ++ concat (map (pixel_bytes depth) ps)
  | White => [to_byte specialWhite]
  | Black => [to_byte specialBlack]
  | Pattern3 => [to_byte specialFGBG1]
  | Pattern5 => [to_byte specialFGBG2]
  end.

Definition pixel_ok (depth : nat) (p : Z) : Prop := 0 <= p < 2 ^ (8 * Z.of_nat depth).

Definition writable (depth : nat) (x : form * order) : Prop :=
  let f := x.1 in
  match x.2 with
  | BgRun n | FgRun n => run_valid f 32 n
  | SetFgRun p n => pixel_ok depth p /\ run_valid f 16 n
  | Dither a b n => pixel_ok depth a /\ pixel_ok depth b /\ run_valid f 16 n
  | Color p n => pixel_ok depth p /\ run_valid f 32 n
  | FgBg bits => bits_valid f 32 (bits_len bits)
  | SetFgBg p bits => pixel_ok depth p /\ bits_valid f 16 (bits_len bits)
  | Image ps => Forall (pixel_ok depth) ps /\ run_valid f 32 (Z.of_nat (length ps))
  | _ => True
  end.

(** ** Headers are read back *)

Lemma with_src_src s l : st_src (with_src s l) = l.
Proof. done. Qed.

Lemma with_src_twice s l k : with_src (with_src s l) k = with_src s k.
Proof. done. Qed.

Lemma readU8_cons s v k : 0 <= v < 256 -> st_src s = to_byte v :: k -> readU8 s = (v, with_src s k).
Proof. intros Hv E. unfold readU8. rewrite E. by rewrite bval_to_byte, Z.mod_small. Qed.

Lemma readU16_pair s n k : 0 <= n < 65536 -> st_src s = to_byte n :: to_byte (n / 256) :: k ->
  readU16 s = (n, with_src s k).
Proof.
  intros Hn E. unfold readU16. rewrite E, !bval_to_byte.
  rewrite Z.lor_comm, lor_shiftl_low by (try lia; apply Z.mod_pos_bound; lia).
  rewrite Z.shiftl_mul_pow2 by lia. change (2 ^ 8) with 256.
  rewrite (Z.mod_small (n / 256)) by (split; [apply Z.div_pos|apply Z.div_lt_upper_bound]; lia).
  f_equal. pose proof (Z.div_mod n 256). lia.
Qed.

(** The header bytes with the length inside, checked one by one. *)
Definition header_check (code sh lo : Z) : bool :=
  forallb (fun n => let v := Z.shiftl code sh + n in
    (decodeCode v =? code) && (Z.land v (lo - 1) =? n) && (v <? 256)) (seqZ 0 lo).

Lemma header_checked code sh lo n : header_check code sh lo = true -> 0 <= n < lo -> 0 <= code -> 0 <= sh ->
  let v := Z.shiftl code sh + n in decodeCode v = code /\ Z.land v (lo - 1) = n /\ 0 <= v < 256.
Proof.
  unfold header_check. rewrite forallb_forall. intros Hc Hn Hcode Hsh.
  assert (In n (seqZ 0 lo)) as Hin by (apply list_elem_of_In, elem_of_seqZ; lia).
  specialize (Hc n Hin). apply andb_true_iff in Hc as [Hc Hv]. apply andb_true_iff in Hc as [H1 H2].
  apply Z.eqb_eq in H1, H2. apply Z.ltb_lt in Hv.
  assert (0 <= Z.shiftl code sh) by (rewrite Z.shiftl_nonneg; lia). cbn. lia.
Qed.

(** What the header of a run is read as. *)
Definition head_read (f : form) (code mega n : Z) (k : bytes) (s : dstate) : Prop :=
  exists h s1, readU8 s = (h, s1)
  /\ decodeCode h = (match f with Mega => mega | _ => code end)
  /\ extractRunLength (decodeCode h) h s1 = (n, with_src s k).

Lemma head_read_regular f code n k s :
  code ∈ [regularBGRun; regularFGRun; regularColor; regularCImage] -> run_valid f 32 n ->
  st_src s = run_header f code (0xF0 + code) 5 32 n ++ k -> head_read f code (0xF0 + code) n k s.
Proof.
  intros Hc Hv Hk.
  assert (header_check code 5 32 = true /\ 0 <= code <= 4
    /\ (forall h x, extractRunLength code h x = extractRunLengthRegular h x)
    /\ (forall h x, extractRunLength (0xF0 + code) h x = readU16 x)
    /\ decodeCode (0xF0 + code) = 0xF0 + code) as (Hh & Hr & Hx & Hm & Hd).
  { repeat (apply elem_of_cons in Hc as [->|Hc]; [split_and!; try done; by vm_compute|]).
    by apply not_elem_of_nil in Hc. }
  destruct f; cbn [run_header run_valid app] in *.
  - destruct (header_checked code 5 32 n Hh) as (D & L & B); [lia..|].
    eexists _, _. split; [by apply readU8_cons|]. split; [exact D|].
    rewrite D, Hx. unfold extractRunLengthRegular, maskRegularRunLength. change 31 with (32 - 1).
    rewrite L. by rewrite (proj2 (Z.eqb_neq _ _)) by lia.
  - destruct (header_checked code 5 32 0 Hh) as (D & L & B); [lia..|]. rewrite Z.add_0_r in *.
    eexists _, _. split; [by apply readU8_cons|]. split; [exact D|].
    rewrite D, Hx. unfold extractRunLengthRegular, maskRegularRunLength. change 31 with (32 - 1).
    rewrite L. cbn [Z.eqb]. rewrite (readU8_cons _ (n - 32) k) by (done || lia).
    by rewrite with_src_twice, Z.sub_add.
  - eexists _, _. split; [apply readU8_cons; [|exact Hk]; lia|]. split; [exact Hd|].
    rewrite Hd, Hm. by rewrite (readU16_pair _ n k) by (done || lia).
Qed.

Lemma head_read_lite f code n k s :
  code ∈ [liteSetFGRun; liteDithered] -> run_valid f 16 n ->
  let mega := if code =? liteSetFGRun then megaMegaSetFGRun else megaMegaDithered in
  st_src s = run_header f code mega 4 16 n ++ k -> head_read f code mega n k s.
Proof.
  intros Hc Hv mega Hk.
  assert (header_check code 4 16 = true /\ 0 <= code <= 14 /\ 0 <= mega < 256
    /\ (forall h x, extractRunLength code h x = extractRunLengthLite h x)
    /\ (forall h x, extractRunLength mega h x = readU16 x)
    /\ decodeCode mega = mega) as (Hh & Hr & Hmr & Hx & Hm & Hd).
  { unfold mega. repeat (apply elem_of_cons in Hc as [->|Hc]; [split_and!; try done; by vm_compute|]).
    by apply not_elem_of_nil in Hc. }
  destruct f; cbn [run_header run_valid app] in *.
  - destruct (header_checked code 4 16 n Hh) as (D & L & B); [lia..|].
    eexists _, _. split; [by apply readU8_cons|]. split; [exact D|].
    rewrite D, Hx. unfold extractRunLengthLite, maskLiteRunLength. change 15 with (16 - 1).
    rewrite L. by rewrite (proj2 (Z.eqb_neq _ _)) by lia.
  - destruct (header_checked code 4 16 0 Hh) as (D & L & B); [lia..|]. rewrite Z.add_0_r in *.
    eexists _, _. split; [by apply readU8_cons|]. split; [exact D|].
    rewrite D, Hx. unfold extractRunLengthLite, maskLiteRunLength. change 15 with (16 - 1).
    rewrite L. cbn [Z.eqb]. rewrite (readU8_cons _ (n - 16) k) by (done || lia).
    by rewrite with_src_twice, Z.sub_add.
  - eexists _, _. split; [apply readU8_cons; [|exact Hk]; lia|]. split; [exact Hd|].
    rewrite Hd, Hm. by rewrite (readU16_pair _ n k) by (done || lia).
Qed.

(** The two orders of bits: [lo] bounds the length in the header. *)
Lemma head_read_bits f (lite : bool) n k s :
  let code := if lite then liteSetFGBG else regularFGBG in
  let mega := if lite then megaMegaSetFGBG else megaMegaFGBG in
  bits_valid f (if lite then 16 else 32) n ->
  st_src s = bits_header f code mega (if lite then 4 else 5) n ++ k -> head_read f code mega n k s.
Proof.
  intros code mega Hv Hk. set (lo := if lite then 16 else 32) in *. set (sh := if lite then 4 else 5) in *.
  assert (header_check code sh lo = true /\ 0 <= code <= 14 /\ 0 <= mega < 256 /\ 0 <= sh /\ 16 <= lo
    /\ (forall h x, extractRunLength code h x = extractRunLengthFgBg h (lo - 1) x)
    /\ (forall h x, extractRunLength mega h x = readU16 x)
    /\ decodeCode mega = mega) as (Hh & Hr & Hmr & Hsh & Hlo & Hx & Hm & Hd).
  { unfold code, mega, lo, sh. destruct lite; split_and!; try done; by vm_compute. }
  destruct f; cbn [bits_header bits_valid app] in *.
  - destruct Hv as [H8 Hv]. destruct (header_checked code sh lo (n / 8) Hh) as (D & L & B); [lia..|].
    eexists _, _. split; [by apply readU8_cons|]. split; [exact D|].
    rewrite D, Hx. unfold extractRunLengthFgBg. rewrite L. rewrite (proj2 (Z.eqb_neq _ _)) by lia.
    f_equal. pose proof (Z.div_mod n 8). lia.
  - destruct (header_checked code sh lo 0 Hh) as (D & L & B); [lia..|]. rewrite Z.add_0_r in *.
    eexists _, _. split; [by apply readU8_cons|]. split; [exact D|].
    rewrite D, Hx. unfold extractRunLengthFgBg. rewrite L. cbn [Z.eqb].
    rewrite (readU8_cons _ (n - 1) k) by (done || lia). by rewrite with_src_twice, Z.sub_add.
  - eexists _, _. split; [apply readU8_cons; [|exact Hk]; lia|]. split; [exact Hd|].
    rewrite Hd, Hm. by rewrite (readU16_pair _ n k) by (done || lia).
Qed.

(** ** The decoder draws what the orders say

    The simulation between the decoder's buffer and the canvas of pixels, and
    the two theorems on [Decompress]. *)
Lemma pixel_of_bytes d p : pixel_ok d p -> pixel_of (pixel_bytes d p) = p.
Proof.
  revert p. induction d as [|d IH]; intros p Hp.
  - unfold pixel_ok in Hp. cbn in *. lia.
  - cbn [pixel_bytes pixel_of]. unfold pixel_ok in *.
    rewrite Nat2Z.inj_succ, Z.mul_succ_r, Z.pow_add_r in Hp by lia. change (2 ^ 8) with 256 in Hp.
    assert (Z.shiftr p 8 = p / 256) as Hs by (rewrite Z.shiftr_div_pow2 by lia; done).
    rewrite IH.
    + rewrite bval_to_byte, Z.lor_comm, lor_shiftl_low by (try lia; apply Z.mod_pos_bound; lia).
      rewrite Z.shiftl_mul_pow2, Hs by lia. change (2 ^ 8) with 256. pose proof (Z.div_mod p 256). lia.
    + rewrite Hs. split; [apply Z.div_pos; lia|]. apply Z.div_lt_upper_bound; lia.
Qed.

Lemma pixel_ok_lxor d p q : pixel_ok d p -> pixel_ok d q -> pixel_ok d (Z.lxor p q).
Proof.
  unfold pixel_ok. intros Hp Hq. split; [apply Z.lxor_nonneg; lia|].
  assert (0 <= 8 * Z.of_nat d) by lia. destruct (Z.eq_dec (Z.lxor p q) 0) as [->|Hne].
  { apply Z.pow_pos_nonneg; lia. }
  assert (0 < Z.lxor p q) by (pose proof (proj2 (Z.lxor_nonneg p q)); lia).
  apply Z.log2_lt_pow2; [done|]. pose proof (Z.log2_lxor p q ltac:(lia) ltac:(lia)) as Hl.
  assert (forall x, 0 <= x < 2 ^ (8 * Z.of_nat d) -> Z.log2 x < 8 * Z.of_nat d \/ Z.log2 x = 0) as Hx.
  { intros x Hx. destruct (Z.eq_dec x 0) as [->|]; [by right|]. left. apply Z.log2_lt_pow2; lia. }
  assert (0 < 8 * Z.of_nat d) as Hd0.
  { destruct d; [|lia]. cbn in *. assert (p = 0 /\ q = 0) as [-> ->] by lia. done. }
  destruct (Hx p Hp), (Hx q Hq); lia.
Qed.

Section Sim.
Variables (d width height : nat) (white : Z).
Hypothesis Hd : d = 1%nat \/ d = 2%nat \/ d = 3%nat.
Hypothesis Hw : (1 <= width)%nat.
Hypothesis Hwhite : pixel_ok d white.

Abbreviation size := (d * width * height)%nat.
Abbreviation rowDelta := (d * width)%nat.

Definition flat (ps : list Z) : bytes := concat (map (pixel_bytes d) ps).

Lemma length_flat ps : length (flat ps) = (d * length ps)%nat.
Proof.
  unfold flat. induction ps as [|p ps IH]; cbn [map concat length]; [lia|].
  rewrite length_app, length_pixel_bytes, IH. lia.
Qed.

Lemma flat_app ps qs : flat (ps ++ qs) = flat ps ++ flat qs.
Proof. unfold flat. by rewrite map_app, concat_app. Qed.

(** The buffer holds the canvas and zeros behind it. *)
Record sim (c : canvas) (s : dstate) : Prop := {
  sm_dst : st_dst s = flat (cv_out c) ++ replicate (size - d * length (cv_out c)) x00;
  sm_pos : st_pos s = (d * length (cv_out c))%nat;
  sm_room : (length (cv_out c) <= width * height)%nat;
  sm_fg : st_fg s = cv_fg c /\ pixel_ok d (cv_fg c);
  sm_flags : st_insert s = cv_insert c /\ st_first s = cv_first c;
  sm_pixels : Forall (pixel_ok d) (cv_out c);
  sm_line : cv_first c = false -> (width <= length (cv_out c))%nat;
}.

(** [s'] is [s] with more of the bitmap drawn. *)
Definition drew (c : canvas) (s s' : dstate) : Prop := sim c s' /\ st_src s' = st_src s.

Lemma sim_src c s l : sim c s -> sim c (with_src s l).
Proof. by intros []. Qed.

Lemma sim_fg c s p : sim c s -> pixel_ok d p -> sim (cv_set c p) (with_fg s p).
Proof. intros [] Hp. by split. Qed.

Lemma sim_flag c s b : sim c s -> sim (cv_flag c b) (with_flags s b (st_first s)).
Proof. intros [? ? ? ? [? ?] ? ?]. by split. Qed.

Lemma cv_pixels_out ps c : cv_pixels ps c = cv_with c (cv_out c ++ ps) (cv_fg c) (cv_insert c) (cv_first c).
Proof.
  unfold cv_pixels. revert c. induction ps as [|p ps IH]; intros c; cbn [fold_left].
  - rewrite app_nil_r. by destruct c.
  - rewrite IH. unfold cv_push, cv_with. cbn. by rewrite <- app_assoc.
Qed.

(** Bytes of whole pixels written at the position. *)
Lemma sim_append c s ps :
  sim c s -> Forall (pixel_ok d) ps -> (length (cv_out c) + length ps <= width * height)%nat ->
  sim (cv_pixels ps c)
    (with_dst s (overwrite (st_dst s) (st_pos s) (flat ps)) (st_pos s + length (flat ps))).
Proof.
  intros [S1 S2 S3 S4 S5 S6 S7] Hp Hroom. rewrite cv_pixels_out.
  split; cbn [cv_with cv_out cv_fg cv_insert cv_first with_dst st_dst st_pos st_fg st_insert st_first].
  - rewrite flat_app, <- app_assoc. unfold overwrite. rewrite S1, S2, length_app.
    rewrite take_app_length' by (by rewrite length_flat). f_equal. f_equal.
    rewrite drop_app_ge by (rewrite !length_flat; lia). rewrite !length_flat, drop_replicate. f_equal. lia.
  - rewrite S2, length_flat, length_app. lia.
  - rewrite length_app. lia.
  - done.
  - done.
  - by apply Forall_app.
  - intros Hf. specialize (S7 Hf). rewrite length_app. lia.
Qed.

Lemma writePixel_sim c s p :
  sim c s -> pixel_ok d p -> (length (cv_out c) < width * height)%nat ->
  drew (cv_push c p) s (writePixel d p s).
Proof.
  intros S Hp Hroom. unfold drew, writePixel.
  assert (length (st_dst s) = size /\ st_pos s + d <= size)%nat as [Hl Hpos].
  { destruct S as [S1 S2 S3 _ _ _ _]. rewrite S1, S2, length_app, length_replicate, length_flat. nia. }
  rewrite (proj2 (Nat.ltb_ge _ _)) by lia. split; [|done].
  pose proof (sim_append c s [p] S ltac:(by constructor) ltac:(cbn; lia)) as H.
  unfold flat in H. cbn [map concat] in H. rewrite app_nil_r, length_pixel_bytes in H. exact H.
Qed.

Lemma pixel_above ps i : Forall (pixel_ok d) ps -> (i < length ps)%nat ->
  pixel_of (take d (drop (d * i) (flat ps))) = nth i ps 0 /\ pixel_ok d (nth i ps 0).
Proof.
  intros Hf. revert i. induction Hf as [|p ps Hp _ IH]; intros i Hi; cbn [length] in Hi; [lia|].
  unfold flat. cbn [map concat]. fold (flat ps). destruct i as [|i].
  - rewrite Nat.mul_0_r, drop_0, take_app_length' by (by rewrite length_pixel_bytes).
    cbn [nth]. by rewrite pixel_of_bytes.
  - rewrite drop_app_ge by (rewrite length_pixel_bytes; nia). rewrite length_pixel_bytes.
    replace (d * S i - d)%nat with (d * i)%nat by nia. apply IH. lia.
Qed.

Lemma readPixelAbove_sim c s : sim c s -> cv_first c = false ->
  readPixelAbove d rowDelta s = Some (cv_above width c) /\ pixel_ok d (cv_above width c).
Proof.
  intros [S1 S2 S3 _ _ S6 S7] Hf. specialize (S7 Hf). unfold readPixelAbove, cv_above.
  assert (0 < d)%nat by (destruct Hd as [->|[->| ->]]; lia).
  rewrite S2. rewrite (proj2 (Nat.ltb_ge _ _)) by nia.
  rewrite S1, length_app, length_flat, length_replicate.
  set (i := (length (cv_out c) - width)%nat).
  replace (d * length (cv_out c) - rowDelta)%nat with (d * i)%nat by (unfold i; nia).
  rewrite (proj2 (Nat.ltb_ge _ _)) by (unfold i; nia).
  assert (i < length (cv_out c))%nat as Hi by (unfold i; lia).
  destruct (pixel_above (cv_out c) i S6 Hi) as [Ha Hok]. split; [|done].
  rewrite drop_app_le by (rewrite length_flat; nia).
  rewrite take_app_le by (rewrite length_drop, length_flat; nia). by rewrite Ha.
Qed.

Lemma run_pixel_sim c s on :
  sim c s -> (length (cv_out c) < width * height)%nat ->
  exists s', run_pixel d rowDelta on s = Some s' /\ drew (cv_push c (cv_pixel width on c)) s s'.
Proof.
  intros S Hroom. destruct (sm_fg _ _ S) as [Hfg Hok], (sm_flags _ _ S) as [_ Hfirst].
  assert (pixel_ok d 0) as H0 by (split; [done|apply Z.pow_pos_nonneg; lia]).
  unfold run_pixel, cv_pixel. rewrite Hfirst, Hfg. destruct (cv_first c) eqn:Ef.
  - eexists. split; [done|]. apply writePixel_sim; [done| |done]. by destruct on.
  - destruct (readPixelAbove_sim c s S Ef) as [-> Ha]. cbn. eexists. split; [done|].
    apply writePixel_sim; [done| |done]. destruct on; [by apply pixel_ok_lxor|done].
Qed.

(** A run of bits, however the decoder goes through them. *)
Lemma cv_bits_length bits c : length (cv_out (cv_bits width bits c)) = (length (cv_out c) + length bits)%nat.
Proof.
  unfold cv_bits. revert c. induction bits as [|b bits IH]; intros c; cbn [fold_left length]; [lia|].
  rewrite IH. unfold cv_push, cv_with. cbn. rewrite length_app. cbn. lia.
Qed.

Lemma repeat_sim n on c s :
  sim c s -> (length (cv_out c) + n <= width * height)%nat ->
  exists s', repeat_opt n (run_pixel d rowDelta on) s = Some s'
  /\ drew (cv_bits width (replicate n on) c) s s'.
Proof.
  revert c s. induction n as [|n IH]; intros c s S Hroom; cbn [repeat_opt replicate]; [by exists s|].
  destruct (run_pixel_sim c s on S) as (s1 & -> & S1 & E1); [lia|]. cbn.
  destruct (IH _ s1 S1) as (s2 & -> & S2 & E2).
  { unfold cv_push, cv_with. cbn. rewrite length_app. cbn. lia. }
  exists s2. split; [done|]. split; [exact S2|congruence].
Qed.

Lemma mask_of_cons b r : Z.odd (mask_of (b :: r)) = b /\ Z.shiftr (mask_of (b :: r)) 1 = mask_of r.
Proof.
  cbn [mask_of]. split.
  - rewrite Z.odd_add, Z.odd_mul. by destruct b.
  - rewrite Z.shiftr_div_pow2 by lia. change (2 ^ 1) with 2.
    rewrite Z.mul_comm, Z.div_add by lia. by destruct b.
Qed.

Lemma writeFgBgImage_sim bits c s :
  sim c s -> (length (cv_out c) + length bits <= width * height)%nat ->
  exists s', writeFgBgImage d rowDelta (mask_of bits) (length bits) s = Some s'
  /\ drew (cv_bits width bits c) s s'.
Proof.
  revert c s. induction bits as [|b bits IH]; intros c s S Hroom; cbn [writeFgBgImage length]; [by exists s|].
  destruct (mask_of_cons b bits) as [-> ->].
  destruct (run_pixel_sim c s b S) as (s1 & -> & S1 & E1); [cbn in Hroom; lia|]. cbn.
  destruct (IH _ s1 S1) as (s2 & -> & S2 & E2).
  { unfold cv_push, cv_with. cbn in *. rewrite length_app. cbn. lia. }
  exists s2. split; [done|]. split; [exact S2|congruence].
Qed.

Lemma mask_of_bound bits : 0 <= mask_of bits < 2 ^ Z.of_nat (length bits).
Proof.
  induction bits as [|b bits IH]; cbn [mask_of length]; [done|].
  rewrite Nat2Z.inj_succ, Z.pow_succ_r by lia. destruct b; cbn [Z.b2z]; lia.
Qed.

(** A byte of bits for every eight pixels. *)
Lemma cv_bits_app a b c : cv_bits width (a ++ b) c = cv_bits width b (cv_bits width a c).
Proof. unfold cv_bits. by rewrite fold_left_app. Qed.

Lemma mask_bytes_cons fuel bits : bits <> [] -> (length bits <= S fuel)%nat ->
  mask_bytes (S fuel) bits = to_byte (mask_of (take 8 bits)) :: mask_bytes fuel (drop 8 bits).
Proof. by destruct bits. Qed.

Lemma mask_byte bits : bval (to_byte (mask_of (take 8 bits))) = mask_of (take 8 bits).
Proof.
  rewrite bval_to_byte. apply Z.mod_small. pose proof (mask_of_bound (take 8 bits)) as Hb.
  rewrite length_take in Hb. split; [lia|]. eapply Z.lt_le_trans; [apply Hb|].
  change 256 with (2 ^ 8). apply Z.pow_le_mono_r; lia.
Qed.

Lemma fgbg_loop_sim fuel fuel' bits c s k :
  sim c s -> st_src s = mask_bytes fuel' bits ++ k -> (length bits <= fuel)%nat -> (length bits <= fuel')%nat ->
  (length (cv_out c) + length bits <= width * height)%nat ->
  exists s', fgbg_loop d rowDelta fuel (bits_len bits) s = Some s'
  /\ sim (cv_bits width bits c) s' /\ st_src s' = k.
Proof.
  revert fuel' bits c s. induction fuel as [|fuel IH]; intros fuel' bits c s S Hs Hf Hf' Hroom.
  { destruct bits; [|cbn in Hf; lia]. exists s. split_and!; [done|done|]. rewrite Hs. by destruct fuel'. }
  cbn [fgbg_loop]. unfold bits_len. destruct (decide (bits = [])) as [->|Hne].
  { exists s. split_and!; [done|done|]. rewrite Hs. by destruct fuel'. }
  assert (1 <= length bits)%nat as H1 by (destruct bits; [done|cbn; lia]).
  rewrite (proj2 (Z.leb_gt _ _)) by lia. destruct fuel' as [|fuel']; [lia|].
  rewrite mask_bytes_cons in Hs by done. cbn [app] in Hs. unfold readU8. rewrite Hs, mask_byte.
  set (n := if 8 <? Z.of_nat (length bits) then 8 else Z.of_nat (length bits)).
  assert (Z.to_nat n = length (take 8 bits)) as Hn.
  { unfold n. rewrite length_take. destruct (Z.ltb_spec 8 (Z.of_nat (length bits))); lia. }
  assert (Z.of_nat (length bits) - n = bits_len (drop 8 bits)) as Hrest.
  { unfold n, bits_len. rewrite length_drop. destruct (Z.ltb_spec 8 (Z.of_nat (length bits))); lia. }
  rewrite Hn, Hrest. assert (length (take 8 bits) <= length bits)%nat by (rewrite length_take; lia).
  destruct (writeFgBgImage_sim (take 8 bits) c (with_src s (mask_bytes fuel' (drop 8 bits) ++ k)))
    as (s1 & -> & S1 & E1); [by apply sim_src|lia|]. cbn.
  destruct (IH fuel' (drop 8 bits) _ s1 S1 E1) as (s2 & -> & S2 & E2); try (rewrite length_drop; lia).
  { rewrite cv_bits_length, length_drop, length_take. lia. }
  exists s2. split_and!; [done| |done]. by rewrite <- cv_bits_app, take_drop in S2.
Qed.

Lemma readPixel_sim c s p k : sim c s -> pixel_ok d p -> st_src s = pixel_bytes d p ++ k ->
  readPixel d s = (p, with_src s k).
Proof.
  intros _ Hp Hs. unfold readPixel. rewrite <- (pixel_of_bytes d p Hp).
  destruct Hd as [->|[->| ->]]; cbn [Nat.eqb pixel_bytes app] in *.
  - unfold readU8. rewrite Hs. cbn [pixel_of]. by rewrite Z.shiftl_0_l, Z.lor_0_r.
  - unfold readU16. rewrite Hs. cbn [pixel_of]. by rewrite Z.shiftl_0_l, Z.lor_0_r.
  - by rewrite Hs.
Qed.

Lemma repeat_pixels_sim n ps f c s :
  (forall c s, sim c s -> (length (cv_out c) + length ps <= width * height)%nat ->
    exists s', f s = Some s' /\ drew (cv_pixels ps c) s s') ->
  sim c s -> (length (cv_out c) + n * length ps <= width * height)%nat ->
  exists s', repeat_opt n f s = Some s' /\ drew (cv_pixels (concat (replicate n ps)) c) s s'.
Proof.
  intros Hf. revert c s. induction n as [|n IH]; intros c s S Hroom; cbn [repeat_opt replicate concat].
  { by exists s. }
  destruct (Hf c s S) as (s1 & -> & S1 & E1); [lia|]. cbn.
  destruct (IH _ s1 S1) as (s2 & -> & S2 & E2).
  { rewrite cv_pixels_out. cbn. rewrite length_app. lia. }
  exists s2. split; [done|]. split; [|congruence].
  unfold cv_pixels in *. by rewrite fold_left_app.
Qed.

Lemma copy_loop_overwrite l s k :
  st_src s = l ++ k -> (st_pos s + length l <= length (st_dst s))%nat ->
  copy_loop (length l) s
  = with_src (with_dst s (overwrite (st_dst s) (st_pos s) l) (st_pos s + length l)) k.
Proof.
  revert s. induction l as [|b l IH]; intros s Hs Hl; cbn [copy_loop length app] in *.
  - unfold overwrite. cbn [length app]. rewrite Nat.add_0_r, take_drop. subst k. by destruct s.
  - rewrite Hs. rewrite (proj2 (Nat.ltb_lt _ _)) by lia. rewrite IH; cbn; [|done|].
    2: { rewrite length_insert. lia. }
    unfold with_src, with_dst, overwrite. cbn. f_equal; [|lia].
    rewrite Nat.add_1_r, (take_S_r _ _ b) by (apply list_lookup_insert_eq; lia).
    rewrite take_insert_ge, <- app_assoc by lia. cbn. f_equal. f_equal. f_equal.
    rewrite drop_insert_lt by lia. f_equal. lia.
Qed.

(** ** A round *)

Definition line (s : dstate) : dstate :=
  if st_first s && (rowDelta <=? st_pos s)%nat then with_flags s false false else s.

Lemma line_sim c s : sim c s -> sim (cv_line width c) (line s) /\ st_src (line s) = st_src s.
Proof.
  intros S. destruct (sm_flags _ _ S) as [_ Hf]. unfold cv_line, line. rewrite Hf, (sm_pos _ _ S).
  assert (((rowDelta <=? d * length (cv_out c)) = (width <=? length (cv_out c)))%nat) as ->.
  { assert (0 < d)%nat by (destruct Hd as [->|[->| ->]]; lia).
    destruct (Nat.leb_spec width (length (cv_out c))); [apply Nat.leb_le|apply Nat.leb_gt]; nia. }
  destruct (cv_first c) eqn:E1; cbn [andb]; [|done].
  destruct (Nat.leb_spec width (length (cv_out c))); [|done]. by destruct S; split.
Qed.

Definition code_of (f : form) (code mega : Z) : Z := match f with Mega => mega | _ => code end.

Lemma step_read f code mega n k s : head_read f code mega n k (line s) ->
  order_step d rowDelta white s
  = let s' := with_src (line s) k in
    if is_code (code_of f code mega) [regularBGRun; megaMegaBGRun] then background_run d rowDelta n s'
    else other_order d rowDelta white (code_of f code mega) n (with_flags s' false (st_first s')).
Proof.
  intros (h & s1 & H1 & H2 & H3). unfold order_step. cbv zeta. fold (line s). rewrite H1, H3, H2. by destruct f.
Qed.

(** A round that draws [c] and leaves [k]. *)
Definition draws (c : canvas) (k : bytes) (r : option dstate) : Prop :=
  exists s', r = Some s' /\ sim c s' /\ st_src s' = k.

Lemma drew_draws c s k r : st_src s = k -> (exists s', r = Some s' /\ drew c s s') -> draws c k r.
Proof. intros <- (s' & -> & S & E). by exists s'. Qed.

Lemma background_sim n c s k :
  1 <= n -> sim c s -> st_src s = k -> (length (cv_out c) + Z.to_nat n <= width * height)%nat ->
  draws (cv_flag (cv_bits width (if cv_insert c then true :: replicate (Z.to_nat n - 1) false
                                 else replicate (Z.to_nat n) false) c) true) k
    (background_run d rowDelta n s).
Proof.
  intros Hn S Hk Hroom. unfold background_run. destruct (sm_flags _ _ S) as [-> _].
  assert (forall c s', sim c s' -> st_src s' = k ->
    draws (cv_flag c true) k (Some (with_flags s' true (st_first s')))) as Hend.
  { intros c1 s1 S1 E1. eexists. split; [done|]. split; [by apply sim_flag|done]. }
  destruct (cv_insert c).
  - destruct (run_pixel_sim c s true S) as (s1 & -> & S1 & E1); [lia|]. cbn.
    replace (Z.to_nat (n - 1)) with (Z.to_nat n - 1)%nat by lia.
    destruct (repeat_sim (Z.to_nat n - 1) false _ s1 S1) as (s2 & -> & S2 & E2).
    { unfold cv_push, cv_with. cbn. rewrite length_app. cbn. lia. }
    apply Hend; [exact S2|congruence].
  - cbn. destruct (repeat_sim (Z.to_nat n) false c s S) as (s2 & -> & S2 & E2); [lia|].
    apply Hend; [exact S2|congruence].
Qed.

(** The other orders, from the state after the header. *)
Abbreviation other := (other_order d rowDelta white).

Lemma run_order_sim (set : bool) f p n c s k :
  sim c s -> (set = true -> pixel_ok d p) -> st_src s = (if set then pixel_bytes d p else []) ++ k ->
  (length (cv_out c) + Z.to_nat n <= width * height)%nat ->
  draws (cv_bits width (replicate (Z.to_nat n) true) (if set then cv_set c p else c)) k
    (other (if set then code_of f liteSetFGRun megaMegaSetFGRun
            else code_of f regularFGRun megaMegaFGRun) n s).
Proof.
  intros S Hp Hs Hroom. destruct set.
  - specialize (Hp eq_refl). pose proof (readPixel_sim c s p k S Hp Hs) as Hr.
    apply (drew_draws _ (with_fg (with_src s k) p)); [done|].
    replace (other _ n s) with (repeat_opt (Z.to_nat n) (run_pixel d rowDelta true) (with_fg (with_src s k) p))
      by (destruct f; unfold other_order; cbn [is_code existsb code_of Z.eqb orb]; by rewrite Hr).
    apply repeat_sim; [|done]. apply sim_fg; [by apply sim_src|done].
  - apply (drew_draws _ s); [done|].
    replace (other _ n s) with (repeat_opt (Z.to_nat n) (run_pixel d rowDelta true) s) by (by destruct f).
    by apply repeat_sim.
Qed.

Lemma bits_sim (set : bool) f p bits c s k :
  sim c s -> (set = true -> pixel_ok d p) ->
  st_src s = (if set then pixel_bytes d p else []) ++ mask_bytes (length bits) bits ++ k ->
  (length (cv_out c) + length bits <= width * height)%nat ->
  draws (cv_bits width bits (if set then cv_set c p else c)) k
    (other (if set then code_of f liteSetFGBG megaMegaSetFGBG
            else code_of f regularFGBG megaMegaFGBG) (bits_len bits) s).
Proof.
  intros S Hp Hs Hroom.
  assert (Z.to_nat (bits_len bits) = length bits) as Hn by (unfold bits_len; lia). destruct set.
  - specialize (Hp eq_refl). pose proof (readPixel_sim c s p _ S Hp Hs) as Hr.
    set (s1 := with_fg (with_src s (mask_bytes (length bits) bits ++ k)) p).
    replace (other _ _ s) with (fgbg_loop d rowDelta (length bits) (bits_len bits) s1)
      by (rewrite <- Hn; destruct f; unfold other_order; cbn [is_code existsb code_of Z.eqb orb]; by rewrite Hr).
    eapply (fgbg_loop_sim (length bits) (length bits)); try done. apply sim_fg; [by apply sim_src|done].
  - replace (other _ _ s) with (fgbg_loop d rowDelta (length bits) (bits_len bits) s)
      by (rewrite <- Hn; by destruct f).
    by eapply (fgbg_loop_sim (length bits) (length bits)).
Qed.

Lemma cv_pixels_one c p : cv_pixels [p] c = cv_push c p.
Proof. done. Qed.

Lemma color_sim f p n c s k :
  sim c s -> pixel_ok d p -> st_src s = pixel_bytes d p ++ k ->
  (length (cv_out c) + Z.to_nat n <= width * height)%nat ->
  draws (cv_pixels (replicate (Z.to_nat n) p) c) k (other (code_of f regularColor megaMegaColor) n s).
Proof.
  intros S Hp Hs Hroom. pose proof (readPixel_sim c s p k S Hp Hs) as Hr.
  apply (drew_draws _ (with_src s k)); [done|].
  replace (other _ n s) with (repeat_opt (Z.to_nat n) (fun s => Some (writePixel d p s)) (with_src s k))
    by (destruct f; unfold other_order; cbn [is_code existsb code_of Z.eqb orb]; by rewrite Hr).
  replace (replicate (Z.to_nat n) p) with (concat (replicate (Z.to_nat n) [p])).
  - apply repeat_pixels_sim; [|by apply sim_src|cbn; lia]. intros c1 s1 S1 H1. cbn in H1.
    eexists. split; [done|]. apply writePixel_sim; [done|done|lia].
  - clear. induction (Z.to_nat n) as [|m IH]; cbn; [done|]. by rewrite IH.
Qed.

Lemma dither_sim f a b n c s k :
  sim c s -> pixel_ok d a -> pixel_ok d b -> st_src s = pixel_bytes d a ++ pixel_bytes d b ++ k ->
  (length (cv_out c) + Z.to_nat n * 2 <= width * height)%nat ->
  draws (cv_pixels (concat (replicate (Z.to_nat n) [a; b])) c) k
    (other (code_of f liteDithered megaMegaDithered) n s).
Proof.
  intros S Ha Hb Hs Hroom. pose proof (readPixel_sim c s a _ S Ha Hs) as Hra.
  pose proof (readPixel_sim c (with_src s (pixel_bytes d b ++ k)) b k (sim_src _ _ _ S) Hb eq_refl) as Hrb.
  apply (drew_draws _ (with_src s k)); [done|].
  replace (other _ n s) with
    (repeat_opt (Z.to_nat n) (fun s => Some (writePixel d b (writePixel d a s))) (with_src s k))
    by (destruct f; unfold other_order; cbn [is_code existsb code_of Z.eqb orb]; by rewrite Hra, Hrb).
  apply repeat_pixels_sim; [|by apply sim_src|cbn; lia]. intros c1 s1 S1 H1. cbn in H1.
  destruct (writePixel_sim c1 s1 a S1 Ha) as [S2 E2]; [lia|].
  destruct (writePixel_sim _ _ b S2 Hb) as [S3 E3]; [cbn; rewrite length_app; cbn; lia|].
  eexists. split; [done|]. split; [exact S3|congruence].
Qed.

Lemma image_sim f ps c s k :
  sim c s -> Forall (pixel_ok d) ps -> st_src s = flat ps ++ k ->
  (length (cv_out c) + length ps <= width * height)%nat ->
  draws (cv_pixels ps c) k
    (other (code_of f regularCImage megaMegaCImage) (Z.of_nat (length ps)) s).
Proof.
  intros S Hp Hs Hroom. pose proof (sim_append c s ps S Hp Hroom) as Ha.
  assert (Z.to_nat (Z.of_nat (length ps)) * d = length (flat ps))%nat as Hn
    by (rewrite length_flat, Nat2Z.id; lia).
  replace (other _ _ s) with (Some (copy_loop (length (flat ps)) s)) by (rewrite <- Hn; by destruct f).
  eexists. split; [done|]. rewrite (copy_loop_overwrite (flat ps) s k); [|done|].
  - split; [by apply sim_src|done].
  - rewrite (sm_dst _ _ S), (sm_pos _ _ S), length_app, length_replicate, !length_flat. nia.
Qed.

Lemma special_sim code s k :
  0 <= code < 256 -> decodeCode code = code -> (forall x, extractRunLength code code x = (0, x)) ->
  is_code code [regularBGRun; megaMegaBGRun] = false -> st_src s = to_byte code :: k ->
  st_src (line s) = st_src s ->
  order_step d rowDelta white s = other code 0 (with_flags (with_src (line s) k) false (st_first (line s))).
Proof.
  intros Hc Hd' Hx Hb Hs El. unfold order_step. cbv zeta. fold (line s).
  rewrite (readU8_cons _ code k) by (done || by rewrite El). by rewrite Hd', Hx, Hb.
Qed.

Lemma one_pixel_sim p c s k :
  sim c s -> pixel_ok d p -> st_src s = k -> (length (cv_out c) + 1 <= width * height)%nat ->
  draws (cv_push c p) k (Some (writePixel d p s)).
Proof.
  intros S Hp Hk Hroom. apply (drew_draws _ s); [done|]. eexists. split; [done|].
  apply writePixel_sim; [done|done|lia].
Qed.

(** The pixels of an order. *)
Definition order_len (o : order) : nat :=
  match o with
  | BgRun n | FgRun n | SetFgRun _ n | Color _ n => Z.to_nat n
  | Dither _ _ n => Z.to_nat n * 2
  | FgBg bits | SetFgBg _ bits => length bits
  | Image ps => length ps
  | White | Black => 1
  | Pattern3 | Pattern5 => 8
  end.

Lemma cv_line_out c : cv_out (cv_line width c) = cv_out c.
Proof. unfold cv_line. by case_match. Qed.

Lemma draw_length f o c : writable d (f, o) ->
  length (cv_out (draw width white o c)) = (length (cv_out c) + order_len o)%nat.
Proof.
  intros Hv. rewrite <- (cv_line_out c).
  destruct o; cbn [draw order_len cv_flag cv_with cv_out]; rewrite ?cv_bits_length, ?cv_pixels_out;
    cbn [cv_set cv_with cv_out cv_flag cv_push]; rewrite ?length_app, ?length_replicate; try done.
  - destruct (cv_insert _); cbn [length]; rewrite length_replicate; [|done].
    cbn in Hv. destruct f; cbn in Hv; lia.
  - f_equal. clear. induction (Z.to_nat n) as [|m IH]; cbn; [done|]. by rewrite IH.
Qed.

Lemma step_sim f o c s k :
  writable d (f, o) -> sim c s -> st_src s = encode d (f, o) ++ k ->
  (length (cv_out c) + order_len o <= width * height)%nat ->
  draws (draw width white o c) k (order_step d rowDelta white s).
Proof.
  intros Hv S0 Hs Hroom. destruct (line_sim c s S0) as [S El]. rewrite <- (cv_line_out c) in Hroom.
  assert (forall k', sim (cv_flag (cv_line width c) false)
    (with_flags (with_src (line s) k') false (st_first (line s)))) as Sf
    by (intros k'; apply (sim_flag _ (with_src (line s) k')); by apply sim_src).
  assert (pixel_ok d 0) as H0 by (split; [done|apply Z.pow_pos_nonneg; lia]).
  rewrite <- El in Hs.
  destruct o; cbn [encode writable draw order_len fst snd] in *; rewrite <- ?app_assoc in Hs.
  - rewrite (step_read f regularBGRun megaMegaBGRun n k) by (apply head_read_regular; [set_solver|done|done]).
    cbv zeta. assert (1 <= n) by (destruct f; cbn in Hv; lia).
    replace (is_code _ _) with true by (by destruct f). apply background_sim; [done|by apply sim_src|done|done].
  - rewrite (step_read f regularFGRun megaMegaFGRun n k) by (apply head_read_regular; [set_solver|done|done]).
    cbv zeta. replace (is_code _ _) with false by (by destruct f).
    apply (run_order_sim false f 0 n _ _ k (Sf k)); done.
  - destruct Hv as [Hp Hv].
    rewrite (step_read f liteSetFGRun megaMegaSetFGRun n (pixel_bytes d p ++ k))
      by (apply (head_read_lite f liteSetFGRun); [set_solver|done|done]).
    cbv zeta. replace (is_code _ _) with false by (by destruct f).
    apply (run_order_sim true f p n _ _ k (Sf _)); done.
  - destruct Hv as (Ha & Hb & Hv).
    rewrite (step_read f liteDithered megaMegaDithered n (pixel_bytes d a ++ pixel_bytes d b ++ k))
      by (apply (head_read_lite f liteDithered); [set_solver|done|done]).
    cbv zeta. replace (is_code _ _) with false by (by destruct f).
    apply (dither_sim f a b n _ _ k (Sf _)); done.
  - destruct Hv as [Hp Hv].
    rewrite (step_read f regularColor megaMegaColor n (pixel_bytes d p ++ k))
      by (apply head_read_regular; [set_solver|done|done]).
    cbv zeta. replace (is_code _ _) with false by (by destruct f).
    apply (color_sim f p n _ _ k (Sf _)); done.
  - rewrite (step_read f regularFGBG megaMegaFGBG (bits_len bits) (mask_bytes (length bits) bits ++ k))
      by (by apply (head_read_bits f false)).
    cbv zeta. replace (is_code _ _) with false by (by destruct f).
    apply (bits_sim false f 0 bits _ _ k (Sf _)); done.
  - destruct Hv as [Hp Hv].
    rewrite (step_read f liteSetFGBG megaMegaSetFGBG (bits_len bits)
               (pixel_bytes d p ++ mask_bytes (length bits) bits ++ k))
      by (by apply (head_read_bits f true)).
    cbv zeta. replace (is_code _ _) with false by (by destruct f).
    apply (bits_sim true f p bits _ _ k (Sf _)); done.
  - destruct Hv as [Hp Hv].
    rewrite (step_read f regularCImage megaMegaCImage (Z.of_nat (length ps)) (flat ps ++ k))
      by (apply head_read_regular; [set_solver|done|done]).
    cbv zeta. replace (is_code _ _) with false by (by destruct f).
    apply (image_sim f ps _ _ k (Sf _)); done.
  - rewrite (special_sim specialWhite s k) by (done || by rewrite <- El).
    by apply (one_pixel_sim white _ _ k (Sf k)).
  - rewrite (special_sim specialBlack s k) by (done || by rewrite <- El).
    by apply (one_pixel_sim 0 _ _ k (Sf k)).
  - rewrite (special_sim specialFGBG1 s k) by (done || by rewrite <- El).
    by eapply drew_draws, (writeFgBgImage_sim (pattern 3) _ _ (Sf k)).
  - rewrite (special_sim specialFGBG2 s k) by (done || by rewrite <- El).
    by eapply drew_draws, (writeFgBgImage_sim (pattern 5) _ _ (Sf k)).
Qed.

Lemma encode_cons x : encode d x <> [].
Proof. destruct x as [[] []]; done. Qed.

Lemma draw_monotone os c : Forall (writable d) os ->
  (length (cv_out c) <= length (cv_out (fold_left (fun c o => draw width white o c) (map snd os) c)))%nat.
Proof.
  intros Hv. revert c. induction Hv as [|[f o] os Ho _ IH]; intros c; cbn [map fold_left snd]; [done|].
  etransitivity; [|apply IH]. rewrite (draw_length f) by done. lia.
Qed.

Lemma loop_sim os : Forall (writable d) os -> forall fuel c s, sim c s ->
  st_src s = concat (map (encode d) os) -> (length (st_src s) <= fuel)%nat ->
  let c' := fold_left (fun c o => draw width white o c) (map snd os) c in
  (length (cv_out c') <= width * height)%nat ->
  exists s', order_loop d rowDelta white fuel s = Some s' /\ sim c' s'.
Proof.
  induction 1 as [|[f o] os Ho Hos IH]; intros fuel c s S Hs Hf c' Hroom; cbn [map concat fold_left snd] in *.
  { exists s. split; [|done]. destruct fuel; cbn; [done|]. by rewrite Hs. }
  pose proof (draw_monotone os (draw width white o c) Hos) as Hm.
  rewrite (draw_length f) in Hm by done. fold c' in Hm.
  destruct (step_sim f o c s (concat (map (encode d) os)) Ho S Hs) as (s1 & H1 & S1 & E1); [lia|].
  pose proof (encode_cons (f, o)) as Hne.
  assert (length (st_src s1) < length (st_src s))%nat as Hlt.
  { rewrite E1, Hs, length_app. destruct (encode d (f, o)); [done|]. cbn. lia. }
  destruct fuel as [|fuel]; [lia|]. cbn [order_loop].
  destruct (st_src s) as [|b r]; [cbn in Hlt; lia|]. rewrite H1. cbn.
  apply IH; [done|done|cbn in *; lia|done].
Qed.
End Sim.

Lemma colorDepth_cases bpp : colorDepth bpp = 1%nat \/ colorDepth bpp = 2%nat \/ colorDepth bpp = 3%nat.
Proof. unfold colorDepth. case_match; [by left|]. case_match; [by right; left|by right; right]. Qed.

Lemma white_ok bpp : pixel_ok (colorDepth bpp) (white_of bpp).
Proof.
  unfold pixel_ok, white_of. destruct (Z.eqb_spec bpp 24) as [->|]; [by vm_compute|].
  destruct (Z.eqb_spec bpp 16) as [->|]; [by vm_compute|]. destruct (Z.eqb_spec bpp 15) as [->|]; [by vm_compute|].
  by destruct (colorDepth_cases bpp) as [->|[->| ->]].
Qed.

Lemma decompressed (src : bytes) (width height : nat) (bpp : Z) :
  src <> [] -> (1 <= width)%nat ->
  exists dst, Decompress src width height bpp = Bitmap dst
  /\ length dst = (colorDepth bpp * width * height)%nat.
Proof.
  intros Hs Hw. unfold Decompress. destruct src as [|b r]; [done|].
  set (d := colorDepth bpp). set (src := b :: r).
  assert (d <= d * width)%nat as Hrow by nia.
  destruct (order_loop_safe d (d * width) (d * width * height) (white_of bpp) Hrow (length src)
    (init_state src (d * width * height) (white_of bpp))) as (s & -> & [Hl _] & _).
  - split; cbn; [by rewrite length_replicate|lia].
  - done.
  - by exists (st_dst s).
Qed.

(** On any data and any size with at least a column, [Decompress] comes back
    with a bitmap of exactly the declared size: it reads all the data, writes
    only inside the bitmap, and no read of the pixel above is out of range. *)
Theorem decompress_total (src : bytes) (width height : nat) (bpp : Z) :
  src <> [] -> (1 <= width)%nat ->
  exists dst, Decompress src width height bpp = Bitmap dst
  /\ length dst = (colorDepth bpp * width * height)%nat.
Proof. apply decompressed. Qed.

(** C17 [Decompress] draws what the data says: for every sequence of orders that
    fits the bitmap, in every form an encoder can write each of them in, the
    decoded bitmap is the pixels of the orders' meaning, row after row, and
    zeros behind them. *)
Theorem decompress_draws (os : list (form * order)) (width height : nat) (bpp : Z) :
  let d := colorDepth bpp in
  let pixels := drawing width (white_of bpp) (map snd os) in
  os <> [] -> (1 <= width)%nat -> Forall (writable d) os -> (length pixels <= width * height)%nat ->
  Decompress (concat (map (encode d) os)) width height bpp
  = Bitmap (concat (map (pixel_bytes d) pixels)
            ++ replicate (d * (width * height - length pixels)) x00).
Proof.
  intros d pixels Hos Hw Hv Hroom. set (src := concat (map (encode d) os)).
  destruct (loop_sim d width height (white_of bpp) (colorDepth_cases bpp) Hw (white_ok bpp) os Hv (length src)
    (blank (white_of bpp)) (init_state src (d * width * height) (white_of bpp)))
    as (s & Hl & S); [|done|done|done|].
  - split; cbn; try done; [f_equal; lia|lia|by split; [|apply white_ok]].
  - unfold Decompress. fold d. fold src in Hl.
    assert (src <> []) as Hne.
    { unfold src. destruct os as [|x os']; [done|]. cbn. pose proof (encode_cons d x).
      by destruct (encode d x). }
    destruct src as [|b r] eqn:E; [done|]. cbv zeta. rewrite Hl. f_equal.
    rewrite (sm_dst _ _ _ _ _ S). unfold flat, pixels, drawing. f_equal. f_equal.
    by rewrite Nat.mul_sub_distr_l, Nat.mul_assoc.
Qed.

Definition sample_orders : list (form * order) :=
  [(Short, Color 0x1234 3); (Short, BgRun 2); (Extended, BgRun 33); (Mega, SetFgRun 0xFF00 5);
   (Short, FgBg (pattern 0xA5)); (Extended, SetFgBg 7 [true; false; true]); (Short, Image [1; 2; 3]);
   (Mega, Dither 9 10 2); (Short, White); (Short, Pattern3)].

Lemma decompress_draws_witness :
  (length (drawing 10 (white_of 16) (map snd sample_orders)) <= 10 * 8)%nat
  /\ Decompress (concat (map (encode 2) sample_orders)) 10 8 16
     = Bitmap (concat (map (pixel_bytes 2) (drawing 10 (white_of 16) (map snd sample_orders)))
               ++ replicate (2 * (10 * 8 - length (drawing 10 (white_of 16) (map snd sample_orders)))) x00).
Proof.
  split; [apply Nat.leb_le; by vm_compute|].
  apply (decompress_draws sample_orders 10 8 16); [done|lia| |apply Nat.leb_le; by vm_compute].
  unfold sample_orders. repeat constructor; try done; cbn; try lia; by vm_compute.
Defined.

Lemma decompress_total_witness : exists dst,
  Decompress [xf0; xff; xff; xf1; xff] 2 3 16 = Bitmap dst /\ length dst = 12%nat.
Proof. apply (decompress_total [xf0; xff; xff; xf1; xff] 2 3 16); [done|lia]. Defined.

(** ** Departures *)

(** A bitmap without columns: reading the pixel above is an index out of range
    (rle.go, [readPixelAbove]). *)
Example no_columns_panics : Decompress [x05] 0 4 16 = Panic.
Proof. reflexivity. Qed.

(** At 32 bits a pixel is written as three bytes and read back as four: of two
    pixels one arrives, with a byte of the other in it (rle.go, [Decompress]
    and [ToRGBA]). *)
Example thirty_two_bits_garbled :
  Decompress [x62; x01; x02; x03] 2 1 32 = Bitmap [x01; x02; x03; x01; x02; x03]
  /\ DecompressToRGBA [x62; x01; x02; x03] 2 1 32 = Bitmap [x03; x02; x01; xff; x00; x00; x00; x00].
Proof. split; reflexivity. Qed.
