(* ===== verification/PiiCanvas.v ===== *)
(** * The PII gate's shadow framebuffer: src/gateway/rdp/piigate.go and
      src/gateway/rdp/analyzer/worker.go

    [shadowCanvas] mirrors the screen of an RDP client: every bitmap of the
    stream is decoded, the canvas grows to hold it, and [CompositeBitmap] draws
    it and says whether a pixel changed.

    A pixel is four bytes of RGBA.  Positions and sizes are uint16 fields of the
    bitmap, hence never negative. *)

From S2P Require Import Prelude Rle RleProps.

#[local] Open Scope nat_scope.

(** ** Bitmaps of the stream *)

Record BitmapRect := {
  bmX : nat;
  bmY : nat;
  bmWidth : nat;
  bmHeight : nat;
  bmBitsPerPixel : Z;
  bmCompressed : bool;
}.

Record gatePatch := { gp_bmp : BitmapRect; gp_data : bytes }.

(** ** The canvas *)

Record shadowCanvas := { cv_fb : bytes; cv_w : nat; cv_h : nat }.

Definition maxCanvasDim : Z := 4096.

(** The pixel [i] of a buffer. *)
Definition px (l : bytes) (i : nat) : bytes := take 4 (drop (4 * i) l).

(** [grow]: a zeroed buffer and a copy of every row. *)
Definition grow (c : shadowCanvas) (width height : nat) : shadowCanvas :=
  let width := Nat.max width (cv_w c) in
  let height := Nat.max height (cv_h c) in
  {| cv_fb :=
       foldl (fun fb y =>
                overwrite fb (y * width * 4) (take (cv_w c * 4) (drop (y * cv_w c * 4) (cv_fb c))))
         (replicate (width * height * 4) x00) (seq 0 (cv_h c));
     cv_w := width; cv_h := height |}.

(** One pixel of [CompositeBitmap]: written when a byte differs. *)
Definition paint_pixel (patch : bytes) (si di : nat) (st : bytes * bool) : bytes * bool :=
  let fb := st.1 in
  if (si + 3 <? length patch) && (di + 3 <? length fb) then
    if bool_decide (take 4 (drop di fb) = take 4 (drop si patch)) then st
    else (overwrite fb di (take 4 (drop si patch)), true)
  else st.

Section Composite.
Variables (fbWidth fbHeight : nat) (patch : bytes) (patchW patchH dstX dstY : nat).

Definition paint_col (row : nat) (st : bytes * bool) (col : nat) : bytes * bool :=
  if fbWidth <=? dstX + col then st
  else paint_pixel patch (row * patchW * 4 + col * 4) (((dstY + row) * fbWidth + dstX) * 4 + col * 4) st.

Definition paint_row (st : bytes * bool) (row : nat) : bytes * bool :=
  if fbHeight <=? dstY + row then st else foldl (paint_col row) st (seq 0 patchW).

(** The buffer drawn on and whether a pixel changed. *)
Definition CompositeBitmap (framebuffer : bytes) : bytes * bool :=
  foldl paint_row (framebuffer, false) (seq 0 patchH).
End Composite.

(** The RGBA of a bitmap. *)
Definition decode_patch (p : gatePatch) : result :=
  let b := gp_bmp p in
  if bmCompressed b then DecompressToRGBA (gp_data p) (bmWidth b) (bmHeight b) (bmBitsPerPixel b)
  else ToRGBA (gp_data p) (bmWidth b) (bmHeight b) (bmBitsPerPixel b).

Definition oversized (b : BitmapRect) : bool :=
  (maxCanvasDim <? Z.of_nat (bmX b + bmWidth b))%Z || (maxCanvasDim <? Z.of_nat (bmY b + bmHeight b))%Z.

(** [composite]; [None] is a panic of the decoder. *)
Definition composite (c : shadowCanvas) (p : gatePatch) : option (shadowCanvas * bool) :=
  let b := gp_bmp p in
  let right := bmX b + bmWidth b in
  let bottom := bmY b + bmHeight b in
  if oversized b then Some (c, false)
  else
    match decode_patch p with
    | Panic => None
    | Bitmap rgba =>
        let grew := (cv_w c <? right) || (cv_h c <? bottom) in
        let c := if grew then grow c right bottom else c in
        let '(fb, changed) :=
          CompositeBitmap (cv_w c) (cv_h c) rgba (bmWidth b) (bmHeight b) (bmX b) (bmY b) (cv_fb c) in
        Some ({| cv_fb := fb; cv_w := cv_w c; cv_h := cv_h c |}, changed || grew)
    | _ => Some (c, false)
    end.

Definition empty_canvas : shadowCanvas := {| cv_fb := []; cv_w := 0; cv_h := 0 |}.

(** ** What a screen shows *)

(** The pixel of every position; black and transparent where nothing was drawn. *)
Definition screen := nat -> nat -> bytes.

Definition no_pixel : bytes := [x00; x00; x00; x00].
Definition blank_screen : screen := fun _ _ => no_pixel.

Definition in_rect (b : BitmapRect) (x y : nat) : bool :=
  (bmX b <=? x) && (x <? bmX b + bmWidth b) && (bmY b <=? y) && (y <? bmY b + bmHeight b).

(** A bitmap the gate can draw covers its rectangle; the gate shows nothing of
    the others. *)
Definition draw_patch (S : screen) (p : gatePatch) : screen :=
  let b := gp_bmp p in
  if oversized b then S
  else
    match decode_patch p with
    | Bitmap rgba =>
        fun x y => if in_rect b x y then px rgba ((y - bmY b) * bmWidth b + (x - bmX b)) else S x y
    | _ => S
    end.

(** The canvas shows the screen, and nothing lies outside of it. *)
Record shows (c : shadowCanvas) (S : screen) : Prop := {
  sh_len : length (cv_fb c) = 4 * (cv_h c * cv_w c);
  sh_in : forall x y, x < cv_w c -> y < cv_h c -> px (cv_fb c) (y * cv_w c + x) = S x y;
  sh_out : forall x y, cv_w c <= x \/ cv_h c <= y -> S x y = no_pixel;
  sh_height : (Z.of_nat (cv_h c) <= maxCanvasDim)%Z;
}.

(** ** Pixels of a buffer *)

Lemma lookup_overwrite fb p l k : p + length l <= length fb ->
  overwrite fb p l !! k = if decide (p <= k < p + length l) then l !! (k - p) else fb !! k.
Proof.
  intros Hl. unfold overwrite. assert (length (take p fb) = p) as Hp by (rewrite length_take; lia).
  case_decide as H.
  - rewrite lookup_app_r, Hp by lia. by rewrite lookup_app_l by lia.
  - destruct (decide (k < p)).
    + rewrite lookup_app_l by lia. by rewrite lookup_take_lt by lia.
    + rewrite lookup_app_r, Hp by lia. rewrite lookup_app_r by lia. rewrite lookup_drop. f_equal. lia.
Qed.

Lemma px_lookup l i k : px l i !! k = if decide (k < 4) then l !! (4 * i + k) else None.
Proof.
  unfold px. case_decide; [rewrite lookup_take_lt by lia; by rewrite lookup_drop|].
  apply lookup_take_ge. lia.
Qed.

Lemma px_ext l l' i i' : (forall k, k < 4 -> l !! (4 * i + k) = l' !! (4 * i' + k)) -> px l i = px l' i'.
Proof.
  intros H. apply list_eq. intros k. rewrite !px_lookup. case_decide; [by apply H|done].
Qed.

(** A run of pixels written over a buffer. *)
Lemma px_overwrite fb j l m i : length l = 4 * m -> 4 * j + length l <= length fb ->
  px (overwrite fb (4 * j) l) i = if decide (j <= i < j + m) then px l (i - j) else px fb i.
Proof.
  intros Hm Hl. case_decide as H; apply px_ext; intros k Hk; rewrite lookup_overwrite by done.
  - rewrite decide_True by lia. f_equal. lia.
  - by rewrite decide_False by lia.
Qed.

Lemma px_length l i : 4 * S i <= length l -> length (px l i) = 4.
Proof. intros H. unfold px. rewrite length_take, length_drop. lia. Qed.

Lemma px_zeros n i : 4 * S i <= n -> px (replicate n x00) i = no_pixel.
Proof.
  intros H. unfold px. rewrite drop_replicate, take_replicate.
  replace (4 `min` (n - 4 * i)) with 4 by lia. done.
Qed.

(** Positions of a row are positions of the buffer, and different. *)
Lemma index_lt w h x y : x < w -> y < h -> y * w + x < h * w.
Proof. nia. Qed.

Lemma index_inj w x y x' y' : x < w -> x' < w -> y * w + x = y' * w + x' -> x = x' /\ y = y'.
Proof. intros Hx Hx' H. assert (y = y') by nia. subst. lia. Qed.

(** ** The shadow framebuffer shows the client's screen *)
(** ** Decoded bitmaps *)

Lemma rgba_of_length bpp px : (bpp = 16 \/ bpp = 24 \/ bpp = 32)%Z ->
  length px = Z.to_nat (Z.shiftr bpp 3) -> length (rgba_of bpp px) = 4.
Proof.
  intros [->|[->| ->]] Hl; unfold rgba_of; cbn [Z.eqb Pos.eqb]; [done| |];
    destruct px as [|? [|? [|? ?]]]; try done; cbn in Hl; lia.
Qed.

Lemma rgba_row_length bpp n src : (bpp = 16 \/ bpp = 24 \/ bpp = 32)%Z ->
  length (rgba_row bpp (Z.to_nat (Z.shiftr bpp 3)) n src) = 4 * n.
Proof.
  intros Hb. revert src. induction n as [|n IH]; intros src; cbn [rgba_row]; [done|].
  destruct (Nat.ltb_spec (length src) (Z.to_nat (Z.shiftr bpp 3))); [by rewrite length_replicate|].
  rewrite length_app, IH, rgba_of_length; [lia|done|]. rewrite length_take. lia.
Qed.

Lemma ToRGBA_length src width height bpp dst :
  ToRGBA src width height bpp = Bitmap dst -> length dst = 4 * (height * width).
Proof.
  unfold ToRGBA. destruct (Nat.eqb_spec height 0) as [->|]; [by intros [= <-]|].
  destruct (_ || _) eqn:Eb; [|done]. intros [= <-].
  assert (bpp = 16 \/ bpp = 24 \/ bpp = 32)%Z as Hb
    by (rewrite !orb_true_iff, !Z.eqb_eq in Eb; tauto).
  clear n. induction height as [|h IH]; cbn [rgba_rows]; [done|].
  rewrite length_app, rgba_row_length, IH by done. lia.
Qed.

Lemma ToRGBA_no_panic src width height bpp : ToRGBA src width height bpp <> Panic.
Proof. unfold ToRGBA. by repeat case_match. Qed.

(** A bitmap as the gate queues it. *)
Definition patch_ok (p : gatePatch) : Prop :=
  gp_data p <> [] /\ 1 <= bmWidth (gp_bmp p) /\ 1 <= bmHeight (gp_bmp p).

(** Any bitmap decodes to an image of its size or is refused. *)
Lemma decode_patch_ok p : patch_ok p ->
  decode_patch p <> Panic
  /\ (forall rgba, decode_patch p = Bitmap rgba ->
      length rgba = 4 * (bmHeight (gp_bmp p) * bmWidth (gp_bmp p))).
Proof.
  intros (Hd & Hw & _). unfold decode_patch, DecompressToRGBA. destruct (bmCompressed _).
  - destruct (decompressed (gp_data p) (bmWidth (gp_bmp p)) (bmHeight (gp_bmp p))
      (bmBitsPerPixel (gp_bmp p)) Hd Hw) as (dst & -> & _).
    split; [apply ToRGBA_no_panic|]. intros rgba. apply ToRGBA_length.
  - split; [apply ToRGBA_no_panic|]. intros rgba. apply ToRGBA_length.
Qed.

(** ** Drawing *)

Section Draw.
Variables (w h : nat) (patch : bytes) (pw ph X Y : nat).
Hypothesis Hpatch : length patch = 4 * (ph * pw).
Hypothesis Hright : X + pw <= w.
Hypothesis Hbottom : Y + ph <= h.

(** [st'] is [st] with the positions of [P] drawn from the patch. *)
Record painted (P : nat -> nat -> bool) (st st' : bytes * bool) : Prop := {
  pt_len : length (st'.1) = 4 * (h * w);
  pt_px : forall x y, x < w -> y < h ->
    px st'.1 (y * w + x)
    = if P x y then px patch ((y - Y) * pw + (x - X)) else px st.1 (y * w + x);
  pt_same : st'.2 = false -> st' = st;
}.

Lemma painted_weaken P Q st st' : (forall x y, P x y = Q x y) -> painted P st st' -> painted Q st st'.
Proof. intros H [A B C]. split; [done| |done]. intros x y Hx Hy. rewrite <- H. by apply B. Qed.

Lemma painted_trans P Q st st' st'' : painted P st st' -> painted Q st' st'' ->
  painted (fun x y => Q x y || P x y) st st''.
Proof.
  intros [A1 B1 C1] [A2 B2 C2]. split; [done| |].
  - intros x y Hx Hy. rewrite B2 by done. destruct (Q x y); [done|]. by rewrite B1.
  - intros H. specialize (C2 H). subst. by apply C1.
Qed.

(** One cell. *)
Lemma paint_col_painted row col st : row < ph -> col < pw -> length st.1 = 4 * (h * w) ->
  painted (fun x y => (x =? X + col) && (y =? Y + row)) st
    (paint_col w patch pw X Y row st col).
Proof.
  intros Hr Hc Hl. unfold paint_col. rewrite (proj2 (Nat.leb_gt _ _)) by lia.
  replace (row * pw * 4 + col * 4) with (4 * (row * pw + col)) by lia.
  replace (((Y + row) * w + X) * 4 + col * 4) with (4 * ((Y + row) * w + (X + col))) by lia.
  unfold paint_pixel. pose proof (index_lt pw ph col row Hc Hr).
  pose proof (index_lt w h (X + col) (Y + row) ltac:(lia) ltac:(lia)).
  rewrite (proj2 (Nat.ltb_lt _ (length patch))) by lia.
  rewrite (proj2 (Nat.ltb_lt _ (length st.1))) by lia. cbn [andb].
  change (take 4 (drop (4 * (row * pw + col)) patch)) with (px patch (row * pw + col)).
  change (take 4 (drop (4 * ((Y + row) * w + (X + col))) st.1)) with (px st.1 ((Y + row) * w + (X + col))).
  assert (forall x y, x < w -> (x =? X + col) && (y =? Y + row) = true <->
    y * w + x = (Y + row) * w + (X + col)) as Hcell.
  { intros x y Hx. rewrite andb_true_iff, !Nat.eqb_eq. split; [intros [-> ->]; lia|].
    intros E. apply (index_inj w) in E; [done|done|lia]. }
  case_bool_decide as E.
  - split; [done| |done]. intros x y Hx Hy.
    destruct (_ && _) eqn:Ec; [|done]. pose proof (proj1 (Hcell x y Hx) Ec) as Ei.
    apply andb_true_iff in Ec as [->%Nat.eqb_eq ->%Nat.eqb_eq]. rewrite E. do 2 f_equal; lia.
  - assert (length (px patch (row * pw + col)) = 4) as Hp4 by (apply px_length; lia).
    split; cbn [fst snd]; [rewrite length_overwrite; lia| |done]. intros x y Hx Hy.
    rewrite (px_overwrite _ _ _ 1) by lia. destruct (_ && _) eqn:Ec.
    + rewrite decide_True by (apply Hcell in Ec; lia).
      apply andb_true_iff in Ec as [->%Nat.eqb_eq ->%Nat.eqb_eq]. rewrite Nat.sub_diag.
      unfold px at 1. rewrite drop_0, take_ge by lia. do 2 f_equal; lia.
    + rewrite decide_False; [done|]. intros Hi. assert (y * w + x = (Y + row) * w + (X + col)) by lia.
      by apply Bool.not_true_iff_false in Ec; apply Ec, Hcell.
Qed.

Lemma painted_refl st : length st.1 = 4 * (h * w) -> painted (fun _ _ => false) st st.
Proof. by split. Qed.

Lemma paint_row_painted row st : row < ph -> length st.1 = 4 * (h * w) ->
  painted (fun x y => (X <=? x) && (x <? X + pw) && (y =? Y + row)) st
    (paint_row w h patch pw X Y st row).
Proof.
  intros Hr Hl. unfold paint_row. rewrite (proj2 (Nat.leb_gt _ _)) by lia.
  assert (forall n, n <= pw ->
    painted (fun x y => (X <=? x) && (x <? X + n) && (y =? Y + row)) st
      (foldl (paint_col w patch pw X Y row) st (seq 0 n))) as Hn; [|by apply Hn].
  induction n as [|n IH]; intros Hn.
  - eapply painted_weaken; [|by apply painted_refl]. intros x y.
    destruct (Nat.leb_spec X x), (Nat.ltb_spec x (X + 0)); cbn; try done; lia.
  - rewrite seq_S, foldl_snoc, Nat.add_0_l. specialize (IH ltac:(lia)).
    eapply painted_weaken; [|eapply painted_trans; [exact IH|apply paint_col_painted; [done|lia|apply IH]]].
    intros x y. cbv beta. destruct (Nat.eqb_spec y (Y + row)), (Nat.leb_spec X x), (Nat.ltb_spec x (X + n)),
      (Nat.eqb_spec x (X + n)), (Nat.ltb_spec x (X + S n)); cbn; try done; lia.
Qed.

Lemma CompositeBitmap_painted fb : length fb = 4 * (h * w) ->
  painted (fun x y => (X <=? x) && (x <? X + pw) && (Y <=? y) && (y <? Y + ph)) (fb, false)
    (CompositeBitmap w h patch pw ph X Y fb).
Proof.
  intros Hl. unfold CompositeBitmap.
  assert (forall n, n <= ph ->
    painted (fun x y => (X <=? x) && (x <? X + pw) && (Y <=? y) && (y <? Y + n)) (fb, false)
      (foldl (paint_row w h patch pw X Y) (fb, false) (seq 0 n))) as Hn; [|by apply Hn].
  induction n as [|n IH]; intros Hn.
  - eapply painted_weaken; [|by apply painted_refl]. intros x y.
    destruct (Nat.leb_spec Y y), (Nat.ltb_spec y (Y + 0)); cbn; rewrite ?andb_false_r; try done; lia.
  - rewrite seq_S, foldl_snoc, Nat.add_0_l. specialize (IH ltac:(lia)).
    eapply painted_weaken; [|eapply painted_trans; [exact IH|apply paint_row_painted; [lia|apply IH]]].
    intros x y. cbv beta. destruct (Nat.eqb_spec y (Y + n)), (Nat.leb_spec X x), (Nat.ltb_spec x (X + pw)),
      (Nat.leb_spec Y y), (Nat.ltb_spec y (Y + n)), (Nat.ltb_spec y (Y + S n)); cbn; try done; lia.
Qed.
End Draw.

(** ** Growing *)

Lemma grow_shows c S W H : shows c S -> (Z.of_nat H <= maxCanvasDim)%Z -> shows (grow c W H) S.
Proof.
  intros [L I O D] HH. unfold grow. set (width := Nat.max W (cv_w c)). set (height := Nat.max H (cv_h c)).
  set (f := fun fb y => overwrite fb (y * width * 4) (take (cv_w c * 4) (drop (y * cv_w c * 4) (cv_fb c)))).
  assert (cv_w c <= width) as Hw by (unfold width; lia). assert (cv_h c <= height) as Hh by (unfold height; lia).
  assert (forall n, n <= cv_h c ->
    let fb := foldl f (replicate (width * height * 4) x00) (seq 0 n) in
    length fb = 4 * (height * width)
    /\ forall x y, x < width -> y < height ->
       px fb (y * width + x) = if decide (x < cv_w c /\ y < n) then S x y else no_pixel) as Hn.
  { induction n as [|n IH]; intros Hn; cbv zeta.
    - cbn [seq foldl]. rewrite length_replicate. split; [lia|]. intros x y Hx Hy.
      rewrite decide_False by lia. apply px_zeros. pose proof (index_lt width height x y Hx Hy). lia.
    - rewrite seq_S, foldl_snoc, Nat.add_0_l. destruct (IH ltac:(lia)) as [Hl Hp]. clear IH.
      set (fb := foldl f _ (seq 0 n)) in *. unfold f.
      set (l := take _ _). assert (length l = 4 * cv_w c) as Hll
        by (unfold l; rewrite length_take, length_drop, L; nia).
      replace (n * width * 4) with (4 * (n * width)) by lia.
      assert (4 * (n * width) + length l <= length fb) as Hfit by (rewrite Hll, Hl; nia).
      split; [by rewrite length_overwrite|]. intros x y Hx Hy.
      rewrite (px_overwrite fb (n * width) l (cv_w c)) by done.
      destruct (decide (n * width <= y * width + x < n * width + cv_w c)) as [Hd|Hd].
      + assert (y = n) as -> by nia. rewrite decide_True by lia. rewrite <- I by lia.
        apply px_ext. intros k Hk. unfold l. rewrite lookup_take_lt by lia. rewrite lookup_drop. f_equal. lia.
      + rewrite Hp by done. apply decide_ext. split; [lia|]. intros [? ?]. split; [done|].
        destruct (decide (y = n)) as [->|]; [lia|]. lia. }
  destruct (Hn (cv_h c) (le_n _)) as [Hl Hp]. split; cbn [cv_fb cv_w cv_h]; [done| | |unfold height; lia].
  - intros x y Hx Hy. rewrite Hp by done. case_decide as Hd; [done|]. symmetry. apply O. lia.
  - intros x y Hxy. apply O. lia.
Qed.

(** ** A bitmap on the canvas *)

(** Compositing draws exactly the bitmap's rectangle; a report of no change
    means that the canvas is the same, and so is the screen. *)
Lemma composite_shows c S p : shows c S -> patch_ok p ->
  exists c' changed, composite c p = Some (c', changed)
  /\ shows c' (draw_patch S p)
  /\ (changed = false -> c' = c)
  /\ cv_w c <= cv_w c' /\ cv_h c <= cv_h c'
  /\ (changed = true -> oversized (gp_bmp p) = false
      /\ bmY (gp_bmp p) + bmHeight (gp_bmp p) <= cv_h c').
Proof.
  intros Hs Hok. destruct (decode_patch_ok p Hok) as [Hpan Hlen]. unfold composite, draw_patch.
  destruct (oversized (gp_bmp p)) eqn:Eo; [by exists c, false|].
  unfold oversized in Eo. apply orb_false_iff in Eo as [_ Eo%Z.ltb_ge].
  destruct (decode_patch p) as [| | |rgba]; [by exists c, false|by exists c, false|done|].
  specialize (Hlen _ eq_refl). set (b := gp_bmp p) in *.
  set (grew := (_ <? _) || _). set (c1 := if grew then _ else c).
  assert (shows c1 S /\ bmX b + bmWidth b <= cv_w c1 /\ bmY b + bmHeight b <= cv_h c1
    /\ cv_w c <= cv_w c1 /\ cv_h c <= cv_h c1 /\ (grew = false -> c1 = c)) as (S1 & Hr & Hb & Hw & Hh & Hg).
  { unfold c1. destruct grew eqn:E.
    - split; [apply grow_shows; [done|lia]|]. cbn. split_and!; try lia; done.
    - unfold grew in E. apply orb_false_iff in E as [E1%Nat.ltb_ge E2%Nat.ltb_ge]. by split_and!. }
  destruct S1 as [L I O D].
  pose proof (CompositeBitmap_painted (cv_w c1) (cv_h c1) rgba (bmWidth b) (bmHeight b) (bmX b) (bmY b)
    Hlen Hr Hb (cv_fb c1) L) as [PL PP PS].
  destruct (CompositeBitmap _ _ _ _ _ _ _ _) as [fb ch]. cbn [fst snd] in *.
  eexists _, _. split; [done|]. split_and!; cbn [cv_fb cv_w cv_h]; try done.
  - split; cbn [cv_fb cv_w cv_h]; [done| | |done].
    + intros x y Hx Hy. rewrite PP by done. unfold in_rect. case_match; [done|]. by apply I.
    + intros x y Hxy. unfold in_rect.
      destruct ((_ <=? _) && _ && _ && _) eqn:E; [|by apply O].
      rewrite !andb_true_iff, !Nat.leb_le, !Nat.ltb_lt in E. lia.
  - intros [-> E2]%orb_false_iff. specialize (PS eq_refl). injection PS as ->. rewrite (Hg E2). by destruct c.
Qed.

Lemma blank_shows : shows empty_canvas blank_screen.
Proof. split; cbn; [done|lia|done|done]. Qed.
