(* ===== verification/PiiGate.v ===== *)
(** * The PII gate of the RDP stream: src/gateway/rdp/piigate.go

    [PIIGate] holds the bytes a desktop server sends until the screen they
    produce was analysed.  [Ingest] frames the bytes into PDUs and queues them;
    the analysis loop takes the queue, composites PDUs into batches that never
    repaint a row twice, has every batch's dirty rows analysed and forwards or
    drops the batch.

    The queue, its accounting, the tail and the two flags are behind the gate's
    mutex; the canvas and the bands belong to the loop.  A step of the model is
    a critical section, a call of a callback or a channel operation; the
    canvas is composited between two of them.  The verdict of an analysis and
    the outcome of a [Forward] come with the step. *)

From S2P Require Import Prelude Rle RdpBands PiiCanvas.

#[local] Open Scope Z_scope.

(** The WASM parser of the RDP stream.  [GetPduSize] is an error, zero for bytes
    it cannot frame yet, or a size; [Parse] is an error or the bitmaps with the
    data [GetBitmapData] returns for them. *)
Class RdpParser := {
  pstate : Type;
  parser_init : pstate;
  GetPduSize : pstate -> bytes -> pstate * option nat;
  Parse : pstate -> bytes -> pstate * option (list (BitmapRect * bytes));
}.

Definition maxHeldBytes : Z := Z.shiftl 32 20.
Definition forwardChunkBytes : Z := Z.shiftl 256 10.
Definition maxUnframeable : Z := 128 * 1024.

Record gatePDU := { gd_data : bytes; gd_patches : list gatePatch }.

Definition blen (l : bytes) : Z := Z.of_nat (length l).

(** [gatePDU.size] *)
Definition pdu_size (p : gatePDU) : Z :=
  foldl (fun n patch => n + blen (gp_data patch)) (blen (gd_data p)) (gd_patches p).

Section Gate.
Context `{RdpParser}.

(** ** Ingest *)

(** The fields behind the mutex, with the parser and the notification. *)
Record gate := {
  gt_queue : list gatePDU;
  gt_queuedBytes : Z;
  gt_tail : bytes;
  gt_killed : bool;
  gt_closed : bool;
  gt_notify : bool;
  gt_parser : pstate;
}.

Definition new_gate : gate :=
  {| gt_queue := []; gt_queuedBytes := 0; gt_tail := []; gt_killed := false; gt_closed := false;
     gt_notify := false; gt_parser := parser_init |}.

Definition with_parser (g : gate) (s : pstate) : gate :=
  {| gt_queue := gt_queue g; gt_queuedBytes := gt_queuedBytes g; gt_tail := gt_tail g;
     gt_killed := gt_killed g; gt_closed := gt_closed g; gt_notify := gt_notify g; gt_parser := s |}.
Definition with_tail (g : gate) (t : bytes) : gate :=
  {| gt_queue := gt_queue g; gt_queuedBytes := gt_queuedBytes g; gt_tail := t;
     gt_killed := gt_killed g; gt_closed := gt_closed g; gt_notify := gt_notify g;
     gt_parser := gt_parser g |}.

Definition enqueueLocked (g : gate) (pdu : gatePDU) : gate :=
  {| gt_queue := gt_queue g ++ [pdu]; gt_queuedBytes := gt_queuedBytes g + pdu_size pdu;
     gt_tail := gt_tail g; gt_killed := gt_killed g; gt_closed := gt_closed g;
     gt_notify := gt_notify g; gt_parser := gt_parser g |}.

Definition signal (g : gate) : gate :=
  {| gt_queue := gt_queue g; gt_queuedBytes := gt_queuedBytes g; gt_tail := gt_tail g;
     gt_killed := gt_killed g; gt_closed := gt_closed g; gt_notify := true; gt_parser := gt_parser g |}.

(** The queue and the tail go; [killed] or [closed] is set. *)
Definition drop_held (g : gate) (killed closed : bool) : gate :=
  {| gt_queue := []; gt_queuedBytes := 0; gt_tail := []; gt_killed := killed; gt_closed := closed;
     gt_notify := gt_notify g; gt_parser := gt_parser g |}.

(** The bitmaps that carry pixels. *)
Definition to_patch (x : BitmapRect * bytes) : option gatePatch :=
  if (length x.2 =? 0)%nat || (bmWidth x.1 =? 0)%nat || (bmHeight x.1 =? 0)%nat then None
  else Some {| gp_bmp := x.1; gp_data := x.2 |}.

Definition framePDULocked (g : gate) (pdu : bytes) : gate * gatePDU :=
  let '(s, r) := Parse (gt_parser g) pdu in
  (with_parser g s,
   {| gd_data := pdu;
      gd_patches := match r with None => [] | Some bitmaps => omap to_patch bitmaps end |}).

(** [for len(g.tail) > 0]: every round but the last one takes a byte. *)
Fixpoint frame_loop (fuel : nat) (g : gate) : gate :=
  match fuel with
  | O => g
  | S fuel =>
      if (length (gt_tail g) =? 0)%nat then g
      else
        let '(s, r) := GetPduSize (gt_parser g) (gt_tail g) in
        let g := with_parser g s in
        let open_up := with_tail (enqueueLocked g {| gd_data := gt_tail g; gd_patches := [] |}) [] in
        match r with
        | None => open_up
        | Some O => if maxUnframeable <? blen (gt_tail g) then open_up else g
        | Some n =>
            if (length (gt_tail g) <? n)%nat then g
            else
              let '(g, pdu) := framePDULocked g (take n (gt_tail g)) in
              frame_loop fuel (with_tail (enqueueLocked g pdu) (drop n (gt_tail g)))
        end
  end.

(** The gate and, on overflow, the bytes [OnOverload] is told of. *)
Definition Ingest (g : gate) (data : bytes) : gate * option Z :=
  if gt_closed g || gt_killed g then (g, None)
  else
    let held := gt_queuedBytes g + blen (gt_tail g) + blen data in
    if maxHeldBytes <? held then (drop_held g true (gt_closed g), Some held)
    else
      let g := with_tail g (gt_tail g ++ data) in
      let g := frame_loop (length (gt_tail g)) g in
      (if (length (gt_queue g) =? 0)%nat then g else signal g, None).

Definition takePending (g : gate) : option (gate * list gatePDU) :=
  if gt_closed g || gt_killed g || (length (gt_queue g) =? 0)%nat then None
  else
    Some ({| gt_queue := []; gt_queuedBytes := 0; gt_tail := gt_tail g; gt_killed := gt_killed g;
             gt_closed := gt_closed g; gt_notify := gt_notify g; gt_parser := gt_parser g |},
          gt_queue g).

(** ** Batches *)

Definition pduConflicts (d : DirtyBands) (p : gatePDU) : bool :=
  existsb (fun x => Intersects d (Z.of_nat (bmY (gp_bmp x))) (Z.of_nat (bmHeight (gp_bmp x))))
    (gd_patches p).

(** [compositePDU]; [None] is a panic. *)
Fixpoint composite_patches (c : shadowCanvas) (d : DirtyBands) (l : list gatePatch)
  : option (shadowCanvas * DirtyBands) :=
  match l with
  | [] => Some (c, d)
  | p :: r =>
      '(c, changed) ← composite c p;
      composite_patches c
        (if changed : bool
         then AddRect d (Z.of_nat (bmY (gp_bmp p))) (Z.of_nat (bmHeight (gp_bmp p))) else d) r
  end.

Definition compositePDU (c : shadowCanvas) (d : DirtyBands) (p : gatePDU)
  : option (shadowCanvas * DirtyBands) := composite_patches c d (gd_patches p).

(** The rest of a batch behind its first PDU: up to the first conflict. *)
Fixpoint fill_batch (c : shadowCanvas) (d : DirtyBands) (pdus : list gatePDU)
  : option (shadowCanvas * DirtyBands * list gatePDU * list gatePDU) :=
  match pdus with
  | [] => Some (c, d, [], [])
  | p :: r =>
      if pduConflicts d p then Some (c, d, [], pdus)
      else
        '(c, d) ← compositePDU c d p;
        '(c, d, batch, rest) ← fill_batch c d r;
        Some (c, d, p :: batch, rest)
  end.

Definition next_batch (c : shadowCanvas) (d : DirtyBands) (p : gatePDU) (r : list gatePDU)
  : option (shadowCanvas * DirtyBands * list gatePDU * list gatePDU) :=
  '(c, d) ← compositePDU c d p;
  '(c, d, batch, rest) ← fill_batch c d r;
  Some (c, d, p :: batch, rest).

Definition clamp_band (h : Z) (b : YBand) : option YBand :=
  if h <=? Y0 b then None else Some {| Y0 := Y0 b; Y1 := if h <? Y1 b then h else Y1 b |}.

Definition takeBands (c : shadowCanvas) (d : DirtyBands) : DirtyBands * list YBand :=
  let '(d, bands) := TakeAndReset d in (d, omap (clamp_band (Z.of_nat (cv_h c))) bands).

(** [forwardBatch]: the chunks it hands to [Forward]. *)
Fixpoint chunk_loop (chunk : bytes) (batch : list gatePDU) : list bytes :=
  match batch with
  | [] => if (length chunk =? 0)%nat then [] else [chunk]
  | p :: r =>
      if (0 <? blen chunk) && (forwardChunkBytes <? blen chunk + blen (gd_data p))
      then chunk :: chunk_loop (gd_data p) r
      else chunk_loop (chunk ++ gd_data p) r
  end.

Definition forwardBatch (batch : list gatePDU) : list bytes := chunk_loop [] batch.

(** ** The goroutines *)

(** What the analyser says: an error, no entity, or some. *)
Inductive verdict := Failed | Clean | Found.

(** Where the analysis loop stands. *)
Inductive lpc :=
  | LWait                                               (* in the select *)
  | LTake                                               (* before [takePending] *)
  | LBatch (pdus : list gatePDU)                        (* [processPDUs], these left *)
  | LAnalyze (batch : list gatePDU) (bands : list YBand) (rest : list gatePDU)
  | LForward (chunks : list bytes) (rest : list gatePDU)
  | LStop                                               (* before reading [closed] *)
  | LExit.

(** Where [Close] stands. *)
Inductive cpc := CIdle | CCancel | CSignal | CWait | CDone.

Inductive call := OnDetection | OnOverload (dropped : Z).

(** A batch released to the client: the canvas and the bands that were analysed
    and what came out; no bands, no analysis. *)
Record cleared := {
  cl_batch : list gatePDU;
  cl_canvas : shadowCanvas;
  cl_bands : list YBand;
  cl_verdict : option verdict;
}.

(** The gate with its goroutines.  [w_in] is what [Ingest] was given, [w_out]
    what [Forward] took, [w_calls] the terminal callbacks. *)
Record world := {
  w_gate : gate;
  w_canvas : shadowCanvas;
  w_dirty : DirtyBands;
  w_loop : lpc;
  w_closer : cpc;
  w_cancelled : bool;
  w_parserOpen : bool;
  w_in : bytes;
  w_out : list bytes;
  w_cleared : list cleared;
  w_calls : list call;
}.

Definition new_world (pad : Z) : world :=
  {| w_gate := new_gate; w_canvas := empty_canvas; w_dirty := NewDirtyBands maxCanvasDim pad;
     w_loop := LWait; w_closer := CIdle; w_cancelled := false; w_parserOpen := true; w_in := [];
     w_out := []; w_cleared := []; w_calls := [] |}.

Definition at_loop (w : world) (g : gate) (l : lpc) : world :=
  {| w_gate := g; w_canvas := w_canvas w; w_dirty := w_dirty w; w_loop := l; w_closer := w_closer w;
     w_cancelled := w_cancelled w; w_parserOpen := w_parserOpen w; w_in := w_in w; w_out := w_out w;
     w_cleared := w_cleared w; w_calls := w_calls w |}.

Definition composed (w : world) (c : shadowCanvas) (d : DirtyBands) : world :=
  {| w_gate := w_gate w; w_canvas := c; w_dirty := d; w_loop := w_loop w; w_closer := w_closer w;
     w_cancelled := w_cancelled w; w_parserOpen := w_parserOpen w; w_in := w_in w; w_out := w_out w;
     w_cleared := w_cleared w; w_calls := w_calls w |}.

(** The batch goes to [forwardBatch]. *)
Definition clear_batch (w : world) (batch : list gatePDU) (bands : list YBand) (v : option verdict)
  (rest : list gatePDU) : world :=
  {| w_gate := w_gate w; w_canvas := w_canvas w; w_dirty := w_dirty w;
     w_loop := LForward (forwardBatch batch) rest; w_closer := w_closer w;
     w_cancelled := w_cancelled w; w_parserOpen := w_parserOpen w; w_in := w_in w; w_out := w_out w;
     w_cleared := w_cleared w ++ [{| cl_batch := batch; cl_canvas := w_canvas w; cl_bands := bands;
                                     cl_verdict := v |}];
     w_calls := w_calls w |}.

Definition sent (w : world) (chunk : bytes) (l : lpc) : world :=
  {| w_gate := w_gate w; w_canvas := w_canvas w; w_dirty := w_dirty w; w_loop := l;
     w_closer := w_closer w; w_cancelled := w_cancelled w; w_parserOpen := w_parserOpen w;
     w_in := w_in w; w_out := w_out w ++ [chunk]; w_cleared := w_cleared w; w_calls := w_calls w |}.

Definition called (w : world) (c : call) : world :=
  {| w_gate := w_gate w; w_canvas := w_canvas w; w_dirty := w_dirty w; w_loop := w_loop w;
     w_closer := w_closer w; w_cancelled := w_cancelled w; w_parserOpen := w_parserOpen w;
     w_in := w_in w; w_out := w_out w; w_cleared := w_cleared w; w_calls := w_calls w ++ [c] |}.

Definition is_down (g : gate) : bool := gt_killed g || gt_closed g.

(** [analyzeAndForward] behind the analysis. *)
Definition judged (w : world) (v : verdict) (batch : list gatePDU) (bands : list YBand)
  (rest : list gatePDU) : world :=
  match v with
  | Failed =>
      if w_cancelled w then at_loop w (w_gate w) LExit
      else clear_batch w batch bands (Some Failed) rest
  | Clean => clear_batch w batch bands (Some Clean) rest
  | Found =>
      let g := w_gate w in
      let w' := at_loop w (drop_held g true (gt_closed g)) LExit in
      if is_down g then w' else called w' OnDetection
  end.

(** The choices of a step of the loop: the case of the select, the verdict, and
    whether [Forward] succeeds. *)
Record luck := { lk_done : bool; lk_verdict : verdict; lk_sent : bool }.

Definition loop_step (k : luck) (w : world) : option world :=
  let g := w_gate w in
  match w_loop w with
  | LWait =>
      if lk_done k then (if w_cancelled w then Some (at_loop w g LExit) else None)
      else if gt_notify g
      then Some (at_loop w
             {| gt_queue := gt_queue g; gt_queuedBytes := gt_queuedBytes g; gt_tail := gt_tail g;
                gt_killed := gt_killed g; gt_closed := gt_closed g; gt_notify := false;
                gt_parser := gt_parser g |} LTake)
      else None
  | LTake =>
      match takePending g with
      | None => Some (at_loop w g LStop)
      | Some (g, pdus) => Some (at_loop w g (LBatch pdus))
      end
  | LBatch [] => Some (at_loop w g LTake)
  | LBatch (p :: r) =>
      '(c, d, batch, rest) ← next_batch (w_canvas w) (w_dirty w) p r;
      let '(d, bands) := takeBands c d in
      let w := composed w c d in
      Some (match bands with
            | [] => clear_batch w batch [] None rest
            | _ :: _ => at_loop w g (LAnalyze batch bands rest)
            end)
  | LAnalyze batch bands rest => Some (judged w (lk_verdict k) batch bands rest)
  | LForward [] rest => Some (at_loop w g (LBatch rest))
  | LForward (chunk :: chunks) rest =>
      if lk_sent k then Some (sent w chunk (LForward chunks rest))
      else Some (at_loop w
             {| gt_queue := gt_queue g; gt_queuedBytes := gt_queuedBytes g; gt_tail := gt_tail g;
                gt_killed := gt_killed g; gt_closed := true; gt_notify := gt_notify g;
                gt_parser := gt_parser g |} LExit)
  | LStop => Some (at_loop w g (if gt_closed g then LExit else LWait))
  | LExit => None
  end.

Definition at_closer (w : world) (g : gate) (c : cpc) (cancelled parserOpen : bool) : world :=
  {| w_gate := g; w_canvas := w_canvas w; w_dirty := w_dirty w; w_loop := w_loop w; w_closer := c;
     w_cancelled := cancelled; w_parserOpen := parserOpen; w_in := w_in w; w_out := w_out w;
     w_cleared := w_cleared w; w_calls := w_calls w |}.

(** [Close], one operation after the other. *)
Definition close_step (w : world) : option world :=
  let g := w_gate w in
  match w_closer w with
  | CIdle =>
      if gt_closed g then Some (at_closer w g CDone (w_cancelled w) (w_parserOpen w))
      else Some (at_closer w (drop_held g (gt_killed g) true) CCancel (w_cancelled w) (w_parserOpen w))
  | CCancel => Some (at_closer w g CSignal true (w_parserOpen w))
  | CSignal => Some (at_closer w (signal g) CWait (w_cancelled w) (w_parserOpen w))
  | CWait =>
      match w_loop w with
      | LExit => Some (at_closer w g CDone (w_cancelled w) false)
      | _ => None
      end
  | CDone => None
  end.

Definition ingest_step (w : world) (data : bytes) : world :=
  let '(g, over) := Ingest (w_gate w) data in
  let w := {| w_gate := g; w_canvas := w_canvas w; w_dirty := w_dirty w; w_loop := w_loop w;
              w_closer := w_closer w; w_cancelled := w_cancelled w; w_parserOpen := w_parserOpen w;
              w_in := w_in w ++ data; w_out := w_out w; w_cleared := w_cleared w;
              w_calls := w_calls w |} in
  match over with None => w | Some n => called w (OnOverload n) end.

(** The session's reader, the loop, the session's [Close], and the end of the
    session's context. *)
Inductive move := MIngest (data : bytes) | MLoop (k : luck) | MClose | MCancel.

Definition move_step (m : move) (w : world) : option world :=
  match m with
  | MIngest data => Some (ingest_step w data)
  | MLoop k => loop_step k w
  | MClose => close_step w
  | MCancel => Some (at_closer w (w_gate w) (w_closer w) true (w_parserOpen w))
  end.

Inductive reachable (pad : Z) : world -> Prop :=
  | reach_new : reachable pad (new_world pad)
  | reach_step w m w' : reachable pad w -> move_step m w = Some w' -> reachable pad w'.
End Gate.
