(* ===== verification/PiiGuarantee.v ===== *)
(** * The guarantee of the PII gate

    First the batches: every screen state is analysed.  Then the invariant of
    the gate with its goroutines, and last the gate's documented promise, as
    theorems on every state it can reach, with the places where the code
    departs from its documentation.

    A batch is composited onto the canvas and its dirty rows are analysed
    before it is forwarded.  The client draws it PDU by PDU, so it also shows
    states in between; the lemmas here say that no row, and no window of rows
    as tall as twice the padding, is ever between: it is as it was before the
    batch or as it is after it. *)

From S2P Require Import Prelude Rle RdpBands PiiCanvas PiiGate.

#[local] Open Scope Z_scope.

(** ** Screens and PDUs *)

Definition draw_pdu (S : screen) (p : gatePDU) : screen := foldl draw_patch S (gd_patches p).

Definition pdu_ok (p : gatePDU) : Prop := Forall patch_ok (gd_patches p).

Definition row (r : nat) : Z := Z.of_nat r.
Definition touches (p : gatePatch) (r : nat) : Prop :=
  row (bmY (gp_bmp p)) <= row r < row (bmY (gp_bmp p)) + row (bmHeight (gp_bmp p))
  /\ row r < maxCanvasDim.

#[export] Instance touches_dec p r : Decision (touches p r).
Proof. unfold touches. apply _. Defined.

Lemma draw_patch_outside S p x r : ~ touches p r -> draw_patch S p x r = S x r.
Proof.
  unfold touches, row. intros Hr. unfold draw_patch. destruct (oversized _) eqn:Eo; [done|].
  unfold oversized in Eo. apply orb_false_iff in Eo as [_ Eo%Z.ltb_ge].
  destruct (decode_patch p); try done. unfold in_rect. destruct (_ && _ && _ && _) eqn:E; [|done].
  rewrite !andb_true_iff, !Nat.leb_le, !Nat.ltb_lt in E. lia.
Qed.

Lemma draw_patch_oversized S p : oversized (gp_bmp p) = true -> draw_patch S p = S.
Proof. unfold draw_patch. by intros ->. Qed.

Lemma shows_unique c S T : shows c S -> shows c T -> forall x y, S x y = T x y.
Proof.
  intros [_ I O _] [_ I' O' _] x y. destruct (decide (x < cv_w c /\ y < cv_h c)%nat) as [[Hx Hy]|Hn].
  - by rewrite <- I, <- I'.
  - rewrite O, O' by lia. done.
Qed.

(** ** The dirty rows *)

(** [d] covers every row that differs between [S0] and [S], with the padding. *)
Record tracks (pad : Z) (d : DirtyBands) (S0 S : screen) : Prop := {
  tk_height : db_canvasHeight d = maxCanvasDim;
  tk_pad : db_pad d = pad;
  tk_sep : separated (-1) maxCanvasDim (db_bands d);
  tk_rows : forall x r, S0 x r <> S x r -> forall r',
    row r - pad <= r' <= row r + pad -> 0 <= r' < maxCanvasDim -> covers (db_bands d) r';
  tk_inside : forall x r, S0 x r <> S x r -> row r < maxCanvasDim;
}.

Section Batch.
Variable pad : Z.
Hypothesis Hpad : 0 <= pad.

Lemma tracks_composite c d S0 S p : shows c S -> tracks pad d S0 S -> patch_ok p ->
  exists c' d', composite_patches c d [p] = Some (c', d')
  /\ shows c' (draw_patch S p) /\ tracks pad d' S0 (draw_patch S p)
  /\ (forall r, covers (db_bands d) r -> covers (db_bands d') r)
  /\ (cv_w c <= cv_w c' /\ cv_h c <= cv_h c')%nat.
Proof.
  intros Hs Ht Hp. destruct (composite_shows c S p Hs Hp) as (c' & ch & Ec & Hs' & Hsame & Hw & Hh & Hin).
  cbn [composite_patches]. rewrite Ec. cbn. destruct ch.
  - destruct Ht as [T1 T2 T3 T4 T5].
    destruct (AddRect_spec d (row (bmY (gp_bmp p))) (row (bmHeight (gp_bmp p)))) as (A1 & A2 & A3 & A4);
      [by rewrite T1|]. rewrite T1, T2 in *. destruct (Hin eq_refl) as [Hov _].
    assert (row (bmY (gp_bmp p)) + row (bmHeight (gp_bmp p)) <= maxCanvasDim) as Hbot.
    { unfold oversized in Hov. apply orb_false_iff in Hov as [_ Hov%Z.ltb_ge]. unfold row. lia. }
    assert (forall x r, S0 x r <> draw_patch S p x r -> touches p r \/ S0 x r <> S x r) as Hcase.
    { intros x r Hne. destruct (decide (touches p r)) as [Ht|Ht].
      - by left.
      - right. by rewrite draw_patch_outside in Hne. }
    eexists _, _. split; [done|]. split_and!; [done| |intros r Hr; apply A4; by left|done|done].
    split; [done|done|done| |].
    + intros x r Hne r' Hr' Hc. apply A4. destruct (Hcase x r Hne) as [Ht|Hold].
      * right. unfold touches in Ht. destruct Hp as (_ & _ & Hh1). unfold row in *. lia.
      * left. by apply (T4 x r Hold).
    + intros x r Hne. destruct (Hcase x r Hne) as [Ht|Hold]; [unfold touches in Ht; lia|by apply (T5 x)].
  - specialize (Hsame eq_refl). subst c'. eexists _, _. split; [done|]. split_and!; try done.
    pose proof (shows_unique c _ _ Hs Hs') as Heq. destruct Ht as [T1 T2 T3 T4 T5].
    split; [done|done|done| |]; intros x r; rewrite <- Heq; [apply T4|apply T5].
Qed.

Lemma composite_patches_cons c d p l :
  composite_patches c d (p :: l) = ('(c, d) ← composite_patches c d [p]; composite_patches c d l).
Proof. cbn. by destruct (composite c p) as [[]|]. Qed.

Lemma tracks_patches l c d S0 S : shows c S -> tracks pad d S0 S -> Forall patch_ok l ->
  exists c' d', composite_patches c d l = Some (c', d')
  /\ shows c' (foldl draw_patch S l) /\ tracks pad d' S0 (foldl draw_patch S l)
  /\ (forall r, covers (db_bands d) r -> covers (db_bands d') r)
  /\ (cv_w c <= cv_w c' /\ cv_h c <= cv_h c')%nat.
Proof.
  revert c d S. induction l as [|p l IH]; intros c d S Hs Ht Hok.
  { by exists c, d. }
  apply Forall_cons in Hok as [Hp Hl]. rewrite composite_patches_cons. cbn [foldl].
  destruct (tracks_composite c d S0 S p Hs Ht Hp) as (c1 & d1 & -> & Hs1 & Ht1 & Hm1 & Hw1 & Hh1). cbn.
  destruct (IH c1 d1 _ Hs1 Ht1 Hl) as (c2 & d2 & -> & Hs2 & Ht2 & Hm2 & Hw2 & Hh2).
  exists c2, d2. split_and!; [done|done|done|auto|lia|lia].
Qed.

(** A PDU changes only rows its bitmaps touch. *)
Lemma draw_pdu_outside S p x r : (forall q, q ∈ gd_patches p -> ~ touches q r) -> draw_pdu S p x r = S x r.
Proof.
  unfold draw_pdu. revert S. induction (gd_patches p) as [|q l IH]; intros S Hr; cbn [foldl]; [done|].
  rewrite IH by (intros q' Hq'; apply Hr; set_solver). apply draw_patch_outside, Hr. set_solver.
Qed.

(** A PDU without a conflict stays away from the rows changed so far. *)
Lemma no_conflict_apart d S0 S p x r x' r' :
  tracks pad d S0 S -> pduConflicts d p = false ->
  S0 x r <> S x r -> S x' r' <> draw_pdu S p x' r' -> Z.abs (row r - row r') <= 2 * pad -> False.
Proof.
  intros [T1 T2 T3 T4 T5] Hc Hd Hp Hr.
  assert (exists q, q ∈ gd_patches p /\ touches q r') as (q & Hq & Ht).
  { destruct (decide (Exists (fun q => touches q r') (gd_patches p))) as [He|He].
    - by apply Exists_exists in He.
    - exfalso. apply Hp. symmetry. apply draw_pdu_outside. intros q Hq Ht. apply He, Exists_exists. eauto. }
  unfold pduConflicts in Hc. apply Bool.not_true_iff_false in Hc. apply Hc, existsb_exists.
  exists q. split; [by apply list_elem_of_In|]. apply Intersects_spec; [by rewrite T1|by rewrite T2|].
  rewrite T2. unfold touches in Ht. fold (row (bmY (gp_bmp q))) (row (bmHeight (gp_bmp q))).
  split; [lia|]. pose proof (T5 x r Hd) as Hin.
  set (m := if decide (row r' <= row r) then Z.max (row r') (row r - pad) else Z.min (row r') (row r + pad)).
  exists m. unfold m. unfold row in *. case_decide; (split; [lia|]); apply (T4 x r Hd); unfold row; lia.
Qed.

(** ** Windows *)

(** The same pixels in the rows from [y] to [y + 2 * pad]. *)
Definition same_window (y : nat) (S T : screen) : Prop :=
  forall x r, row y <= row r <= row y + 2 * pad -> S x r = T x r.

Lemma same_window_trans y S T U : same_window y S T -> same_window y T U -> same_window y S U.
Proof. intros H1 H2 x r Hr. by rewrite H1, H2. Qed.

(** Two screens of a canvas agree on a window or differ somewhere in it. *)
Lemma window_cases y (S T : screen) w : (forall x r, (w <= x)%nat -> S x r = T x r) ->
  same_window y S T
  \/ exists x r, row y <= row r <= row y + 2 * pad /\ S x r <> T x r.
Proof.
  intros Hout.
  assert (Exists (fun r => Exists (fun x => S x r <> T x r) (seq 0 w)) (seq y (Z.to_nat (2 * pad + 1)))
    \/ ~ Exists (fun r => Exists (fun x => S x r <> T x r) (seq 0 w)) (seq y (Z.to_nat (2 * pad + 1))))
    as [He|He] by (destruct (decide (Exists (fun r => Exists (fun x => S x r <> T x r) (seq 0 w))
      (seq y (Z.to_nat (2 * pad + 1))))); auto).
  - right. apply Exists_exists in He as (r & Hr%elem_of_seq & (x & _ & Hx)%Exists_exists).
    exists x, r. split; [unfold row; lia|done].
  - left. intros x r Hr. destruct (decide (S x r = T x r)) as [|Hne]; [done|]. exfalso. apply He.
    apply Exists_exists. exists r. split; [apply elem_of_seq; unfold row in Hr; lia|].
    apply Exists_exists. exists x. split; [|done]. apply elem_of_seq.
    destruct (decide (w <= x)%nat) as [Hw|]; [by rewrite Hout in Hne|lia].
Qed.

(** The state after [k] PDUs of the batch is, in every window, the state before
    the batch or the state after it. *)
Definition steady (S0 : screen) (batch : list gatePDU) : Prop :=
  forall k y, let Sk := foldl draw_pdu S0 (take k batch) in
  same_window y Sk S0 \/ same_window y Sk (foldl draw_pdu S0 batch).

Lemma steady_nil S0 : steady S0 [].
Proof. intros k y. left. by rewrite take_nil. Qed.

Lemma steady_snoc S0 batch p d c0 c :
  shows c0 S0 -> shows c (foldl draw_pdu S0 batch) -> tracks pad d S0 (foldl draw_pdu S0 batch) ->
  pduConflicts d p = false -> steady S0 batch -> steady S0 (batch ++ [p]).
Proof.
  intros Hs0 Hs Ht Hc Hst k y. set (S := foldl draw_pdu S0 batch) in *.
  rewrite foldl_snoc. fold S. destruct (decide (k <= length batch)%nat) as [Hk|Hk].
  2: { right. rewrite take_ge by (rewrite length_app; cbn; lia). by rewrite foldl_snoc. }
  rewrite take_app_le by done. destruct (Hst k y) as [H0|Hn]; [by left|]. fold S in Hn.
  destruct (window_cases y S0 S (Nat.max (cv_w c0) (cv_w c))) as [Hsame|(x & r & Hr & Hne)].
  { intros x r Hx. rewrite (sh_out _ _ Hs0), (sh_out _ _ Hs) by lia. done. }
  - left. eapply same_window_trans; [exact Hn|]. intros x r Hr. symmetry. by apply Hsame.
  - right. eapply same_window_trans; [exact Hn|]. intros x' r' Hr'.
    destruct (decide (S x' r' = draw_pdu S p x' r')) as [|Hne']; [done|]. exfalso.
    eapply (no_conflict_apart d S0 S p x r x' r'); [done|done|done|done|lia].
Qed.

(** ** Filling a batch *)

Lemma fill_batch_spec pdus c0 S0 : shows c0 S0 -> forall done c d,
  let S := foldl draw_pdu S0 done in
  shows c S -> tracks pad d S0 S -> steady S0 done -> Forall pdu_ok pdus ->
  exists c' d' batch rest, fill_batch c d pdus = Some (c', d', batch, rest)
  /\ pdus = batch ++ rest /\ (cv_w c <= cv_w c' /\ cv_h c <= cv_h c')%nat
  /\ shows c' (foldl draw_pdu S0 (done ++ batch)) /\ tracks pad d' S0 (foldl draw_pdu S0 (done ++ batch))
  /\ steady S0 (done ++ batch).
Proof.
  intros Hs0. induction pdus as [|p r IH]; intros l c d S Hs Ht Hst Hok; cbn [fill_batch].
  { exists c, d, [], []. rewrite (app_nil_r l). by split_and!. }
  destruct (pduConflicts d p) eqn:Ec.
  { exists c, d, [], (p :: r). rewrite (app_nil_r l). by split_and!. }
  apply Forall_cons in Hok as [Hp Hr]. unfold compositePDU.
  destruct (tracks_patches (gd_patches p) c d S0 S Hs Ht Hp) as (c1 & d1 & -> & Hs1 & Ht1 & _ & Hw1). cbn.
  destruct (IH (l ++ [p]) c1 d1) as (c2 & d2 & batch & rest & -> & -> & Hw2 & Hs2 & Ht2 & Hst2);
    [by rewrite foldl_snoc|by rewrite foldl_snoc|by eapply steady_snoc|done|].
  exists c2, d2, (p :: batch), rest. rewrite <- app_assoc in *. split_and!; try done; lia.
Qed.

Lemma next_batch_fill c d p r : db_bands d = [] -> next_batch c d p r = fill_batch c d (p :: r).
Proof.
  intros Hd. cbn [fill_batch]. replace (pduConflicts d p) with false; [done|].
  symmetry. apply Bool.not_true_iff_false. unfold pduConflicts. rewrite existsb_exists.
  intros (q & _ & Hq). unfold Intersects in Hq. rewrite Hd in Hq. destruct (_ <=? 0); [done|].
  by destruct (extent _ _ _).
Qed.

Lemma next_batch_nonempty c d p r c' d' batch rest :
  next_batch c d p r = Some (c', d', batch, rest) -> exists b, batch = p :: b.
Proof.
  unfold next_batch. destruct (compositePDU c d p) as [[c1 d1]|]; [|done]. cbn.
  destruct (fill_batch c1 d1 r) as [[[[? ?] b] ?]|]; [|done]. cbn. intros [= <- <- <- <-]. by exists b.
Qed.

(** ** The bands that are analysed *)

Lemma clamp_bands_covers h l r : covers (omap (clamp_band h) l) r <-> covers l r /\ r < h.
Proof.
  unfold covers. induction l as [|b l IH]; cbn; [rewrite !Exists_nil; tauto|].
  unfold clamp_band at 1. destruct (Z.leb_spec h (Y0 b)).
  - cbn. rewrite IH, Exists_cons. unfold in_band. split; [tauto|]. intros [[?|?] ?]; [lia|tauto].
  - cbn. rewrite !Exists_cons, IH. unfold in_band. cbn.
    destruct (Z.ltb_spec h (Y1 b)); split; intros; intuition lia.
Qed.

(** What an analysis of a batch sees: the canvas shows the screen after the
    batch; the bands hold every row the batch changed with all rows of the
    canvas within the padding of it; and the states in between are, window by
    window, the one before or the one after. *)
Record inspected (S0 : screen) (batch : list gatePDU) (c : shadowCanvas) (bands : list YBand) : Prop := {
  in_shows : shows c (foldl draw_pdu S0 batch);
  in_bands : forall x r, S0 x r <> foldl draw_pdu S0 batch x r -> forall r',
    row r - pad <= row r' <= row r + pad -> (r' < cv_h c)%nat -> covers bands (row r');
  in_steady : steady S0 batch;
}.

Lemma next_batch_inspected c d p r S0 :
  shows c S0 -> db_bands d = [] -> db_canvasHeight d = maxCanvasDim -> db_pad d = pad ->
  Forall pdu_ok (p :: r) ->
  exists c' d' batch rest, next_batch c d p r = Some (c', d', batch, rest)
  /\ p :: r = batch ++ rest /\ batch <> []
  /\ let '(d'', bands) := takeBands c' d' in
     inspected S0 batch c' bands
     /\ db_bands d'' = [] /\ db_canvasHeight d'' = maxCanvasDim /\ db_pad d'' = pad
     /\ (bands = [] -> forall x y, S0 x y = foldl draw_pdu S0 batch x y).
Proof.
  intros Hs Hd Hh Hp Hok. rewrite (next_batch_fill c d p r Hd).
  assert (tracks pad d S0 S0) as Ht by (split; [done|done|by rewrite Hd|done|done]).
  destruct (fill_batch_spec (p :: r) c S0 Hs [] c d Hs Ht (steady_nil S0) Hok)
    as (c' & d' & batch & rest & E & Ep & Hw & Hs' & [T1 T2 T3 T4 T5] & Hst). cbn [app] in *.
  exists c', d', batch, rest. split; [done|]. split; [done|].
  split; [rewrite <- (next_batch_fill c d p r Hd) in E; by destruct (next_batch_nonempty _ _ _ _ _ _ _ _ E) as [? ->]|].
  unfold takeBands, TakeAndReset.
  assert (forall x r0, S0 x r0 <> foldl draw_pdu S0 batch x r0 -> forall r',
    row r0 - pad <= row r' <= row r0 + pad -> (r' < cv_h c')%nat ->
    covers (omap (clamp_band (Z.of_nat (cv_h c'))) (db_bands d')) (row r')) as Hb.
  { intros x r0 Hne r' Hr Hc. apply clamp_bands_covers. pose proof (sh_height _ _ Hs').
    split; [|unfold row; lia]. apply (T4 x r0 Hne); unfold row in *; lia. }
  split_and!; [by split|done|done|done|].
  intros En x y. destruct (decide (S0 x y = foldl draw_pdu S0 batch x y)) as [|Hne]; [done|]. exfalso.
  destruct (decide (x < cv_w c' /\ y < cv_h c')%nat) as [Hin|Hout].
  - specialize (Hb x y Hne y). rewrite En in Hb. apply (Exists_nil (in_band (row y))), Hb; lia.
  - apply Hne. rewrite (sh_out _ _ Hs), (sh_out _ _ Hs') by lia. done.
Qed.
End Batch.

(** ** The gate and its goroutines

    Over any interleaving of the session's reader, the analysis loop, [Close]
    and the end of the session's context, any verdicts and any failures of
    [Forward]. *)
(** The wire bytes of PDUs. *)
Definition wire (l : list gatePDU) : bytes := concat (map gd_data l).
Arguments wire : simpl never.

Lemma wire_app a b : wire (a ++ b) = wire a ++ wire b.
Proof. unfold wire. by rewrite map_app, concat_app. Qed.

Lemma wire_cons p l : wire (p :: l) = gd_data p ++ wire l.
Proof. done. Qed.

Definition screen_of (pdus : list gatePDU) : screen := foldl draw_pdu blank_screen pdus.
Arguments screen_of : simpl never.

(** ** Chunks *)

Lemma chunk_loop_concat chunk batch : concat (chunk_loop chunk batch) = chunk ++ wire batch.
Proof.
  revert chunk. induction batch as [|p r IH]; intros chunk; cbn [chunk_loop].
  - destruct chunk; cbn; by rewrite ?app_nil_r.
  - rewrite wire_cons. destruct (_ && _); cbn; rewrite IH; by rewrite <- ?app_assoc.
Qed.

Section Props.
Context `{RdpParser}.

(** ** Ingest *)

Lemma to_patch_ok x p : to_patch x = Some p -> patch_ok p.
Proof.
  unfold to_patch. destruct (_ || _) eqn:E; [done|]. intros [= <-].
  rewrite !orb_false_iff, !Nat.eqb_neq in E. unfold patch_ok. cbn. destruct x as [b d]. cbn in *.
  split_and!; [intros ->; cbn in *; lia|lia|lia].
Qed.

Lemma framed_ok g pdu : pdu_ok (framePDULocked g pdu).2.
Proof.
  unfold framePDULocked, pdu_ok. destruct (Parse _ _) as [s [l|]]; cbn; [|done].
  apply Forall_forall. intros p (x & _ & Hx)%list_elem_of_omap. by eapply to_patch_ok.
Qed.

Lemma frame_loop_keeps fuel g : let g' := frame_loop fuel g in
  wire (gt_queue g') ++ gt_tail g' = wire (gt_queue g) ++ gt_tail g
  /\ (Forall pdu_ok (gt_queue g) -> Forall pdu_ok (gt_queue g'))
  /\ gt_killed g' = gt_killed g /\ gt_closed g' = gt_closed g /\ gt_notify g' = gt_notify g.
Proof.
  revert g. induction fuel as [|fuel IH]; intros g; cbn [frame_loop]; [done|].
  destruct (_ =? 0)%nat; [done|]. destruct (GetPduSize _ _) as [s r]. set (g1 := with_parser g s).
  assert (forall t, wire (gt_queue g ++ [{| gd_data := t; gd_patches := [] |}]) ++ []
    = wire (gt_queue g) ++ t) as Hopen.
  { intros t. rewrite wire_app, !app_nil_r. unfold wire at 2. cbn. by rewrite app_nil_r. }
  assert (forall t, Forall pdu_ok (gt_queue g) ->
    Forall pdu_ok (gt_queue g ++ [{| gd_data := t; gd_patches := [] |}])) as Hok.
  { intros t Hq. apply Forall_app. split; [done|]. by repeat constructor. }
  destruct r as [[|n]|].
  - destruct (_ <? _); [|done]. cbn. split_and!; [apply Hopen|apply Hok|done..].
  - destruct (_ <? _)%nat; [done|]. pose proof (framed_ok g1 (take (S n) (gt_tail g1))) as Hf.
    unfold framePDULocked in *. destruct (Parse _ _) as [s' bm]. cbn [snd] in Hf.
    match goal with |- context [frame_loop fuel ?x] => destruct (IH x) as (H1 & H2 & H3) end.
    cbn [with_tail enqueueLocked with_parser gt_queue gt_tail gt_killed gt_closed gt_notify g1] in *.
    split_and!; try apply H3.
    + rewrite H1, wire_app, <- app_assoc. f_equal. unfold wire. cbn. rewrite app_nil_r. apply take_drop.
    + intros Hq. apply H2, Forall_app. split; [done|]. by apply Forall_singleton.
  - cbn. split_and!; [apply Hopen|apply Hok|done..].
Qed.

(** ** The invariant *)

Definition hand (l : lpc) : list gatePDU :=
  match l with
  | LBatch pdus => pdus
  | LAnalyze batch _ rest => batch ++ rest
  | LForward _ rest => rest
  | _ => []
  end.

Definition batches (l : list cleared) : list gatePDU := concat (map cl_batch l).
Arguments batches : simpl never.

(** A batch was released after an analysis that found nothing or failed, or
    changed nothing. *)
Definition released (pad : Z) (S0 : screen) (e : cleared) : Prop :=
  inspected pad S0 (cl_batch e) (cl_canvas e) (cl_bands e)
  /\ match cl_verdict e with
     | None => forall x y, S0 x y = foldl draw_pdu S0 (cl_batch e) x y
     | Some v => v <> Found
     end.

Definition all_released (pad : Z) (l : list cleared) : Prop :=
  forall pre e post, l = pre ++ e :: post -> released pad (screen_of (batches pre)) e.

Lemma all_released_snoc pad l e :
  all_released pad l -> released pad (screen_of (batches l)) e -> all_released pad (l ++ [e]).
Proof.
  intros Hl He pre e' post E. destruct (decide (post = [])) as [->|Hp].
  - apply app_inj_tail in E as [<- <-]. done.
  - destruct (exists_last Hp) as (post' & z & ->). rewrite app_comm_cons, app_assoc in E.
    apply app_inj_tail in E as [-> _]. by eapply Hl.
Qed.

Definition pad_of (pad : Z) : Z := db_pad (NewDirtyBands maxCanvasDim pad).

Lemma pad_of_nonneg pad : 0 <= pad_of pad.
Proof. unfold pad_of. cbn. destruct (Z.leb_spec pad 0); unfold DefaultBandPadding; lia. Qed.

(** The stream, the bands and the callbacks. *)
Record core_inv (pad : Z) (w : world) : Prop := {
  gi_dirty : db_bands (w_dirty w) = [] /\ db_canvasHeight (w_dirty w) = maxCanvasDim
    /\ db_pad (w_dirty w) = pad_of pad;
  gi_ok : Forall pdu_ok (gt_queue (w_gate w)) /\ Forall pdu_ok (hand (w_loop w));
  gi_released : all_released (pad_of pad) (w_cleared w);
  gi_in : exists rest,
    w_in w = wire (batches (w_cleared w)) ++ wire (hand (w_loop w)) ++ rest
    /\ (is_down (w_gate w) = false -> w_loop w <> LExit ->
        rest = wire (gt_queue (w_gate w)) ++ gt_tail (w_gate w));
  gi_calls : (length (w_calls w) <= 1)%nat
    /\ (w_calls w <> [] -> gt_killed (w_gate w) = true)
    /\ (OnDetection ∈ w_calls w -> w_loop w = LExit);
}.

(** What the canvas shows and what went out, by the loop's position. *)
Definition canvas_inv (pad : Z) (w : world) : Prop :=
  let S := screen_of (batches (w_cleared w)) in
  match w_loop w with
  | LAnalyze batch bands _ => inspected (pad_of pad) S batch (w_canvas w) bands
  | LExit => True
  | _ => shows (w_canvas w) S
  end.

Definition out_inv (w : world) : Prop :=
  let cl := wire (batches (w_cleared w)) in
  match w_loop w with
  | LForward chunks _ => concat (w_out w) ++ concat chunks = cl
  | LExit => concat (w_out w) `prefix_of` cl
  | _ => concat (w_out w) = cl
  end.

Definition gate_inv (pad : Z) (w : world) : Prop := core_inv pad w /\ canvas_inv pad w /\ out_inv w.

Lemma gate_inv_new pad : gate_inv pad (new_world pad).
Proof.
  split; [|by split; [apply blank_shows|]]. split; cbn; try done; [by intros [] e post|by exists []|].
  split_and!; [lia|done|by intros ?%not_elem_of_nil].
Qed.

(** *** Ingest *)

Lemma Ingest_inv pad w data : gate_inv pad w -> gate_inv pad (ingest_step w data).
Proof.
  intros ([Gd [Gq Gh] Gr (rest & Gi & Gx) (Gc1 & Gc2 & Gc3)] & Gs & Go). unfold ingest_step, Ingest.
  unfold canvas_inv, out_inv in *.
  destruct (gt_closed (w_gate w) || gt_killed (w_gate w)) eqn:Edown.
  { split; [|done]. split; cbn; try done. exists (rest ++ data). split; [rewrite Gi, <- !app_assoc; done|].
    intros Hn. unfold is_down in Hn. rewrite orb_comm in Edown. congruence. }
  apply orb_false_iff in Edown as [Ec Ek].
  assert (w_calls w = []) as Hnone.
  { destruct (w_calls w); [done|]. by rewrite Ek in Gc2; specialize (Gc2 ltac:(done)). }
  destruct (_ <? _).
  { split; [|done]. split; cbn; try done.
    - exists (rest ++ data). split; [rewrite Gi, <- !app_assoc; done|]. intros Hn. discriminate Hn.
    - rewrite Hnone. cbn. split_and!; [lia|done|]. by intros Hd%list_elem_of_singleton. }
  cbn zeta. set (g1 := with_tail (w_gate w) _).
  destruct (frame_loop_keeps (length (gt_tail g1)) g1) as (F1 & F2 & F3 & F4 & F5).
  set (g2 := frame_loop _ g1) in *. set (g3 := if (_ =? 0)%nat then g2 else signal g2).
  assert (gt_queue g3 = gt_queue g2 /\ gt_tail g3 = gt_tail g2 /\ gt_killed g3 = gt_killed g2
    /\ gt_closed g3 = gt_closed g2) as (K1 & K2 & K3 & K4) by (unfold g3; by destruct (length (gt_queue g2) =? 0)%nat).
  split; [|done]. split; cbn; try done; rewrite ?K1, ?K2, ?K3.
  - split; [by apply F2|done].
  - exists (rest ++ data). split; [rewrite Gi, <- !app_assoc; done|]. intros _ Hl.
    rewrite F1. cbn. rewrite Gx by (done || by unfold is_down; rewrite Ec, Ek). by rewrite <- app_assoc.
Qed.

(** *** Close and cancel *)

Lemma Close_inv pad w w' : gate_inv pad w -> close_step w = Some w' -> gate_inv pad w'.
Proof.
  intros ([Gd [Gq Gh] Gr (rest & Gi & Gx) (Gc1 & Gc2 & Gc3)] & Gs & Go) Hc.
  unfold canvas_inv, out_inv in *.
  assert (forall c b1 b2, gate_inv pad (at_closer w (w_gate w) c b1 b2)) as Hsame.
  { intros c b1 b2. split; [|done]. split; cbn; try done. by exists rest. }
  unfold close_step in Hc. destruct (w_closer w).
  - destruct (gt_closed (w_gate w)); injection Hc as <-; [done|]. split; [|done]. split; cbn; try done.
    exists rest. split; [done|]. unfold is_down. cbn. by rewrite orb_true_r.
  - by injection Hc as <-.
  - injection Hc as <-. split; [|done]. split; cbn; try done. by exists rest.
  - destruct (w_loop w) eqn:El; try done. injection Hc as <-. apply Hsame.
  - done.
Qed.

(** *** The loop *)

Lemma batches_snoc l e : batches (l ++ [e]) = batches l ++ cl_batch e.
Proof. unfold batches. rewrite map_app, concat_app. cbn. by rewrite app_nil_r. Qed.

Lemma screen_of_app a b : screen_of (a ++ b) = foldl draw_pdu (screen_of a) b.
Proof. unfold screen_of. by rewrite foldl_app. Qed.

(** A batch on its way out. *)
Lemma clear_batch_inv pad w batch bands v rest :
  core_inv pad w -> hand (w_loop w) = batch ++ rest -> w_loop w <> LExit ->
  concat (w_out w) = wire (batches (w_cleared w)) ->
  released (pad_of pad) (screen_of (batches (w_cleared w)))
    {| cl_batch := batch; cl_canvas := w_canvas w; cl_bands := bands; cl_verdict := v |} ->
  gate_inv pad (clear_batch w batch bands v rest).
Proof.
  intros [Gd [Gq Gh] Gr (k & Gi & Gx) (Gc1 & Gc2 & Gc3)] Hh Hl Ho Hr. rewrite Hh in *.
  split; [split|split]; cbn; try done.
  - split; [done|]. by apply Forall_app in Gh as [_ ?].
  - by apply all_released_snoc.
  - exists k. rewrite batches_snoc, wire_app, Gi. cbn. rewrite wire_app, <- !app_assoc. split; [done|].
    intros Hd _. by apply Gx.
  - split_and!; [done|done|]. by intros ?%Gc3.
  - unfold canvas_inv. cbn. rewrite batches_snoc, screen_of_app. apply Hr.
  - unfold out_inv. cbn. rewrite batches_snoc, wire_app, Ho. f_equal. apply chunk_loop_concat.
Qed.

(** A step that only moves the loop and the mutex-guarded fields. *)
Lemma at_loop_inv pad w g l :
  gate_inv pad w ->
  Forall pdu_ok (gt_queue g) -> Forall pdu_ok (hand l) ->
  (w_calls w <> [] -> gt_killed g = true) -> (OnDetection ∈ w_calls w -> l = LExit) ->
  (l = LExit \/ wire (hand l) ++ wire (gt_queue g) ++ gt_tail g
    = wire (hand (w_loop w)) ++ wire (gt_queue (w_gate w)) ++ gt_tail (w_gate w)
    /\ is_down g = is_down (w_gate w) /\ w_loop w <> LExit
    /\ (is_down g = true -> hand l = hand (w_loop w))) ->
  canvas_inv pad (at_loop w g l) -> out_inv (at_loop w g l) ->
  gate_inv pad (at_loop w g l).
Proof.
  intros ([Gd [Gq Gh] Gr (k & Gi & Gx) (Gc1 & Gc2 & Gc3)] & Gs & Go) Hq Hl Hk Hd Hin Hc Ho.
  split; [|by split]. split; cbn; try done. destruct Hin as [->|(E & Ed & Hne & Hh)].
  - cbn. exists (wire (hand (w_loop w)) ++ k). by rewrite Gi.
  - destruct (is_down g) eqn:Eg.
    + exists k. rewrite Hh by done. split; [by rewrite Gi|done].
    + exists (wire (gt_queue g) ++ gt_tail g). split; [|done]. by rewrite Gi, Gx, E.
Qed.

Lemma exit_inv pad w g : gate_inv pad w -> Forall pdu_ok (gt_queue g) ->
  (w_calls w <> [] -> gt_killed g = true) -> gate_inv pad (at_loop w g LExit).
Proof.
  intros HI Hq Hk. pose proof HI as (_ & _ & Ho).
  apply at_loop_inv; try done; [by left|].
  unfold out_inv in *. cbn. destruct (w_loop w); try (rewrite Ho; done); try done.
  exists (concat chunks). done.
Qed.

Lemma judged_inv pad w v batch bands rest :
  gate_inv pad w -> w_loop w = LAnalyze batch bands rest -> gate_inv pad (judged w v batch bands rest).
Proof.
  intros HI El. pose proof HI as ([Gd [Gq Gh] Gr Gi (Gc1 & Gc2 & Gc3)] & Gs & Go).
  unfold canvas_inv, out_inv in Gs, Go. rewrite El in Gs, Go.
  assert (forall v', v' <> Found -> gate_inv pad (clear_batch w batch bands (Some v') rest)) as Hclear.
  { intros v' Hv. apply clear_batch_inv; [apply HI|by rewrite El|by rewrite El|done|by split]. }
  destruct v; cbn [judged]; [|by apply Hclear|].
  - destruct (w_cancelled w); [by apply exit_inv|by apply Hclear].
  - set (g := drop_held _ _ _). assert (gate_inv pad (at_loop w g LExit)) as Hx by (by apply exit_inv).
    destruct (is_down (w_gate w)) eqn:Ed; [done|].
    assert (w_calls w = []) as Hn.
    { unfold is_down in Ed. apply orb_false_iff in Ed as [Ek _]. destruct (w_calls w); [done|].
      rewrite Ek in Gc2. by discriminate Gc2. }
    destruct Hx as ([X1 X2 X3 X4 X5] & X6 & X7). split; [|by split]. split; cbn; try done.
    rewrite Hn. cbn. split_and!; [lia|done|done].
Qed.

Lemma batch_inv pad w p r : gate_inv pad w -> w_loop w = LBatch (p :: r) ->
  exists w', loop_step {| lk_done := false; lk_verdict := Clean; lk_sent := true |} w = Some w'
  /\ gate_inv pad w'.
Proof.
  intros HI El. pose proof HI as ([(G1 & G2 & G3) [Gq Gh] Gr Gi Gc] & Gs & Go).
  unfold canvas_inv, out_inv in Gs, Go. rewrite El in *. cbn [hand] in *.
  destruct (next_batch_inspected (pad_of pad) (pad_of_nonneg pad) _ _ p r _ Gs G1 G2 G3 Gh)
    as (c & d & batch & rest & E & Ep & Hne & Hb).
  unfold loop_step. rewrite El, E. cbn [mbind option_bind]. destruct (takeBands c d) as [d' bands].
  destruct Hb as (Hin & D1 & D2 & D3 & Hsame).
  assert (core_inv pad (composed w c d')) as HC
    by (split; cbn; try done; [by rewrite El|by rewrite El|by rewrite El]).
  eexists. split; [done|]. destruct bands as [|b bs].
  - apply clear_batch_inv; [done|cbn; by rewrite El|cbn; by rewrite El|done|]. split; [done|exact (Hsame eq_refl)].
  - destruct HC as [C1 C2 C3 C4 C5]. cbn in *. rewrite El in *. cbn in *.
    split; [split|split]; cbn; try done.
    + by rewrite <- Ep.
    + rewrite <- Ep. destruct C4 as (k & Hk & Hr). exists k. split; [done|]. intros Hd _. by apply Hr.
    + destruct C5 as (? & ? & Hx). split_and!; [done|done|]. by intros ?%Hx.
Qed.

Lemma loop_inv pad w k w' : gate_inv pad w -> loop_step k w = Some w' -> gate_inv pad w'.
Proof.
  intros HI Hst. pose proof HI as ([Gd [Gq Gh] Gr Gi (Gc1 & Gc2 & Gc3)] & Gs & Go).
  unfold canvas_inv, out_inv in Gs, Go.
  destruct (w_loop w) as [| |[|p r]|batch bands rest|[|ch chs] rest| |] eqn:El;
    unfold loop_step in Hst; rewrite El in Hst.
  - destruct (lk_done k); [destruct (w_cancelled w); [|done]; injection Hst as <-; by apply exit_inv|].
    destruct (gt_notify _); [|done]. injection Hst as <-.
    apply at_loop_inv; try done; [by intros ?%Gc3|right; by rewrite El].
  - unfold takePending in Hst. destruct (gt_closed _ || gt_killed _ || _) eqn:Et; injection Hst as <-.
    + apply at_loop_inv; try done; [by intros ?%Gc3|right; by rewrite El].
    + apply orb_false_iff in Et as [Et _]. apply at_loop_inv; try done; [by intros ?%Gc3|right; rewrite El; cbn].
      split_and!; [done|done|done|]. unfold is_down. cbn. rewrite orb_comm, Et. done.
  - injection Hst as <-. apply at_loop_inv; try done; [by intros ?%Gc3|right; by rewrite El].
  - destruct (batch_inv pad w p r HI El) as (w1 & E1 & HI1). unfold loop_step in E1. rewrite El in E1.
    rewrite Hst in E1. by injection E1 as ->.
  - injection Hst as <-. by apply judged_inv.
  - injection Hst as <-. apply at_loop_inv; try done; [by intros ?%Gc3|right; by rewrite El|].
    unfold out_inv. cbn. cbn in Go. by rewrite app_nil_r in Go.
  - destruct (lk_sent k); injection Hst as <-; [|by apply exit_inv].
    split; [split|split]; cbn; try done; rewrite ?El in *; try done.
    + destruct Gi as (m & Hm & Hr). exists m. split; [done|]. intros Hd _. by apply Hr.
    + split_and!; [done|done|]. by intros ?%Gc3.
    + unfold out_inv. cbn. rewrite concat_app. cbn in *. by rewrite app_nil_r, <- app_assoc.
  - injection Hst as <-. destruct (gt_closed _); [by apply exit_inv|].
    apply at_loop_inv; try done; [by intros ?%Gc3|right; by rewrite El].
  - done.
Qed.

Lemma gate_reachable_inv pad w : reachable pad w -> gate_inv pad w.
Proof.
  induction 1 as [|w m w' _ IH Hm]; [apply gate_inv_new|]. destruct m; cbn in Hm.
  - injection Hm as <-. by apply Ingest_inv.
  - by eapply loop_inv.
  - by eapply Close_inv.
  - injection Hm as <-. destruct IH as ([Gd Go Gr (k & Gi & Gx) Gc] & Gs & Gu).
    split; [|done]. split; cbn; try done. by exists k.
Qed.

(** ** No wakeup is lost *)

Definition idle (l : lpc) : bool := match l with LWait | LStop => true | _ => false end.

(** A queue the loop is not about to look at has a notification pending. *)
Definition wake_inv (w : world) : Prop :=
  is_down (w_gate w) = false -> idle (w_loop w) = true -> gt_queue (w_gate w) <> [] ->
  gt_notify (w_gate w) = true.

Lemma Ingest_wakes g data : let g' := (Ingest g data).1 in
  is_down g' = false -> gt_queue g' <> [] -> gt_notify g' = true.
Proof.
  unfold Ingest. destruct (gt_closed g || gt_killed g) eqn:Ed; cbn.
  { unfold is_down. rewrite orb_comm, Ed. done. }
  destruct (_ <? _); cbn; [intros Hd; discriminate Hd|].
  destruct (length _ =? 0)%nat eqn:El; cbn; [|done].
  intros _ Hq. apply Nat.eqb_eq, length_zero_iff_nil in El. done.
Qed.

Lemma reachable_wake pad w : reachable pad w -> wake_inv w.
Proof.
  induction 1 as [|w m w' Hr IH Hm]; [intros _ _ Hq; by destruct Hq|]. unfold wake_inv in *. destruct m as [data|k| |]; cbn in Hm.
  - injection Hm as <-. pose proof (Ingest_wakes (w_gate w) data) as Hw. unfold ingest_step.
    destruct (Ingest (w_gate w) data) as [g [n|]]; cbn in *; auto.
  - unfold loop_step in Hm.
    destruct (w_loop w) as [| |[|p r]|batch bands rest|[|ch chs] rest| |] eqn:El.
    + destruct (lk_done k); [destruct (w_cancelled w); [|done]|destruct (gt_notify _); [|done]];
        by injection Hm as <-.
    + unfold takePending in Hm. destruct (_ || _ || _) eqn:Et; injection Hm as <-; cbn; [|done].
      intros Hd _ Hq. unfold is_down in Hd. rewrite orb_comm in Hd. rewrite Hd in Et. cbn in Et.
      apply Nat.eqb_eq, length_zero_iff_nil in Et. done.
    + by injection Hm as <-.
    + destruct (next_batch _ _ _ _) as [[[[c d] batch] rest]|]; [|done]. cbn [mbind option_bind] in Hm.
      destruct (takeBands c d) as [d' [|b bs]]; by injection Hm as <-.
    + injection Hm as <-. unfold judged. destruct (lk_verdict k); [by destruct (w_cancelled w)|done|].
      by destruct (is_down (w_gate w)).
    + by injection Hm as <-.
    + destruct (lk_sent k); by injection Hm as <-.
    + injection Hm as <-. cbn. intros Hd _ Hq. by apply IH.
    + done.
  - unfold close_step in Hm. destruct (w_closer w).
    + destruct (gt_closed _); injection Hm as <-; [done|]. cbn. by intros.
    + by injection Hm as <-.
    + by injection Hm as <-.
    + destruct (w_loop w) eqn:El; try done. injection Hm as <-. cbn. by rewrite El.
    + done.
  - by injection Hm as <-.
Qed.

(** ** The loop delivers *)

Definition lucky (k : luck) : Prop := lk_done k = false /\ lk_verdict k <> Found /\ lk_sent k = true.

(** The loop alone, staying where it waits. *)
Fixpoint drive (ks : list luck) (w : world) : world :=
  match ks with
  | [] => w
  | k :: ks => drive ks (default w (loop_step k w))
  end.

(** The turns the loop needs at most. *)
Definition position (l : lpc) : nat :=
  match l with
  | LWait | LExit => 0
  | LStop => 1
  | LTake => 2
  | LBatch pdus => 4 * length pdus + 3
  | LAnalyze batch _ rest => length batch + 2 + 4 * length rest + 3
  | LForward chunks rest => length chunks + 1 + 4 * length rest + 3
  end.
Definition work (w : world) : nat :=
  position (w_loop w)
  + (if gt_notify (w_gate w) then 3 else 0)
  + (match gt_queue (w_gate w) with [] => 0 | q => 4 * length q + 2 end).

Lemma chunk_loop_length chunk batch : (length (chunk_loop chunk batch) <= length batch + 1)%nat.
Proof.
  revert chunk. induction batch as [|p r IH]; intros chunk; cbn [chunk_loop].
  - destruct chunk; cbn; lia.
  - destruct (_ && _); cbn [length]; [specialize (IH (gd_data p))|specialize (IH (chunk ++ gd_data p))]; lia.
Qed.

Lemma forwardBatch_length batch : (length (forwardBatch batch) <= length batch)%nat.
Proof.
  destruct batch as [|p r]; [done|]. unfold forwardBatch. cbn [chunk_loop].
  replace (0 <? blen []) with false by done. cbn. pose proof (chunk_loop_length (gd_data p) r). lia.
Qed.

Definition running (w : world) : Prop :=
  is_down (w_gate w) = false /\ w_cancelled w = false /\ w_loop w <> LExit.

(** A turn keeps the loop running and takes it forward, or it waits with an
    empty queue. *)
Lemma drive_turn pad w k : reachable pad w -> running w -> lucky k ->
  (exists w', loop_step k w = Some w' /\ running w' /\ (work w' < work w)%nat
   /\ w_in w' = w_in w /\ gt_tail (w_gate w') = gt_tail (w_gate w))
  \/ loop_step k w = None /\ w_loop w = LWait /\ gt_queue (w_gate w) = [].
Proof.
  intros Hr (Hd & Hc & Hx) (Hk & Hv & Hs).
  pose proof (gate_reachable_inv pad w Hr) as HI. pose proof (reachable_wake pad w Hr) as Hw.
  assert (gt_closed (w_gate w) = false) as Hcl by (unfold is_down in Hd; by apply orb_false_iff in Hd as [_ ?]).
  assert (gt_killed (w_gate w) = false) as Hkl by (unfold is_down in Hd; by apply orb_false_iff in Hd as [? _]).
  unfold work, running.
  destruct (w_loop w) as [| |[|p r]|batch bands rest|[|ch chs] rest| |] eqn:El; unfold loop_step; rewrite El.
  - rewrite Hk. unfold wake_inv in Hw. rewrite El in Hw. destruct (gt_notify (w_gate w)) eqn:En.
    + left. eexists. split; [done|]. cbn. split_and!; try done. lia.
    + right. split_and!; try done. destruct (gt_queue (w_gate w)); [done|].
      by specialize (Hw Hd eq_refl ltac:(done)).
  - left. unfold takePending. rewrite Hcl, Hkl. cbn [orb].
    destruct (gt_queue (w_gate w)) as [|q l] eqn:Eq; cbn [length Nat.eqb]; eexists; (split; [done|]); cbn;
      rewrite ?Eq; split_and!; try done; lia.
  - left. eexists. split; [done|]. cbn. split_and!; try done. lia.
  - left. destruct (batch_inv pad w p r HI El) as (w1 & E1 & _). unfold loop_step in E1. rewrite El in E1.
    exists w1. split; [exact E1|].
    destruct (next_batch (w_canvas w) (w_dirty w) p r) as [[[[c d] batch] rest]|] eqn:En; [|done].
    assert (p :: r = batch ++ rest /\ batch <> []) as [Ep Hne].
    { destruct HI as ([(G1 & G2 & G3) [_ Gh] _ _ _] & Gs & _). unfold canvas_inv in Gs. rewrite El in *.
      destruct (next_batch_inspected (pad_of pad) (pad_of_nonneg pad) _ _ p r _ Gs G1 G2 G3 Gh)
        as (c1 & d1 & b1 & r1 & E & ? & ? & _). rewrite En in E. by injection E as <- <- <- <-. }
    apply (f_equal length) in Ep. rewrite length_app in Ep. cbn [length] in Ep.
    pose proof (forwardBatch_length batch) as Hf.
    assert (1 <= length batch)%nat by (destruct batch; [done|cbn; lia]).
    cbn [mbind option_bind] in E1. destruct (takeBands c d) as [d' [|b bs]]; injection E1 as <-; cbn;
      split_and!; try done; lia.
  - left. eexists. split; [done|]. pose proof (forwardBatch_length batch) as Hf. unfold judged. rewrite Hc.
    destruct (lk_verdict k); [..|done]; cbn; split_and!; try done; lia.
  - left. eexists. split; [done|]. cbn. split_and!; try done. lia.
  - left. rewrite Hs. eexists. split; [done|]. cbn. split_and!; try done. lia.
  - left. eexists. split; [done|]. rewrite Hcl. cbn. split_and!; try done. lia.
  - done.
Qed.

Lemma drive_delivers pad ks w : reachable pad w -> running w -> Forall lucky ks ->
  (work w <= length ks)%nat ->
  let w' := drive ks w in
  reachable pad w' /\ running w' /\ w_in w' = w_in w /\ gt_tail (w_gate w') = gt_tail (w_gate w)
  /\ w_loop w' = LWait /\ gt_queue (w_gate w') = [].
Proof.
  revert w. induction ks as [|k ks IH]; intros w Hr Hrun Hk Hw; cbn [drive].
  - cbn in Hw. destruct (drive_turn pad w {| lk_done := false; lk_verdict := Clean; lk_sent := true |} Hr Hrun)
      as [(w' & _ & _ & Hlt & _)|(_ & Hl & Hq)]; [done|lia|]. by split_and!.
  - apply Forall_cons in Hk as [Hk Hks]. cbn in Hw.
    destruct (drive_turn pad w k Hr Hrun Hk) as [(w' & E & Hrun' & Hlt & Ein & Et)|(E & Hl & Hq)].
    + rewrite E. change (default w (Some w')) with w'. rewrite <- Ein, <- Et.
      apply IH; [by eapply (reach_step pad w (MLoop k))|done|done|lia].
    + rewrite E. change (default w None) with w. apply IH; [done|done|done|].
      assert (work w = if gt_notify (w_gate w) then 3 else 0)%nat as Hz.
      { unfold work. by rewrite Hl, Hq, Nat.add_0_r. }
      unfold loop_step in E. rewrite Hl in E. destruct Hk as (Hkd & _). rewrite Hkd in E.
      destruct (gt_notify (w_gate w)); [done|]. lia.
Qed.
End Props.

(** ** The promise *)

(** [screen_of] is what the gate makes of the bitmaps.  A client has a rule of
    its own for drawing; all that is asked of it is that a bitmap the gate can
    read covers its rectangle with the decoded pixels. *)
Definition gate_reads (p : gatePatch) : Prop :=
  oversized (gp_bmp p) = false /\ exists rgba, decode_patch p = Bitmap rgba.

Definition draws_readable (draws : screen -> gatePatch -> screen) : Prop :=
  forall S p rgba x y, oversized (gp_bmp p) = false -> decode_patch p = Bitmap rgba ->
  draws S p x y
  = if in_rect (gp_bmp p) x y
    then px rgba ((y - bmY (gp_bmp p)) * bmWidth (gp_bmp p) + (x - bmX (gp_bmp p)))
    else S x y.

Definition client_screen (draws : screen -> gatePatch -> screen) (pdus : list gatePDU) : screen :=
  foldl (fun S p => foldl draws S (gd_patches p)) blank_screen pdus.

Lemma client_patches draws l S S' :
  draws_readable draws -> Forall gate_reads l -> (forall x y, S x y = S' x y) ->
  forall x y, foldl draws S l x y = foldl draw_patch S' l x y.
Proof.
  intros Hd Hl. revert S S'. induction Hl as [|p l (Ho & rgba & Hp) _ IH]; intros S S' E; [done|].
  apply IH. intros x y. rewrite (Hd S p rgba x y Ho Hp). unfold draw_patch.
  rewrite Ho, Hp. by destruct (in_rect _ x y).
Qed.

Lemma client_screen_readable draws pdus :
  draws_readable draws -> Forall (fun p => Forall gate_reads (gd_patches p)) pdus ->
  forall x y, client_screen draws pdus x y = screen_of pdus x y.
Proof.
  intros Hd Hl. unfold client_screen, screen_of.
  induction pdus as [|p pdus IH] using rev_ind; [done|]. apply Forall_app in Hl as [Hl Hp].
  apply Forall_cons in Hp as [Hp _]. intros x y. rewrite !foldl_snoc.
  apply client_patches; [exact Hd|exact Hp|exact (IH Hl)].
Qed.

(** C8 What the gate can read does not reach the client uninspected.  In every
    reachable state, for every batch of PDUs released so far, with the screen
    as the gate composes it from the bitmaps released: the canvas handed to
    the analysis shows the screen behind the batch; the bands analysed hold
    every row the batch changed together with all rows of the canvas within
    the padding of it; while the batch is drawn PDU by PDU, every window of
    [2 * pad + 1] rows is as it was before the batch or as it is after it; and
    the analysis came back clean, or failed, which the gate lets pass, or was
    not made because no pixel changed.  Only bytes of released batches were
    forwarded.  For as long as every bitmap released is one the gate can read
    (within 4096 by 4096 and of a depth and encoding that convert to RGBA),
    that screen is the one of any client that covers a bitmap's rectangle with
    its decoded pixels; a bitmap the gate cannot read is forwarded without
    leaving a trace on it, as [fifteen_bits_unseen] shows. *)
Theorem gate_inspects_every_state `{RdpParser} pad w :
  reachable pad w ->
  (forall pre e post, w_cleared w = pre ++ e :: post ->
     let S0 := screen_of (batches pre) in
     inspected (pad_of pad) S0 (cl_batch e) (cl_canvas e) (cl_bands e)
     /\ match cl_verdict e with
        | None => forall x y, S0 x y = screen_of (batches pre ++ cl_batch e) x y
        | Some v => v = Clean \/ v = Failed
        end)
  /\ concat (w_out w) `prefix_of` wire (batches (w_cleared w))
  /\ (forall draws seen, draws_readable draws -> seen `prefix_of` batches (w_cleared w) ->
      Forall (fun p => Forall gate_reads (gd_patches p)) seen ->
      forall x y, client_screen draws seen x y = screen_of seen x y).
Proof.
  intros Hr. destruct (gate_reachable_inv pad w Hr) as ([_ _ Gr _ _] & _ & Go). split_and!.
  - intros pre e post E S0. destruct (Gr pre e post E) as [Hi Hv]. split; [done|].
    destruct (cl_verdict e) as [[]|]; [by right|by left|done|]. by rewrite screen_of_app.
  - unfold out_inv in Go. destruct (w_loop w); try (by rewrite Go); try done. rewrite <- Go. by eexists.
  - intros draws seen Hd _ Hs. by apply client_screen_readable.
Qed.

(** C9 The client receives a prefix of what the server sent, whatever the reads,
    verdicts, failures and interleavings; at most one terminal callback is ever
    made, [OnDetection] or [OnOverload]; after [OnDetection] the loop never
    moves again; and compositing never panics. *)
Theorem gate_stream_in_order `{RdpParser} pad w :
  reachable pad w ->
  concat (w_out w) `prefix_of` w_in w
  /\ (length (w_calls w) <= 1)%nat
  /\ (OnDetection ∈ w_calls w -> forall k, loop_step k w = None)
  /\ (forall k, loop_step k w = None -> w_loop w = LWait \/ w_loop w = LExit).
Proof.
  intros Hr. pose proof (gate_reachable_inv pad w Hr) as HI.
  pose proof HI as ([_ _ _ (rest & Gi & _) (Gc1 & _ & Gc3)] & _ & Go). split_and!; [|done| |].
  - transitivity (wire (batches (w_cleared w))); [|rewrite Gi; by eexists].
    unfold out_inv in Go. destruct (w_loop w); try (by rewrite Go); try done. rewrite <- Go. by eexists.
  - intros Hd k. unfold loop_step. by rewrite Gc3.
  - intros k Hk. destruct (w_loop w) as [| |[|p r]|batch bands rest'|[|ch chs] rest'| |] eqn:El;
      [by left| | | | | | | |by right]; exfalso.
    3: { destruct (batch_inv pad w p r HI El) as (w' & E & _). unfold loop_step in Hk, E.
         rewrite El in Hk, E. by rewrite Hk in E. }
    all: unfold loop_step in Hk; rewrite El in Hk; try done.
    + by destruct (takePending (w_gate w)) as [[? ?]|].
    + by destruct (lk_sent k).
Qed.

(** C16 No lost wakeup and no deadlock: while the gate is up, as many turns of the
    loop as [work] counts, with no detection and no failing [Forward], bring
    every framed byte to the client; what stays is the beginning of a PDU. *)
Theorem gate_delivers `{RdpParser} pad w ks :
  reachable pad w -> running w -> Forall lucky ks -> (work w <= length ks)%nat ->
  let w' := drive ks w in
  concat (w_out w') ++ gt_tail (w_gate w') = w_in w /\ w_loop w' = LWait.
Proof.
  intros Hr Hrun Hk Hw w'.
  destruct (drive_delivers pad ks w Hr Hrun Hk Hw) as (Hr' & (Hd & _ & _) & Ein & _ & Hl & Hq). fold w' in Hr', Hd, Ein, Hl, Hq.
  split; [|done]. destruct (gate_reachable_inv pad w' Hr') as ([_ _ _ (rest & Gi & Gx) _] & _ & Go).
  unfold out_inv in Go. rewrite Hl in *. rewrite Go, <- Ein, Gi, Gx by done. by rewrite Hq.
Qed.

(** ** A gate *)

(** A parser of small PDUs: the size, a kind, and for kinds other than zero a
    pixel in a row; kind two is a bitmap of 15 bits. *)
Definition small_parser : RdpParser := {|
  pstate := unit;
  parser_init := tt;
  GetPduSize := fun s t => (s, match t with [] => Some 0%nat | b :: _ => Some (Z.to_nat (bval b)) end);
  Parse := fun s pdu => (s, match pdu with
    | _ :: kind :: y :: data =>
        if bval kind =? 0 then Some []
        else Some [({| bmX := 0; bmY := Z.to_nat (bval y); bmWidth := 1; bmHeight := 1;
                       bmBitsPerPixel := if bval kind =? 2 then 15 else 24; bmCompressed := false |}, data)]
    | _ => None
    end);
|}.

Fixpoint moves `{RdpParser} (ms : list move) (w : world) : option world :=
  match ms with
  | [] => Some w
  | m :: ms => w' ← move_step m w; moves ms w'
  end.

Lemma moves_reachable `{RdpParser} pad ms w w' :
  reachable pad w -> moves ms w = Some w' -> reachable pad w'.
Proof.
  revert w. induction ms as [|m ms IH]; intros w Hr Hm; cbn in Hm; [by injection Hm as <-|].
  destruct (move_step m w) as [w1|] eqn:E; [|done]. cbn in Hm. eapply IH; [|done]. by eapply reach_step.
Qed.

Definition turn : move := MLoop {| lk_done := false; lk_verdict := Clean; lk_sent := true |}.

(** A row painted twice, and a PDU without pixels. *)
Definition two_paints : bytes :=
  [x06; x01; x00; x11; x22; x33; x06; x01; x00; x44; x55; x66; x03; x00; x00].

Definition paints : list move := MIngest two_paints :: replicate 11 turn.
Abbreviation painted_world := (@moves small_parser paints (@new_world small_parser 24)).

Lemma painted_runs :
  match painted_world with Some w => (length (w_cleared w) =? 2)%nat | None => false end = true.
Proof. vm_compute. reflexivity. Qed.

Lemma gate_inspects_every_state_witness : exists w, painted_world = Some w
  /\ (length (w_cleared w) = 2)%nat
  /\ concat (w_out w) `prefix_of` wire (batches (w_cleared w)).
Proof.
  pose proof painted_runs as Hp. destruct painted_world as [w|] eqn:E; [|done].
  exists w. split; [done|]. split; [by apply Nat.eqb_eq|].
  apply (@gate_inspects_every_state small_parser 24 w).
  exact (@moves_reachable small_parser 24 _ _ _ (@reach_new small_parser 24) E).
Defined.

Lemma gate_stream_in_order_witness : exists w, painted_world = Some w
  /\ concat (w_out w) `prefix_of` w_in w.
Proof.
  pose proof painted_runs as Hp. destruct painted_world as [w|] eqn:E; [|done].
  exists w. split; [done|]. apply (@gate_stream_in_order small_parser 24 w).
  exact (@moves_reachable small_parser 24 _ _ _ (@reach_new small_parser 24) E).
Defined.

Definition ingested : @world small_parser := @ingest_step small_parser (@new_world small_parser 24) two_paints.

Lemma gate_delivers_witness :
  let ks := replicate 20 {| lk_done := false; lk_verdict := Clean; lk_sent := true |} in
  (@work small_parser ingested <= 20)%nat
  /\ concat (w_out (@drive small_parser ks ingested)) ++ gt_tail (w_gate (@drive small_parser ks ingested))
     = two_paints.
Proof.
  split; [apply Nat.leb_le; by vm_compute|].
  apply (@gate_delivers small_parser 24 ingested).
  - apply (@reach_step small_parser 24 (@new_world small_parser 24) (MIngest two_paints)); [constructor|done].
  - split_and!; [by vm_compute|done|done].
  - apply Forall_replicate. by split_and!.
  - apply Nat.leb_le. by vm_compute.
Defined.

(** ** Departures *)

(** A failing [Forward] marks the gate closed, and [Close] on a gate that is
    closed returns at once: the parser is never released (piigate.go, [Close]
    and [forwardBatch]). *)
Example forward_failure_leaks_parser :
  exists w, @moves small_parser
    (MIngest [x03; x00; x00] :: replicate 3 turn
     ++ [MLoop {| lk_done := false; lk_verdict := Clean; lk_sent := false |}; MClose])
    (@new_world small_parser 24) = Some w
  /\ w_loop w = LExit /\ w_closer w = CDone /\ w_parserOpen w = true /\ close_step w = None.
Proof. eexists. split; [vm_compute; done|]. by vm_compute. Qed.

(** A bitmap of 15 bits, which [Decompress] reads and [ToRGBA] refuses, is
    forwarded without an analysis, though its pixels reach the client
    (piigate.go, [composite]; the guarantee names no such exception). *)
Example fifteen_bits_unseen :
  exists w, @moves small_parser (MIngest [x05; x02; x00; x11; x22] :: replicate 4 turn)
    (@new_world small_parser 24) = Some w
  /\ w_out w = [[x05; x02; x00; x11; x22]] /\ map cl_verdict (w_cleared w) = [None].
Proof. eexists. split; [vm_compute; done|]. by vm_compute. Qed.

(** After [OnOverload] the gate does not stop: the loop goes on forwarding what
    it had taken (piigate.go, [processPDUs]). *)
Lemma overload_keeps_forwarding `{RdpParser} w chunk chunks rest data :
  w_loop w = LForward (chunk :: chunks) rest -> is_down (w_gate w) = false ->
  0 <= gt_queuedBytes (w_gate w) -> maxHeldBytes < blen data ->
  let w' := ingest_step w data in
  (exists n, w_calls w' = w_calls w ++ [OnOverload n]) /\ gt_killed (w_gate w') = true
  /\ exists w'', loop_step {| lk_done := false; lk_verdict := Clean; lk_sent := true |} w' = Some w''
     /\ w_out w'' = w_out w ++ [chunk].
Proof.
  intros El Hd Hq Hl. unfold is_down in Hd. rewrite orb_comm in Hd. unfold ingest_step, Ingest. rewrite Hd.
  rewrite (proj2 (Z.ltb_lt _ _)) by (unfold blen in *; lia). cbn.
  split; [by eexists|]. split; [done|]. rewrite El. by eexists.
Qed.
