(* ===== verification/Review.v ===== *)
(** * Access reviews: src/gateway/api/review/review.go, src/gateway/models/reviews.go

    A connection can require that a session is reviewed before it runs: groups
    of users approve, reject or revoke it.  [DoReview] reads the review,
    computes the new one and writes it back.  The rows of one organisation are
    the record [Db]; an operation that fails in the database changes nothing
    and is [None].  Times are nanoseconds; the columns hold them as they are. *)

From S2P Require Import Prelude GoStrings GoText.

#[local] Open Scope Z_scope.

(** ** Data: models/reviews.go *)

Inductive ReviewStatus :=
  | Pending | Approved | Rejected | Revoked | Processing | Executed | UnknownStatus
  | OtherStatus (s : bytes).
Inductive ReviewType := Jit | OneTime | OtherType (s : bytes).

#[export] Instance ReviewStatus_eq_dec : EqDecision ReviewStatus.
Proof. solve_decision. Defined.
#[export] Instance ReviewType_eq_dec : EqDecision ReviewType.
Proof. solve_decision. Defined.

(** The columns [owner_id], [owner_email], [owner_name] and [owner_slack_id],
    which are set together. *)
Record Owner := { owID : bytes; owEmail : bytes; owName : bytes; owSlackID : bytes }.

Record ReviewGroup := {
  rgID : bytes;
  rgGroupName : bytes;
  rgStatus : ReviewStatus;
  rgOwner : option Owner;
  rgReviewedAt : option Z;
  rgForcedReview : bool;
}.

Record TimeWindow := { twType : bytes; twConfiguration : gmap bytes bytes }.

(** [ForceApprovalGroups] is nil as [None]; the blob input is the text behind
    [BlobInputID], empty without one. *)
Record Review := {
  rvID : bytes;
  rvSessionID : bytes;
  rvType : ReviewType;
  rvStatus : ReviewStatus;
  rvConnectionName : bytes;
  rvConnectionID : option bytes;
  rvBlobInput : bytes;
  rvInputEnvVars : option (gmap bytes bytes);
  rvInputClientArgs : option (list bytes);
  rvAccessDurationSec : Z;
  rvOwner : Owner;
  rvReviewGroups : list ReviewGroup;
  rvAccessRequestRuleName : option bytes;
  rvForceApprovalGroups : option (list bytes);
  rvMinApprovals : option Z;
  rvCreatedAt : Z;
  rvRevokedAt : option Z;
  rvTimeWindow : option TimeWindow;
  rvRejectionReason : option bytes;
}.

Definition rvOwnerID (r : Review) : bytes := owID (rvOwner r).

(** The columns a review changes. *)
Record Verdict := {
  vdStatus : ReviewStatus;
  vdGroups : list ReviewGroup;
  vdRevokedAt : option Z;
  vdTimeWindow : option TimeWindow;
  vdReason : option bytes;
}.

Definition verdict (r : Review) : Verdict :=
  {| vdStatus := rvStatus r; vdGroups := rvReviewGroups r; vdRevokedAt := rvRevokedAt r;
     vdTimeWindow := rvTimeWindow r; vdReason := rvRejectionReason r |}.

Definition with_verdict (r : Review) (v : Verdict) : Review :=
  {| rvID := rvID r; rvSessionID := rvSessionID r; rvType := rvType r; rvStatus := vdStatus v;
     rvConnectionName := rvConnectionName r; rvConnectionID := rvConnectionID r; rvBlobInput := rvBlobInput r;
     rvInputEnvVars := rvInputEnvVars r; rvInputClientArgs := rvInputClientArgs r;
     rvAccessDurationSec := rvAccessDurationSec r; rvOwner := rvOwner r; rvReviewGroups := vdGroups v;
     rvAccessRequestRuleName := rvAccessRequestRuleName r; rvForceApprovalGroups := rvForceApprovalGroups r;
     rvMinApprovals := rvMinApprovals r; rvCreatedAt := rvCreatedAt r; rvRevokedAt := vdRevokedAt v;
     rvTimeWindow := vdTimeWindow v; rvRejectionReason := vdReason v |}.

Definition set_groups (r : Review) (gs : list ReviewGroup) : Review :=
  with_verdict r {| vdStatus := rvStatus r; vdGroups := gs; vdRevokedAt := rvRevokedAt r;
                    vdTimeWindow := rvTimeWindow r; vdReason := rvRejectionReason r |}.
Definition set_status (r : Review) (s : ReviewStatus) : Review :=
  with_verdict r {| vdStatus := s; vdGroups := rvReviewGroups r; vdRevokedAt := rvRevokedAt r;
                    vdTimeWindow := rvTimeWindow r; vdReason := rvRejectionReason r |}.
Definition set_revoked (r : Review) (t : Z) : Review :=
  with_verdict r {| vdStatus := rvStatus r; vdGroups := rvReviewGroups r; vdRevokedAt := Some t;
                    vdTimeWindow := rvTimeWindow r; vdReason := rvRejectionReason r |}.
Definition set_window (r : Review) (w : TimeWindow) : Review :=
  with_verdict r {| vdStatus := rvStatus r; vdGroups := rvReviewGroups r; vdRevokedAt := rvRevokedAt r;
                    vdTimeWindow := Some w; vdReason := rvRejectionReason r |}.
Definition set_reason (r : Review) (s : bytes) : Review :=
  with_verdict r {| vdStatus := rvStatus r; vdGroups := rvReviewGroups r; vdRevokedAt := rvRevokedAt r;
                    vdTimeWindow := rvTimeWindow r; vdReason := Some s |}.

Definition RejectedByEmail (r : Review) : bytes :=
  match List.find (fun g => bool_decide (rgStatus g = Rejected) && bool_decide (is_Some (rgOwner g))) (rvReviewGroups r) with
  | Some g => match rgOwner g with Some o => owEmail o | None => [] end
  | None => []
  end.

(** ** The tables *)

Record Db := {
  dbReviews : list Review;
  dbSessions : gmap bytes bytes;
  dbInputs : gmap bytes bytes;
}.

Definition set_reviews (db : Db) (rs : list Review) : Db :=
  {| dbReviews := rs; dbSessions := dbSessions db; dbInputs := dbInputs db |}.

(** The query selects neither [connection_id] nor [forced_review]. *)
Definition loaded_group (g : ReviewGroup) : ReviewGroup :=
  {| rgID := rgID g; rgGroupName := rgGroupName g; rgStatus := rgStatus g; rgOwner := rgOwner g;
     rgReviewedAt := rgReviewedAt g; rgForcedReview := false |}.
Definition loaded (r : Review) : Review :=
  {| rvID := rvID r; rvSessionID := rvSessionID r; rvType := rvType r; rvStatus := rvStatus r;
     rvConnectionName := rvConnectionName r; rvConnectionID := None; rvBlobInput := rvBlobInput r;
     rvInputEnvVars := rvInputEnvVars r; rvInputClientArgs := rvInputClientArgs r;
     rvAccessDurationSec := rvAccessDurationSec r; rvOwner := rvOwner r;
     rvReviewGroups := loaded_group <$> rvReviewGroups r;
     rvAccessRequestRuleName := rvAccessRequestRuleName r; rvForceApprovalGroups := rvForceApprovalGroups r;
     rvMinApprovals := rvMinApprovals r; rvCreatedAt := rvCreatedAt r; rvRevokedAt := rvRevokedAt r;
     rvTimeWindow := rvTimeWindow r; rvRejectionReason := rvRejectionReason r |}.

Definition GetReviewByIdOrSid (id : bytes) (db : Db) : option Review :=
  loaded <$> List.find (fun r => (rvID r =s id) || (rvSessionID r =s id)) (dbReviews db).

Record ReviewJit := { jtID : bytes; jtAccessDurationSec : Z; jtOwnerEmail : bytes; jtCreatedAt : Z; jtRevokedAt : option Z }.

(** [ORDER BY created_at DESC LIMIT 1]. *)
Definition newer (best : option Review) (r : Review) : option Review :=
  match best with
  | Some b => if rvCreatedAt b <? rvCreatedAt r then Some r else Some b
  | None => Some r
  end.
Definition jit_of (user connectionID : bytes) (r : Review) : bool :=
  bool_decide (rvType r = Jit) && bool_decide (rvStatus r = Approved)
  && (rvOwnerID r =s user) && bool_decide (rvConnectionID r = Some connectionID).
Definition approved_jit (user connectionID : bytes) (db : Db) : option Review :=
  fold_left newer (List.filter (jit_of user connectionID) (dbReviews db)) None.
Definition GetApprovedReviewJit (user connectionID : bytes) (db : Db) : option ReviewJit :=
  (fun r => {| jtID := rvID r; jtAccessDurationSec := rvAccessDurationSec r; jtOwnerEmail := owEmail (rvOwner r);
               jtCreatedAt := rvCreatedAt r; jtRevokedAt := rvRevokedAt r |}) <$> approved_jit user connectionID db.

(** The keys and the constraint on sessions hold; a review's groups go in with
    it, without the mark of a forced review. *)
Definition CreateReview (r : Review) (db : Db) : option Db :=
  if existsb (fun r' => (rvID r' =s rvID r) || (rvSessionID r' =s rvSessionID r)) (dbReviews db)
     || negb (bool_decide (NoDup (rgID <$> rvReviewGroups r)))
  then None
  else Some (set_reviews db (dbReviews db ++ [set_groups r (loaded_group <$> rvReviewGroups r)])).

(** [Save] of a group: by its key, inserted when there is none. *)
Definition save_group (gs : list ReviewGroup) (g : ReviewGroup) : list ReviewGroup :=
  if existsb (fun g' => rgID g' =s rgID g) gs
  then map (fun g' => if rgID g' =s rgID g then g else g') gs
  else gs ++ [g].

(** [Updates] writes the fields that are not nil; what [DoReview] does not
    change is what it read. *)
Definition first_some {A} (a b : option A) : option A := match a with Some _ => a | None => b end.
Definition write_row (rev row : Review) : Review :=
  with_verdict row
    {| vdStatus := rvStatus rev;
       vdGroups := fold_left save_group (rvReviewGroups rev) (rvReviewGroups row);
       vdRevokedAt := first_some (rvRevokedAt rev) (rvRevokedAt row);
       vdTimeWindow := first_some (rvTimeWindow rev) (rvTimeWindow row);
       vdReason := first_some (rvRejectionReason rev) (rvRejectionReason row) |}.

(** The status a session gets with its review's, when it gets one. *)
Definition session_status (s : ReviewStatus) : option bytes :=
  match s with
  | Approved => Some (B "ready")
  | Rejected | Revoked => Some (B "done")
  | _ => None
  end.

Definition UpdateReview (rev : Review) (db : Db) : option Db :=
  if existsb (fun r => rvID r =s rvID rev) (dbReviews db) then
    Some {| dbReviews := map (fun r => if rvID r =s rvID rev then write_row rev r else r) (dbReviews db);
            dbSessions := match session_status (rvStatus rev) with
                          | Some s => if bool_decide (is_Some (dbSessions db !! rvSessionID rev))
                                      then <[rvSessionID rev := s]> (dbSessions db) else dbSessions db
                          | None => dbSessions db
                          end;
            dbInputs := dbInputs db |}
  else None.

Definition UpdateReviewStatus (id : bytes) (s : ReviewStatus) (db : Db) : option Db :=
  if existsb (fun r => rvID r =s id) (dbReviews db)
  then Some (set_reviews db (map (fun r => if rvID r =s id then set_status r s else r) (dbReviews db)))
  else None.

(** One-time reviews whose session is over. *)
Definition settles (db : Db) (r : Review) : bool :=
  bool_decide (rvType r = OneTime)
  && (bool_decide (rvStatus r = Processing) || bool_decide (rvStatus r = UnknownStatus))
  && bool_decide (dbSessions db !! rvSessionID r = Some (B "done")).
Definition settle (p : Review -> bool) (db : Db) : Db :=
  set_reviews db (map (fun r => if settles db r && p r then set_status r Executed else r) (dbReviews db)).
Definition SetReviewStatusExecutedIfFinished (sid : bytes) : Db -> Db := settle (fun r => rvSessionID r =s sid).
Definition ReconcileStaleReviews : Db -> Db := settle (fun _ => true).

(** ** Reviewing: api/review/review.go *)

Record Connection := {
  cnForceApproveGroups : option (list bytes);
  cnMinReviewApprovals : option Z;
  cnAccessMaxDuration : option Z;
}.

(** The user of a request. *)
Record UserContext := { cxUser : Owner; cxGroups : list bytes }.
Definition cxUserID (c : UserContext) : bytes := owID (cxUser c).

(** The errors that are returned; two more are declared and never used.  The last
    stands for a second time window. *)
Inductive ReviewError :=
  | ErrNotFound
  | ErrWrongState
  | ErrNotEligible
  | ErrSelfApproval
  | ErrUnknownStatus
  | ErrTimeWindowSet.

(** [utils.SlicesFindFirstIntersection]: the first of the shorter list. *)
Definition SlicesFindFirstIntersection (a b : list bytes) : option bytes :=
  let '(a, b) := if (length b <? length a)%nat then (b, a) else (a, b) in
  List.find (fun x => bool_decide (x ∈ b)) a.
Definition SlicesHasIntersection (a b : list bytes) : bool :=
  bool_decide (is_Some (SlicesFindFirstIntersection a b)).

Definition second : Z := 10 ^ 9.
(** [time.Duration(n) * time.Second]. *)
Definition seconds (n : Z) : Z := wrap_int64 (n * second).

Section Reviewing.
(** [types.GroupAdmin], which the environment can set. *)
Context (GroupAdmin : bytes).

Definition IsAdmin (c : UserContext) : bool := bool_decide (GroupAdmin ∈ cxGroups c).

Definition validateReviewStatusTransition (ctx : UserContext) (rev : Review) (status : ReviewStatus) : option ReviewError :=
  if negb (bool_decide (status = Approved) || bool_decide (status = Rejected) || bool_decide (status = Revoked))
  then Some ErrUnknownStatus
  else if negb (bool_decide (rvStatus rev = Pending)) && negb (bool_decide (rvStatus rev = Approved))
  then Some ErrWrongState
  else if bool_decide (status = Approved) && bool_decide (rvOwnerID rev = cxUserID ctx) && negb (IsAdmin ctx)
  then Some ErrSelfApproval
  else if bool_decide (status = Revoked) then
    if negb (bool_decide (rvStatus rev = Approved)) then Some ErrWrongState
    else if negb (bool_decide (rvType rev = Jit)) then Some ErrNotFound
    else None
  else None.

(** The user's mark on a group. *)
Definition mark (ctx : UserContext) (status : ReviewStatus) (now : Z) (forced : bool) (g : ReviewGroup) : ReviewGroup :=
  {| rgID := rgID g; rgGroupName := rgGroupName g; rgStatus := status; rgOwner := Some (cxUser ctx);
     rgReviewedAt := Some now; rgForcedReview := forced |}.

(** A group appended for the user; [id] is the fresh identifier. *)
Definition new_group (ctx : UserContext) (id name : bytes) (status : ReviewStatus) (now : Z) (forced : bool) : ReviewGroup :=
  {| rgID := id; rgGroupName := name; rgStatus := status; rgOwner := Some (cxUser ctx);
     rgReviewedAt := Some now; rgForcedReview := forced |}.

Definition force_groups (rev : Review) (conn : Connection) : list bytes :=
  match rvAccessRequestRuleName rev, rvForceApprovalGroups rev with
  | Some _, Some gs => gs
  | _, _ => default [] (cnForceApproveGroups conn)
  end.

(** The first group of the name is marked. *)
Fixpoint mark_first (name : bytes) (f : ReviewGroup -> ReviewGroup) (gs : list ReviewGroup) : option (list ReviewGroup) :=
  match gs with
  | [] => None
  | g :: gs => if rgGroupName g =s name then Some (f g :: gs) else cons g <$> mark_first name f gs
  end.

Definition doForcedReview (ctx : UserContext) (rev : Review) (conn : Connection) (status : ReviewStatus) (now : Z) (id : bytes) :
    ReviewError + Review :=
  match SlicesFindFirstIntersection (cxGroups ctx) (force_groups rev conn) with
  | None => inl ErrNotEligible
  | Some name =>
      let gs :=
        match mark_first name (mark ctx status now true) (rvReviewGroups rev) with
        | Some gs => gs
        | None => rvReviewGroups rev ++ [new_group ctx id name status now true]
        end in
      inr (set_status (set_groups rev gs) status)
  end.

Definition reviewsCountNeeded (rev : Review) (conn : Connection) : Z :=
  let n := Z.of_nat (length (rvReviewGroups rev)) in
  match rvAccessRequestRuleName rev with
  | Some _ => match rvMinApprovals rev with Some k => Z.min n k | None => n end
  | None => match cnMinReviewApprovals conn with Some k => Z.min n k | None => n end
  end.

Definition eligible (ctx : UserContext) (g : ReviewGroup) : bool := bool_decide (rgGroupName g ∈ cxGroups ctx).

(** The loop over the groups: what it leaves of one, and what it counts. *)
Definition reviewed (ctx : UserContext) (status : ReviewStatus) (now : Z) (g : ReviewGroup) : ReviewGroup :=
  if eligible ctx g then mark ctx status now (rgForcedReview g) g else g.
Definition is_approved (g : ReviewGroup) : bool := bool_decide (rgStatus g = Approved).
Definition approvedCount (gs : list ReviewGroup) : Z := Z.of_nat (length (List.filter is_approved gs)).

(** The name under which the denial of somebody who is in none of the groups is
    noted. *)
Definition denial_group (ctx : UserContext) : bytes :=
  if IsAdmin ctx then GroupAdmin else match cxGroups ctx with g :: _ => g | [] => [] end.

Definition doIndividualReview (ctx : UserContext) (rev : Review) (conn : Connection) (status : ReviewStatus) (now : Z) (id : bytes) :
    ReviewError + Review :=
  let needed := reviewsCountNeeded rev conn in
  let gs := map (reviewed ctx status now) (rvReviewGroups rev) in
  let isEligibleReviewer := existsb (eligible ctx) (rvReviewGroups rev) in
  let approved := approvedCount gs in
  if negb isEligibleReviewer && negb (bool_decide (rvOwnerID rev = cxUserID ctx) || IsAdmin ctx) then inl ErrNotEligible
  else
    let denied := bool_decide (status = Rejected) || bool_decide (status = Revoked) in
    let gs := if negb isEligibleReviewer && denied
              then gs ++ [new_group ctx id (denial_group ctx) status now false] else gs in
    let rev := set_groups rev gs in
    inr (if bool_decide (status = Approved)
         then (if approved =? needed then set_status rev Approved else rev)
         else set_status rev status).

Definition doReview (ctx : UserContext) (rev : Review) (conn : Connection) (status : ReviewStatus) (force : bool) (now : Z) (id : bytes) :
    ReviewError + Review :=
  match validateReviewStatusTransition ctx rev status with
  | Some e => inl e
  | None =>
      match (if force then doForcedReview else doIndividualReview) ctx rev conn status now id with
      | inl e => inl e
      | inr rev =>
          inr (if bool_decide (rvStatus rev = Approved)
               then set_revoked rev (now + seconds (rvAccessDurationSec rev)) else rev)
      end
  end.

(** A request to [DoReview], with the connection it finds, the clock and the
    fresh identifier. *)
Record Request := {
  rqCtx : UserContext;
  rqConn : Connection;
  rqStatus : ReviewStatus;
  rqTimeWindow : option TimeWindow;
  rqForce : bool;
  rqReason : bytes;
  rqNow : Z;
  rqFreshID : bytes;
}.

(** [DoReview] from the review it read to the one it writes. *)
Definition DoReview (rev : Review) (q : Request) : ReviewError + Review :=
  match rqTimeWindow q, rvTimeWindow rev with
  | Some _, Some _ => inl ErrTimeWindowSet
  | w, _ =>
      let rev := match w with
                 | Some w => if bool_decide (rqStatus q = Approved) then set_window rev w else rev
                 | None => rev
                 end in
      match doReview (rqCtx q) rev (rqConn q) (rqStatus q) (rqForce q) (rqNow q) (rqFreshID q) with
      | inl e => inl e
      | inr rev =>
          inr (if bool_decide (rvStatus rev = Rejected) && negb (rqReason q =s [])
               then set_reason rev (rqReason q) else rev)
      end
  end.

(** One request after the other, on a review in hand. *)
Definition review_step (rev : Review) (q : Request) : Review :=
  match DoReview rev q with inr rev' => rev' | inl _ => rev end.
Definition review_run (rev : Review) (qs : list Request) : Review := fold_left review_step qs rev.
(** ** Executing: api/review/review.go, api/session/run-exec.go *)

(** [time.Parse] with the layout of hours and minutes: the time of the day. *)
Definition getnum (s : bytes) (fixed : bool) : option (Z * bytes) :=
  match s with
  | a :: r =>
      if is_digit a then
        match r with
        | b :: r' => if is_digit b then Some (digit_val a * 10 + digit_val b, r')
                     else if fixed then None else Some (digit_val a, r)
        | [] => if fixed then None else Some (digit_val a, r)
        end
      else None
  | [] => None
  end.

Definition time_Parse_1504 (s : bytes) : option Z :=
  match getnum s false with
  | Some (h, c :: r) =>
      if (24 <=? h) || negb (bool_decide (c = ":"%byte)) then None
      else match getnum r true with
           | Some (m, []) => if 60 <=? m then None else Some ((h * 60 + m) * 60 * second)
           | _ => None
           end
  | _ => None
  end.

Definition start_time : bytes := B "start_time".
Definition end_time : bytes := B "end_time".

(** A window is refused ([None]) unless both times are there and parse. *)
Definition ParseTimeWindow (w : option TimeWindow) : option (option TimeWindow) :=
  match w with
  | None => Some None
  | Some w =>
      let s := default [] (twConfiguration w !! start_time) in
      let e := default [] (twConfiguration w !! end_time) in
      if (s =s []) || (e =s []) then None
      else if bool_decide (time_Parse_1504 s = None) then None
      else if bool_decide (time_Parse_1504 e = None) then None
      else Some (Some w)
  end.

Inductive ExecError := ExecUser | ExecNotApproved | ExecBadWindow | ExecOutsideWindow | ExecUnknownWindow.

Definition day : Z := 24 * 3600 * second.

(** [GroupAuditor] is the environment's, like [GroupAdmin]. *)
Definition canExecReviewedSession (GroupAuditor : bytes) (ctx : UserContext) (sessionUserEmail : bytes) (rev : Review) (now : Z) :
    option ExecError :=
  if negb ((sessionUserEmail =s owEmail (cxUser ctx)) || bool_decide (GroupAuditor ∈ cxGroups ctx) || IsAdmin ctx)
  then Some ExecUser
  else if negb (bool_decide (rvStatus rev = Approved)) then Some ExecNotApproved
  else
    match rvTimeWindow rev with
    | None => None
    | Some w =>
        if twType w =s B "time_range" then
          match twConfiguration w !! start_time, twConfiguration w !! end_time with
          | Some s, Some e =>
              match time_Parse_1504 s, time_Parse_1504 e with
              | Some startTime, Some endTime =>
                  let endTime := if endTime <? startTime then endTime + day else endTime in
                  let nowOnlyTime := now mod day in
                  if (nowOnlyTime <? startTime) || (endTime <? nowOnlyTime) then Some ExecOutsideWindow else None
              | _, _ => Some ExecBadWindow
              end
          | _, _ => Some ExecBadWindow
          end
        else Some ExecUnknownWindow
    end.

(** The check of the handler that runs a reviewed session: only where the review
    plugin is on for the connection. *)
Definition exec_check (hasReviewPlugin : bool) (GroupAuditor : bytes) (ctx : UserContext) (sessionUserEmail : bytes)
    (rev : Review) (now : Z) : option ExecError :=
  if hasReviewPlugin then canExecReviewedSession GroupAuditor ctx sessionUserEmail rev now else None.

(** ** What a request changes *)

(** The user may approve. *)
Definition may_approve (rev : Review) (q : Request) : Prop :=
  rvOwnerID rev <> cxUserID (rqCtx q) \/ IsAdmin (rqCtx q) = true.

(** What makes a review approved: a user of the forcing groups, or the count. *)
Definition suffices (rev : Review) (q : Request) (new : Review) : Prop :=
  if rqForce q then exists name, name ∈ cxGroups (rqCtx q) /\ name ∈ force_groups rev (rqConn q)
  else approvedCount (rvReviewGroups new) = reviewsCountNeeded rev (rqConn q).

(** A group the request marked. *)
Definition marked_by (q : Request) (g : ReviewGroup) : Prop :=
  rgStatus g = rqStatus q /\ rgOwner g = Some (cxUser (rqCtx q))
  /\ (rqStatus q = Approved -> rgGroupName g ∈ cxGroups (rqCtx q)).

Record outcome (rev : Review) (q : Request) (new : Review) : Prop := {
  oc_same : new = with_verdict rev (verdict new);
  oc_from : rvStatus rev = Pending \/ rvStatus rev = Approved;
  oc_asked : rqStatus q = Approved \/ rqStatus q = Rejected \/ rqStatus q = Revoked;
  oc_user : rqStatus q = Approved -> may_approve rev q;
  oc_groups : forall g, g ∈ rvReviewGroups new -> g ∈ rvReviewGroups rev \/ marked_by q g;
  oc_status : rvStatus new = rvStatus rev /\ rqStatus q = Approved
              \/ rvStatus new = rqStatus q /\ (rqStatus q = Approved -> suffices rev q new);
  oc_revoked : rvRevokedAt new = if bool_decide (rvStatus new = Approved)
                                 then Some (rqNow q + seconds (rvAccessDurationSec rev)) else rvRevokedAt rev;
}.

Lemma find_intersection a b x :
  SlicesFindFirstIntersection a b = Some x -> x ∈ a /\ x ∈ b.
Proof.
  unfold SlicesFindFirstIntersection. destruct (_ <? _)%nat; intros [? Hx%bool_decide_eq_true]%find_some;
    rewrite <- list_elem_of_In in *; done.
Qed.

Lemma mark_first_elem name f gs gs' g :
  mark_first name f gs = Some gs' -> g ∈ gs' ->
  g ∈ gs \/ exists g0, g0 ∈ gs /\ rgGroupName g0 = name /\ g = f g0.
Proof.
  revert gs'. induction gs as [|g1 gs IH]; intros gs' Hm Hg; [done|]. cbn in Hm.
  destruct (_ =s name) eqn:E.
  - simplify_eq. apply seqb_eq in E. apply elem_of_cons in Hg as [->|Hg]; [right; exists g1|left]; set_solver.
  - destruct (mark_first name f gs) as [gs1|]; [|done]. simplify_eq/=.
    apply elem_of_cons in Hg as [->|Hg]; [left; set_solver|].
    destruct (IH gs1 eq_refl Hg) as [?|(g0 & ? & ?)]; [left|right; exists g0]; set_solver.
Qed.

Lemma validate_ok ctx rev s :
  validateReviewStatusTransition ctx rev s = None ->
  (rvStatus rev = Pending \/ rvStatus rev = Approved) /\ (s = Approved \/ s = Rejected \/ s = Revoked)
  /\ (s = Approved -> rvOwnerID rev <> cxUserID ctx \/ IsAdmin ctx = true).
Proof.
  unfold validateReviewStatusTransition. repeat case_bool_decide; cbn; try done;
    destruct (IsAdmin ctx); intros; naive_solver.
Qed.

(** The two ways to review, before the expiry is set. *)
Record computed (rev : Review) (q : Request) (new : Review) : Prop := {
  cp_same : new = with_verdict rev (verdict new);
  cp_revoked : rvRevokedAt new = rvRevokedAt rev;
  cp_window : rvTimeWindow new = rvTimeWindow rev;
  cp_groups : forall g, g ∈ rvReviewGroups new -> g ∈ rvReviewGroups rev \/ marked_by q g;
  cp_status : rvStatus new = rvStatus rev /\ rqStatus q = Approved
              \/ rvStatus new = rqStatus q /\ (rqStatus q = Approved -> suffices rev q new);
}.

Lemma forced_computed rev q new :
  rqForce q = true ->
  doForcedReview (rqCtx q) rev (rqConn q) (rqStatus q) (rqNow q) (rqFreshID q) = inr new -> computed rev q new.
Proof.
  intros Hf. unfold doForcedReview.
  destruct (SlicesFindFirstIntersection _ _) as [name|] eqn:Hn; [|done]. intros [= <-].
  apply find_intersection in Hn as [Hu Hforce]. split; cbn; try done.
  - intros g. destruct (mark_first _ _ _) as [gs|] eqn:Hm.
    + intros Hg. destruct (mark_first_elem _ _ _ _ _ Hm Hg) as [?|(g0 & _ & <- & ->)]; [by left|right; done].
    + intros [?|Hg]%elem_of_app; [by left|right]. apply list_elem_of_singleton in Hg as ->. done.
  - right. split; [done|]. intros _. unfold suffices. rewrite Hf. eauto.
Qed.

Lemma reviewed_elem ctx s now gs g :
  g ∈ map (reviewed ctx s now) gs ->
  g ∈ gs \/ (rgStatus g = s /\ rgOwner g = Some (cxUser ctx) /\ rgGroupName g ∈ cxGroups ctx).
Proof.
  intros (g0 & -> & Hg)%list_elem_of_fmap. unfold reviewed, eligible. case_bool_decide; [right|left]; done.
Qed.

Lemma individual_computed rev q new :
  rqForce q = false ->
  doIndividualReview (rqCtx q) rev (rqConn q) (rqStatus q) (rqNow q) (rqFreshID q) = inr new -> computed rev q new.
Proof.
  intros Hf. unfold doIndividualReview. destruct (negb _ && negb _) eqn:E; [done|]. intros [= <-].
  assert (Hs : forall r : Review, (if bool_decide (rqStatus q = Approved)
     then (if approvedCount (map (reviewed (rqCtx q) (rqStatus q) (rqNow q)) (rvReviewGroups rev))
              =? reviewsCountNeeded rev (rqConn q) then set_status r Approved else r)
     else set_status r (rqStatus q)) =
     set_status r (if bool_decide (rqStatus q = Approved)
       then (if approvedCount (map (reviewed (rqCtx q) (rqStatus q) (rqNow q)) (rvReviewGroups rev))
              =? reviewsCountNeeded rev (rqConn q) then Approved else rvStatus r) else rqStatus q))
    by (intros []; repeat case_match; done).
  rewrite Hs. clear Hs E. split; cbn; try done.
  - intros g Hg. assert (Hin : g ∈ map (reviewed (rqCtx q) (rqStatus q) (rqNow q)) (rvReviewGroups rev)
      \/ (g = new_group (rqCtx q) (rqFreshID q) (denial_group (rqCtx q)) (rqStatus q) (rqNow q) false
          /\ rqStatus q <> Approved)).
    { destruct (negb _ && (_ || _)) eqn:Ed; [|by left]. apply elem_of_app in Hg as [?|Hg]; [by left|right].
      apply list_elem_of_singleton in Hg as ->. split; [done|]. intros Ha. rewrite Ha in Ed.
      by rewrite andb_false_r in Ed. }
    destruct Hin as [[?|(? & ? & ?)]%reviewed_elem|[-> Hn]]; [by left|right; done|right; done].
  - case_bool_decide as Ha; [|right; done]. destruct (_ =? _) eqn:Ec; [right|left; done].
    split; [done|]. intros _. unfold suffices. rewrite Hf. cbn. rewrite Ha.
    rewrite andb_false_r. apply Z.eqb_eq in Ec. rewrite Ha in Ec. done.
Qed.

Lemma doReview_outcome rev q new :
  doReview (rqCtx q) rev (rqConn q) (rqStatus q) (rqForce q) (rqNow q) (rqFreshID q) = inr new -> outcome rev q new.
Proof.
  unfold doReview. destruct (validateReviewStatusTransition _ _ _) eqn:Hv; [done|].
  apply validate_ok in Hv as (Hfrom & Hask & Huser).
  destruct ((if rqForce q then _ else _) _ _ _ _ _ _) as [e|r] eqn:Hr; [done|].
  assert (Hc : computed rev q r).
  { destruct (rqForce q) eqn:Hf; [by apply forced_computed|by apply individual_computed]. }
  intros [= <-]. destruct Hc as [Hsame Hrev _ Hg Hs].
  case_bool_decide as Ha; split; cbn; try done.
  - rewrite Hsame. done.
  - by rewrite bool_decide_eq_true_2; [rewrite Hsame|].
  - by rewrite bool_decide_eq_false_2.
Qed.

Lemma DoReview_outcome rev q new : DoReview rev q = inr new -> outcome rev q new.
Proof.
  unfold DoReview. intros HD.
  assert (Hw : exists rev', (rev' = rev \/ exists w, rev' = set_window rev w) /\
    match doReview (rqCtx q) rev' (rqConn q) (rqStatus q) (rqForce q) (rqNow q) (rqFreshID q) with
    | inl e => inl e
    | inr rev => inr (if bool_decide (rvStatus rev = Rejected) && negb (rqReason q =s [])
               then set_reason rev (rqReason q) else rev)
    end = inr new).
  { destruct (rqTimeWindow q) as [w|]; [destruct (rvTimeWindow rev); [done|]|]; eexists; (split; [|exact HD]); [|by left].
    case_bool_decide; [right; by eexists|by left]. }
  clear HD. destruct Hw as (rev' & Hrev' & Hd). destruct (doReview _ _ _ _ _ _ _) as [e|r] eqn:Hr; [done|].
  apply doReview_outcome in Hr as [Hsame Hfrom Hask Huser Hg Hs Hr].
  assert (Hn : rvStatus new = rvStatus r /\ rvReviewGroups new = rvReviewGroups r /\ rvRevokedAt new = rvRevokedAt r
    /\ new = with_verdict rev (verdict new)).
  { destruct (_ && _); simplify_eq; destruct Hrev' as [->|[w ->]]; rewrite Hsame; done. }
  destruct Hn as (Hns & Hng & Hnr & Hnew).
  split; rewrite ?Hns, ?Hng, ?Hnr; try done; destruct Hrev' as [->|[w ->]]; try done.
  all: unfold suffices in *; rewrite ?Hng; done.
Qed.

(** A review that is neither pending nor approved stays as it is. *)
Lemma decided_review_stays rev qs :
  rvStatus rev <> Pending -> rvStatus rev <> Approved -> review_run rev qs = rev.
Proof.
  intros Hp Ha. induction qs as [|q qs IH]; [done|]. cbn. unfold review_step at 2.
  destruct (DoReview rev q) eqn:E; [exact IH|]. apply DoReview_outcome in E as [_ [?|?] _ _ _ _ _]; done.
Qed.

(** ** Approvals add up *)

(** A plain approval. *)
Definition approval (rev : Review) (q : Request) : Prop :=
  rqStatus q = Approved /\ rqForce q = false /\ rqTimeWindow q = None /\ may_approve rev q.

Lemma reviewed_not_eligible ctx s now gs :
  existsb (eligible ctx) gs = false -> map (reviewed ctx s now) gs = gs.
Proof.
  induction gs as [|g gs IH]; [done|]. cbn. intros [Hg Hgs]%orb_false_iff. unfold reviewed at 1.
  by rewrite Hg, IH.
Qed.

(** The step an approval makes on a review that can still be decided. *)
Lemma approval_step rev q :
  rvStatus rev = Pending \/ rvStatus rev = Approved -> approval rev q ->
  let gs := map (reviewed (rqCtx q) Approved (rqNow q)) (rvReviewGroups rev) in
  review_step rev q = rev /\ gs = rvReviewGroups rev
  \/ rvReviewGroups (review_step rev q) = gs
     /\ review_step rev q = with_verdict rev (verdict (review_step rev q))
     /\ rvStatus (review_step rev q) =
          if approvedCount gs =? reviewsCountNeeded rev (rqConn q) then Approved else rvStatus rev.
Proof.
  intros Hfrom (Ha & Hf & Hw & Hu) gs.
  assert (Hv : validateReviewStatusTransition (rqCtx q) rev Approved = None).
  { unfold validateReviewStatusTransition. destruct Hu as [Hu|Hu]; destruct Hfrom as [-> | ->]; cbn;
      rewrite ?Hu, ?andb_false_r; try done; by rewrite (bool_decide_eq_false_2 _ Hu). }
  unfold review_step, DoReview, doReview. rewrite Hw, Ha, Hf, Hv. unfold doIndividualReview. fold gs.
  destruct (negb _ && negb _) eqn:E.
  - left. split; [done|]. apply andb_true_iff in E as [E%negb_true_iff _]. by apply reviewed_not_eligible.
  - right. rewrite (bool_decide_eq_true_2 (Approved = Approved)) by done.
    rewrite (bool_decide_eq_false_2 (Approved = Rejected)), (bool_decide_eq_false_2 (Approved = Revoked)) by done.
    rewrite andb_false_r. destruct (_ =? _); [done|].
    destruct Hfrom as [E1|E1]; repeat (case_bool_decide; cbn in *; try congruence); done.
Qed.

Lemma reviewed_keeps_approved ctx now g :
  is_approved g || eligible ctx g = true -> is_approved (reviewed ctx Approved now g) = true.
Proof. unfold reviewed. destruct (eligible ctx g); [done|by rewrite orb_false_r]. Qed.

Lemma reviewed_name ctx s now g : rgGroupName (reviewed ctx s now g) = rgGroupName g.
Proof. unfold reviewed. by destruct (eligible ctx g). Qed.

Lemma eligible_reviewed ctx ctx' s now g : eligible ctx' (reviewed ctx s now g) = eligible ctx' g.
Proof. unfold eligible. by rewrite reviewed_name. Qed.

Lemma approvedCount_all gs : Forall (fun g => is_approved g = true) gs -> approvedCount gs = Z.of_nat (length gs).
Proof.
  unfold approvedCount. induction 1 as [|g gs Hg _ IH]; [done|]. cbn. rewrite Hg. cbn. lia.
Qed.

Lemma approvedCount_reviewed ctx now gs :
  approvedCount gs <= approvedCount (map (reviewed ctx Approved now) gs).
Proof.
  unfold approvedCount. induction gs as [|g gs IH]; [done|]. cbn.
  assert (Hg := reviewed_keeps_approved ctx now g). destruct (is_approved g) eqn:E; cbn in Hg.
  - rewrite Hg by done. cbn. lia.
  - destruct (is_approved (reviewed ctx Approved now g)); cbn; lia.
Qed.

(** C37 When every group has to approve, it does not matter who approves in which
    order, or how often: once each group has a member among them the review is
    approved. *)
Theorem unanimous_review_completes rev qs :
  rvStatus rev = Pending -> Exists (fun g => is_approved g = false) (rvReviewGroups rev) ->
  Forall (fun q => approval rev q /\ reviewsCountNeeded rev (rqConn q) = Z.of_nat (length (rvReviewGroups rev))) qs ->
  Forall (fun g => is_approved g = true \/ Exists (fun q => eligible (rqCtx q) g = true) qs) (rvReviewGroups rev) ->
  rvStatus (review_run rev qs) = Approved
  /\ Forall (fun g => is_approved g = true) (rvReviewGroups (review_run rev qs)).
Proof.
  intros Hp He. assert (Hi : (rvStatus rev = Pending \/ rvStatus rev = Approved)
    /\ (Forall (fun g => is_approved g = true) (rvReviewGroups rev) -> rvStatus rev = Approved)).
  { split; [by left|]. intros Hall. apply Exists_exists in He as (g & Hg & Hn).
    rewrite Forall_forall in Hall. specialize (Hall g Hg). congruence. }
  clear Hp He. revert rev Hi. induction qs as [|q qs IH]; intros rev [Hfrom Hdone] Hqs Hcov; cbn.
  { assert (Forall (fun g => is_approved g = true) (rvReviewGroups rev)); [|by auto].
    eapply Forall_impl; [exact Hcov|]. intros g [?|Hx]; [done|by inversion Hx]. }
  apply Forall_cons in Hqs as [[Happ Hneed] Hqs].
  destruct (approval_step rev q Hfrom Happ) as [[Hsame Hgs]|(Hgs & Hnew & Hst)].
  - rewrite Hsame. apply IH; [done|done|]. rewrite Forall_forall in Hcov |- *. intros g Hg.
    destruct (Hcov g Hg) as [?|[Hx|?]%Exists_cons]; [by left| |by right]. left.
    rewrite <- Hgs in Hg. apply list_elem_of_fmap in Hg as (g0 & -> & Hg0).
    apply reviewed_keeps_approved. rewrite eligible_reviewed in Hx. by rewrite Hx, orb_true_r.
  - set (rev' := review_step rev q) in *.
    assert (Hlen : length (rvReviewGroups rev') = length (rvReviewGroups rev)) by (by rewrite Hgs, length_map).
    apply IH.
    + rewrite Hst. split; [destruct (_ =? _); auto|]. intros Hall.
      rewrite <- Hgs, (approvedCount_all _ Hall), Hneed, Hlen, Z.eqb_refl. done.
    + eapply Forall_impl; [exact Hqs|]. intros x [Hx Hn]. rewrite Hnew. unfold approval, may_approve in *.
      split; [done|]. revert Hn. unfold reviewsCountNeeded. cbn. by rewrite Hlen.
    + rewrite Hgs. apply Forall_map. eapply Forall_impl; [exact Hcov|]. intros g Hg. cbn.
      destruct Hg as [?|[Hx|Hx]%Exists_cons]; [left|left|right];
        try (apply reviewed_keeps_approved, orb_true_iff; by auto).
      eapply Exists_impl; [exact Hx|]. intros q' Hq'. by rewrite eligible_reviewed.
Qed.

(** ** Departures *)

(** The count is compared for equality: a review that has more approvals than
    it needs, which a user of two groups can bring about, stays pending
    whatever is approved after that. *)
Lemma overshot_review_stays_pending rev qs :
  rvStatus rev = Pending ->
  Forall (fun q => approval rev q /\ reviewsCountNeeded rev (rqConn q) < approvedCount (rvReviewGroups rev)) qs ->
  rvStatus (review_run rev qs) = Pending.
Proof.
  revert rev. induction qs as [|q qs IH]; intros rev Hp Hqs; [done|]. cbn.
  apply Forall_cons in Hqs as [[Happ Hlt] Hqs].
  destruct (approval_step rev q (or_introl Hp) Happ) as [[-> _]|(Hgs & Hnew & Hst)]; [by apply IH|].
  set (rev' := review_step rev q) in *.
  assert (Hc := approvedCount_reviewed (rqCtx q) (rqNow q) (rvReviewGroups rev)).
  apply IH.
  - rewrite Hst. destruct (_ =? _) eqn:E; [apply Z.eqb_eq in E; lia|done].
  - eapply Forall_impl; [exact Hqs|]. intros x [Hx Hn]. rewrite Hgs.
    split; [rewrite Hnew; exact Hx|]. eapply Z.le_lt_trans; [|eapply Z.lt_le_trans; [exact Hn|exact Hc]].
    rewrite Hnew. unfold reviewsCountNeeded. cbn. rewrite Hgs, length_map. lia.
Qed.

(** A window within a day is enforced exactly. *)
Lemma day_window_exact GroupAuditor ctx email rev now w s e startTime endTime :
  rvStatus rev = Approved -> rvTimeWindow rev = Some w -> (twType w =s B "time_range") = true ->
  twConfiguration w !! start_time = Some s -> twConfiguration w !! end_time = Some e ->
  time_Parse_1504 s = Some startTime -> time_Parse_1504 e = Some endTime -> startTime <= endTime ->
  canExecReviewedSession GroupAuditor ctx email rev now = None <->
  (email = owEmail (cxUser ctx) \/ GroupAuditor ∈ cxGroups ctx \/ IsAdmin ctx = true)
  /\ startTime <= now mod day <= endTime.
Proof.
  intros Ha Hw Ht Hs He Hps Hpe Hle. unfold canExecReviewedSession.
  rewrite Ha, Hw, Ht, Hs, He, Hps, Hpe. rewrite (proj2 (Z.ltb_ge _ _) Hle).
  rewrite (bool_decide_eq_true_2 (Approved = Approved)) by done. cbn [negb].
  destruct (email =s _) eqn:E1, (bool_decide (_ ∈ _)) eqn:E2, (IsAdmin ctx) eqn:E3; cbn [orb negb];
    rewrite ?seqb_eq in E1; rewrite ?bool_decide_eq_true, ?bool_decide_eq_false in E2;
    destruct (now mod day <? startTime) eqn:E4, (endTime <? now mod day) eqn:E5; cbn [orb];
    rewrite ?Z.ltb_lt, ?Z.ltb_ge in E4; rewrite ?Z.ltb_lt, ?Z.ltb_ge in E5; split; try done; try naive_solver lia.
  all: intros [[?|[?|?]] _]; [subst; by rewrite seqb_refl in E1|done|done].
Qed.

(** A window over midnight is open until midnight only. *)
Lemma overnight_window_ends_at_midnight GroupAuditor ctx email rev now w s e startTime endTime :
  rvTimeWindow rev = Some w ->
  twConfiguration w !! start_time = Some s -> twConfiguration w !! end_time = Some e ->
  time_Parse_1504 s = Some startTime -> time_Parse_1504 e = Some endTime ->
  endTime < startTime -> now mod day <= endTime ->
  canExecReviewedSession GroupAuditor ctx email rev now <> None.
Proof.
  intros Hw Hs He Hps Hpe Hlt Hn. unfold canExecReviewedSession. rewrite Hw, Hs, He, Hps, Hpe.
  rewrite (proj2 (Z.ltb_lt _ _) Hlt). rewrite (proj2 (Z.ltb_lt (now mod day) startTime)) by lia.
  repeat case_match; done.
Qed.
End Reviewing.

(** ** Concrete reviews *)

Section Examples.
Definition ex_admin : bytes := B "admin".

Definition ex_user (id : bytes) (groups : list bytes) : UserContext :=
  {| cxUser := {| owID := id; owEmail := id; owName := id; owSlackID := [] |}; cxGroups := groups |}.
Definition ex_conn (force : list bytes) (needed : option Z) : Connection :=
  {| cnForceApproveGroups := Some force; cnMinReviewApprovals := needed; cnAccessMaxDuration := None |}.
Definition ex_group (name : bytes) : ReviewGroup :=
  {| rgID := name; rgGroupName := name; rgStatus := Pending; rgOwner := None; rgReviewedAt := None; rgForcedReview := false |}.
Definition ex_review (t : ReviewType) (groups : list bytes) : Review :=
  {| rvID := B "r"; rvSessionID := B "s"; rvType := t; rvStatus := Pending; rvConnectionName := B "c";
     rvConnectionID := Some (B "c"); rvBlobInput := []; rvInputEnvVars := None; rvInputClientArgs := None;
     rvAccessDurationSec := 1800; rvOwner := cxUser (ex_user (B "owner") []); rvReviewGroups := ex_group <$> groups;
     rvAccessRequestRuleName := None; rvForceApprovalGroups := None; rvMinApprovals := None; rvCreatedAt := 0;
     rvRevokedAt := None; rvTimeWindow := None; rvRejectionReason := None |}.
Definition ex_request (conn : Connection) (force : bool) (status : ReviewStatus) (now : Z) (c : UserContext) : Request :=
  {| rqCtx := c; rqConn := conn; rqStatus := status; rqTimeWindow := None; rqForce := force; rqReason := [];
     rqNow := now; rqFreshID := B "new" |}.
Definition ex_db (r : Review) : Db := {| dbReviews := [r]; dbSessions := {[rvSessionID r := B "open"]}; dbInputs := ∅ |}.

(** Two groups, a member of each. *)
Lemma unanimous_review_completes_witness :
  rvStatus (review_run ex_admin (ex_review OneTime [B "dba"; B "sec"])
    (ex_request (ex_conn [] None) false Approved 0 <$> [ex_user (B "ann") [B "sec"]; ex_user (B "bob") [B "dba"]]))
  = Approved.
Proof.
  apply (unanimous_review_completes ex_admin).
  - reflexivity.
  - by left.
  - apply Forall_cons; split; [|apply Forall_cons; split; [|apply Forall_nil]]; repeat split; by left.
  - apply Forall_cons; split; [|apply Forall_cons; split; [|by apply Forall_nil]]; right.
    + apply Exists_cons; right; apply Exists_cons; left. reflexivity.
    + apply Exists_cons; left. reflexivity.
Defined.

(** Two approvals are needed and three are given, by two users. *)
Lemma two_groups_overshoot :
  let conn := ex_conn [] (Some 2) in
  let rev := review_run ex_admin (ex_review OneTime [B "dba"; B "sec"; B "ops"])
    (ex_request conn false Approved 0 <$> [ex_user (B "ann") [B "sec"]; ex_user (B "bob") [B "dba"; B "ops"]]) in
  rvStatus rev = Pending /\ approvedCount (rvReviewGroups rev) = 3 /\ reviewsCountNeeded rev conn = 2.
Proof. vm_compute. repeat split. Qed.

(** Each approval of an approved review starts its time again. *)
Lemma second_approval_extends_access :
  let conn := ex_conn [] (Some 1) in
  let rev := review_run ex_admin (ex_review Jit [B "dba"; B "sec"])
    [ex_request conn false Approved 0 (ex_user (B "ann") [B "sec"]);
     ex_request conn false Approved (seconds 1700) (ex_user (B "bob") [B "dba"])] in
  rvStatus rev = Approved /\ rvRevokedAt rev = Some (seconds 3500).
Proof. vm_compute. repeat split. Qed.

(** What a request on the rows computes. *)
Definition ex_answer (db : Db) (q : Request) : option Review :=
  match GetReviewByIdOrSid (B "r") db with
  | Some rev => match DoReview ex_admin rev q with inr new => Some new | inl _ => None end
  | None => None
  end.
Definition ex_statuses (db : Db) : list (ReviewStatus * list ReviewStatus) :=
  (fun r => (rvStatus r, rgStatus <$> rvReviewGroups r)) <$> dbReviews db.
Definition ex_forced (db : Db) : list (list bool) := (fun r => rgForcedReview <$> rvReviewGroups r) <$> dbReviews db.

(** A request read before a rejection and written after it undoes it. *)
Lemma stale_approval_undoes_rejection :
  let conn := ex_conn [] (Some 1) in
  let db := ex_db (ex_review Jit [B "dba"; B "sec"]) in
  (approved ← ex_answer db (ex_request conn false Approved 0 (ex_user (B "ann") [B "sec"]));
   rejected ← ex_answer db (ex_request conn false Rejected 0 (ex_user (B "bob") [B "dba"]));
   db1 ← UpdateReview rejected db; db2 ← UpdateReview approved db1;
   Some (ex_statuses db1, ex_statuses db2))
  = Some ([(Rejected, [Rejected; Pending])], [(Approved, [Pending; Approved])]).
Proof. vm_compute. reflexivity. Qed.

(** The mark of a forced approval does not survive the next request, since it
    is not read back. *)
Lemma forced_mark_lost :
  let conn := ex_conn [B "lead"] None in
  let db := ex_db (ex_review Jit [B "dba"]) in
  (forced ← ex_answer db (ex_request conn true Approved 0 (ex_user (B "ann") [B "lead"]));
   db1 ← UpdateReview forced db;
   revoked ← ex_answer db1 (ex_request conn false Revoked 1 (ex_user (B "bob") [B "dba"]));
   db2 ← UpdateReview revoked db1;
   Some (ex_forced db1, ex_forced db2))
  = Some ([[false; true]], [[false; false]]).
Proof. vm_compute. reflexivity. Qed.

(** Without the plugin on the connection, a session whose review is rejected or
    whose window is closed passes the handler's check. *)
Lemma rule_review_window_unchecked GroupAuditor ctx email rev now :
  exec_check ex_admin false GroupAuditor ctx email rev now = None.
Proof. done. Qed.
End Examples.
