(* ===== verification/ReviewGate.v ===== *)
(** * Letting reviewed sessions through: src/gateway/transport/interceptors/accessrequest,
      src/gateway/transport/plugins/review, src/gateway/transport/client.go, proxymanager.go,
      and the writers of reviews in src/gateway/api/session, connections and mcpserver

    The packet that opens a session passes the access request interceptor and
    the review plugin.  Each looks for a review that lets the session run,
    answers that it waits for one, or creates it.  Reviewers act through
    [DoReview] meanwhile, and other handlers of the API write reviews too: for
    credentials, for the findings of the analyzer, for sessions provisioned
    with their approval, and when an approved review is executed through MCP.
    The whole is a transition system over the tables, from any contents of
    them, in which a request is read in one step and written in another.  A
    ledger on the side keeps what was decided, for the theorem to refer to.

    The clock, fresh identifiers and failures of the database come with each
    packet as an [Env]; time.ParseDuration and gob are arguments. *)

From S2P Require Import Prelude GoStrings GoText Review.

#[local] Open Scope Z_scope.

(** ** Data *)

Definition SpecHasReviewKey : bytes := B "gateway.has_review".
Definition SpecGatewaySessionID : bytes := B "gateway.session_id".
Definition SpecJitTimeout : bytes := B "jit.timeout".
Definition SpecClientExecEnvVar : bytes := B "terminal.envvars".
Definition SpecClientExecArgsKey : bytes := B "terminal.args".
Definition ConnectionOriginClient : bytes := B "client".
Definition ClientVerbConnect : bytes := B "connect".
Definition ClientVerbPlainExec : bytes := B "plain-exec".
Definition SessionOpen : bytes := B "AgentSessionOpen".
Definition OSSType : bytes := B "oss".

Record Packet := { pkType : bytes; pkPayload : bytes; pkSpec : gmap bytes bytes }.

(** The plugin context; the deadline is that of its [Context]. *)
Record PluginContext := {
  pcSID : bytes;
  pcUser : Owner;
  pcUserGroups : list bytes;
  pcConnectionID : bytes;
  pcConnectionName : bytes;
  pcClientVerb : bytes;
  pcClientOrigin : bytes;
  pcOrgLicenseType : bytes;
  pcPluginConnectionConfig : list bytes;
  pcDeadline : option Z;
}.

Definition pcUserID (p : PluginContext) : bytes := owID (pcUser p).

Record AccessRequestRule := {
  arName : bytes;
  arApprovalRequiredGroups : list bytes;
  arAllGroupsMustApprove : bool;
  arReviewersGroups : list bytes;
  arForceApprovalGroups : option (list bytes);
  arSkipReviewGroups : list bytes;
  arAccessMaxDuration : option Z;
  arMinApprovals : option Z;
}.

(** What the world answers while a packet is handled.  A rule or a connection
    that could not be read is [None], one that is not there [Some None]. *)
Record Env := {
  evNow : Z;
  evReviewFails : bool;
  evJitFails : bool;
  evStatusFails : bool;
  evCreateFails : bool;
  evInputFails : bool;
  evOrgParses : bool;
  evRule : option (option AccessRequestRule);
  evConnection : option (option Connection);
  evReviewID : bytes;
  evGroupID : nat -> bytes;
}.

Inductive GateError := InternalErr | InvalidArgument | EnterpriseOnly.

(** No response or one that sets the session's deadline, the client told to
    wait at an address, an error, or a panic. *)
Inductive Answer :=
  | Pass (deadline : option Z)
  | Waiting (url : bytes)
  | Fails (e : GateError)
  | Panics.

(** ** JIT reviews *)

(** [time.Time{}]. *)
Definition zero_time : Z := -62135596800 * second.

Inductive JitCheck := JitValid | JitExpired | JitInconsistent.

Definition validateJit (jit : ReviewJit) (t : Z) : JitCheck :=
  match jtRevokedAt jit with
  | None => JitInconsistent
  | Some r => if r =? zero_time then JitInconsistent else if r <? t then JitExpired else JitValid
  end.

(** [context.WithTimeout] on the session's context. *)
Definition with_timeout (parent : option Z) (now d : Z) : Z :=
  match parent with Some p => Z.min p (now + d) | None => now + d end.

(** The deadline of a session a review lets run, none, or an error. *)
Definition getValidatedJitReview (pctx : PluginContext) (e : Env) (db : Db) : GateError + option Z :=
  if evJitFails e then inl InternalErr
  else
    match GetApprovedReviewJit (pcUserID pctx) (pcConnectionID pctx) db with
    | None => inr None
    | Some jit =>
        match validateJit jit (evNow e) with
        | JitExpired => inr None
        | JitValid => inr (Some (with_timeout (pcDeadline pctx) (evNow e) (seconds (jtAccessDurationSec jit))))
        | JitInconsistent => inl InternalErr
        end
    end.

(** ** One-time reviews *)

Inductive OneTimeCheck := OtApproved | OtWaiting (url : bytes) | OtNone.

Definition session_url (apiURL sid : bytes) : bytes := apiURL ++ B "/sessions/" ++ sid.

Definition runnable (s : ReviewStatus) : bool := bool_decide (s = Approved) || bool_decide (s = Processing).

Definition getValidatedOneTimeReview (apiURL : bytes) (pctx : PluginContext) (e : Env) (db : Db) :
    (GateError + OneTimeCheck) * Db :=
  if evReviewFails e then (inl InternalErr, db)
  else
    match GetReviewByIdOrSid (pcSID pctx) db with
    | Some otrev =>
        if bool_decide (rvType otrev = OneTime) then
          if negb (runnable (rvStatus otrev)) then (inr (OtWaiting (session_url apiURL (rvSessionID otrev))), db)
          else if bool_decide (rvStatus otrev = Approved) then
            if evStatusFails e then (inl InternalErr, db)
            else match UpdateReviewStatus (rvID otrev) Processing db with
                 | Some db => (inr OtApproved, db)
                 | None => (inl InternalErr, db)
                 end
          else (inr OtApproved, db)
        else (inr OtNone, db)
    | None => (inr OtNone, db)
    end.

(** ** New reviews *)

Definition pending_groups (names : list bytes) (e : Env) : list ReviewGroup :=
  imap (fun i name => {| rgID := evGroupID e i; rgGroupName := name; rgStatus := Pending; rgOwner := None;
                         rgReviewedAt := None; rgForcedReview := false |}) names.

(** The input of an ad-hoc execution. *)
Record ExecInput := { eiText : bytes; eiEnvVars : option (gmap bytes bytes); eiArgs : option (list bytes) }.
Definition no_input : ExecInput := {| eiText := []; eiEnvVars := None; eiArgs := None |}.

Definition new_review (pctx : PluginContext) (e : Env) (jit : bool) (duration : Z) (i : ExecInput)
    (groups : list ReviewGroup) (rule : option bytes) (force : option (list bytes)) (needed : option Z) : Review :=
  {| rvID := evReviewID e; rvSessionID := pcSID pctx; rvType := if jit then Jit else OneTime; rvStatus := Pending;
     rvConnectionName := pcConnectionName pctx; rvConnectionID := Some (pcConnectionID pctx);
     rvBlobInput := eiText i; rvInputEnvVars := eiEnvVars i; rvInputClientArgs := eiArgs i;
     rvAccessDurationSec := Z.quot duration second; rvOwner := pcUser pctx; rvReviewGroups := groups;
     rvAccessRequestRuleName := rule; rvForceApprovalGroups := force; rvMinApprovals := needed;
     rvCreatedAt := evNow e; rvRevokedAt := None; rvTimeWindow := None; rvRejectionReason := None |}.

Definition create (r : Review) (e : Env) (db : Db) : option Db := if evCreateFails e then None else CreateReview r db.

Definition UpdateSessionInput (sid input : bytes) (e : Env) (db : Db) : option Db :=
  if evInputFails e then None
  else Some {| dbReviews := dbReviews db; dbSessions := dbSessions db; dbInputs := <[sid := input]> (dbInputs db) |}.

Definition setSpecReview (pkt : Packet) : Packet :=
  {| pkType := pkType pkt; pkPayload := pkPayload pkt; pkSpec := <[SpecHasReviewKey := B "true"]> (pkSpec pkt) |}.

Section Gate.
(** time.ParseDuration, and gob for environment and arguments. *)
Context (ParseDuration : bytes -> option Z).
Context (GobDecodeEnv : bytes -> option (gmap bytes bytes)) (GobDecodeArgs : bytes -> option (list bytes)).
Context (apiURL : bytes).

(** [Hours() > 48]. *)
Definition over_limit (max : option Z) (d : Z) : bool :=
  match max with
  | Some m => seconds m <? d
  | None => 48 * 3600 * second <? d
  end.

Definition exec_input (pkt : Packet) : option ExecInput :=
  match (match pkSpec pkt !! SpecClientExecEnvVar with
         | Some b => match GobDecodeEnv b with Some m => Some (Some m) | None => None end
         | None => Some None
         end) with
  | None => None
  | Some env =>
      match (match pkSpec pkt !! SpecClientExecArgsKey with
             | Some b => match GobDecodeArgs b with Some l => Some (Some l) | None => None end
             | None => Some None
             end) with
      | None => None
      | Some args => Some {| eiText := pkPayload pkt; eiEnvVars := env; eiArgs := args |}
      end
  end.

(** *** The interceptor *)

Definition createReview (pctx : PluginContext) (e : Env) (jit : bool) (rule : AccessRequestRule) (duration : Z)
    (i : ExecInput) (db : Db) : (Answer + Review) * Db :=
  let groups := pending_groups (arReviewersGroups rule) e in
  match (if arAllGroupsMustApprove rule then Some (Z.of_nat (length groups)) else arMinApprovals rule) with
  | None => (inl Panics, db)
  | Some needed =>
      let r := new_review pctx e jit duration i groups (Some (arName rule)) (arForceApprovalGroups rule) (Some needed) in
      match create r e db with
      | None => (inl (Fails InternalErr), db)
      | Some db =>
          if HasPrefix (pcClientOrigin pctx) ConnectionOriginClient then
            match UpdateSessionInput (pcSID pctx) (eiText i) e db with
            | None => (inl (Fails InternalErr), db)
            | Some db => (inr r, db)
            end
          else (inr r, db)
      end
  end.

(** The groups of a rule that need a review, or skip it. *)
Definition rule_spares (rule : AccessRequestRule) (groups : list bytes) : bool :=
  negb (bool_decide (arApprovalRequiredGroups rule = [])) && negb (SlicesHasIntersection (arApprovalRequiredGroups rule) groups).
Definition rule_skips (rule : AccessRequestRule) (groups : list bytes) : bool :=
  bool_decide (arApprovalRequiredGroups rule = []) && negb (bool_decide (arSkipReviewGroups rule = []))
  && SlicesHasIntersection (arSkipReviewGroups rule) groups.

(** Step 3 of the handler: a new review by the connection's rule. *)
Definition review_by_rule (pctx : PluginContext) (pkt : Packet) (e : Env) (db : Db) : Answer * Packet * Db :=
  let durationStr := default (B "15m") (pkSpec pkt !! SpecJitTimeout) in
  let jit := pcClientVerb pctx =s ClientVerbConnect in
  if negb (evOrgParses e) then (Panics, pkt, db)
  else
    match evRule e with
    | None => (Fails InternalErr, pkt, db)
    | Some None => (Pass None, pkt, db)
    | Some (Some rule) =>
        if rule_spares rule (pcUserGroups pctx) then (Pass None, pkt, db)
        else
          match (if jit then ParseDuration durationStr else Some 0) with
          | None => (Fails InvalidArgument, pkt, db)
          | Some d =>
              if jit && over_limit (arAccessMaxDuration rule) d then (Fails InvalidArgument, pkt, db)
              else if rule_skips rule (pcUserGroups pctx) then (Pass None, pkt, db)
              else
                match (if jit then Some no_input else exec_input pkt) with
                | None => (Fails InternalErr, pkt, db)
                | Some i =>
                    match createReview pctx e jit rule d i db with
                    | (inl a, db) => (a, pkt, db)
                    | (inr r, db) => (Waiting (session_url apiURL (rvSessionID r)), setSpecReview pkt, db)
                    end
                end
          end
    end.

Definition interceptor_OnReceive (pctx : PluginContext) (pkt : Packet) (e : Env) (db : Db) : Answer * Packet * Db :=
  if pcClientVerb pctx =s ClientVerbPlainExec then (Pass None, pkt, db)
  else if negb (pkType pkt =s SessionOpen) then (Pass None, pkt, db)
  else
    match getValidatedOneTimeReview apiURL pctx e db with
    | (inl err, db) => (Fails err, pkt, db)
    | (inr (OtWaiting url), db) => (Waiting url, setSpecReview pkt, db)
    | (inr OtApproved, db) => (Pass None, pkt, db)
    | (inr OtNone, db) =>
        match (if pcClientVerb pctx =s ClientVerbConnect then getValidatedJitReview pctx e db else inr None) with
        | inl err => (Fails err, pkt, db)
        | inr (Some deadline) => (Pass (Some deadline), setSpecReview pkt, db)
        | inr None => review_by_rule pctx pkt e db
        end
    end.

(** *** The plugin *)

(** The creation both variants end with. *)
Definition plugin_create (r : Review) (pkt : Packet) (e : Env) (db : Db) : Answer * Packet * Db :=
  match create r e db with
  | None => (Fails InternalErr, setSpecReview pkt, db)
  | Some db => (Waiting (session_url apiURL (rvSessionID r)), setSpecReview pkt, db)
  end.

Definition onReceiveOSS (pctx : PluginContext) (pkt : Packet) (e : Env) (db : Db) : Answer * Packet * Db :=
  if negb (pcClientVerb pctx =s ClientVerbConnect) then (Fails EnterpriseOnly, pkt, db)
  else
    match getValidatedJitReview pctx e db with
    | inl err => (Fails err, pkt, db)
    | inr (Some deadline) => (Pass (Some deadline), pkt, db)
    | inr None =>
        match pkSpec pkt !! SpecJitTimeout with
        | Some s =>
            match ParseDuration s with
            | None => (Fails InvalidArgument, pkt, db)
            | Some d =>
                if over_limit None d then (Fails InvalidArgument, pkt, db)
                else if bool_decide (pcPluginConnectionConfig pctx = []) then (Fails InternalErr, pkt, db)
                else plugin_create (new_review pctx e true d no_input (pending_groups (pcPluginConnectionConfig pctx) e) None None None)
                       pkt e db
            end
        | None =>
            if bool_decide (pcPluginConnectionConfig pctx = []) then (Fails InternalErr, pkt, db)
            else plugin_create (new_review pctx e true (30 * 60 * second) no_input
                                  (pending_groups (pcPluginConnectionConfig pctx) e) None None None) pkt e db
        end
    end.

(** A new review by the groups of the plugin's configuration. *)
Definition review_by_plugin (pctx : PluginContext) (pkt : Packet) (e : Env) (db : Db) : Answer * Packet * Db :=
  let durationStr := default (B "30m") (pkSpec pkt !! SpecJitTimeout) in
  let jit := pcClientVerb pctx =s ClientVerbConnect in
  match (if jit
         then match ParseDuration durationStr with
              | None => inl (Fails InvalidArgument)
              | Some d => match evConnection e with
                          | None => inl (Fails InternalErr)
                          | Some None => inl Panics
                          | Some (Some c) =>
                              if over_limit (cnAccessMaxDuration c) d then inl (Fails InvalidArgument) else inr d
                          end
              end
         else inr 0) with
  | inl a => (a, pkt, db)
  | inr d =>
      if bool_decide (pcPluginConnectionConfig pctx = []) then (Fails InternalErr, pkt, db)
      else
        match (if jit then Some no_input else exec_input pkt) with
        | None => (Fails InternalErr, pkt, db)
        | Some i =>
            let r := new_review pctx e jit d i (pending_groups (pcPluginConnectionConfig pctx) e) None None None in
            if HasPrefix (pcClientOrigin pctx) ConnectionOriginClient then
              match UpdateSessionInput (pcSID pctx) (eiText i) e db with
              | None => (Fails InternalErr, pkt, db)
              | Some db => plugin_create r pkt e db
              end
            else plugin_create r pkt e db
        end
  end.

Definition plugin_OnReceive (pctx : PluginContext) (pkt : Packet) (e : Env) (db : Db) : Answer * Packet * Db :=
  if bool_decide (pkSpec pkt !! SpecHasReviewKey = Some (B "true")) then (Pass None, pkt, db)
  else if negb (pkType pkt =s SessionOpen) then (Pass None, pkt, db)
  else if pcOrgLicenseType pctx =s OSSType then onReceiveOSS pctx pkt e db
  else
    match getValidatedOneTimeReview apiURL pctx e db with
    | (inl err, db) => (Fails err, pkt, db)
    | (inr (OtWaiting url), db) => (Waiting url, setSpecReview pkt, db)
    | (inr OtApproved, db) => (Pass None, pkt, db)
    | (inr OtNone, db) =>
        match getValidatedJitReview pctx e db with
        | inl err => (Fails err, pkt, db)
        | inr (Some deadline) => (Pass (Some deadline), pkt, db)
        | inr None => review_by_plugin pctx pkt e db
        end
    end.

(** *** A packet of a client *)

Definition with_deadline (pctx : PluginContext) (d : option Z) : PluginContext :=
  {| pcSID := pcSID pctx; pcUser := pcUser pctx; pcUserGroups := pcUserGroups pctx;
     pcConnectionID := pcConnectionID pctx; pcConnectionName := pcConnectionName pctx;
     pcClientVerb := pcClientVerb pctx; pcClientOrigin := pcClientOrigin pctx;
     pcOrgLicenseType := pcOrgLicenseType pctx; pcPluginConnectionConfig := pcPluginConnectionConfig pctx;
     pcDeadline := first_some d (pcDeadline pctx) |}.

Definition run_plugin (on : bool) (pctx : PluginContext) (pkt : Packet) (e : Env) (db : Db) : Answer * Packet * Db :=
  if on then plugin_OnReceive pctx pkt e db else (Pass None, pkt, db).

(** One turn of [listenClientMessages]: [Pass] goes on to the agent.  [on] says
    whether the review plugin is on for the connection; the other plugins and
    the extensions, which can only refuse or wait besides, are not part of this. *)
Definition client_packet (on : bool) (pctx : PluginContext) (pkt : Packet) (ei ep : Env) (db : Db) : Answer * Db :=
  let pkt := {| pkType := pkType pkt; pkPayload := pkPayload pkt;
                pkSpec := <[SpecGatewaySessionID := pcSID pctx]> (pkSpec pkt) |} in
  match interceptor_OnReceive pctx pkt ei db with
  | (Fails err, _, db) => (Fails err, db)
  | (Panics, _, db) => (Panics, db)
  | (Waiting url, pkt, db) =>
      match run_plugin on pctx pkt ep db with
      | (Fails err, _, db) => (Fails err, db)
      | (Panics, _, db) => (Panics, db)
      | (_, _, db) => (Waiting url, db)
      end
  | (Pass d, pkt, db) =>
      match run_plugin on (with_deadline pctx d) pkt ep db with
      | (Fails err, _, db) => (Fails err, db)
      | (Panics, _, db) => (Panics, db)
      | (Waiting url, _, db) => (Waiting url, db)
      | (Pass d', _, db) => (Pass (first_some d' d), db)
      end
  end.

(** The open packet [proccessConnectOKAck] makes for the desktop client: the
    plugins see it, the interceptor does not. *)
Definition managed_open (on : bool) (pctx : PluginContext) (timeout port : bytes) (ep : Env) (db : Db) : Answer * Db :=
  let pkt := {| pkType := SessionOpen; pkPayload := [];
                pkSpec := <[SpecJitTimeout := timeout]> (<[SpecGatewaySessionID := pcSID pctx]>
                            {[B "client.request_port" := port]}) |} in
  let '(a, _, db) := run_plugin on pctx pkt ep db in (a, db).
End Gate.

(** ** The other writers of reviews

    Three handlers of the API create reviews: one for credentials, one for what
    the analyzer wants a human to look at, and one that provisions a session
    together with its approval. *)

Inductive Creation := Created (id : bytes) | CreateFailed | CreatePanics.

(** The connection of a request, as far as reviews go. *)
Record ApiConnection := { acID : bytes; acName : bytes; acReviewers : list bytes }.

(** Where a review of the API comes from; the rule and the session differ. *)
Definition api_review (e : Env) (ty : ReviewType) (sid : bytes) (conn : ApiConnection) (connID : option bytes)
    (owner : Owner) (duration : Z)
    (i : ExecInput) (status : ReviewStatus) (groups : list ReviewGroup) (rule : option bytes)
    (force : option (list bytes)) (needed : option Z) (window : option TimeWindow) (revoked : option Z) : Review :=
  {| rvID := evReviewID e; rvSessionID := sid; rvType := ty; rvStatus := status;
     rvConnectionName := acName conn; rvConnectionID := connID;
     rvBlobInput := eiText i; rvInputEnvVars := eiEnvVars i; rvInputClientArgs := eiArgs i;
     rvAccessDurationSec := Z.quot duration second; rvOwner := owner; rvReviewGroups := groups;
     rvAccessRequestRuleName := rule; rvForceApprovalGroups := force; rvMinApprovals := needed;
     rvCreatedAt := evNow e; rvRevokedAt := revoked; rvTimeWindow := window; rvRejectionReason := None |}.

(** [createConnectionCredentialsReview]; [user] is whether the user is found.
    The rule is read at the end, also when there is none. *)
Definition createConnectionCredentialsReview (user : bool) (owner : Owner) (conn : ApiConnection)
    (rule : option AccessRequestRule) (sid : bytes) (accessDurationSec : Z) (e : Env) (db : Db) : Creation * Db :=
  if negb user then (CreateFailed, db)
  else
    let groups :=
      match rule with
      | Some r => if bool_decide (arReviewersGroups r = []) then acReviewers conn else arReviewersGroups r
      | None => acReviewers conn
      end in
    if bool_decide (groups = []) then (CreateFailed, db)
    else
      match rule with
      | None => (CreatePanics, db)
      | Some r =>
          let rev := api_review e Jit sid conn (Some (acID conn)) owner (seconds accessDurationSec) no_input Pending
            (pending_groups groups e) (Some (arName r)) (arForceApprovalGroups r) (arMinApprovals r) None None in
          match create rev e db with
          | Some db => (Created (evReviewID e), db)
          | None => (CreateFailed, db)
          end
      end.

(** [checkConnectionRequiresReview]; [None] is an error of the database. *)
Definition checkConnectionRequiresReview (userGroups : list bytes) (conn : ApiConnection)
    (found : option (option AccessRequestRule)) : option (bool * option AccessRequestRule) :=
  if bool_decide (acReviewers conn = []) then
    match found with
    | None => None
    | Some None => Some (false, None)
    | Some (Some r) => Some (negb (rule_skips r userGroups), Some r)
    end
  else Some (true, None).

(** [CreateReviewFromAIAnalysis]; the message to Slack is left out. *)
Definition CreateReviewFromAIAnalysis (sid : bytes) (conn : ApiConnection) (requester : Owner)
    (rule : option AccessRequestRule) (i : ExecInput) (e : Env) (db : Db) : Creation * Db :=
  match rule with
  | None => (CreateFailed, db)
  | Some r =>
      if bool_decide (arReviewersGroups r = []) then (CreateFailed, db)
      else
        let groups := pending_groups (arReviewersGroups r) e in
        let all := Z.of_nat (length groups) in
        let needed := if arAllGroupsMustApprove r then all else default all (arMinApprovals r) in
        let rev := api_review e OneTime sid conn (if acID conn =s [] then None else Some (acID conn)) requester 0 i Pending groups
          (Some (arName r)) (arForceApprovalGroups r) (Some needed) None None in
        match create rev e db with
        | Some db => (Created (evReviewID e), db)
        | None => (CreateFailed, db)
        end
  end.

(** A session provisioned with an API key: for whom, by whom, on what, and the
    groups whose approval the caller brings along, nil as [None]. *)
Record Provision := {
  pvSession : bytes;
  pvConnection : ApiConnection;
  pvUser : Owner;
  pvBy : Owner;
  pvApprovedReviewers : option (list bytes);
  pvAccessDurationSec : option Z;
  pvTimeWindow : option TimeWindow;
  pvInput : ExecInput;
  pvEnv : Env;
}.

Section Provision.
Context (GroupAdmin : bytes).

Definition provision_groups (c : Provision) : list bytes :=
  if bool_decide (acReviewers (pvConnection c) = []) then [GroupAdmin] else acReviewers (pvConnection c).

Definition provision_approved (c : Provision) : list bytes :=
  if bool_decide (acReviewers (pvConnection c) = []) then [GroupAdmin]
  else default (acReviewers (pvConnection c)) (pvApprovedReviewers c).

Definition provision_duration (c : Provision) : Z :=
  match pvAccessDurationSec c with Some n => seconds n | None => 0 end.

Definition provisioned_group (c : Provision) (i : nat) (name : bytes) : ReviewGroup :=
  if bool_decide (name ∈ provision_approved c)
  then {| rgID := evGroupID (pvEnv c) i; rgGroupName := name; rgStatus := Approved; rgOwner := Some (pvBy c);
          rgReviewedAt := Some (evNow (pvEnv c)); rgForcedReview := false |}
  else {| rgID := evGroupID (pvEnv c) i; rgGroupName := name; rgStatus := Pending; rgOwner := None;
          rgReviewedAt := None; rgForcedReview := false |}.

Definition areAllGroupsApproved (c : Provision) : bool :=
  forallb (fun name => bool_decide (name ∈ provision_approved c)) (provision_groups c).

(** The review that is stored. *)
Definition provisioned_review (c : Provision) (window : option TimeWindow) : Review :=
  let duration := provision_duration c in
  let jit := 0 <? duration in
  api_review (pvEnv c) (if jit then Jit else OneTime) (pvSession c) (pvConnection c)
    (Some (acID (pvConnection c))) (pvUser c) duration
    (if jit then no_input else pvInput c) (if areAllGroupsApproved c then Approved else Pending)
    (imap (provisioned_group c) (provision_groups c)) None None None window
    (if jit then Some (evNow (pvEnv c) + duration) else None).

(** [createApprovedReview]: whether all groups are approved, or an error. *)
Definition createApprovedReview (c : Provision) (db : Db) : option bool * Db :=
  if 48 * 3600 * second <? provision_duration c then (None, db)
  else
    match ParseTimeWindow (pvTimeWindow c) with
    | None => (None, db)
    | Some window =>
        match create (provisioned_review c window) (pvEnv c) db with
        | Some db => (Some (areAllGroupsApproved c), db)
        | None => (None, db)
        end
    end.
End Provision.

(** ** Reviewers and sessions together *)

(** A request [DoReview] answered: what it read, and what it is to write. *)
Record Decision := { dcRead : Review; dcReq : Request; dcNew : Review }.

(** All that was decided so far: the answers of [DoReview], the calls that
    provisioned a review, and the reviews that were there at the start. *)
Record Ledger := { lgDecisions : list Decision; lgProvisioned : list Provision; lgOld : list Review }.

(** The tables, the answers on their way to them, the approved reviews being
    executed through MCP, and the ledger. *)
Record World := { wDb : Db; wInflight : list Review; wRunning : list Review; wLog : Ledger }.

Section World.
Context (GroupAdmin GroupAuditor : bytes).
Context (ParseDuration : bytes -> option Z).
Context (GobDecodeEnv : bytes -> option (gmap bytes bytes)) (GobDecodeArgs : bytes -> option (list bytes)).
Context (apiURL : bytes).

Inductive Move :=
  | MRead (idOrSid : bytes) (q : Request)
  | MWrite (k : nat) (fails : bool)
  | MClient (on : bool) (pctx : PluginContext) (pkt : Packet) (ei ep : Env)
  | MManaged (on : bool) (pctx : PluginContext) (timeout port : bytes) (ep : Env)
  | MSession (sid status : bytes)
  | MExecuted (id : bytes)
  | MFinish (sid : bytes)
  | MReconcile
  | MCredentials (user : bool) (owner : Owner) (conn : ApiConnection) (rule : option AccessRequestRule) (sid : bytes)
      (accessDurationSec : Z) (e : Env)
  | MAnalysis (sid : bytes) (conn : ApiConnection) (requester : Owner) (rule : option AccessRequestRule) (i : ExecInput)
      (e : Env)
  | MProvision (c : Provision)
  | MExecute (idOrSid : bytes) (ctx : UserContext) (sessionUserEmail : bytes) (now : Z)
  | MExecuteEnds (k : nat) (consent fails : bool).

Definition set_db (w : World) (db : Db) : World :=
  {| wDb := db; wInflight := wInflight w; wRunning := wRunning w; wLog := wLog w |}.

Definition read_request (w : World) (idOrSid : bytes) (q : Request) : World :=
  match GetReviewByIdOrSid idOrSid (wDb w) with
  | None => w
  | Some rev =>
      match DoReview GroupAdmin rev q with
      | inl _ => w
      | inr new =>
          {| wDb := wDb w; wInflight := wInflight w ++ [new]; wRunning := wRunning w;
             wLog := {| lgDecisions := lgDecisions (wLog w) ++ [{| dcRead := rev; dcReq := q; dcNew := new |}];
                        lgProvisioned := lgProvisioned (wLog w); lgOld := lgOld (wLog w) |} |}
      end
  end.

Definition write_request (w : World) (k : nat) (fails : bool) : World :=
  match wInflight w !! k with
  | None => w
  | Some rev =>
      {| wDb := if fails then wDb w else default (wDb w) (UpdateReview rev (wDb w));
         wInflight := delete k (wInflight w); wRunning := wRunning w; wLog := wLog w |}
  end.

(** A provisioned session; the ledger has the call when its review is stored. *)
Definition provision (w : World) (c : Provision) : World :=
  match createApprovedReview GroupAdmin c (wDb w) with
  | (Some _, db) =>
      {| wDb := db; wInflight := wInflight w; wRunning := wRunning w;
         wLog := {| lgDecisions := lgDecisions (wLog w); lgProvisioned := lgProvisioned (wLog w) ++ [c];
                    lgOld := lgOld (wLog w) |} |}
  | (None, db) => set_db w db
  end.

(** [reviewsExecuteHandler] up to the execution of the review it read. *)
Definition execute_begins (w : World) (idOrSid : bytes) (ctx : UserContext) (sessionUserEmail : bytes) (now : Z) : World :=
  match GetReviewByIdOrSid idOrSid (wDb w) with
  | None => w
  | Some rev =>
      if negb (bool_decide (rvType rev = OneTime)) then w
      else
        match canExecReviewedSession GroupAdmin GroupAuditor ctx sessionUserEmail rev now with
        | Some _ => w
        | None => {| wDb := wDb w; wInflight := wInflight w; wRunning := wRunning w ++ [rev]; wLog := wLog w |}
        end
  end.

(** The rest of it: the review is executed, or approved again when the user has
    to consent first. *)
Definition execute_ends (w : World) (k : nat) (consent fails : bool) : World :=
  match wRunning w !! k with
  | None => w
  | Some rev =>
      {| wDb := if fails then wDb w
                else default (wDb w) (UpdateReviewStatus (rvID rev) (if consent then Approved else Executed) (wDb w));
         wInflight := wInflight w; wRunning := delete k (wRunning w); wLog := wLog w |}
  end.

Definition move (w : World) (m : Move) : World :=
  match m with
  | MRead id q => read_request w id q
  | MWrite k fails => write_request w k fails
  | MClient on pctx pkt ei ep =>
      set_db w (client_packet ParseDuration GobDecodeEnv GobDecodeArgs apiURL on pctx pkt ei ep (wDb w)).2
  | MManaged on pctx timeout port ep =>
      set_db w (managed_open ParseDuration GobDecodeEnv GobDecodeArgs apiURL on pctx timeout port ep (wDb w)).2
  | MSession sid status =>
      set_db w {| dbReviews := dbReviews (wDb w); dbSessions := <[sid := status]> (dbSessions (wDb w)); dbInputs := dbInputs (wDb w) |}
  | MExecuted id => set_db w (default (wDb w) (UpdateReviewStatus id Executed (wDb w)))
  | MFinish sid => set_db w (SetReviewStatusExecutedIfFinished sid (wDb w))
  | MReconcile => set_db w (ReconcileStaleReviews (wDb w))
  | MCredentials user owner conn rule sid d e =>
      set_db w (createConnectionCredentialsReview user owner conn rule sid d e (wDb w)).2
  | MAnalysis sid conn requester rule i e => set_db w (CreateReviewFromAIAnalysis sid conn requester rule i e (wDb w)).2
  | MProvision c => provision w c
  | MExecute idOrSid ctx email now => execute_begins w idOrSid ctx email now
  | MExecuteEnds k consent fails => execute_ends w k consent fails
  end.

(** Any tables to begin with. *)
Definition start (db : Db) : World :=
  {| wDb := db; wInflight := []; wRunning := [];
     wLog := {| lgDecisions := []; lgProvisioned := []; lgOld := dbReviews db |} |}.

(** ** The invariant *)

(** The user of a request approved the group, and may. *)
Definition signed (L : Ledger) (id : bytes) (g : ReviewGroup) : Prop :=
  exists d, d ∈ lgDecisions L /\ rvID (dcRead d) = id /\ rqStatus (dcReq d) = Approved
            /\ may_approve GroupAdmin (dcRead d) (dcReq d)
            /\ rgOwner g = Some (cxUser (rqCtx (dcReq d))) /\ rgGroupName g ∈ cxGroups (rqCtx (dcReq d)).

(** The caller that provisioned the review brought the approval of the group
    along, by naming it, by naming none, or because the connection has no
    reviewers. *)
Definition brought (c : Provision) (name : bytes) : Prop :=
  acReviewers (pvConnection c) = [] \/ pvApprovedReviewers c = None \/ name ∈ default [] (pvApprovedReviewers c).
Definition brought_along (L : Ledger) (id : bytes) (g : ReviewGroup) : Prop :=
  exists c, c ∈ lgProvisioned L /\ evReviewID (pvEnv c) = id /\ brought c (rgGroupName g) /\ rgOwner g = Some (pvBy c).

(** It was approved at the start. *)
Definition old_approval (L : Ledger) (id : bytes) (g : ReviewGroup) : Prop :=
  exists o g0, o ∈ lgOld L /\ rvID o = id /\ g0 ∈ rvReviewGroups o /\ rgStatus g0 = Approved
    /\ rgGroupName g0 = rgGroupName g /\ rgOwner g0 = rgOwner g.

Definition approved_group (L : Ledger) (id : bytes) (g : ReviewGroup) : Prop :=
  signed L id g \/ brought_along L id g \/ old_approval L id g.

(** A request that approved the review. *)
Definition earned (d : Decision) : Prop :=
  rvStatus (dcNew d) = Approved /\ rqStatus (dcReq d) = Approved /\ may_approve GroupAdmin (dcRead d) (dcReq d)
  /\ suffices (dcRead d) (dcReq d) (dcNew d).

(** A call that provisioned an approved review. *)
Definition all_brought (c : Provision) : Prop := forall name, name ∈ acReviewers (pvConnection c) -> brought c name.

(** Why a review may be run: a request, a call, or the start. *)
Definition vouched (L : Ledger) (id : bytes) : Prop :=
  (exists d, d ∈ lgDecisions L /\ rvID (dcNew d) = id /\ earned d)
  \/ (exists c, c ∈ lgProvisioned L /\ evReviewID (pvEnv c) = id /\ all_brought c)
  \/ (exists o, o ∈ lgOld L /\ rvID o = id /\ runnable (rvStatus o) = true).

(** Where the end of a review comes from. *)
Definition expiry_from (L : Ledger) (id : bytes) (t : Z) : Prop :=
  (exists d, d ∈ lgDecisions L /\ rvID (dcRead d) = id
    /\ rqStatus (dcReq d) = Approved /\ t = rqNow (dcReq d) + seconds (rvAccessDurationSec (dcRead d)))
  \/ (exists c, c ∈ lgProvisioned L /\ evReviewID (pvEnv c) = id
    /\ 0 < provision_duration c <= 48 * 3600 * second /\ t = evNow (pvEnv c) + provision_duration c)
  \/ (exists o, o ∈ lgOld L /\ rvID o = id /\ rvRevokedAt o = Some t).

Record justified (L : Ledger) (v : Review) : Prop := {
  jf_live : runnable (rvStatus v) = true -> vouched L (rvID v);
  jf_signed : forall g, g ∈ rvReviewGroups v -> rgStatus g = Approved -> approved_group L (rvID v) g;
  jf_expiry : forall t, rvRevokedAt v = Some t -> expiry_from L (rvID v) t;
}.

(** The row a version of a review is of. *)
Definition same_row (r v : Review) : Prop :=
  rvID r = rvID v /\ rvSessionID r = rvSessionID v /\ rvType r = rvType v /\ rvOwner r = rvOwner v
  /\ rvAccessDurationSec r = rvAccessDurationSec v.
Definition known (db : Db) (v : Review) : Prop := exists r, r ∈ dbReviews db /\ same_row r v.

Record world_inv (w : World) : Prop := {
  wi_rows : Forall (justified (wLog w)) (dbReviews (wDb w));
  wi_inflight : Forall (justified (wLog w)) (wInflight w);
  wi_running : Forall (fun v => vouched (wLog w) (rvID v)) (wRunning w);
  wi_log : Forall (fun d => justified (wLog w) (dcNew d) /\ known (wDb w) (dcNew d)) (lgDecisions (wLog w));
  wi_calls : Forall (fun c => known (wDb w) (provisioned_review GroupAdmin c None)) (lgProvisioned (wLog w));
  wi_old : Forall (known (wDb w)) (lgOld (wLog w));
  wi_ids : NoDup (rvID <$> dbReviews (wDb w));
}.

(** What an operation on the tables keeps. *)
Record evolves (log : Ledger) (db db' : Db) : Prop := {
  ev_rows : Forall (justified log) (dbReviews db) -> Forall (justified log) (dbReviews db');
  ev_known : forall v, known db v -> known db' v;
  ev_ids : NoDup (rvID <$> dbReviews db) -> NoDup (rvID <$> dbReviews db');
}.

#[local] Instance evolves_preorder log : PreOrder (evolves log).
Proof.
  split; [by intros db; split|]. intros a b c [] []. split; auto.
Qed.

(** Rows changed one by one. *)
Lemma evolves_map log db f ss ins :
  (forall r, same_row (f r) r) ->
  (Forall (justified log) (dbReviews db) -> forall r, r ∈ dbReviews db -> justified log (f r)) ->
  evolves log db {| dbReviews := map f (dbReviews db); dbSessions := ss; dbInputs := ins |}.
Proof.
  intros Hs Hj. split; cbn.
  - intros Hall. apply Forall_map, Forall_forall. auto.
  - intros v (r & Hr & Hv). exists (f r). split; [by apply list_elem_of_fmap_2|].
    destruct (Hs r) as (? & ? & ? & ? & ?), Hv as (? & ? & ? & ? & ?). repeat split; congruence.
  - intros Hn. replace (rvID <$> map f (dbReviews db)) with (rvID <$> dbReviews db); [done|].
    rewrite <- list_fmap_compose. apply list_fmap_ext. intros i r _. symmetry. apply (Hs r).
Qed.

Lemma same_row_refl r : same_row r r.
Proof. repeat split. Qed.

(** A ledger that says more. *)
Record extends (L L' : Ledger) : Prop := {
  ex_decisions : forall d, d ∈ lgDecisions L -> d ∈ lgDecisions L';
  ex_calls : forall c, c ∈ lgProvisioned L -> c ∈ lgProvisioned L';
  ex_old : forall o, o ∈ lgOld L -> o ∈ lgOld L';
}.

Lemma vouched_mono L L' id : extends L L' -> vouched L id -> vouched L' id.
Proof. intros [H1 H2 H3] [(d & ? & ?)|[(c & ? & ?)|(o & ? & ?)]]; [left|right; left|right; right]; eauto. Qed.

Lemma justified_mono log log' v : extends log log' -> justified log v -> justified log' v.
Proof.
  intros Hl [H1 H2 H3]. split.
  - intros Hv. by apply (vouched_mono log), H1.
  - destruct Hl as [E1 E2 E3]. intros g Hg Ha. destruct (H2 g Hg Ha) as [(d & ? & ?)|[(c & ? & ?)|(o & g0 & ? & ?)]];
      [left; exists d|right; left; exists c|right; right; exists o, g0]; auto.
  - destruct Hl as [E1 E2 E3]. intros t Ht. destruct (H3 t Ht) as [(d & ? & ?)|[(c & ? & ?)|(o & ? & ?)]];
      [left; exists d|right; left; exists c|right; right; exists o]; auto.
Qed.

Lemma justified_pending log v :
  rvStatus v = Pending -> Forall (fun g => rgStatus g = Pending) (rvReviewGroups v) -> rvRevokedAt v = None -> justified log v.
Proof.
  intros Hs Hg Hr. split.
  - by rewrite Hs.
  - intros g Hin Ha. rewrite Forall_forall in Hg. specialize (Hg g Hin). congruence.
  - congruence.
Qed.

(** A status that lets no session run, or one that did. *)
Lemma justified_status log v s :
  (runnable s = true -> runnable (rvStatus v) = true) -> justified log v -> justified log (set_status v s).
Proof. intros Hs [H1 H2 H3]. split; cbn; auto. Qed.

Lemma loaded_approval log id g : approved_group log id g <-> approved_group log id (loaded_group g).
Proof. done. Qed.

Lemma justified_loaded log v : justified log v -> justified log (loaded v).
Proof.
  intros [H1 H2 H3]. split; cbn; auto. intros g (g0 & -> & Hg)%list_elem_of_fmap Ha.
  apply (loaded_approval log). exact (H2 g0 Hg Ha).
Qed.

(** The groups of a written row are the written ones and the row's. *)
Lemma save_groups_elem gs row g :
  g ∈ fold_left save_group gs row -> g ∈ gs \/ g ∈ row.
Proof.
  revert row. induction gs as [|g1 gs IH]; intros row Hg; [by right|]. cbn in Hg.
  apply IH in Hg as [?|Hg]; [left; set_solver|]. unfold save_group in Hg. destruct (existsb _ row).
  - apply list_elem_of_fmap in Hg as (g2 & -> & Hg2). destruct (_ =s _); [left; set_solver|by right].
  - apply elem_of_app in Hg as [?|Hg]; [by right|left; set_solver].
Qed.

Lemma justified_write log rev row :
  rvID row = rvID rev -> justified log rev -> justified log row -> justified log (write_row rev row).
Proof.
  intros Hid [A1 A2 A3] [B1 B2 B3]. split; cbn.
  - intros Hs. rewrite Hid. auto.
  - intros g [Hg|Hg]%save_groups_elem Ha; [rewrite Hid|]; auto.
  - unfold first_some. intros t Ht. destruct (rvRevokedAt rev) eqn:E; [rewrite Hid|]; auto.
Qed.

(** Each operation on the tables. *)
Lemma UpdateReview_evolves log rev db db' :
  justified log rev -> UpdateReview rev db = Some db' -> evolves log db db'.
Proof.
  unfold UpdateReview. intros Hj. destruct (existsb _ _); [|done]. intros [= <-]. apply evolves_map.
  - intros r. destruct (_ =s _); [repeat split|apply same_row_refl].
  - intros Hall r Hr. rewrite Forall_forall in Hall. destruct (_ =s _) eqn:E; [|by apply Hall].
    apply seqb_eq in E. apply justified_write; auto.
Qed.

Lemma UpdateReviewStatus_evolves log id s db db' :
  (Forall (justified log) (dbReviews db) -> runnable s = true -> vouched log id) ->
  UpdateReviewStatus id s db = Some db' -> evolves log db db'.
Proof.
  unfold UpdateReviewStatus. intros Hl. destruct (existsb _ _); [|done]. intros [= <-]. apply evolves_map.
  - intros r. destruct (_ =s _); [repeat split|apply same_row_refl].
  - intros Hall r Hr. pose proof (Hl Hall) as Hd. rewrite Forall_forall in Hall.
    destruct (Hall r Hr) as [H1 H2 H3]. destruct (_ =s _) eqn:E; [|done]. apply seqb_eq in E as <-.
    split; cbn; auto.
Qed.

Lemma settle_evolves log p db : evolves log db (settle p db).
Proof.
  unfold settle. apply evolves_map.
  - intros r. destruct (_ && _); [repeat split|apply same_row_refl].
  - intros Hall r Hr. rewrite Forall_forall in Hall. destruct (_ && _); [|auto]. by apply justified_status; auto.
Qed.

Lemma rows_evolve log db db' : dbReviews db' = dbReviews db -> evolves log db db'.
Proof. intros E. split; unfold known; rewrite E; done. Qed.

Lemma CreateReview_stores log r db db' :
  justified log r -> CreateReview r db = Some db' -> evolves log db db' /\ known db' r.
Proof.
  intros [J1 J2 J3]. unfold CreateReview. destruct (existsb _ _) eqn:E; [done|]. destruct (negb _); [done|]. intros [= <-].
  split; [split; cbn|].
  - intros Hall. apply Forall_app_2; [done|]. apply Forall_singleton. split; cbn; auto.
    intros g (g0 & -> & Hg)%list_elem_of_fmap Ha. exact (proj1 (loaded_approval log _ g0) (J2 g0 Hg Ha)).
  - intros v (r0 & ? & ?). exists r0. set_solver.
  - intros Hn. rewrite fmap_app. apply NoDup_app. split; [done|]. split; [|apply NoDup_singleton].
    intros x (r0 & -> & Hr0)%list_elem_of_fmap Hx. apply list_elem_of_singleton in Hx. cbn in Hx.
    assert (existsb (fun r' => (rvID r' =s rvID r) || (rvSessionID r' =s rvSessionID r)) (dbReviews db) = true); [|congruence].
    apply existsb_exists. exists r0. split; [by apply list_elem_of_In|]. by rewrite Hx, seqb_refl.
  - exists (set_groups r (loaded_group <$> rvReviewGroups r)). cbn. split; [set_solver|repeat split].
Qed.

Lemma CreateReview_evolves log r db db' :
  rvStatus r = Pending -> Forall (fun g => rgStatus g = Pending) (rvReviewGroups r) -> rvRevokedAt r = None ->
  CreateReview r db = Some db' -> evolves log db db'.
Proof. intros Hs Hg Hr Hc. exact (proj1 (CreateReview_stores log r db db' (justified_pending log r Hs Hg Hr) Hc)). Qed.

Lemma pending_groups_pending names e : Forall (fun g => rgStatus g = Pending) (pending_groups names e).
Proof.
  unfold pending_groups. apply Forall_forall. intros g (i & name & -> & _)%elem_of_lookup_imap. done.
Qed.

(** Creating a review, with its failures. *)
Lemma create_evolves log pctx e jit d i names rule force needed db db' :
  create (new_review pctx e jit d i (pending_groups names e) rule force needed) e db = Some db' -> evolves log db db'.
Proof.
  unfold create. destruct (evCreateFails e); [done|]. apply CreateReview_evolves; [done| |done].
  apply pending_groups_pending.
Qed.

Lemma api_create_evolves log e ty sid conn cid owner d i names rule force needed window db db' :
  create (api_review e ty sid conn cid owner d i Pending (pending_groups names e) rule force needed window None) e db
    = Some db' -> evolves log db db'.
Proof.
  unfold create. destruct (evCreateFails e); [done|]. apply CreateReview_evolves; [done| |done].
  apply pending_groups_pending.
Qed.

Lemma UpdateSessionInput_evolves log sid input e db db' :
  UpdateSessionInput sid input e db = Some db' -> evolves log db db'.
Proof. unfold UpdateSessionInput. destruct (evInputFails e); [done|]. intros [= <-]. by apply rows_evolve. Qed.

Lemma find_review id db rev :
  GetReviewByIdOrSid id db = Some rev ->
  exists r, r ∈ dbReviews db /\ rev = loaded r /\ (rvID r = id \/ rvSessionID r = id).
Proof.
  unfold GetReviewByIdOrSid. destruct (List.find _ _) as [r|] eqn:E; [|done]. intros [= <-].
  apply find_some in E as [Hr%list_elem_of_In Hb%orb_true_iff]. exists r. rewrite !seqb_eq in Hb. done.
Qed.

Lemma one_time_evolves log pctx e db a db' :
  getValidatedOneTimeReview apiURL pctx e db = (a, db') -> evolves log db db'.
Proof.
  unfold getValidatedOneTimeReview. destruct (evReviewFails e); [by intros [= _ <-]|].
  destruct (GetReviewByIdOrSid _ _) as [rev|] eqn:Hf; [|by intros [= _ <-]].
  destruct (bool_decide _); [|by intros [= _ <-]]. destruct (negb (runnable _)) eqn:Hrun; [by intros [= _ <-]|].
  case_bool_decide as Ha; [|by intros [= _ <-]]. destruct (evStatusFails e); [by intros [= _ <-]|].
  destruct (UpdateReviewStatus _ _ _) as [db1|] eqn:Hu; intros [= _ <-]; [|done].
  eapply UpdateReviewStatus_evolves; [|exact Hu]. intros Hall _.
  apply find_review in Hf as (r & Hr & -> & _). rewrite Forall_forall in Hall.
  destruct (Hall r Hr) as [Hl _ _]. apply Hl. cbn in Ha. by rewrite Ha.
Qed.


(** Follow a handler through its branches, and put together what they did to
    the tables. *)
Ltac branch :=
  match goal with
  | H : ?x = ?x |- _ => clear H
  | H : (_, _) = (_, _) |- _ => injection H as; subst
  | H : (_, _, _) = (_, _, _) |- _ => injection H as; subst
  | H : context [match ?x with _ => _ end] |- _ => destruct x eqn:?
  end.
Ltac evolution :=
  repeat branch; try done;
  repeat match goal with
  | H : create _ _ _ = Some _ |- _ => eapply create_evolves in H
  | H : UpdateSessionInput _ _ _ _ = Some _ |- _ => eapply UpdateSessionInput_evolves in H
  | H : getValidatedOneTimeReview _ _ _ _ = (_, _) |- _ => eapply one_time_evolves in H
  end; first [done|eassumption|etrans; eassumption].

Lemma createReview_evolves log pctx e jit rule d i db a db' :
  createReview pctx e jit rule d i db = (a, db') -> evolves log db db'.
Proof. unfold createReview. intros Hc. evolution. Qed.

Lemma review_by_rule_evolves log pctx pkt e db a pkt' db' :
  review_by_rule ParseDuration GobDecodeEnv GobDecodeArgs apiURL pctx pkt e db = (a, pkt', db') -> evolves log db db'.
Proof.
  unfold review_by_rule. intros Hc. repeat branch; try done; by eapply createReview_evolves.
Qed.

Lemma plugin_create_evolves log pctx e jit d i names rule force needed pkt db a pkt' db' :
  plugin_create apiURL (new_review pctx e jit d i (pending_groups names e) rule force needed) pkt e db = (a, pkt', db') ->
  evolves log db db'.
Proof. unfold plugin_create. intros Hc. evolution. Qed.

Lemma interceptor_evolves log pctx pkt e db a pkt' db' :
  interceptor_OnReceive ParseDuration GobDecodeEnv GobDecodeArgs apiURL pctx pkt e db = (a, pkt', db') -> evolves log db db'.
Proof.
  unfold interceptor_OnReceive. intros Hc.
  destruct (_ =s _); [by branch|]. destruct (negb _); [by branch|].
  destruct (getValidatedOneTimeReview _ _ _ _) as [[err|[]] db1] eqn:Ho; try evolution.
  etrans; [by eapply one_time_evolves|]. repeat (destruct (_ =s _) || branch); try done; by eapply review_by_rule_evolves.
Qed.

Lemma plugin_evolves log on pctx pkt e db a pkt' db' :
  run_plugin ParseDuration GobDecodeEnv GobDecodeArgs apiURL on pctx pkt e db = (a, pkt', db') -> evolves log db db'.
Proof.
  unfold run_plugin, plugin_OnReceive. intros Hc. destruct on; [|by branch].
  destruct (bool_decide _); [by branch|]. destruct (negb _); [by branch|]. destruct (_ =s _).
  - unfold onReceiveOSS in Hc. repeat branch; try done; by eapply plugin_create_evolves.
  - destruct (getValidatedOneTimeReview _ _ _ _) as [[err|[]] db1] eqn:Ho; try evolution.
    etrans; [by eapply one_time_evolves|]. destruct (getValidatedJitReview _ _ _) as [|[]]; [by branch|by branch|].
    unfold review_by_plugin in Hc. repeat branch; try done; try (by eapply plugin_create_evolves).
    all: etrans; [by eapply UpdateSessionInput_evolves|by eapply plugin_create_evolves].
Qed.

Lemma client_evolves log on pctx pkt ei ep db a db' :
  client_packet ParseDuration GobDecodeEnv GobDecodeArgs apiURL on pctx pkt ei ep db = (a, db') -> evolves log db db'.
Proof.
  unfold client_packet. intros Hc.
  destruct (interceptor_OnReceive _ _ _ _ _ _ _ _) as [[a1 pkt1] db1] eqn:Hi. apply (interceptor_evolves log) in Hi.
  etrans; [exact Hi|]. destruct a1; try (by branch).
  all: destruct (run_plugin _ _ _ _ _ _ _ _ _) as [[a2 pkt2] db2] eqn:Hp; apply (plugin_evolves log) in Hp;
    destruct a2; branch; done.
Qed.

(** *** The steps keep it *)

Lemma evolves_inv w db : world_inv w -> evolves (wLog w) (wDb w) db -> world_inv (set_db w db).
Proof.
  intros [H1 H2 H3 H4 H5 H6 H7] [E1 E2 E3]. split; cbn; auto.
  - eapply Forall_impl; [exact H4|]. intros d [? ?]. auto.
  - eapply Forall_impl; [exact H5|]. auto.
  - eapply Forall_impl; [exact H6|]. auto.
Qed.

(** A ledger that says more about the same tables. *)
Definition log_decision (L : Ledger) (d : Decision) : Ledger :=
  {| lgDecisions := lgDecisions L ++ [d]; lgProvisioned := lgProvisioned L; lgOld := lgOld L |}.
Definition log_call (L : Ledger) (c : Provision) : Ledger :=
  {| lgDecisions := lgDecisions L; lgProvisioned := lgProvisioned L ++ [c]; lgOld := lgOld L |}.

Lemma log_decision_extends L d : extends L (log_decision L d).
Proof. split; cbn; set_solver. Qed.
Lemma log_call_extends L c : extends L (log_call L c).
Proof. split; cbn; set_solver. Qed.

Lemma decision_justified log rev q new :
  justified log rev -> DoReview GroupAdmin rev q = inr new ->
  justified (log_decision log {| dcRead := rev; dcReq := q; dcNew := new |}) new /\ same_row rev new.
Proof.
  intros Hj HD. apply DoReview_outcome in HD as [Hsame Hfrom Hask Huser Hgroups Hstatus Hrevoked].
  set (d := {| dcRead := rev; dcReq := q; dcNew := new |}).
  assert (Hid : rvID new = rvID rev) by (by rewrite Hsame).
  assert (Hd : d ∈ lgDecisions (log_decision log d)) by (cbn; set_solver).
  apply (justified_mono _ _ _ (log_decision_extends log d)) in Hj. destruct Hj as [J1 J2 J3].
  assert (Hask' : rvStatus new = Approved -> rqStatus q = Approved) by (destruct Hstatus as [[_ ?]|[<- _]]; done).
  split; [split|].
  - rewrite Hid. intros Hrun. destruct Hstatus as [[Hst Hq]|[Hst Hsuf]]; [rewrite Hst in Hrun; auto|].
    left. exists d. split; [done|]. split; [done|]. rewrite Hst in Hrun.
    assert (Hq : rqStatus q = Approved) by (destruct Hask as [?|[Ha|Ha]]; [done|by rewrite Ha in Hrun..]).
    repeat split; cbn; [congruence|done|auto|auto].
  - rewrite Hid. intros g Hg Ha. destruct (Hgroups g Hg) as [Hold|(Hs & Ho & Hn)]; [auto|].
    assert (Hq : rqStatus q = Approved) by congruence. left. exists d. repeat split; cbn; auto.
  - rewrite Hid. intros t Ht. rewrite Hrevoked in Ht. case_bool_decide as Ha; [|auto].
    left. exists d. repeat split; cbn; auto. by simplify_eq.
  - rewrite Hsame. repeat split.
Qed.

Lemma read_inv w id q : world_inv w -> world_inv (read_request w id q).
Proof.
  intros Hw. pose proof Hw as [H1 H2 Hr' H3 H5 H6 H4]. unfold read_request. destruct (GetReviewByIdOrSid _ _) as [rev|] eqn:Hf; [|done].
  apply find_review in Hf as (r & Hr & -> & _). rewrite Forall_forall in H1.
  destruct (DoReview _ _ _) as [|new] eqn:HD; [done|].
  eapply decision_justified in HD as [Hnew (R1 & R2 & R3 & R4 & R5)]; [|by apply justified_loaded, H1].
  set (d0 := {| dcRead := _; dcReq := _; dcNew := _ |}) in *. fold (log_decision (wLog w) d0).
  pose proof (log_decision_extends (wLog w) d0) as Hext.
  assert (Hmono : forall v, justified (wLog w) v -> justified (log_decision (wLog w) d0) v)
    by (intros v; by apply justified_mono).
  split; cbn [wDb wInflight wRunning wLog].
  - apply Forall_forall. auto.
  - apply Forall_app_2; [|by apply Forall_singleton]. eapply Forall_impl; [exact H2|auto].
  - eapply Forall_impl; [exact Hr'|]. intros v. by apply vouched_mono.
  - cbn. apply Forall_app_2; [eapply Forall_impl; [exact H3|]; intros d [? ?]; auto|].
    apply Forall_singleton. split; [done|]. exists r. repeat split; done.
  - done.
  - done.
  - done.
Qed.

(** A review through the API: what is approved is what the caller brought. *)
Lemma provision_approved_brought c name :
  name ∈ provision_approved GroupAdmin c -> name ∈ provision_groups GroupAdmin c -> brought c name.
Proof.
  unfold provision_approved, provision_groups, brought. case_bool_decide; [by left|].
  destruct (pvApprovedReviewers c); cbn; auto.
Qed.

Lemma provisioned_justified L c window : 
  c ∈ lgProvisioned L -> provision_duration c <= 48 * 3600 * second ->
  justified L (provisioned_review GroupAdmin c window).
Proof.
  intros Hc Hd. split; cbn.
  - destruct (areAllGroupsApproved GroupAdmin c) eqn:E; [|done]. intros _. right. left. exists c.
    split; [done|]. split; [done|]. intros name Hn. unfold areAllGroupsApproved in E. rewrite forallb_forall in E.
    assert (name ∈ provision_groups GroupAdmin c) as Hg
      by (unfold provision_groups; case_bool_decide as E0; [rewrite E0 in Hn; set_solver|done]).
    apply provision_approved_brought; [|done]. specialize (E name). apply bool_decide_eq_true in E; [done|].
    by apply list_elem_of_In.
  - intros g (i & name & -> & Hl)%elem_of_lookup_imap. unfold provisioned_group. case_bool_decide as Ha; [|done].
    intros _. right. left. exists c. cbn. split; [done|]. split; [done|]. split; [|done].
    apply provision_approved_brought; [done|]. by apply list_elem_of_lookup_2 in Hl.
  - intros t. destruct (0 <? provision_duration c) eqn:E; [|done]. apply Z.ltb_lt in E. intros [= <-].
    right. left. exists c. done.
Qed.

Lemma provision_inv w c : world_inv w -> world_inv (provision w c).
Proof.
  intros Hw. pose proof Hw as [H1 H2 H3 H4 H5 H6 H7]. unfold provision, createApprovedReview.
  destruct (_ <? provision_duration c) eqn:Ed; [by apply evolves_inv|]. apply Z.ltb_ge in Ed.
  destruct (ParseTimeWindow _) as [window|]; [|by apply evolves_inv].
  destruct (create _ _ _) as [db|] eqn:Ec; [|by apply evolves_inv].
  fold (log_call (wLog w) c). pose proof (log_call_extends (wLog w) c) as Hext.
  assert (Hmono : forall v, justified (wLog w) v -> justified (log_call (wLog w) c) v)
    by (intros v; by apply justified_mono).
  unfold create in Ec. destruct (evCreateFails _); [done|].
  assert (justified (log_call (wLog w) c) (provisioned_review GroupAdmin c window)) as Hj
    by (apply provisioned_justified; [cbn; set_solver|done]).
  destruct (CreateReview_stores _ _ _ _ Hj Ec) as [[E1 E2 E3] (r & Hr & Hsame)].
  split; cbn [wDb wInflight wRunning wLog].
  - apply E1. eapply Forall_impl; [exact H1|auto].
  - eapply Forall_impl; [exact H2|auto].
  - eapply Forall_impl; [exact H3|]. intros v. by apply vouched_mono.
  - eapply Forall_impl; [exact H4|]. intros d [? ?]. auto.
  - cbn. apply Forall_app_2; [eapply Forall_impl; [exact H5|auto]|]. apply Forall_singleton. exists r. split; [done|exact Hsame].
  - eapply Forall_impl; [exact H6|auto].
  - auto.
Qed.

Lemma execute_begins_inv w id ctx email now : world_inv w -> world_inv (execute_begins w id ctx email now).
Proof.
  intros Hw. pose proof Hw as [H1 H2 H3 H4 H5 H6 H7]. unfold execute_begins.
  destruct (GetReviewByIdOrSid _ _) as [rev|] eqn:Hf; [|done]. destruct (negb _); [done|].
  destruct (canExecReviewedSession _ _ _ _ _ _) eqn:Hx; [done|]. split; cbn; try done.
  apply Forall_app_2; [done|]. apply Forall_singleton. apply find_review in Hf as (r & Hr & -> & _).
  rewrite Forall_forall in H1. destruct (H1 r Hr) as [Hl _ _]. apply Hl.
  unfold canExecReviewedSession in Hx. destruct (negb _); [done|].
  destruct (negb (bool_decide (rvStatus (loaded r) = Approved))) eqn:Es; [done|].
  apply negb_false_iff, bool_decide_eq_true in Es. cbn in Es. by rewrite Es.
Qed.

Lemma execute_ends_inv w k consent fails : world_inv w -> world_inv (execute_ends w k consent fails).
Proof.
  intros Hw. unfold execute_ends. destruct (wRunning w !! k) as [rev|] eqn:Hk; [|done].
  assert (Hdel : forall db, world_inv (set_db w db) ->
    world_inv {| wDb := db; wInflight := wInflight w; wRunning := delete k (wRunning w); wLog := wLog w |}).
  { intros db []. split; cbn in *; auto. by apply Forall_delete. }
  apply Hdel. destruct fails; [by apply evolves_inv|]. apply evolves_inv; [done|].
  destruct (UpdateReviewStatus _ _ _) eqn:Hu; [|done]. eapply UpdateReviewStatus_evolves; [|exact Hu]. intros _ _.
  exact (Forall_lookup_1 _ _ _ _ (wi_running _ Hw) Hk).
Qed.

Lemma write_inv w k fails : world_inv w -> world_inv (write_request w k fails).
Proof.
  intros Hw. unfold write_request. destruct (wInflight w !! k) as [rev|] eqn:Hk; [|done].
  assert (Hdel : forall db, world_inv (set_db w db) ->
    world_inv {| wDb := db; wInflight := delete k (wInflight w); wRunning := wRunning w; wLog := wLog w |}).
  { intros db []. split; cbn in *; auto. by apply Forall_delete. }
  apply Hdel. destruct fails; [by apply evolves_inv|]. apply evolves_inv; [done|].
  destruct (UpdateReview rev (wDb w)) eqn:Hu; [|done]. eapply UpdateReview_evolves; [|exact Hu].
  by apply (Forall_lookup_1 _ _ _ _ (wi_inflight _ Hw) Hk).
Qed.

Lemma move_inv w m : world_inv w -> world_inv (move w m).
Proof.
  intros Hw. destruct m; cbn; try (by auto using read_inv, write_inv, provision_inv, execute_begins_inv, execute_ends_inv);
    apply evolves_inv; try done.
  - destruct (client_packet _ _ _ _ _ _ _ _ _ _) eqn:E. by eapply client_evolves.
  - unfold managed_open. destruct (run_plugin _ _ _ _ _ _ _ _ _) as [[] ] eqn:E. by eapply plugin_evolves.
  - destruct (UpdateReviewStatus _ _ _) eqn:E; [|done].
    eapply UpdateReviewStatus_evolves; [|exact E]. done.
  - apply settle_evolves.
  - apply settle_evolves.
  - unfold createConnectionCredentialsReview. repeat case_match; cbn; try done; by eapply api_create_evolves.
  - unfold CreateReviewFromAIAnalysis. repeat case_match; cbn; try done; by eapply api_create_evolves.
Qed.

Lemma start_inv db : NoDup (rvID <$> dbReviews db) -> world_inv (start db).
Proof.
  intros Hn. split; cbn; try done; try constructor.
  - apply Forall_forall. intros v Hv. split; cbn.
    + intros Hr. right. right. by exists v.
    + intros g Hg Ha. right. right. by exists v, g.
    + intros t Ht. right. right. by exists v.
  - apply Forall_forall. intros v Hv. exists v. split; [done|apply same_row_refl].
Qed.

Lemma world_run_inv db ms : NoDup (rvID <$> dbReviews db) -> world_inv (fold_left move ms (start db)).
Proof.
  intros Hn. pose proof (start_inv db Hn) as Hs. revert Hs. generalize (start db). induction ms as [|m ms IH]; intros w Hw; [done|]. cbn. by apply IH, move_inv.
Qed.

(** *** Who passes *)

(** The review that lets the session run. *)
Definition lets_run (db : Db) (pctx : PluginContext) (now : Z) (r : Review) : Prop :=
  r ∈ dbReviews db /\
  (rvType r = OneTime /\ (rvID r = pcSID pctx \/ rvSessionID r = pcSID pctx) /\ runnable (rvStatus r) = true
   \/ jit_of (pcUserID pctx) (pcConnectionID pctx) r = true /\ exists t, rvRevokedAt r = Some t /\ now <= t).

Lemma one_time_pass pctx e db db' :
  getValidatedOneTimeReview apiURL pctx e db = (inr OtApproved, db') -> exists r, lets_run db' pctx (evNow e) r.
Proof.
  unfold getValidatedOneTimeReview. destruct (evReviewFails e); [done|].
  destruct (GetReviewByIdOrSid _ _) as [rev|] eqn:Hf; [|done]. apply find_review in Hf as (r & Hr & -> & Hsid).
  case_bool_decide as Ht; [|done]. destruct (negb (runnable _)) eqn:Hrun; [done|]. apply negb_false_iff in Hrun.
  case_bool_decide as Ha.
  - destruct (evStatusFails e); [done|]. unfold UpdateReviewStatus. destruct (existsb _ _); [|done].
    intros [= <-]. exists (set_status r Processing). split.
    + cbn. apply list_elem_of_fmap. exists r. by rewrite seqb_refl.
    + left. done.
  - intros [= <-]. exists r. split; [done|]. left. done.
Qed.

Lemma newest_elem rs best r :
  fold_left newer rs best = Some r -> best = Some r \/ r ∈ rs.
Proof.
  revert best. induction rs as [|r1 rs IH]; intros best Hf; [by left|]. cbn in Hf.
  apply IH in Hf as [Hf|Hf]; [|right; set_solver]. unfold newer in Hf.
  destruct best; [destruct (_ <? _)|]; simplify_eq; [right; set_solver|by left|right; set_solver].
Qed.

Lemma jit_pass pctx e db d :
  getValidatedJitReview pctx e db = inr (Some d) -> exists r, lets_run db pctx (evNow e) r.
Proof.
  unfold getValidatedJitReview. destruct (evJitFails e); [done|]. unfold GetApprovedReviewJit, approved_jit.
  destruct (fold_left _ _ _) as [r|] eqn:Hr; [|done]. cbn. apply newest_elem in Hr as [|Hr]; [done|].
  apply list_elem_of_In, filter_In in Hr as [Hr%list_elem_of_In Hj]. unfold validateJit. cbn.
  destruct (rvRevokedAt r) as [t|] eqn:Ht; [|done]. destruct (_ =? _); [done|]. destruct (_ <? _) eqn:Hlt; [done|].
  intros _. exists r. split; [done|]. right. split; [done|]. exists t. split; [done|]. by apply Z.ltb_ge.
Qed.

(** The rule of the connection asks this user for a review. *)
Definition rule_asks (pctx : PluginContext) (e : Env) : Prop :=
  (pcClientVerb pctx =s ClientVerbPlainExec) = false /\
  exists rule, evRule e = Some (Some rule) /\ rule_spares rule (pcUserGroups pctx) = false
               /\ rule_skips rule (pcUserGroups pctx) = false.

Lemma rule_pass pctx pkt e db d pkt' db' :
  review_by_rule ParseDuration GobDecodeEnv GobDecodeArgs apiURL pctx pkt e db = (Pass d, pkt', db') ->
  ~ rule_asks pctx e /\ pkt' = pkt.
Proof.
  unfold review_by_rule, createReview. intros Hc. repeat branch; split; try done;
    intros (_ & rule & Hr & H1 & H2); congruence.
Qed.

Lemma interceptor_pass pctx pkt e db d pkt' db' :
  interceptor_OnReceive ParseDuration GobDecodeEnv GobDecodeArgs apiURL pctx pkt e db = (Pass d, pkt', db') ->
  (pkType pkt =s SessionOpen) = true ->
  pkType pkt' = pkType pkt /\
  ((exists r, lets_run db' pctx (evNow e) r) \/ ~ rule_asks pctx e /\ pkt' = pkt).
Proof.
  unfold interceptor_OnReceive. intros Hc Ht. rewrite Ht in Hc. cbn [negb] in Hc.
  destruct (pcClientVerb pctx =s ClientVerbPlainExec) eqn:Hp.
  { branch. split; [done|]. right. split; [|done]. intros [? _]. congruence. }
  destruct (getValidatedOneTimeReview _ _ _ _) as [[err|[]] db1] eqn:Ho; try (by branch).
  { branch. split; [done|]. left. by eapply one_time_pass. }
  destruct (if _ =s ClientVerbConnect then _ else _) as [err|[dl|]] eqn:Hj; try (by branch).
  - destruct (_ =s ClientVerbConnect); [|done]. branch. split; [done|]. left. by eapply jit_pass.
  - apply rule_pass in Hc as [Hn ->]. split; [done|]. by right.
Qed.

Lemma plugin_pass pctx pkt e db d pkt' db' :
  plugin_OnReceive ParseDuration GobDecodeEnv GobDecodeArgs apiURL pctx pkt e db = (Pass d, pkt', db') ->
  (pkType pkt =s SessionOpen) = true -> pkSpec pkt !! SpecHasReviewKey <> Some (B "true") ->
  exists r, lets_run db' pctx (evNow e) r.
Proof.
  unfold plugin_OnReceive. intros Hc Ht Hk. rewrite Ht in Hc. cbn [negb] in Hc.
  rewrite bool_decide_eq_false_2 in Hc by done. destruct (_ =s OSSType).
  - unfold onReceiveOSS in Hc. destruct (negb _); [done|].
    destruct (getValidatedJitReview _ _ _) as [|[dl|]] eqn:Hj; [done|branch; by eapply jit_pass|].
    unfold plugin_create in Hc. repeat branch; done.
  - destruct (getValidatedOneTimeReview _ _ _ _) as [[err|[]] db1] eqn:Ho; try (by branch).
    { branch. by eapply one_time_pass. }
    destruct (getValidatedJitReview _ _ _) as [|[dl|]] eqn:Hj; [done|branch; by eapply jit_pass|].
    unfold review_by_plugin, plugin_create in Hc. repeat branch; done.
Qed.

(** A review is asked for: by a rule, or by the plugin of a packet that does
    not say it has one. *)
Definition review_asked (on : bool) (pctx : PluginContext) (pkt : Packet) (ei : Env) : Prop :=
  rule_asks pctx ei \/ on = true /\ pkSpec pkt !! SpecHasReviewKey <> Some (B "true").

Lemma client_pass on pctx pkt ei ep db d db' :
  client_packet ParseDuration GobDecodeEnv GobDecodeArgs apiURL on pctx pkt ei ep db = (Pass d, db') ->
  (pkType pkt =s SessionOpen) = true -> review_asked on pctx pkt ei ->
  exists e r, (e = ei \/ e = ep) /\ lets_run db' pctx (evNow e) r.
Proof.
  unfold client_packet. intros Hc Ht Hask. set (pkt0 := Build_Packet _ _ _) in Hc.
  destruct (interceptor_OnReceive _ _ _ _ _ _ _ _) as [[a1 pkt1] db1] eqn:Hi.
  assert (exists d1, a1 = Pass d1) as [d1 ->].
  { destruct a1; [by eexists| |by branch|by branch]. repeat branch; done. }
  apply interceptor_pass in Hi as [Ht1 Hi]; [|done].
  destruct (run_plugin _ _ _ _ _ _ _ _ _) as [[a2 pkt2] db2] eqn:Hp.
  assert (db2 = db' /\ exists d2, a2 = Pass d2) as (-> & d2 & ->) by (destruct a2; branch; eauto).
  unfold run_plugin in Hp. destruct on.
  - destruct (decide (pkSpec pkt1 !! SpecHasReviewKey = Some (B "true"))) as [Hk|Hk].
    + assert (db' = db1) as ->.
      { unfold plugin_OnReceive in Hp. rewrite bool_decide_eq_true_2 in Hp by done. by injection Hp. }
      destruct Hi as [(r & Hr)|[Hn ->]]; [exists ei, r; auto|]. destruct Hask as [?|[_ Hk']]; [done|].
      cbn in Hk. rewrite lookup_insert_ne in Hk by done. done.
    + eapply plugin_pass in Hp as (r & Hr); [|by rewrite Ht1|done]. exists ep, r. auto.
  - injection Hp as _ _ <-. destruct Hi as [(r & Hr)|[Hn ->]]; [exists ei, r; auto|]. destruct Hask as [?|[? _]]; done.
Qed.

(** What stands behind a session that runs: a review of it, or of its user and
    connection that has not expired, which requests approved whose users were
    entitled to, which was provisioned with every approval, or which was there
    at the start and could be run then. *)
Definition approved_session (w : World) (pctx : PluginContext) (now : Z) : Prop :=
  exists r, lets_run (wDb w) pctx now r
    /\ (forall t, rvRevokedAt r = Some t -> expiry_from (wLog w) (rvID r) t)
    /\ ((exists d, d ∈ lgDecisions (wLog w) /\ same_row r (dcNew d) /\ earned d
            /\ Forall (fun g => rgStatus g = Approved -> approved_group (wLog w) (rvID r) g) (rvReviewGroups (dcNew d)))
        \/ (exists c, c ∈ lgProvisioned (wLog w) /\ same_row r (provisioned_review GroupAdmin c None) /\ all_brought c)
        \/ (exists o, o ∈ lgOld (wLog w) /\ same_row r o /\ runnable (rvStatus o) = true)).

(** The row with a given key is the one. *)
Lemma known_row db r v : NoDup (rvID <$> dbReviews db) -> r ∈ dbReviews db -> known db v -> rvID v = rvID r -> same_row r v.
Proof.
  intros Hn Hr (r' & Hr' & Hs) Hid. assert (r' = r) as ->; [|done].
  apply list_elem_of_lookup in Hr as [i Hi], Hr' as [j Hj].
  assert (i = j) as <-; [|congruence]. apply (NoDup_lookup _ i j (rvID r) Hn); rewrite list_lookup_fmap.
  - by rewrite Hi.
  - rewrite Hj. cbn. destruct Hs as [-> _]. by rewrite Hid.
Qed.

Lemma lets_run_approved w pctx now r :
  world_inv w -> lets_run (wDb w) pctx now r -> approved_session w pctx now.
Proof.
  intros [H1 _ _ H3 H5 H6 H4] Hr. pose proof Hr as [Hin Hkind].
  rewrite Forall_forall in H1. rewrite Forall_forall in H3. rewrite Forall_forall in H5. rewrite Forall_forall in H6.
  destruct (H1 r Hin) as [Hl _ Hx]. exists r. split; [done|]. split; [exact Hx|].
  destruct Hl as [(d & Hd & Hid & He)|[(c & Hc & Hid & Ha)|(o & Ho & Hid & Hrun)]].
  - destruct Hkind as [(_ & _ & ?)|[Hj _]]; [done|]. unfold jit_of in Hj.
    apply andb_true_iff in Hj as [[[_ Hs%bool_decide_eq_true]%andb_true_iff _]%andb_true_iff _]. by rewrite Hs.
  - left. exists d. destruct (H3 d Hd) as [[_ Hs _] Hk]. split; [done|]. split; [by apply (known_row (wDb w))|].
    split; [done|]. apply Forall_forall. intros g Hg Ha. rewrite <- Hid. auto.
  - right. left. exists c. split; [done|]. split; [|done]. apply (known_row (wDb w)); auto.
  - right. right. exists o. split; [done|]. split; [|done]. apply (known_row (wDb w)); auto.
Qed.

(** C7 From any tables, however requests, sessions, the other handlers that write
    reviews and housekeeping interleave, a session for which a rule or the
    plugin asks a review opens only behind a review of that session, or an
    unexpired one of its user and connection, which was approved by those
    entitled to, was provisioned through the API by a caller that named every
    reviewer as approving or left their list out, or could be run already at
    the start.  The
    plugin does not ask where the client's packet itself says that it has a
    review. *)
Theorem reviewed_session_was_approved db0 ms on pctx pkt ei ep d db' :
  NoDup (rvID <$> dbReviews db0) ->
  let w := fold_left move ms (start db0) in
  client_packet ParseDuration GobDecodeEnv GobDecodeArgs apiURL on pctx pkt ei ep (wDb w) = (Pass d, db') ->
  (pkType pkt =s SessionOpen) = true -> review_asked on pctx pkt ei ->
  exists e, (e = ei \/ e = ep) /\ approved_session (set_db w db') pctx (evNow e).
Proof.
  intros Hn w Hc Ht Hask. destruct (client_pass _ _ _ _ _ _ _ _ Hc Ht Hask) as (e & r & He & Hr).
  exists e. split; [done|]. eapply (lets_run_approved (set_db w db')); [|exact Hr].
  apply evolves_inv; [by apply world_run_inv|]. by eapply client_evolves.
Qed.
End World.

(** ** A session from its request to its start *)

Definition no_reviews : Db := {| dbReviews := []; dbSessions := ∅; dbInputs := ∅ |}.
Definition gx_rule : AccessRequestRule :=
  {| arName := B "prod"; arApprovalRequiredGroups := []; arAllGroupsMustApprove := false;
     arReviewersGroups := [B "dba"; B "sec"]; arForceApprovalGroups := None; arSkipReviewGroups := [];
     arAccessMaxDuration := None; arMinApprovals := Some 1 |}.
Definition gx_env (now : Z) (rule : option AccessRequestRule) : Env :=
  {| evNow := now; evReviewFails := false; evJitFails := false; evStatusFails := false; evCreateFails := false;
     evInputFails := false; evOrgParses := true; evRule := Some rule; evConnection := Some None;
     evReviewID := B "r"; evGroupID := fun i => B "g" ++ replicate i "0"%byte |}.
Definition gx_ctx (sid verb : bytes) : PluginContext :=
  {| pcSID := sid; pcUser := cxUser (ex_user (B "owner") []); pcUserGroups := [B "dev"]; pcConnectionID := B "c";
     pcConnectionName := B "c"; pcClientVerb := verb; pcClientOrigin := B "client"; pcOrgLicenseType := B "enterprise";
     pcPluginConnectionConfig := [B "dba"]; pcDeadline := None |}.
Definition gx_open (spec : gmap bytes bytes) : Packet := {| pkType := SessionOpen; pkPayload := B "select 1"; pkSpec := spec |}.
Definition gx_client (on : bool) := client_packet (fun _ => Some (seconds 1800)) (fun _ => None) (fun _ => None) (B "url") on.
Definition gx_move := move ex_admin (B "auditor") (fun _ => Some (seconds 1800)) (fun _ => None) (fun _ => None) (B "url").
Definition gx_approve (now : Z) (who : bytes) : Move :=
  MRead (B "s") (ex_request (ex_conn [] None) false Approved now (ex_user who [B "dba"])).

(** An execution waits, is approved, and runs. *)
Definition gx_history (verb : bytes) : list Move :=
  [MClient false (gx_ctx (B "s") verb) (gx_open ∅) (gx_env 0 (Some gx_rule)) (gx_env 0 None);
   gx_approve 0 (B "ann"); MWrite 0 false].
Definition gx_world (verb : bytes) : World := fold_left gx_move (gx_history verb) (start no_reviews).

Definition gx_after : Db :=
  (gx_client false (gx_ctx (B "s") (B "exec")) (gx_open ∅) (gx_env 9 (Some gx_rule)) (gx_env 9 None)
     (wDb (gx_world (B "exec")))).2.

Lemma reviewed_session_was_approved_witness :
  exists e, (e = gx_env 9 (Some gx_rule) \/ e = gx_env 9 None) /\
    approved_session ex_admin
      (set_db (fold_left (move ex_admin (B "auditor") (fun _ => Some (seconds 1800)) (fun _ => None) (fun _ => None) (B "url"))
                 (gx_history (B "exec")) (start no_reviews)) gx_after) (gx_ctx (B "s") (B "exec")) (evNow e).
Proof.
  apply (reviewed_session_was_approved ex_admin (B "auditor") (fun _ => Some (seconds 1800)) (fun _ => None) (fun _ => None)
    (B "url") no_reviews (gx_history (B "exec")) false (gx_ctx (B "s") (B "exec")) (gx_open ∅)
    (gx_env 9 (Some gx_rule)) (gx_env 9 None) None gx_after).
  - constructor.
  - vm_compute. reflexivity.
  - reflexivity.
  - left. split; [reflexivity|]. exists gx_rule. repeat split.
Defined.

(** ** Departures *)

(** A client that says in its open packet that there is a review needs none:
    the key the interceptor leaves for the plugin is not taken out of what the
    client sends. *)
Lemma client_key_skips_review :
  (gx_client true (gx_ctx (B "s") (B "exec")) (gx_open {[SpecHasReviewKey := B "true"]}) (gx_env 0 None) (gx_env 0 None)
     no_reviews).1 = Pass None
  /\ (gx_client true (gx_ctx (B "s") (B "exec")) (gx_open ∅) (gx_env 0 None) (gx_env 0 None) no_reviews).1
     = Waiting (B "url/sessions/s").
Proof. split; vm_compute; reflexivity. Qed.

(** The desktop client's sessions open without regard to rules. *)
Lemma managed_open_ignores_rules ParseDuration GobDecodeEnv GobDecodeArgs apiURL pctx timeout port ep db :
  managed_open ParseDuration GobDecodeEnv GobDecodeArgs apiURL false pctx timeout port ep db = (Pass None, db).
Proof. done. Qed.

(** A session opened in the last second of a review lasts as long again: its
    deadline counts from its start and not from the approval. *)
Lemma session_outlives_review :
  map rvRevokedAt (dbReviews (wDb (gx_world ClientVerbConnect))) = [Some (seconds 1800)]
  /\ (gx_client false (gx_ctx (B "t") ClientVerbConnect) (gx_open ∅) (gx_env (seconds 1799) (Some gx_rule)) (gx_env 0 None)
        (wDb (gx_world ClientVerbConnect))).1 = Pass (Some (seconds 3599)).
Proof. split; vm_compute; reflexivity. Qed.

(** A rule without a minimum, and a connection the user cannot see, are nil
    pointers. *)
Lemma missing_minimum_panics :
  let rule := {| arName := B "prod"; arApprovalRequiredGroups := []; arAllGroupsMustApprove := false;
                 arReviewersGroups := [B "dba"]; arForceApprovalGroups := None; arSkipReviewGroups := [];
                 arAccessMaxDuration := None; arMinApprovals := None |} in
  (gx_client false (gx_ctx (B "s") (B "exec")) (gx_open ∅) (gx_env 0 (Some rule)) (gx_env 0 None) no_reviews).1 = Panics.
Proof. vm_compute. reflexivity. Qed.

Lemma missing_connection_panics :
  (gx_client true (gx_ctx (B "s") ClientVerbConnect) (gx_open ∅) (gx_env 0 None) (gx_env 0 None) no_reviews).1 = Panics.
Proof. vm_compute. reflexivity. Qed.

(** Neither interceptor nor plugin looks at the window in which an approved
    execution may run. *)
Lemma closed_window_still_runs :
  let w := {| twType := B "time_range"; twConfiguration := {[start_time := B "10:00"; end_time := B "11:00"]} |} in
  let rev := set_window (set_status (ex_review OneTime [B "dba"]) Approved) w in
  canExecReviewedSession ex_admin (B "auditor") (ex_user (B "owner") []) (B "owner") rev 0 = Some ExecOutsideWindow
  /\ (gx_client true (gx_ctx (B "s") (B "exec")) (gx_open ∅) (gx_env 0 None) (gx_env 0 None) (ex_db rev)).1 = Pass None.
Proof. split; vm_compute; reflexivity. Qed.

(** Asking for credentials of a connection that has reviewers of its own finds
    no rule, and the rule is read: the handler panics. *)
Lemma credentials_review_panics userGroups conn found owner sid d e db :
  acReviewers conn <> [] ->
  checkConnectionRequiresReview userGroups conn found = Some (true, None)
  /\ createConnectionCredentialsReview true owner conn None sid d e db = (CreatePanics, db).
Proof.
  intros Hc. unfold checkConnectionRequiresReview, createConnectionCredentialsReview. cbn.
  by rewrite !bool_decide_eq_false_2.
Qed.

(** A provisioned session needs nobody else: it opens at once, for a user the
    caller names, on a connection whose reviewers have not been asked. *)
Definition gx_provision : Provision :=
  {| pvSession := B "s"; pvConnection := {| acID := B "c"; acName := B "c"; acReviewers := [B "dba"] |};
     pvUser := cxUser (ex_user (B "owner") []); pvBy := cxUser (ex_user (B "key") []); pvApprovedReviewers := None;
     pvAccessDurationSec := None; pvTimeWindow := None; pvInput := no_input; pvEnv := gx_env 0 None |}.

Lemma provisioned_session_runs :
  let w := gx_move (start no_reviews) (MProvision gx_provision) in
  lgDecisions (wLog w) = []
  /\ (gx_client false (gx_ctx (B "s") (B "exec")) (gx_open ∅) (gx_env 9 (Some gx_rule)) (gx_env 9 None) (wDb w)).1 = Pass None.
Proof. split; vm_compute; reflexivity. Qed.

(** An execution through MCP that ends in a request for consent approves its
    review again, also when it was rejected meanwhile. *)
Lemma consent_revives_rejected_review :
  let reject := MRead (B "s") (ex_request (ex_conn [] None) false Rejected 2 (ex_user (B "ann") [B "dba"])) in
  let before := gx_history (B "exec") ++ [MExecute (B "s") (ex_user (B "owner") []) (B "owner") 1; reject; MWrite 0 false] in
  let status ms := map rvStatus (dbReviews (wDb (fold_left gx_move ms (start no_reviews)))) in
  status before = [Rejected] /\ status (before ++ [MExecuteEnds 0 true false]) = [Approved].
Proof. split; vm_compute; reflexivity. Qed.
